(* ===== verification/_CoqProject ===== *)
-Q . S2P
Prelude.v
Text.v
Diff.v
Version.v
SemverRef.v
Core.v
Validation.v
RateLimit.v
Fs.v
Catalog.v
Storage.v
StorageFacts.v
Confinement.v
Instances.v
Locking.v
Auth.v
Crypto.v
Serving.v
Admin.v
Publish.v
PublishFacts.v
Scenarios.v
DbModels.v
Sql.v
ClientDb.v
ClientDbFacts.v
System.v
PublisherDb.v
PublisherDbFacts.v
DbScenarios.v
ClientConfig.v
Downloader.v
Checker.v
InstallPath.v
Patcher.v
PatcherFacts.v
UpdateFacts.v
Rollback.v
Daemon.v
DaemonFacts.v
UpdateCommand.v
UpdateCommandFacts.v
ClientScenarios.v
KeyFiles.v
KeyFacts.v
Archive.v
ArchiveFacts.v
ArchiveRoundtrip.v
Walk.v
Project.v
Programs.v
Manage.v
ManageFacts.v
Sidecar.v
ClientMain.v
DiffManager.v
DiffManagerFacts.v
Export.v
Import.v
ImportFacts.v
ApiClient.v
Server.v
ServerFacts.v
PublishCommand.v
PublishCommandFacts.v
Release.v
ReleaseFacts.v
UploadFacts.v
Verify.v
Cleanup.v
CleanupFacts.v
Setup.v
SetupFacts.v
PublisherMain.v
PublisherScenarios.v
ArchiveScenarios.v
SetupScenarios.v
ManageScenarios.v
ReleaseScenarios.v
ServerScenarios.v
