(* ===== verification/Prelude.v ===== *)
(** * Deltaship: a verification development

    Deltaship distributes binary updates.  A publisher signs a release and
    uploads it, with binary diffs between releases, to a server that keeps
    everything in files; clients ask the server for updates, download a diff or
    the full binary, check hash and signature, patch and swap the installed
    file.  This library models the diff engine, the core types, the server, the
    two databases, the client and the publisher's tools, from the sources under
    [src/crates].

    ** The parts and where they are modelled

    - [Prelude] (this file): results, panics, machine integers, bytes and
      slices, tactics and the generic lemmas; [Text]: the operations of [str]
      and [char] that the sources use, UTF-8, hexadecimal digits.
    - [Diff]: [deltaship-diff]: the bsdiff patch loop ([apply.rs]), generation
      ([generate.rs]) and bounded decompression ([compress.rs]).  The generator
      of the [bsdiff] crate and zstd are parameters.
    - [Version]: [deltaship-core/src/version.rs] over a class [Semver] that
      states what the [semver] crate promises; [SemverRef] is an executable
      instance of the class, so its laws are satisfiable.
    - [Core]: names, platforms, algorithms, rollout percentages and the
      update-check response of [deltaship-core].
    - [Validation]: [deltaship-server/src/validation.rs] and the path algebra
      ([Path::join], resolution of components) that validation protects.
    - [RateLimit]: [rate_limit.rs]: the sliding-window request limiter, the
      exponential backoff of failed authentications, their eviction and
      background sweeps, and the client address behind proxies.
    - [Fs]: the file system: a state monad over a tree of nodes with a fault
      schedule, the system calls the sources make, a frame logic ([respects])
      and the write-to-temporary-then-rename idiom ([replace_file]).
    - [Catalog]: the stored records of [models.rs], the classes [Serde] and
      [SerdeLaws] for [serde_json], and the pure part of the catalog update.
    - [Storage]: [storage.rs], one program per operation; [StorageFacts] crash
      safety and read-back; [Confinement] the frame of every operation;
      [Locking] the same critical sections as concurrent requests whose file
      operations may fail and which may be cancelled, with the mutex table; [Instances] executable instances and concrete worlds.
    - [Auth]: [state.rs] and [auth.rs]: [api_keys.txt], key verification and the
      authentication middleware composed with the failure limiter.
    - [Crypto]: [hashing.rs] and the signed payload of [signing.rs].
    - [Serving]: [routes/update.rs] and [routes/download.rs]; [Admin]: the
      listings of [storage.rs], [stats.rs] and [routes/admin.rs]; [Publish]:
      [routes/publish.rs]; [PublishFacts] what publishing guarantees;
      [Scenarios] the routes on a concrete server.
    - [DbModels]: [deltaship-db/src/models.rs] and [error.rs]; [Sql]: the
      database driver as a state monad (committed tables, an open transaction, a
      schedule of failures) with a logic for the effect of programs on the
      committed tables; [ClientDb] and [PublisherDb]: every operation of
      [client.rs] and [publisher.rs] over the tables of [schema.rs];
      [ClientDbFacts], [PublisherDbFacts] their invariants; [DbScenarios] an
      instance of [ORDER BY] and concrete databases.
    - [System]: programs on files and a database together, with requests, pauses
      and audit events ([audit.rs]); two frame logics, [sys_respects] for files
      and [keeps] for everything else.
    - [ClientConfig]: [config.rs] of the client; [Downloader]: [downloader.rs];
      [Checker]: [checker.rs]; [InstallPath] and [Patcher]: [patcher.rs];
      [Rollback]: [commands/rollback.rs]; [Daemon]: [daemon.rs].
      [PatcherFacts], [UpdateFacts] and [DaemonFacts] hold the theorems,
      [ClientScenarios] a concrete client.
    - [UpdateCommand]: [commands/update.rs]; [Manage]: [commands/add.rs],
      [remove.rs] and [cleanup.rs] of the client; [Sidecar]: the updater that
      applications ship ([bin/deltaship-updater.rs]), with its theorem;
      [UpdateCommandFacts] and [ManageFacts] hold the others, [ManageScenarios]
      concrete runs.
    - [ClientMain]: [main.rs] of the client with [commands/service.rs], [status.rs]
      and [list.rs]: whole runs, from the arguments to the result, and what any
      history of runs leaves.
    - [KeyFiles]: [deltaship-crypto/src/keys.rs]: the text format of key files,
      encryption with a passphrase, atomic saving; [KeyFacts] its round trips.
    - [Project]: [config.rs] of the publisher and the monad of its commands;
      [DiffManager]: [diff_manager.rs] with the compression and the file wrappers
      of [deltaship-diff]; [DiffManagerFacts] its theorems.
    - [Archive]: [archive.rs]; [ArchiveFacts] the frame, the limits and the
      accepted paths of the extraction, [ArchiveRoundtrip] what it gives back;
      [Walk]: [walkdir] as an interface with laws and an instance; [Programs]: the
      logic of commands on files and tables together; [Export] and [Import]:
      [commands/export.rs] and [commands/import.rs]; [ImportFacts] the frame of an
      import.
    - [ApiClient]: [api_client.rs]; [PublishCommand]: [commands/publish.rs];
      [Release]: [commands/register.rs], [sign.rs] and [diff.rs]; [Verify]:
      [commands/verify.rs] with its theorem; [Cleanup]: [commands/cleanup.rs];
      [Setup]: [commands/init.rs], [keygen.rs] and [config.rs].
      [PublishCommandFacts], [ReleaseFacts], [CleanupFacts] and
      [SetupFacts] hold the theorems; [UploadFacts] connects what the publisher
      sends with what the server accepts.
    - [PublisherMain]: [main.rs] of the publisher with [commands/list.rs],
      [info.rs] and [stats.rs]: the reports, whole runs, and what any history of
      runs leaves.
    - [Server]: [deltaship-server/src/main.rs], [routes/health.rs] and the route
      tables: the command line, the start, the layers around the handlers and the
      background tasks, so that a session of requests can be run; [ServerFacts]
      what the whole server guarantees, [ServerScenarios] a server at work.
    - [PublisherScenarios], [ArchiveScenarios], [SetupScenarios] and
      [ReleaseScenarios] run the publisher's tools on concrete trees.

    ** How the code is represented

    A Rust [Result] is [result E A], a computation that may panic an [outcome];
    [u8], [u32], [u64] and [usize] values are [Z] with saturation, wrapping or
    overflow panics written out where the code depends on them.  A handler or
    storage operation is a function on [Fs.world]; the [?] operator is the bind
    of [io_scope].  A client operation is a function on [System.system], with
    the bind of [sys_scope]; the network is a function from the number of the
    request and the request to the answer, and the system keeps the addresses
    that were asked.  A program that goes on after the error of a part
    ([System.attempt]) does not go on after a panic, nor after a call that never
    returns, such as waiting for a file lock that another process keeps: the
    host says who has a lock when (class [System.Panics], [InstallPath.lock_state]).
    Error texts that quote paths or
    causes are shortened; no decision depends on them.  Hash maps are finite maps with an arbitrary iteration order
    (class [HashIter]).  Time is an argument.  Logging is left out.  External
    code (BLAKE3, Ed25519, Argon2, semver, serde_json, zstd, the bsdiff
    generator, base64 and hex decoding, random bytes, the router of axum)
    appears as parameters or classes; every theorem that relies on a law of one has a witness with a
    concrete instance.

    ** What is shown

    - Diffs: on encoded control records the patch loop computes what the
      records mean, errors included; it terminates, it never holds more output
      than its limit, and generation followed by application gives the new file.
    - Store: under any crash a catalog is the old or the new one; updates read
      back; nothing outside an application's directory is touched; under the
      mutex concurrent updates are serialised whatever fails, none is lost unless
      the catalog cannot be read or a request is cancelled, and the table of
      mutexes gives all requests of an application the same mutex.
    - Catalog: it holds the published versions, newest first, with the maximum
      as the latest one.
    - Access: only keys that verify against a stored hash pass, with their own
      scope; keys out of scope change nothing; failed attempts lock out.
    - Routes: a successful publication has passed its checks and is stored
      completely and downloads return it; a rejected one publishes nothing;
      an offered version is the latest of the catalog, newer than the client's,
      listed for its platform, and in its rollout when it names its device;
      served files match their checksum.
    - Server: whatever request is served, files change only for a key that is for
      the application named in the path, and only in its directory; a session
      without such keys, and without one for ["."], leaves an application alone; what
      was published is what everybody downloads afterwards; unless a limiter
      overflows, an address gets at most twice the limit of a group of routes in a
      minute; routes are unambiguous, and the addresses that
      clients, publishers and offers use are those of the intended routes; a key
      whose hash the server printed gets in.
    - Limits: requests per window, memory of the limiter, the backoff schedule.
    - Statistics: the recursion over directories adds up the sizes of the files.
    - Databases: after any operations and failures the tables satisfy their
      invariant; failed operations change nothing (registration excepted); which
      backups cleanup and expiry remove.
    - Client: whatever fails, after an update the installed binary is the old one,
      one with the announced hash and the publisher's signature for the announced
      version, or, where the recovery was cut short, the first part of the old one;
      a failed update is undone, a successful one recorded; a rollback
      installs only authentic backups; checks and downloads end after three
      attempts; configurations that load name a server by HTTPS or on this machine.
    - Daemon: recorded versions only go up; the loop never ends as long as other
      processes release the update lock, its pauses are bounded, and a successful
      cycle has asked about every automatic binary.
    - Keys: what is saved loads again, with the passphrase and only with it.
    - Publisher: a diff job ends in the state its row tells, and the diff of a
      completed job makes a client rebuild the new binary; the extraction of an
      archive and an import leave everything else alone, an archive expands to no
      more than its limits and gives back what was put in; what is registered and
      signed is accepted by a server that allows its name and size, a version marked
      published was uploaded, a verification without [--fix] that succeeds has
      compared the hashes of every version, and the signatures when a key is
      configured, cleanup takes orphans only and pruning keeps the records of the
      newest; keys are not overwritten.
    - Commands of the client: updates do not lower the recorded version and downloads are verified;
      add, remove, cleanup and prune-backups change what they say and nothing else;
      the exit code of the sidecar tells what happened.
    - Whole runs: any history of runs of the client, and of the publisher's tool,
      leaves a consistent database and no open transaction; update, rollback, cleanup
      and prune-backups get the update lock, which no other process has then, before
      they change anything; reports and dry runs change
      nothing; the totals of [info] and [stats] are those of the tables; a service
      that was installed has its unit file, one that was uninstalled has none.
    - Deviations: theorems with concrete inputs for behaviours the code does
      not mean to have (lost updates, overflowing backoff, shared signatures,
      string order of versions, leaked uploads, a rollback that
      destroys its target, an update that cannot be repeated, an import that
      destroys the project, pruning that takes the file of a kept backup, a health
      check that always fails, a sidecar that downgrades).

    ** Fuel and bounds

    The patch loop takes one unit of fuel more than the patch has bytes, each
    iteration consuming at least one ([patch_loop_terminates]); the hash loop
    one more than the file has bytes ([hash_loop_spec]); the binary search one
    more than the list has elements ([bs_loop_total]); the recursion over
    directories and the instance of the walk one more than the longest path
    ([dir_size_looks]).  The retry loops recurse on the attempts that remain, as
    many as in the code; the daemon's
    loop has no end and is modelled by its first [n] turns for every [n].  All
    other recursion is structural.

    ** What is not modelled

    The router of axum (a parameter with its documented laws) and its extractors
    (what they read is an argument), redirects that the HTTP client follows, tokio, the parsing of arguments
    (they are given as the values clap returns), logging, progress bars, file permissions; symbolic links except
    where the client looks for them, Windows paths except in the denylist; SQL
    syntax and query planning.  Reports are modelled up to the formatting of their
    numbers; percentages, which are floating-point numbers, are left out, and so are
    shell completions and the texts of [version]. *)

From stdpp Require Export base tactics list gmap strings option numbers.
From Stdlib Require Strings.Byte Strings.Ascii.
From Stdlib Require Export Sorting.Sorted.
From Stdlib Require Export Lia ZArith.

#[local] Open Scope Z_scope.

(** ** Results, panics and their monads *)

(** Rust's [Result<A, E>]. *)
Inductive result (E A : Type) : Type :=
| Ok (a : A)
| Err (e : E).
Arguments Ok {E A} a.
Arguments Err {E A} e.

#[global] Instance result_ret E : MRet (result E) := fun A a => Ok a.
#[global] Instance result_bind E : MBind (result E) := fun A B f r =>
  match r with Ok a => f a | Err e => Err e end.
#[global] Instance result_fmap E : FMap (result E) := fun A B f r =>
  match r with Ok a => Ok (f a) | Err e => Err e end.

Definition map_err {E F A} (f : E -> F) (r : result E A) : result F A :=
  match r with Ok a => Ok a | Err e => Err (f e) end.

Definition ok_or {E A} (e : E) (o : option A) : result E A :=
  match o with Some a => Ok a | None => Err e end.

Definition ok {E A} (r : result E A) : option A :=
  match r with Ok a => Some a | Err _ => None end.

Definition is_ok {E A} (r : result E A) : bool :=
  match r with Ok _ => true | Err _ => false end.

Lemma result_bind_Ok {E A B} (r : result E A) (f : A -> result E B) b :
  (r ≫= f) = Ok b <-> exists a, r = Ok a /\ f a = Ok b.
Proof. destruct r; simpl; naive_solver. Qed.

Lemma map_err_Ok {E F A} (f : E -> F) (r : result E A) a :
  map_err f r = Ok a <-> r = Ok a.
Proof. destruct r; simpl; naive_solver. Qed.

Lemma ok_or_Ok {E A} (e : E) (o : option A) a :
  ok_or e o = Ok a <-> o = Some a.
Proof. destruct o; simpl; naive_solver. Qed.

(** A computation that may panic (an arithmetic overflow in a checked build,
    a failed [expect], a poisoned mutex). *)
Inductive outcome (A : Type) : Type :=
| Val (a : A)
| Panic.
Arguments Val {A} a.
Arguments Panic {A}.

#[global] Instance outcome_ret : MRet outcome := fun A a => Val a.
#[global] Instance outcome_bind : MBind outcome := fun A B f o =>
  match o with Val a => f a | Panic => Panic end.

(** ** Machine integers *)

Definition u8_max : Z := 2 ^ 8 - 1.
Definition u32_max : Z := 2 ^ 32 - 1.
Definition u64_max : Z := 2 ^ 64 - 1.

(** [usize] is 64 bits wide: every platform the system supports is. *)
Definition usize_max : Z := u64_max.
Definition i64_min : Z := - 2 ^ 63.
Definition i64_max : Z := 2 ^ 63 - 1.

Definition is_u8 (z : Z) : Prop := 0 <= z <= u8_max.
Definition is_u64 (z : Z) : Prop := 0 <= z <= u64_max.

Definition checked_add_usize (a b : Z) : option Z :=
  if a + b <=? usize_max then Some (a + b) else None.
Definition checked_add_i64 (a b : Z) : option Z :=
  if (i64_min <=? a + b) && (a + b <=? i64_max) then Some (a + b) else None.
Definition saturating_add_u64 (a b : Z) : Z := Z.min (a + b) u64_max.
Definition saturating_sub (a b : Z) : Z := Z.max (a - b) 0.
Definition saturating_mul_u64 (a b : Z) : Z := Z.min (a * b) u64_max.

(** [x as i64] for a [usize] [x]: two's complement reinterpretation. *)
Definition as_i64 (z : Z) : Z := if z <=? i64_max then z else z - 2 ^ 64.
(** [usize::try_from] of an [i64]. *)
Definition usize_try_from (z : Z) : option Z := if 0 <=? z then Some z else None.

(** The two build profiles of Cargo: [dev] checks arithmetic overflow and
    panics, [release] wraps. *)
Inductive profile := Debug | Release.

Definition arith (m : profile) (w z : Z) : outcome Z :=
  if (0 <=? z) && (z <? 2 ^ w) then Val z
  else match m with Debug => Panic | Release => Val (z mod 2 ^ w) end.

Lemma arith_in_range m w z : 0 <= z < 2 ^ w -> arith m w z = Val z.
Proof. intros H. unfold arith. destruct (0 <=? z) eqn:?, (z <? 2 ^ w) eqn:?; simpl; auto; lia. Qed.

Lemma arith_release w z : 0 <= w -> arith Release w z = Val (z mod 2 ^ w).
Proof.
  intros Hw. unfold arith. case_match eqn:E; [|done].
  rewrite Z.mod_small; [done|]. lia.
Qed.

(** ** Bytes *)

Abbreviation byte := Corelib.Init.Byte.byte.
Abbreviation bytes := (list byte).

Definition byte_to_Z (b : byte) : Z := Z.of_N (Byte.to_N b).
Definition byte_of_Z (z : Z) : byte :=
  default Byte.x00 (Byte.of_N (Z.to_N (z mod 256))).

#[global] Instance byte_eq_dec : EqDecision byte := Byte.byte_eq_dec.

Lemma byte_to_Z_range b : 0 <= byte_to_Z b < 256.
Proof. unfold byte_to_Z. pose proof (Byte.to_N_bounded b). lia. Qed.

Lemma byte_of_to_Z b : byte_of_Z (byte_to_Z b) = b.
Proof. by destruct b. Qed.

Lemma byte_to_of_Z z : byte_to_Z (byte_of_Z z) = z mod 256.
Proof.
  unfold byte_of_Z, byte_to_Z.
  pose proof (Z.mod_pos_bound z 256 ltac:(lia)).
  destruct (Byte.of_N (Z.to_N (z mod 256))) as [b|] eqn:E; simpl.
  - apply Byte.to_of_N in E. rewrite E. lia.
  - apply Byte.of_N_None_iff in E. lia.
Qed.

(** [u8::wrapping_add]. *)
Definition wrapping_add_u8 (a b : byte) : byte := byte_of_Z (byte_to_Z a + byte_to_Z b).
(** The inverse operation, used by patch writers. *)
Definition wrapping_sub_u8 (a b : byte) : byte := byte_of_Z (byte_to_Z a - byte_to_Z b).

Lemma wrapping_add_sub a b : wrapping_add_u8 (wrapping_sub_u8 a b) b = a.
Proof.
  unfold wrapping_add_u8, wrapping_sub_u8. rewrite byte_to_of_Z.
  rewrite <- (byte_of_to_Z a) at 2. unfold byte_of_Z.
  rewrite Zplus_mod_idemp_l. by replace (byte_to_Z a - byte_to_Z b + byte_to_Z b)
    with (byte_to_Z a) by lia.
Qed.

(** Little-endian decoding and encoding of fixed-width words. *)
Fixpoint le_combine (l : bytes) : Z :=
  match l with
  | [] => 0
  | b :: l => byte_to_Z b + 256 * le_combine l
  end.

Fixpoint le_split (n : nat) (z : Z) : bytes :=
  match n with
  | O => []
  | S n => byte_of_Z z :: le_split n (z / 256)
  end.

Lemma le_combine_range l : 0 <= le_combine l < 256 ^ Z.of_nat (length l).
Proof.
  induction l as [|b l IH]; cbn [le_combine length]; [lia|].
  pose proof (byte_to_Z_range b).
  rewrite Nat2Z.inj_succ, Z.pow_succ_r by lia. lia.
Qed.

Lemma length_le_split n z : length (le_split n z) = n.
Proof. revert z; induction n; intros; simpl; auto. Qed.

Lemma le_combine_split n z :
  0 <= z < 256 ^ Z.of_nat n -> le_combine (le_split n z) = z.
Proof.
  revert z; induction n as [|n IH]; intros z Hz; cbn [le_combine le_split].
  - simpl in Hz. lia.
  - rewrite Nat2Z.inj_succ, Z.pow_succ_r in Hz by lia.
    rewrite byte_to_of_Z, IH; [pose proof (Z.div_mod z 256); lia|].
    split; [apply Z.div_pos; lia|]. apply Z.div_lt_upper_bound; lia.
Qed.

(** ** Lists indexed by machine integers *)

Definition lenZ {A} (l : list A) : Z := Z.of_nat (length l).

Fixpoint takeZ {A} (n : Z) (l : list A) : list A :=
  match l with
  | [] => []
  | x :: l => if n <=? 0 then [] else x :: takeZ (n - 1) l
  end.

Fixpoint dropZ {A} (n : Z) (l : list A) : list A :=
  match l with
  | [] => []
  | x :: l' => if n <=? 0 then l else dropZ (n - 1) l'
  end.

Lemma takeZ_take {A} n (l : list A) : takeZ n l = take (Z.to_nat n) l.
Proof.
  revert n; induction l as [|x l IH]; intros n; cbn [takeZ]; [by rewrite take_nil|].
  destruct (Z.leb_spec n 0).
  - by replace (Z.to_nat n) with O by lia.
  - replace (Z.to_nat n) with (S (Z.to_nat (n - 1))) by lia. simpl. by rewrite IH.
Qed.

Lemma dropZ_drop {A} n (l : list A) : dropZ n l = drop (Z.to_nat n) l.
Proof.
  revert n; induction l as [|x l IH]; intros n; cbn [dropZ]; [by rewrite drop_nil|].
  destruct (Z.leb_spec n 0).
  - by replace (Z.to_nat n) with O by lia.
  - replace (Z.to_nat n) with (S (Z.to_nat (n - 1))) by lia. simpl. by rewrite IH.
Qed.

(** [slice.get(a..b)]. *)
Definition get_range {A} (l : list A) (a b : Z) : option (list A) :=
  if (a <=? b) && (b <=? lenZ l) then Some (takeZ (b - a) (dropZ a l)) else None.

Lemma lenZ_nonneg {A} (l : list A) : 0 <= lenZ l.
Proof. unfold lenZ. lia. Qed.

Lemma lenZ_app {A} (l k : list A) : lenZ (l ++ k) = lenZ l + lenZ k.
Proof. unfold lenZ. rewrite length_app. lia. Qed.

Lemma lenZ_takeZ {A} n (l : list A) :
  0 <= n -> lenZ (takeZ n l) = Z.min n (lenZ l).
Proof. intros. rewrite takeZ_take. unfold lenZ. rewrite length_take. lia. Qed.

Lemma lenZ_dropZ {A} n (l : list A) :
  0 <= n -> lenZ (dropZ n l) = Z.max (lenZ l - n) 0.
Proof. intros. rewrite dropZ_drop. unfold lenZ. rewrite length_drop. lia. Qed.

Lemma takeZ_app {A} (l k : list A) : takeZ (lenZ l) (l ++ k) = l.
Proof. rewrite takeZ_take. unfold lenZ. rewrite Nat2Z.id. by rewrite take_app_length. Qed.

Lemma dropZ_app {A} (l k : list A) : dropZ (lenZ l) (l ++ k) = k.
Proof. rewrite dropZ_drop. unfold lenZ. rewrite Nat2Z.id. by rewrite drop_app_length. Qed.

Lemma takeZ_app_eq {A} n (l k : list A) : n = lenZ l -> takeZ n (l ++ k) = l.
Proof. intros ->. apply takeZ_app. Qed.

Lemma dropZ_app_eq {A} n (l k : list A) : n = lenZ l -> dropZ n (l ++ k) = k.
Proof. intros ->. apply dropZ_app. Qed.

(** ** Automation shared by the components *)

Create HintDb deltaship.
Create Rewrite HintDb deltaship.

#[export] Hint Rewrite @lenZ_app @takeZ_app @dropZ_app : deltaship.
#[export] Hint Resolve lenZ_nonneg : deltaship.

(** Invert a successful monadic computation: one equation per step. *)
Ltac inv_ok :=
  repeat match goal with
  | H : (_ ≫= _) = Ok _ |- _ => apply result_bind_Ok in H; destruct H as (? & ? & H)
  | H : map_err _ _ = Ok _ |- _ => apply map_err_Ok in H
  | H : ok_or _ _ = Ok _ |- _ => apply ok_or_Ok in H
  | H : Ok _ = Ok _ |- _ => injection H as H; try subst
  | H : Err _ = Ok _ |- _ => discriminate H
  | H : (if ?b then _ else _) = Ok _ |- _ => destruct b eqn:?; try discriminate H
  | H : match ?x with _ => _ end = Ok _ |- _ => destruct x eqn:?; try discriminate H
  end.
