(* ===== verification/Text.v ===== *)
(** * Text: the parts of Rust's [str], [u8] formatting and [Path] the sources use

    A Rust [str] is a [string] of its UTF-8 bytes.  Predicates over [char]s that
    only accept ASCII characters (all the validators of the sources) are
    evaluated per byte: every byte of a non-ASCII character is at least 128 and
    fails them, like the character does.  White space is recognised on whole
    UTF-8 sequences.  Lower-casing maps the ASCII letters: the sources compare
    the result with literals that contain no [k], the only ASCII text that a
    non-ASCII character lower-cases to. *)

From S2P Require Import Prelude.
From Stdlib Require Strings.Ascii.
From stdpp Require Export pretty.

Export (notations, coercions) Stdlib.Strings.Ascii.

#[local] Open Scope Z_scope.

Abbreviation ascii := Stdlib.Strings.Ascii.ascii.

Definition code (c : ascii) : Z := Z.of_N (Ascii.N_of_ascii c).
Definition chr (z : Z) : ascii := Ascii.ascii_of_N (Z.to_N z).

Definition chars (s : string) : list ascii := String.list_ascii_of_string s.
Definition of_chars (l : list ascii) : string := String.string_of_list_ascii l.

Lemma of_chars_chars s : of_chars (chars s) = s.
Proof. apply String.string_of_list_ascii_of_string. Qed.

Lemma chars_of_chars l : chars (of_chars l) = l.
Proof. apply String.list_ascii_of_string_of_list_ascii. Qed.

Lemma chars_app s t : chars (s +:+ t) = chars s ++ chars t.
Proof. induction s; simpl; [done|]. unfold chars in *. simpl. by f_equal. Qed.

Lemma of_chars_app l k : of_chars (l ++ k) = of_chars l +:+ of_chars k.
Proof.
  rewrite <- (of_chars_chars (of_chars l +:+ of_chars k)), chars_app.
  by rewrite !chars_of_chars.
Qed.

#[global] Instance chars_inj : Inj (=) (=) chars.
Proof. intros s t H. by rewrite <- (of_chars_chars s), H, of_chars_chars. Qed.

#[global] Instance of_chars_inj : Inj (=) (=) of_chars.
Proof. intros s t H. by rewrite <- (chars_of_chars s), H, chars_of_chars. Qed.

(** [str::len], in bytes, and [str::as_bytes]. *)
Definition str_len (s : string) : Z := lenZ (chars s).
Definition as_bytes (s : string) : bytes := String.list_byte_of_string s.
Definition str_is_empty (s : string) : bool := bool_decide (s = "").

Lemma as_bytes_app s t : as_bytes (s +:+ t) = as_bytes s ++ as_bytes t.
Proof.
  induction s; simpl; [done|]. unfold as_bytes, String.list_byte_of_string in *.
  simpl. by f_equal.
Qed.

#[global] Instance as_bytes_inj : Inj (=) (=) as_bytes.
Proof.
  intros s t H.
  by rewrite <- (String.string_of_list_byte_of_string s), <- (String.string_of_list_byte_of_string t);
    unfold as_bytes in H; rewrite H.
Qed.

Lemma length_as_bytes s : length (as_bytes s) = length (chars s).
Proof. induction s; simpl; [done|]. by f_equal. Qed.

(** ** Character classes *)

Definition is_ascii_digit (c : ascii) : bool := (48 <=? code c) && (code c <=? 57).
Definition is_ascii_uppercase (c : ascii) : bool := (65 <=? code c) && (code c <=? 90).
Definition is_ascii_lowercase (c : ascii) : bool := (97 <=? code c) && (code c <=? 122).
Definition is_ascii_alphabetic (c : ascii) : bool := is_ascii_uppercase c || is_ascii_lowercase c.
Definition is_ascii_alphanumeric (c : ascii) : bool := is_ascii_alphabetic c || is_ascii_digit c.
Definition is_ascii_hexdigit (c : ascii) : bool :=
  is_ascii_digit c || ((65 <=? code c) && (code c <=? 70)) || ((97 <=? code c) && (code c <=? 102)).

Definition lower_char (c : ascii) : ascii :=
  if is_ascii_uppercase c then chr (code c + 32) else c.
(** [str::to_ascii_lowercase]. *)
Definition to_ascii_lowercase (s : string) : string := of_chars (lower_char <$> chars s).

(** [str::chars().all(f)] for an ASCII predicate. *)
Definition all_chars (f : ascii -> bool) (s : string) : bool := forallb f (chars s).

Lemma all_chars_app f s t : all_chars f (s +:+ t) = all_chars f s && all_chars f t.
Proof. unfold all_chars. rewrite chars_app. apply forallb_app. Qed.

Lemma all_chars_Forall f s : all_chars f s = true <-> Forall (fun c => f c = true) (chars s).
Proof. unfold all_chars. rewrite Forall_forall, forallb_forall. by setoid_rewrite list_elem_of_In. Qed.

(** ** Searching and splitting *)

Fixpoint prefixb (p l : list ascii) : bool :=
  match p, l with
  | [], _ => true
  | a :: p, b :: l => bool_decide (a = b) && prefixb p l
  | _ :: _, [] => false
  end.

Fixpoint infixb (p l : list ascii) : bool :=
  prefixb p l || match l with [] => false | _ :: l => infixb p l end.

Definition contains_char (c : ascii) (s : string) : bool := bool_decide (c ∈ chars s).
Definition contains_str (p s : string) : bool := infixb (chars p) (chars s).
Definition starts_with (p s : string) : bool := prefixb (chars p) (chars s).
Definition ends_with (p s : string) : bool := prefixb (reverse (chars p)) (reverse (chars s)).

Definition strip_prefix (p s : string) : option string :=
  if starts_with p s then Some (of_chars (drop (length (chars p)) (chars s))) else None.

Lemma prefixb_spec p l : prefixb p l = true <-> exists k, l = p ++ k.
Proof.
  revert l; induction p as [|a p IH]; intros [|b l]; simpl.
  1-2: naive_solver.
  - split; [done|]. by intros [? ?].
  - rewrite andb_true_iff, bool_decide_eq_true, IH. naive_solver.
Qed.

Lemma infixb_spec p l : infixb p l = true <-> exists l1 l2, l = l1 ++ p ++ l2.
Proof.
  revert p; induction l as [|b l IH]; intros p; cbn [infixb].
  - rewrite orb_false_r, prefixb_spec. split.
    + intros [k ?]. exists [], k. done.
    + intros ([|] & l2 & H); [|done]. by exists l2.
  - rewrite orb_true_iff, prefixb_spec, IH. split.
    + intros [[k ->] | (l1 & l2 & ->)]; [by exists [], k | by exists (b :: l1), l2].
    + intros ([|a l1] & l2 & H); simplify_eq/=; [left; by exists l2 | right; by exists l1, l2].
Qed.

Lemma starts_with_spec p s : starts_with p s = true <-> exists t, s = p +:+ t.
Proof.
  unfold starts_with. rewrite prefixb_spec. split.
  - intros [k Hk]. exists (of_chars k). apply (inj chars).
    by rewrite chars_app, chars_of_chars.
  - intros [t ->]. exists (chars t). apply chars_app.
Qed.

Lemma contains_str_spec p s :
  contains_str p s = true <-> exists a b, s = a +:+ p +:+ b.
Proof.
  unfold contains_str. rewrite infixb_spec. split.
  - intros (a & b & H). exists (of_chars a), (of_chars b). apply (inj chars).
    by rewrite !chars_app, !chars_of_chars.
  - intros (a & b & ->). exists (chars a), (chars b). by rewrite !chars_app.
Qed.

Lemma strip_prefix_Some p s t : strip_prefix p s = Some t <-> s = p +:+ t.
Proof.
  unfold strip_prefix. destruct (starts_with p s) eqn:E.
  - apply starts_with_spec in E as [u ->]. rewrite chars_app, drop_app_length, of_chars_chars.
    split; [by intros [= ->]|]. intros H. f_equal. by apply (inj (String.append p)) in H.
  - split; [done|]. intros ->. exfalso. apply not_true_iff_false in E. apply E.
    apply starts_with_spec. eauto.
Qed.

(** [str::split(c)] for a character, and for a non-empty string pattern
    (left-most, non-overlapping matches). *)
Fixpoint split_on (f : ascii -> bool) (acc : list ascii) (l : list ascii) : list string :=
  match l with
  | [] => [of_chars (reverse acc)]
  | c :: l => if f c then of_chars (reverse acc) :: split_on f [] l else split_on f (c :: acc) l
  end.
Definition split_char (c : ascii) (s : string) : list string :=
  split_on (fun d => bool_decide (c = d)) [] (chars s).

Lemma split_on_nosep f acc l :
  (forall c, c ∈ l -> f c = false) -> split_on f acc l = [of_chars (reverse acc ++ l)].
Proof.
  revert acc; induction l as [|c l IH]; intros acc H; simpl; [by rewrite app_nil_r|].
  rewrite H by set_solver. rewrite IH by set_solver. by rewrite reverse_cons, <- app_assoc.
Qed.

(** The last element of a split is the text after the last separator. *)
Lemma split_on_last f acc p d l :
  f d = true -> (forall c, c ∈ l -> f c = false) ->
  exists pre, split_on f acc (p ++ d :: l) = pre ++ [of_chars l].
Proof.
  intros Hd Hl. revert acc; induction p as [|c p IH]; intros acc; simpl.
  - rewrite Hd, split_on_nosep by done. by exists [of_chars (reverse acc)].
  - destruct (f c).
    + destruct (IH []) as [pre ->]. by exists (of_chars (reverse acc) :: pre).
    + apply IH.
Qed.

Fixpoint split_pat (p : list ascii) (acc : list ascii) (skip : nat) (l : list ascii) : list string :=
  match l with
  | [] => [of_chars (reverse acc)]
  | c :: l' =>
      match skip with
      | S k => split_pat p acc k l'
      | O => if prefixb p l then of_chars (reverse acc) :: split_pat p [] (length p - 1) l'
             else split_pat p (c :: acc) O l'
      end
  end.
Definition split_str (p s : string) : list string := split_pat (chars p) [] O (chars s).

Lemma split_pat_skip p acc k r : split_pat p acc (length k) (k ++ r) = split_pat p acc 0 r.
Proof. induction k; cbn; [done|]. done. Qed.

(** Text without the separator is one piece. *)
Lemma split_pat_none p acc l : infixb p l = false -> split_pat p acc 0 l = [of_chars (reverse acc ++ l)].
Proof.
  revert acc; induction l as [|c l IH]; intros acc; cbn [infixb]; [by rewrite app_nil_r|].
  rewrite orb_false_iff. intros [Hp Hl]. cbn [split_pat]. rewrite Hp, IH by done. by rewrite reverse_cons, <- app_assoc.
Qed.

(** The first separator ends the first piece, when none starts before it. *)
Lemma split_pat_first p d acc l r :
  infixb (p ++ [d]) (l ++ p) = false ->
  split_pat (p ++ [d]) acc 0 (l ++ (p ++ [d]) ++ r) = of_chars (reverse acc ++ l) :: split_pat (p ++ [d]) [] 0 r.
Proof.
  revert acc; induction l as [|c l IH]; intros acc H.
  - rewrite app_nil_r. cbn [app]. destruct (p ++ [d]) as [|c q] eqn:Eq; [by destruct p|]. cbn [app split_pat].
    assert (prefixb (c :: q) (c :: q ++ r) = true) as -> by (apply prefixb_spec; by exists r).
    f_equal. rewrite <- (split_pat_skip (c :: q) [] q r). f_equal. cbn. lia.
  - cbn [app] in *. cbn [infixb] in H. apply orb_false_iff in H as [Hp Hl]. cbn [split_pat].
    assert (prefixb (p ++ [d]) (c :: l ++ (p ++ [d]) ++ r) = false) as ->.
    { apply not_true_is_false. intros [k Hk]%prefixb_spec. revert Hp. apply not_false_iff_true, prefixb_spec.
      exists (drop (length (p ++ [d])) (c :: l ++ p)).
      assert (Ht : p ++ [d] = take (length (p ++ [d])) (c :: l ++ p)).
      { rewrite <- (take_app_length (p ++ [d]) k), <- Hk at 1.
        replace (c :: l ++ (p ++ [d]) ++ r) with ((c :: l ++ p) ++ [d] ++ r) by (cbn; by rewrite <- !app_assoc).
        apply take_app_le. cbn. rewrite !length_app. cbn. lia. }
      rewrite Ht at 1. by rewrite take_drop. }
    rewrite IH by done. by rewrite reverse_cons, <- app_assoc.
Qed.

(** [str::split_once(c)]. *)
Fixpoint split_once_go (c : ascii) (acc l : list ascii) : option (string * string) :=
  match l with
  | [] => None
  | d :: l => if bool_decide (c = d) then Some (of_chars (reverse acc), of_chars l)
              else split_once_go c (d :: acc) l
  end.
Definition split_once (c : ascii) (s : string) : option (string * string) :=
  split_once_go c [] (chars s).

(** ** White space (Unicode [White_Space]) on UTF-8 sequences *)

Definition is_continuation (c : ascii) : bool := (128 <=? code c) && (code c <=? 191).

(** The characters of a string, each as its UTF-8 bytes. *)
Fixpoint utf8_chars (l : list ascii) : list (list ascii) :=
  match l with
  | [] => []
  | c :: l =>
      match utf8_chars l, l with
      | k :: ks, d :: _ => if is_continuation d then (c :: k) :: ks else [c] :: k :: ks
      | ks, _ => [c] :: ks
      end
  end.

(** [str::is_ascii]. *)
Definition is_ascii (c : ascii) : bool := code c <? 128.

(** [str::to_lowercase], as far as ASCII text can tell: of the characters outside
    ASCII only the Kelvin sign (U+212A, a [k]) and the capital I with a dot
    (U+0130, an [i] with a combining dot) have ASCII letters in their lower case,
    and what the others become equals and contains no ASCII text. *)
Definition lower_unicode (u : list ascii) : list ascii :=
  match code <$> u with
  | [226; 132; 170] => ["k"%char]
  | [196; 176] => ["i"%char; chr 204; chr 135]
  | _ => lower_char <$> u
  end.
Definition to_lowercase (s : string) : string := of_chars (concat (lower_unicode <$> utf8_chars (chars s))).

Lemma utf8_chars_ascii l :
  Forall (fun c => is_ascii c = true) l -> utf8_chars l = (fun c => [c]) <$> l.
Proof.
  induction 1 as [|c l Hc Hl IH]; [done|]. cbn [utf8_chars fmap list_fmap]. rewrite IH.
  destruct Hl as [|d l Hd Hl]; [done|]. simpl.
  replace (is_continuation d) with false; [done|].
  unfold is_continuation, is_ascii in *. destruct (Z.leb_spec 128 (code d)); [lia|done].
Qed.

Lemma lower_unicode_single c : lower_unicode [c] = [lower_char c].
Proof. by destruct c as [[] [] [] [] [] [] [] []]. Qed.

Lemma to_lowercase_ascii s : all_chars is_ascii s = true -> to_lowercase s = to_ascii_lowercase s.
Proof.
  rewrite all_chars_Forall. intros H. unfold to_lowercase, to_ascii_lowercase. rewrite utf8_chars_ascii by done.
  f_equal. clear H. induction (chars s) as [|c l IH]; [done|]. cbn [fmap list_fmap concat].
  by rewrite lower_unicode_single, IH.
Qed.

Definition is_whitespace (u : list ascii) : bool :=
  match code <$> u with
  | [c] => ((9 <=? c) && (c <=? 13)) || (c =? 32)
  | [194; c] => (c =? 133) || (c =? 160)
  | [225; 154; 128] => true
  | [226; 128; c] => ((128 <=? c) && (c <=? 138)) || (c =? 168) || (c =? 169) || (c =? 175)
  | [226; 129; 159] => true
  | [227; 128; 128] => true
  | _ => false
  end.

Fixpoint drop_ws (l : list (list ascii)) : list (list ascii) :=
  match l with
  | [] => []
  | u :: l' => if is_whitespace u then drop_ws l' else l
  end.

(** [str::trim]. *)
Definition trim (s : string) : string :=
  of_chars (concat (reverse (drop_ws (reverse (drop_ws (utf8_chars (chars s))))))).

Fixpoint split_ws (acc : list ascii) (l : list (list ascii)) : list string :=
  match l with
  | [] => if bool_decide (acc = []) then [] else [of_chars acc]
  | u :: l =>
      if is_whitespace u
      then (if bool_decide (acc = []) then [] else [of_chars acc]) ++ split_ws [] l
      else split_ws (acc ++ u) l
  end.
(** [str::split_whitespace]. *)
Definition split_whitespace (s : string) : list string := split_ws [] (utf8_chars (chars s)).

Fixpoint splitn2_ws (acc : list ascii) (l : list (list ascii)) : string * option string :=
  match l with
  | [] => (of_chars acc, None)
  | u :: l => if is_whitespace u then (of_chars acc, Some (of_chars (concat l)))
              else splitn2_ws (acc ++ u) l
  end.
(** [str::splitn(2, char::is_whitespace)]: the first piece and the rest. *)
Definition splitn2_whitespace (s : string) : string * option string :=
  splitn2_ws [] (utf8_chars (chars s)).

(** [str::lines]: split at line feeds, a trailing carriage return dropped, no
    last empty line. *)
Definition strip_cr (s : string) : string :=
  match reverse (chars s) with
  | c :: r => if code c =? 13 then of_chars (reverse r) else s
  | [] => s
  end.
Definition lines (s : string) : list string :=
  let ls := split_on (fun c => code c =? 10) [] (chars s) in
  match reverse ls with
  | l :: r => if str_is_empty l then reverse (strip_cr <$> r)
              else reverse (l :: (strip_cr <$> r))
  | [] => []
  end.

(** ** UTF-8 decoding *)

Definition cont (z : Z) : bool := (128 <=? z) && (z <=? 191).
Definition between (a z b : Z) : bool := (a <=? z) && (z <=? b).

(** Well-formed UTF-8 (no overlong forms, no surrogates). *)
Fixpoint utf8_valid (l : list Z) : bool :=
  match l with
  | [] => true
  | a :: l =>
      if a <? 128 then utf8_valid l
      else match l with
           | [] => false
           | b :: l =>
               if between 194 a 223 && cont b then utf8_valid l
               else match l with
                    | [] => false
                    | c :: l =>
                        if ((a =? 224) && between 160 b 191 || between 225 a 236 && cont b ||
                            (a =? 237) && between 128 b 159 || between 238 a 239 && cont b) && cont c
                        then utf8_valid l
                        else match l with
                             | [] => false
                             | d :: l =>
                                 ((a =? 240) && between 144 b 191 || between 241 a 243 && cont b ||
                                  (a =? 244) && between 128 b 143) && cont c && cont d && utf8_valid l
                             end
                    end
           end
  end.

(** [String::from_utf8]. *)
Definition from_utf8 (b : bytes) : option string :=
  if utf8_valid (byte_to_Z <$> b) then Some (String.string_of_list_byte b) else None.

Definition is_utf8 (s : string) : Prop := utf8_valid (byte_to_Z <$> as_bytes s) = true.

Lemma from_utf8_as_bytes s : is_utf8 s -> from_utf8 (as_bytes s) = Some s.
Proof.
  intros H. unfold from_utf8. rewrite H. f_equal. apply String.string_of_list_byte_of_string.
Qed.

Lemma utf8_valid_ascii l : Forall (fun z => z < 128) l -> utf8_valid l = true.
Proof. induction 1 as [|z l Hz _ IH]; [done|]. cbn [utf8_valid]. by destruct (Z.ltb_spec z 128); [|lia]. Qed.

(** ** Hexadecimal formatting *)

Definition hex_digit (n : Z) : ascii := if n <? 10 then chr (48 + n) else chr (87 + n).

(** [format!("{:02x}", b)] and its concatenation over a slice. *)
Definition hex_byte (b : byte) : list ascii :=
  [hex_digit (byte_to_Z b / 16); hex_digit (byte_to_Z b mod 16)].
Definition hex_chars (l : bytes) : list ascii := concat (hex_byte <$> l).

(** [char::to_digit(16)]. *)
Definition digit16 (c : ascii) : option Z :=
  if is_ascii_digit c then Some (code c - 48)
  else if (97 <=? code c) && (code c <=? 102) then Some (code c - 87)
  else if (65 <=? code c) && (code c <=? 70) then Some (code c - 55)
  else None.

Lemma hex_byte_digits b :
  exists c d, hex_byte b = [c; d] /\ digit16 c = Some (byte_to_Z b / 16) /\
              digit16 d = Some (byte_to_Z b mod 16) /\
              is_ascii_hexdigit c = true /\ is_ascii_hexdigit d = true /\
              lower_char c = c /\ lower_char d = d.
Proof. destruct b; do 2 eexists; repeat split; reflexivity. Qed.

Lemma hex_chars_cons b l : hex_chars (b :: l) = hex_byte b ++ hex_chars l.
Proof. done. Qed.

Lemma length_hex_chars l : length (hex_chars l) = (2 * length l)%nat.
Proof. induction l as [|b l IH]; [done|]. rewrite hex_chars_cons, length_app, IH. simpl. lia. Qed.

Lemma hex_chars_hexdigit l : Forall (fun c => is_ascii_hexdigit c = true) (hex_chars l).
Proof.
  induction l as [|b l IH]; [constructor|]. rewrite hex_chars_cons.
  destruct (hex_byte_digits b) as (c & d & -> & _ & _ & Hc & Hd & _).
  by repeat constructor.
Qed.

Lemma hex_chars_lower l : lower_char <$> hex_chars l = hex_chars l.
Proof.
  induction l as [|b l IH]; [done|]. rewrite hex_chars_cons, fmap_app, IH.
  destruct (hex_byte_digits b) as (c & d & -> & _ & _ & _ & _ & Hc & Hd). simpl.
  by rewrite Hc, Hd.
Qed.
