(* ===== verification/Diff.v ===== *)
(** * Diff: patch application (crate [deltaship-diff])

    [apply.rs]: the bounded bsdiff patch loop over an untrusted patch, its
    verified variant; [generate.rs] and [compress.rs] over the external bsdiff
    generator and zstd decoder.  The patch format has an abstract reading (a
    list of control records) and the loop is proved to implement it. *)

From S2P Require Import Prelude Text.

#[local] Open Scope Z_scope.

(** [error.rs] *)
Inductive DiffError :=
| IoError (msg : string)
| DiffGenerationFailure (msg : string)
| PatchApplicationFailure (msg : string)
| InvalidDiff
| ChecksumMismatch (expected actual : string)
| SizeLimitExceeded (limit : Z).

Definition MAX_OUTPUT_SIZE : Z := 1024 * 1024 * 1024.
Definition MAX_DECOMPRESSED_SIZE : Z := 1024 * 1024 * 1024.

(** ** Reading control records *)

Inductive ControlRead :=
| Read (buf rest : bytes)
| Eof.

(** One [Cursor::read] of at most [n] bytes. *)
Definition cursor_read (n : nat) (r : bytes) : bytes * bytes := (take n r, drop n r).

(** The [while filled < total] loop; every iteration but the last reads at
    least one byte, so [total + 1] iterations suffice. *)
Fixpoint read_full_loop (fuel total : nat) (buf r : bytes) : option (result string ControlRead) :=
  match fuel with
  | O => None
  | S fuel =>
      if (length buf <? total)%nat then
        let '(got, r') := cursor_read (total - length buf) r in
        match got with
        | [] => if bool_decide (length buf = 0%nat) then Some (Ok Eof)
                else Some (Err "unexpected end of file")
        | _ => read_full_loop fuel total (buf ++ got) r'
        end
      else Some (Ok (Read buf r))
  end.

Definition read_full_or_eof (total : nat) (r : bytes) : result string ControlRead :=
  default (Err "unexpected end of file") (read_full_loop (S (S total)) total [] r).

Definition u64_to_usize (v : Z) : result DiffError Z :=
  if v <=? usize_max then Ok v else Err InvalidDiff.

(** Sign-magnitude little-endian [i64]. *)
Definition offtin (buf : bytes) : Z :=
  let y := le_combine buf in
  if Z.land y (2 ^ 63) =? 0 then y else - (Z.land y (2 ^ 63 - 1)).

(** ** The patch loop *)

Definition mix (n o : bytes) : bytes := zip_with wrapping_add_u8 n o.

(** [?] in the loop: the error leaves the output buffer as it is by then. *)
Definition or_stop {A B} (buffer : bytes) (r : result DiffError A) (k : A -> bytes * result DiffError B)
    : bytes * result DiffError B :=
  match r with Ok a => k a | Err e => (buffer, Err e) end.
#[local] Notation "x ←{ buffer } r ; k" := (or_stop buffer r (fun x => k))
  (at level 20, buffer at level 200, r at level 100, k at level 200, right associativity).

(** One iteration after its control record has been read, on the buffer
    [new : &mut Vec<u8>]: the buffer afterwards, also when it fails, and the
    unread patch and the new position in the old data. *)
Definition patch_exec (old : bytes) (max_output : Z) (ctrl rem new : bytes) (oldpos : Z)
    : bytes * result DiffError (bytes * Z) :=
  mix_len ←{new} u64_to_usize (le_combine (take 8 ctrl));
  copy_len ←{new} u64_to_usize (le_combine (take 8 (drop 8 ctrl)));
  let seek_len := offtin (take 8 (drop 16 ctrl)) in
  to_read ←{new} ok_or InvalidDiff (checked_add_usize copy_len mix_len);
  projected ←{new} ok_or InvalidDiff (checked_add_usize (lenZ new) to_read);
  if max_output <? projected then (new, Err (SizeLimitExceeded max_output)) else
  let mix_start := lenZ new in
  let got := takeZ to_read rem in
  let new1 := new ++ got in
  if negb (lenZ got =? to_read)
  then (new1, Err (PatchApplicationFailure "unexpected end of patch data")) else
  mix_end ←{new1} ok_or InvalidDiff (checked_add_usize mix_start mix_len);
  mix_slice ←{new1} ok_or InvalidDiff (get_range new1 mix_start mix_end);
  oldpos_end ←{new1} ok_or InvalidDiff (checked_add_usize oldpos mix_len);
  old_slice ←{new1} ok_or InvalidDiff (get_range old oldpos oldpos_end);
  let new2 := takeZ mix_start new1 ++ mix mix_slice old_slice ++ dropZ mix_end new1 in
  oldpos' ←{new2} ok_or InvalidDiff
              (checked_add_i64 (as_i64 (oldpos + mix_len)) seek_len ≫= usize_try_from);
  (new2, Ok (dropZ to_read rem, oldpos')).

(** What the loop goes on with. *)
Definition patch_step (old : bytes) (max_output : Z) (ctrl rem new : bytes) (oldpos : Z)
    : result DiffError (bytes * bytes * Z) :=
  let '(new, r) := patch_exec old max_output ctrl rem new oldpos in
  '(rem, oldpos) ← r; Ok (new, rem, oldpos).

Fixpoint patch_loop (fuel : nat) (old : bytes) (max_output : Z) (rem new : bytes) (oldpos : Z)
    : option (result DiffError bytes) :=
  match fuel with
  | O => None
  | S fuel =>
      match read_full_or_eof 24 rem with
      | Err e => Some (Err (PatchApplicationFailure e))
      | Ok Eof => Some (Ok new)
      | Ok (Read ctrl rem) =>
          match patch_step old max_output ctrl rem new oldpos with
          | Err e => Some (Err e)
          | Ok (new, rem, oldpos) => patch_loop fuel old max_output rem new oldpos
          end
      end
  end.

(** Every iteration consumes the 24 bytes of its control record, so one more
    iteration than the patch has bytes is enough ([patch_loop_total]); the
    [None] branch is never taken. *)
Definition bounded_patch (old patch new : bytes) (max_output : Z) : result DiffError bytes :=
  default (Err InvalidDiff) (patch_loop (S (length patch)) old max_output patch new 0).

Definition apply_patch_bounded (old patch : bytes) (max_output : Z) : result DiffError bytes :=
  bounded_patch old patch [] max_output.

Definition apply_patch (old patch : bytes) : result DiffError bytes :=
  apply_patch_bounded old patch MAX_OUTPUT_SIZE.

Definition hex_encode (l : bytes) : string := of_chars (hex_chars l).

Section Verified.
(** [blake3::hash], an external crate. *)
Context (blake3 : bytes -> bytes).

Definition apply_patch_verified (old patch : bytes) (expected_hash : option bytes)
    : result DiffError bytes :=
  new ← apply_patch old patch;
  match expected_hash with
  | Some expected =>
      let actual := blake3 new in
      if bool_decide (actual = expected) then Ok new
      else Err (ChecksumMismatch (hex_encode expected) (hex_encode actual))
  | None => Ok new
  end.
End Verified.

(** ** Generation and decompression over external codecs *)

Section Codecs.
(** [bsdiff::diff] and the byte stream [zstd::Decoder] yields: what it
    produces when read to the end, or the I/O error met after the bytes that
    could be decoded. *)
Context (bsdiff_diff : bytes -> bytes -> result string bytes).
Context (zstd_decoder_new : bytes -> result string (bytes * option string)).

Definition generate_diff (old new : bytes) : result DiffError bytes :=
  map_err DiffGenerationFailure (bsdiff_diff old new).

(** [decoder.take(n).read_to_end(..)]: the error is only met when the limit
    is not reached first. *)
Definition take_read_to_end (n : Z) (stream : bytes * option string) : result DiffError bytes :=
  let '(data, err) := stream in
  if n <=? lenZ data then Ok (takeZ n data)
  else match err with Some e => Err (IoError e) | None => Ok data end.

Definition decompress_diff_bounded (compressed : bytes) (max_size : Z) : result DiffError bytes :=
  decoder ← map_err IoError (zstd_decoder_new compressed);
  out ← take_read_to_end (max_size + 1) decoder;
  if max_size <? lenZ out then Err (SizeLimitExceeded max_size) else Ok out.

Definition decompress_diff (compressed : bytes) : result DiffError bytes :=
  decompress_diff_bounded compressed MAX_DECOMPRESSED_SIZE.
End Codecs.

(** ** The patch format, abstractly *)

(** A control record: the bytes added to old bytes, the literal bytes, and the
    seek in the old data. *)
Record Control := { c_mix : bytes; c_copy : bytes; c_seek : Z }.

Definition offtout (z : Z) : bytes := le_split 8 (if z <? 0 then 2 ^ 63 - z else z).

Definition encode_control (c : Control) : bytes :=
  le_split 8 (lenZ (c_mix c)) ++ le_split 8 (lenZ (c_copy c)) ++ offtout (c_seek c) ++
  c_mix c ++ c_copy c.

Definition encode_patch (cs : list Control) : bytes := concat (encode_control <$> cs).

(** What a list of records means: the output it produces from [old], when every
    access is inside the old data and the output stays within the limit. *)
Fixpoint run_controls (old : bytes) (limit : Z) (cs : list Control) (new : bytes) (pos : Z)
    : result DiffError (bytes * Z) :=
  match cs with
  | [] => Ok (new, pos)
  | c :: cs =>
      if limit <? lenZ new + lenZ (c_mix c) + lenZ (c_copy c) then Err (SizeLimitExceeded limit)
      else if lenZ old <? pos + lenZ (c_mix c) then Err InvalidDiff
      else if pos + lenZ (c_mix c) + c_seek c <? 0 then Err InvalidDiff
      else run_controls old limit cs
             (new ++ mix (c_mix c) (takeZ (lenZ (c_mix c)) (dropZ pos old)) ++ c_copy c)
             (pos + lenZ (c_mix c) + c_seek c)
  end.

Definition apply_controls (old : bytes) (limit : Z) (cs : list Control) : result DiffError bytes :=
  fst <$> run_controls old limit cs [] 0.

(** A record a 64-bit writer can emit for data that fits in memory. *)
Definition wf_control (c : Control) : Prop :=
  lenZ (c_mix c) + lenZ (c_copy c) <= 2 ^ 61 /\ - 2 ^ 61 <= c_seek c <= 2 ^ 61.

(** The patch that carries the whole target as literal bytes. *)
Definition literal_patch (new : bytes) : list Control :=
  [{| c_mix := []; c_copy := new; c_seek := 0 |}].

(** The patch between two versions of equal length: their byte-wise difference. *)
Definition delta_patch (old new : bytes) : list Control :=
  [{| c_mix := zip_with wrapping_sub_u8 new old; c_copy := []; c_seek := 0 |}].

(** ** Lemmas *)

Lemma read_full_or_eof_spec total r :
  (0 < total)%nat ->
  read_full_or_eof total r =
    if (total <=? length r)%nat then Ok (Read (take total r) (drop total r))
    else if bool_decide (r = []) then Ok Eof else Err "unexpected end of file".
Proof.
  intros Ht. unfold read_full_or_eof. cbn [read_full_loop length].
  destruct (Nat.ltb_spec 0 total); [|lia]. unfold cursor_read.
  rewrite Nat.sub_0_r. destruct r as [|b r].
  { rewrite take_nil. simpl. destruct (Nat.leb_spec total 0); [lia|done]. }
  destruct total as [|n]; [lia|]. cbn [take drop app length].
  rewrite bool_decide_eq_false_2 by done.
  destruct (Nat.leb_spec (S n) (S (length r))) as [Hle|Hlt].
  - rewrite length_take_le by lia. by rewrite Nat.ltb_irrefl.
  - rewrite take_ge, drop_ge by lia.
    destruct (Nat.ltb_spec (S (length r)) (S n)); [|lia].
    by rewrite take_nil.
Qed.

Lemma get_range_Some {A} (l : list A) a b k :
  0 <= a -> get_range l a b = Some k ->
  a <= b <= lenZ l /\ k = takeZ (b - a) (dropZ a l) /\ lenZ k = b - a.
Proof.
  intros Ha. unfold get_range. case_match eqn:E; [|done]. intros [= <-].
  split_and!; [lia..|done|]. rewrite lenZ_takeZ, lenZ_dropZ by lia. lia.
Qed.

Lemma get_range_mid {A} (l k m : list A) :
  get_range (l ++ k ++ m) (lenZ l) (lenZ l + lenZ k) = Some k.
Proof.
  unfold get_range. rewrite !lenZ_app.
  pose proof (lenZ_nonneg k). pose proof (lenZ_nonneg m).
  destruct (Z.leb_spec (lenZ l) (lenZ l + lenZ k)); [|lia].
  destruct (Z.leb_spec (lenZ l + lenZ k) (lenZ l + (lenZ k + lenZ m))); [|lia]. cbn [andb].
  by rewrite dropZ_app, takeZ_app_eq by lia.
Qed.

Lemma lenZ_mix n o : lenZ n = lenZ o -> lenZ (mix n o) = lenZ n.
Proof. unfold lenZ, mix. intros. rewrite length_zip_with. lia. Qed.

Lemma checked_add_usize_Some a b c :
  checked_add_usize a b = Some c <-> c = a + b /\ a + b <= usize_max.
Proof. unfold checked_add_usize. destruct (Z.leb_spec (a + b) usize_max); naive_solver lia. Qed.

Lemma checked_add_usize_ok a b : a + b <= usize_max -> checked_add_usize a b = Some (a + b).
Proof. intros. by apply checked_add_usize_Some. Qed.

Lemma u64_to_usize_Ok v w : u64_to_usize v = Ok w <-> w = v /\ v <= usize_max.
Proof. unfold u64_to_usize. destruct (Z.leb_spec v usize_max); naive_solver lia. Qed.

Lemma u64_to_usize_ok v : v <= usize_max -> u64_to_usize v = Ok v.
Proof. intros. by apply u64_to_usize_Ok. Qed.

(** The outcome of an iteration without the buffer of its failures. *)
Lemma patch_step_unfold old limit ctrl rem new pos :
  patch_step old limit ctrl rem new pos =
  mix_len ← u64_to_usize (le_combine (take 8 ctrl));
  copy_len ← u64_to_usize (le_combine (take 8 (drop 8 ctrl)));
  to_read ← ok_or InvalidDiff (checked_add_usize copy_len mix_len);
  projected ← ok_or InvalidDiff (checked_add_usize (lenZ new) to_read);
  if limit <? projected then Err (SizeLimitExceeded limit) else
  if negb (lenZ (takeZ to_read rem) =? to_read)
  then Err (PatchApplicationFailure "unexpected end of patch data") else
  mix_end ← ok_or InvalidDiff (checked_add_usize (lenZ new) mix_len);
  mix_slice ← ok_or InvalidDiff (get_range (new ++ takeZ to_read rem) (lenZ new) mix_end);
  oldpos_end ← ok_or InvalidDiff (checked_add_usize pos mix_len);
  old_slice ← ok_or InvalidDiff (get_range old pos oldpos_end);
  pos' ← ok_or InvalidDiff
           (checked_add_i64 (as_i64 (pos + mix_len)) (offtin (take 8 (drop 16 ctrl))) ≫= usize_try_from);
  Ok (takeZ (lenZ new) (new ++ takeZ to_read rem) ++ mix mix_slice old_slice ++ dropZ mix_end (new ++ takeZ to_read rem),
      dropZ to_read rem, pos').
Proof.
  unfold patch_step, patch_exec, or_stop, mbind, result_bind.
  repeat (case_match; simplify_eq/=; try done).
Qed.

(** The buffer after an iteration, failed or not, is within the limit. *)
Lemma patch_exec_buffer old limit ctrl rem new pos :
  0 <= pos -> lenZ new <= limit -> lenZ (patch_exec old limit ctrl rem new pos).1 <= limit.
Proof.
  intros Hpos Hnew. unfold patch_exec, or_stop.
  set (m := le_combine (take 8 ctrl)). set (c := le_combine (take 8 (drop 8 ctrl))).
  assert (0 <= m) by apply le_combine_range. assert (0 <= c) by apply le_combine_range.
  destruct (u64_to_usize m) as [m'|] eqn:Hm; [|done]. apply u64_to_usize_Ok in Hm as [-> ?].
  destruct (u64_to_usize c) as [c'|] eqn:Hc; [|done]. apply u64_to_usize_Ok in Hc as [-> ?].
  destruct (ok_or InvalidDiff (checked_add_usize c m)) as [tr|] eqn:Htr; [|done].
  apply ok_or_Ok, checked_add_usize_Some in Htr as [-> ?].
  destruct (ok_or InvalidDiff (checked_add_usize (lenZ new) (c + m))) as [pj|] eqn:Hpj; [|done].
  apply ok_or_Ok, checked_add_usize_Some in Hpj as [-> ?].
  destruct (Z.ltb_spec limit (lenZ new + (c + m))); [done|].
  assert (lenZ (new ++ takeZ (c + m) rem) <= limit) as Hgrown.
  { rewrite lenZ_app, lenZ_takeZ by lia. lia. }
  destruct (lenZ (takeZ (c + m) rem) =? c + m) eqn:Hlen; cbn [negb]; [|done]. apply Z.eqb_eq in Hlen.
  destruct (ok_or InvalidDiff (checked_add_usize (lenZ new) m)) as [me|] eqn:Hme; [|done].
  apply ok_or_Ok, checked_add_usize_Some in Hme as [-> ?].
  destruct (ok_or InvalidDiff (get_range _ _ _)) as [ms|] eqn:Hms; [|done]. apply ok_or_Ok in Hms.
  apply get_range_Some in Hms as (_ & -> & Hms); [|apply lenZ_nonneg].
  destruct (ok_or InvalidDiff (checked_add_usize pos m)) as [oe|] eqn:Hoe; [|done].
  apply ok_or_Ok, checked_add_usize_Some in Hoe as [-> ?].
  destruct (ok_or InvalidDiff (get_range old _ _)) as [os|] eqn:Hos; [|done]. apply ok_or_Ok in Hos.
  apply get_range_Some in Hos as (_ & -> & Hos); [|done].
  assert (forall b, b = takeZ (lenZ new) (new ++ takeZ (c + m) rem) ++
      mix (takeZ (lenZ new + m - lenZ new) (dropZ (lenZ new) (new ++ takeZ (c + m) rem))) (takeZ (pos + m - pos) (dropZ pos old)) ++
      dropZ (lenZ new + m) (new ++ takeZ (c + m) rem) -> lenZ b <= limit) as Hb.
  { intros b ->. rewrite takeZ_app, !lenZ_app, lenZ_mix by lia.
    rewrite lenZ_dropZ, lenZ_app by (pose proof (lenZ_nonneg new); lia). lia. }
  case_match; by apply Hb.
Qed.

(** Inversion of a successful iteration: the output grew by exactly the bytes
    read, at its end, and stayed within the limit. *)
Lemma patch_step_Ok old limit ctrl rem new pos new' rem' pos' :
  0 <= pos ->
  patch_step old limit ctrl rem new pos = Ok (new', rem', pos') ->
  exists k, new' = new ++ k /\ lenZ new' <= limit /\
            (length k + length rem' = length rem)%nat /\ 0 <= pos'.
Proof.
  intros Hpos. rewrite patch_step_unfold.
  set (m := le_combine (take 8 ctrl)). set (c := le_combine (take 8 (drop 8 ctrl))).
  assert (0 <= m) by apply le_combine_range. assert (0 <= c) by apply le_combine_range.
  intros (m' & Hm & H1)%result_bind_Ok. apply u64_to_usize_Ok in Hm as [-> ?].
  apply result_bind_Ok in H1 as (c' & Hc & H1). apply u64_to_usize_Ok in Hc as [-> ?].
  apply result_bind_Ok in H1 as (tr & Htr & H1).
  apply ok_or_Ok, checked_add_usize_Some in Htr as [-> ?].
  apply result_bind_Ok in H1 as (pj & Hpj & H1).
  apply ok_or_Ok, checked_add_usize_Some in Hpj as [-> ?].
  destruct (Z.ltb_spec limit (lenZ new + (c + m))); [done|].
  destruct (lenZ (takeZ (c + m) rem) =? c + m) eqn:Hlen; cbn [negb] in H1; [|done].
  apply Z.eqb_eq in Hlen.
  apply result_bind_Ok in H1 as (me & Hme & H1).
  apply ok_or_Ok, checked_add_usize_Some in Hme as [-> ?].
  apply result_bind_Ok in H1 as (ms & Hms & H1). apply ok_or_Ok in Hms.
  apply get_range_Some in Hms as (_ & -> & Hms); [|apply lenZ_nonneg].
  apply result_bind_Ok in H1 as (oe & Hoe & H1).
  apply ok_or_Ok, checked_add_usize_Some in Hoe as [-> ?].
  apply result_bind_Ok in H1 as (os & Hos & H1). apply ok_or_Ok in Hos.
  apply get_range_Some in Hos as (_ & -> & Hos); [|done].
  apply result_bind_Ok in H1 as (op & Hop & H1). apply ok_or_Ok in Hop.
  injection H1 as <- <- <-.
  apply bind_Some in Hop as (z & _ & Hz). unfold usize_try_from in Hz.
  destruct (Z.leb_spec 0 z); simplify_eq.
  rewrite takeZ_app. eexists. split; [done|].
  assert (Hk : lenZ (mix (takeZ (lenZ new + m - lenZ new) (dropZ (lenZ new) (new ++ takeZ (c + m) rem)))
             (takeZ (pos + m - pos) (dropZ pos old)) ++
             dropZ (lenZ new + m) (new ++ takeZ (c + m) rem)) = c + m).
  { rewrite lenZ_app, lenZ_mix by lia. rewrite lenZ_dropZ, lenZ_app by (pose proof (lenZ_nonneg new); lia).
    lia. }
  split_and!; [rewrite lenZ_app; lia| |lia].
  assert (lenZ (dropZ (c + m) rem) = lenZ rem - (c + m)).
  { rewrite lenZ_dropZ by lia. rewrite lenZ_takeZ in Hlen by lia. lia. }
  unfold lenZ in *. lia.
Qed.

Lemma land_sign_bit y : (Z.land y (2 ^ 63) =? 0) = negb (Z.testbit y 63).
Proof.
  destruct (Z.testbit y 63) eqn:E; simpl.
  - apply Z.eqb_neq. intros H. apply (f_equal (fun z => Z.testbit z 63)) in H.
    rewrite Z.land_spec, Z.pow2_bits_true, Z.bits_0, E in H by lia. done.
  - apply Z.eqb_eq, Z.bits_inj'. intros n Hn. rewrite Z.land_spec, Z.bits_0.
    rewrite Z.pow2_bits_eqb by lia. destruct (Z.eqb_spec 63 n); [subst|]; by rewrite ?E, ?andb_false_r.
Qed.

Lemma testbit_63 y : 0 <= y < 2 ^ 64 -> Z.testbit y 63 = (2 ^ 63 <=? y).
Proof.
  intros Hy. rewrite Z.testbit_odd, Z.shiftr_div_pow2 by lia.
  destruct (Z.leb_spec (2 ^ 63) y).
  - replace (y / 2 ^ 63) with 1; [done|]. apply Z.div_unique with (y - 2 ^ 63); lia.
  - rewrite Z.div_small by lia. done.
Qed.

Lemma offtin_offtout z : - 2 ^ 63 < z < 2 ^ 63 -> offtin (offtout z) = z.
Proof.
  intros Hz. unfold offtin, offtout.
  rewrite le_combine_split by (destruct (Z.ltb_spec z 0); lia).
  rewrite land_sign_bit, testbit_63 by (destruct (Z.ltb_spec z 0); lia).
  destruct (Z.ltb_spec z 0).
  - destruct (Z.leb_spec (2 ^ 63) (2 ^ 63 - z)); [|lia]. cbn [negb].
    change (2 ^ 63 - 1) with (Z.ones 63). rewrite Z.land_ones by lia.
    replace (2 ^ 63 - z) with (- z + 1 * 2 ^ 63) by lia.
    rewrite Z.mod_add, Z.mod_small by lia. lia.
  - destruct (Z.leb_spec (2 ^ 63) z); [lia|done].
Qed.

Definition control_header (c : Control) : bytes :=
  le_split 8 (lenZ (c_mix c)) ++ le_split 8 (lenZ (c_copy c)) ++ offtout (c_seek c).

Lemma encode_control_header c : encode_control c = control_header c ++ c_mix c ++ c_copy c.
Proof. unfold encode_control, control_header. by rewrite <- !app_assoc. Qed.

Lemma length_control_header c : length (control_header c) = 24%nat.
Proof. unfold control_header, offtout. by rewrite !length_app, !length_le_split. Qed.

Lemma control_header_fields c :
  wf_control c ->
  le_combine (take 8 (control_header c)) = lenZ (c_mix c) /\
  le_combine (take 8 (drop 8 (control_header c))) = lenZ (c_copy c) /\
  offtin (take 8 (drop 16 (control_header c))) = c_seek c.
Proof.
  intros [Hl Hs]. pose proof (lenZ_nonneg (c_mix c)). pose proof (lenZ_nonneg (c_copy c)).
  unfold control_header.
  rewrite take_app_length' by (by rewrite length_le_split).
  rewrite drop_app_length' by (by rewrite length_le_split).
  rewrite take_app_length' by (by rewrite length_le_split).
  rewrite app_assoc, drop_app_length' by (rewrite length_app, !length_le_split; done).
  rewrite take_ge by (unfold offtout; rewrite length_le_split; done).
  rewrite !le_combine_split, offtin_offtout by lia. done.
Qed.

(** One iteration on an encoded record does what the record means. *)
Lemma patch_step_control old limit c tail new pos :
  wf_control c -> lenZ old <= 2 ^ 61 -> 0 <= limit <= 2 ^ 62 -> 0 <= pos <= 2 ^ 62 -> lenZ new <= limit ->
  patch_step old limit (control_header c) (c_mix c ++ c_copy c ++ tail) new pos =
  '(new', pos') ← run_controls old limit [c] new pos; Ok (new', tail, pos').
Proof.
  intros Hwf Hold Hlim Hpos Hnew. pose proof Hwf as [Hl Hs].
  destruct (control_header_fields c Hwf) as (E1 & E2 & E3).
  rewrite patch_step_unfold, E1, E2, E3.
  pose proof (lenZ_nonneg (c_mix c)). pose proof (lenZ_nonneg (c_copy c)). pose proof (lenZ_nonneg new).
  rewrite !u64_to_usize_ok by (unfold usize_max, u64_max; lia).
  cbn [mbind result_bind].
  repeat (rewrite checked_add_usize_ok by (unfold usize_max, u64_max; lia);
          cbn [mbind result_bind ok_or]).
  cbn [run_controls].
  replace (lenZ new + (lenZ (c_copy c) + lenZ (c_mix c)))
    with (lenZ new + lenZ (c_mix c) + lenZ (c_copy c)) by lia.
  destruct (Z.ltb_spec limit (lenZ new + lenZ (c_mix c) + lenZ (c_copy c))); [done|].
  rewrite (app_assoc (c_mix c)).
  rewrite !(takeZ_app_eq _ (c_mix c ++ c_copy c) tail) by (rewrite lenZ_app; lia).
  rewrite (dropZ_app_eq _ (c_mix c ++ c_copy c) tail) by (rewrite lenZ_app; lia).
  rewrite (lenZ_app (c_mix c)), (Z.add_comm (lenZ (c_copy c))), Z.eqb_refl. cbn [negb].
  rewrite get_range_mid. cbn [ok_or mbind result_bind]. rewrite takeZ_app.
  rewrite (app_assoc new), (dropZ_app_eq _ (new ++ c_mix c)) by (rewrite lenZ_app; lia).
  unfold get_range. destruct (Z.leb_spec pos (pos + lenZ (c_mix c))); [|lia]. cbn [andb].
  destruct (Z.ltb_spec (lenZ old) (pos + lenZ (c_mix c))), (Z.leb_spec (pos + lenZ (c_mix c)) (lenZ old));
    try lia; [done|]. cbn [ok_or mbind result_bind].
  replace (pos + lenZ (c_mix c) - pos) with (lenZ (c_mix c)) by lia.
  unfold checked_add_i64, as_i64, i64_min, i64_max, usize_try_from.
  destruct (Z.leb_spec (pos + lenZ (c_mix c)) (2 ^ 63 - 1)); [|lia].
  destruct (Z.leb_spec (- 2 ^ 63) (pos + lenZ (c_mix c) + c_seek c)); [|lia].
  destruct (Z.leb_spec (pos + lenZ (c_mix c) + c_seek c) (2 ^ 63 - 1)); [|lia]. cbn.
  destruct (Z.leb_spec 0 (pos + lenZ (c_mix c) + c_seek c)),
    (Z.ltb_spec (pos + lenZ (c_mix c) + c_seek c) 0); try lia; done.
Qed.

(** ** The whole loop *)

Lemma patch_loop_total fuel old limit rem new pos :
  0 <= pos -> (length rem < fuel)%nat -> is_Some (patch_loop fuel old limit rem new pos).
Proof.
  revert rem new pos; induction fuel as [|fuel IH]; intros rem new pos Hpos Hf; [lia|].
  cbn [patch_loop]. rewrite read_full_or_eof_spec by lia.
  destruct (Nat.leb_spec 24 (length rem)); [|case_bool_decide; eauto].
  destruct (patch_step _ _ _ _ _ _) as [[[new' rem'] pos']|e] eqn:E; [|eauto].
  apply patch_step_Ok in E as (k & _ & _ & Hlen & Hp); [|done].
  rewrite length_drop in Hlen. apply IH; lia.
Qed.

(** More fuel does not change the answer. *)
Lemma patch_loop_mono fuel fuel' old limit rem new pos r :
  patch_loop fuel old limit rem new pos = Some r -> (fuel <= fuel')%nat ->
  patch_loop fuel' old limit rem new pos = Some r.
Proof.
  revert fuel' rem new pos; induction fuel as [|fuel IH]; intros [|fuel'] rem new pos H Hf; try lia; [done..|].
  cbn [patch_loop] in *. destruct (read_full_or_eof 24 rem) as [[ctrl rest| ]|]; [|done..].
  destruct (patch_step _ _ _ _ _ _) as [[[new' rem'] pos']|e]; [|done].
  apply IH; [done|lia].
Qed.

(** The loop on an encoded prefix is the meaning of the prefix, then the loop
    on what follows it. *)
Lemma patch_loop_encode cs fuel old limit tail new pos :
  Forall wf_control cs -> lenZ old <= 2 ^ 61 -> 0 <= limit <= 2 ^ 62 ->
  0 <= pos <= 2 ^ 62 -> lenZ new <= limit ->
  patch_loop (length cs + fuel) old limit (encode_patch cs ++ tail) new pos =
  match run_controls old limit cs new pos with
  | Err e => Some (Err e)
  | Ok (new', pos') => patch_loop fuel old limit tail new' pos'
  end.
Proof.
  intros Hwf Hold Hlim. revert new pos. induction Hwf as [|c cs Hc Hcs IH]; intros new pos Hpos Hnew; [done|].
  cbn [length Nat.add patch_loop run_controls]. unfold encode_patch. cbn [fmap list_fmap concat].
  fold (encode_patch cs). rewrite encode_control_header, <- !app_assoc.
  rewrite read_full_or_eof_spec by lia.
  destruct (Nat.leb_spec 24 (length (control_header c ++ c_mix c ++ c_copy c ++ encode_patch cs ++ tail)))
    as [_|Hlt]; [|rewrite length_app, length_control_header in Hlt; lia].
  rewrite take_app_length', drop_app_length' by (by rewrite length_control_header).
  rewrite patch_step_control by done. cbn [run_controls].
  destruct (Z.ltb_spec limit (lenZ new + lenZ (c_mix c) + lenZ (c_copy c))); [done|].
  destruct (Z.ltb_spec (lenZ old) (pos + lenZ (c_mix c))); [done|].
  destruct (Z.ltb_spec (pos + lenZ (c_mix c) + c_seek c) 0); [done|]. cbn [mbind result_bind].
  pose proof Hc as [Hl Hs]. pose proof (lenZ_nonneg (c_mix c)). pose proof (lenZ_nonneg (c_copy c)).
  apply IH; [lia|]. rewrite !lenZ_app, lenZ_mix; [lia|].
  rewrite lenZ_takeZ, lenZ_dropZ by lia. lia.
Qed.

Lemma length_encode_patch cs : (24 * length cs <= length (encode_patch cs))%nat.
Proof.
  induction cs as [|c cs IH]; [simpl; lia|]. unfold encode_patch in *. cbn [fmap list_fmap concat length].
  rewrite length_app, encode_control_header, length_app, length_control_header. simpl in IH. lia.
Qed.

Lemma run_controls_pos old limit cs new pos new' pos' :
  0 <= pos -> run_controls old limit cs new pos = Ok (new', pos') -> 0 <= pos'.
Proof.
  revert new pos; induction cs as [|c cs IH]; intros new pos H0; cbn [run_controls]; [by intros [= _ <-]|].
  destruct (limit <? _); [done|]. destruct (lenZ old <? _); [done|].
  destruct (Z.ltb_spec (pos + lenZ (c_mix c) + c_seek c) 0); [done|]. by apply IH.
Qed.

Lemma bounded_patch_encode cs old limit tail :
  Forall wf_control cs -> lenZ old <= 2 ^ 61 -> 0 <= limit <= 2 ^ 62 ->
  bounded_patch old (encode_patch cs ++ tail) [] limit =
  match run_controls old limit cs [] 0 with
  | Err e => Err e
  | Ok (new', pos') => default (Err InvalidDiff) (patch_loop (S (length tail)) old limit tail new' pos')
  end.
Proof.
  intros Hwf Hold Hlim. unfold bounded_patch.
  pose proof (length_encode_patch cs) as Hlen.
  rewrite length_app.
  assert (exists n, S (length (encode_patch cs) + length tail) = (length cs + (S (length tail) + n)))%nat
    as [n ->] by (exists (length (encode_patch cs) - length cs)%nat; lia).
  rewrite patch_loop_encode by (done || unfold lenZ; simpl; lia).
  destruct (run_controls old limit cs [] 0) as [[new' pos']|e] eqn:E; [|done].
  apply run_controls_pos in E; [|lia].
  destruct (patch_loop_total (S (length tail)) old limit tail new' pos') as [r Hr]; [lia..|].
  rewrite Hr. erewrite patch_loop_mono; [done..|lia].
Qed.

(** States of the loop that one application can pass through. *)
Inductive patch_reach (old : bytes) (limit : Z) (patch : bytes) : bytes -> bytes -> Z -> Prop :=
| reach_start : patch_reach old limit patch patch [] 0
| reach_step rem new pos ctrl rest new' rem' pos' :
    patch_reach old limit patch rem new pos ->
    read_full_or_eof 24 rem = Ok (Read ctrl rest) ->
    patch_exec old limit ctrl rest new pos = (new', Ok (rem', pos')) ->
    patch_reach old limit patch rem' new' pos'.

(** The output buffer at the head of the loop, and after an iteration whether
    it succeeded or not. *)
Inductive patch_buffer (old : bytes) (limit : Z) (patch : bytes) : bytes -> Prop :=
| buffer_head rem new pos : patch_reach old limit patch rem new pos -> patch_buffer old limit patch new
| buffer_after rem new pos ctrl rest :
    patch_reach old limit patch rem new pos -> read_full_or_eof 24 rem = Ok (Read ctrl rest) ->
    patch_buffer old limit patch (patch_exec old limit ctrl rest new pos).1.

Lemma patch_exec_step old limit ctrl rem new pos new' rem' pos' :
  patch_step old limit ctrl rem new pos = Ok (new', rem', pos') <->
  patch_exec old limit ctrl rem new pos = (new', Ok (rem', pos')).
Proof.
  unfold patch_step. destruct (patch_exec _ _ _ _ _ _) as [b [[r p]|e]]; cbn; naive_solver.
Qed.

Lemma patch_reach_inv old limit patch rem new pos :
  0 <= limit -> patch_reach old limit patch rem new pos ->
  lenZ new <= limit /\ 0 <= pos /\ (length new + length rem <= length patch)%nat.
Proof.
  intros Hl. induction 1 as [|rem new pos ctrl rest new' rem' pos' _ (IH1 & IH2 & IH3) Hr Hs].
  - unfold lenZ. simpl. lia.
  - rewrite read_full_or_eof_spec in Hr by lia.
    destruct (Nat.leb_spec 24 (length rem)); [|by case_bool_decide]. simplify_eq.
    apply patch_exec_step, patch_step_Ok in Hs as (k & -> & ? & ? & ?); [|done].
    rewrite length_app. rewrite length_drop in *. lia.
Qed.

Lemma patch_loop_reach fuel old limit patch rem new pos r :
  patch_reach old limit patch rem new pos ->
  patch_loop fuel old limit rem new pos = Some (Ok r) ->
  exists pos', patch_reach old limit patch [] r pos'.
Proof.
  revert rem new pos; induction fuel as [|fuel IH]; intros rem new pos HR; [done|].
  cbn [patch_loop]. destruct (read_full_or_eof 24 rem) as [[ctrl rest| ]|] eqn:Hr; [| |done].
  - destruct (patch_step _ _ _ _ _ _) as [[[new' rem'] pos']|e] eqn:Hs; [|done].
    intros H. eapply IH; [|done]. apply patch_exec_step in Hs. by econstructor.
  - intros [= <-]. rewrite read_full_or_eof_spec in Hr by lia.
    destruct (24 <=? length rem)%nat; [done|]. case_bool_decide; [subst; eauto|done].
Qed.

Lemma bounded_patch_loop old patch limit r :
  bounded_patch old patch [] limit = r ->
  patch_loop (S (length patch)) old limit patch [] 0 = Some r.
Proof.
  unfold bounded_patch. destruct (patch_loop_total (S (length patch)) old limit patch [] 0) as [r' Hr];
    [lia..|]. rewrite Hr. by intros <-.
Qed.

(** ** Properties *)

Lemma apply_patch_encode cs old limit :
  Forall wf_control cs -> lenZ old <= 2 ^ 61 -> 0 <= limit <= 2 ^ 62 ->
  apply_patch_bounded old (encode_patch cs) limit = apply_controls old limit cs.
Proof.
  intros Hwf Hold Hlim. unfold apply_patch_bounded, apply_controls.
  rewrite <- (app_nil_r (encode_patch cs)), bounded_patch_encode by done.
  by destruct (run_controls old limit cs [] 0) as [[new pos]|e].
Qed.

(** C1: on the byte encoding of any well-formed list of control records, the
    patch loop returns exactly what the records mean: the same output, or the
    same error (size limit, access outside the old data, negative position). *)
Theorem apply_patch_refines cs old limit :
  Forall wf_control cs -> lenZ old <= 2 ^ 61 -> 0 <= limit <= 2 ^ 62 ->
  apply_patch_bounded old (encode_patch cs) limit = apply_controls old limit cs.
Proof. apply apply_patch_encode. Qed.

Lemma apply_patch_refines_witness :
  apply_patch_bounded (as_bytes "hello world")
    (encode_patch [{| c_mix := replicate 6 Byte.x00; c_copy := as_bytes "rust "; c_seek := 0 |};
                   {| c_mix := replicate 5 Byte.x00; c_copy := []; c_seek := -3 |}]) 100
  = Ok (as_bytes "hello rust world").
Proof.
  rewrite apply_patch_refines; [vm_compute; reflexivity| |vm_compute; congruence|lia].
  repeat constructor; vm_compute; congruence.
Defined.

(** C34: while an untrusted patch is applied, the output buffer is never longer than
    the limit - at the head of the loop and when an iteration ends, by success or
    by any error - and a returned output is within the limit too and no longer
    than the patch that carries it. *)
Theorem apply_patch_bounded_output old patch limit :
  0 <= limit ->
  (forall buffer, patch_buffer old limit patch buffer -> lenZ buffer <= limit) /\
  (forall new, apply_patch_bounded old patch limit = Ok new ->
     lenZ new <= limit /\ lenZ new <= lenZ patch).
Proof.
  intros Hl. split.
  - intros buffer [rem new pos H|rem new pos ctrl rest H _]; apply patch_reach_inv in H as (? & ? & _); [done..| |done].
    by apply patch_exec_buffer.
  - intros new H. apply bounded_patch_loop in H.
    apply (patch_loop_reach _ _ _ patch) in H as [pos H]; [|constructor].
    apply patch_reach_inv in H as (? & _ & Hlen); [|done]. simpl in Hlen. unfold lenZ in *. lia.
Qed.

(** A record that announces more than the limit, with the bytes for it, leaves
    the buffer empty; one whose bytes are cut off fills it no further. *)
Lemma apply_patch_bounded_output_witness :
  (apply_patch_bounded [] (encode_patch (literal_patch (as_bytes "abcdef"))) 3 = Err (SizeLimitExceeded 3) /\
   lenZ (patch_exec [] 3 (take 24 (encode_patch (literal_patch (as_bytes "abcdef")))) (as_bytes "abcdef") [] 0).1 <= 3) /\
  (apply_patch_bounded [] (encode_patch (literal_patch (as_bytes "abc"))) 3 = Ok (as_bytes "abc") /\ lenZ (as_bytes "abc") <= 3).
Proof.
  split; (split; [vm_compute; reflexivity|]).
  - apply (proj1 (apply_patch_bounded_output [] (encode_patch (literal_patch (as_bytes "abcdef"))) 3 ltac:(lia))).
    eapply buffer_after; [apply reach_start|vm_compute; reflexivity].
  - apply (proj2 (apply_patch_bounded_output [] (encode_patch (literal_patch (as_bytes "abc"))) 3 ltac:(lia))).
    vm_compute; reflexivity.
Defined.

(** C40: Patch application always returns: with one iteration more than the
    patch has bytes the loop has an answer, and no larger amount changes it. *)
Theorem patch_loop_terminates old limit patch :
  exists r, patch_loop (S (length patch)) old limit patch [] 0 = Some r /\
    bounded_patch old patch [] limit = r /\
    forall n, patch_loop (S (length patch) + n) old limit patch [] 0 = Some r.
Proof.
  destruct (patch_loop_total (S (length patch)) old limit patch [] 0) as [r Hr]; [lia..|].
  exists r. split_and!; [done| |intros n; eapply patch_loop_mono; [done|lia]].
  unfold bounded_patch. by rewrite Hr.
Qed.

(** A patch that is cut inside a control record is rejected: after any
    records that apply, one to twenty-three stray bytes give an error and never
    a partial output. *)
Theorem truncated_patch_rejected cs tail old limit :
  Forall wf_control cs -> lenZ old <= 2 ^ 61 -> 0 <= limit <= 2 ^ 62 ->
  (0 < length tail < 24)%nat ->
  apply_patch_bounded old (encode_patch cs ++ tail) limit =
  match apply_controls old limit cs with
  | Ok _ => Err (PatchApplicationFailure "unexpected end of file")
  | Err e => Err e
  end.
Proof.
  intros Hwf Hold Hlim Htail. unfold apply_patch_bounded, apply_controls.
  rewrite bounded_patch_encode by done.
  destruct (run_controls old limit cs [] 0) as [[new pos]|e]; [|done]. cbn [patch_loop].
  rewrite read_full_or_eof_spec by lia. destruct (Nat.leb_spec 24 (length tail)); [lia|].
  case_bool_decide; [subst; simpl in *; lia|done].
Qed.

Lemma truncated_patch_rejected_witness :
  apply_patch_bounded [] (encode_patch (literal_patch (as_bytes "ab")) ++ [Byte.x00]) 10
  = Err (PatchApplicationFailure "unexpected end of file").
Proof.
  rewrite truncated_patch_rejected; [vm_compute; reflexivity| |vm_compute; congruence|lia|simpl; lia].
  repeat constructor; vm_compute; congruence.
Defined.

(** What is relied on of [bsdiff::diff]: it emits control records that rebuild
    the target from the old data. *)
Definition generator_correct (bsdiff_diff : bytes -> bytes -> result string bytes) : Prop :=
  forall old new, lenZ old <= 2 ^ 61 -> lenZ new <= MAX_OUTPUT_SIZE ->
    exists cs, bsdiff_diff old new = Ok (encode_patch cs) /\ Forall wf_control cs /\
               apply_controls old MAX_OUTPUT_SIZE cs = Ok new.

Lemma generated_diff_applies bsdiff_diff old new :
  generator_correct bsdiff_diff -> lenZ old <= 2 ^ 61 -> lenZ new <= MAX_OUTPUT_SIZE ->
  (diff ← generate_diff bsdiff_diff old new; apply_patch old diff) = Ok new.
Proof.
  intros Hgen Hold Hnew. destruct (Hgen old new) as (cs & Hd & Hwf & Hcs); [done..|].
  unfold generate_diff. rewrite Hd. cbn [map_err mbind result_bind].
  unfold apply_patch. rewrite apply_patch_encode; [done..|unfold MAX_OUTPUT_SIZE; lia].
Qed.

(** A generated diff recovers the new version: when the external generator
    emits control records that rebuild the target, applying the generated bytes
    to the old data gives the target back. *)
Theorem generate_apply_roundtrip bsdiff_diff old new :
  generator_correct bsdiff_diff -> lenZ old <= 2 ^ 61 -> lenZ new <= MAX_OUTPUT_SIZE ->
  (diff ← generate_diff bsdiff_diff old new; apply_patch old diff) = Ok new.
Proof. apply generated_diff_applies. Qed.

(** A generator: the byte-wise difference for equal lengths, literal bytes
    otherwise. *)
Definition simple_diff (old new : bytes) : result string bytes :=
  Ok (encode_patch (if bool_decide (length old = length new) then delta_patch old new
                    else literal_patch new)).

Lemma mix_delta old new :
  length old = length new -> mix (zip_with wrapping_sub_u8 new old) old = new.
Proof.
  unfold mix. revert new; induction old as [|o old IH]; intros [|n new]; intros; simplify_eq/=; [done|].
  by rewrite wrapping_add_sub, IH.
Qed.

Lemma simple_diff_correct : generator_correct simple_diff.
Proof.
  intros old new Hold Hnew. unfold MAX_OUTPUT_SIZE in Hnew. eexists. split; [done|].
  pose proof (lenZ_nonneg old). unfold apply_controls.
  case_bool_decide as Hlen; unfold delta_patch, literal_patch.
  - assert (Hz : lenZ (zip_with wrapping_sub_u8 new old) = lenZ new)
      by (unfold lenZ; rewrite length_zip_with; lia).
    assert (Ho : lenZ old = lenZ new) by (unfold lenZ; lia).
    split; [repeat constructor; cbn [c_mix c_copy c_seek]; rewrite ?Hz; unfold lenZ in *; simpl; lia|].
    cbn [run_controls c_mix c_copy c_seek]. rewrite Hz. change (lenZ []) with 0.
    destruct (Z.ltb_spec MAX_OUTPUT_SIZE (0 + lenZ new + 0)); [unfold MAX_OUTPUT_SIZE in *; lia|].
    destruct (Z.ltb_spec (lenZ old) (0 + lenZ new)); [lia|].
    destruct (Z.ltb_spec (0 + lenZ new + 0) 0); [pose proof (lenZ_nonneg new); lia|].
    rewrite <- Ho, dropZ_drop, takeZ_take. unfold lenZ. rewrite Nat2Z.id, drop_0, firstn_all.
    simpl. by rewrite mix_delta, app_nil_r.
  - split; [repeat constructor; cbn [c_mix c_copy c_seek]; unfold lenZ in *; simpl in *; lia|].
    cbn [run_controls c_mix c_copy c_seek]. change (lenZ []) with 0.
    destruct (Z.ltb_spec MAX_OUTPUT_SIZE (0 + 0 + lenZ new)); [unfold MAX_OUTPUT_SIZE in *; lia|].
    destruct (Z.ltb_spec (lenZ old) (0 + 0)); [lia|]. done.
Qed.

Lemma generate_apply_roundtrip_witness :
  (diff ← generate_diff simple_diff (as_bytes "v1.0") (as_bytes "v1.1");
   apply_patch (as_bytes "v1.0") diff) = Ok (as_bytes "v1.1").
Proof.
  apply (generate_apply_roundtrip simple_diff);
    [exact simple_diff_correct|vm_compute; congruence|vm_compute; congruence].
Defined.

(** [apply_patch_verified] with an expected hash returns the output of
    [apply_patch] exactly when its hash is the expected one, and fails with the
    two hashes in hexadecimal otherwise. *)
Theorem apply_patch_verified_spec blake3 old patch h :
  apply_patch_verified blake3 old patch (Some h) =
  match apply_patch old patch with
  | Err e => Err e
  | Ok new => if bool_decide (blake3 new = h) then Ok new
              else Err (ChecksumMismatch (hex_encode h) (hex_encode (blake3 new)))
  end.
Proof. unfold apply_patch_verified. by destruct (apply_patch old patch). Qed.

(** Decompression of untrusted data is bounded: the result is the decoded
    stream when it fits, the size error when the stream is longer than the
    limit (even if it would fail later), the decoder's error otherwise. *)
Theorem decompress_diff_bounded_spec zstd compressed limit data err :
  zstd compressed = Ok (data, err) -> 0 <= limit ->
  decompress_diff_bounded zstd compressed limit =
  if limit <? lenZ data then Err (SizeLimitExceeded limit)
  else match err with Some e => Err (IoError e) | None => Ok data end.
Proof.
  intros Hz Hl. unfold decompress_diff_bounded, take_read_to_end. rewrite Hz. cbn.
  destruct (Z.leb_spec (limit + 1) (lenZ data)), (Z.ltb_spec limit (lenZ data)); try lia; cbn.
  - rewrite lenZ_takeZ by lia. destruct (Z.ltb_spec limit (Z.min (limit + 1) (lenZ data))); [done|lia].
  - destruct err; [done|]. cbn. destruct (Z.ltb_spec limit (lenZ data)); [lia|done].
Qed.

Lemma decompress_diff_bounded_spec_witness :
  decompress_diff_bounded (fun c => Ok (c ++ c, None)) (as_bytes "abc") 5 = Err (SizeLimitExceeded 5).
Proof.
  rewrite (decompress_diff_bounded_spec _ _ _ (as_bytes "abcabc") None); [reflexivity|reflexivity|lia].
Defined.
