(* ===== verification/Version.v ===== *)
(** * Version: semantic versions ([deltaship-core/src/version.rs])

    The [semver] crate is external: its types, parser, printer and the order of
    prerelease identifiers are the operations of [Semver], and what the sources
    rely on are the laws of [SemverLaws].  [Version] adds the order and the
    equality of the core crate, which ignore build metadata. *)

From S2P Require Import Prelude Text.

#[local] Open Scope Z_scope.

(** The public fields of [semver::Version]. *)
Record sv_version (P B : Type) := SvVersion {
  sv_major : Z;
  sv_minor : Z;
  sv_patch : Z;
  sv_pre : P;
  sv_build : B;
}.
Arguments SvVersion {P B} _ _ _ _ _.
Arguments sv_major {P B} _.
Arguments sv_minor {P B} _.
Arguments sv_patch {P B} _.
Arguments sv_pre {P B} _.
Arguments sv_build {P B} _.

#[global] Instance sv_version_eq_dec `{EqDecision P, EqDecision B} : EqDecision (sv_version P B).
Proof. solve_decision. Defined.

(** The numeric components are [u64]s. *)
Definition wf_sv {P B} (v : sv_version P B) : Prop :=
  is_u64 (sv_major v) /\ is_u64 (sv_minor v) /\ is_u64 (sv_patch v).

Class Semver := {
  Prerelease : Type;
  BuildMetadata : Type;
  pre_eq_dec :: EqDecision Prerelease;
  build_eq_dec :: EqDecision BuildMetadata;
  pre_new : string -> result string Prerelease;
  build_new : string -> result string BuildMetadata;
  pre_empty : Prerelease;
  build_empty : BuildMetadata;
  pre_is_empty : Prerelease -> bool;
  pre_cmp : Prerelease -> Prerelease -> comparison;
  pre_as_str : Prerelease -> string;
  build_as_str : BuildMetadata -> string;
  sv_parse : string -> result string (sv_version Prerelease BuildMetadata);
  sv_to_string : sv_version Prerelease BuildMetadata -> string;
}.

(** Characters of a printed version. *)
Definition version_char (c : ascii) : bool :=
  is_ascii_alphanumeric c || bool_decide (c ∈ chars ".+-").

Class SemverLaws (SV : Semver) : Prop := {
  pre_cmp_eq a b : pre_cmp a b = Eq <-> a = b;
  pre_cmp_opp a b : pre_cmp b a = CompOpp (pre_cmp a b);
  pre_cmp_lt_trans a b c : pre_cmp a b = Lt -> pre_cmp b c = Lt -> pre_cmp a c = Lt;
  pre_is_empty_spec p : pre_is_empty p = true <-> p = pre_empty;
  sv_parse_to_string v : wf_sv v -> sv_parse (sv_to_string v) = Ok v;
  sv_parse_wf s v : sv_parse s = Ok v -> wf_sv v;
  sv_to_string_parse s v : sv_parse s = Ok v -> sv_to_string v = s;
  sv_to_string_chars v : wf_sv v -> all_chars version_char (sv_to_string v) = true;
  sv_to_string_nonempty v : wf_sv v -> sv_to_string v <> "";
  sv_to_string_digit v : wf_sv v ->
    exists c l, chars (sv_to_string v) = c :: l /\ is_ascii_digit c = true;
}.

Inductive VersionError := InvalidVersion (msg : string).

Section Version.
Context {SV : Semver}.

(** [struct Version(semver::Version)]. *)
Definition Version : Type := sv_version Prerelease BuildMetadata.

Definition version_new (major minor patch : Z) : Version :=
  SvVersion major minor patch pre_empty build_empty.

Definition with_prerelease (major minor patch : Z) (prerelease : string)
    : result VersionError Version :=
  pre ← map_err InvalidVersion (pre_new prerelease);
  Ok (SvVersion major minor patch pre build_empty).

Definition with_build_metadata (major minor patch : Z) (build : string)
    : result VersionError Version :=
  b ← map_err InvalidVersion (build_new build);
  Ok (SvVersion major minor patch pre_empty b).

(** [impl FromStr] and [impl Display]. *)
Definition version_from_str (s : string) : result VersionError Version :=
  map_err InvalidVersion (sv_parse s).
Definition version_to_string (v : Version) : string := sv_to_string v.

(** [impl PartialEq]: build metadata is ignored. *)
Definition version_eqb (v w : Version) : bool :=
  (sv_major v =? sv_major w) && (sv_minor v =? sv_minor w) && (sv_patch v =? sv_patch w) &&
  bool_decide (sv_pre v = sv_pre w).

(** [impl Ord]. *)
Definition version_cmp (v w : Version) : comparison :=
  match sv_major v ?= sv_major w with
  | Eq =>
      match sv_minor v ?= sv_minor w with
      | Eq =>
          match sv_patch v ?= sv_patch w with
          | Eq =>
              match pre_is_empty (sv_pre v), pre_is_empty (sv_pre w) with
              | true, false => Gt
              | false, true => Lt
              | true, true => Eq
              | false, false => pre_cmp (sv_pre v) (sv_pre w)
              end
          | ord => ord
          end
      | ord => ord
      end
  | ord => ord
  end.

(** [v > w] and [v >= w]. *)
Definition version_gtb (v w : Version) : bool := bool_decide (version_cmp v w = Gt).
Definition version_geb (v w : Version) : bool := bool_decide (version_cmp v w <> Lt).
End Version.

(** ** Comparison functions that are strict total orders *)

Class CmpOrder {A : Type} (cmp : A -> A -> comparison) : Prop := {
  cmp_eq a b : cmp a b = Eq <-> a = b;
  cmp_opp a b : cmp b a = CompOpp (cmp a b);
  cmp_lt_trans a b c : cmp a b = Lt -> cmp b c = Lt -> cmp a c = Lt;
}.

Lemma cmp_refl {A} (cmp : A -> A -> comparison) `{!CmpOrder cmp} a : cmp a a = Eq.
Proof. by apply cmp_eq. Qed.

Definition cmp_lex {A B} (ca : A -> A -> comparison) (cb : B -> B -> comparison)
    (p q : A * B) : comparison :=
  match ca p.1 q.1 with Eq => cb p.2 q.2 | ord => ord end.

#[global] Instance Zcompare_order : CmpOrder Z.compare.
Proof.
  split; intros.
  - apply Z.compare_eq_iff.
  - apply Z.compare_antisym.
  - rewrite Z.compare_lt_iff in *. lia.
Qed.

#[global] Instance cmp_lex_order {A B} (ca : A -> A -> comparison) (cb : B -> B -> comparison) :
  CmpOrder ca -> CmpOrder cb -> CmpOrder (cmp_lex ca cb).
Proof.
  intros HA HB. split; unfold cmp_lex.
  - intros [a b] [a' b']; simpl. destruct (ca a a') eqn:E.
    + apply cmp_eq in E as ->. rewrite cmp_eq. naive_solver.
    + split; [done|]. intros [= -> _]. by rewrite (cmp_refl ca) in E.
    + split; [done|]. intros [= -> _]. by rewrite (cmp_refl ca) in E.
  - intros [a b] [a' b']; simpl. rewrite (cmp_opp a a'). destruct (ca a a'); simpl; [apply cmp_opp|done..].
  - intros [a b] [a' b'] [a'' b'']; simpl.
    destruct (ca a a') eqn:E1; [|intros _|done]; destruct (ca a' a'') eqn:E2; try done.
    + apply cmp_eq in E1 as ->, E2 as ->. rewrite (cmp_refl ca). apply cmp_lt_trans.
    + apply cmp_eq in E1 as ->. by rewrite E2.
    + intros _. apply cmp_eq in E2 as <-. by rewrite E1.
    + intros _. by rewrite (cmp_lt_trans _ _ _ E1 E2).
Qed.

Lemma cmp_gt_lt {A} (cmp : A -> A -> comparison) `{!CmpOrder cmp} a b :
  cmp a b = Gt <-> cmp b a = Lt.
Proof. rewrite (cmp_opp (cmp := cmp) a b). by destruct (cmp a b). Qed.

(** ** The order *)

Section Order.
Context {SV : Semver} {SVL : SemverLaws SV}.
Implicit Types u v w : Version.

(** The sort key of a version: everything but the build metadata. *)
Definition version_key v := (sv_major v, sv_minor v, sv_patch v, sv_pre v).

#[global] Instance version_equiv : Equiv Version := fun v w => version_key v = version_key w.

#[global] Instance version_equivalence : Equivalence (≡@{Version}).
Proof. split; red; unfold equiv, version_equiv; [done|by symmetry|by etrans]. Qed.

#[global] Instance version_equiv_dec : RelDecision (≡@{Version}).
Proof. intros v w. unfold equiv, version_equiv, version_key. apply _. Defined.

Lemma version_eqb_equiv v w : version_eqb v w = true <-> v ≡ w.
Proof.
  unfold version_eqb, equiv, version_equiv, version_key.
  rewrite !andb_true_iff, !Z.eqb_eq, bool_decide_eq_true.
  split; [by intros [[[-> ->] ->] ->]|by intros [= -> -> -> ->]].
Qed.

Lemma version_eqb_false v w : version_eqb v w = false <-> ~ v ≡ w.
Proof. rewrite <- version_eqb_equiv. by destruct (version_eqb v w). Qed.

(** The order of prereleases as the core crate uses it: none is the greatest. *)
Definition pre_ord (p q : Prerelease) : comparison :=
  match pre_is_empty p, pre_is_empty q with
  | true, false => Gt
  | false, true => Lt
  | true, true => Eq
  | false, false => pre_cmp p q
  end.

#[global] Instance pre_ord_order : CmpOrder pre_ord.
Proof.
  assert (Hne : forall p, pre_is_empty p = false <-> p <> pre_empty).
  { intros p. rewrite <- pre_is_empty_spec. by destruct (pre_is_empty p). }
  split; unfold pre_ord.
  - intros p q. destruct (pre_is_empty p) eqn:Ep, (pre_is_empty q) eqn:Eq;
      rewrite ?pre_is_empty_spec, ?Hne in *; subst; [done| | |apply pre_cmp_eq];
      split; naive_solver.
  - intros p q. destruct (pre_is_empty p), (pre_is_empty q); simpl; [done..|apply pre_cmp_opp].
  - intros p q r. destruct (pre_is_empty p), (pre_is_empty q), (pre_is_empty r); try done.
    apply pre_cmp_lt_trans.
Qed.

(** The comparison of versions is the lexicographic order of their keys. *)
Definition key_cmp := cmp_lex (cmp_lex (cmp_lex Z.compare Z.compare) Z.compare) pre_ord.

Lemma version_cmp_key v w : version_cmp v w = key_cmp (version_key v) (version_key w).
Proof.
  unfold version_cmp, key_cmp, cmp_lex, version_key, pre_ord; simpl.
  by destruct (sv_major v ?= sv_major w), (sv_minor v ?= sv_minor w), (sv_patch v ?= sv_patch w).
Qed.

#[global] Instance key_cmp_order : CmpOrder key_cmp.
Proof. unfold key_cmp. apply _. Qed.

#[global] Instance version_cmp_proper : Proper ((≡) ==> (≡) ==> (=)) version_cmp.
Proof. intros v v' Hv w w' Hw. by rewrite !version_cmp_key, Hv, Hw. Qed.

#[global] Instance version_eqb_proper : Proper ((≡) ==> (≡) ==> (=)) version_eqb.
Proof.
  intros v v' Hv w w' Hw. apply eq_true_iff_eq. by rewrite !version_eqb_equiv, Hv, Hw.
Qed.

Lemma version_cmp_Eq v w : version_cmp v w = Eq <-> v ≡ w.
Proof. rewrite version_cmp_key. apply cmp_eq. Qed.

Lemma version_cmp_refl v : version_cmp v v = Eq.
Proof. by apply version_cmp_Eq. Qed.

Lemma version_cmp_opp v w : version_cmp w v = CompOpp (version_cmp v w).
Proof. rewrite !version_cmp_key. apply cmp_opp. Qed.

Lemma version_cmp_gt_lt v w : version_cmp v w = Gt <-> version_cmp w v = Lt.
Proof. rewrite !version_cmp_key. apply cmp_gt_lt, _. Qed.

Lemma version_cmp_lt_trans u v w :
  version_cmp u v = Lt -> version_cmp v w = Lt -> version_cmp u w = Lt.
Proof. rewrite !version_cmp_key. apply cmp_lt_trans. Qed.

Lemma version_cmp_gt_trans u v w :
  version_cmp u v = Gt -> version_cmp v w = Gt -> version_cmp u w = Gt.
Proof. rewrite !version_cmp_gt_lt. intros. by eapply version_cmp_lt_trans. Qed.

(** [u <= v] as the sources write it. *)
Definition version_le u v : Prop := version_cmp u v <> Gt.

#[global] Instance version_le_preorder : PreOrder version_le.
Proof.
  split; unfold version_le.
  - intros v. by rewrite version_cmp_refl.
  - intros u v w Huv Hvw. destruct (version_cmp u v) eqn:E1; [| |done].
    + apply version_cmp_Eq in E1. by rewrite E1.
    + destruct (version_cmp v w) eqn:E2; [| |done].
      * apply version_cmp_Eq in E2. rewrite <- E2. by rewrite E1.
      * by rewrite (version_cmp_lt_trans _ _ _ E1 E2).
Qed.

#[global] Instance version_le_proper : Proper ((≡) ==> (≡) ==> iff) version_le.
Proof. intros v v' Hv w w' Hw. unfold version_le. by rewrite Hv, Hw. Qed.

Lemma version_le_total u v : version_le u v \/ version_le v u.
Proof.
  unfold version_le. rewrite (version_cmp_opp u v). destruct (version_cmp u v); simpl; auto.
Qed.

Lemma version_cmp_lt_le u v w :
  version_cmp u v = Lt -> version_le v w -> version_cmp u w = Lt.
Proof.
  intros Huv Hvw. unfold version_le in Hvw. destruct (version_cmp v w) eqn:E; [| |done].
  - apply version_cmp_Eq in E. by rewrite <- E.
  - by eapply version_cmp_lt_trans.
Qed.
End Order.

#[export] Hint Rewrite @version_cmp_refl : deltaship.
#[export] Hint Resolve version_cmp_refl version_cmp_lt_trans version_cmp_gt_trans : deltaship.

(** ** Properties *)

Section Properties.
Context {SV : Semver} {SVL : SemverLaws SV}.

(** The comparison of versions is a total order on versions up to build
    metadata: it says [Equal] exactly when [==] does, reversing the arguments
    reverses it, it is transitive, and changing only the build metadata of
    either side never changes the answer. *)
Theorem version_order_spec (u v w : Version) b :
  (version_cmp u v = Eq <-> version_eqb u v = true) /\ version_cmp v u = CompOpp (version_cmp u v) /\
  (version_le u v -> version_le v w -> version_le u w) /\
  version_cmp (SvVersion (sv_major u) (sv_minor u) (sv_patch u) (sv_pre u) b) v = version_cmp u v /\
  (pre_is_empty (sv_pre u) = true -> pre_is_empty (sv_pre v) = false ->
   (sv_major u, sv_minor u, sv_patch u) = (sv_major v, sv_minor v, sv_patch v) ->
   version_cmp u v = Gt).
Proof.
  split_and!.
  - by rewrite version_cmp_Eq, version_eqb_equiv.
  - apply version_cmp_opp.
  - by etrans.
  - by apply version_cmp_proper.
  - intros H1 H2 [= H3 H4 H5]. unfold version_cmp. by rewrite H1, H2, H3, H4, H5, !Z.compare_refl.
Qed.
End Properties.
