(* ===== verification/SemverRef.v ===== *)
(** * SemverRef: a concrete [Semver]

    An executable semantic-version implementation (SemVer 2.0 grammar and
    prerelease precedence) that satisfies [SemverLaws]: the hypotheses on the
    external crate can hold, and the witnesses of the other files run on real
    version strings. *)

From S2P Require Import Prelude Text Version.

#[local] Open Scope Z_scope.

(** ** Decimal numbers *)

Definition digit (z : Z) : ascii := chr (48 + z).

Fixpoint digits (fuel : nat) (z : Z) : list ascii :=
  match fuel with
  | O => []
  | S fuel => if z <? 10 then [digit z] else digits fuel (z / 10) ++ [digit (z mod 10)]
  end.

Definition print_u64 (z : Z) : list ascii := digits 20 z.
Definition value (l : list ascii) : Z := fold_left (fun a c => a * 10 + (code c - 48)) l 0.

Lemma digit_spec z : 0 <= z < 10 -> code (digit z) = 48 + z /\ is_ascii_digit (digit z) = true.
Proof.
  intros H. assert (z ∈ seqZ 0 10) as Hz by (apply elem_of_seqZ; lia).
  vm_compute in Hz. repeat (apply elem_of_cons in Hz as [-> | Hz]; [by vm_compute|]).
  by apply elem_of_nil in Hz.
Qed.

Lemma digits_value fuel z : 0 <= z < 10 ^ Z.of_nat fuel -> value (digits fuel z) = z.
Proof.
  revert z; induction fuel as [|fuel IH]; intros z Hz; cbn [digits]; [simpl in Hz; cbv; lia|].
  rewrite Nat2Z.inj_succ, Z.pow_succ_r in Hz by lia.
  destruct (Z.ltb_spec z 10).
  - unfold value; cbn [fold_left]. rewrite (proj1 (digit_spec z ltac:(lia))). lia.
  - unfold value. rewrite fold_left_app. cbn [fold_left].
    fold (value (digits fuel (z / 10))). rewrite IH.
    + rewrite (proj1 (digit_spec (z mod 10) ltac:(apply Z.mod_pos_bound; lia))).
      pose proof (Z.div_mod z 10). lia.
    + split; [apply Z.div_pos; lia|apply Z.div_lt_upper_bound; lia].
Qed.

Lemma digits_digit fuel z : 0 <= z -> Forall (fun c => is_ascii_digit c = true) (digits fuel z).
Proof.
  revert z; induction fuel as [|fuel IH]; intros z Hz; cbn [digits]; [constructor|].
  destruct (Z.ltb_spec z 10).
  - constructor; [|constructor]. apply digit_spec. lia.
  - apply Forall_app. split; [apply IH, Z.div_pos; lia|].
    constructor; [|constructor]. apply digit_spec, Z.mod_pos_bound. lia.
Qed.

Lemma print_u64_value z : is_u64 z -> value (print_u64 z) = z.
Proof. intros [? ?]. apply digits_value. unfold u64_max in *. lia. Qed.

(** ** Cutting at a character *)

Fixpoint cut (c : ascii) (l : list ascii) : list ascii * option (list ascii) :=
  match l with
  | [] => ([], None)
  | d :: l => if bool_decide (c = d) then ([], Some l)
              else let '(a, b) := cut c l in (d :: a, b)
  end.

Lemma cut_app c a b : c ∉ a -> cut c (a ++ c :: b) = (a, Some b).
Proof.
  induction a as [|d a IH]; intros Hc; cbn [cut app].
  - by rewrite bool_decide_eq_true_2.
  - apply not_elem_of_cons in Hc as [??]. rewrite bool_decide_eq_false_2, IH by done. done.
Qed.

Lemma cut_none c a : c ∉ a -> cut c a = (a, None).
Proof.
  induction a as [|d a IH]; intros Hc; cbn [cut]; [done|].
  apply not_elem_of_cons in Hc as [??]. by rewrite bool_decide_eq_false_2, IH.
Qed.

Lemma digit_not_elem c l :
  is_ascii_digit c = false -> Forall (fun c => is_ascii_digit c = true) l -> c ∉ l.
Proof. intros Hc Hl Hin. rewrite Forall_forall in Hl. by rewrite (Hl _ Hin) in Hc. Qed.

(** ** Prerelease and build identifiers *)

Definition ident_char (c : ascii) : bool := is_ascii_alphanumeric c || bool_decide (c = "-"%char).

Fixpoint pieces (acc l : list ascii) : list (list ascii) :=
  match l with
  | [] => [reverse acc]
  | c :: l => if bool_decide (c = "."%char) then reverse acc :: pieces [] l else pieces (c :: acc) l
  end.
Definition idents (s : string) : list (list ascii) := pieces [] (chars s).

Fixpoint join (ls : list (list ascii)) : list ascii :=
  match ls with [] => [] | [l] => l | l :: ls => l ++ "."%char :: join ls end.

Lemma pieces_nonnil acc l : pieces acc l <> [].
Proof. revert acc; induction l; intros acc; cbn [pieces]; [done|]. by case_bool_decide. Qed.

Lemma join_pieces acc l : join (pieces acc l) = reverse acc ++ l.
Proof.
  revert acc; induction l as [|c l IH]; intros acc; cbn [pieces]; [cbn; by rewrite app_nil_r|].
  case_bool_decide as Hc.
  - subst. pose proof (pieces_nonnil [] l). specialize (IH []).
    destruct (pieces [] l) eqn:E; [done|]. cbn [join] in *. by rewrite IH.
  - rewrite IH, reverse_cons, <- app_assoc. done.
Qed.

#[global] Instance idents_inj : Inj (=) (=) idents.
Proof.
  intros s t H. apply (inj chars). unfold idents in H. apply (f_equal join) in H.
  by rewrite !join_pieces in H.
Qed.

Definition numeric (l : list ascii) : bool := forallb is_ascii_digit l.
Definition valid_ident (l : list ascii) : bool :=
  negb (bool_decide (l = [])) && forallb ident_char l.
Definition no_leading_zero (l : list ascii) : bool :=
  negb (numeric l && bool_decide (head l = Some "0"%char) && negb (bool_decide (length l = 1%nat))).

Definition valid_build (s : string) : bool :=
  str_is_empty s || (all_chars (fun c => ident_char c || bool_decide (c = "."%char)) s &&
                     forallb valid_ident (idents s)).
Definition valid_pre (s : string) : bool :=
  valid_build s && forallb no_leading_zero (idents s).

(** ** Prerelease precedence *)

Fixpoint list_cmp {A} (cmp : A -> A -> comparison) (l k : list A) : comparison :=
  match l, k with
  | [], [] => Eq
  | [], _ :: _ => Lt
  | _ :: _, [] => Gt
  | a :: l, b :: k => match cmp a b with Eq => list_cmp cmp l k | ord => ord end
  end.

#[global] Instance list_cmp_order {A} (cmp : A -> A -> comparison) :
  CmpOrder cmp -> CmpOrder (list_cmp cmp).
Proof.
  intros HC. split.
  - intros l; induction l as [|a l IH]; intros [|b k]; simpl; [done..|].
    destruct (cmp a b) eqn:E.
    + apply cmp_eq in E as ->. rewrite IH. naive_solver.
    + split; [done|]. intros [= -> _]. by rewrite (cmp_refl cmp) in E.
    + split; [done|]. intros [= -> _]. by rewrite (cmp_refl cmp) in E.
  - intros l; induction l as [|a l IH]; intros [|b k]; simpl; [done..|].
    rewrite (cmp_opp (cmp := cmp) a b). destruct (cmp a b); simpl; auto.
  - intros l; induction l as [|a l IH]; intros [|b k] [|c m]; simpl; try done.
    destruct (cmp a b) eqn:E1; [|intros _|done]; destruct (cmp b c) eqn:E2; try done.
    + apply cmp_eq in E1 as ->, E2 as ->. rewrite (cmp_refl cmp). apply IH.
    + apply cmp_eq in E1 as ->. by rewrite E2.
    + intros _. apply cmp_eq in E2 as <-. by rewrite E1.
    + intros _. by rewrite (cmp_lt_trans _ _ _ E1 E2).
Qed.

(** Numeric identifiers come first and compare by length then digits, the
    others compare as ASCII text. *)
Definition ident_key (l : list ascii) : Z * list Z :=
  (if numeric l then lenZ l else u64_max + 1, code <$> l).
Definition ident_cmp (l k : list ascii) : comparison :=
  cmp_lex Z.compare (list_cmp Z.compare) (ident_key l) (ident_key k).

#[global] Instance code_inj : Inj (=) (=) code.
Proof.
  intros a b H. unfold code in H. apply N2Z.inj in H.
  by rewrite <- (Ascii.ascii_N_embedding a), H, Ascii.ascii_N_embedding.
Qed.

#[global] Instance ident_cmp_order : CmpOrder ident_cmp.
Proof.
  split; unfold ident_cmp; intros.
  - rewrite cmp_eq. split; [|by intros ->]. unfold ident_key. intros [= _ H]. by apply (inj (fmap code)) in H.
  - apply cmp_opp.
  - by eapply cmp_lt_trans.
Qed.

(** ** The instance *)

Definition pre_t : Type := { s : string | valid_pre s = true }.
Definition build_t : Type := { s : string | valid_build s = true }.

Lemma sig_bool_eq {f : string -> bool} (x y : { s : string | f s = true }) :
  `x = `y -> x = y.
Proof. intros H. apply (sig_eq_pi _). done. Qed.

#[global] Instance sig_bool_eq_dec (f : string -> bool) : EqDecision { s : string | f s = true }.
Proof.
  intros x y. destruct (decide (`x = `y)) as [H|H]; [left; by apply sig_bool_eq|right; by intros ->].
Defined.

Definition mk_sig (f : string -> bool) (s : string) : option { s : string | f s = true } :=
  match decide (f s = true) with left H => Some (s ↾ H) | right _ => None end.

Lemma mk_sig_proj f x : mk_sig f (`x) = Some x.
Proof.
  unfold mk_sig. destruct (decide _) as [H|H]; [|by destruct x].
  f_equal. by apply sig_bool_eq.
Qed.

Lemma mk_sig_Some f s x : mk_sig f s = Some x -> `x = s.
Proof. unfold mk_sig. destruct (decide _); naive_solver. Qed.

Definition suffix (c : ascii) (s : string) : list ascii :=
  if str_is_empty s then [] else c :: chars s.

Definition core_chars (ma mi pa : Z) : list ascii :=
  print_u64 ma ++ "."%char :: print_u64 mi ++ "."%char :: print_u64 pa.

Definition print_version (v : sv_version pre_t build_t) : string :=
  of_chars (core_chars (sv_major v) (sv_minor v) (sv_patch v) ++
            suffix "-"%char (` (sv_pre v)) ++ suffix "+"%char (` (sv_build v))).

Definition opt_chars (o : option (list ascii)) : string := of_chars (default [] o).

(** Cut the text, read the numbers, and accept it when it is the canonical text
    of what was read (this rejects leading zeros and empty parts). *)
Definition parse_version (s : string) : result string (sv_version pre_t build_t) :=
  let '(vp, b) := cut "+"%char (chars s) in
  let '(core, p) := cut "-"%char vp in
  let '(ma, r) := cut "."%char core in
  let '(mi, r') := cut "."%char (default [] r) in
  match mk_sig valid_pre (opt_chars p), mk_sig valid_build (opt_chars b) with
  | Some p, Some b =>
      let v := SvVersion (value ma) (value mi) (value (default [] r')) p b in
      if bool_decide (Forall (fun z => 0 <= z <= u64_max) [sv_major v; sv_minor v; sv_patch v]) &&
         bool_decide (print_version v = s)
      then Ok v else Err "invalid version"
  | _, _ => Err "invalid version"
  end.

Lemma ident_no_plus s : valid_build s = true -> "+"%char ∉ chars s.
Proof.
  unfold valid_build, str_is_empty. rewrite orb_true_iff, bool_decide_eq_true, andb_true_iff, all_chars_Forall.
  intros [-> | [H _]]; [set_solver|]. intros Hin. rewrite Forall_forall in H. by specialize (H _ Hin).
Qed.

Lemma suffix_no_plus s : valid_pre s = true -> "+"%char ∉ suffix "-"%char s.
Proof.
  unfold valid_pre, suffix. rewrite andb_true_iff. intros [H _].
  case_match; [set_solver|]. apply not_elem_of_cons. split; [done|by apply ident_no_plus].
Qed.

Lemma core_no_sign c ma mi pa :
  is_ascii_digit c = false -> c <> "."%char -> is_u64 ma -> is_u64 mi -> is_u64 pa ->
  c ∉ core_chars ma mi pa.
Proof.
  intros Hd Hc [? _] [? _] [? _]. unfold core_chars.
  rewrite elem_of_app, elem_of_cons, elem_of_app, elem_of_cons.
  pose proof (fun z H => digit_not_elem c (print_u64 z) Hd (digits_digit 20 z H)). naive_solver.
Qed.

Lemma cut_suffix d s l c :
  c ∉ l -> c = d -> cut c (l ++ suffix d s) = (l, if str_is_empty s then None else Some (chars s)).
Proof.
  intros Hl ->. unfold suffix. case_match; [by rewrite app_nil_r, cut_none|by apply cut_app].
Qed.

Lemma opt_chars_suffix s : opt_chars (if str_is_empty s then None else Some (chars s)) = s.
Proof.
  unfold str_is_empty, opt_chars. case_bool_decide; subst; [done|]. apply of_chars_chars.
Qed.

Lemma parse_print_version v : wf_sv v -> parse_version (print_version v) = Ok v.
Proof.
  intros (Hma & Hmi & Hpa). unfold parse_version.
  unfold print_version at 1. rewrite chars_of_chars, app_assoc.
  rewrite cut_suffix; [|rewrite elem_of_app; intros [H|H]; revert H;
    [by apply core_no_sign|apply suffix_no_plus, (proj2_sig (sv_pre v))]|done].
  cbv beta iota. rewrite cut_suffix by (done || by apply core_no_sign). cbv beta iota.
  unfold core_chars. rewrite cut_app by (apply digit_not_elem; [done|apply digits_digit; apply Hma]).
  cbn [from_option id]. cbv beta iota. rewrite cut_app by (apply digit_not_elem; [done|apply digits_digit; apply Hmi]).
  rewrite !opt_chars_suffix, !mk_sig_proj. cbn [from_option id].
  rewrite !print_u64_value by done. destruct v as [ma mi pa p b]. simpl in *.
  rewrite bool_decide_eq_true_2 by (repeat constructor; by apply Hma || by apply Hmi || by apply Hpa).
  by rewrite bool_decide_eq_true_2.
Qed.

Lemma parse_version_Ok s v : parse_version s = Ok v -> wf_sv v /\ print_version v = s.
Proof.
  unfold parse_version. repeat (case_match; try done). intros [= <-].
  repeat match goal with
  | H : _ && _ = true |- _ => apply andb_true_iff in H as [? ?]
  | H : bool_decide _ = true |- _ => apply bool_decide_eq_true in H
  end. split; [|done].
  match goal with H : Forall _ _ |- _ => repeat (apply Forall_cons in H as [? H]) end.
  unfold wf_sv, is_u64. split_and!; simpl in *; lia.
Qed.

#[global] Instance semver_ref : Semver := {|
  Prerelease := pre_t;
  BuildMetadata := build_t;
  pre_new s := ok_or "invalid prerelease" (mk_sig valid_pre s);
  build_new s := ok_or "invalid build metadata" (mk_sig valid_build s);
  pre_empty := "" ↾ eq_refl;
  build_empty := "" ↾ eq_refl;
  pre_is_empty p := str_is_empty (`p);
  pre_cmp p q := list_cmp ident_cmp (idents (`p)) (idents (`q));
  pre_as_str p := `p;
  build_as_str b := `b;
  sv_parse := parse_version;
  sv_to_string := print_version;
|}.

Lemma version_char_valid s : valid_build s = true -> Forall (fun c => version_char c = true) (chars s).
Proof.
  unfold valid_build, str_is_empty. rewrite orb_true_iff, bool_decide_eq_true, andb_true_iff, all_chars_Forall.
  intros [-> | [H _]]; [constructor|]. eapply Forall_impl; [done|]. intros c. cbn beta.
  unfold version_char, ident_char. rewrite !orb_true_iff, !bool_decide_eq_true.
  intros [[Hc|Hc]|Hc]; [by left|right; subst; set_solver..].
Qed.

Lemma digit_version_char l :
  Forall (fun c => is_ascii_digit c = true) l -> Forall (fun c => version_char c = true) l.
Proof.
  intros H. eapply Forall_impl; [done|]. intros c Hc. unfold version_char, is_ascii_alphanumeric.
  by rewrite Hc, orb_true_r.
Qed.

Lemma print_version_chars v : wf_sv v -> all_chars version_char (print_version v) = true.
Proof.
  intros ([? _] & [? _] & [? _]). apply all_chars_Forall. unfold print_version. rewrite chars_of_chars.
  unfold core_chars, suffix. destruct (sv_pre v) as [p Hp], (sv_build v) as [b Hb]. simpl.
  unfold valid_pre in Hp. apply andb_true_iff in Hp as [Hp _].
  apply version_char_valid in Hp, Hb.
  pose proof (fun z H => digit_version_char _ (digits_digit 20 z H)) as Hdig.
  repeat first [done | apply Forall_app; split | apply Forall_cons; split | case_match | by apply Hdig].
Qed.

Lemma print_version_nonempty v : wf_sv v -> print_version v <> "".
Proof.
  intros Hv H. apply parse_print_version in Hv. rewrite H in Hv.
  apply parse_version_Ok in Hv as [_ Hv]. revert H. unfold print_version, core_chars.
  intros H. apply (f_equal chars) in H. rewrite chars_of_chars in H. simpl in H.
  apply (f_equal length) in H. rewrite !length_app in H. simpl in H. lia.
Qed.

Lemma print_version_digit v : wf_sv v ->
  exists c l, chars (print_version v) = c :: l /\ is_ascii_digit c = true.
Proof.
  intros ([Hma _] & _). unfold print_version, core_chars, print_u64. rewrite chars_of_chars.
  pose proof (digits_digit 20 _ Hma) as Hd. remember (digits 20 (sv_major v)) as l eqn:El.
  destruct l as [|c l]; [exfalso|apply Forall_cons in Hd as [? _]; simpl; eauto].
  revert El. cbn [digits]. repeat case_match; try done.
Qed.

#[global] Instance semver_ref_laws : SemverLaws semver_ref.
Proof.
  split; simpl.
  - intros p q. rewrite cmp_eq. split; [|by intros ->].
    intros H. by apply (inj idents), sig_bool_eq in H.
  - intros. apply cmp_opp.
  - intros p q r. apply cmp_lt_trans.
  - intros p. unfold str_is_empty. rewrite bool_decide_eq_true. split; [|by intros ->].
    intros H. by apply sig_bool_eq.
  - apply parse_print_version.
  - intros s v H. by apply parse_version_Ok in H as [? _].
  - intros s v H. by apply parse_version_Ok in H as [_ ?].
  - apply print_version_chars.
  - apply print_version_nonempty.
  - apply print_version_digit.
Qed.

(** A version literal. *)
Definition ver (s : string) : Version := default (version_new 0 0 0) (ok (version_from_str s)).

Example ver_order :
  (fun p => version_cmp (ver p.1) (ver p.2)) <$>
    [("1.0.0-alpha", "1.0.0-alpha.1"); ("1.0.0-alpha.1", "1.0.0-alpha.beta");
     ("1.0.0-beta.2", "1.0.0-beta.11"); ("1.0.0-rc.1", "1.0.0"); ("1.9.0", "1.10.0");
     ("1.0.0+build1", "1.0.0+build2"); ("2.0.0", "1.99.99")]
  = [Lt; Lt; Lt; Lt; Lt; Eq; Gt].
Proof. vm_compute. reflexivity. Qed.

Example ver_invalid :
  (fun s => is_ok (version_from_str s)) <$> ["1.0"; "01.0.0"; "1.0.0-"; "not-a-version"; "1.0.0-01"; ""]
  = [false; false; false; false; false; false].
Proof. vm_compute. reflexivity. Qed.

Lemma version_order_spec_witness : version_le (ver "1.0.0-rc.1") (ver "1.0.1").
Proof.
  apply (version_order_spec (ver "1.0.0-rc.1") (ver "1.0.0") (ver "1.0.1") build_empty);
    vm_compute; congruence.
Defined.
