(* ===== verification/Core.v ===== *)
(** * Core: the domain types of [deltaship-core]

    [binary.rs] (names, platforms), [diff.rs] (algorithms, compression) and
    [update.rs] (rollout percentages, update-check responses). *)

From S2P Require Import Prelude Text Version.

#[local] Open Scope Z_scope.

(** [CoreIoError] and [CoreChecksumMismatch] are [IoError] and [ChecksumMismatch]. *)
Inductive DeltashipError :=
| InvalidVersion (msg : string)
| InvalidBinaryName (msg : string)
| InvalidBinaryId (msg : string)
| InvalidPlatform (msg : string)
| InvalidDiffAlgorithm (msg : string)
| InvalidDiffId (msg : string)
| InvalidCompressionFormat (msg : string)
| CoreIoError (msg : string)
| SerializationError (msg : string)
| DiffGenerationError (msg : string)
| PatchError (msg : string)
| CoreChecksumMismatch (expected actual : string)
| SignatureError (msg : string)
| VersionNotFound (msg : string)
| BinaryNotFound (msg : string)
| InvalidData (msg : string)
| InvalidRolloutPercentage (msg : string).

(** ** Binary names *)

Inductive BinaryName := MkBinaryName (name : string).

Definition binary_name_as_str (n : BinaryName) : string := let 'MkBinaryName s := n in s.

Definition binary_name_new (name : string) : result DeltashipError BinaryName :=
  if str_is_empty name then Err (InvalidBinaryName "name cannot be empty")
  else if negb (all_chars (fun c => is_ascii_alphanumeric c || bool_decide (c = "-"%char)) name) then
    Err (InvalidBinaryName "name must contain only alphanumeric characters and hyphens")
  else if starts_with "-" name || ends_with "-" name then
    Err (InvalidBinaryName "name cannot start or end with a hyphen")
  else Ok (MkBinaryName name).

(** ** Platforms *)

Inductive Platform := LinuxX86_64 | LinuxAarch64 | WindowsX86_64 | MacosX86_64 | MacosAarch64.

#[global] Instance Platform_eq_dec : EqDecision Platform.
Proof. solve_decision. Defined.

Definition platform_as_str (p : Platform) : string :=
  match p with
  | LinuxX86_64 => "linux-x86_64"
  | LinuxAarch64 => "linux-aarch64"
  | WindowsX86_64 => "windows-x86_64"
  | MacosX86_64 => "macos-x86_64"
  | MacosAarch64 => "macos-aarch64"
  end.

Definition all_platforms : list string :=
  ["linux-x86_64"; "linux-aarch64"; "windows-x86_64"; "macos-x86_64"; "macos-aarch64"].

Definition all_platform_variants : list string :=
  ["linux-x86_64"; "linux_x86_64"; "linux-aarch64"; "linux_aarch64"; "windows-x86_64";
   "windows_x86_64"; "macos-x86_64"; "macos_x86_64"; "macos-aarch64"; "macos_aarch64"].

Definition platform_from_str (s : string) : result DeltashipError Platform :=
  let l := to_lowercase s in
  if bool_decide (l ∈ ["linux-x86_64"; "linux_x86_64"]) then Ok LinuxX86_64
  else if bool_decide (l ∈ ["linux-aarch64"; "linux_aarch64"]) then Ok LinuxAarch64
  else if bool_decide (l ∈ ["windows-x86_64"; "windows_x86_64"]) then Ok WindowsX86_64
  else if bool_decide (l ∈ ["macos-x86_64"; "macos_x86_64"]) then Ok MacosX86_64
  else if bool_decide (l ∈ ["macos-aarch64"; "macos_aarch64"]) then Ok MacosAarch64
  else Err (InvalidPlatform s).

#[global] Program Instance Platform_countable : Countable Platform := {|
  encode p := encode (platform_as_str p);
  decode n := s ← decode n; ok (platform_from_str s);
|}.
Next Obligation. by intros []. Qed.

(** ** Diff algorithms and compression formats *)

Inductive DiffAlgorithm := Bsdiff | Courgette | Xdelta3.

Definition algorithm_as_str (a : DiffAlgorithm) : string :=
  match a with Bsdiff => "bsdiff" | Courgette => "courgette" | Xdelta3 => "xdelta3" end.

Definition algorithm_from_str (s : string) : result DeltashipError DiffAlgorithm :=
  let l := to_lowercase s in
  if bool_decide (l = "bsdiff") then Ok Bsdiff
  else if bool_decide (l = "courgette") then Ok Courgette
  else if bool_decide (l = "xdelta3") then Ok Xdelta3
  else Err (InvalidDiffAlgorithm s).

Inductive CompressionFormat := CNone | Zstd | Gzip.

Definition compression_as_str (c : CompressionFormat) : string :=
  match c with CNone => "none" | Zstd => "zstd" | Gzip => "gzip" end.

Definition compression_from_str (s : string) : result DeltashipError CompressionFormat :=
  let l := to_lowercase s in
  if bool_decide (l = "none") then Ok CNone
  else if bool_decide (l = "zstd") then Ok Zstd
  else if bool_decide (l ∈ ["gzip"; "gz"]) then Ok Gzip
  else Err (InvalidCompressionFormat s).

(** ** Rollout percentages *)

Inductive RolloutPercentage := MkRolloutPercentage (value : Z).

Definition rollout_value (p : RolloutPercentage) : Z := let 'MkRolloutPercentage v := p in v.

(** [value] is a [u8]. *)
Definition rollout_percentage_new (value : Z) : result DeltashipError RolloutPercentage :=
  if 100 <? value
  then Err (InvalidData ("Rollout percentage must be 0-100, got " +:+ pretty value))
  else Ok (MkRolloutPercentage value).

(** ** Update-check responses *)

Section Response.
Context {SV : Semver}.

Record UpdateCheckResponse := {
  update_available : bool;
  target_version : option Version;
  diff_url : option string;
  diff_checksum : option string;
  diff_size : option Z;
  full_binary_url : option string;
  full_binary_size : option Z;
  checksum : option string;
  signature_url : option string;
  release_notes : option string;
  forced : bool;
  rollout_percentage : option Z;
  in_rollout : option bool;
}.

Definition no_update : UpdateCheckResponse :=
  {| update_available := false; target_version := None; diff_url := None; diff_checksum := None;
     diff_size := None; full_binary_url := None; full_binary_size := None; checksum := None;
     signature_url := None; release_notes := None; forced := false; rollout_percentage := None;
     in_rollout := None |}.

Definition available (v : Version) : UpdateCheckResponse :=
  {| update_available := true; target_version := Some v; diff_url := None; diff_checksum := None;
     diff_size := None; full_binary_url := None; full_binary_size := None; checksum := None;
     signature_url := None; release_notes := None; forced := false; rollout_percentage := None;
     in_rollout := None |}.

Definition not_in_rollout (v : Version) (p : RolloutPercentage) : UpdateCheckResponse :=
  {| update_available := false; target_version := Some v; diff_url := None; diff_checksum := None;
     diff_size := None; full_binary_url := None; full_binary_size := None; checksum := None;
     signature_url := None; release_notes := None; forced := false;
     rollout_percentage := Some (rollout_value p); in_rollout := Some false |}.

(** The builder methods replace one field each. *)
Definition with_diff_url (u : string) (r : UpdateCheckResponse) : UpdateCheckResponse :=
  {| update_available := update_available r; target_version := target_version r;
     diff_url := Some u; diff_checksum := diff_checksum r; diff_size := diff_size r;
     full_binary_url := full_binary_url r; full_binary_size := full_binary_size r;
     checksum := checksum r; signature_url := signature_url r; release_notes := release_notes r;
     forced := forced r; rollout_percentage := rollout_percentage r; in_rollout := in_rollout r |}.

Definition with_diff_checksum (c : string) (r : UpdateCheckResponse) : UpdateCheckResponse :=
  {| update_available := update_available r; target_version := target_version r;
     diff_url := diff_url r; diff_checksum := Some c; diff_size := diff_size r;
     full_binary_url := full_binary_url r; full_binary_size := full_binary_size r;
     checksum := checksum r; signature_url := signature_url r; release_notes := release_notes r;
     forced := forced r; rollout_percentage := rollout_percentage r; in_rollout := in_rollout r |}.

Definition with_diff_size (n : Z) (r : UpdateCheckResponse) : UpdateCheckResponse :=
  {| update_available := update_available r; target_version := target_version r;
     diff_url := diff_url r; diff_checksum := diff_checksum r; diff_size := Some n;
     full_binary_url := full_binary_url r; full_binary_size := full_binary_size r;
     checksum := checksum r; signature_url := signature_url r; release_notes := release_notes r;
     forced := forced r; rollout_percentage := rollout_percentage r; in_rollout := in_rollout r |}.

Definition with_full_binary_url (u : string) (r : UpdateCheckResponse) : UpdateCheckResponse :=
  {| update_available := update_available r; target_version := target_version r;
     diff_url := diff_url r; diff_checksum := diff_checksum r; diff_size := diff_size r;
     full_binary_url := Some u; full_binary_size := full_binary_size r;
     checksum := checksum r; signature_url := signature_url r; release_notes := release_notes r;
     forced := forced r; rollout_percentage := rollout_percentage r; in_rollout := in_rollout r |}.

Definition with_checksum (c : string) (r : UpdateCheckResponse) : UpdateCheckResponse :=
  {| update_available := update_available r; target_version := target_version r;
     diff_url := diff_url r; diff_checksum := diff_checksum r; diff_size := diff_size r;
     full_binary_url := full_binary_url r; full_binary_size := full_binary_size r;
     checksum := Some c; signature_url := signature_url r; release_notes := release_notes r;
     forced := forced r; rollout_percentage := rollout_percentage r; in_rollout := in_rollout r |}.

Definition with_signature_url (u : string) (r : UpdateCheckResponse) : UpdateCheckResponse :=
  {| update_available := update_available r; target_version := target_version r;
     diff_url := diff_url r; diff_checksum := diff_checksum r; diff_size := diff_size r;
     full_binary_url := full_binary_url r; full_binary_size := full_binary_size r;
     checksum := checksum r; signature_url := Some u; release_notes := release_notes r;
     forced := forced r; rollout_percentage := rollout_percentage r; in_rollout := in_rollout r |}.

Definition with_release_notes (n : string) (r : UpdateCheckResponse) : UpdateCheckResponse :=
  {| update_available := update_available r; target_version := target_version r;
     diff_url := diff_url r; diff_checksum := diff_checksum r; diff_size := diff_size r;
     full_binary_url := full_binary_url r; full_binary_size := full_binary_size r;
     checksum := checksum r; signature_url := signature_url r; release_notes := Some n;
     forced := forced r; rollout_percentage := rollout_percentage r; in_rollout := in_rollout r |}.

Definition with_forced (f : bool) (r : UpdateCheckResponse) : UpdateCheckResponse :=
  {| update_available := update_available r; target_version := target_version r;
     diff_url := diff_url r; diff_checksum := diff_checksum r; diff_size := diff_size r;
     full_binary_url := full_binary_url r; full_binary_size := full_binary_size r;
     checksum := checksum r; signature_url := signature_url r; release_notes := release_notes r;
     forced := f; rollout_percentage := rollout_percentage r; in_rollout := in_rollout r |}.

Definition with_rollout_percentage (p : RolloutPercentage) (r : UpdateCheckResponse) : UpdateCheckResponse :=
  {| update_available := update_available r; target_version := target_version r;
     diff_url := diff_url r; diff_checksum := diff_checksum r; diff_size := diff_size r;
     full_binary_url := full_binary_url r; full_binary_size := full_binary_size r;
     checksum := checksum r; signature_url := signature_url r; release_notes := release_notes r;
     forced := forced r; rollout_percentage := Some (rollout_value p); in_rollout := in_rollout r |}.

Definition with_full_binary_size (n : Z) (r : UpdateCheckResponse) : UpdateCheckResponse :=
  {| update_available := update_available r; target_version := target_version r;
     diff_url := diff_url r; diff_checksum := diff_checksum r; diff_size := diff_size r;
     full_binary_url := full_binary_url r; full_binary_size := Some n;
     checksum := checksum r; signature_url := signature_url r; release_notes := release_notes r;
     forced := forced r; rollout_percentage := rollout_percentage r; in_rollout := in_rollout r |}.

Definition with_in_rollout (b : bool) (r : UpdateCheckResponse) : UpdateCheckResponse :=
  {| update_available := update_available r; target_version := target_version r;
     diff_url := diff_url r; diff_checksum := diff_checksum r; diff_size := diff_size r;
     full_binary_url := full_binary_url r; full_binary_size := full_binary_size r;
     checksum := checksum r; signature_url := signature_url r; release_notes := release_notes r;
     forced := forced r; rollout_percentage := rollout_percentage r; in_rollout := Some b |}.

(** ** Update-check requests and statuses *)

Record UpdateCheckRequest := {
  uq_app_name : string;
  uq_current_version : Version;
  uq_platform : Platform;
  uq_device_id_hash : option string;
}.

Definition update_check_request_new (app_name : string) (current_version : Version) (platform : Platform)
    : UpdateCheckRequest :=
  {| uq_app_name := app_name; uq_current_version := current_version; uq_platform := platform; uq_device_id_hash := None |}.

Definition with_device_id_hash (hash : string) (r : UpdateCheckRequest) : UpdateCheckRequest :=
  {| uq_app_name := uq_app_name r; uq_current_version := uq_current_version r; uq_platform := uq_platform r;
     uq_device_id_hash := Some hash |}.
End Response.

Inductive UpdateStatus := Available | NotAvailable | NotInRollout.

(** ** Identifiers and metadata *)

(** [Uuid] with its parser and printer; a new identifier is made from a random one. *)
Section Identifiers.
Context {SV : Semver} {Uuid : Type} (parse_uuid : string -> result string Uuid) (print_uuid : Uuid -> string).

Inductive BinaryId := MkBinaryId (uuid : Uuid).
Definition binary_id_as_uuid (i : BinaryId) : Uuid := let 'MkBinaryId u := i in u.
Definition binary_id_to_string (i : BinaryId) : string := print_uuid (binary_id_as_uuid i).
Definition binary_id_from_str (s : string) : result DeltashipError BinaryId :=
  MkBinaryId <$> map_err InvalidBinaryId (parse_uuid s).

Inductive DiffId := MkDiffId (uuid : Uuid).
Definition diff_id_as_uuid (i : DiffId) : Uuid := let 'MkDiffId u := i in u.
Definition diff_id_to_string (i : DiffId) : string := print_uuid (diff_id_as_uuid i).
Definition diff_id_from_str (s : string) : result DeltashipError DiffId :=
  MkDiffId <$> map_err InvalidDiffId (parse_uuid s).

Record BinaryMetadata := {
  bm_id : BinaryId;
  bm_name : BinaryName;
  bm_platform : Platform;
  bm_description : option string;
  bm_created_at : Z;
}.

(** [random] is the new identifier, [now] the clock. *)
Definition binary_metadata_new (random : Uuid) (now : Z) (name : BinaryName) (platform : Platform) : BinaryMetadata :=
  {| bm_id := MkBinaryId random; bm_name := name; bm_platform := platform; bm_description := None; bm_created_at := now |}.

Definition with_description (description : string) (m : BinaryMetadata) : BinaryMetadata :=
  {| bm_id := bm_id m; bm_name := bm_name m; bm_platform := bm_platform m; bm_description := Some description;
     bm_created_at := bm_created_at m |}.

Record DiffMetadata := {
  dm_id : DiffId;
  dm_from_version : Version;
  dm_to_version : Version;
  dm_algorithm : DiffAlgorithm;
  dm_size_bytes : Z;
  dm_hash : string;
  dm_compression : CompressionFormat;
}.

Definition diff_metadata_new (random : Uuid) (from_version to_version : Version) (algorithm : DiffAlgorithm)
    (size_bytes : Z) (hash : string) : DiffMetadata :=
  {| dm_id := MkDiffId random; dm_from_version := from_version; dm_to_version := to_version; dm_algorithm := algorithm;
     dm_size_bytes := size_bytes; dm_hash := hash; dm_compression := CNone |}.

Definition with_compression (compression : CompressionFormat) (m : DiffMetadata) : DiffMetadata :=
  {| dm_id := dm_id m; dm_from_version := dm_from_version m; dm_to_version := dm_to_version m;
     dm_algorithm := dm_algorithm m; dm_size_bytes := dm_size_bytes m; dm_hash := dm_hash m;
     dm_compression := compression |}.

(** Printed identifiers parse back when those of the library do. *)
Lemma id_roundtrip u :
  (forall u, parse_uuid (print_uuid u) = Ok u) ->
  binary_id_from_str (binary_id_to_string (MkBinaryId u)) = Ok (MkBinaryId u) /\
  diff_id_from_str (diff_id_to_string (MkDiffId u)) = Ok (MkDiffId u).
Proof.
  intros H. unfold binary_id_from_str, binary_id_to_string, diff_id_from_str, diff_id_to_string. cbn. by rewrite H.
Qed.
End Identifiers.

(** ** Lemmas and properties *)

Lemma platform_from_as_str p : platform_from_str (platform_as_str p) = Ok p.
Proof. by destruct p. Qed.

#[export] Hint Rewrite platform_from_as_str : deltaship.

(** Platform names: printing then parsing gives the platform back, parsing
    accepts exactly the ten listed spellings in any letter case, the listed
    canonical names are the printed ones, and distinct platforms print
    differently. *)
Theorem platform_names_roundtrip s p q :
  platform_from_str (platform_as_str p) = Ok p /\
  (is_ok (platform_from_str s) = true <-> to_lowercase s ∈ all_platform_variants) /\
  (s ∈ all_platforms <-> exists r, platform_as_str r = s) /\
  (platform_as_str p = platform_as_str q -> p = q).
Proof.
  split_and!.
  - apply platform_from_as_str.
  - unfold platform_from_str, all_platform_variants. set (l := to_lowercase s). clearbody l.
    repeat case_bool_decide; simpl; split; intros; set_solver.
  - unfold all_platforms. split.
    + intros H. repeat (apply elem_of_cons in H as [-> | H]);
        [exists LinuxX86_64|exists LinuxAarch64|exists WindowsX86_64|exists MacosX86_64|exists MacosAarch64|];
        done || by apply elem_of_nil in H.
    + intros [r <-]. destruct r; set_solver.
  - intros H. apply (f_equal platform_from_str) in H. rewrite !platform_from_as_str in H. naive_solver.
Qed.

(** A binary name is accepted exactly when it is non-empty, made of ASCII
    letters, digits and hyphens, and neither starts nor ends with a hyphen; an
    accepted name is kept unchanged. *)
Theorem binary_name_new_spec name :
  binary_name_new name = Ok (MkBinaryName name) <->
  name <> "" /\
  Forall (fun c => is_ascii_alphanumeric c = true \/ c = "-"%char) (chars name) /\
  head (chars name) <> Some "-"%char /\ last (chars name) <> Some "-"%char.
Proof.
  assert (Hpre : forall l, prefixb ["-"%char] l = bool_decide (head l = Some "-"%char)).
  { intros [|c l]; [done|]. cbn. rewrite andb_true_r. apply bool_decide_ext. naive_solver. }
  unfold binary_name_new, starts_with, ends_with, str_is_empty.
  change (chars "-") with ["-"%char]. change (reverse ["-"%char]) with ["-"%char].
  rewrite !Hpre, head_reverse. case_bool_decide as H1; [naive_solver|].
  destruct (all_chars _ _) eqn:H2; cbn [negb].
  - apply all_chars_Forall in H2. repeat case_bool_decide; cbn [orb]; split; try naive_solver.
    intros _. split_and!; try done. eapply Forall_impl; [done|]. intros c.
    cbn beta. rewrite orb_true_iff, bool_decide_eq_true. naive_solver.
  - split; [done|]. intros (_ & HF & _). exfalso. apply not_true_iff_false in H2. apply H2.
    apply all_chars_Forall. eapply Forall_impl; [done|]. intros c.
    cbn beta. rewrite orb_true_iff, bool_decide_eq_true. naive_solver.
Qed.
