(* ===== verification/Validation.v ===== *)
(** * Validation: request names and file paths ([deltaship-server/src/validation.rs])

    [Path]: joining and resolving Unix paths the way [std::path] and the file
    system do (no symbolic links).  [Validation]: the validators every request
    goes through, and what a validated component can do to a path. *)

From S2P Require Import Prelude Text Version.

#[local] Open Scope Z_scope.

(** ** Paths *)

(** [Path::join]. *)
Definition join (p c : string) : string :=
  if starts_with "/" c then c
  else if str_is_empty p || ends_with "/" p then p +:+ c
  else p +:+ "/" +:+ c.

(** One component met while a path is followed from the directory [st]. *)
Definition enter (st : list string) (c : string) : list string :=
  if bool_decide (c = "") || bool_decide (c = ".") then st
  else if bool_decide (c = "..") then removelast st
  else st ++ [c].

(** The file a path names, as the components below the root. *)
Definition resolve (p : string) : list string :=
  fold_left enter (split_char "/"%char p) [].

(** A component that names an entry of its directory. *)
Definition plain (c : string) : Prop :=
  c <> "" /\ c <> "." /\ c <> ".." /\ "/"%char ∉ chars c.

#[global] Instance plain_dec c : Decision (plain c).
Proof. unfold plain. apply _. Defined.

Lemma split_on_app_sep f acc l c k :
  f c = true -> split_on f acc (l ++ c :: k) = split_on f acc l ++ split_on f [] k.
Proof.
  intros Hc. revert acc; induction l as [|d l IH]; intros acc; cbn [split_on app].
  - by rewrite Hc.
  - case_match; by rewrite IH.
Qed.

Lemma split_on_none f acc l :
  Forall (fun c => f c = false) l -> split_on f acc l = [of_chars (reverse acc ++ l)].
Proof.
  intros H. revert acc; induction H as [|c l Hc Hl IH]; intros acc; cbn [split_on].
  - by rewrite app_nil_r.
  - rewrite Hc, IH. by rewrite reverse_cons, <- app_assoc.
Qed.

Lemma split_char_none c s : c ∉ chars s -> split_char c s = [s].
Proof.
  intros H. unfold split_char. rewrite split_on_none; [simpl; by rewrite of_chars_chars|].
  apply Forall_forall. intros d Hd. apply bool_decide_eq_false. by intros ->.
Qed.

Lemma split_char_sep s t :
  "/"%char ∉ chars t -> split_char "/"%char (s +:+ "/" +:+ t) = split_char "/"%char s ++ [t].
Proof.
  intros Ht. rewrite <- (split_char_none _ t Ht). unfold split_char.
  rewrite !chars_app. change (chars "/") with ["/"%char]. simpl.
  by rewrite split_on_app_sep by (by apply bool_decide_eq_true).
Qed.

Lemma not_starts_with_slash c : "/"%char ∉ chars c -> starts_with "/" c = false.
Proof.
  intros Hc. apply not_true_iff_false. rewrite starts_with_spec. intros [t ->].
  apply Hc. rewrite chars_app. set_solver.
Qed.

(** Joining a component without separators enters it. *)
Lemma resolve_join p c : "/"%char ∉ chars c -> resolve (join p c) = enter (resolve p) c.
Proof.
  intros Hc. unfold join. rewrite not_starts_with_slash by done. unfold resolve.
  assert (Hsep : forall s, fold_left enter (split_char "/"%char (s +:+ "/" +:+ c)) []
                           = enter (fold_left enter (split_char "/"%char s) []) c).
  { intros s. rewrite split_char_sep by done. by rewrite fold_left_app. }
  destruct (str_is_empty p || ends_with "/" p) eqn:E; [|apply Hsep].
  apply orb_true_iff in E as [E|E].
  - unfold str_is_empty in E. apply bool_decide_eq_true in E as ->.
    change ("" +:+ c) with c. by rewrite split_char_none.
  - unfold ends_with in E. apply prefixb_spec in E as [k Hk].
    apply (f_equal reverse) in Hk. rewrite reverse_involutive, reverse_app in Hk.
    assert (Hp : p = of_chars (reverse k) +:+ "/" +:+ "").
    { apply (inj chars). rewrite Hk, !chars_app, chars_of_chars. done. }
    rewrite Hp at 2. rewrite split_char_sep by set_solver. rewrite fold_left_app. cbn [fold_left].
    assert (forall st, enter st "" = st) as -> by done. rewrite <- Hsep. f_equal. rewrite Hp. f_equal. apply (inj chars). rewrite !chars_app. simpl.
    by rewrite <- app_assoc.
Qed.

Lemma enter_plain st c : plain c -> enter st c = st ++ [c].
Proof.
  intros (H1 & H2 & H3 & _). unfold enter.
  by rewrite !bool_decide_eq_false_2 by done.
Qed.

Lemma resolve_join_plain p c : plain c -> resolve (join p c) = resolve p ++ [c].
Proof. intros H. rewrite resolve_join by apply H. by apply enter_plain. Qed.

#[export] Hint Rewrite resolve_join_plain using (by (done || (vm_compute; naive_solver))) : deltaship.

(** ** Validators *)

Definition MAX_NAME_LENGTH : Z := 255.
Definition MAX_PATH_LENGTH : Z := 256.

Inductive ValidationError :=
| Empty | TooLong | InvalidCharacters | PathTraversal | NullByte | PathTooLong.

Definition validation_error_to_string (e : ValidationError) : string :=
  match e with
  | Empty => "Name cannot be empty"
  | TooLong => "Name exceeds maximum length"
  | InvalidCharacters => "Name contains invalid characters"
  | PathTraversal => "Name contains invalid path sequences"
  | NullByte => "Name contains invalid characters"
  | PathTooLong => "Path exceeds maximum length (Windows MAX_PATH)"
  end.

(** The classes of [VALID_NAME_REGEX] and [VALID_VERSION_REGEX]; both patterns
    ask for one or more characters of the class and nothing else. *)
Definition name_char (c : ascii) : bool := is_ascii_alphanumeric c || bool_decide (c ∈ chars "._-").
Definition version_str_char (c : ascii) : bool :=
  is_ascii_alphanumeric c || bool_decide (c ∈ chars "._+-").
Definition regex_plus (cls : ascii -> bool) (s : string) : bool :=
  negb (str_is_empty s) && all_chars cls s.
Definition valid_name_regex : string -> bool := regex_plus name_char.
Definition valid_version_regex : string -> bool := regex_plus version_str_char.

Definition validate_name (name : string) : result ValidationError unit :=
  if str_is_empty name then Err Empty
  else if MAX_NAME_LENGTH <? str_len name then Err TooLong
  else if contains_char (chr 0) name then Err NullByte
  else if contains_str ".." name || contains_char "/"%char name || contains_char "\"%char name
       then Err PathTraversal
  else if negb (valid_name_regex name) then Err InvalidCharacters
  else Ok tt.

Definition validate_version (version : string) : result ValidationError unit :=
  if str_is_empty version then Err Empty
  else if MAX_NAME_LENGTH <? str_len version then Err TooLong
  else if contains_char (chr 0) version then Err NullByte
  else if contains_str ".." version || contains_char "/"%char version || contains_char "\"%char version
       then Err PathTraversal
  else if negb (valid_version_regex version) then Err InvalidCharacters
  else Ok tt.

Definition validate_path_length (path : string) : result ValidationError unit :=
  if MAX_PATH_LENGTH <=? str_len path then Err PathTooLong else Ok tt.

(** ** What validation guarantees *)

Lemma regex_plus_spec cls s :
  regex_plus cls s = true <-> s <> "" /\ Forall (fun c => cls c = true) (chars s).
Proof.
  unfold regex_plus, str_is_empty. rewrite andb_true_iff, negb_true_iff, bool_decide_eq_false, all_chars_Forall.
  done.
Qed.

Definition acceptable (cls : ascii -> bool) (s : string) : Prop :=
  s <> "" /\ str_len s <= MAX_NAME_LENGTH /\ Forall (fun c => cls c = true) (chars s) /\
  contains_str ".." s = false.

Lemma not_in_class cls s c :
  cls c = false -> Forall (fun c => cls c = true) (chars s) -> contains_char c s = false.
Proof.
  intros Hc Hs. apply bool_decide_eq_false. intros Hin. rewrite Forall_forall in Hs.
  by rewrite (Hs _ Hin) in Hc.
Qed.

Lemma validator_spec cls s :
  cls (chr 0) = false -> cls "/"%char = false -> cls "\"%char = false ->
  (if str_is_empty s then Err Empty
   else if MAX_NAME_LENGTH <? str_len s then Err TooLong
   else if contains_char (chr 0) s then Err NullByte
   else if contains_str ".." s || contains_char "/"%char s || contains_char "\"%char s
        then Err PathTraversal
   else if negb (regex_plus cls s) then Err InvalidCharacters
   else Ok tt) = Ok tt <-> acceptable cls s.
Proof.
  intros H0 H1 H2. unfold acceptable. unfold str_is_empty at 1. case_bool_decide as He; [naive_solver|].
  destruct (Z.ltb_spec MAX_NAME_LENGTH (str_len s)); [naive_solver lia|].
  destruct (regex_plus cls s) eqn:Hr.
  - apply regex_plus_spec in Hr as [_ Hr].
    rewrite !(not_in_class _ _ _ H0 Hr), !(not_in_class _ _ _ H1 Hr), !(not_in_class _ _ _ H2 Hr).
    rewrite !orb_false_r. destruct (contains_str ".." s); naive_solver.
  - split; [by repeat case_match|]. intros (_ & _ & HF & _). exfalso.
    apply not_true_iff_false in Hr. apply Hr, regex_plus_spec. done.
Qed.

Lemma validate_name_iff s : validate_name s = Ok tt <-> acceptable name_char s.
Proof. by apply validator_spec. Qed.

Lemma validate_version_iff s : validate_version s = Ok tt <-> acceptable version_str_char s.
Proof. by apply validator_spec. Qed.

(** A name passes validation exactly when it is non-empty, at most 255
    bytes, made only of [a-zA-Z0-9._-], and has no two dots in a row; likewise a
    version string with [+] allowed too.  Separators, backslashes and NUL bytes
    are therefore always rejected. *)
Theorem validate_spec s :
  (validate_name s = Ok tt <-> acceptable name_char s) /\
  (validate_version s = Ok tt <-> acceptable version_str_char s).
Proof. split; [apply validate_name_iff|apply validate_version_iff]. Qed.

Lemma acceptable_plain cls s :
  cls "/"%char = false -> acceptable cls s -> plain s \/ s = ".".
Proof.
  intros Hc (H1 & _ & H3 & H4). destruct (decide (s = ".")) as [|Hd]; [by right|left].
  split_and!; try done.
  - intros ->. by vm_compute in H4.
  - apply (not_in_class _ _ _ Hc) in H3. by apply bool_decide_eq_false in H3.
Qed.

Lemma validated_name s : validate_name s = Ok tt -> plain s \/ s = ".".
Proof. intros H%validate_name_iff. exact (acceptable_plain name_char s eq_refl H). Qed.

Lemma validated_version s : validate_version s = Ok tt -> plain s \/ s = ".".
Proof. intros H%validate_version_iff. exact (acceptable_plain version_str_char s eq_refl H). Qed.

(** What entering a validated component does: at most one level down. *)
Definition below (c : string) : list string := if bool_decide (c = ".") then [] else [c].

Lemma resolve_join_validated p c :
  plain c \/ c = "." -> resolve (join p c) = resolve p ++ below c.
Proof.
  unfold below. intros [H | ->].
  - rewrite bool_decide_eq_false_2 by apply H. exact (resolve_join_plain _ _ H).
  - rewrite resolve_join by set_solver. simpl. by rewrite app_nil_r.
Qed.

Section Semver.
Context {SV : Semver} {SVL : SemverLaws SV}.

(** A parsed version string passes the character checks of the validator. *)
Lemma parsed_version_chars s v :
  version_from_str s = Ok v -> Forall (fun c => version_str_char c = true) (chars s).
Proof.
  unfold version_from_str. intros H%map_err_Ok. pose proof H as Hs%sv_to_string_parse.
  apply sv_parse_wf, sv_to_string_chars in H. rewrite Hs in H. apply all_chars_Forall in H.
  eapply Forall_impl; [done|]. intros c. cbn beta. unfold version_char, version_str_char.
  rewrite !orb_true_iff, !bool_decide_eq_true. intros [?|Hc]; [by left|right].
  revert Hc. change (chars ".+-") with ["."; "+"; "-"]%char. change (chars "._+-") with ["."; "_"; "+"; "-"]%char.
  set_solver.
Qed.
End Semver.
