(* ===== verification/RateLimit.v ===== *)
(** * RateLimit: request limiting and authentication backoff
    ([deltaship-server/src/rate_limit.rs])

    Both limiters are a mutex-protected [HashMap] from client address to an
    entry.  An operation takes the time [now] (nanoseconds) that
    [Instant::now()] returned inside the lock; the iteration order of a
    [HashMap] is the parameter [iter]. *)

From S2P Require Import Prelude Text.

#[local] Open Scope Z_scope.

Definition MAX_ENTRIES : Z := 100000.
Definition LRU_EVICTION_COUNT : Z := MAX_ENTRIES / 10.
Definition AUTH_FAILURE_THRESHOLD : Z := 5.
Definition AUTH_BACKOFF_BASE_SECONDS : Z := 60.
Definition MAX_AUTH_BACKOFF_SECONDS : Z := 600.

(** [Duration::from_secs] and [Instant::duration_since] (which saturates). *)
Definition from_secs (s : Z) : Z := s * 10 ^ 9.
Definition duration_since (now t : Z) : Z := Z.max (now - t) 0.

(** ** The client address *)

(** [client_ip]: [addr] is the socket peer, [xff] the text of the
    [X-Forwarded-For] header when there is one and it is readable. *)
Definition client_ip (addr : string) (xff : option string) (trust_proxy : bool) : string :=
  if trust_proxy then
    match xff with
    | Some xff =>
        match filter (fun s => s <> "") (reverse (trim <$> split_char ","%char xff)) with
        | ip :: _ => ip
        | [] => addr
        end
    | None => addr
    end
  else addr.

(** ** Sorting *)

(** [sort_by_key]: a stable sort. *)
Fixpoint insert_by {A} (key : A -> Z) (x : A) (l : list A) : list A :=
  match l with
  | [] => [x]
  | y :: l' => if key x <=? key y then x :: l else y :: insert_by key x l'
  end.
Definition sort_by_key {A} (key : A -> Z) (l : list A) : list A := foldr (insert_by key) [] l.

Lemma insert_by_perm {A} (key : A -> Z) x l : insert_by key x l ≡ₚ x :: l.
Proof.
  induction l as [|y l IH]; simpl; [done|]. case_match; [done|]. rewrite IH. apply Permutation_swap.
Qed.

Lemma sort_by_key_perm {A} (key : A -> Z) l : sort_by_key key l ≡ₚ l.
Proof. induction l as [|x l IH]; simpl; [done|]. by rewrite insert_by_perm, IH. Qed.

(** ** The request limiter *)

Record RateLimitEntry := {
  count : Z;
  window_start : Z;
  rl_last_access : Z;
}.

Record RateConfig := { max_requests : Z; window_duration : Z }.

Abbreviation rl_map := (gmap string RateLimitEntry).

(** The iteration order of [HashMap]s: some enumeration of the entries. *)
Class HashIter := iter : forall E : Type, gmap string E -> list (string * E).
Class HashIterLaws (HI : HashIter) : Prop := iter_perm E m : iter E m ≡ₚ map_to_list m.

(** Remove the [evict] oldest entries of the sampled [candidates]. *)
Definition remove_oldest {E} (entries : gmap string E) (candidates : list (string * Z)) (evict : Z)
    : gmap string E :=
  foldl (fun m kt => delete kt.1 m) entries (takeZ evict (sort_by_key snd candidates)).

Definition map_len {E} (m : gmap string E) : Z := Z.of_nat (size m).

Module RateLimiter.
Section ops.
Context {HI : HashIter} (cfg : RateConfig).

Definition live (now : Z) (kv : string * RateLimitEntry) : Prop :=
  duration_since now (window_start kv.2) < window_duration cfg.

#[global] Instance live_dec now kv : Decision (live now kv).
Proof. unfold live. apply _. Defined.

Definition cleanup_expired_entries (entries : rl_map) (now : Z) : rl_map :=
  filter (live now) entries.

Definition evict_when_full (entries : rl_map) (now : Z) : rl_map :=
  if map_len entries <? MAX_ENTRIES then entries
  else
    let entries := cleanup_expired_entries entries now in
    if map_len entries <? MAX_ENTRIES then entries
    else
      let evict := Z.min LRU_EVICTION_COUNT (map_len entries) in
      let sample := Z.min (evict * 4) (map_len entries) in
      let candidates := prod_map id rl_last_access <$> takeZ sample (iter _ entries) in
      remove_oldest entries candidates evict.

(** One pass of the background task of [spawn_cleanup_task]. *)
Definition cleanup_task (entries : rl_map) (now : Z) : rl_map :=
  filter (live now) entries.

Definition check_rate_limit (ip : string) (now : Z) (entries : rl_map) : bool * rl_map :=
  let is_new_ip := bool_decide (entries !! ip = None) in
  let entries := if is_new_ip && (MAX_ENTRIES <=? map_len entries)
                 then evict_when_full entries now else entries in
  let entry := default {| count := 0; window_start := now; rl_last_access := now |}
                       (entries !! ip) in
  let entry := {| count := count entry; window_start := window_start entry;
                  rl_last_access := now |} in
  let entry := if window_duration cfg <=? duration_since now (window_start entry)
               then {| count := 0; window_start := now; rl_last_access := rl_last_access entry |}
               else entry in
  if max_requests cfg <=? count entry then (false, <[ip := entry]> entries)
  else (true, <[ip := {| count := count entry + 1; window_start := window_start entry;
                         rl_last_access := rl_last_access entry |}]> entries).
End ops.
End RateLimiter.

(** ** The authentication-failure limiter *)

Record AuthFailureEntry := {
  failure_count : Z;
  backoff_until : option Z;
  af_last_access : Z;
}.

Abbreviation af_map := (gmap string AuthFailureEntry).

(** The map behind its mutex: a panic inside a critical section poisons it. *)
Record AuthFailureLimiter := { entries : af_map; poisoned : bool }.

Definition limiter_new : AuthFailureLimiter := {| entries := ∅; poisoned := false |}.

Module AuthLimiter.
Definition in_backoff (now : Z) (e : AuthFailureEntry) : Prop :=
  match backoff_until e with Some b => now < b | None => False end.

#[global] Instance in_backoff_dec now e : Decision (in_backoff now e).
Proof. unfold in_backoff. destruct (backoff_until e); apply _. Defined.

(** The [retain] predicate. *)
Definition keep (now : Z) (kv : string * AuthFailureEntry) : Prop :=
  in_backoff now kv.2 \/
  duration_since now (af_last_access kv.2) < from_secs MAX_AUTH_BACKOFF_SECONDS.

#[global] Instance keep_dec now kv : Decision (keep now kv).
Proof. unfold keep. apply _. Defined.

Definition cleanup_expired_entries (m : af_map) (now : Z) : af_map := filter (keep now) m.

Definition evict_when_full {HI : HashIter} (m : af_map) (now : Z) : af_map :=
  if map_len m <? MAX_ENTRIES then m
  else
    let m := cleanup_expired_entries m now in
    if map_len m <? MAX_ENTRIES then m
    else
      let evict := Z.min LRU_EVICTION_COUNT (map_len m) in
      let sample := Z.min (evict * 4) (map_len m) in
      let candidates :=
        prod_map id af_last_access <$>
          takeZ sample (filter (fun kv => ~ in_backoff now kv.2) (iter _ m)) in
      remove_oldest m candidates evict.

(** One pass of the background task: it does nothing on a poisoned mutex. *)
Definition cleanup_task (now : Z) (st : AuthFailureLimiter) : AuthFailureLimiter :=
  if poisoned st then st
  else {| entries := filter (keep now) (entries st); poisoned := false |}.

(** The backoff in seconds for [failures] recorded failures, computed in
    [u64] arithmetic of the build profile. *)
Definition backoff_seconds (pr : profile) (failures : Z) : outcome Z :=
  pow ← arith pr 64 (2 ^ (failures - AUTH_FAILURE_THRESHOLD));
  prod ← arith pr 64 (AUTH_BACKOFF_BASE_SECONDS * pow);
  Val (Z.min prod MAX_AUTH_BACKOFF_SECONDS).

(** The update of the entry, inside the lock: the answer and the entry. *)
Definition fail_entry (pr : profile) (now : Z) (e : AuthFailureEntry)
    : outcome (bool * AuthFailureEntry) :=
  let e := {| failure_count := failure_count e; backoff_until := backoff_until e;
              af_last_access := now |} in
  if decide (in_backoff now e) then Val (false, e)
  else
    fc ← arith pr 32 (failure_count e + 1);
    if AUTH_FAILURE_THRESHOLD <=? fc then
      secs ← backoff_seconds pr fc;
      Val (false, {| failure_count := fc; backoff_until := Some (now + from_secs secs);
                     af_last_access := now |})
    else Val (true, {| failure_count := fc; backoff_until := None; af_last_access := now |}).

(** A panic leaves the mutex poisoned; what it left in the entry is never
    observed again. *)
Definition record_failure {HI : HashIter} (pr : profile) (ip : string) (now : Z) (st : AuthFailureLimiter)
    : outcome bool * AuthFailureLimiter :=
  if poisoned st then (Panic, st)
  else
    let m := entries st in
    let is_new_ip := bool_decide (m !! ip = None) in
    let m := if is_new_ip && (MAX_ENTRIES <=? map_len m) then evict_when_full m now else m in
    let e := default {| failure_count := 0; backoff_until := None; af_last_access := now |}
                     (m !! ip) in
    match fail_entry pr now e with
    | Val (r, e') => (Val r, {| entries := <[ip := e']> m; poisoned := false |})
    | Panic => (Panic, {| entries := <[ip := e]> m; poisoned := true |})
    end.

Definition record_success (ip : string) (now : Z) (st : AuthFailureLimiter)
    : outcome unit * AuthFailureLimiter :=
  if poisoned st then (Panic, st)
  else
    match entries st !! ip with
    | Some e =>
        let fc := saturating_sub (failure_count e) 1 in
        let m := <[ip := {| failure_count := fc; backoff_until := None;
                            af_last_access := now |}]> (entries st) in
        (Val tt, {| entries := if fc =? 0 then delete ip m else m; poisoned := false |})
    | None => (Val tt, st)
    end.

Definition is_blocked (ip : string) (now : Z) (st : AuthFailureLimiter) : outcome bool :=
  if poisoned st then Panic
  else match entries st !! ip with
       | Some e => Val (bool_decide (in_backoff now e))
       | None => Val false
       end.
End AuthLimiter.

(** ** Lemmas: eviction *)

Lemma lookup_foldl_delete {E} (ks : list (string * Z)) (m : gmap string E) k :
  foldl (fun m kt => delete kt.1 m) m ks !! k = if bool_decide (k ∈ ks.*1) then None else m !! k.
Proof.
  revert m; induction ks as [|[k' t] ks IH]; intros m; simpl; [done|]. rewrite IH.
  destruct (decide (k = k')) as [->|Hne].
  - rewrite lookup_delete_eq. repeat case_bool_decide; set_solver.
  - rewrite lookup_delete_ne by done. repeat case_bool_decide; set_solver.
Qed.

Lemma size_foldl_delete {E} (ks : list (string * Z)) (m : gmap string E) :
  NoDup ks.*1 -> (forall k, k ∈ ks.*1 -> is_Some (m !! k)) ->
  (size (foldl (fun m kt => delete kt.1 m) m ks) + length ks = size m)%nat.
Proof.
  revert m; induction ks as [|[k t] ks IH]; intros m Hnd Hin; simpl in *; [lia|].
  apply NoDup_cons in Hnd as [Hk Hnd].
  destruct (Hin k) as [e He]; [set_solver|].
  assert (Hsz : (size (foldl (fun m kt => delete kt.1 m) (delete k m) ks) + length ks = size (delete k m))%nat).
  { apply IH; [done|]. intros k' Hk'. rewrite lookup_delete_ne by set_solver. apply Hin. set_solver. }
  rewrite map_size_delete, He in Hsz. simpl in Hsz.
  assert (size m <> 0%nat) by (rewrite map_size_non_empty_iff; intros ->; by rewrite lookup_empty in He). lia.
Qed.

Lemma NoDup_takeZ_perm {A B} (f : A -> B) n (l k : list A) :
  l ≡ₚ k -> NoDup (f <$> k) -> NoDup (f <$> takeZ n l).
Proof.
  intros Hp Hk. rewrite <- Hp in Hk. rewrite takeZ_take. rewrite <- (take_drop (Z.to_nat n) l), fmap_app in Hk.
  by apply NoDup_app in Hk as [? _].
Qed.

Lemma elem_of_takeZ {A} n (l : list A) x : x ∈ takeZ n l -> x ∈ l.
Proof. rewrite takeZ_take. apply subseteq_take. Qed.

Section EvictionSize.
Context {HI : HashIter} {HIL : HashIterLaws HI}.

(** Candidates sampled from the map: distinct keys of the map. *)
Lemma sample_keys {E} (P : string * E -> Prop) `{forall x, Decision (P x)} (f : E -> Z)
    (m : gmap string E) n :
  NoDup ((prod_map id f <$> takeZ n (filter P (iter _ m))).*1) /\
  (forall k, k ∈ (prod_map id f <$> takeZ n (filter P (iter _ m))).*1 ->
     exists e, m !! k = Some e /\ P (k, e)).
Proof.
  assert (Hkeys : forall l : list (string * E), (prod_map id f <$> l).*1 = l.*1).
  { intros l. rewrite <- list_fmap_compose. by apply list_fmap_ext. }
  rewrite Hkeys. split.
  - apply NoDup_takeZ_perm with (k := filter P (map_to_list m)); [by rewrite iter_perm|].
    apply (sublist_NoDup _ (map_to_list m).*1); [apply NoDup_fst_map_to_list|].
    apply fmap_sublist, sublist_filter.
  - intros k Hk. apply list_elem_of_fmap in Hk as ([k' e] & -> & Hk).
    apply elem_of_takeZ, list_elem_of_filter in Hk as [HP Hk].
    rewrite iter_perm in Hk. apply elem_of_map_to_list in Hk. eauto.
Qed.

Lemma remove_oldest_lookup {E} (m : gmap string E) cs n k :
  remove_oldest m cs n !! k = None \/ remove_oldest m cs n !! k = m !! k.
Proof. unfold remove_oldest. rewrite lookup_foldl_delete. case_bool_decide; auto. Qed.

Lemma remove_oldest_size {E} (m : gmap string E) cs n :
  NoDup cs.*1 -> (forall k, k ∈ cs.*1 -> is_Some (m !! k)) -> 0 <= n ->
  map_len (remove_oldest m cs n) = map_len m - Z.min n (lenZ cs).
Proof.
  intros Hnd Hin Hn. unfold remove_oldest, map_len.
  rewrite <- (size_foldl_delete (takeZ n (sort_by_key snd cs)) m).
  - assert (lenZ (takeZ n (sort_by_key snd cs)) = Z.min n (lenZ cs)).
    { rewrite lenZ_takeZ by done. unfold lenZ. by rewrite (Permutation_length (sort_by_key_perm _ _)). }
    unfold lenZ in *. lia.
  - eapply NoDup_takeZ_perm; [apply sort_by_key_perm|done].
  - intros k Hk. apply Hin. apply list_elem_of_fmap in Hk as (x & -> & Hk).
    apply elem_of_takeZ in Hk. rewrite sort_by_key_perm in Hk. by apply list_elem_of_fmap_2.
Qed.

Lemma map_len_filter {E} (P : string * E -> Prop) `{forall x, Decision (P x)} (m : gmap string E) :
  map_len (filter P m) <= map_len m.
Proof. unfold map_len. pose proof (map_size_filter P m). lia. Qed.

Lemma map_len_insert {E} (m : gmap string E) k e :
  map_len (<[k := e]> m) <= map_len m + 1 /\
  (is_Some (m !! k) -> map_len (<[k := e]> m) = map_len m).
Proof.
  unfold map_len. rewrite map_size_insert. destruct (m !! k) eqn:E0; simpl.
  - split; [lia|done].
  - split; [lia|by intros [? ?]].
Qed.

Lemma rl_evict_size cfg (m : rl_map) now :
  map_len m <= MAX_ENTRIES -> map_len (RateLimiter.evict_when_full cfg m now) < MAX_ENTRIES.
Proof.
  intros Hm. unfold RateLimiter.evict_when_full.
  destruct (Z.ltb_spec (map_len m) MAX_ENTRIES); [done|].
  set (m' := RateLimiter.cleanup_expired_entries cfg m now).
  assert (map_len m' <= map_len m) by apply map_len_filter.
  destruct (Z.ltb_spec (map_len m') MAX_ENTRIES); [done|].
  assert (Hm' : map_len m' = MAX_ENTRIES) by lia. rewrite Hm'.
  change (Z.min LRU_EVICTION_COUNT MAX_ENTRIES) with 10000.
  change (Z.min (10000 * 4) MAX_ENTRIES) with 40000.
  assert (Hf : iter _ m' = filter (fun _ => True) (iter _ m')).
  { induction (iter _ m') as [|x l IH]; [done|]. rewrite filter_cons_True by done. by f_equal. }
  rewrite Hf. destruct (sample_keys (fun _ => True) rl_last_access m' 40000) as [Hnd Hin].
  rewrite remove_oldest_size; [| done | | lia].
  - assert (lenZ (prod_map id rl_last_access <$> takeZ 40000 (filter (fun _ => True) (iter _ m'))) = 40000).
    { unfold lenZ. rewrite length_fmap. fold (lenZ (takeZ 40000 (filter (fun _ => True) (iter _ m')))).
      rewrite <- Hf, lenZ_takeZ by lia.
      assert (lenZ (iter _ m') = map_len m'); [|unfold MAX_ENTRIES in *; lia].
      unfold lenZ, map_len. by rewrite (Permutation_length (iter_perm _ m')), length_map_to_list. }
    unfold MAX_ENTRIES in *. lia.
  - intros k Hk. destruct (Hin k Hk) as (e & He & _). eauto.
Qed.
End EvictionSize.

(** ** Runs of the request limiter *)

Inductive rl_event := CheckEv (ip : string) (now : Z) | SweepEv (now : Z).

Definition event_time (e : rl_event) : Z := match e with CheckEv _ t => t | SweepEv t => t end.

Record decision := { d_ip : string; d_time : Z; d_allowed : bool }.

Section Runs.
Context {HI : HashIter} (cfg : RateConfig).

Definition rl_step (m : rl_map) (e : rl_event) : list decision * rl_map :=
  match e with
  | CheckEv ip now =>
      let '(b, m') := RateLimiter.check_rate_limit cfg ip now m in
      ([{| d_ip := ip; d_time := now; d_allowed := b |}], m')
  | SweepEv now => ([], RateLimiter.cleanup_task cfg m now)
  end.

Fixpoint rl_run (m : rl_map) (es : list rl_event) : list decision * rl_map :=
  match es with
  | [] => ([], m)
  | e :: es =>
      let '(ds, m1) := rl_step m e in
      let '(ds', m2) := rl_run m1 es in (ds ++ ds', m2)
  end.

(** No check finds the map full with an unknown address. *)
Fixpoint no_eviction (m : rl_map) (es : list rl_event) : Prop :=
  match es with
  | [] => True
  | e :: es =>
      match e with CheckEv ip _ => is_Some (m !! ip) \/ map_len m < MAX_ENTRIES | SweepEv _ => True end /\
      no_eviction (rl_step m e).2 es
  end.

(** What a check does to the entry of its address. *)
Definition check_entry (now : Z) (o : option RateLimitEntry) : bool * RateLimitEntry :=
  let e := default {| count := 0; window_start := now; rl_last_access := now |} o in
  let c := if window_duration cfg <=? duration_since now (window_start e) then 0 else count e in
  let s := if window_duration cfg <=? duration_since now (window_start e) then now else window_start e in
  if max_requests cfg <=? c then (false, {| count := c; window_start := s; rl_last_access := now |})
  else (true, {| count := c + 1; window_start := s; rl_last_access := now |}).

Lemma check_rate_limit_entry ip now (m : rl_map) :
  is_Some (m !! ip) \/ map_len m < MAX_ENTRIES ->
  RateLimiter.check_rate_limit cfg ip now m =
  ((check_entry now (m !! ip)).1, <[ip := (check_entry now (m !! ip)).2]> m).
Proof.
  intros Hm. unfold RateLimiter.check_rate_limit, check_entry.
  assert (bool_decide (m !! ip = None) && (MAX_ENTRIES <=? map_len m) = false) as ->.
  { apply andb_false_iff. destruct Hm as [[e He]|Hm]; [left|right; lia].
    apply bool_decide_eq_false. by rewrite He. }
  cbn [count window_start rl_last_access]. set (e := default _ (m !! ip)).
  destruct (window_duration cfg <=? duration_since now (window_start e)); cbn [count];
    case_match; done.
Qed.
End Runs.

Definition times_from (t : Z) (es : list rl_event) : Prop := Sorted Z.le (t :: (event_time <$> es)).

Lemma times_from_cons t e es :
  times_from t (e :: es) <-> t <= event_time e /\ times_from (event_time e) es.
Proof.
  unfold times_from. cbn [fmap list_fmap]. split.
  - intros H. apply Sorted_inv in H as [H1 H2]. inversion_clear H2. done.
  - intros [H1 H2]. constructor; [exact H2|constructor; exact H1].
Qed.

(** Requests of [ip] let through at times in [t0, t1). *)
Definition accepted (ip : string) (t0 t1 : Z) (ds : list decision) : Z :=
  lenZ (filter (fun d => d_ip d = ip /\ d_allowed d = true /\ t0 <= d_time d < t1) ds).

Lemma accepted_app ip t0 t1 ds ds' :
  accepted ip t0 t1 (ds ++ ds') = accepted ip t0 t1 ds + accepted ip t0 t1 ds'.
Proof. unfold accepted. by rewrite filter_app, lenZ_app. Qed.

Section Window.
Context {HI : HashIter} (cfg : RateConfig).
Abbreviation W := (window_duration cfg).
Abbreviation maxr := (max_requests cfg).
Context (Hmax : 0 <= maxr).

Lemma accepted_late ip t0 t1 t m es :
  t1 <= t -> times_from t es -> accepted ip t0 t1 (rl_run cfg m es).1 = 0.
Proof.
  revert t m; induction es as [|e es IH]; intros t m Ht Hs; [done|].
  apply times_from_cons in Hs as [He Hs]. cbn [rl_run].
  destruct (rl_step cfg m e) as [ds m1] eqn:Estep. specialize (IH (event_time e) m1 ltac:(lia) Hs).
  destruct (rl_run cfg m1 es) as [ds' m2] eqn:Er. cbn [fst] in *. rewrite accepted_app, IH.
  destruct e as [ip' now|now]; cbn in Estep.
  - destruct (RateLimiter.check_rate_limit cfg ip' now m). simplify_eq. unfold accepted.
    rewrite filter_cons_False by (simpl; simpl in He; lia). done.
  - by simplify_eq.
Qed.

(** Requests still possible for an address from its entry, inside a window
    that has begun at [t]. *)
Definition budget (t : Z) (o : option RateLimitEntry) : Z :=
  match o with
  | None => maxr
  | Some e => if t <=? window_start e then maxr - count e else 2 * maxr - count e
  end.

Definition entry_ok (now : Z) (o : option RateLimitEntry) : Prop :=
  match o with None => True | Some e => 0 <= count e <= maxr /\ window_start e <= now end.

Lemma check_entry_ok t now o :
  entry_ok t o -> t <= now -> entry_ok now (Some (check_entry cfg now o).2).
Proof.
  intros Ho Ht. unfold check_entry, duration_since.
  destruct o as [e|]; cbn [from_option id count window_start] in *.
  - destruct Ho as [Hc Hs].
    destruct (Z.leb_spec W (Z.max (now - window_start e) 0));
      [destruct (Z.leb_spec maxr 0)|destruct (Z.leb_spec maxr (count e))]; cbn; lia.
  - destruct (Z.leb_spec W (Z.max (now - now) 0)), (Z.leb_spec maxr 0); cbn; lia.
Qed.

Lemma check_entry_budget t now o :
  entry_ok now o -> t <= now < t + W ->
  (if (check_entry cfg now o).1 then 1 else 0) + budget t (Some (check_entry cfg now o).2) <= budget t o.
Proof.
  intros Ho Ht. unfold check_entry, budget, duration_since.
  destruct o as [e|]; cbn [from_option id count window_start] in *.
  - destruct Ho as [Hc Hs].
    destruct (Z.leb_spec W (Z.max (now - window_start e) 0));
      [destruct (Z.leb_spec maxr 0)|destruct (Z.leb_spec maxr (count e))]; cbn;
      destruct (Z.leb_spec t now), (Z.leb_spec t (window_start e)); lia.
  - destruct (Z.leb_spec W (Z.max (now - now) 0)), (Z.leb_spec maxr 0); cbn; destruct (Z.leb_spec t now); lia.
Qed.

Lemma sweep_lookup (m : rl_map) now ip :
  RateLimiter.cleanup_task cfg m now !! ip =
  match m !! ip with
  | Some e => if W <=? duration_since now (window_start e) then None else Some e
  | None => None
  end.
Proof.
  unfold RateLimiter.cleanup_task. destruct (m !! ip) as [e|] eqn:E.
  - destruct (Z.leb_spec W (duration_since now (window_start e))).
    + apply map_lookup_filter_None. right. intros e' He'. simplify_eq. unfold RateLimiter.live. simpl. lia.
    + apply map_lookup_filter_Some. split; [done|]. unfold RateLimiter.live. simpl. lia.
  - apply map_lookup_filter_None. by left.
Qed.

(** The entry of [ip] after one event, and whether a request of [ip] was let
    through by it. *)
Definition entry_step (ip : string) (e : rl_event) (o : option RateLimitEntry)
    : bool * option RateLimitEntry :=
  match e with
  | CheckEv ip' now => if bool_decide (ip' = ip)
                     then ((check_entry cfg now o).1, Some (check_entry cfg now o).2) else (false, o)
  | SweepEv now => (false, match o with
                         | Some x => if W <=? duration_since now (window_start x) then None else Some x
                         | None => None end)
  end.

Lemma rl_step_entry ip e es (m : rl_map) t0 t1 :
  no_eviction cfg m (e :: es) ->
  (rl_step cfg m e).2 !! ip = (entry_step ip e (m !! ip)).2 /\
  accepted ip t0 t1 (rl_step cfg m e).1 =
    if (entry_step ip e (m !! ip)).1 && (t0 <=? event_time e) && (event_time e <? t1) then 1 else 0.
Proof.
  intros [Hne _]. destruct e as [ip' now|now]; cbn [rl_step entry_step event_time].
  - rewrite check_rate_limit_entry by done. cbn [fst snd]. unfold accepted.
    case_bool_decide as Hip; [subst|].
    + rewrite lookup_insert_eq. split; [done|]. destruct (check_entry cfg now (m !! ip)).1; cbn [andb].
      * destruct (Z.leb_spec t0 now), (Z.ltb_spec now t1); cbn [andb];
          first [rewrite filter_cons_True by (simpl; split_and!; done || lia)
                |rewrite filter_cons_False by (simpl; intros (_ & _ & ?); lia)]; done.
      * rewrite filter_cons_False by (simpl; naive_solver). done.
    + rewrite lookup_insert_ne by done. split; [done|].
      rewrite filter_cons_False by (simpl; naive_solver). done.
  - cbn [fst snd]. split; [apply sweep_lookup|done].
Qed.

Lemma entry_step_ok ip e t o :
  entry_ok t o -> t <= event_time e -> entry_ok (event_time e) (entry_step ip e o).2.
Proof.
  intros Ho Ht. destruct e as [ip' now|now]; cbn [entry_step event_time] in *.
  - case_bool_decide; cbn [snd]; [by eapply check_entry_ok|]. destruct o; simpl in *; lia.
  - destruct o as [x|]; cbn; [|done]. case_match; simpl in *; [done|lia].
Qed.

Lemma entry_step_budget ip e t tc o :
  entry_ok tc o -> tc <= event_time e -> t <= event_time e < t + W ->
  (if (entry_step ip e o).1 then 1 else 0) + budget t (entry_step ip e o).2 <= budget t o.
Proof.
  intros Ho Htc Ht. destruct e as [ip' now|now]; cbn [entry_step event_time] in *.
  - case_bool_decide; cbn [fst snd]; [|lia]. apply check_entry_budget; [|done].
    destruct o; simpl in *; lia.
  - destruct o as [x|]; cbn [fst snd]; [|lia].
    destruct (Z.leb_spec W (duration_since now (window_start x))); [|lia].
    unfold budget, duration_since, entry_ok in *. destruct (Z.leb_spec t (window_start x)); lia.
Qed.

Lemma budget_bounds t tc o : entry_ok tc o -> 0 <= budget t o <= 2 * maxr.
Proof. destruct o as [e|]; simpl; [|lia]. intros. destruct (t <=? window_start e); lia. Qed.

Lemma run_in_window ip t tc m es :
  t <= tc -> times_from tc es -> entry_ok tc (m !! ip) -> no_eviction cfg m es ->
  accepted ip t (t + W) (rl_run cfg m es).1 <= budget t (m !! ip).
Proof.
  revert tc m; induction es as [|e es IH]; intros tc m Ht Hs Hok Hne.
  { destruct (budget_bounds t tc (m !! ip) Hok). unfold accepted. simpl. unfold lenZ; simpl; lia. }
  destruct (decide (t + W <= event_time e)) as [Hlate|Hin].
  { rewrite (accepted_late ip t (t + W) (event_time e)); [by apply (budget_bounds t tc)|done|].
    apply times_from_cons in Hs as [_ Hs]. apply times_from_cons. split; [lia|done]. }
  destruct (rl_step_entry ip e es m t (t + W) Hne) as [Hent Hacc]. destruct Hne as [_ Hne].
  apply times_from_cons in Hs as [He Hs]. cbn [rl_run].
  destruct (rl_step cfg m e) as [ds m1] eqn:Estep. cbn [fst snd] in *.
  pose proof (entry_step_budget ip e t tc (m !! ip) Hok He ltac:(lia)) as Hb.
  specialize (IH (event_time e) m1 ltac:(lia) Hs).
  rewrite Hent in IH. specialize (IH (entry_step_ok _ _ _ _ Hok He) Hne).
  destruct (rl_run cfg m1 es) as [ds' m2]. cbn [fst] in *. rewrite accepted_app, Hacc.
  destruct (entry_step ip e (m !! ip)).1; cbn [andb]; [|lia].
  destruct (Z.leb_spec t (event_time e)), (Z.ltb_spec (event_time e) (t + W)); cbn [andb]; lia.
Qed.

Lemma run_any_window ip t tc m es :
  times_from tc es -> entry_ok tc (m !! ip) -> no_eviction cfg m es ->
  accepted ip t (t + W) (rl_run cfg m es).1 <= 2 * maxr.
Proof.
  revert tc m; induction es as [|e es IH]; intros tc m Hs Hok Hne.
  { unfold accepted. simpl. unfold lenZ; simpl; lia. }
  destruct (decide (t <= event_time e)) as [Hin|Hbefore].
  - etrans; [|apply (budget_bounds t (event_time e) (m !! ip))].
    + apply run_in_window with (event_time e); [done| | |done].
      * apply times_from_cons in Hs as [_ Hs]. apply times_from_cons. split; [lia|done].
      * apply times_from_cons in Hs as [He _]. destruct (m !! ip); simpl in *; lia.
    + apply times_from_cons in Hs as [He _]. destruct (m !! ip); simpl in *; lia.
  - destruct (rl_step_entry ip e es m t (t + W) Hne) as [Hent Hacc]. destruct Hne as [_ Hne].
    apply times_from_cons in Hs as [He Hs]. cbn [rl_run].
    destruct (rl_step cfg m e) as [ds m1] eqn:Estep. cbn [fst snd] in *.
    specialize (IH (event_time e) m1 Hs). rewrite Hent in IH.
    specialize (IH (entry_step_ok _ _ _ _ Hok He) Hne).
    destruct (rl_run cfg m1 es) as [ds' m2]. cbn [fst] in *. rewrite accepted_app, Hacc.
    destruct (Z.leb_spec t (event_time e)); [lia|]. by rewrite andb_false_r.
Qed.
End Window.

(** ** Lemmas: backoff arithmetic *)

Lemma backoff_seconds_schedule pr n :
  5 <= n <= 63 ->
  AuthLimiter.backoff_seconds pr n = Val (Z.min (60 * 2 ^ (n - 5)) 600).
Proof.
  intros Hn. unfold AuthLimiter.backoff_seconds, AUTH_FAILURE_THRESHOLD.
  assert (0 < 2 ^ (n - 5) <= 2 ^ 58).
  { split; [apply Z.pow_pos_nonneg; lia|apply Z.pow_le_mono_r; lia]. }
  rewrite arith_in_range by lia. cbn. unfold AUTH_BACKOFF_BASE_SECONDS.
  by rewrite arith_in_range by lia.
Qed.

Lemma backoff_seconds_wraps n : 67 <= n -> AuthLimiter.backoff_seconds Release n = Val 0.
Proof.
  intros Hn. unfold AuthLimiter.backoff_seconds, AUTH_FAILURE_THRESHOLD, AUTH_BACKOFF_BASE_SECONDS.
  rewrite arith_release by lia. cbn [mbind outcome_bind].
  rewrite arith_release by lia. cbn [mbind outcome_bind].
  rewrite Z.mul_mod_idemp_r by lia.
  replace (60 * 2 ^ (n - 5)) with (15 * 2 ^ (n - 67) * 2 ^ 64).
  - by rewrite Z.mod_mul by lia.
  - replace (n - 5) with (n - 67 + (2 + 60)) by lia.
    rewrite (Z.pow_add_r 2 (n - 67)) by lia. lia.
Qed.

Lemma backoff_seconds_panics : AuthLimiter.backoff_seconds Debug 64 = Panic.
Proof. done. Qed.

(** The state after a recorded failure of a known address that is not in
    backoff and has reached the threshold. *)
Lemma record_failure_known {HI : HashIter} pr ip now st e secs :
  poisoned st = false -> entries st !! ip = Some e -> ~ AuthLimiter.in_backoff now e ->
  4 <= failure_count e < u32_max ->
  AuthLimiter.backoff_seconds pr (failure_count e + 1) = Val secs ->
  AuthLimiter.record_failure pr ip now st =
  (Val false, {| entries := <[ip := {| failure_count := failure_count e + 1;
                                       backoff_until := Some (now + from_secs secs);
                                       af_last_access := now |}]> (entries st);
                 poisoned := false |}).
Proof.
  intros Hp He Hb Hc Hs. unfold AuthLimiter.record_failure. rewrite Hp, He.
  rewrite bool_decide_eq_false_2 by done. cbn [andb]. rewrite He. cbn [from_option id].
  unfold AuthLimiter.fail_entry. cbn [failure_count]. destruct (decide _) as [Hd|_]; [done|].
  unfold u32_max in Hc. rewrite arith_in_range by lia. cbn [mbind outcome_bind].
  unfold AUTH_FAILURE_THRESHOLD. destruct (Z.leb_spec 5 (failure_count e + 1)); [|lia].
  rewrite Hs. done.
Qed.

Lemma is_blocked_inserted ip e m t :
  AuthLimiter.is_blocked ip t {| entries := <[ip := e]> m; poisoned := false |} =
  Val (bool_decide (AuthLimiter.in_backoff t e)).
Proof. unfold AuthLimiter.is_blocked. cbn. by rewrite lookup_insert_eq. Qed.

Lemma af_evict_keeps_backoff {HI : HashIter} {HIL : HashIterLaws HI} (m : gmap string AuthFailureEntry) now k e :
  m !! k = Some e -> AuthLimiter.in_backoff now e ->
  AuthLimiter.evict_when_full m now !! k = Some e.
Proof.
  intros Hk Hb. unfold AuthLimiter.evict_when_full. case_match; [done|].
  set (m' := AuthLimiter.cleanup_expired_entries m now).
  assert (Hm' : m' !! k = Some e).
  { apply map_lookup_filter_Some. split; [done|]. by left. }
  case_match; [done|]. unfold remove_oldest. rewrite lookup_foldl_delete.
  case_bool_decide as Hin; [|done]. exfalso.
  apply list_elem_of_fmap in Hin as (kt & -> & Hin). apply elem_of_takeZ in Hin.
  rewrite sort_by_key_perm in Hin.
  destruct (sample_keys (fun kv => ~ AuthLimiter.in_backoff now kv.2) af_last_access m'
              (Z.min (Z.min LRU_EVICTION_COUNT (map_len m') * 4) (map_len m'))) as [_ Hs].
  destruct (Hs kt.1) as (e' & He' & Hnb); [by apply list_elem_of_fmap_2|].
  rewrite Hm' in He'. by simplify_eq.
Qed.

Lemma af_evict_all_backoff {HI : HashIter} {HIL : HashIterLaws HI} (m : gmap string AuthFailureEntry) now :
  map_Forall (fun _ e => AuthLimiter.in_backoff now e) m -> AuthLimiter.evict_when_full m now = m.
Proof.
  intros Hall. unfold AuthLimiter.evict_when_full. case_match; [done|].
  assert (AuthLimiter.cleanup_expired_entries m now = m) as ->.
  { apply map_filter_id. intros k e Hk. left. by apply (Hall k). }
  case_match; [done|].
  assert (filter (fun kv => ~ AuthLimiter.in_backoff now kv.2) (iter _ m) = []) as ->; [|done].
  destruct (filter _ (iter _ m)) as [|[k e] l] eqn:E; [done|]. exfalso.
  assert ((k, e) ∈ filter (fun kv => ~ AuthLimiter.in_backoff now kv.2) (iter _ m)) as Hin
    by (rewrite E; set_solver).
  apply list_elem_of_filter in Hin as [Hn Hin]. rewrite iter_perm in Hin.
  apply elem_of_map_to_list in Hin. by apply Hn, (Hall k).
Qed.

(** ** Properties *)

(** An iteration order: the enumeration of the map. *)
#[export] Instance iter_canonical : HashIter := fun E m => map_to_list m.
#[export] Instance iter_canonical_laws : HashIterLaws iter_canonical.
Proof. by intros E m. Qed.

(** The limiter's promise to one client: in any run of checks and background
    sweeps at non-decreasing times in which the map never overflows, at most
    twice [max_requests] requests of an address are let through in any interval
    as long as the window (once before and once after a window boundary). *)
Theorem rate_limit_window {HI : HashIter} cfg ip t t0 es :
  0 <= max_requests cfg ->
  times_from t0 es -> no_eviction cfg ∅ es ->
  accepted ip t (t + window_duration cfg) (rl_run cfg ∅ es).1 <= 2 * max_requests cfg.
Proof. intros Hm Ht Hne. by apply (run_any_window cfg Hm ip t t0 ∅ es). Qed.

Lemma rate_limit_window_witness :
  accepted "10.0.0.1" 5 15
    (rl_run {| max_requests := 2; window_duration := 10 |} ∅
       [CheckEv "10.0.0.1" 0; CheckEv "10.0.0.2" 1; CheckEv "10.0.0.1" 9; CheckEv "10.0.0.1" 9; SweepEv 10;
        CheckEv "10.0.0.1" 10; CheckEv "10.0.0.1" 11; CheckEv "10.0.0.1" 12]).1 <= 4.
Proof.
  apply (rate_limit_window {| max_requests := 2; window_duration := 10 |} "10.0.0.1" 5 0);
    [vm_compute; congruence|repeat constructor; vm_compute; congruence|].
  repeat split; try (right; vm_compute; reflexivity).
Defined.

Lemma check_rate_limit_insert {HI : HashIter} cfg ip now (m : rl_map) :
  exists e, (RateLimiter.check_rate_limit cfg ip now m).2 =
    <[ip := e]> (if bool_decide (m !! ip = None) && (MAX_ENTRIES <=? map_len m)
                 then RateLimiter.evict_when_full cfg m now else m).
Proof. unfold RateLimiter.check_rate_limit. repeat case_match; eexists; reflexivity. Qed.

Lemma rl_step_size {HI : HashIter} {HIL : HashIterLaws HI} cfg m e :
  map_len m <= MAX_ENTRIES -> map_len (rl_step cfg m e).2 <= MAX_ENTRIES.
Proof.
  intros Hm. destruct e as [ip now|now]; cbn [rl_step]; [|etrans; [apply map_len_filter|done]].
  destruct (check_rate_limit_insert cfg ip now m) as [e He].
  destruct (RateLimiter.check_rate_limit cfg ip now m) as [b m']. cbn [snd] in *. rewrite He.
  case_bool_decide as Hip; cbn [andb].
  - destruct (Z.leb_spec MAX_ENTRIES (map_len m)).
    + pose proof (rl_evict_size cfg m now Hm).
      pose proof (proj1 (map_len_insert (RateLimiter.evict_when_full cfg m now) ip e)). lia.
    + pose proof (proj1 (map_len_insert m ip e)). lia.
  - rewrite (proj2 (map_len_insert m ip e)); [done|]. by apply not_eq_None_Some.
Qed.

(** Memory of the request limiter: however many addresses connect, and
    whatever order the hash map enumerates its entries in, no run of checks and
    sweeps makes the map hold more than [MAX_ENTRIES] entries. *)
Theorem rate_limiter_memory_bounded {HI : HashIter} {HIL : HashIterLaws HI} cfg es :
  map_len (rl_run cfg ∅ es).2 <= MAX_ENTRIES.
Proof.
  assert (Hrun : forall m, map_len m <= MAX_ENTRIES -> map_len (rl_run cfg m es).2 <= MAX_ENTRIES).
  { induction es as [|e es IH]; intros m Hm; [done|]. cbn [rl_run].
    pose proof (rl_step_size cfg m e Hm) as Hs. destruct (rl_step cfg m e) as [ds m1]. specialize (IH m1 Hs).
    by destruct (rl_run cfg m1 es). }
  apply Hrun. vm_compute. congruence.
Qed.

(** The backoff schedule: an address outside backoff whose failure count
    reaches [n], from the threshold 5 up to 63, is refused and blocked for
    [min (60 * 2^(n-5)) 600] seconds from now and not an instant longer, in
    both build profiles. *)
Theorem auth_backoff_schedule {HI : HashIter} pr ip now st e :
  poisoned st = false -> entries st !! ip = Some e -> ~ AuthLimiter.in_backoff now e ->
  4 <= failure_count e <= 62 ->
  exists st', AuthLimiter.record_failure pr ip now st = (Val false, st') /\
    forall t, AuthLimiter.is_blocked ip t st' =
      Val (bool_decide (t < now + from_secs (Z.min (60 * 2 ^ (failure_count e + 1 - 5)) 600))).
Proof.
  intros Hp He Hb Hc. eexists. split.
  - apply record_failure_known; [done..|unfold u32_max; lia|apply backoff_seconds_schedule; lia].
  - intros t. by rewrite is_blocked_inserted.
Qed.

(** The schedule breaks down: with overflow checks off, once an address has
    66 or more recorded failures the multiplication wraps to zero, the next
    failure is refused but imposes no backoff at all, and the address is not
    blocked at that very instant nor later; with overflow checks on, the 64th
    failure panics inside the critical section and poisons the mutex, after
    which every operation of the limiter panics for every address. *)
Theorem auth_backoff_overflow {HI : HashIter} ip now st e :
  poisoned st = false -> entries st !! ip = Some e -> ~ AuthLimiter.in_backoff now e ->
  (66 <= failure_count e < u32_max ->
   exists st', AuthLimiter.record_failure Release ip now st = (Val false, st') /\
     forall t, now <= t -> AuthLimiter.is_blocked ip t st' = Val false) /\
  (failure_count e = 63 ->
   exists st', AuthLimiter.record_failure Debug ip now st = (Panic, st') /\
     forall ip' t, AuthLimiter.record_failure Debug ip' t st' = (Panic, st') /\
                   AuthLimiter.record_success ip' t st' = (Panic, st') /\
                   AuthLimiter.is_blocked ip' t st' = Panic).
Proof.
  intros Hp He Hb. split; intros Hc.
  - eexists. split; [apply record_failure_known; [done..|lia|apply backoff_seconds_wraps; lia]|].
    intros t Ht. rewrite is_blocked_inserted. f_equal. apply bool_decide_eq_false.
    unfold AuthLimiter.in_backoff. cbn. unfold from_secs. lia.
  - unfold AuthLimiter.record_failure at 1. rewrite Hp, He, bool_decide_eq_false_2 by done.
    cbn [andb]. rewrite He. cbn [from_option id]. unfold AuthLimiter.fail_entry. cbn [failure_count].
    destruct (decide _) as [Hd|_]; [done|]. rewrite Hc. cbn. by eexists.
Qed.

(** A client that retries as soon as its backoff is over: [n] failures. *)
Fixpoint retry_run {HI : HashIter} (n : nat) (ip : string) (now : Z) (st : AuthFailureLimiter)
    : AuthFailureLimiter :=
  match n with
  | O => st
  | S n => retry_run n ip (now + from_secs 600) (AuthLimiter.record_failure Release ip now st).2
  end.

Example retry_reaches_66 :
  entries (retry_run 66 "10.0.0.9" 0 limiter_new) !! "10.0.0.9" =
  Some {| failure_count := 66; backoff_until := Some (from_secs 39600);
          af_last_access := from_secs 39000 |}.
Proof. vm_compute. reflexivity. Qed.

Lemma auth_backoff_overflow_witness :
  exists st', AuthLimiter.record_failure Release "10.0.0.9" (from_secs 39600)
    {| entries := {[ "10.0.0.9" := {| failure_count := 66; backoff_until := Some (from_secs 39600);
                                      af_last_access := from_secs 39000 |} ]};
       poisoned := false |} = (Val false, st') /\
    forall t, from_secs 39600 <= t -> AuthLimiter.is_blocked "10.0.0.9" t st' = Val false.
Proof.
  refine (proj1 (auth_backoff_overflow "10.0.0.9" (from_secs 39600) _
           {| failure_count := 66; backoff_until := Some (from_secs 39600);
              af_last_access := from_secs 39000 |} _ _ _) _);
    [reflexivity|apply lookup_singleton_eq| |].
  - unfold AuthLimiter.in_backoff. cbn [backoff_until]. lia.
  - unfold u32_max. cbn [failure_count]. lia.
Defined.

Lemma auth_backoff_schedule_witness :
  exists st', AuthLimiter.record_failure Debug "10.0.0.9" 7
    {| entries := {[ "10.0.0.9" := {| failure_count := 5; backoff_until := Some 6; af_last_access := 0 |} ]};
       poisoned := false |} = (Val false, st') /\
    forall t, AuthLimiter.is_blocked "10.0.0.9" t st' =
      Val (bool_decide (t < 7 + from_secs (Z.min (60 * 2 ^ (5 + 1 - 5)) 600))).
Proof.
  apply (auth_backoff_schedule Debug "10.0.0.9" 7
          {| entries := {[ "10.0.0.9" := {| failure_count := 5; backoff_until := Some 6; af_last_access := 0 |} ]};
             poisoned := false |}
          {| failure_count := 5; backoff_until := Some 6; af_last_access := 0 |});
    [reflexivity..|vm_compute; congruence|vm_compute; split; congruence].
Defined.

(** Penalties survive pressure: making room for a new address, in the
    failure limiter, never removes nor changes the entry of an address that is
    serving a backoff, and neither does the background sweep. *)
Theorem backoff_survives_eviction {HI : HashIter} {HIL : HashIterLaws HI} st ip e now :
  poisoned st = false -> entries st !! ip = Some e -> AuthLimiter.in_backoff now e ->
  entries (AuthLimiter.cleanup_task now st) !! ip = Some e /\
  forall pr ip', ip' <> ip -> entries (AuthLimiter.record_failure pr ip' now st).2 !! ip = Some e.
Proof.
  intros Hp He Hb. split.
  - unfold AuthLimiter.cleanup_task. rewrite Hp. apply map_lookup_filter_Some. split; [done|by left].
  - intros pr ip' Hne. unfold AuthLimiter.record_failure. rewrite Hp.
    assert (forall m, m !! ip = Some e -> (if bool_decide (entries st !! ip' = None) && (MAX_ENTRIES <=? map_len m)
                         then AuthLimiter.evict_when_full m now else m) !! ip = Some e) as Hev.
    { intros m Hm. case_match; [by apply af_evict_keeps_backoff|done]. }
    specialize (Hev _ He). repeat case_match; cbn; rewrite lookup_insert_ne by done; done.
Qed.

(** The capacity of the failure limiter is not enforced: when every entry is
    serving a backoff nothing can be evicted, and a failure of one more address
    makes the map larger however large it already is. *)
Theorem auth_capacity_not_enforced {HI : HashIter} {HIL : HashIterLaws HI} pr ip now st :
  poisoned st = false -> entries st !! ip = None ->
  map_Forall (fun _ e => AuthLimiter.in_backoff now e) (entries st) ->
  MAX_ENTRIES <= map_len (entries st) ->
  map_len (entries (AuthLimiter.record_failure pr ip now st).2) = map_len (entries st) + 1.
Proof.
  intros Hp Hip Hall Hlen. unfold AuthLimiter.record_failure. rewrite Hp.
  rewrite bool_decide_eq_true_2 by done. cbn [andb].
  destruct (Z.leb_spec MAX_ENTRIES (map_len (entries st))); [|lia].
  rewrite af_evict_all_backoff by done. rewrite Hip. cbn [from_option id].
  repeat case_match; cbn; unfold map_len; rewrite map_size_insert_None by done; lia.
Qed.

Definition penalised : AuthFailureEntry :=
  {| failure_count := 5; backoff_until := Some 60; af_last_access := 0 |}.

Lemma backoff_survives_eviction_witness :
  let st := {| entries := {[ "10.0.0.9" := penalised ]}; poisoned := false |} in
  entries (AuthLimiter.cleanup_task 7 st) !! "10.0.0.9" = Some penalised /\
  forall pr ip', ip' <> "10.0.0.9" ->
    entries (AuthLimiter.record_failure pr ip' 7 st).2 !! "10.0.0.9" = Some penalised.
Proof.
  intros st. refine (backoff_survives_eviction st "10.0.0.9" penalised 7 _ _ _);
    [reflexivity|apply lookup_singleton_eq|].
  unfold AuthLimiter.in_backoff, penalised. cbn [backoff_until]. lia.
Defined.

(** A full limiter: a hundred thousand addresses, all in backoff. *)
Definition client_name (n : Z) : string := String "c" (pretty n).

#[local] Instance client_name_inj : Inj (=) (=) client_name.
Proof. intros m n H. unfold client_name in H. injection H as H. by apply (inj pretty) in H. Qed.

Definition full_limiter (n : Z) : AuthFailureLimiter :=
  {| entries := gset_to_gmap penalised (list_to_set (client_name <$> seqZ 0 n)); poisoned := false |}.

Lemma full_limiter_size n : 0 <= n -> map_len (entries (full_limiter n)) = n.
Proof.
  intros Hn. unfold map_len, full_limiter. cbn [entries].
  rewrite <- (size_dom (D := gset string)), dom_gset_to_gmap.
  rewrite size_list_to_set by (apply (NoDup_fmap_2 client_name), NoDup_seqZ).
  rewrite length_fmap, length_seqZ. lia.
Qed.

Lemma full_limiter_new_address n : entries (full_limiter n) !! "x" = None.
Proof.
  apply lookup_gset_to_gmap_None. rewrite elem_of_list_to_set, list_elem_of_fmap.
  by intros (m & Hn & _).
Qed.

Lemma full_limiter_in_backoff n :
  map_Forall (fun _ e => AuthLimiter.in_backoff 7 e) (entries (full_limiter n)).
Proof.
  intros k e H. apply lookup_gset_to_gmap_Some in H as [_ <-].
  unfold AuthLimiter.in_backoff, penalised. cbn [backoff_until]. lia.
Qed.

Lemma auth_capacity_not_enforced_witness :
  map_len (entries (AuthLimiter.record_failure Release "x" 7 (full_limiter MAX_ENTRIES)).2) =
  map_len (entries (full_limiter MAX_ENTRIES)) + 1.
Proof.
  refine (auth_capacity_not_enforced Release "x" 7 (full_limiter MAX_ENTRIES) _ _ _ _);
    [reflexivity|apply full_limiter_new_address|apply full_limiter_in_backoff|].
  rewrite full_limiter_size by (unfold MAX_ENTRIES; lia). reflexivity.
Defined.

Lemma rate_limiter_memory_bounded_witness :
  map_len (rl_run {| max_requests := 2; window_duration := 10 |} ∅
             [CheckEv "10.0.0.1" 0; CheckEv "10.0.0.2" 1; SweepEv 30]).2 <= MAX_ENTRIES.
Proof. apply (rate_limiter_memory_bounded {| max_requests := 2; window_duration := 10 |}). Defined.

(** A successful authentication forgives one failure and never adds any: it
    lifts the backoff of its address, lowers its count by one, forgets the
    address when no failure is left, and touches no other address. *)
Theorem record_success_spec ip now st :
  poisoned st = false ->
  exists st', AuthLimiter.record_success ip now st = (Val tt, st') /\
    poisoned st' = false /\
    (forall t, AuthLimiter.is_blocked ip t st' = Val false) /\
    (forall ip', ip' <> ip -> entries st' !! ip' = entries st !! ip') /\
    match entries st !! ip with
    | Some e => if decide (failure_count e <= 1) then entries st' !! ip = None
                else exists e', entries st' !! ip = Some e' /\ failure_count e' = failure_count e - 1
    | None => st' = st
    end.
Proof.
  intros Hp. unfold AuthLimiter.record_success. rewrite Hp. destruct (entries st !! ip) as [e|] eqn:He.
  2:{ exists st. unfold AuthLimiter.is_blocked. rewrite Hp, He. by repeat split. }
  eexists. split; [done|]. unfold AuthLimiter.is_blocked, saturating_sub. cbn [poisoned entries].
  split; [done|]. destruct (Z.eqb_spec (Z.max (failure_count e - 1) 0) 0) as [E|E].
  - rewrite delete_insert_eq, lookup_delete_eq. repeat split; intros; try done.
    + by rewrite lookup_delete_ne by done.
    + case_decide; [done|lia].
  - rewrite lookup_insert_eq. repeat split; intros; try done.
    + by rewrite lookup_insert_ne by done.
    + case_decide; [lia|]. eexists; split; [done|]. cbn [failure_count]. lia.
Qed.

Lemma record_success_spec_witness :
  exists st', AuthLimiter.record_success "10.0.0.9" 99
      {| entries := {[ "10.0.0.9" := penalised ]}; poisoned := false |} = (Val tt, st') /\
    (exists e', entries st' !! "10.0.0.9" = Some e' /\ failure_count e' = 4).
Proof.
  destruct (record_success_spec "10.0.0.9" 99 {| entries := {[ "10.0.0.9" := penalised ]}; poisoned := false |}
              eq_refl) as (st' & Hr & _ & _ & _ & H).
  exists st'. split; [exact Hr|]. cbn [entries] in H. rewrite lookup_singleton_eq in H. exact H.
Defined.

(** Whose requests are counted: with proxies untrusted the header cannot
    choose the key, it is always the socket peer; with a trusted proxy the key
    is the last non-empty element of the header, so whatever a client prepends
    to the header its proxy completes changes nothing. *)
Theorem client_ip_not_spoofable addr xff prefix ip :
  client_ip addr xff false = addr /\
  (trim ip <> "" -> contains_char ","%char ip = false ->
   client_ip addr (Some (prefix +:+ String "," ip)) true = trim ip).
Proof.
  split; [done|]. intros Hne Hnc. unfold client_ip, split_char.
  rewrite chars_app. destruct (split_on_last (fun d => bool_decide (","%char = d)) [] (chars prefix) ","%char (chars ip))
    as [pre Hs]; [done| |].
  { intros c Hc. apply bool_decide_eq_false. intros <-. unfold contains_char in Hnc.
    by apply bool_decide_eq_false in Hnc. }
  change (chars (String "," ip)) with (","%char :: chars ip). rewrite Hs, fmap_app, reverse_app, of_chars_chars.
  cbn. by rewrite decide_True by done.
Qed.

Lemma client_ip_not_spoofable_witness :
  client_ip "192.0.2.1" (Some ("1.2.3.4, 5.6.7.8" +:+ String "," " 198.51.100.7")) true = "198.51.100.7".
Proof.
  refine (proj2 (client_ip_not_spoofable "192.0.2.1" None "1.2.3.4, 5.6.7.8" " 198.51.100.7") _ _);
    vm_compute; congruence.
Defined.
