(* ===== verification/Fs.v ===== *)
(** * Fs: the file system the server and the client run on

    A state monad over a tree of files, keyed by resolved path, with a fault
    schedule: every system call either succeeds or, when the schedule says so,
    fails, and a failing write or directory creation may stop half way.  A
    crash is the schedule in which every call from some point on fails without
    effect.  [std::fs], [tokio::fs] and [std::path] operations used by the
    sources are defined here (no symbolic links, Unix separators). *)

From S2P Require Import Prelude Text Version Validation.

#[local] Open Scope Z_scope.

(** ** The state *)

Inductive node :=
| Dir
| File (content : bytes).

#[global] Instance node_eq_dec : EqDecision node.
Proof. solve_decision. Defined.

Abbreviation fs := (gmap (list string) node).

Inductive io_error :=
| IoNotFound
| IoNotADirectory
| IoIsADirectory
| IoInvalidData
| IoFault                    (** a failure of the device, disk full, permissions *)
| IoOther (msg : string).    (** [io::Error::other], a panicked blocking task *)

(** [faults n = Some k]: the [n]-th system call fails, having done [k] units of
    its work. *)
Record world := { files : fs; faults : nat -> option nat; tick : nat }.

Definition io (A : Type) : Type := world -> A * world.

#[global] Instance io_ret : MRet io := fun A a w => (a, w).
#[global] Instance io_bind : MBind io := fun A B f m w => let '(a, w') := m w in f a w'.

(** The [?] operator: continue with the value or return the error. *)
Definition ebind {E A B} (m : io (result E A)) (f : A -> io (result E B)) : io (result E B) :=
  fun w => match m w with
           | (Ok a, w') => f a w'
           | (Err e, w') => (Err e, w')
           end.

Definition eret {E A} (a : A) : io (result E A) := fun w => (Ok a, w).
Definition efail {E A} (e : E) : io (result E A) := fun w => (Err e, w).
Definition elift {E A} (r : result E A) : io (result E A) := fun w => (r, w).
Definition io_map {A B} (f : A -> B) (m : io A) : io B := fun w => let '(a, w') := m w in (f a, w').

Create HintDb respects.

Declare Scope io_scope.
Delimit Scope io_scope with io.
Notation "x ←? m ; k" := (ebind m (fun x => k))
  (at level 20, m at level 100, k at level 200, right associativity) : io_scope.
Notation "m ;;? k" := (ebind m (fun _ => k))
  (at level 100, k at level 200, right associativity) : io_scope.

(** ** System calls *)

Definition node_at (f : fs) (p : list string) : option node :=
  if bool_decide (p = []) then Some Dir else f !! p.

Definition parent (p : list string) : list string := removelast p.

(** One call: its normal effect, and its effect when the schedule fails it. *)
Definition syscall {A} (run : fs -> A * fs) (fault : nat -> fs -> A * fs) : io A := fun w =>
  let '(a, f) := match faults w (tick w) with
                 | None => run (files w)
                 | Some k => fault k (files w)
                 end in
  (a, {| files := f; faults := faults w; tick := S (tick w) |}).

(** [Path::exists]: an error of the call reads as absence. *)
Definition exists_ (p : string) : io bool :=
  syscall (fun f => (bool_decide (is_Some (node_at f (resolve p))), f)) (fun _ f => (false, f)).

(** [Path::is_dir]. *)
Definition is_dir (p : string) : io bool :=
  syscall (fun f => (match node_at f (resolve p) with Some Dir => true | _ => false end, f))
          (fun _ f => (false, f)).

Definition fs_read (f : fs) (p : list string) : result io_error bytes :=
  match node_at f p with
  | Some (File c) => Ok c
  | Some Dir => Err IoIsADirectory
  | None => Err IoNotFound
  end.

(** [fs::read] and [fs::read_to_string]. *)
Definition read (p : string) : io (result io_error bytes) :=
  syscall (fun f => (fs_read f (resolve p), f)) (fun _ f => (Err IoFault, f)).

Definition decode_utf8 (b : bytes) : result io_error string := ok_or IoInvalidData (from_utf8 b).

Definition read_to_string (p : string) : io (result io_error string) :=
  io_map (fun r => r ≫= decode_utf8) (read p).

Definition fs_put (f : fs) (p : list string) (c : bytes) : result io_error fs :=
  match node_at f p with
  | Some Dir => Err IoIsADirectory
  | _ => match node_at f (parent p) with
         | Some Dir => Ok (<[p := File c]> f)
         | Some (File _) => Err IoNotADirectory
         | None => Err IoNotFound
         end
  end.

(** The effect of a fallible update: the new tree, or no change. *)
Definition commit {A} (a : A) (f : fs) (r : result io_error fs) : result io_error A * fs :=
  match r with Ok f' => (Ok a, f') | Err e => (Err e, f) end.

(** [fs::write]: create or truncate, then write.  It may fail before the file
    is touched, or after some bytes. *)
Definition write (p : string) (data : bytes) : io (result io_error unit) :=
  syscall (fun f => commit tt f (fs_put f (resolve p) data))
          (fun k f => (Err IoFault,
             match k with
             | O => f
             | S k => (commit tt f (fs_put f (resolve p) (take k data))).2
             end)).

(** Appending to an open file. *)
Definition fs_append (f : fs) (p : list string) (d : bytes) : result io_error fs :=
  match node_at f p with
  | Some (File c) => Ok (<[p := File (c ++ d)]> f)
  | Some Dir => Err IoIsADirectory
  | None => Err IoNotFound
  end.

Definition append (p : string) (d : bytes) : io (result io_error unit) :=
  syscall (fun f => commit tt f (fs_append f (resolve p) d))
          (fun k f => (Err IoFault, (commit tt f (fs_append f (resolve p) (take k d))).2)).

(** Flushing an open file: no effect on the tree, but it may fail. *)
Definition flush : io (result io_error unit) :=
  syscall (fun f => (Ok tt, f)) (fun _ f => (Err IoFault, f)).

(** [OpenOptions] with [create(true)] and [truncate(false)]: an absent file is
    created empty. *)
Definition open_create (p : string) : io (result io_error unit) :=
  syscall (fun f => match node_at f (resolve p) with
                    | Some (File _) => (Ok tt, f)
                    | _ => commit tt f (fs_put f (resolve p) [])
                    end)
          (fun _ f => (Err IoFault, f)).

(** [OpenOptions] without [create]. *)
Definition open_existing (p : string) : io (result io_error unit) :=
  syscall (fun f => (_ ← fs_read f (resolve p); Ok tt, f)) (fun _ f => (Err IoFault, f)).

(** [lock_exclusive], [lock_shared]: no effect on the tree. *)
Definition lock_file : io (result io_error unit) :=
  syscall (fun f => (Ok tt, f)) (fun _ f => (Err IoFault, f)).

(** [fs::rename] of a file (the sources rename nothing else). *)
Definition fs_rename (f : fs) (a b : list string) : result io_error fs :=
  match node_at f a with
  | Some (File c) => fs_put (delete a f) b c
  | Some Dir => Err IoIsADirectory
  | None => Err IoNotFound
  end.

Definition rename (a b : string) : io (result io_error unit) :=
  syscall (fun f => commit tt f (fs_rename f (resolve a) (resolve b))) (fun _ f => (Err IoFault, f)).

(** [fs::remove_file]. *)
Definition fs_remove (f : fs) (p : list string) : result io_error fs :=
  match node_at f p with
  | Some (File _) => Ok (delete p f)
  | Some Dir => Err IoIsADirectory
  | None => Err IoNotFound
  end.

Definition remove_file (p : string) : io (result io_error unit) :=
  syscall (fun f => commit tt f (fs_remove f (resolve p))) (fun _ f => (Err IoFault, f)).

(** [fs::create_dir_all]: every missing directory on the way, outermost first. *)
Fixpoint mkdirs (f : fs) (done todo : list string) : result io_error unit * fs :=
  match todo with
  | [] => (Ok tt, f)
  | c :: todo =>
      let d := done ++ [c] in
      match node_at f d with
      | Some Dir => mkdirs f d todo
      | Some (File _) => (Err IoNotADirectory, f)
      | None => mkdirs (<[d := Dir]> f) d todo
      end
  end.

Definition create_dir_all (p : string) : io (result io_error unit) :=
  syscall (fun f => mkdirs f [] (resolve p))
          (fun k f => (Err IoFault, (mkdirs f [] (take k (resolve p))).2)).

(** [fs::copy]: like a read followed by a write. *)
Definition copy (a b : string) : io (result io_error unit) :=
  syscall (fun f => match fs_read f (resolve a) with
                    | Ok c => commit tt f (fs_put f (resolve b) c)
                    | Err e => (Err e, f)
                    end)
          (fun k f => (Err IoFault,
             match k, fs_read f (resolve a) with
             | S k, Ok c => (commit tt f (fs_put f (resolve b) (take k c))).2
             | _, _ => f
             end)).

(** [fs::metadata(p)?.len()] of a file. *)
Definition file_len (p : string) : io (result io_error Z) :=
  io_map (fun r => lenZ <$> r) (read p).

(** [Path::with_extension]. *)
Definition file_name (p : string) : string := default "" (last (split_char "/"%char p)).

Definition file_stem (name : string) : string :=
  match split_once "."%char (of_chars (reverse (chars name))) with
  | Some (_, r) => if str_is_empty r then name else of_chars (reverse (chars r))
  | None => name
  end.

Definition with_extension (p ext : string) : string :=
  let name := file_name p in
  of_chars (take (length (chars p) - length (chars name)) (chars p)) +:+ file_stem name +:+ "." +:+ ext.

(** ** Stepping *)

Definition advance (w : world) (f : fs) : world :=
  {| files := f; faults := faults w; tick := S (tick w) |}.

(** No call fails; no call succeeds any more (the process is gone). *)
Definition quiet (w : world) : Prop := forall n, faults w n = None.
Definition crashed (w : world) : Prop := forall n, (tick w <= n)%nat -> is_Some (faults w n).

(** A schedule that models a crash: once a call fails all later ones do. *)
Definition crash_schedule (w : world) : Prop :=
  forall m n, (m <= n)%nat -> is_Some (faults w m) -> is_Some (faults w n).

Lemma syscall_quiet {A} (run : fs -> A * fs) fault w :
  quiet w -> syscall run fault w = ((run (files w)).1, advance w (run (files w)).2).
Proof. intros Hq. unfold syscall. rewrite Hq. by destruct (run (files w)). Qed.

Lemma syscall_cases {A} (run : fs -> A * fs) fault w :
  (faults w (tick w) = None /\ syscall run fault w = ((run (files w)).1, advance w (run (files w)).2)) \/
  (exists k, faults w (tick w) = Some k /\
             syscall run fault w = ((fault k (files w)).1, advance w (fault k (files w)).2)).
Proof.
  unfold syscall. destruct (faults w (tick w)) as [k|] eqn:E; [right; exists k|left]; split; try done.
  - by destruct (fault k (files w)).
  - by destruct (run (files w)).
Qed.

Lemma quiet_advance w f : quiet w -> quiet (advance w f).
Proof. intros Hq n. apply Hq. Qed.

Lemma crash_schedule_advance w f : crash_schedule w -> crash_schedule (advance w f).
Proof. intros Hc m n. apply (Hc m n). Qed.

Lemma crashed_advance w f : crashed w -> crashed (advance w f).
Proof. intros Hc n Hn. apply Hc. cbn in Hn. lia. Qed.

Lemma fault_crashes w f k : crash_schedule w -> faults w (tick w) = Some k -> crashed (advance w f).
Proof. intros Hc Hk n Hn. cbn in *. apply (Hc (tick w)); [lia|by eexists]. Qed.

#[global] Hint Resolve quiet_advance crash_schedule_advance crashed_advance : deltaship.

(** ** Frames *)

Section Frame.
(** [R p o o']: the program may turn what is at [p] from [o] into [o']. *)
Context (R : list string -> option node -> option node -> Prop) {HR : forall p, PreOrder (R p)}.

(** The program moves on in the fault schedule and changes the tree only as
    [R] allows, whether or not its calls fail. *)
Definition respects {A} (m : io A) : Prop :=
  forall w, faults (m w).2 = faults w /\ (tick w <= tick (m w).2)%nat /\
    forall p, R p (files w !! p) (files (m w).2 !! p).

Lemma respects_ret {A} (a : A) : respects (mret a).
Proof. intros w. done. Qed.

Lemma respects_trans {A} (w : world) w' (r : A * world) :
  faults w' = faults w /\ (tick w <= tick w')%nat /\ (forall p, R p (files w !! p) (files w' !! p)) ->
  faults r.2 = faults w' /\ (tick w' <= tick r.2)%nat /\ (forall p, R p (files w' !! p) (files r.2 !! p)) ->
  faults r.2 = faults w /\ (tick w <= tick r.2)%nat /\ (forall p, R p (files w !! p) (files r.2 !! p)).
Proof.
  intros (-> & Ht1 & H1) (-> & Ht2 & H2). split; [done|]. split; [lia|].
  intros p. etrans; [apply H1|apply H2].
Qed.

Lemma respects_bind {A B} (m : io A) (f : A -> io B) :
  respects m -> (forall a, respects (f a)) -> respects (m ≫= f).
Proof.
  intros Hm Hf w. specialize (Hm w). unfold mbind, io_bind. destruct (m w) as [a w'].
  exact (respects_trans w w' _ Hm (Hf a w')).
Qed.

Lemma respects_ebind {E A B} (m : io (result E A)) (f : A -> io (result E B)) :
  respects m -> (forall a, respects (f a)) -> respects (ebind m f).
Proof.
  intros Hm Hf w. specialize (Hm w). unfold ebind. destruct (m w) as [[a|e] w'].
  - exact (respects_trans w w' _ Hm (Hf a w')).
  - exact Hm.
Qed.

Lemma respects_elift {E A} (r : result E A) : respects (elift r).
Proof. intros w. done. Qed.
Lemma respects_eret {E A} (a : A) : respects (eret (E := E) a).
Proof. intros w. done. Qed.
Lemma respects_efail {E A} (e : E) : respects (efail (A := A) e).
Proof. intros w. done. Qed.

Lemma respects_io_map {A B} (f : A -> B) (m : io A) : respects m -> respects (io_map f m).
Proof. intros Hm w. specialize (Hm w). unfold io_map. by destruct (m w). Qed.

Lemma respects_syscall {A} (run : fs -> A * fs) fault :
  (forall f p, R p (f !! p) ((run f).2 !! p)) -> (forall k f p, R p (f !! p) ((fault k f).2 !! p)) ->
  respects (syscall run fault).
Proof.
  intros Hr Hf w. destruct (syscall_cases run fault w) as [[_ ->]|(k & _ & ->)]; cbn; auto.
Qed.

(** A position where anything may happen. *)
Definition free (p : list string) : Prop := forall o o', R p o o'.

Lemma commit_put {A} (a : A) f q c p :
  free q -> R p (f !! p) ((commit a f (fs_put f q c)).2 !! p).
Proof.
  intros Hq. unfold fs_put. destruct (decide (p = q)) as [->|Hne]; [apply Hq|].
  repeat case_match; cbn; rewrite ?lookup_insert_ne by done; reflexivity.
Qed.

Lemma respects_exists p : respects (exists_ p).
Proof. apply respects_syscall; reflexivity. Qed.
Lemma respects_is_dir p : respects (is_dir p).
Proof. apply respects_syscall; reflexivity. Qed.
Lemma respects_read p : respects (read p).
Proof. apply respects_syscall; reflexivity. Qed.
Lemma respects_read_to_string p : respects (read_to_string p).
Proof. apply respects_io_map, respects_read. Qed.
Lemma respects_file_len p : respects (file_len p).
Proof. apply respects_io_map, respects_read. Qed.
Lemma respects_lock : respects lock_file.
Proof. apply respects_syscall; reflexivity. Qed.
Lemma respects_open_existing p : respects (open_existing p).
Proof. apply respects_syscall; reflexivity. Qed.

Lemma respects_write p d : free (resolve p) -> respects (write p d).
Proof.
  intros Hp. apply respects_syscall; [intros; by apply commit_put|].
  intros [|k] f q; [reflexivity|]. cbn. by apply commit_put.
Qed.

Lemma commit_append {A} (a : A) f q d p :
  free q -> R p (f !! p) ((commit a f (fs_append f q d)).2 !! p).
Proof.
  intros Hq. unfold fs_append. destruct (decide (p = q)) as [->|Hne]; [apply Hq|].
  repeat case_match; cbn; rewrite ?lookup_insert_ne by done; reflexivity.
Qed.

Lemma respects_append p d : free (resolve p) -> respects (append p d).
Proof. intros Hp. apply respects_syscall; intros; by apply commit_append. Qed.

Lemma respects_flush : respects flush.
Proof. apply respects_syscall; reflexivity. Qed.

Lemma respects_open_create p : R (resolve p) None (Some (File [])) -> respects (open_create p).
Proof.
  intros Hp. apply respects_syscall; [|reflexivity].
  intros f q. unfold fs_put. destruct (node_at f (resolve p)) as [[|c]|] eqn:E; [reflexivity..|].
  unfold node_at in E at 1. case_bool_decide; [done|].
  repeat case_match; try reflexivity. cbn. destruct (decide (q = resolve p)) as [->|Hne].
  - by rewrite lookup_insert_eq, E.
  - by rewrite lookup_insert_ne by done.
Qed.

Lemma respects_remove_file p : free (resolve p) -> respects (remove_file p).
Proof.
  intros Hp. apply respects_syscall; [|reflexivity].
  intros f q. destruct (decide (q = resolve p)) as [->|Hne]; [apply Hp|].
  unfold fs_remove. repeat case_match; cbn; rewrite ?lookup_delete_ne by done; reflexivity.
Qed.

Lemma respects_rename a b : free (resolve a) -> free (resolve b) -> respects (rename a b).
Proof.
  intros Ha Hb. apply respects_syscall; [|reflexivity].
  intros f q. destruct (decide (q = resolve a)) as [->|Hna]; [apply Ha|].
  destruct (decide (q = resolve b)) as [->|Hnb]; [apply Hb|].
  unfold fs_rename, fs_put. repeat case_match; cbn; rewrite ?lookup_insert_ne, ?lookup_delete_ne by done; reflexivity.
Qed.

Lemma respects_copy a b : free (resolve b) -> respects (copy a b).
Proof.
  intros Hb. apply respects_syscall.
  - intros f q. case_match; [by apply commit_put|reflexivity].
  - intros k f q. cbn. repeat case_match; try reflexivity. by apply commit_put.
Qed.

(** Directories created on the way to [p]. *)
Definition may_create (p : list string) : Prop :=
  forall d, d <> [] -> d `prefix_of` p -> R d None (Some Dir).

Lemma mkdirs_respects f done todo p :
  may_create (done ++ todo) -> R p (f !! p) ((mkdirs f done todo).2 !! p).
Proof.
  revert f done; induction todo as [|c todo IH]; intros f done Hc; [reflexivity|]. cbn [mkdirs].
  assert (Hc' : may_create ((done ++ [c]) ++ todo)) by (by rewrite <- app_assoc).
  case_match eqn:En; [case_match; [by apply IH|reflexivity]|].
  etrans; [|by apply IH]. destruct (decide (p = done ++ [c])) as [->|Hne].
  - rewrite lookup_insert_eq. unfold node_at in En. case_bool_decide as Hnil; [by destruct done|].
    rewrite En. apply Hc; [by destruct done|]. exists todo. by rewrite <- app_assoc.
  - rewrite lookup_insert_ne by done. reflexivity.
Qed.

Lemma respects_create_dir_all p : may_create (resolve p) -> respects (create_dir_all p).
Proof.
  intros Hc. apply respects_syscall; [intros; by apply mkdirs_respects|].
  intros k f q. cbn. apply mkdirs_respects. intros d Hd Hp. apply Hc; [done|].
  etrans; [exact Hp|]. exists (drop k (resolve p)). cbn [app]. by rewrite take_drop.
Qed.
End Frame.

#[global] Hint Resolve respects_ret respects_bind respects_ebind respects_elift respects_eret
  respects_efail respects_io_map respects_exists respects_is_dir respects_read respects_read_to_string
  respects_file_len respects_lock respects_open_existing respects_write respects_open_create
  respects_append respects_flush respects_remove_file respects_rename respects_copy respects_create_dir_all : respects.

(** ** Calls that succeed *)

(** Nothing but directories on the way to [p]. *)
Definition clear_way (f : fs) (p : list string) : Prop :=
  forall d c, d `prefix_of` p -> node_at f d <> Some (File c).

Lemma node_at_insert f q n d :
  q <> [] -> node_at (<[q := n]> f) d = if bool_decide (d = q) then Some n else node_at f d.
Proof.
  intros Hq. unfold node_at. repeat case_bool_decide; subst; try done.
  - by rewrite lookup_insert_eq.
  - by rewrite lookup_insert_ne by done.
Qed.

Lemma mkdirs_ok f done todo :
  node_at f done = Some Dir -> clear_way f (done ++ todo) ->
  exists f', mkdirs f done todo = (Ok tt, f') /\
    (forall d, d `prefix_of` todo -> node_at f' (done ++ d) = Some Dir) /\
    (forall q n, node_at f q = Some n -> node_at f' q = Some n) /\
    (forall q, node_at f' q = node_at f q \/ (q `prefix_of` done ++ todo /\ node_at f' q = Some Dir)).
Proof.
  revert f done; induction todo as [|c todo IH]; intros f done Hd Hc.
  { exists f. cbn. split; [done|]. split; [|split; [done|by left]].
    intros d ->%prefix_nil_inv. by rewrite app_nil_r. }
  assert (Hpre : done ++ [c] `prefix_of` done ++ c :: todo) by (exists todo; by rewrite <- app_assoc).
  assert (Hne : done ++ [c] <> []) by (by destruct done).
  assert (Hgo : forall f1, node_at f1 (done ++ [c]) = Some Dir ->
    (forall q n, node_at f q = Some n -> node_at f1 q = Some n) ->
    (forall q, node_at f1 q = node_at f q \/ q = done ++ [c]) ->
    exists f', mkdirs f1 (done ++ [c]) todo = (Ok tt, f') /\
      (forall d, d `prefix_of` c :: todo -> node_at f' (done ++ d) = Some Dir) /\
      (forall q n, node_at f q = Some n -> node_at f' q = Some n) /\
      (forall q, node_at f' q = node_at f q \/ (q `prefix_of` done ++ c :: todo /\ node_at f' q = Some Dir))).
  { intros f1 H1 Hk Hother. destruct (IH f1 (done ++ [c]) H1) as (f' & Hm & Hall & Hkeep & Hoth).
    { intros d x Hdp Hx. destruct (Hother d) as [E| ->]; [|congruence].
      apply (Hc d x); [by rewrite <- app_assoc in Hdp|congruence]. }
    exists f'. split; [done|]. split; [|split; [auto|]].
    - intros d Hdp. destruct d as [|c' d]; [rewrite app_nil_r; auto|].
      apply prefix_cons_inv_1 in Hdp as Hcc. apply prefix_cons_inv_2 in Hdp. subst c'.
      specialize (Hall d Hdp). by rewrite <- app_assoc in Hall.
    - intros q. destruct (Hoth q) as [E|[Hq E]].
      + destruct (Hother q) as [E'| ->]; [left; congruence|]. right. split; [done|]. by apply Hkeep.
      + right. by rewrite <- app_assoc in Hq. }
  cbn [mkdirs]. destruct (node_at f (done ++ [c])) as [[|x]|] eqn:E.
  - apply Hgo; auto.
  - by destruct (Hc _ x Hpre).
  - apply Hgo.
    + rewrite node_at_insert by done. by rewrite bool_decide_eq_true_2.
    + intros q n Hq. rewrite node_at_insert by done. case_bool_decide; [congruence|done].
    + intros q. rewrite node_at_insert by done. case_bool_decide; auto.
Qed.

Lemma create_dir_all_quiet p w :
  quiet w -> clear_way (files w) (resolve p) ->
  exists w', create_dir_all p w = (Ok tt, w') /\ quiet w' /\
    (forall d, d `prefix_of` resolve p -> node_at (files w') d = Some Dir) /\
    (forall q n, node_at (files w) q = Some n -> node_at (files w') q = Some n) /\
    (forall q, node_at (files w') q = node_at (files w) q \/
               (q `prefix_of` resolve p /\ node_at (files w') q = Some Dir)).
Proof.
  intros Hq Hc. destruct (mkdirs_ok (files w) [] (resolve p)) as (f' & Hm & H1 & H2 & H3); [done|done|].
  unfold create_dir_all. rewrite syscall_quiet by done. rewrite Hm. eexists. split; [done|].
  split; [by apply quiet_advance|]. auto.
Qed.

Lemma open_create_quiet p w :
  quiet w -> resolve p <> [] -> node_at (files w) (parent (resolve p)) = Some Dir ->
  node_at (files w) (resolve p) <> Some Dir ->
  exists w', open_create p w = (Ok tt, w') /\ quiet w' /\
    (exists c, node_at (files w') (resolve p) = Some (File c) /\
               (node_at (files w) (resolve p) = Some (File c) \/
                node_at (files w) (resolve p) = None /\ c = [])) /\
    (forall q, q <> resolve p -> node_at (files w') q = node_at (files w) q).
Proof.
  intros Hq Hnil Hp Hd. unfold open_create. rewrite syscall_quiet by done.
  destruct (node_at (files w) (resolve p)) as [[|c]|] eqn:E; [done| |].
  - eexists. split; [done|]. split; [by apply quiet_advance|]. cbn. split; [|done]. exists c. auto.
  - unfold fs_put. rewrite E, Hp. eexists. split; [done|]. split; [by apply quiet_advance|]. cbn. split.
    + exists []. rewrite node_at_insert by done. rewrite bool_decide_eq_true_2 by done. auto.
    + intros q Hqp. rewrite node_at_insert by done. by rewrite bool_decide_eq_false_2.
Qed.

Lemma lock_file_quiet w : quiet w -> lock_file w = (Ok tt, advance w (files w)).
Proof. intros Hq. unfold lock_file. by rewrite syscall_quiet. Qed.

Lemma exists_quiet p w :
  quiet w -> exists_ p w = (bool_decide (is_Some (node_at (files w) (resolve p))), advance w (files w)).
Proof. intros Hq. unfold exists_. by rewrite syscall_quiet. Qed.

Lemma open_existing_quiet p w c :
  quiet w -> node_at (files w) (resolve p) = Some (File c) ->
  open_existing p w = (Ok tt, advance w (files w)).
Proof. intros Hq Hp. unfold open_existing. rewrite syscall_quiet by done. unfold fs_read. by rewrite Hp. Qed.

Lemma read_to_string_quiet p w s :
  quiet w -> node_at (files w) (resolve p) = Some (File (as_bytes s)) -> is_utf8 s ->
  read_to_string p w = (Ok s, advance w (files w)).
Proof.
  intros Hq Hp Hs. unfold read_to_string, io_map, read. rewrite syscall_quiet by done. unfold fs_read.
  rewrite Hp. cbn. unfold decode_utf8. by rewrite from_utf8_as_bytes.
Qed.

(** ** Replacing a file through a temporary one *)

(** The write to [<name>.tmp] and the rename over the target that every
    "atomic" update of the sources ends with. *)
Definition replace_file (path : string) (content : string) : io (result io_error unit) :=
  (let temp_path := with_extension path "json.tmp" in
   write temp_path (as_bytes content) ;;?
   rename temp_path path)%io.

Lemma rename_cases a b w :
  exists w', (rename a b w = (Ok tt, w') /\
     (exists c, node_at (files w) (resolve a) = Some (File c) /\
        files w' = <[resolve b := File c]> (delete (resolve a) (files w)))) \/
   (exists e, rename a b w = (Err e, w') /\ files w' = files w).
Proof.
  unfold rename. destruct (syscall_cases (fun f => commit tt f (fs_rename f (resolve a) (resolve b)))
    (fun _ f => (Err IoFault, f)) w) as [[_ ->]|(k & _ & ->)].
  - unfold fs_rename, fs_put.
    destruct (node_at (files w) (resolve a)) as [[|c]|] eqn:Ea; [eexists; right; eauto| |eexists; right; eauto].
    repeat case_match; cbn; eexists; first [right; by eauto | left; by eauto].
  - eexists. right. eauto.
Qed.

Lemma write_cases p d w :
  exists w', (write p d w = (Ok tt, w') /\ files w' = <[resolve p := File d]> (files w)) \/
   (exists e, write p d w = (Err e, w') /\ forall q, q <> resolve p -> files w' !! q = files w !! q).
Proof.
  unfold write. edestruct (syscall_cases (fun f => commit tt f (fs_put f (resolve p) d))) as [[_ ->]|(k & _ & ->)].
  - unfold fs_put. repeat case_match; cbn; eexists; first [right; by eauto | left; by eauto].
  - eexists. right. eexists. split; [done|]. intros q Hq. destruct k as [|k]; [done|]. cbn.
    unfold fs_put. repeat case_match; cbn; by rewrite ?lookup_insert_ne by done.
Qed.

(** Whatever fails, the target holds its old content or all of the new one,
    and the answer says which. *)
Lemma replace_file_atomic path content w :
  resolve path <> [] -> resolve (with_extension path "json.tmp") <> resolve path ->
  exists w', (replace_file path content w = (Ok tt, w') /\
       files w' !! resolve path = Some (File (as_bytes content))) \/
   (exists e, replace_file path content w = (Err e, w') /\
       files w' !! resolve path = files w !! resolve path).
Proof.
  intros Hnil Hne. unfold replace_file, ebind.
  destruct (write_cases (with_extension path "json.tmp") (as_bytes content) w)
    as [w1 [[-> Hf1]|(e & -> & Hf1)]]; [|eexists; right; eauto].
  destruct (rename_cases (with_extension path "json.tmp") path w1)
    as [w2 [[-> (c & Hc & Hf2)]|(e & -> & Hf2)]]; eexists.
  - left. split; [done|]. rewrite Hf2, lookup_insert_eq. f_equal.
    unfold node_at in Hc. case_bool_decide; [done|]. rewrite Hf1, lookup_insert_eq in Hc. congruence.
  - right. exists e. split; [done|]. rewrite Hf2, Hf1. by rewrite lookup_insert_ne.
Qed.

(** After a crash nothing more is replaced. *)
Lemma replace_file_crashed path content w :
  crashed w -> exists e w', replace_file path content w = (Err e, w') /\
    forall q, q <> resolve (with_extension path "json.tmp") -> files w' !! q = files w !! q.
Proof.
  intros Hc. unfold replace_file, ebind.
  destruct (Hc (tick w)) as [k Hk]; [lia|].
  assert (exists w', write (with_extension path "json.tmp") (as_bytes content) w = (Err IoFault, w')) as [w' Hw].
  { unfold write, syscall. rewrite Hk. eauto. }
  destruct (write_cases (with_extension path "json.tmp") (as_bytes content) w) as [w1 [[E _]|(e & E & Hf)]];
    rewrite Hw in E; [done|]. rewrite Hw. simplify_eq. eauto.
Qed.

(** With no failing call and the directory in place, it succeeds. *)
Lemma replace_file_quiet path content w :
  let tmp := resolve (with_extension path "json.tmp") in
  quiet w -> node_at (files w) (parent (resolve path)) = Some Dir -> parent tmp = parent (resolve path) ->
  tmp <> resolve path -> tmp <> [] -> tmp <> parent tmp ->
  node_at (files w) tmp <> Some Dir -> node_at (files w) (resolve path) <> Some Dir ->
  exists w', replace_file path content w = (Ok tt, w') /\ quiet w' /\
    files w' = <[resolve path := File (as_bytes content)]> (delete tmp (files w)).
Proof.
  intros tmp Hq Hp Hpt Hne Hnil Hnp Ht Hd. unfold replace_file, ebind, write, rename.
  rewrite syscall_quiet by done. fold tmp.
  assert (fs_put (files w) tmp (as_bytes content) = Ok (<[tmp := File (as_bytes content)]> (files w))) as Hput.
  { unfold fs_put. rewrite Hpt, Hp. destruct (node_at (files w) tmp) as [[|]|]; [done|done|done]. }
  rewrite Hput. cbn [commit fst snd]. rewrite syscall_quiet by (by apply quiet_advance). fold tmp.
  assert (fs_rename (<[tmp := File (as_bytes content)]> (files w)) tmp (resolve path) =
          Ok (<[resolve path := File (as_bytes content)]> (delete tmp (files w)))) as Hren.
  { unfold fs_rename, node_at at 1. rewrite bool_decide_eq_false_2 by done. rewrite lookup_insert_eq.
    rewrite delete_insert_eq. unfold fs_put.
    assert (Hnode : forall q, q <> tmp -> node_at (delete tmp (files w)) q = node_at (files w) q).
    { intros q Hqt. unfold node_at. by rewrite lookup_delete_ne by done. }
    rewrite !Hnode by congruence. rewrite Hp. by destruct (node_at (files w) (resolve path)) as [[|]|]. }
  cbn [advance files]. rewrite Hren. cbn [commit fst snd]. eexists. split; [done|]. split; [|done].
  by apply quiet_advance, quiet_advance.
Qed.

(** ** Paths of files in a directory *)

(** Joining a component without separator puts a fixed text in front of it. *)
Lemma join_prefix d :
  exists pre, (pre = "" \/ exists q, pre = q +:+ "/") /\
    forall n, "/"%char ∉ chars n -> join d n = pre +:+ n.
Proof.
  exists (if str_is_empty d || ends_with "/" d then d else d +:+ "/"). split.
  - destruct (str_is_empty d) eqn:E1; cbn [orb].
    + left. by apply bool_decide_eq_true in E1.
    + right. destruct (ends_with "/" d) eqn:E2; [|by exists d].
      unfold ends_with in E2. apply prefixb_spec in E2 as [k Hk].
      apply (f_equal reverse) in Hk. rewrite reverse_involutive, reverse_app in Hk.
      exists (of_chars (reverse k)). apply (inj chars). by rewrite Hk, chars_app, chars_of_chars.
  - intros n Hn. unfold join. rewrite not_starts_with_slash by done.
    case_match; [done|]. apply (inj chars). rewrite !chars_app. by rewrite <- app_assoc.
Qed.

Lemma file_name_join d n : "/"%char ∉ chars n -> file_name (join d n) = n.
Proof.
  intros Hn. destruct (join_prefix d) as (pre & Hpre & Hj). rewrite Hj by done. unfold file_name.
  destruct Hpre as [->|[q ->]].
  - change ("" +:+ n) with n. by rewrite split_char_none.
  - replace ((q +:+ "/") +:+ n) with (q +:+ "/" +:+ n).
    + rewrite split_char_sep by done. by rewrite last_snoc.
    + apply (inj chars). rewrite !chars_app. by rewrite <- app_assoc.
Qed.

Lemma with_extension_join d n ext :
  "/"%char ∉ chars n -> "/"%char ∉ chars (file_stem n +:+ "." +:+ ext) ->
  with_extension (join d n) ext = join d (file_stem n +:+ "." +:+ ext).
Proof.
  intros Hn He. unfold with_extension. rewrite file_name_join by done.
  destruct (join_prefix d) as (pre & _ & Hj). rewrite !Hj by done.
  rewrite chars_app, length_app. rewrite take_app_le by lia.
  rewrite take_ge by lia. by rewrite of_chars_chars.
Qed.

(** A file of a directory, its temporary sibling, and where they resolve. *)
Lemma sibling_tmp d n t :
  plain n -> plain t -> t = file_stem n +:+ "." +:+ "json.tmp" ->
  with_extension (join d n) "json.tmp" = join d t.
Proof. intros Hn Ht ->. apply with_extension_join; [apply Hn|apply Ht]. Qed.

Lemma resolve_in d n : plain n -> resolve (join d n) = resolve d ++ [n] /\
  resolve (join d n) <> [] /\ parent (resolve (join d n)) = resolve d.
Proof.
  intros Hn. rewrite resolve_join_plain by done. split; [done|]. split; [by destruct (resolve d)|].
  unfold parent. by rewrite removelast_last.
Qed.
