(* ===== verification/Catalog.v ===== *)
(** * Catalog: the server's data model and the catalog of an application
    ([deltaship-server/src/models.rs], the in-memory part of
    [deltaship-server/src/storage.rs])

    The records stored as JSON, the merge-or-insert update of a catalog with
    its binary search, and what the catalog promises: its versions are sorted
    newest first without duplicates, a lookup sees exactly what was published,
    and the latest version is the greatest one. *)

From S2P Require Import Prelude Text Version Core Validation.
From stdpp Require Import sorting.

#[local] Open Scope Z_scope.

(** ** JSON *)

(** [serde_json] for a type: [to_string_pretty], which does not fail on the
    types stored here, and [from_str]. *)
Class Serde (A : Type) := { to_json : A -> string; from_json : string -> option A }.

Class SerdeLaws (A : Type) {SA : Serde A} : Prop := {
  json_roundtrip (x : A) : from_json (to_json x) = Some x;
  json_utf8 (x : A) : is_utf8 (to_json x);
  json_empty : from_json (A := A) "" = None;
}.

(** ** Data model *)

Record RolloutConfig := {
  rc_percentage : Z;
  rc_enabled : bool;
  rc_started_at : option string;
  rc_completed_at : option string;
}.

Definition rollout_default : RolloutConfig :=
  {| rc_percentage := 100; rc_enabled := true; rc_started_at := None; rc_completed_at := None |}.

Section Data.
Context {SV : Semver}.

Record VersionInfo := {
  vi_version : Version;
  vi_platforms : list Platform;
  vi_release_notes : option string;
  vi_forced : bool;
  vi_rollout : option RolloutConfig;
}.

Record AppCatalog := {
  cat_app_name : string;
  cat_versions : list VersionInfo;
  cat_latest_version : Version;
}.

Record DiffInfo := {
  di_from_version : Version;
  di_checksum : string;
  di_size : Z;
  di_algorithm : string;
}.

Record PlatformArtifact := {
  pa_checksum : string;
  pa_size : Z;
  pa_diffs_from : list DiffInfo;
}.

Record VersionManifest := {
  vm_version : Version;
  vm_platforms : gmap Platform PlatformArtifact;
}.
End Data.

Record PublishResponse := { pr_success : bool; pr_message : string; pr_version_id : string }.

Definition publish_success (version_id message : string) : PublishResponse :=
  {| pr_success := true; pr_message := message; pr_version_id := version_id |}.
Definition publish_error (message : string) : PublishResponse :=
  {| pr_success := false; pr_message := message; pr_version_id := "" |}.

Record RolloutResponse := { rr_success : bool; rr_rollout : RolloutConfig; rr_message : string }.

Record AppListItem := { al_name : string; al_versions_count : Z; al_latest_version : string }.

Record AppDetails := {
  ad_name : string; ad_versions : list string; ad_total_size_bytes : Z; ad_platforms : list string }.

Record VersionListItem := {
  vl_version : string; vl_size_bytes : Z; vl_platforms : list string;
  vl_rollout_percentage : Z; vl_deleted : bool; vl_published_at : option string }.

(** ** Slices *)

(** [slice::binary_search_by]: [inl] a matching index, [inr] the insertion
    point.  [None] is never returned (see [bs_loop_total]). *)
Fixpoint bs_loop {A} (f : A -> comparison) (l : list A) (fuel left right : nat) : option (nat + nat) :=
  match fuel with
  | O => None
  | S fuel =>
      if bool_decide (left < right)%nat then
        let mid := (left + Nat.div2 (right - left))%nat in
        match l !! mid with
        | None => None
        | Some x =>
            match f x with
            | Eq => Some (inl mid)
            | Lt => bs_loop f l fuel (mid + 1) right
            | Gt => bs_loop f l fuel left mid
            end
        end
      else Some (inr left)
  end.

Definition binary_search_by {A} (f : A -> comparison) (l : list A) : nat + nat :=
  default (inr O) (bs_loop f l (S (length l)) O (length l)).

(** [unwrap_or_else(|pos| pos)]. *)
Definition search_pos (r : nat + nat) : nat := match r with inl i => i | inr i => i end.

(** [Vec::insert]. *)
Definition insert_at {A} (i : nat) (x : A) (l : list A) : list A := take i l ++ x :: drop i l.

(** Mutate the first element found: [iter_mut().find(p)]. *)
Fixpoint update_first {A} (p : A -> bool) (f : A -> A) (l : list A) : option (list A) :=
  match l with
  | [] => None
  | x :: l => if p x then Some (f x :: l) else cons x <$> update_first p f l
  end.

(** ** The update of a catalog *)

Section Update.
Context {SV : Semver}.

(** The loop that pushes the platforms not yet present. *)
Definition merge_platforms (existing new : list Platform) : list Platform :=
  foldl (fun ps p => if bool_decide (p ∈ ps) then ps else ps ++ [p]) existing new.

Definition merge_info (info existing : VersionInfo) : VersionInfo :=
  {| vi_version := vi_version existing;
     vi_platforms := merge_platforms (vi_platforms existing) (vi_platforms info);
     vi_release_notes := match vi_release_notes info with
                         | Some n => Some n
                         | None => vi_release_notes existing
                         end;
     vi_forced := vi_forced existing;
     vi_rollout := vi_rollout existing |}.

Definition default_catalog (app_name : string) (info : VersionInfo) : AppCatalog :=
  {| cat_app_name := app_name; cat_versions := []; cat_latest_version := vi_version info |}.

Definition upsert_version (info : VersionInfo) (versions : list VersionInfo) : list VersionInfo :=
  match update_first (fun v => version_eqb (vi_version v) (vi_version info)) (merge_info info) versions with
  | Some versions => versions
  | None =>
      let insert_pos :=
        search_pos (binary_search_by (fun v => version_cmp (vi_version info) (vi_version v)) versions) in
      insert_at insert_pos info versions
  end.

(** The closure of [update_catalog_atomic], after the catalog was read. *)
Definition apply_version (c : AppCatalog) (info : VersionInfo) : AppCatalog :=
  {| cat_app_name := cat_app_name c;
     cat_versions := upsert_version info (cat_versions c);
     cat_latest_version := if version_gtb (vi_version info) (cat_latest_version c)
                           then vi_version info else cat_latest_version c |}.

(** The deprecated [update_catalog] leaves the latest version alone. *)
Definition apply_version_keep_latest (c : AppCatalog) (info : VersionInfo) : AppCatalog :=
  {| cat_app_name := cat_app_name c;
     cat_versions := upsert_version info (cat_versions c);
     cat_latest_version := cat_latest_version c |}.

(** The entry of a version ([find] with [==]). *)
Definition find_version (v : Version) (c : AppCatalog) : option VersionInfo :=
  List.find (fun e => version_eqb (vi_version e) v) (cat_versions c).
End Update.

(** ** Lemmas: binary search *)

Section BinarySearch.
Context {A : Type} (f : A -> comparison).

(** A slice sorted for [f], without a match, whose insertion point is [k]. *)
Definition partitioned (l : list A) (k : nat) : Prop :=
  (k <= length l)%nat /\
  forall i x, l !! i = Some x -> f x = if bool_decide (i < k)%nat then Lt else Gt.

Lemma bs_loop_spec l k fuel left right :
  partitioned l k -> (left <= k <= right)%nat -> (right <= length l)%nat -> (right - left < fuel)%nat ->
  bs_loop f l fuel left right = Some (inr k).
Proof.
  intros [Hk Hp]. revert left right. induction fuel as [|fuel IH]; intros left right Hlk Hr Hf; [lia|].
  cbn [bs_loop]. case_bool_decide as Hlt; [|f_equal; f_equal; lia].
  assert (Hd : (left <= left + Nat.div2 (right - left) < right)%nat)
    by (pose proof (Nat.lt_div2 (right - left) ltac:(lia)) as Hh; revert Hh;
        generalize (Nat.div2 (right - left)); intros; lia).
  revert Hd. generalize (left + Nat.div2 (right - left))%nat as mid. intros mid Hd.
  destruct (lookup_lt_is_Some_2 l mid) as [x Hx]; [lia|]. rewrite Hx, (Hp _ _ Hx).
  case_bool_decide; apply IH; lia.
Qed.

Lemma binary_search_partitioned l k : partitioned l k -> binary_search_by f l = inr k.
Proof.
  intros Hp. unfold binary_search_by. rewrite (bs_loop_spec l k); [done..| | |]; destruct Hp; lia.
Qed.

(** The search always ends, whatever the slice and the comparison. *)
Lemma bs_loop_total l fuel left right :
  (right <= length l)%nat -> (right - left < fuel)%nat -> is_Some (bs_loop f l fuel left right).
Proof.
  revert left right. induction fuel as [|fuel IH]; intros left right Hr Hf; [lia|].
  cbn [bs_loop]. case_bool_decide as Hlt; [|by eexists].
  assert (Hd : (left <= left + Nat.div2 (right - left) < right)%nat)
    by (pose proof (Nat.lt_div2 (right - left) ltac:(lia)) as Hh; revert Hh;
        generalize (Nat.div2 (right - left)); intros; lia).
  revert Hd. generalize (left + Nat.div2 (right - left))%nat as mid. intros mid Hd.
  destruct (lookup_lt_is_Some_2 l mid) as [x Hx]; [lia|]. rewrite Hx.
  destruct (f x); [by eexists|apply IH; lia|apply IH; lia].
Qed.

Lemma partitioned_app l1 l2 :
  Forall (fun x => f x = Lt) l1 -> Forall (fun x => f x = Gt) l2 -> partitioned (l1 ++ l2) (length l1).
Proof.
  intros H1 H2. split; [rewrite length_app; lia|]. intros i x Hx. case_bool_decide as Hi.
  - rewrite lookup_app_l in Hx by done. by apply (Forall_lookup_1 _ _ _ _ H1 Hx).
  - rewrite lookup_app_r in Hx by lia. by apply (Forall_lookup_1 _ _ _ _ H2 Hx).
Qed.
End BinarySearch.

(** ** Lemmas: the invariant *)

Section Invariant.
Context {SV : Semver} {SVL : SemverLaws SV}.

Definition newer (a b : VersionInfo) : Prop := version_cmp (vi_version a) (vi_version b) = Gt.

(** Newest first, no version twice, no platform twice in an entry. *)
Definition sorted_catalog (l : list VersionInfo) : Prop := StronglySorted newer l.

Definition catalog_wf (c : AppCatalog) : Prop :=
  sorted_catalog (cat_versions c) /\
  Forall (fun e => NoDup (vi_platforms e)) (cat_versions c) /\
  (cat_versions c <> [] -> Exists (fun e => vi_version e ≡ cat_latest_version c) (cat_versions c)).

Lemma merge_platforms_elem ps new p : p ∈ merge_platforms ps new <-> p ∈ ps \/ p ∈ new.
Proof.
  unfold merge_platforms. revert ps; induction new as [|q new IH]; intros ps; simpl; [set_solver|].
  rewrite IH. case_bool_decide; set_solver.
Qed.

Lemma merge_platforms_NoDup ps new : NoDup ps -> NoDup (merge_platforms ps new).
Proof.
  unfold merge_platforms. revert ps; induction new as [|q new IH]; intros ps Hps; simpl; [done|].
  apply IH. case_bool_decide; [done|]. apply NoDup_app. split; [done|]. split; [|by apply NoDup_singleton].
  set_solver.
Qed.

Lemma update_first_Some {A} (p : A -> bool) f l k :
  update_first p f l = Some k ->
  exists l1 x l2, l = l1 ++ x :: l2 /\ k = l1 ++ f x :: l2 /\ p x = true /\ Forall (fun y => p y = false) l1.
Proof.
  revert k; induction l as [|y l IH]; intros k; simpl; [done|]. destruct (p y) eqn:Ep.
  - intros [= <-]. by exists [], y, l.
  - destruct (update_first p f l) as [k'|]; [|done]. intros [= <-].
    destruct (IH k' eq_refl) as (l1 & x & l2 & -> & -> & Hx & Hl1). exists (y :: l1), x, l2. auto.
Qed.

Lemma update_first_None {A} (p : A -> bool) f l :
  update_first p f l = None -> Forall (fun y => p y = false) l.
Proof.
  induction l as [|y l IH]; simpl; [constructor|]. destruct (p y) eqn:Ep; [done|].
  destruct (update_first p f l); [done|]. auto.
Qed.

(** Where a version that is not in a sorted list belongs. *)
Lemma sorted_split v l :
  sorted_catalog l -> Forall (fun e => version_eqb (vi_version e) v = false) l ->
  exists l1 l2, l = l1 ++ l2 /\ Forall (fun e => version_cmp v (vi_version e) = Lt) l1 /\
    Forall (fun e => version_cmp v (vi_version e) = Gt) l2.
Proof.
  induction 1 as [|e l Hs IH Hall]; intros Hne; [by exists [], []|].
  apply Forall_cons in Hne as [He Hne]. apply version_eqb_false in He.
  destruct (version_cmp v (vi_version e)) eqn:E.
  - by apply version_cmp_Eq in E.
  - destruct (IH Hne) as (l1 & l2 & -> & H1 & H2). exists (e :: l1), l2. auto.
  - exists [], (e :: l). repeat split; [constructor|]. constructor; [done|].
    eapply Forall_impl; [exact Hall|]. intros e' He'. unfold newer in He'. eauto with deltaship.
Qed.

(** The upsert is a replacement in place or a sorted insertion. *)
Lemma upsert_cases info l :
  sorted_catalog l ->
  exists l1 l2, Forall (fun e => version_eqb (vi_version e) (vi_version info) = false) (l1 ++ l2) /\
    ((exists x, l = l1 ++ x :: l2 /\ vi_version x ≡ vi_version info /\
        upsert_version info l = l1 ++ merge_info info x :: l2) \/
     (l = l1 ++ l2 /\ upsert_version info l = l1 ++ info :: l2 /\
        Forall (fun e => version_cmp (vi_version info) (vi_version e) = Lt) l1 /\
        Forall (fun e => version_cmp (vi_version info) (vi_version e) = Gt) l2)).
Proof.
  intros Hs. unfold upsert_version. destruct (update_first _ _ l) as [k|] eqn:E.
  - apply update_first_Some in E as (l1 & x & l2 & -> & -> & Hx & Hl1). exists l1, l2.
    apply version_eqb_equiv in Hx. split; [|left; eauto].
    apply Forall_app. split; [done|]. apply StronglySorted_app in Hs as (_ & _ & Hs).
    apply StronglySorted_cons in Hs as [Hall _]. eapply Forall_impl; [exact Hall|].
    intros e He. unfold newer in He. apply version_eqb_false. intros Hee. rewrite Hee, Hx in He.
    by rewrite version_cmp_refl in He.
  - apply update_first_None in E. destruct (sorted_split (vi_version info) l Hs E) as (l1 & l2 & -> & H1 & H2).
    exists l1, l2. split; [done|]. right. repeat split; [|done..].
    rewrite (binary_search_partitioned _ _ (length l1)) by (by apply partitioned_app).
    unfold insert_at, search_pos. by rewrite take_app_length, drop_app_length.
Qed.

(** Replacing an entry by one of the same version keeps the order. *)
Lemma sorted_replace l1 x y l2 :
  vi_version x ≡ vi_version y -> sorted_catalog (l1 ++ x :: l2) -> sorted_catalog (l1 ++ y :: l2).
Proof.
  intros Hxy. unfold sorted_catalog. rewrite !StronglySorted_app, !StronglySorted_cons, !Forall_forall.
  intros (H1 & H2 & H3 & H4). repeat split; [|done| |done].
  - intros a b Ha Hb. apply elem_of_cons in Hb as [->|Hb]; [|apply H1; set_solver].
    unfold newer. rewrite <- Hxy. apply H1; set_solver.
  - intros b Hb. unfold newer. rewrite <- Hxy. by apply H3.
Qed.

Lemma sorted_insert l1 x l2 :
  sorted_catalog (l1 ++ l2) -> Forall (fun e => version_cmp (vi_version x) (vi_version e) = Lt) l1 ->
  Forall (fun e => version_cmp (vi_version x) (vi_version e) = Gt) l2 -> sorted_catalog (l1 ++ x :: l2).
Proof.
  unfold sorted_catalog. rewrite !StronglySorted_app, !StronglySorted_cons, !Forall_forall.
  intros (H1 & H2 & H3) Hl1 Hl2. repeat split; [|done..].
  intros a b Ha Hb. apply elem_of_cons in Hb as [->|Hb]; [|by apply H1].
  unfold newer. apply version_cmp_gt_lt. by apply Hl1.
Qed.

Lemma upsert_sorted info l : sorted_catalog l -> sorted_catalog (upsert_version info l).
Proof.
  intros Hs. destruct (upsert_cases info l Hs) as (l1 & l2 & _ & [(x & -> & Hx & ->)|(-> & -> & H1 & H2)]).
  - by apply (sorted_replace l1 x).
  - by apply sorted_insert.
Qed.

Lemma upsert_platforms info l :
  sorted_catalog l -> NoDup (vi_platforms info) -> Forall (fun e => NoDup (vi_platforms e)) l ->
  Forall (fun e => NoDup (vi_platforms e)) (upsert_version info l).
Proof.
  intros Hs Hnd. destruct (upsert_cases info l Hs) as (l1 & l2 & _ & [(x & -> & Hx & ->)|(-> & -> & H1 & H2)]);
    rewrite !Forall_app, ?Forall_cons.
  - intros (? & ? & ?). repeat split; [done| |done]. by apply merge_platforms_NoDup.
  - by intros [? ?].
Qed.

(** What versions an upsert leaves in the list. *)
Lemma upsert_elem info l v :
  sorted_catalog l ->
  Exists (fun e => vi_version e ≡ v) (upsert_version info l) <->
  vi_version info ≡ v \/ Exists (fun e => vi_version e ≡ v) l.
Proof.
  intros Hs. destruct (upsert_cases info l Hs) as (l1 & l2 & _ & [(x & -> & Hx & ->)|(-> & -> & _)]);
    rewrite !Exists_app, !Exists_cons; cbn [vi_version merge_info]; [|tauto].
  rewrite <- Hx. tauto.
Qed.

Lemma find_app_none {A} (p : A -> bool) l1 l2 :
  Forall (fun y => p y = false) l1 -> List.find p (l1 ++ l2) = List.find p l2.
Proof. induction 1 as [|x l Hx _ IH]; simpl; [done|]. by rewrite Hx. Qed.

Lemma find_app_irrelevant {A} (p : A -> bool) l1 (x y : A) l2 :
  p x = false -> p y = false -> List.find p (l1 ++ x :: l2) = List.find p (l1 ++ y :: l2).
Proof. intros Hx Hy. induction l1 as [|z l1 IH]; simpl; [by rewrite Hx, Hy|]. by rewrite IH. Qed.

Lemma find_app_insert {A} (p : A -> bool) l1 (x : A) l2 :
  p x = false -> List.find p (l1 ++ x :: l2) = List.find p (l1 ++ l2).
Proof. intros Hx. induction l1 as [|z l1 IH]; simpl; [by rewrite Hx|]. by rewrite IH. Qed.

Lemma upsert_find info l w :
  sorted_catalog l ->
  List.find (fun e => version_eqb (vi_version e) w) (upsert_version info l) =
  if version_eqb (vi_version info) w
  then Some (match List.find (fun e => version_eqb (vi_version e) (vi_version info)) l with
             | Some old => merge_info info old
             | None => info
             end)
  else List.find (fun e => version_eqb (vi_version e) w) l.
Proof.
  intros Hs. destruct (upsert_cases info l Hs) as (l1 & l2 & Hne & H).
  apply Forall_app in Hne as [Hn1 Hn2]. destruct (version_eqb (vi_version info) w) eqn:Ew.
  - apply version_eqb_equiv in Ew.
    assert (Hn1w : Forall (fun e => version_eqb (vi_version e) w = false) l1).
    { eapply Forall_impl; [exact Hn1|]. intros e He. cbn in *. by rewrite <- Ew. }
    destruct H as [(x & -> & Hx & ->)|(-> & -> & _)].
    + rewrite !find_app_none by done. cbn [List.find vi_version merge_info].
      rewrite <- Ew, (proj2 (version_eqb_equiv _ _) Hx). done.
    + rewrite find_app_none by done. cbn [List.find].
      rewrite (proj2 (version_eqb_equiv _ _) Ew). rewrite find_app_none by done.
      destruct (List.find _ l2) as [e|] eqn:Ef; [|done].
      apply List.find_some in Ef as [Hin He]. apply list_elem_of_In in Hin.
      rewrite Forall_forall in Hn2. rewrite Hn2 in He by done. done.
  - destruct H as [(x & -> & Hx & ->)|(-> & -> & _)].
    + apply find_app_irrelevant; cbn [vi_version merge_info]; by rewrite Hx.
    + by apply find_app_insert.
Qed.
End Invariant.

(** ** Properties *)

Section Properties.
Context {SV : Semver} {SVL : SemverLaws SV}.

Lemma latest_cases (c : AppCatalog) info :
  version_le (cat_latest_version c) (cat_latest_version (apply_version c info)) /\
  version_le (vi_version info) (cat_latest_version (apply_version c info)) /\
  (cat_latest_version (apply_version c info) = vi_version info \/
   cat_latest_version (apply_version c info) = cat_latest_version c).
Proof.
  cbn. unfold version_gtb. case_bool_decide as Hg.
  - split; [|split; [reflexivity|by left]]. unfold version_le. apply version_cmp_gt_lt in Hg. by rewrite Hg.
  - split; [reflexivity|]. split; [done|by right].
Qed.

Lemma apply_version_wf c info :
  catalog_wf c -> NoDup (vi_platforms info) ->
  (cat_versions c = [] -> cat_latest_version c ≡ vi_version info) ->
  catalog_wf (apply_version c info) /\ cat_versions (apply_version c info) <> [].
Proof.
  intros (Hs & Hp & Hl) Hnd Hempty.
  assert (Hin : forall v, Exists (fun e => vi_version e ≡ v) (cat_versions (apply_version c info)) <->
                     vi_version info ≡ v \/ Exists (fun e => vi_version e ≡ v) (cat_versions c)).
  { intros v. by apply upsert_elem. }
  split.
  - split; [by apply upsert_sorted|]. split; [by apply upsert_platforms|]. intros _.
    apply Hin. destruct (latest_cases c info) as (_ & _ & [->| ->]); [by left|].
    destruct (decide (cat_versions c = [])) as [He|Hne]; [left; symmetry; auto|right; auto].
  - intros Hnil. specialize (Hin (vi_version info)). rewrite Hnil, Exists_nil in Hin. apply Hin. by left.
Qed.

Lemma default_catalog_wf app info : catalog_wf (default_catalog app info).
Proof. repeat split; [constructor|constructor|done]. Qed.

(** C30: the catalog after any sequence of publications to a new application:
    its versions are exactly the published ones (up to build metadata), sorted
    newest first without repetition, and its latest version is a published one
    that no published one exceeds in the order of semantic versions.  That may be
    a pre-release, although the field is documented as the latest stable version. *)
Theorem publish_run_spec app info rest :
  Forall (fun e => NoDup (vi_platforms e)) (info :: rest) ->
  let c := foldl apply_version (default_catalog app info) (info :: rest) in
  catalog_wf c /\ cat_app_name c = app /\
  (forall v, Exists (fun e => vi_version e ≡ v) (cat_versions c) <->
             Exists (fun e => vi_version e ≡ v) (info :: rest)) /\
  Forall (fun e => version_le (vi_version e) (cat_latest_version c)) (info :: rest) /\
  Exists (fun e => vi_version e = cat_latest_version c) (info :: rest).
Proof.
  intros Hnd. cbn [foldl]. apply Forall_cons in Hnd as [Hnd0 Hnd].
  set (c0 := apply_version (default_catalog app info) info).
  assert (Hinv : forall done, done = [info] ->
    catalog_wf c0 /\ cat_versions c0 <> [] /\ cat_app_name c0 = app /\
    (forall v, Exists (fun e => vi_version e ≡ v) (cat_versions c0) <-> Exists (fun e => vi_version e ≡ v) done) /\
    Forall (fun e => version_le (vi_version e) (cat_latest_version c0)) done /\
    Exists (fun e => vi_version e = cat_latest_version c0) done).
  { intros done ->.
    destruct (apply_version_wf (default_catalog app info) info (default_catalog_wf _ _) Hnd0) as [Hw Hne];
      [reflexivity|].
    destruct (latest_cases (default_catalog app info) info) as (_ & Hle & Hl).
    split; [done|]. split; [done|]. split; [done|]. split; [|split].
    - intros v. unfold c0. cbn [cat_versions apply_version]. rewrite upsert_elem by constructor.
      rewrite Exists_cons, !Exists_nil. done.
    - by constructor.
    - left. unfold c0. by destruct Hl as [->| ->]. }
  change (info :: rest) with ([info] ++ rest). specialize (Hinv _ eq_refl).
  revert Hinv. generalize [info] as done. generalize c0 as c. clear c0 Hnd0.
  induction Hnd as [|e rest He Hrest IH]; intros c done (Hw & Hne & Happ & Hin & Hle & Hex).
  { rewrite app_nil_r. cbn [foldl]. auto. }
  cbn [foldl]. replace (done ++ e :: rest) with ((done ++ [e]) ++ rest) by (by rewrite <- app_assoc).
  apply IH. destruct (apply_version_wf c e Hw He) as [Hw' Hne']; [done|].
  destruct (latest_cases c e) as (Hge & Hle' & Hl').
  split; [done|]. split; [done|]. split; [done|]. split; [|split].
  - intros v. cbn [cat_versions apply_version]. rewrite upsert_elem by apply Hw.
    rewrite Exists_app, Exists_cons, Exists_nil, <- Hin. tauto.
  - apply Forall_app. split; [|by constructor]. eapply Forall_impl; [exact Hle|].
    intros e' He'. cbn in He'. by etrans.
  - apply Exists_app. destruct Hl' as [->| ->]; [right; by constructor|by left].
Qed.

(** Insert then look up: after an update the entry of the published version
    carries the platforms of both its old entry and the update, new release
    notes win over old ones, and the entry of every other version is what it
    was. *)
Theorem apply_version_lookup c info w :
  sorted_catalog (cat_versions c) ->
  find_version w (apply_version c info) =
  if version_eqb (vi_version info) w
  then Some (match find_version (vi_version info) c with
             | Some old => merge_info info old
             | None => info
             end)
  else find_version w c.
Proof. intros Hs. by apply upsert_find. Qed.

(** The binary search of a catalog: on a list sorted newest first that does
    not hold the version, it ends at the only position where inserting keeps
    the list sorted, which is the number of newer versions. *)
Theorem catalog_search_position v (l : list VersionInfo) :
  sorted_catalog l -> Forall (fun e => version_eqb (vi_version e) v = false) l ->
  binary_search_by (fun e => version_cmp v (vi_version e)) l =
  inr (length (filter (fun e => version_cmp v (vi_version e) = Lt) l)).
Proof.
  intros Hs Hne. destruct (sorted_split v l Hs Hne) as (l1 & l2 & -> & H1 & H2).
  rewrite (binary_search_partitioned _ _ (length l1)) by (by apply partitioned_app). f_equal.
  clear Hs Hne. induction H1 as [|e l1 He _ IH]; cbn [app length].
  - induction H2 as [|e l2 He _ IH]; [done|]. rewrite filter_cons_False by (by rewrite He). done.
  - rewrite filter_cons_True by done. cbn [length]. by rewrite IH.
Qed.
End Properties.
