(* ===== verification/Storage.v ===== *)
(** * Storage: the server's file-based store ([deltaship-server/src/storage.rs])

    Every operation is the program of its system calls over [Fs.world].  The
    per-app async mutex only serialises requests and has no effect on one
    request alone; it is modelled with its interleavings in [Locking]. *)

From S2P Require Import Prelude Text Version Core Validation RateLimit Fs Catalog.

#[local] Open Scope Z_scope.
#[local] Open Scope io_scope.

Inductive StorageError :=
| SIo (e : io_error)
| SJson
| SNotFound (msg : string).

(** [?] on an [io::Error]: [From] wraps it. *)
Definition lift {A} (m : io (result io_error A)) : io (result StorageError A) :=
  io_map (map_err SIo) m.

(** A panic inside [spawn_blocking] reaches the caller as an I/O error. *)
Definition task_panicked : StorageError := SIo (IoOther "task panicked").

(** ** Paths *)

Definition app_dir (data_dir app_name : string) : string := join (join data_dir "apps") app_name.
Definition catalog_path (data_dir app_name : string) : string :=
  join (app_dir data_dir app_name) "catalog.json".
Definition versions_dir (data_dir app_name : string) : string :=
  join (app_dir data_dir app_name) "versions".
Definition version_dir (data_dir app_name version : string) : string :=
  join (versions_dir data_dir app_name) version.
Definition manifest_path (data_dir app_name version : string) : string :=
  join (version_dir data_dir app_name version) "manifest.json".

Definition binary_file (p : Platform) : string := "binary-" +:+ platform_as_str p.

(** The path-length check of the three functions below only logs. *)
Definition get_binary_path (data_dir app_name version : string) (p : Platform) : string :=
  join (version_dir data_dir app_name version) (binary_file p).

Definition diffs_dir (data_dir app_name : string) : string :=
  join (app_dir data_dir app_name) "diffs".

Definition diff_file (from_version to_version : string) (p : Platform) : string :=
  from_version +:+ "-to-" +:+ to_version +:+ "-" +:+ platform_as_str p.

Definition get_diff_path (data_dir app_name from_version to_version : string) (p : Platform) : string :=
  join (diffs_dir data_dir app_name) (diff_file from_version to_version p).

Definition get_signature_path (data_dir app_name version : string) : string :=
  join (version_dir data_dir app_name version) "signature.sig".

Definition get_rollout_path (data_dir app_name version : string) : string :=
  join (version_dir data_dir app_name version) "rollout.json".

(** ** Directories and artifacts *)

Definition ensure_app_dirs (data_dir app_name : string) : io (result StorageError unit) :=
  lift (create_dir_all (versions_dir data_dir app_name)) ;;?
  lift (create_dir_all (diffs_dir data_dir app_name)).

Definition ensure_version_dir (data_dir app_name version : string) : io (result StorageError string) :=
  let d := version_dir data_dir app_name version in
  lift (create_dir_all d) ;;?
  eret d.

Definition ensure_diffs_dir (data_dir app_name : string) : io (result StorageError unit) :=
  lift (create_dir_all (diffs_dir data_dir app_name)).

Definition save_binary (data_dir app_name version : string) (p : Platform) (data : bytes)
    : io (result StorageError unit) :=
  d ←? ensure_version_dir data_dir app_name version;
  lift (write (join d (binary_file p)) data).

Definition save_binary_from_temp (data_dir app_name version : string) (p : Platform) (temp_path : string)
    : io (result StorageError unit) :=
  d ←? ensure_version_dir data_dir app_name version;
  lift (rename temp_path (join d (binary_file p))).

Definition save_diff (data_dir app_name from_version to_version : string) (p : Platform) (data : bytes)
    : io (result StorageError string) :=
  ensure_diffs_dir data_dir app_name ;;?
  let diff_path := get_diff_path data_dir app_name from_version to_version p in
  lift (write diff_path data) ;;?
  eret diff_path.

Definition save_diff_from_temp (data_dir app_name from_version to_version : string) (p : Platform)
    (temp_path : string) : io (result StorageError string) :=
  ensure_diffs_dir data_dir app_name ;;?
  let diff_path := get_diff_path data_dir app_name from_version to_version p in
  lift (rename temp_path diff_path) ;;?
  eret diff_path.

Definition save_signature (data_dir app_name version : string) (data : bytes)
    : io (result StorageError unit) :=
  d ←? ensure_version_dir data_dir app_name version;
  lift (write (join d "signature.sig") data).

(** ** JSON files *)

Section Json.
Context {A : Type} {SA : Serde A}.

(** [read_to_string(..).ok()] then [from_str(..).ok()]. *)
Definition read_json_opt (path : string) : io (option A) :=
  r ← read_to_string path;
  mret (ok r ≫= from_json).

(** [if path.exists() { read.unwrap_or(default) } else { default }]. *)
Definition read_json_or (path : string) (dflt : A) : io A :=
  b ← exists_ path;
  if (b : bool) then o ← read_json_opt path; mret (default dflt o) else mret dflt.

(** [read_to_string(..)?] then [from_str(..)?]. *)
Definition read_json (path : string) : io (result StorageError A) :=
  content ←? lift (read_to_string path);
  elift (ok_or SJson (from_json content)).

(** The critical section of [update_catalog_atomic] and
    [update_rollout_config_atomic]: open or create the file and lock it, read
    it or start from a default, compute, write a temporary file, rename. *)
Definition locked_update (path : string) (dflt : A) (update : A -> A) : io (result StorageError A) :=
  lift (open_create path) ;;?
  lift lock_file ;;?
  c ←? io_map Ok (read_json_or path dflt);
  let c' := update c in
  lift (replace_file path (to_json c')) ;;?
  eret c'.
End Json.

(** ** Reading *)

Section Store.
Context {SV : Semver}.
Context {SC : Serde AppCatalog} {SM : Serde VersionManifest} {SR : Serde RolloutConfig}.
Context {HI : HashIter}.

Definition get_app_catalog (data_dir app_name : string) : io (option AppCatalog) :=
  b ← exists_ (catalog_path data_dir app_name);
  if (b : bool) then read_json_opt (catalog_path data_dir app_name) else mret None.

Definition get_version_manifest (data_dir app_name version : string) : io (option VersionManifest) :=
  b ← exists_ (manifest_path data_dir app_name version);
  if (b : bool) then read_json_opt (manifest_path data_dir app_name version) else mret None.

Definition get_rollout_config (data_dir app_name version : string) : io (option RolloutConfig) :=
  let p := get_rollout_path data_dir app_name version in
  b ← exists_ p;
  if (b : bool) then
    o ← open_existing p;
    if is_ok o then
      l ← lock_file;
      if is_ok l then read_json_opt p else mret None
    else mret None
  else mret None.

(** ** Writing *)

(** The deprecated, unlocked update. *)
Definition update_catalog (data_dir app_name : string) (info : VersionInfo) : io (result StorageError unit) :=
  ensure_app_dirs data_dir app_name ;;?
  let p := catalog_path data_dir app_name in
  b ←? io_map Ok (exists_ p);
  c ←? (if (b : bool) then read_json p else eret (default_catalog app_name info));
  lift (write p (as_bytes (to_json (apply_version_keep_latest c info)))).

Definition update_catalog_atomic (data_dir app_name : string) (info : VersionInfo)
    : io (result StorageError unit) :=
  ensure_app_dirs data_dir app_name ;;?
  locked_update (catalog_path data_dir app_name) (default_catalog app_name info)
    (fun c => apply_version c info) ;;?
  eret tt.

Definition fresh_artifact (checksum : string) (size : Z) : PlatformArtifact :=
  {| pa_checksum := checksum; pa_size := size; pa_diffs_from := [] |}.

Definition set_artifact (m : VersionManifest) (p : Platform) (a : PlatformArtifact) : VersionManifest :=
  {| vm_version := vm_version m; vm_platforms := <[p := a]> (vm_platforms m) |}.

(** The manifest an update starts from: unreadable content is replaced by an
    empty manifest, with a panic when the version does not parse. *)
Definition manifest_or_new (path version : string) : io (result StorageError VersionManifest) :=
  let fresh v := {| vm_version := v; vm_platforms := ∅ |} in
  b ←? io_map Ok (exists_ path);
  if (b : bool) then
    o ←? io_map Ok (read_json_opt path);
    match o, version_from_str version with
    | Some m, _ => eret m
    | None, Ok v => eret (fresh v)
    | None, Err _ => efail task_panicked
    end
  else
    match version_from_str version with
    | Ok v => eret (fresh v)
    | Err _ => efail (SNotFound ("Invalid version: " +:+ version))
    end.

Definition update_manifest (data_dir app_name version : string) (p : Platform) (checksum : string) (size : Z)
    : io (result StorageError unit) :=
  d ←? ensure_version_dir data_dir app_name version;
  let path := join d "manifest.json" in
  lift (open_create path) ;;?
  lift lock_file ;;?
  m ←? manifest_or_new path version;
  lift (replace_file path (to_json (set_artifact m p (fresh_artifact checksum size)))).

Definition set_latest_version (data_dir app_name version : string) : io (result StorageError unit) :=
  let path := catalog_path data_dir app_name in
  b ←? io_map Ok (exists_ path);
  if (b : bool) then
    lift (open_existing path) ;;?
    lift lock_file ;;?
    c ←? read_json path;
    if existsb (fun e => bool_decide (version_to_string (vi_version e) = version)) (cat_versions c) then
      v ←? elift (map_err (fun _ => SNotFound ("Invalid version: " +:+ version)) (version_from_str version));
      lift (replace_file path (to_json {| cat_app_name := cat_app_name c;
                                          cat_versions := cat_versions c; cat_latest_version := v |}))
    else efail (SNotFound ("Version " +:+ version +:+ " not found in catalog"))
  else efail (SNotFound ("Catalog not found for app: " +:+ app_name)).

(** Replace the diff from the same version, or append. *)
Definition put_diff (d : DiffInfo) (ds : list DiffInfo) : list DiffInfo :=
  match update_first (fun e => version_eqb (di_from_version e) (di_from_version d)) (fun _ => d) ds with
  | Some ds => ds
  | None => ds ++ [d]
  end.

Definition add_diff_to_manifest (data_dir app_name to_version : string) (p : Platform) (d : DiffInfo)
    : io (result StorageError unit) :=
  let path := manifest_path data_dir app_name to_version in
  b ←? io_map Ok (exists_ path);
  if (b : bool) then
    lift (open_existing path) ;;?
    lift lock_file ;;?
    m ←? read_json path;
    match vm_platforms m !! p with
    | Some a =>
        lift (replace_file path (to_json (set_artifact m p
          {| pa_checksum := pa_checksum a; pa_size := pa_size a;
             pa_diffs_from := put_diff d (pa_diffs_from a) |})))
    | None => efail (SNotFound ("Platform " +:+ platform_as_str p +:+
                       " not found in manifest for version " +:+ to_version))
    end
  else efail (SNotFound ("Manifest not found for version: " +:+ to_version)).

Definition set_rollout_config (data_dir app_name version : string) (config : RolloutConfig)
    : io (result StorageError unit) :=
  ensure_version_dir data_dir app_name version ;;?
  let path := get_rollout_path data_dir app_name version in
  lift (open_create path) ;;?
  lift lock_file ;;?
  lift (replace_file path (to_json config)).

Definition update_rollout_config_atomic (data_dir app_name version : string)
    (update_fn : RolloutConfig -> RolloutConfig) : io (result StorageError RolloutConfig) :=
  ensure_version_dir data_dir app_name version ;;?
  locked_update (get_rollout_path data_dir app_name version) rollout_default update_fn.

(** ** Deletion *)

(** The strings of a [HashSet], in its iteration order. *)
Definition set_iter (X : gset string) : list string := (iter unit (gset_to_gmap tt X)).*1.

(** [retain] with a predicate that makes a system call. *)
Fixpoint retain_io {A} (p : A -> io bool) (l : list A) : io (list A) :=
  match l with
  | [] => mret []
  | x :: l => b ← p x; r ← retain_io p l; mret (if (b : bool) then x :: r else r)
  end.

(** [sort_by(|a, b| b.cmp(a))] on strings: descending byte order. *)
Fixpoint insert_desc (x : string) (l : list string) : list string :=
  match l with
  | [] => [x]
  | y :: l' => match String.compare y x with Gt => y :: insert_desc x l' | _ => x :: l end
  end.
Definition sort_desc (l : list string) : list string := foldr insert_desc [] l.

(** The choice of the new latest version. *)
Definition next_latest (data_dir app_name version : string) (c : AppCatalog) : io (option string) :=
  let catalog_versions := list_to_set ((fun e => version_to_string (vi_version e)) <$> cat_versions c) : gset string in
  let available := filter (fun v => v <> version) (set_iter catalog_versions) in
  available ← retain_io (fun v => io_map negb (exists_ (join (join (versions_dir data_dir app_name) v) ".deleted")))
                        available;
  mret (head (sort_desc available)).

Definition delete_version (data_dir app_name version : string) : io (result StorageError unit) :=
  let vd := version_dir data_dir app_name version in
  b ←? io_map Ok (exists_ vd);
  if (b : bool) then
    lift (write (join vd ".deleted") []) ;;?
    let path := catalog_path data_dir app_name in
    b ←? io_map Ok (exists_ path);
    if (b : bool) then
      lift (open_existing path) ;;?
      lift lock_file ;;?
      c ←? read_json path;
      c' ←? (if bool_decide (version_to_string (cat_latest_version c) = version) then
               o ←? io_map Ok (next_latest data_dir app_name version c);
               eret match (o : option string) ≫= (fun s => ok (version_from_str s)) with
                    | Some v => {| cat_app_name := cat_app_name c; cat_versions := cat_versions c;
                                   cat_latest_version := v |}
                    | None => c
                    end
             else eret c);
      lift (replace_file path (to_json c'))
    else eret tt
  else efail (SNotFound ("Version not found: " +:+ app_name +:+ "/" +:+ version)).
End Store.
