(* ===== verification/StorageFacts.v ===== *)
(** * StorageFacts: what the store guarantees

    Stepping and frame lemmas for the programs of [Storage]; the locked update
    of a JSON file under every fault schedule that models a crash and on a
    healthy file system; crash safety and read-back of the catalog. *)

From S2P Require Import Prelude Text Version Core Validation RateLimit Fs Catalog Storage.

#[local] Open Scope Z_scope.
#[local] Open Scope io_scope.

(** ** Stepping through programs *)

Lemma ebind_Ok {E A B} (m : io (result E A)) (f : A -> io (result E B)) w a w1 :
  m w = (Ok a, w1) -> ebind m f w = f a w1.
Proof. intros H. unfold ebind. by rewrite H. Qed.

Lemma ebind_Err {E A B} (m : io (result E A)) (f : A -> io (result E B)) w e w1 :
  m w = (Err e, w1) -> ebind m f w = (Err e, w1).
Proof. intros H. unfold ebind. by rewrite H. Qed.

Lemma bind_step {A B} (m : io A) (f : A -> io B) w a w1 : m w = (a, w1) -> (m ≫= f) w = f a w1.
Proof. intros H. unfold mbind, io_bind. by rewrite H. Qed.

Lemma lift_Ok {A} (m : io (result io_error A)) w a w1 : m w = (Ok a, w1) -> lift m w = (Ok a, w1).
Proof. intros H. unfold lift, io_map. by rewrite H. Qed.

Lemma lift_Err {A} (m : io (result io_error A)) w e w1 : m w = (Err e, w1) -> lift m w = (Err (SIo e), w1).
Proof. intros H. unfold lift, io_map. by rewrite H. Qed.

Lemma io_map_step {A B} (f : A -> B) (m : io A) w a w1 : m w = (a, w1) -> io_map f m w = (f a, w1).
Proof. intros H. unfold io_map. by rewrite H. Qed.

Lemma respects_lift R `{forall p, PreOrder (R p)} {A} (m : io (result io_error A)) :
  respects R m -> respects R (lift m).
Proof. apply respects_io_map. Qed.
#[global] Hint Resolve respects_lift : respects.

(** What a step may do. *)
Lemma respects_run R {A} (m : io A) w :
  respects R m ->
  exists r w1, m w = (r, w1) /\ faults w1 = faults w /\ (forall p, R p (files w !! p) (files w1 !! p)).
Proof. intros Hm. destruct (Hm w) as (Hf & _ & HR). destruct (m w) as [r w1]. eauto. Qed.

(** ** JSON files and their temporary siblings *)

Record json_name (n t : string) : Prop := {
  jn_plain : plain n; jn_tmp_plain : plain t; jn_ne : t <> n;
  jn_tmp : t = file_stem n +:+ "." +:+ "json.tmp" }.

Lemma json_name_intro n t :
  bool_decide (plain n /\ plain t /\ t <> n /\ t = file_stem n +:+ "." +:+ "json.tmp") = true -> json_name n t.
Proof. intros (? & ? & ? & ?)%bool_decide_eq_true. by split. Qed.

Lemma catalog_json : json_name "catalog.json" "catalog.json.tmp".
Proof. apply json_name_intro. vm_compute. reflexivity. Qed.
Lemma manifest_json : json_name "manifest.json" "manifest.json.tmp".
Proof. apply json_name_intro. vm_compute. reflexivity. Qed.
Lemma rollout_json : json_name "rollout.json" "rollout.json.tmp".
Proof. apply json_name_intro. vm_compute. reflexivity. Qed.

#[global] Hint Resolve catalog_json manifest_json rollout_json : deltaship.

Section Files.
Context {n t : string} (Hn : json_name n t).

Lemma json_path d : resolve (join d n) = resolve d ++ [n].
Proof. apply resolve_join_plain, Hn. Qed.

Lemma json_tmp_path d : resolve (with_extension (join d n) "json.tmp") = resolve d ++ [t].
Proof.
  rewrite (sibling_tmp d n t); [|apply Hn..]. apply resolve_join_plain, Hn.
Qed.

Lemma json_paths_differ d : resolve d ++ [t] <> resolve d ++ [n].
Proof. intros H. apply (inj (app _)) in H. simplify_eq. by destruct (jn_ne _ _ Hn). Qed.

Lemma replace_json_cases d content w :
  exists w', (replace_file (join d n) content w = (Ok tt, w') /\
       files w' !! (resolve d ++ [n]) = Some (File (as_bytes content))) \/
   (exists e, replace_file (join d n) content w = (Err e, w') /\
       files w' !! (resolve d ++ [n]) = files w !! (resolve d ++ [n])).
Proof.
  rewrite <- json_path. apply replace_file_atomic; rewrite json_path, ?json_tmp_path; [by destruct (resolve d)|].
  apply json_paths_differ.
Qed.

Lemma replace_json_crashed d content w :
  crashed w -> exists e w', replace_file (join d n) content w = (Err e, w') /\
    files w' !! (resolve d ++ [n]) = files w !! (resolve d ++ [n]).
Proof.
  intros Hc. destruct (replace_file_crashed (join d n) content w Hc) as (e & w' & -> & Hf).
  exists e, w'. split; [done|]. apply Hf. rewrite json_tmp_path. apply not_eq_sym, json_paths_differ.
Qed.

Lemma replace_json_quiet d content w :
  quiet w -> node_at (files w) (resolve d) = Some Dir ->
  node_at (files w) (resolve d ++ [n]) <> Some Dir -> node_at (files w) (resolve d ++ [t]) <> Some Dir ->
  exists w', replace_file (join d n) content w = (Ok tt, w') /\ quiet w' /\
    files w' = <[resolve d ++ [n] := File (as_bytes content)]> (delete (resolve d ++ [t]) (files w)).
Proof.
  intros Hq Hd Hnn Hnt. rewrite <- (json_path d), <- (json_tmp_path d).
  apply replace_file_quiet; rewrite ?json_path, ?json_tmp_path; try done; unfold parent;
    rewrite ?removelast_last; try done.
  - apply json_paths_differ.
  - by destruct (resolve d).
  - intros H. apply (f_equal length) in H. rewrite length_app in H. simpl in H. lia.
Qed.
End Files.

(** ** Reading a stored value *)

Section Json.
Context {A : Type} {SA : Serde A} {SAL : SerdeLaws A}.

(** The file at [p] holds [x]. *)
Definition stored (f : fs) (p : list string) (x : A) : Prop :=
  p <> [] /\ f !! p = Some (File (as_bytes (to_json x))).

Lemma stored_node f p x : stored f p x -> node_at f p = Some (File (as_bytes (to_json x))).
Proof. intros [Hp H]. unfold node_at. by rewrite bool_decide_eq_false_2. Qed.

Lemma read_json_opt_quiet p w x :
  quiet w -> stored (files w) (resolve p) x -> read_json_opt p w = (Some x, advance w (files w)).
Proof.
  intros Hq Hs. unfold read_json_opt. erewrite bind_step
    by (apply read_to_string_quiet; [done|by apply stored_node|apply json_utf8]).
  cbn. by rewrite json_roundtrip.
Qed.

Lemma read_json_quiet p w x :
  quiet w -> stored (files w) (resolve p) x -> read_json p w = (Ok x, advance w (files w)).
Proof.
  intros Hq Hs. unfold read_json. erewrite ebind_Ok
    by (apply lift_Ok, read_to_string_quiet; [done|by apply stored_node|apply json_utf8]).
  unfold elift. by rewrite json_roundtrip.
Qed.

Lemma read_json_or_quiet p w x d :
  quiet w -> stored (files w) (resolve p) x ->
  exists w', read_json_or p d w = (x, w') /\ quiet w' /\ files w' = files w.
Proof.
  intros Hq Hs. unfold read_json_or. erewrite bind_step by (by apply exists_quiet).
  rewrite (stored_node _ _ _ Hs). cbn [is_Some]. rewrite bool_decide_eq_true_2 by (by eexists).
  erewrite bind_step by (apply read_json_opt_quiet; [by apply quiet_advance|done]).
  eexists. split; [done|]. split; [by apply quiet_advance, quiet_advance|done].
Qed.

(** With failing calls, the stored value or the default is used; under a crash
    schedule the default only when the process is gone. *)
Lemma read_json_or_cases p w x d :
  stored (files w) (resolve p) x ->
  exists w', files w' = files w /\ faults w' = faults w /\
    (read_json_or p d w = (x, w') \/
     read_json_or p d w = (d, w') /\ (crash_schedule w -> crashed w')).
Proof.
  intros Hs. unfold read_json_or.
  destruct (syscall_cases (fun f => (bool_decide (is_Some (node_at f (resolve p))), f)) (fun _ f => (false, f)) w)
    as [[_ Hex]|(k & Hk & Hex)]; erewrite bind_step by exact Hex; cbn [fst snd].
  2:{ eexists. split; [|split; [|right; split; [reflexivity|]]]; [done..|].
      intros Hc. by eapply fault_crashes. }
  rewrite (stored_node _ _ _ Hs). rewrite bool_decide_eq_true_2 by (by eexists).
  unfold read_json_opt, read_to_string, read.
  destruct (syscall_cases (fun f => (fs_read f (resolve p), f)) (fun _ f => (Err IoFault, f)) (advance w (files w)))
    as [[_ Hrd]|(k & Hk & Hrd)].
  - erewrite bind_step by (erewrite bind_step by (apply io_map_step, Hrd); reflexivity).
    eexists. split; [|split; [|left]]; [..|]; cycle 2.
    + unfold mret, io_ret. f_equal. cbn [files advance fst]. unfold fs_read. rewrite (stored_node _ _ _ Hs). cbn.
      unfold decode_utf8. rewrite from_utf8_as_bytes by apply json_utf8. cbn. by rewrite json_roundtrip.
    + done.
    + done.
  - erewrite bind_step by (erewrite bind_step by (apply io_map_step, Hrd); reflexivity).
    eexists. split; [|split; [|right; split; [reflexivity|]]]; [done..|].
    intros Hc. eapply fault_crashes; [|exact Hk]. by apply crash_schedule_advance.
Qed.
End Json.

(** ** What is stored, whether or not it is readable *)

Section Lookup.
Context {A : Type} {SA : Serde A} {SAL : SerdeLaws A}.

Definition lookup_json (f : fs) (p : list string) : option A :=
  match node_at f p with
  | Some (File b) => from_utf8 b ≫= from_json
  | _ => None
  end.

Lemma stored_lookup f p x : stored f p x -> lookup_json f p = Some x.
Proof.
  intros Hs. unfold lookup_json. rewrite (stored_node _ _ _ Hs), from_utf8_as_bytes by apply json_utf8.
  cbn. apply json_roundtrip.
Qed.

Lemma read_json_opt_lookup p w :
  quiet w -> read_json_opt p w = (lookup_json (files w) (resolve p), advance w (files w)).
Proof.
  intros Hq. unfold read_json_opt, read_to_string, read.
  erewrite bind_step by (apply io_map_step; by apply syscall_quiet). unfold mret, io_ret. f_equal.
  cbn [fst]. unfold lookup_json, fs_read. destruct (node_at _ _) as [[|b]|]; [done| |done]. cbn.
  unfold decode_utf8. by destruct (from_utf8 b).
Qed.

Lemma lookup_or_none p w (dflt : option A) :
  quiet w ->
  exists w', (b ← exists_ p; if (b : bool) then read_json_opt p else mret None) w =
               (lookup_json (files w) (resolve p), w') /\ quiet w' /\ files w' = files w.
Proof.
  intros Hq. erewrite bind_step by (by apply exists_quiet). case_bool_decide as He.
  - rewrite read_json_opt_lookup by (by apply quiet_advance). eexists. split; [done|].
    split; [by apply quiet_advance, quiet_advance|done].
  - eexists. split; [|split; [by apply quiet_advance|done]]. unfold lookup_json.
    destruct (node_at _ _); [|done]. by destruct He.
Qed.

Lemma read_json_or_lookup p w dflt :
  quiet w -> exists w', read_json_or p dflt w = (default dflt (lookup_json (files w) (resolve p)), w') /\
    quiet w' /\ files w' = files w.
Proof.
  intros Hq. unfold read_json_or. erewrite bind_step by (by apply exists_quiet). case_bool_decide as He.
  - erewrite bind_step by (apply read_json_opt_lookup; by apply quiet_advance). eexists. split; [done|].
    split; [by apply quiet_advance, quiet_advance|done].
  - eexists. split; [|split; [by apply quiet_advance|done]]. unfold lookup_json.
    destruct (node_at _ _); [|done]. by destruct He.
Qed.
End Lookup.

(** ** Frames used below *)

(** The file at [q] keeps its content. *)
Definition keeps (q p : list string) (o o' : option node) : Prop :=
  p = q -> forall c, o = Some (File c) -> o' = Some (File c).

#[global] Instance keeps_preorder q p : PreOrder (keeps q p).
Proof. split; [by intros o Hp c|]. intros o1 o2 o3 H1 H2 Hp c Hc. by apply H2, H1. Qed.

Lemma keeps_None q p o : keeps q p None o.
Proof. by intros _ c. Qed.
Lemma keeps_may_create q p : may_create (keeps q) p.
Proof. intros d _ _. apply keeps_None. Qed.
#[global] Hint Resolve keeps_None keeps_may_create keeps_preorder : respects.

Section LockedUpdate.
Context {A : Type} {SA : Serde A} {SAL : SerdeLaws A}.
Context {n t : string} (Hn : json_name n t).

(** The critical section under a crash schedule: the stored value is the old
    one or the updated one, and the answer tells which. *)
Lemma locked_update_crash d (dflt x : A) g w :
  crash_schedule w -> stored (files w) (resolve (join d n)) x ->
  exists w', (locked_update (join d n) dflt g w = (Ok (g x), w') /\
                stored (files w') (resolve (join d n)) (g x)) \/
             (exists e, locked_update (join d n) dflt g w = (Err e, w') /\
                stored (files w') (resolve (join d n)) x).
Proof.
  intros Hc Hs. unfold locked_update. destruct Hs as [Hnil Hs].
  destruct (respects_run (keeps (resolve (join d n))) (lift (open_create (join d n))) w)
    as ([a|e] & w1 & H1 & Hf1 & HR1); [auto with respects| |].
  2:{ erewrite ebind_Err by exact H1. exists w1. right. exists e. split; [done|]. split; [done|]. by apply HR1. }
  erewrite ebind_Ok by exact H1.
  destruct (respects_run (keeps (resolve (join d n))) (lift lock_file) w1)
    as ([b|e] & w2 & H2 & Hf2 & HR2); [auto with respects| |].
  2:{ erewrite ebind_Err by exact H2. exists w2. right. exists e. split; [done|]. split; [done|].
      apply HR2; [done|]. by apply HR1. }
  erewrite ebind_Ok by exact H2.
  assert (Hs2 : stored (files w2) (resolve (join d n)) x).
  { split; [done|]. apply HR2; [done|]. by apply HR1. }
  assert (Hc2 : crash_schedule w2) by (unfold crash_schedule; by rewrite Hf2, Hf1).
  destruct (read_json_or_cases (join d n) w2 x dflt Hs2) as (w3 & Hfs & Hfa & [Hr|[Hr Hcr]]);
    erewrite ebind_Ok by (apply io_map_step, Hr).
  - destruct (replace_json_cases Hn d (to_json (g x)) w3) as [w4 [[Hw Hst]|(e & Hw & Hst)]].
    + erewrite ebind_Ok by (apply lift_Ok, Hw). exists w4. left. split; [done|].
      split; [done|]. by rewrite (json_path Hn).
    + erewrite ebind_Err by (apply lift_Err, Hw). exists w4. right. eexists. split; [done|].
      split; [done|]. rewrite (json_path Hn), Hst, Hfs, <- (json_path Hn). apply Hs2.
  - destruct (replace_json_crashed Hn d (to_json (g dflt)) w3 (Hcr Hc2)) as (e & w4 & Hw & Hst).
    erewrite ebind_Err by (apply lift_Err, Hw). exists w4. right. eexists. split; [done|].
    split; [done|]. rewrite (json_path Hn), Hst, Hfs, <- (json_path Hn). apply Hs2.
Qed.

(** ... and on a healthy file system: it succeeds, and the value computed from
    what could be read is stored. *)
Lemma locked_update_quiet d (dflt : A) g w :
  quiet w -> node_at (files w) (resolve d) = Some Dir ->
  node_at (files w) (resolve d ++ [n]) <> Some Dir -> node_at (files w) (resolve d ++ [t]) <> Some Dir ->
  let x := g (default dflt (lookup_json (files w) (resolve (join d n)))) in
  exists w', locked_update (join d n) dflt g w = (Ok x, w') /\ quiet w' /\
    stored (files w') (resolve (join d n)) x /\
    forall q, q <> resolve d ++ [n] -> q <> resolve d ++ [t] -> node_at (files w') q = node_at (files w) q.
Proof.
  intros Hq Hd Hnn Hnt x. unfold locked_update.
  assert (Hnil : resolve d ++ [n] <> []) by (by destruct (resolve d)).
  destruct (open_create_quiet (join d n) w Hq) as (w1 & Ho & Hq1 & (c & Hc & Hor) & Hoth);
    rewrite ?(json_path Hn) in *; [done| |done|].
  { unfold parent. by rewrite removelast_last. }
  erewrite ebind_Ok by (by apply lift_Ok). erewrite ebind_Ok by (apply lift_Ok; by apply lock_file_quiet).
  destruct (read_json_or_lookup (join d n) (advance w1 (files w1)) dflt) as (w2 & Hr & Hq2 & Hf2);
    [by apply quiet_advance|]. cbn [advance files] in *.
  erewrite ebind_Ok by (apply io_map_step, Hr).
  assert (Hx : g (default dflt (lookup_json (files w1) (resolve (join d n)))) = x).
  { unfold x. f_equal. f_equal. rewrite (json_path Hn). unfold lookup_json. rewrite Hc.
    destruct Hor as [->|[-> ->]]; [done|]. cbn. apply json_empty. }
  rewrite Hx. assert (Hdt : resolve d <> resolve d ++ [n]).
  { intros E. apply (f_equal length) in E. rewrite length_app in E. simpl in E. lia. }
  destruct (replace_json_quiet Hn d (to_json x) w2 Hq2) as (w3 & Hw & Hq3 & Hf3); rewrite ?Hf2.
  { by rewrite Hoth. } { by rewrite Hc. } { rewrite Hoth; [done|apply (json_paths_differ Hn)]. }
  erewrite ebind_Ok by (apply lift_Ok, Hw). eexists. split; [done|]. split; [done|]. split.
  - split; [done|]. by rewrite Hf3, lookup_insert_eq.
  - intros q H1 H2. rewrite Hf3, node_at_insert by done. rewrite bool_decide_eq_false_2 by done.
    unfold node_at. rewrite lookup_delete_ne by done. rewrite Hf2. by apply (Hoth q H1).
Qed.
End LockedUpdate.

(** ** Crash safety and read-back of the catalog *)

(** The directories of an application can be created and its JSON files are
    not directories. *)
Definition healthy (f : fs) (data_dir app_name : string) : Prop :=
  clear_way f (resolve (versions_dir data_dir app_name)) /\
  clear_way f (resolve (diffs_dir data_dir app_name)) /\
  node_at f (resolve (app_dir data_dir app_name) ++ ["catalog.json"]) <> Some Dir /\
  node_at f (resolve (app_dir data_dir app_name) ++ ["catalog.json.tmp"]) <> Some Dir.

Lemma last_not_prefix (a : list string) x y q :
  x <> y -> q `prefix_of` a ++ [x] -> q <> a ++ [y].
Proof.
  intros Hxy [k Hk] ->. assert (k = []) as ->.
  { apply (f_equal length) in Hk. rewrite !length_app in Hk. simpl in Hk. apply length_zero_iff_nil. lia. }
  rewrite app_nil_r in Hk. apply (inj (app a)) in Hk. by simplify_eq.
Qed.

Lemma ensure_app_dirs_quiet data_dir app_name w :
  quiet w -> clear_way (files w) (resolve (versions_dir data_dir app_name)) ->
  clear_way (files w) (resolve (diffs_dir data_dir app_name)) ->
  exists w', ensure_app_dirs data_dir app_name w = (Ok tt, w') /\ quiet w' /\
    node_at (files w') (resolve (app_dir data_dir app_name)) = Some Dir /\
    forall c, plain c -> c <> "versions" -> c <> "diffs" ->
      node_at (files w') (resolve (app_dir data_dir app_name) ++ [c]) =
      node_at (files w) (resolve (app_dir data_dir app_name) ++ [c]).
Proof.
  intros Hq Hv Hd.
  assert (Rv : resolve (versions_dir data_dir app_name) = resolve (app_dir data_dir app_name) ++ ["versions"])
    by (apply resolve_join_plain; by compute_done).
  assert (Rd : resolve (diffs_dir data_dir app_name) = resolve (app_dir data_dir app_name) ++ ["diffs"])
    by (apply resolve_join_plain; by compute_done).
  destruct (create_dir_all_quiet _ w Hq Hv) as (w1 & Hm1 & Hq1 & Hdir1 & Hk1 & Ho1).
  destruct (create_dir_all_quiet (diffs_dir data_dir app_name) w1 Hq1) as (w2 & Hm2 & Hq2 & Hdir2 & Hk2 & Ho2).
  { intros p c Hp Hc. destruct (Ho1 p) as [E|[_ E]]; [|congruence]. rewrite E in Hc. by apply (Hd p c). }
  unfold ensure_app_dirs. erewrite ebind_Ok by (by apply lift_Ok). exists w2. split; [by apply lift_Ok|].
  split; [done|]. split.
  - apply Hk2, Hdir1. rewrite Rv. by apply prefix_app_r.
  - intros c _ Hcv Hcd. destruct (Ho2 (resolve (app_dir data_dir app_name) ++ [c])) as [->|[Hp _]].
    + destruct (Ho1 (resolve (app_dir data_dir app_name) ++ [c])) as [->|[Hp _]]; [done|].
      rewrite Rv in Hp. by apply (last_not_prefix _ _ c) in Hp.
    + rewrite Rd in Hp. by apply (last_not_prefix _ _ c) in Hp.
Qed.

Section Catalog.
Context {SV : Semver} {SVL : SemverLaws SV}.
Context {SC : Serde AppCatalog} {SCL : SerdeLaws AppCatalog}.

(** C4: crash safety of publishing: whatever the point at which the process is
    lost during [update_catalog_atomic], the catalog on disk is the complete
    old one or the complete updated one, never a mixture, and success is
    reported exactly for the updated one. *)
Theorem catalog_update_crash_safe data_dir app_name info c w :
  crash_schedule w -> stored (files w) (resolve (catalog_path data_dir app_name)) c ->
  exists r w', update_catalog_atomic data_dir app_name info w = (r, w') /\
    (r = Ok tt /\ stored (files w') (resolve (catalog_path data_dir app_name)) (apply_version c info) \/
     (exists e, r = Err e) /\ stored (files w') (resolve (catalog_path data_dir app_name)) c).
Proof.
  intros Hc Hs. unfold update_catalog_atomic. set (p := resolve (catalog_path data_dir app_name)) in *.
  assert (Hpre : respects (keeps p) (ensure_app_dirs data_dir app_name))
    by (unfold ensure_app_dirs; auto with respects).
  destruct (respects_run (keeps p) _ w Hpre) as ([a|e] & w1 & H1 & Hf1 & HR1);
    [erewrite ebind_Ok by exact H1|erewrite ebind_Err by exact H1].
  2:{ do 2 eexists. split; [done|]. right. split; [eauto|]. split; [apply Hs|]. apply HR1; [done|apply Hs]. }
  assert (Hs1 : stored (files w1) p c) by (split; [apply Hs|apply HR1; [done|apply Hs]]).
  destruct (locked_update_crash catalog_json (app_dir data_dir app_name) (default_catalog app_name info) c
    (fun c => apply_version c info) w1) as [w2 [[Hr Hst]|(e & Hr & Hst)]];
    [unfold crash_schedule; by rewrite Hf1|done| |].
  - erewrite ebind_Ok by exact Hr. do 2 eexists. split; [done|]. left. by split.
  - erewrite ebind_Err by exact Hr. do 2 eexists. split; [done|]. right. split; [eauto|done].
Qed.

(** Publish then read: on a healthy file system [update_catalog_atomic]
    succeeds and the catalog served afterwards is the update of the one served
    before, or of an empty one when none could be read. *)
Theorem catalog_update_read_back data_dir app_name info w :
  quiet w -> healthy (files w) data_dir app_name ->
  exists w', update_catalog_atomic data_dir app_name info w = (Ok tt, w') /\
    (get_app_catalog data_dir app_name w').1 =
    Some (apply_version (default (default_catalog app_name info) (get_app_catalog data_dir app_name w).1) info).
Proof.
  intros Hq (Hv & Hd & Hc & Ht). unfold update_catalog_atomic.
  destruct (ensure_app_dirs_quiet data_dir app_name w Hq Hv Hd) as (w1 & H1 & Hq1 & Hdir & Hother).
  assert (Rc : resolve (catalog_path data_dir app_name) = resolve (app_dir data_dir app_name) ++ ["catalog.json"])
    by apply (json_path catalog_json).
  erewrite ebind_Ok by exact H1.
  destruct (locked_update_quiet catalog_json (app_dir data_dir app_name) (default_catalog app_name info)
    (fun c => apply_version c info) w1 Hq1 Hdir) as (w2 & H2 & Hq2 & Hs2 & _).
  { rewrite Hother; [done|by compute_done..]. } { rewrite Hother; [done|by compute_done..]. }
  erewrite ebind_Ok by exact H2. exists w2. split; [done|]. unfold get_app_catalog.
  destruct (lookup_or_none (A := AppCatalog) (catalog_path data_dir app_name) w2 None Hq2) as (w3 & -> & _).
  destruct (lookup_or_none (A := AppCatalog) (catalog_path data_dir app_name) w None Hq) as (w4 & -> & _).
  change (join (app_dir data_dir app_name) "catalog.json") with (catalog_path data_dir app_name) in Hs2.
  cbn [fst]. rewrite (stored_lookup _ _ _ Hs2). do 3 f_equal.
  unfold lookup_json. rewrite Rc, Hother; [done|by compute_done..].
Qed.
End Catalog.
