(* ===== verification/Confinement.v ===== *)
(** * Confinement: the store never leaves the directory of its application

    A frame argument over the programs of [Storage]: with validated names, and
    whatever calls fail, nothing outside the application's directory is
    written, removed or replaced; at most missing ancestors of it are created. *)

From S2P Require Import Prelude Text Version Core Validation RateLimit Fs Catalog Storage StorageFacts.

#[local] Open Scope Z_scope.

(** What may happen at [p] to a program confined to [root]. *)
Definition confined (root p : list string) (o o' : option node) : Prop :=
  root `prefix_of` p \/ o = o' \/ (p `prefix_of` root /\ o = None /\ o' = Some Dir).

#[global] Instance confined_preorder root p : PreOrder (confined root p).
Proof.
  split; [right; by left|]. intros o1 o2 o3 [H1|[->|(H1 & -> & ->)]] H2; [by left|done|].
  destruct H2 as [H2|[<-|(_ & ? & _)]]; [by left| |done]. right; by right.
Qed.

#[global] Hint Resolve confined_preorder : respects.
Create HintDb confined.

Lemma confined_free root p : root `prefix_of` p -> free (confined root) p.
Proof. intros H o o'. by left. Qed.

Lemma confined_may_create root p : root `prefix_of` p -> may_create (confined root) p.
Proof.
  intros Hr d Hd Hp. destruct (prefix_weak_total root d p Hr Hp) as [H|H]; [by left|].
  right; right. done.
Qed.

Lemma prefix_join root d c : root `prefix_of` resolve d -> plain c -> root `prefix_of` resolve (join d c).
Proof. intros Hr Hc. rewrite resolve_join_plain by done. by apply prefix_app_r. Qed.

Lemma prefix_join_component root d c :
  root `prefix_of` resolve d -> plain c \/ c = "." -> root `prefix_of` resolve (join d c).
Proof. intros Hr Hc. rewrite resolve_join_validated by done. by apply prefix_app_r. Qed.

Lemma prefix_tmp root d n t :
  root `prefix_of` resolve d -> json_name n t -> root `prefix_of` resolve (with_extension (join d n) "json.tmp").
Proof. intros Hr Hn. rewrite (json_tmp_path Hn). by apply prefix_app_r. Qed.

(** Case analysis on the control structure of a program, then the frames of
    its calls. *)
Ltac respects_tac :=
  repeat (cbn zeta;
    lazymatch goal with
    | |- respects _ (if ?b then _ else _) => destruct b
    | |- respects _ (match ?x with _ => _ end) => destruct x
    | |- respects _ (ebind _ _) => apply respects_ebind; [apply _| |intros ?]
    | |- respects _ (_ ≫= _) => apply respects_bind; [apply _| |intros ?]
    | |- respects _ (lift _) => apply respects_lift; [apply _|]
    | |- respects _ (io_map _ _) => apply respects_io_map
    | |- respects _ _ => solve [auto with respects]
    end).

(** The result of [ensure_version_dir] is the directory itself. *)
Lemma respects_in_version_dir R {HR : forall p, PreOrder (R p)} {B} data_dir app_name version
    (f : string -> io (result StorageError B)) :
  respects R (ensure_version_dir data_dir app_name version) ->
  respects R (f (version_dir data_dir app_name version)) ->
  respects R (ebind (ensure_version_dir data_dir app_name version) f).
Proof.
  intros He Hf w. destruct (He w) as (H1 & H2 & H3).
  unfold ensure_version_dir, ebind, eret in *. destruct (lift _ w) as [[a|e] w1]; cbn in *; [|done].
  destruct (Hf w1) as (H4 & H5 & H6). split; [congruence|]. split; [lia|]. intros p. etrans; [apply H3|apply H6].
Qed.

Section Confined.
Context {SV : Semver} {SC : Serde AppCatalog} {SM : Serde VersionManifest} {SR : Serde RolloutConfig}.
Context {HI : HashIter}.
Context (root : list string).
Implicit Types d : string.

Lemma confined_write d n data : root `prefix_of` resolve (join d n) -> respects (confined root) (write (join d n) data).
Proof. intros H. apply respects_write; [apply _|by apply confined_free]. Qed.

Lemma confined_mkdir d : root `prefix_of` resolve d -> respects (confined root) (create_dir_all d).
Proof. intros H. apply respects_create_dir_all; [apply _|by apply confined_may_create]. Qed.

Lemma confined_open_create d n :
  root `prefix_of` resolve (join d n) -> respects (confined root) (open_create (join d n)).
Proof. intros H. apply respects_open_create; [apply _|by left]. Qed.

Lemma confined_rename a b :
  root `prefix_of` resolve a -> root `prefix_of` resolve b -> respects (confined root) (rename a b).
Proof. intros Ha Hb. apply respects_rename; [apply _|by apply confined_free..]. Qed.

Lemma confined_replace d n t content :
  root `prefix_of` resolve d -> json_name n t -> respects (confined root) (replace_file (join d n) content).
Proof.
  intros Hd Hn. unfold replace_file. apply respects_ebind; [apply _| |intros _].
  - apply respects_write; [apply _|]. apply confined_free. by eapply prefix_tmp.
  - apply confined_rename; [by eapply prefix_tmp|]. apply prefix_join; [done|apply Hn].
Qed.

Lemma confined_read_json_or {A} {SA : Serde A} p (x : A) : respects (confined root) (read_json_or p x).
Proof. unfold read_json_or, read_json_opt. respects_tac. Qed.

Lemma confined_read_json {A} {SA : Serde A} p : respects (confined root) (read_json (A := A) p).
Proof. unfold read_json. respects_tac. Qed.

Lemma confined_locked_update {A} {SA : Serde A} d n t (x : A) g :
  root `prefix_of` resolve d -> json_name n t -> respects (confined root) (locked_update (join d n) x g).
Proof.
  intros Hd Hn. unfold locked_update. respects_tac.
  - apply confined_open_create, prefix_join; [done|apply Hn].
  - apply confined_read_json_or.
  - by eapply confined_replace.
Qed.

Lemma confined_retain {A} (p : A -> io bool) l :
  (forall x, respects (confined root) (p x)) -> respects (confined root) (retain_io p l).
Proof. intros Hp. induction l as [|x l IH]; cbn [retain_io]; respects_tac. Qed.
End Confined.

#[global] Hint Resolve confined_read_json_or confined_read_json : respects.

Lemma plain_intro c : bool_decide (plain c) = true -> plain c.
Proof. by apply bool_decide_eq_true. Qed.

Lemma plain_binary_file p : plain (binary_file p).
Proof. apply plain_intro. by destruct p. Qed.

Lemma plain_diff_file a b p :
  (plain a \/ a = ".") -> (plain b \/ b = ".") -> plain (diff_file a b p).
Proof.
  assert (Hslash : forall c, plain c \/ c = "." -> "/"%char ∉ chars c).
  { intros c [H| ->]; [apply H|]. set_solver. }
  intros Ha%Hslash Hb%Hslash. unfold diff_file.
  assert (Hlen : (4 <= length (chars (a +:+ "-to-" +:+ b +:+ "-" +:+ platform_as_str p)))%nat).
  { rewrite !chars_app, !length_app. simpl. lia. }
  split_and!; try (intros Heq; rewrite Heq in Hlen; simpl in Hlen; lia).
  rewrite !chars_app, !not_elem_of_app. split_and!; try done; [set_solver..|]. destruct p; set_solver.
Qed.

#[global] Hint Resolve plain_binary_file plain_diff_file : deltaship.

Section Store.
Context {SV : Semver} {SC : Serde AppCatalog} {SM : Serde VersionManifest} {SR : Serde RolloutConfig}.
Context {HI : HashIter}.
Context (data_dir app_name : string).
Abbreviation root := (resolve (app_dir data_dir app_name)).

Lemma under_app c : plain c -> root `prefix_of` resolve (join (app_dir data_dir app_name) c).
Proof. intros H. by apply prefix_join. Qed.

Section Version.
Context (version : string) (Hv : plain version \/ version = ".").

Lemma under_version : root `prefix_of` resolve (version_dir data_dir app_name version).
Proof. apply prefix_join_component; [|done]. by apply under_app, plain_intro. Qed.

Lemma under_version_file c : plain c -> root `prefix_of` resolve (join (version_dir data_dir app_name version) c).
Proof. intros Hc. by apply prefix_join; [apply under_version|]. Qed.

Lemma confined_ensure_version_dir : respects (confined root) (ensure_version_dir data_dir app_name version).
Proof. unfold ensure_version_dir. respects_tac. apply confined_mkdir, under_version. Qed.
End Version.

(** The storage operations, with validated names. *)
Section Operations.
Context (Hn : validate_name app_name = Ok tt).
Context (version : string) (Hv : validate_version version = Ok tt).

Lemma under_validated : root `prefix_of` resolve (version_dir data_dir app_name version).
Proof. by apply under_version, validated_version. Qed.

Lemma under_validated_file c : plain c -> root `prefix_of` resolve (join (version_dir data_dir app_name version) c).
Proof. by apply under_version_file, validated_version. Qed.

Lemma confined_version_dir : respects (confined root) (ensure_version_dir data_dir app_name version).
Proof. by apply confined_ensure_version_dir, validated_version. Qed.

Lemma confined_in_version_dir {B} (f : string -> io (result StorageError B)) :
  respects (confined root) (f (version_dir data_dir app_name version)) ->
  respects (confined root) (ebind (ensure_version_dir data_dir app_name version) f).
Proof. apply respects_in_version_dir; [apply _|apply confined_version_dir]. Qed.

Lemma confined_diffs_dir : respects (confined root) (ensure_diffs_dir data_dir app_name).
Proof. unfold ensure_diffs_dir. respects_tac. by apply confined_mkdir, under_app, plain_intro. Qed.

Lemma confined_app_dirs : respects (confined root) (ensure_app_dirs data_dir app_name).
Proof. unfold ensure_app_dirs. respects_tac; by apply confined_mkdir, under_app, plain_intro. Qed.
#[local] Hint Resolve confined_diffs_dir confined_app_dirs confined_version_dir : respects.

Lemma confined_save_binary platform data : respects (confined root) (save_binary data_dir app_name version platform data).
Proof. apply confined_in_version_dir. respects_tac. apply confined_write, under_validated_file, plain_binary_file. Qed.

Lemma confined_save_binary_from_temp platform temp :
  root `prefix_of` resolve temp -> respects (confined root) (save_binary_from_temp data_dir app_name version platform temp).
Proof.
  intros Ht. apply confined_in_version_dir. respects_tac.
  apply confined_rename; [done|]. apply under_validated_file, plain_binary_file.
Qed.

Lemma confined_save_signature data : respects (confined root) (save_signature data_dir app_name version data).
Proof. apply confined_in_version_dir. respects_tac. by apply confined_write, under_validated_file, plain_intro. Qed.

Lemma under_diff version' platform :
  validate_version version' = Ok tt ->
  root `prefix_of` resolve (join (diffs_dir data_dir app_name) (diff_file version' version platform)).
Proof.
  intros Hv'. apply prefix_join; [by apply under_app, plain_intro|]. apply plain_diff_file; by apply validated_version.
Qed.

Lemma confined_save_diff version' platform data :
  validate_version version' = Ok tt ->
  respects (confined root) (save_diff data_dir app_name version' version platform data).
Proof. intros Hv'. unfold save_diff. respects_tac. by apply confined_write, under_diff. Qed.

Lemma confined_save_diff_from_temp version' platform temp :
  validate_version version' = Ok tt -> root `prefix_of` resolve temp ->
  respects (confined root) (save_diff_from_temp data_dir app_name version' version platform temp).
Proof. intros Hv' Ht. unfold save_diff_from_temp. respects_tac. apply confined_rename; [done|by apply under_diff]. Qed.

Lemma confined_catalog_file c : respects (confined root) (replace_file (catalog_path data_dir app_name) c).
Proof. by eapply confined_replace, catalog_json. Qed.

Lemma confined_manifest_file c : respects (confined root) (replace_file (manifest_path data_dir app_name version) c).
Proof. eapply confined_replace, manifest_json. apply under_validated. Qed.
#[local] Hint Resolve confined_catalog_file confined_manifest_file : respects.

Lemma confined_update_catalog info : respects (confined root) (update_catalog data_dir app_name info).
Proof. unfold update_catalog. respects_tac. by apply confined_write, under_app, plain_intro. Qed.

Lemma confined_update_catalog_atomic info : respects (confined root) (update_catalog_atomic data_dir app_name info).
Proof. unfold update_catalog_atomic. respects_tac. by eapply confined_locked_update, catalog_json. Qed.

Lemma confined_update_manifest platform checksum size :
  respects (confined root) (update_manifest data_dir app_name version platform checksum size).
Proof.
  apply confined_in_version_dir. respects_tac.
  - by apply confined_open_create, under_validated_file, plain_intro.
  - unfold manifest_or_new, read_json_opt. respects_tac.
Qed.

Lemma confined_set_latest : respects (confined root) (set_latest_version data_dir app_name version).
Proof. unfold set_latest_version. respects_tac. Qed.

Lemma confined_add_diff platform di : respects (confined root) (add_diff_to_manifest data_dir app_name version platform di).
Proof. unfold add_diff_to_manifest. respects_tac. Qed.

Lemma confined_set_rollout cfg : respects (confined root) (set_rollout_config data_dir app_name version cfg).
Proof.
  unfold set_rollout_config. respects_tac.
  - by apply confined_open_create, under_validated_file, plain_intro.
  - eapply confined_replace, rollout_json. apply under_validated.
Qed.

Lemma confined_update_rollout g : respects (confined root) (update_rollout_config_atomic data_dir app_name version g).
Proof.
  unfold update_rollout_config_atomic. respects_tac. eapply confined_locked_update, rollout_json. apply under_validated.
Qed.

Lemma confined_delete_version : respects (confined root) (delete_version data_dir app_name version).
Proof.
  unfold delete_version, next_latest. respects_tac.
  - by apply confined_write, under_validated_file, plain_intro.
  - apply confined_retain. intros v. respects_tac.
Qed.

Lemma app_below_apps : resolve data_dir ++ ["apps"] `prefix_of` root.
Proof.
  unfold app_dir. apply prefix_join_component; [|by apply validated_name].
  rewrite resolve_join_plain by (by apply plain_intro). done.
Qed.
End Operations.
#[local] Hint Resolve confined_save_binary confined_save_binary_from_temp confined_save_signature confined_save_diff
  confined_save_diff_from_temp confined_update_catalog confined_update_catalog_atomic confined_update_manifest
  confined_set_latest confined_add_diff confined_set_rollout confined_update_rollout confined_delete_version
  app_below_apps : confined.

(** Path confinement: with a validated application name and validated
    version strings, and uploads staged below the application's directory, every
    storage operation that changes the disk, whatever calls fail, leaves everything outside the application's directory
    [data_dir/apps/<app>] as it was, missing ancestors of it apart. *)
Theorem store_confined version version' platform data checksum size info di cfg g temp :
  validate_name app_name = Ok tt -> validate_version version = Ok tt -> validate_version version' = Ok tt ->
  root `prefix_of` resolve temp ->
  resolve data_dir ++ ["apps"] `prefix_of` root /\
  respects (confined root) (save_binary data_dir app_name version platform data) /\
  respects (confined root) (save_binary_from_temp data_dir app_name version platform temp) /\
  respects (confined root) (save_signature data_dir app_name version data) /\
  respects (confined root) (save_diff data_dir app_name version' version platform data) /\
  respects (confined root) (save_diff_from_temp data_dir app_name version' version platform temp) /\
  respects (confined root) (update_catalog data_dir app_name info) /\
  respects (confined root) (update_catalog_atomic data_dir app_name info) /\
  respects (confined root) (update_manifest data_dir app_name version platform checksum size) /\
  respects (confined root) (set_latest_version data_dir app_name version) /\
  respects (confined root) (add_diff_to_manifest data_dir app_name version platform di) /\
  respects (confined root) (set_rollout_config data_dir app_name version cfg) /\
  respects (confined root) (update_rollout_config_atomic data_dir app_name version g) /\
  respects (confined root) (delete_version data_dir app_name version).
Proof. intros Hn Hv Hv' Ht. split_and!; auto with confined. Qed.
End Store.

#[global] Hint Resolve confined_version_dir confined_diffs_dir confined_save_binary_from_temp confined_save_signature
  confined_save_diff_from_temp confined_update_catalog_atomic confined_update_manifest confined_set_latest
  confined_add_diff confined_update_rollout confined_delete_version : confined.
