(* ===== verification/Instances.v ===== *)
(** * Instances: a concrete store

    An executable instance of every parameter of the server model (semantic
    versions from [SemverRef], a textual encoding that satisfies the laws asked
    of [serde_json]), on which the theorems are applied to concrete worlds. *)

From S2P Require Import Prelude Text Version SemverRef Core Validation RateLimit Fs Catalog Storage StorageFacts Confinement.

#[local] Open Scope Z_scope.

(** ** A textual encoding for every countable type *)

Fixpoint bits (p : positive) : string :=
  match p with
  | xH => "1"
  | xO p => String "o" (bits p)
  | xI p => String "i" (bits p)
  end.

Fixpoint of_bits (s : string) : option positive :=
  match s with
  | String "1" EmptyString => Some xH
  | String "o" s => xO <$> of_bits s
  | String "i" s => xI <$> of_bits s
  | _ => None
  end.

Lemma of_bits_bits p : of_bits (bits p) = Some p.
Proof. induction p; simpl; by rewrite ?IHp. Qed.

Lemma bits_utf8 p : is_utf8 (bits p).
Proof.
  unfold is_utf8. apply utf8_valid_ascii.
  induction p as [p IH|p IH|]; simpl; repeat constructor; exact IH.
Qed.

#[global] Instance serde_countable `{Countable A} : Serde A :=
  {| to_json x := bits (encode x); from_json s := of_bits s ≫= decode |}.

#[global] Instance serde_countable_laws `{Countable A} : SerdeLaws A.
Proof.
  split; cbn.
  - intros x. rewrite of_bits_bits. cbn. apply decode_encode.
  - intros x. apply bits_utf8.
  - done.
Qed.

(** ** Countability of the stored types *)

#[global] Instance sv_countable `{Countable P, Countable B} : Countable (sv_version P B).
Proof.
  by apply (inj_countable' (fun v => (sv_major v, sv_minor v, sv_patch v, sv_pre v, sv_build v))
    (fun '(a, b, c, p, m) => SvVersion a b c p m)); intros [].
Defined.

#[global] Instance RolloutConfig_eq_dec : EqDecision RolloutConfig.
Proof. solve_decision. Defined.
#[global] Instance RolloutConfig_countable : Countable RolloutConfig :=
  inj_countable' (fun r => (rc_percentage r, rc_enabled r, rc_started_at r, rc_completed_at r))
    (fun '(a, b, c, d) => Build_RolloutConfig a b c d) ltac:(by intros []).

#[global] Instance sig_bool_countable (f : string -> bool) : Countable { s : string | f s = true } :=
  inj_countable proj1_sig (mk_sig f) (mk_sig_proj f).

#[global] Instance prerelease_countable : Countable Prerelease := sig_bool_countable valid_pre.
#[global] Instance build_countable : Countable BuildMetadata := sig_bool_countable valid_build.
#[global] Instance version_countable : Countable Version := sv_countable.

#[global] Instance VersionInfo_eq_dec : EqDecision VersionInfo.
Proof. solve_decision. Defined.
#[global] Instance VersionInfo_countable : Countable VersionInfo :=
  inj_countable' (fun v => (vi_version v, vi_platforms v, vi_release_notes v, vi_forced v, vi_rollout v))
    (fun '(a, b, c, d, e) => Build_VersionInfo a b c d e) ltac:(by intros []).

#[global] Instance AppCatalog_eq_dec : EqDecision AppCatalog.
Proof. solve_decision. Defined.
#[global] Instance AppCatalog_countable : Countable AppCatalog :=
  inj_countable' (fun c => (cat_app_name c, cat_versions c, cat_latest_version c))
    (fun '(a, b, c) => Build_AppCatalog a b c) ltac:(by intros []).

#[global] Instance DiffInfo_eq_dec : EqDecision DiffInfo.
Proof. solve_decision. Defined.
#[global] Instance DiffInfo_countable : Countable DiffInfo :=
  inj_countable' (fun d => (di_from_version d, di_checksum d, di_size d, di_algorithm d))
    (fun '(a, b, c, d) => Build_DiffInfo a b c d) ltac:(by intros []).

#[global] Instance PlatformArtifact_eq_dec : EqDecision PlatformArtifact.
Proof. solve_decision. Defined.
#[global] Instance PlatformArtifact_countable : Countable PlatformArtifact :=
  inj_countable' (fun a => (pa_checksum a, pa_size a, pa_diffs_from a))
    (fun '(a, b, c) => Build_PlatformArtifact a b c) ltac:(by intros []).

#[global] Instance VersionManifest_eq_dec : EqDecision VersionManifest.
Proof. solve_decision. Defined.
#[global] Instance VersionManifest_countable : Countable VersionManifest :=
  inj_countable' (fun m => (vm_version m, vm_platforms m))
    (fun '(a, b) => Build_VersionManifest a b) ltac:(by intros []).

(** ** A concrete world *)

Definition info (v : string) (ps : list Platform) : VersionInfo :=
  {| vi_version := ver v; vi_platforms := ps; vi_release_notes := None; vi_forced := false;
     vi_rollout := None |}.

Definition no_faults : nat -> option nat := fun _ => None.
Definition empty_world : world := {| files := ∅; faults := no_faults; tick := 0 |}.

(** The world after publishing some versions of application "app" on "/srv". *)
Definition published (vs : list string) : world :=
  foldl (fun w v => (update_catalog_atomic "/srv" "app" (info v [LinuxX86_64]) w).2) empty_world vs.

Example published_catalog :
  (fun c => (version_to_string (cat_latest_version c),
             (fun e => version_to_string (vi_version e)) <$> cat_versions c)) <$>
    (get_app_catalog "/srv" "app" (published ["1.0.0"; "10.0.0"; "2.0.0"])).1 =
  Some ("10.0.0", ["10.0.0"; "2.0.0"; "1.0.0"]).
Proof. vm_compute. reflexivity. Qed.

(** ** Applications of the store theorems *)

(** The same tree with calls failing from the [k]-th on. *)
Definition crash_at (k : nat) (w : world) : world :=
  {| files := files w; faults := fun n => if bool_decide (n < k)%nat then None else Some 0%nat; tick := 0 |}.

Lemma crash_at_schedule k w : crash_schedule (crash_at k w).
Proof. intros m n Hmn. cbn. repeat case_bool_decide; [by intros []|eauto|lia|eauto]. Qed.

Definition catalog_of (vs : list string) : AppCatalog :=
  foldl apply_version (default_catalog "app" (info (default "" (head vs)) [LinuxX86_64]))
        ((fun v => info v [LinuxX86_64]) <$> vs).

Lemma published_stored :
  stored (files (published ["1.0.0"])) (resolve (catalog_path "/srv" "app")) (catalog_of ["1.0.0"]).
Proof.
  split; [vm_compute; congruence|].
  apply (bool_decide_unpack _). vm_compute. exact I.
Qed.

Lemma catalog_update_crash_safe_witness :
  exists r w', update_catalog_atomic "/srv" "app" (info "2.0.0" [LinuxX86_64])
                 (crash_at 7 (published ["1.0.0"])) = (r, w') /\
    (r = Ok tt /\ stored (files w') (resolve (catalog_path "/srv" "app"))
                    (apply_version (catalog_of ["1.0.0"]) (info "2.0.0" [LinuxX86_64])) \/
     (exists e, r = Err e) /\ stored (files w') (resolve (catalog_path "/srv" "app")) (catalog_of ["1.0.0"])).
Proof.
  apply (catalog_update_crash_safe "/srv" "app" (info "2.0.0" [LinuxX86_64]) (catalog_of ["1.0.0"])
           (crash_at 7 (published ["1.0.0"])) (crash_at_schedule 7 _) published_stored).
Defined.

Lemma clear_way_empty p : clear_way ∅ p.
Proof. intros d c _. unfold node_at. case_bool_decide; by rewrite ?lookup_empty. Qed.

Lemma catalog_update_read_back_witness :
  exists w', update_catalog_atomic "/srv" "app" (info "2.0.0" [LinuxX86_64]) empty_world = (Ok tt, w') /\
    (get_app_catalog "/srv" "app" w').1 =
    Some (apply_version (default (default_catalog "app" (info "2.0.0" [LinuxX86_64]))
                                 (get_app_catalog "/srv" "app" empty_world).1)
                        (info "2.0.0" [LinuxX86_64])).
Proof.
  apply (catalog_update_read_back "/srv" "app" (info "2.0.0" [LinuxX86_64]) empty_world); [done|].
  split; [apply clear_way_empty|]. split; [apply clear_way_empty|]. split; vm_compute; congruence.
Defined.

Lemma store_confined_witness :
  respects (confined (resolve (app_dir "/srv" "app"))) (delete_version "/srv" "app" "1.0.0").
Proof.
  eapply (store_confined "/srv" "app" "1.0.0" "0.9.0" LinuxX86_64 [] "" 0 (info "1.0.0" [])
            {| di_from_version := ver "0.9.0"; di_checksum := ""; di_size := 0; di_algorithm := "bsdiff" |}
            rollout_default id "/srv/apps/app/.upload"); [vm_compute; reflexivity..|].
  exists [".upload"]. vm_compute. reflexivity.
Defined.

Lemma publish_run_spec_witness :
  let infos := [info "1.0.0" [LinuxX86_64]; info "1.0.0-rc.1" [LinuxX86_64]; info "2.0.0" [LinuxX86_64]] in
  let c := foldl apply_version (default_catalog "app" (info "1.0.0" [LinuxX86_64])) infos in
  catalog_wf c /\ Exists (fun e => vi_version e = cat_latest_version c) infos.
Proof.
  destruct (publish_run_spec "app" (info "1.0.0" [LinuxX86_64])
              [info "1.0.0-rc.1" [LinuxX86_64]; info "2.0.0" [LinuxX86_64]]) as (Hw & _ & _ & _ & Hex).
  - repeat constructor; set_solver.
  - exact (conj Hw Hex).
Defined.

Lemma sorted_example : sorted_catalog (cat_versions (catalog_of ["1.0.0"; "3.0.0"; "2.0.0"])).
Proof. repeat constructor. Qed.

Lemma apply_version_lookup_witness :
  vi_platforms <$> find_version (ver "3.0.0") (apply_version (catalog_of ["1.0.0"; "3.0.0"; "2.0.0"]) (info "3.0.0+b" [MacosX86_64]))
  = Some [LinuxX86_64; MacosX86_64].
Proof.
  rewrite (apply_version_lookup (catalog_of ["1.0.0"; "3.0.0"; "2.0.0"]) (info "3.0.0+b" [MacosX86_64]) (ver "3.0.0") sorted_example).
  vm_compute. reflexivity.
Defined.

Lemma catalog_search_position_witness :
  binary_search_by (fun e => version_cmp (ver "2.5.0") (vi_version e)) (cat_versions (catalog_of ["1.0.0"; "3.0.0"; "2.0.0"])) =
  inr (length (filter (fun e => version_cmp (ver "2.5.0") (vi_version e) = Lt) (cat_versions (catalog_of ["1.0.0"; "3.0.0"; "2.0.0"])))).
Proof.
  apply (catalog_search_position (ver "2.5.0") _ sorted_example). repeat constructor.
Defined.

(** ** Behaviours of concrete stores *)

Definition versions_of (w : world) : option (string * list string) :=
  (fun c => (version_to_string (cat_latest_version c), (fun e => version_to_string (vi_version e)) <$> cat_versions c))
  <$> (get_app_catalog "/srv" "app" w).1.

(** One failing call: the [k]-th from now. *)
Definition one_fault (k : nat) (w : world) : world :=
  {| files := files w; faults := fun n => if bool_decide (n = k) then Some 0%nat else None; tick := 0 |}.

(** A transient read error loses the catalog: when the one call that fails
    is the read of an intact [catalog.json], [update_catalog_atomic] reports
    success and replaces the catalog by one that holds only the version being
    published. *)
Theorem catalog_lost_on_read_error :
  versions_of (published ["1.0.0"; "2.0.0"]) = Some ("2.0.0", ["2.0.0"; "1.0.0"]) /\
  let out := update_catalog_atomic "/srv" "app" (info "3.0.0" [LinuxX86_64])
               (one_fault 5 (published ["1.0.0"; "2.0.0"])) in
  out.1 = Ok tt /\ versions_of {| files := files out.2; faults := no_faults; tick := 0 |} = Some ("3.0.0", ["3.0.0"]).
Proof. cbv zeta. split_and!; vm_compute; reflexivity. Qed.

(** Deleting the latest version elects its successor by comparing version
    strings byte by byte: with 9.0.0 and 10.0.0 left, 9.0.0 becomes the latest
    version although 10.0.0 is available and newer. *)
Theorem delete_elects_by_string_order :
  let w := foldl (fun w v => (ensure_version_dir "/srv" "app" v w).2)
             (published ["9.0.0"; "10.0.0"; "11.0.0"]) ["9.0.0"; "10.0.0"; "11.0.0"] in
  let out := delete_version "/srv" "app" "11.0.0" w in
  out.1 = Ok tt /\ versions_of out.2 = Some ("9.0.0", ["11.0.0"; "10.0.0"; "9.0.0"]) /\
  version_cmp (ver "10.0.0") (ver "9.0.0") = Gt.
Proof. cbv zeta. split_and!; vm_compute; reflexivity. Qed.
