(* ===== verification/Locking.v ===== *)
(** * Locking: concurrent read-modify-write of one JSON file

    The critical sections of [deltaship-server/src/storage.rs] as the threads
    of a transition system: the per-application mutex, the advisory lock on the
    inode that was open, the read through the path, the shared temporary file
    and the rename that puts a new inode at the path, each call failing or not
    as the schedule says; the cancellation of a request, which drops the guard
    of the mutex and leaves the blocking task running; and the table of
    mutexes, [get_catalog_mutex]. *)

From S2P Require Import Prelude Text Version SemverRef Core Validation RateLimit Fs Catalog Storage StorageFacts Instances.

#[local] Open Scope nat_scope.

(** ** Threads *)

Section System.
Context {A : Type}.

(** A request: whether it goes through the mutex, whether it creates a missing
    file when it opens it, what it starts from when the file cannot be read or
    parsed ([None]: it returns the error), and what it makes of the value. *)
Record job := { uses_mutex : bool; creates : bool; fallback : option A; update : A -> A }.

(** Where a request is; [i] is the inode of the file handle it opened, and
    [fell_back] says that it did not start from the contents of the file. *)
Inductive pc :=
| Idle
| Entered
| Opened (i : nat)
| Holding (i : nat)
| Loaded (i : nat) (v : A) (fell_back : bool)
| Staged (i : nat) (fell_back : bool)
| Leaving (i : nat) (ok : bool)
| Unlocked (ok : bool)
| Finished (ok : bool).

(** A file: its inode and the value its contents parse to. *)
Definition file_at : Type := nat * option A.

Record shared := {
  mutex : option nat;            (** the request that holds the mutex *)
  target : option file_at;       (** the file at the path *)
  tmp : option file_at;          (** the temporary file *)
  flocks : gmap nat nat;         (** the holder of the advisory lock of an inode *)
  fresh : nat;
  pcs : gmap nat pc;
  log : list (nat * bool);       (** the requests that renamed, in order; whether they fell back *)
  misread : list nat;            (** the requests whose read of the file failed *)
}.

(** What reading and parsing the path yields. *)
Definition contents (s : shared) : option A := target s ≫= snd.

Definition pc_of (s : shared) (t : nat) : pc := default Idle (pcs s !! t).

Definition set_pc (t : nat) (p : pc) (s : shared) : shared :=
  {| mutex := mutex s; target := target s; tmp := tmp s; flocks := flocks s; fresh := fresh s;
     pcs := <[t := p]> (pcs s); log := log s; misread := misread s |}.
Definition set_mutex (o : option nat) (s : shared) : shared :=
  {| mutex := o; target := target s; tmp := tmp s; flocks := flocks s; fresh := fresh s;
     pcs := pcs s; log := log s; misread := misread s |}.
Definition set_flocks (f : gmap nat nat -> gmap nat nat) (s : shared) : shared :=
  {| mutex := mutex s; target := target s; tmp := tmp s; flocks := f (flocks s); fresh := fresh s;
     pcs := pcs s; log := log s; misread := misread s |}.
Definition add_misread (t : nat) (s : shared) : shared :=
  {| mutex := mutex s; target := target s; tmp := tmp s; flocks := flocks s; fresh := fresh s;
     pcs := pcs s; log := log s; misread := t :: misread s |}.
(** [OpenOptions::create]: an empty file, which does not parse. *)
Definition create_empty (s : shared) : shared :=
  {| mutex := mutex s; target := Some (fresh s, None); tmp := tmp s; flocks := flocks s; fresh := S (fresh s);
     pcs := pcs s; log := log s; misread := misread s |}.
(** [fs::write] of the temporary path: a new inode unless the file is there;
    [None] is a write that failed after the file was opened and truncated. *)
Definition stage (v : option A) (s : shared) : shared :=
  {| mutex := mutex s; target := target s;
     tmp := Some (match tmp s with Some (i, _) => i | None => fresh s end, v); flocks := flocks s;
     fresh := match tmp s with Some _ => fresh s | None => S (fresh s) end;
     pcs := pcs s; log := log s; misread := misread s |}.
(** [fs::rename] over the path. *)
Definition publish_tmp (t : nat) (fell_back : bool) (f : file_at) (s : shared) : shared :=
  {| mutex := mutex s; target := Some f; tmp := None; flocks := flocks s; fresh := fresh s;
     pcs := pcs s; log := log s ++ [(t, fell_back)]; misread := misread s |}.
(** The guard of the mutex is dropped, if the request still has it. *)
Definition release (t : nat) (s : shared) : shared :=
  if bool_decide (mutex s = Some t) then set_mutex None s else s.

(** How the call a request is about to make ends: it succeeds, it fails
    without effect, or (the write) it fails half-way. *)
Inductive call_outcome := Succeeds | Fails | FailsHalfway.

(** A request makes its next call, or the future that waits for it is dropped:
    the guard of the mutex goes with it, the blocking task runs on. *)
Inductive event := Move (t : nat) (o : call_outcome) | Cancel (t : nat).

#[global] Instance call_outcome_eq_dec : EqDecision call_outcome.
Proof. solve_decision. Defined.

Section Jobs.
Context (jobs : nat -> job).

(** The next call of request [t]; [None] when it waits or is done. *)
Definition move (t : nat) (o : call_outcome) (s : shared) : option shared :=
  match pc_of s t, o with
  | Idle, Succeeds =>
      if uses_mutex (jobs t) then
        match mutex s with
        | None => Some (set_pc t Entered (set_mutex (Some t) s))
        | Some _ => None
        end
      else Some (set_pc t Entered s)
  | Idle, _ => Some (set_pc t (Finished false) s)
  | Entered, Succeeds =>
      match target s with
      | Some (i, _) => Some (set_pc t (Opened i) s)
      | None => if creates (jobs t) then Some (set_pc t (Opened (fresh s)) (create_empty s))
                else Some (set_pc t (Unlocked false) s)
      end
  | Entered, _ => Some (set_pc t (Unlocked false) s)
  | Opened i, Succeeds =>
      match flocks s !! i with
      | None => Some (set_pc t (Holding i) (set_flocks <[i := t]> s))
      | Some _ => None
      end
  | Opened i, _ => Some (set_pc t (Unlocked false) s)
  | Holding i, _ =>
      match (if decide (o = Succeeds) then contents s else None) with
      | Some v => Some (set_pc t (Loaded i v false) s)
      | None =>
          let s1 := if decide (o = Succeeds) then s else add_misread t s in
          match fallback (jobs t) with
          | Some v => Some (set_pc t (Loaded i v true) s1)
          | None => Some (set_pc t (Leaving i false) s1)
          end
      end
  | Loaded i v fb, Succeeds => Some (set_pc t (Staged i fb) (stage (Some (update (jobs t) v)) s))
  | Loaded i v fb, Fails => Some (set_pc t (Leaving i false) s)
  | Loaded i v fb, FailsHalfway => Some (set_pc t (Leaving i false) (stage None s))
  | Staged i fb, Succeeds =>
      match tmp s with
      | Some f => Some (set_pc t (Leaving i true) (publish_tmp t fb f s))
      | None => Some (set_pc t (Leaving i false) s)
      end
  | Staged i fb, _ => Some (set_pc t (Leaving i false) s)
  | Leaving i ok, _ => Some (set_pc t (Unlocked ok) (set_flocks (delete i) s))
  | Unlocked ok, _ => Some (set_pc t (Finished ok) (release t s))
  | Finished _, _ => None
  end.

Definition cancel (t : nat) (s : shared) : option shared :=
  match pc_of s t with
  | Idle => Some (set_pc t (Finished false) s)
  | Finished _ => None
  | _ => Some (release t s)
  end.

Definition step (e : event) (s : shared) : option shared :=
  match e with Move t o => move t o s | Cancel t => cancel t s end.

(** A schedule: the events in the order in which they happen. *)
Definition run (es : list event) (s : shared) : option shared :=
  foldl (fun o e => o ≫= step e) (Some s) es.

Definition initial (f : option A) : shared :=
  {| mutex := None; target := (fun v => (0, Some v)) <$> f; tmp := None; flocks := ∅; fresh := 1;
     pcs := ∅; log := []; misread := [] |}.

(** What one request does to the contents of the file. *)
Definition apply_entry (v : option A) (e : nat * bool) : option A :=
  update (jobs e.1) <$> (if e.2 then fallback (jobs e.1) else v).

(** ** Invariant of the requests that all go through the mutex *)

Definition active (p : pc) : Prop := match p with Idle | Finished _ => False | _ => True end.
Definition locked (i : nat) (p : pc) : Prop :=
  match p with Holding j | Loaded j _ _ | Staged j _ | Leaving j _ => i = j | _ => False end.
Definition through (p : pc) : Prop :=
  match p with Leaving _ ok | Unlocked ok | Finished ok => ok = true | _ => False end.

(** A request falls back only when its read failed or nothing was there. *)
Definition excused (s : shared) (t : nat) (fb : bool) : Prop :=
  fb = true -> t ∈ misread s \/ contents s = None.

(** What the program counter of a request says about the shared state. *)
Definition pc_ok (s : shared) (t : nat) : Prop :=
  match pc_of s t with
  | Loaded _ v fb => apply_entry (contents s) (t, fb) = Some (update (jobs t) v) /\ excused s t fb
  | Staged _ fb => (exists i w, tmp s = Some (i, Some w) /\ apply_entry (contents s) (t, fb) = Some w) /\ excused s t fb
  | _ => True
  end.

Record inv (v0 : option A) (s : shared) : Prop := {
  inv_mutex : forall t, active (pc_of s t) -> mutex s = Some t;
  inv_holder : forall t, mutex s = Some t -> active (pc_of s t);
  inv_value : contents s = foldl apply_entry v0 (log s);
  inv_none : contents s = None -> v0 = None;
  inv_fell_back : forall t, (t, true) ∈ log s -> t ∈ misread s \/ v0 = None;
  inv_pc : forall t, pc_ok s t;
  inv_flocks : forall i t, flocks s !! i = Some t -> locked i (pc_of s t);
  inv_log : forall t, t ∈ (log s).*1 <-> through (pc_of s t);
  inv_nodup : NoDup (log s).*1;
}.

Lemma pc_of_set t p s u : pc_of (set_pc t p s) u = if bool_decide (u = t) then p else pc_of s u.
Proof.
  unfold pc_of, set_pc. cbn. case_bool_decide; subst; [by rewrite lookup_insert_eq|by rewrite lookup_insert_ne].
Qed.

Lemma locked_active i p : locked i p -> active p.
Proof. by destruct p. Qed.

Context (Hmutex : forall t, uses_mutex (jobs t) = true).

Lemma inv_initial v : inv v (initial v).
Proof.
  assert (Hc : contents (initial v) = v) by (by destruct v).
  split; rewrite ?Hc; try done; unfold pc_ok, pc_of; cbn; intros *; rewrite ?lookup_empty; cbn; try done.
  - by intros ?%not_elem_of_nil.
  - split; [by intros ?%not_elem_of_nil|done].
  - constructor.
Qed.

(** Everyone else is out while [t] moves. *)
Lemma others_out v0 t s u :
  inv v0 s -> (mutex s = Some t \/ mutex s = None) -> u <> t -> ~ active (pc_of s u).
Proof. intros Hi Hm Hu Ha. apply (inv_mutex _ _ Hi) in Ha. destruct Hm; congruence. Qed.

(** A move of [t] that does not rename: it preserves the invariant when it
    does so for [t]. *)
Lemma inv_move v0 t s s' :
  inv v0 s -> (mutex s = Some t \/ mutex s = None) -> (forall u, u <> t -> pc_of s' u = pc_of s u) ->
  (active (pc_of s' t) /\ mutex s' = Some t \/ ~ active (pc_of s' t) /\ mutex s' = None) ->
  pc_ok s' t -> (forall u, u ∈ misread s -> u ∈ misread s') ->
  (forall i u, flocks s' !! i = Some u -> u = t /\ locked i (pc_of s' t)) ->
  (log s' = log s /\ contents s' = contents s /\ (through (pc_of s' t) <-> through (pc_of s t)) \/
   exists fb, log s' = log s ++ [(t, fb)] /\ contents s' = apply_entry (contents s) (t, fb) /\
     is_Some (contents s') /\ excused s t fb /\ through (pc_of s' t) /\ ~ through (pc_of s t)) ->
  inv v0 s'.
Proof.
  intros Hi Hm Hpcs Hmx Hok Hmis Hfl Hlog.
  assert (Hout : forall u, u <> t -> ~ active (pc_of s' u)).
  { intros u Hu. rewrite Hpcs by done. by eapply others_out. }
  split; try done.
  - intros u Ha. destruct (decide (u = t)) as [->|Hu]; [|by destruct (Hout u Hu)]. destruct Hmx as [[_ ?]|[? _]]; done.
  - intros u Hu. destruct Hmx as [[? H]|[_ H]]; [|congruence]. by assert (u = t) as -> by congruence.
  - destruct Hlog as [(-> & -> & _)|(fb & -> & -> & _)]; [apply Hi|]. by rewrite foldl_app, <- (inv_value _ _ Hi).
  - destruct Hlog as [(_ & -> & _)|(fb & _ & _ & [? ->] & _)]; [apply Hi|done].
  - intros u. destruct Hlog as [(-> & _)|(fb & -> & _ & _ & He & _)]; [intros [?|?]%(inv_fell_back _ _ Hi); auto|].
    intros [[?|?]%(inv_fell_back _ _ Hi)|[= -> <-]%list_elem_of_singleton]%elem_of_app; auto.
    destruct (He eq_refl) as [?|?%(inv_none _ _ Hi)]; auto.
  - intros u. destruct (decide (u = t)) as [->|Hu]; [done|]. specialize (Hout u Hu). unfold pc_ok.
    by destruct (pc_of s' u).
  - intros i u Hl. by destruct (Hfl i u Hl) as [-> ?].
  - intros u. pose proof (inv_log _ _ Hi u) as Hu. destruct Hlog as [(-> & _ & Ht)|(fb & -> & _ & _ & _ & Ht & _)].
    + destruct (decide (u = t)) as [->|Hne]; [by rewrite Hu|by rewrite Hpcs].
    + rewrite fmap_app, elem_of_app. cbn. rewrite list_elem_of_singleton.
      destruct (decide (u = t)) as [->|Hne]; [tauto|]. rewrite Hpcs by done. tauto.
  - destruct Hlog as [(-> & _)|(fb & -> & _ & _ & _ & _ & Hn)]; [apply Hi|]. rewrite fmap_app. apply NoDup_app.
    split; [apply Hi|]. split; [|apply NoDup_singleton]. cbn. intros u Hin ->%list_elem_of_singleton.
    apply Hn. by apply (inv_log _ _ Hi).
Qed.

(** Advisory locks are held by [t] only, in the place its counter says. *)
Lemma flock_holder v0 t s i u :
  inv v0 s -> (mutex s = Some t \/ mutex s = None) -> flocks s !! i = Some u -> u = t /\ locked i (pc_of s t).
Proof.
  intros Hi Hm Hl. apply (inv_flocks _ _ Hi) in Hl. destruct (decide (u = t)) as [->|Hne]; [done|].
  by destruct (others_out _ _ _ _ Hi Hm Hne (locked_active _ _ Hl)).
Qed.

(** A request that can move holds the mutex, or is about to take it. *)
Lemma mover_alone v0 t o s s' : inv v0 s -> move t o s = Some s' -> pc_of s t <> Idle -> mutex s = Some t.
Proof.
  intros Hi Hs Hidle. apply (inv_mutex _ _ Hi). unfold move in Hs. by destruct (pc_of s t).
Qed.

(** A request that gives up before it has the mutex changes nothing shared. *)
Lemma inv_give_up v0 t s : inv v0 s -> pc_of s t = Idle -> inv v0 (set_pc t (Finished false) s).
Proof.
  intros Hi E. assert (Hpc : forall u, active (pc_of (set_pc t (Finished false) s) u) <-> active (pc_of s u)).
  { intros u. rewrite pc_of_set. case_bool_decide; [|done]. subst. by rewrite E. }
  split; try apply Hi.
  - intros u Ha%Hpc. by apply (inv_mutex _ _ Hi).
  - intros u Hu. by apply Hpc, (inv_holder _ _ Hi).
  - intros u. pose proof (inv_pc _ _ Hi u) as Hu. unfold pc_ok in *. rewrite pc_of_set. by case_bool_decide.
  - intros i u Hl. apply (inv_flocks _ _ Hi) in Hl. rewrite pc_of_set. case_bool_decide; [|done]. subst. by rewrite E in Hl.
  - intros u. cbn [log set_pc]. rewrite (inv_log _ _ Hi u), pc_of_set. case_bool_decide; [|done]. subst. by rewrite E.
Qed.

Lemma release_holder t s : mutex s = Some t -> release t s = set_mutex None s.
Proof. intros Hm. unfold release. by rewrite bool_decide_eq_true_2. Qed.

Lemma fell_back_entry t v o : fallback (jobs t) = Some v -> apply_entry o (t, true) = Some (update (jobs t) v).
Proof. intros Hf. unfold apply_entry. cbn [fst snd]. by rewrite Hf. Qed.

Lemma inv_step v0 t o s s' : inv v0 s -> move t o s = Some s' -> inv v0 s'.
Proof.
  intros Hi Hs. assert (Hgo : pc_of s t = Idle /\ o <> Succeeds \/ mutex s = Some t \/ mutex s = None).
  { unfold move in Hs. pose proof (inv_mutex _ _ Hi t) as Ha. destruct (pc_of s t) eqn:E; [|right; left; by apply Ha..|done].
    destruct o; [|by left..]. rewrite Hmutex in Hs. destruct (mutex s); [done|auto]. }
  destruct Hgo as [[E Ho]|Hm].
  { unfold move in Hs. rewrite E in Hs. destruct o; [done|..]; simplify_eq; by apply inv_give_up. }
  pose proof (inv_pc _ _ Hi t) as Hp. unfold pc_ok in Hp.
  assert (Hact : active (pc_of s t) -> mutex s = Some t) by apply (inv_mutex _ _ Hi).
  pose proof (fun i u => flock_holder v0 t s i u Hi Hm) as Hfl.
  assert (Hself : forall p s1, pc_of (set_pc t p s1) t = p) by (intros; by rewrite pc_of_set, bool_decide_eq_true_2).
  unfold move in Hs.
  destruct (pc_of s t) as [| |i|i|i v fb|i fb|i ok|ok|ok] eqn:E, o; rewrite ?Hmutex in Hs; cbn [decide] in Hs;
    repeat case_match; simplify_eq;
    try (apply inv_give_up; done);
    try rewrite (release_holder t s) by (by apply Hact);
    (apply (inv_move v0 t s _ Hi); [by auto|..]);
    try (intros u Hu; rewrite pc_of_set, bool_decide_eq_false_2; done);
    unfold pc_ok; rewrite ?Hself, ?E;
    cbn [target contents log mutex flocks tmp misread set_pc set_mutex set_flocks stage publish_tmp create_empty add_misread];
    try done; try (by left); try (by right); try (left; split; [done|by apply Hact]).
  - left. split; [done|]. unfold contents. cbn. by rewrite H.
  - intros k u. rewrite lookup_insert_Some. intros [[<- <-]|[_ Hl]]; [done|]. by apply Hfl in Hl as [_ []].
  - split; [|done]. unfold apply_entry. cbn [snd]. change (contents (set_pc t _ s)) with (contents s). by rewrite H.
  - split; [by apply fell_back_entry|]. by right.
  - split; [by apply fell_back_entry|]. left. by left.
  - split; [by apply fell_back_entry|]. left. by left.
  - destruct Hp as [? ?]. eauto 6.
  - destruct Hp as [(j & w & [= ->] & Hw) He]. right. exists fb. rewrite Hw. cbn. eauto 8.
  - intros k u. rewrite lookup_delete_Some. intros [Hk Hl]. by apply Hfl in Hl as [_ ?].
  - intros k u. rewrite lookup_delete_Some. intros [Hk Hl]. by apply Hfl in Hl as [_ ?].
  - intros k u. rewrite lookup_delete_Some. intros [Hk Hl]. by apply Hfl in Hl as [_ ?].
  - right. cbn. tauto.
  - right. cbn. tauto.
  - right. cbn. tauto.
Qed.

(** No request is cancelled in the schedule. *)
Definition uncancelled (e : event) : Prop := match e with Move _ _ => True | Cancel _ => False end.

Lemma run_app es es' s : run (es ++ es') s = run es s ≫= run es'.
Proof.
  unfold run. rewrite foldl_app. destruct (foldl _ (Some s) es); cbn; [done|]. by induction es'.
Qed.

Lemma inv_run v0 es s : Forall uncancelled es -> run es (initial v0) = Some s -> inv v0 s.
Proof.
  revert s; induction es as [|e es IH] using rev_ind; intros s Hes Hr.
  - injection Hr as <-. apply inv_initial.
  - apply Forall_app in Hes as [Hes [He _]%Forall_cons]. rewrite run_app in Hr.
    apply bind_Some in Hr as (s1 & H1 & H2). destruct e as [t o|]; [|done]. eapply inv_step; [by apply IH|exact H2].
Qed.

Lemma holder_moves v0 t s : inv v0 s -> mutex s = Some t -> is_Some (move t Succeeds s).
Proof.
  intros Hi Hm. unfold move. pose proof (inv_holder _ _ Hi t Hm) as Ha.
  destruct (pc_of s t) as [| |i|i|i v fb|i fb|i ok|ok|ok] eqn:E; try done; [| |..]; try (repeat case_match; done).
  destruct (flocks s !! i) as [u|] eqn:Hl; [|done].
  by apply (flock_holder v0 t) in Hl as [_ Hl]; [rewrite E in Hl|done|auto].
Qed.
End Jobs.

(** C11: updates through the mutex are serialised. In every state that requests
    of one application going through the per-application mutex can reach, with
    any of their file operations (directories, open, lock, read, write, rename)
    failing and no request cancelled: the file holds the result of the updates
    that were renamed into place, applied one after the other in that order,
    where an update whose read failed starts from its default instead; only an
    update whose read failed, or before which there was no file, does so, hence
    without failing reads no update is lost; a request that has finished
    reports success exactly when its update is among them, once; and as long as
    a request is not finished some request can move. *)
Theorem mutex_serialises_updates (jobs : nat -> job) v0 es s :
  (forall t, uses_mutex (jobs t) = true) -> Forall uncancelled es -> run jobs es (initial v0) = Some s ->
  contents s = foldl (apply_entry jobs) v0 (log s) /\ NoDup (log s).*1 /\
  (forall t, (t, true) ∈ log s -> t ∈ misread s \/ v0 = None) /\
  (forall c, v0 = Some c -> misread s = [] -> contents s = Some (foldl (fun v t => update (jobs t) v) c (log s).*1)) /\
  (forall t ok, pc_of s t = Finished ok -> ok = true <-> t ∈ (log s).*1) /\
  (forall t, (forall ok, pc_of s t <> Finished ok) -> exists u, is_Some (step jobs (Move u Succeeds) s)).
Proof.
  intros Hmx Hes Hr. pose proof (inv_run jobs Hmx v0 es s Hes Hr) as Hi. cbn [step].
  split; [apply Hi|]. split; [apply Hi|]. split; [apply Hi|]. split; [|split].
  - intros c -> Hmis. rewrite (inv_value _ _ _ Hi).
    assert (Hread : Forall (fun e => e.2 = false) (log s)).
    { apply Forall_forall. intros [t [|]] Hin; [|done]. apply (inv_fell_back _ _ _ Hi) in Hin as [Hin|?]; [|done].
      rewrite Hmis in Hin. by apply not_elem_of_nil in Hin. }
    clear -Hread. revert c. induction (log s) as [|[t fb] l IH]; intros c; [done|].
    apply Forall_cons in Hread as [Hfb Hl]. cbn in Hfb. subst fb. cbn. by apply IH.
  - intros t ok E. rewrite (inv_log _ _ _ Hi), E. done.
  - intros t Ht. destruct (mutex s) as [u|] eqn:Hm; [exists u; by eapply holder_moves|].
    exists t. unfold move. destruct (pc_of s t) as [| |i|i|i v fb|i fb|i ok|ok|ok] eqn:E.
    1: by rewrite Hmx, Hm.
    8: by destruct (Ht ok).
    all: assert (mutex s = Some t) by (apply (inv_mutex _ _ _ Hi); by rewrite E); congruence.
Qed.
End System.

Arguments job : clear implicits.
Arguments shared : clear implicits.

(** ** The table of mutexes *)

Definition MAX_CATALOG_MUTEXES : nat := 4096.

(** The table maps an application to its mutex; [live] are the clones of the
    [Arc]s held by requests. *)
Record table := { entries : gmap string nat; live : list (string * nat); next_id : nat }.

(** [Arc::strong_count(m) > 1]. *)
Definition in_use (tb : table) (id : nat) : bool := existsb (fun h => Nat.eqb h.2 id) (live tb).

Definition evict (app_name : string) (tb : table) : gmap string nat :=
  if bool_decide (MAX_CATALOG_MUTEXES <= size (entries tb)) && bool_decide (entries tb !! app_name = None)
  then filter (fun kv => in_use tb kv.2 = true) (entries tb)
  else entries tb.

Definition get_catalog_mutex (app_name : string) (tb : table) : nat * table :=
  let es := evict app_name tb in
  match es !! app_name with
  | Some id => (id, {| entries := es; live := (app_name, id) :: live tb; next_id := next_id tb |})
  | None => (next_id tb, {| entries := <[app_name := next_id tb]> es;
                            live := (app_name, next_id tb) :: live tb; next_id := S (next_id tb) |})
  end.

(** A request drops its clone. *)
Definition drop_mutex (k : nat) (tb : table) : table :=
  {| entries := entries tb; live := delete k (live tb); next_id := next_id tb |}.

Inductive table_event := GetMutex (app_name : string) | DropMutex (k : nat).

Definition table_step (tb : table) (e : table_event) : table :=
  match e with GetMutex a => (get_catalog_mutex a tb).2 | DropMutex k => drop_mutex k tb end.

Definition empty_table : table := {| entries := ∅; live := []; next_id := 0 |}.

(** Whoever holds a mutex holds the one of the table. *)
Definition table_ok (tb : table) : Prop := forall a id, (a, id) ∈ live tb -> entries tb !! a = Some id.

Lemma in_use_live tb a id : (a, id) ∈ live tb -> in_use tb id = true.
Proof. intros Hin. apply existsb_exists. exists (a, id). split; [by apply list_elem_of_In|apply Nat.eqb_refl]. Qed.

Lemma evict_keeps tb app a id : table_ok tb -> (a, id) ∈ live tb -> evict app tb !! a = Some id.
Proof.
  intros Hok Hin. unfold evict. case_match; [|by apply Hok]. apply map_lookup_filter_Some.
  split; [by apply Hok|]. by eapply in_use_live.
Qed.

Lemma table_step_ok tb e : table_ok tb -> table_ok (table_step tb e).
Proof.
  intros Hok. destruct e as [app|k]; cbn.
  - unfold get_catalog_mutex. destruct (evict app tb !! app) as [id|] eqn:E; cbn; intros a id' [[= -> ->]|Hin]%elem_of_cons.
    + done.
    + by apply evict_keeps.
    + cbn. by rewrite lookup_insert_eq.
    + cbn. apply (evict_keeps tb app) in Hin; [|done]. rewrite lookup_insert_ne; [done|]. congruence.
  - intros a id Hin. apply Hok. cbn in Hin. by eapply elem_of_submseteq, sublist_submseteq, sublist_delete.
Qed.

(** The table of per-application mutexes preserves mutual exclusion: over
    any sequence of acquisitions and drops, with the eviction of idle entries
    at capacity, all requests of one application that are in flight hold the
    same mutex. *)
Theorem one_mutex_per_app events a id id' :
  let tb := foldl table_step empty_table events in
  (a, id) ∈ live tb -> (a, id') ∈ live tb -> id = id'.
Proof.
  intros tb. assert (Hok : table_ok tb).
  { subst tb. assert (H0 : table_ok empty_table) by (intros ?? []%not_elem_of_nil). revert H0. generalize empty_table.
    induction events as [|e events IH]; cbn; [done|]. intros tb Htb. by apply IH, table_step_ok. }
  intros H1%Hok H2%Hok. congruence.
Qed.

Lemma one_mutex_per_app_witness :
  let tb := foldl table_step empty_table [GetMutex "app"; GetMutex "tool"; GetMutex "app"; DropMutex 1] in
  ("app", 0) ∈ live tb /\ forall id, ("app", id) ∈ live tb -> id = 0.
Proof.
  assert (Hin : ("app", 0) ∈ live (foldl table_step empty_table [GetMutex "app"; GetMutex "tool"; GetMutex "app"; DropMutex 1])).
  { vm_compute. left. }
  split; [exact Hin|]. intros id H.
  symmetry. exact (one_mutex_per_app [GetMutex "app"; GetMutex "tool"; GetMutex "app"; DropMutex 1] "app" 0 id Hin H).
Defined.

(** ** Concrete schedules *)

Definition publish_job (v : string) : job AppCatalog :=
  let i := info v [LinuxX86_64] in
  {| uses_mutex := true; creates := true; fallback := Some (default_catalog "app" i);
     update := fun c => apply_version c i |}.

Definition catalog_versions (c : AppCatalog) : list string := (fun e => version_to_string (vi_version e)) <$> cat_versions c.

(** What [delete_version] makes of the catalog when no other version is marked
    as deleted; it does not take the mutex, and it fails on a catalog it cannot
    open or read. *)
Definition delete_job (version : string) : job AppCatalog :=
  {| uses_mutex := false; creates := false; fallback := None;
     update := fun c =>
       if bool_decide (version_to_string (cat_latest_version c) = version) then
         match head (sort_desc (filter (fun v => v <> version) (catalog_versions c))) ≫= (fun v => ok (version_from_str v)) with
         | Some v => {| cat_app_name := cat_app_name c; cat_versions := cat_versions c; cat_latest_version := v |}
         | None => c
         end
       else c |}.

(** The versions of the file, and whether a request has returned [Ok]. *)
Definition versions_of (s : shared AppCatalog) : list string := default [] (catalog_versions <$> contents s).
Definition succeeded (s : shared AppCatalog) (t : nat) : bool :=
  match pc_of s t with Finished ok => ok | _ => false end.

Definition moves (ts : list nat) : list event := (fun t => Move t Succeeds) <$> ts.

Definition start : shared AppCatalog := initial (Some (catalog_of ["1.0.0"])).

Definition final (o : option (shared AppCatalog)) : shared AppCatalog := default start o.

Definition publishers (t : nat) : job AppCatalog :=
  match t with 0 => publish_job "2.0.0" | 1 => publish_job "3.0.0" | _ => publish_job "4.0.0" end.

(** The write of the first publication fails half-way while the second waits
    for the mutex; the others go through. *)
Definition one_failing : list event :=
  moves [0; 0; 0; 0] ++ [Move 0 FailsHalfway] ++ moves [0; 0] ++ moves [1; 1; 1; 1; 1; 1; 1; 1] ++
  moves [2; 2; 2; 2; 2; 2; 2; 2].

Lemma mutex_serialises_updates_witness :
  exists s, run publishers one_failing start = Some s /\ versions_of s = ["4.0.0"; "3.0.0"; "1.0.0"] /\
    contents s = Some (foldl (fun v t => update (publishers t) v) (catalog_of ["1.0.0"]) (log s).*1) /\
    (succeeded s 0 = false /\ 0 ∉ (log s).*1) /\ (succeeded s 1 = true /\ 1 ∈ (log s).*1).
Proof.
  set (s := final (run publishers one_failing start)).
  assert (E : run publishers one_failing start = Some s).
  { assert (H : bool_decide (is_Some (run publishers one_failing start)) = true) by (vm_compute; reflexivity).
    apply bool_decide_eq_true_1 in H as [s' H]. unfold s, final. rewrite H. reflexivity. }
  exists s. split; [exact E|].
  assert (Hpc : pc_of s 0 = Finished false /\ pc_of s 1 = Finished true /\ misread s = [] /\
                versions_of s = ["4.0.0"; "3.0.0"; "1.0.0"])
    by (repeat split; vm_compute; reflexivity).
  destruct Hpc as (H0 & H1 & Hmis & Hv).
  destruct (mutex_serialises_updates publishers (Some (catalog_of ["1.0.0"])) one_failing s) as (_ & _ & _ & Hc & Hf & _).
  - intros [|[|t]]; reflexivity.
  - apply Forall_forall. intros [t o|t] Hin; [exact I|]. exfalso. apply list_elem_of_In in Hin.
    vm_compute in Hin. repeat (destruct Hin as [Hin|Hin]; [discriminate Hin|]). exact Hin.
  - exact E.
  - split; [exact Hv|]. split; [exact (Hc _ eq_refl Hmis)|]. unfold succeeded. rewrite H0, H1. split.
    + split; [reflexivity|]. intros Hin. apply (Hf 0 false H0) in Hin. discriminate Hin.
    + split; [reflexivity|]. apply (Hf 1 true H1). reflexivity.
Defined.

(** Two publishers and a deletion. *)
Definition with_delete (t : nat) : job AppCatalog :=
  match t with 0 => publish_job "2.0.0" | 1 => publish_job "3.0.0" | _ => delete_job "1.0.0" end.

(** A publication is lost to a concurrent deletion: the deletion waits for
    the lock of an inode that the first publication replaces, so it enters its
    critical section together with the second publication, and its write-back
    of the catalog it read drops version 3.0.0 although all three requests
    report success. *)
Theorem deletion_loses_publication :
  let s := final (run with_delete (moves [0; 0; 0; 2; 2; 0; 0; 0; 0; 0; 2; 2; 1; 1; 1; 1; 1; 1; 1; 1; 2; 2; 2; 2]) start) in
  versions_of s = ["2.0.0"; "1.0.0"] /\ (log s).*1 = [0; 1; 2] /\
  succeeded s 0 = true /\ succeeded s 1 = true /\ succeeded s 2 = true.
Proof. vm_compute. repeat split; reflexivity. Qed.

(** A publication is lost after two clients have gone away: dropping the
    future of a request releases the mutex while its blocking task runs on, so
    that the second request waits for the lock of the inode which the first one
    replaces, and the third one locks the new inode; both read the same
    catalog, and the publication of 4.0.0, which reports success, is
    overwritten. *)
Theorem cancellation_loses_publication :
  let s := final (run publishers (moves [0; 0; 0] ++ [Cancel 0] ++ moves [1; 1] ++ [Cancel 1] ++
                                  moves [0; 0; 0; 0; 0] ++ moves [1; 1] ++ moves [2; 2; 2; 2; 2; 2; 2; 2] ++
                                  moves [1; 1; 1; 1]) start) in
  versions_of s = ["3.0.0"; "2.0.0"; "1.0.0"] /\ (log s).*1 = [0; 2; 1] /\ succeeded s 2 = true.
Proof. vm_compute. repeat split; reflexivity. Qed.
