(* ===== verification/Auth.v ===== *)
(** * Auth: publishers, API keys and the authentication middleware
    ([deltaship-server/src/state.rs], [deltaship-server/src/auth.rs])

    The [argon2] and [hex] crates are parameters: whether a string is a PHC
    hash, whether a key verifies against a hash, and hexadecimal decoding. *)

From S2P Require Import Prelude Text Version Core Validation RateLimit Fs Catalog Storage StorageFacts.

#[local] Open Scope Z_scope.
#[local] Open Scope io_scope.

(** ** Publishers *)

Record Publisher := {
  owner : string;
  allowed_apps : option (gset string);   (** [None]: all applications *)
  pubkey : option bytes;
}.

Definition can_publish (p : Publisher) (app_name : string) : bool :=
  match allowed_apps p with
  | None => true
  | Some apps => bool_decide (app_name ∈ apps)
  end.

Inductive StatusCode :=
  BAD_REQUEST | UNAUTHORIZED | FORBIDDEN | NOT_FOUND | PAYLOAD_TOO_LARGE | TOO_MANY_REQUESTS
| INTERNAL_SERVER_ERROR.

Record AppState := {
  st_data_dir : string;
  api_keys : gset string;
  publishers : gmap string Publisher;
  trust_proxy : bool;
}.

Section Keys.
Context (hex_decode : string -> option bytes).
Context (phc_valid : string -> bool).                      (** [PasswordHash::new(s).is_ok()] *)
Context (verify_password : bytes -> string -> bool).       (** [verify_password(key, hash).is_ok()] *)
Context {HI : HashIter}.

(** ** Parsing [api_keys.txt] *)

(** The application list of an [apps=] token. *)
Definition parse_apps (value : string) : option (gset string) :=
  if bool_decide (value = "*") then None
  else Some (list_to_set (filter (fun s => s <> "") (trim <$> split_char ","%char value))).

(** One [key=value] token, applied to owner, scope and public key so far. *)
Definition meta_token (acc : Publisher) (token : string) : Publisher :=
  match split_once "="%char token with
  | None => acc
  | Some (key, value) =>
      let key := to_ascii_lowercase key in
      if bool_decide (key = "owner") then
        {| owner := value; allowed_apps := allowed_apps acc; pubkey := pubkey acc |}
      else if bool_decide (key = "apps") then
        {| owner := owner acc; allowed_apps := parse_apps value; pubkey := pubkey acc |}
      else if bool_decide (key = "pubkey") then
        match hex_decode value with
        | Some b => if bool_decide (lenZ b = 32)
                    then {| owner := owner acc; allowed_apps := allowed_apps acc; pubkey := Some b |}
                    else acc
        | None => acc
        end
      else acc
  end.

Definition parse_publisher_meta (meta : string) : Publisher :=
  let p := foldl meta_token {| owner := "unknown"; allowed_apps := Some ∅; pubkey := None |}
                 (split_whitespace meta) in
  match allowed_apps p with
  | Some set =>
      if bool_decide (set = ∅) && negb (contains_str "apps=" (to_ascii_lowercase meta))
      then {| owner := owner p; allowed_apps := None; pubkey := pubkey p |}
      else p
  | None => p
  end.

Definition admin : Publisher := {| owner := "admin"; allowed_apps := None; pubkey := None |}.

(** One line of the file: the hash and the identity it grants. *)
Definition parse_key_line (raw_line : string) : option (string * Publisher) :=
  let line := trim raw_line in
  if str_is_empty line || starts_with "#" line then None
  else
    let '(first, rest) := splitn2_whitespace line in
    let hash := trim first in
    let meta := trim (default "" rest) in
    if negb (starts_with "$argon2id$" hash) || negb (phc_valid hash) then None
    else Some (hash, if str_is_empty meta then admin else parse_publisher_meta meta).

(** The loop over the lines: a later line for the same hash wins. *)
Definition parse_api_keys (contents : string) : gmap string Publisher :=
  foldl (fun m l => match parse_key_line l with Some (h, p) => <[h := p]> m | None => m end)
        ∅ (lines contents).

Definition load_api_keys (data_dir : string) : io (gmap string Publisher) :=
  let path := join data_dir "api_keys.txt" in
  b ← exists_ path;
  if (b : bool) then
    r ← read_to_string path;
    mret (match r with Ok contents => parse_api_keys contents | Err _ => ∅ end)
  else mret ∅.

Definition with_options (data_dir : string) (trust : bool) : io AppState :=
  ps ← load_api_keys data_dir;
  mret {| st_data_dir := data_dir; api_keys := dom ps; publishers := ps; trust_proxy := trust |}.

(** ** Verification *)

Definition DUMMY_HASH : string :=
  "$argon2id$v=19$m=19456,t=2,p=1$c29tZXNhbHQxMjM0NTY3ODkwMTIzNDU2Nzg5MDEyMzQ1Njc$YWJjZGVmZ2hpamtsbW5vcHFyc3R1dnd4eXoxMjM0NTY3ODk".

(** Every stored hash is verified; the last match in iteration order wins. *)
Definition verify_api_key (provided_key : string) (stored_hashes : gset string) : option string :=
  foldl (fun matched hash_str =>
           let parsed := if phc_valid hash_str then hash_str else DUMMY_HASH in
           if verify_password (as_bytes provided_key) parsed then Some hash_str else matched)
        None (set_iter stored_hashes).

(** The headers the middleware reads. *)
Record Headers := { h_forwarded_for : option string; h_api_key : option string }.

Definition no_access : Publisher := {| owner := "unknown"; allowed_apps := Some ∅; pubkey := None |}.

(** [require_api_key]: [Ok p] passes the request on with the identity [p].
    [now] and [now'] are the instants read by the two limiter calls. *)
Definition require_api_key (pr : profile) (state : AppState) (addr : string) (h : Headers) (now now' : Z)
    (lim : AuthFailureLimiter) : outcome (result StatusCode Publisher) * AuthFailureLimiter :=
  let ip := client_ip addr (h_forwarded_for h) (trust_proxy state) in
  match AuthLimiter.is_blocked ip now lim with
  | Panic => (Panic, lim)
  | Val true => (Val (Err TOO_MANY_REQUESTS), lim)
  | Val false =>
      match h_api_key h ≫= (fun k => verify_api_key k (api_keys state)) with
      | Some hash =>
          let publisher := default no_access (publishers state !! hash) in
          match AuthLimiter.record_success ip now' lim with
          | (Val _, lim) => (Val (Ok publisher), lim)
          | (Panic, lim) => (Panic, lim)
          end
      | None =>
          match AuthLimiter.record_failure pr ip now' lim with
          | (Val false, lim) => (Val (Err TOO_MANY_REQUESTS), lim)
          | (Val true, lim) => (Val (Err UNAUTHORIZED), lim)
          | (Panic, lim) => (Panic, lim)
          end
      end
  end.
End Keys.

(** ** Lemmas: stored keys *)

Lemma elem_of_set_iter {HI : HashIter} {HIL : HashIterLaws HI} (X : gset string) h : h ∈ set_iter X <-> h ∈ X.
Proof.
  unfold set_iter. rewrite list_elem_of_fmap. setoid_rewrite (iter_perm unit). split.
  - intros ([k u] & -> & Hin). apply elem_of_map_to_list, lookup_gset_to_gmap_Some in Hin. by destruct Hin.
  - intros Hh. exists (h, tt). split; [done|]. apply elem_of_map_to_list, lookup_gset_to_gmap_Some. done.
Qed.

Lemma foldl_last_match {A} (p : A -> bool) l (acc : option A) :
  let r := foldl (fun m x => if p x then Some x else m) acc l in
  (forall x, r = Some x -> acc = Some x \/ (x ∈ l /\ p x = true)) /\
  (forall x, x ∈ l -> p x = true -> is_Some r) /\ (is_Some acc -> is_Some r).
Proof.
  revert acc; induction l as [|y l IH]; intros acc; cbn [foldl].
  - split_and!; [by left|set_solver|done].
  - destruct (IH (if p y then Some y else acc)) as (H1 & H2 & H3). split_and!.
    + intros x Hx. destruct (H1 x Hx) as [Ha|[Ha Hp]]; [|right; set_solver].
      destruct (p y) eqn:Ep; [|by left]. right. simplify_eq. set_solver.
    + intros x [->|Hx]%elem_of_cons Hp; [|eauto]. apply H3. by rewrite Hp.
    + intros Ha. apply H3. by destruct (p y).
Qed.

(** ** Lemmas: tokens of a metadata line *)

Lemma concat_utf8_chars l : concat (utf8_chars l) = l.
Proof.
  induction l as [|c l IH]; [done|]. cbn [utf8_chars].
  destruct (utf8_chars l) as [|k ks]; cbn [concat] in IH; [by rewrite <- IH|].
  destruct l as [|d l]; [by cbn [concat]; rewrite IH|]. case_match; cbn [concat app]; by rewrite IH.
Qed.

Lemma split_ws_infix acc l t :
  t ∈ split_ws acc l -> exists a b, acc ++ concat l = a ++ chars t ++ b.
Proof.
  revert acc; induction l as [|u l IH]; intros acc; cbn [split_ws concat].
  - case_bool_decide; [set_solver|]. intros ->%list_elem_of_singleton. exists [], []. by rewrite chars_of_chars, !app_nil_r.
  - destruct (is_whitespace u).
    + rewrite elem_of_app. intros [Ht|Ht].
      * case_bool_decide; [set_solver|]. apply list_elem_of_singleton in Ht as ->.
        exists [], (u ++ concat l). by rewrite chars_of_chars.
      * destruct (IH [] Ht) as (a & b & Hab). exists (acc ++ u ++ a), b. cbn in Hab. rewrite Hab. by rewrite !app_assoc.
    + intros Ht. destruct (IH _ Ht) as (a & b & Hab). exists a, b. by rewrite app_assoc.
Qed.

Lemma split_whitespace_infix s t : t ∈ split_whitespace s -> exists a b, s = a +:+ t +:+ b.
Proof.
  intros Ht. destruct (split_ws_infix _ _ _ Ht) as (a & b & H). cbn in H. rewrite concat_utf8_chars in H.
  exists (of_chars a), (of_chars b). apply (inj chars). by rewrite !chars_app, !chars_of_chars.
Qed.

Lemma split_once_go_Some c acc l a b :
  split_once_go c acc l = Some (a, b) -> reverse acc ++ l = chars a ++ c :: chars b.
Proof.
  revert acc; induction l as [|d l IH]; intros acc; cbn [split_once_go]; [done|].
  case_bool_decide as Hd; subst.
  - intros [= <- <-]. by rewrite !chars_of_chars.
  - intros H. rewrite <- (IH _ H). by rewrite reverse_cons, <- app_assoc.
Qed.

Lemma split_once_Some c s a b : split_once c s = Some (a, b) -> s = a +:+ String c b.
Proof.
  intros H%split_once_go_Some. apply (inj chars). rewrite chars_app. exact H.
Qed.

Lemma to_ascii_lowercase_app s t : to_ascii_lowercase (s +:+ t) = to_ascii_lowercase s +:+ to_ascii_lowercase t.
Proof. unfold to_ascii_lowercase. by rewrite chars_app, fmap_app, of_chars_app. Qed.

(** The values of the [apps=] tokens of a line. *)
Definition apps_value (token : string) : option string :=
  '(k, v) ← split_once "="%char token;
  if bool_decide (to_ascii_lowercase k = "apps") then Some v else None.

Lemma apps_value_contains meta t v :
  t ∈ split_whitespace meta -> apps_value t = Some v -> contains_str "apps=" (to_ascii_lowercase meta) = true.
Proof.
  intros Ht Hv. unfold apps_value in Hv. destruct (split_once "="%char t) as [[k v']|] eqn:E; [|done].
  cbn in Hv. case_bool_decide as Hk; [|done]. apply split_once_Some in E.
  destruct (split_whitespace_infix _ _ Ht) as (a & b & ->). apply contains_str_spec.
  exists (to_ascii_lowercase a), (to_ascii_lowercase v' +:+ to_ascii_lowercase b).
  rewrite E, !to_ascii_lowercase_app, Hk. change (String "=" v') with ("=" +:+ v'). rewrite to_ascii_lowercase_app.
  change (to_ascii_lowercase "=") with "=". apply (inj chars). by rewrite !chars_app, <- !app_assoc.
Qed.

Section Facts.
Context (hex_decode : string -> option bytes) (phc_valid : string -> bool)
        (verify_password : bytes -> string -> bool) {HI : HashIter} {HIL : HashIterLaws HI}.

Lemma verify_api_key_spec k X :
  (forall h, verify_api_key phc_valid verify_password k X = Some h ->
     h ∈ X /\ verify_password (as_bytes k) (if phc_valid h then h else DUMMY_HASH) = true) /\
  (forall h, h ∈ X -> verify_password (as_bytes k) (if phc_valid h then h else DUMMY_HASH) = true ->
     is_Some (verify_api_key phc_valid verify_password k X)).
Proof.
  unfold verify_api_key.
  destruct (foldl_last_match (fun h => verify_password (as_bytes k) (if phc_valid h then h else DUMMY_HASH))
              (set_iter X) None) as (H1 & H2 & _). split.
  - intros h Hh. destruct (H1 h Hh) as [|[Hin Hv]]; [done|]. by rewrite elem_of_set_iter in Hin.
  - intros h Hin Hv. apply (H2 h); [by apply elem_of_set_iter|done].
Qed.

(** What a key file can grant. *)
Definition key_ok (h : string) : Prop := starts_with "$argon2id$" h = true /\ phc_valid h = true.

Lemma parse_key_line_ok l h p : parse_key_line hex_decode phc_valid l = Some (h, p) -> key_ok h.
Proof.
  unfold parse_key_line. destruct (_ || _); [done|]. destruct (splitn2_whitespace _) as [a b].
  destruct (starts_with "$argon2id$" (trim a)) eqn:E1; [|done].
  destruct (phc_valid (trim a)) eqn:E2; [|done]. intros [= <- _]. done.
Qed.

Lemma parse_api_keys_ok contents h p :
  parse_api_keys hex_decode phc_valid contents !! h = Some p -> key_ok h.
Proof.
  unfold parse_api_keys. generalize (lines contents) as ls. intros ls.
  assert (Hinv : forall m : gmap string Publisher, (forall h p, m !! h = Some p -> key_ok h) ->
    forall h p, foldl (fun m l => match parse_key_line hex_decode phc_valid l with
                             | Some (h, p) => <[h := p]> m | None => m end) m ls !! h = Some p -> key_ok h).
  { clear h p. induction ls as [|l ls IH]; intros m Hm; cbn [foldl]; [done|]. apply IH.
    intros h p. destruct (parse_key_line _ _ l) as [[h' p']|] eqn:E; [|apply Hm].
    rewrite lookup_insert_Some. intros [[<- _]|[_ Hl]]; [by eapply parse_key_line_ok|by apply (Hm h p)]. }
  apply Hinv. intros h' p'. by rewrite lookup_empty.
Qed.

Lemma with_options_state data_dir trust w :
  let st := (with_options hex_decode phc_valid data_dir trust w).1 in
  api_keys st = dom (publishers st) /\ forall h p, publishers st !! h = Some p -> key_ok h.
Proof.
  unfold with_options, load_api_keys, mbind, io_bind. destruct (exists_ _ w) as [[] w1].
  - destruct (read_to_string _ w1) as [[c|e] w2]; cbn; (split; [done|]).
    + apply parse_api_keys_ok.
    + intros h p. by rewrite lookup_empty.
  - cbn. split; [done|]. intros h p. by rewrite lookup_empty.
Qed.

(** The scope after the tokens is that of the last [apps=] token. *)
Lemma meta_tokens_scope ts acc :
  allowed_apps (foldl (meta_token hex_decode) acc ts) =
  match last (omap apps_value ts) with Some v => parse_apps v | None => allowed_apps acc end.
Proof.
  revert acc; induction ts as [|t ts IH]; intros acc; cbn [foldl]; [done|]. rewrite IH. clear IH.
  assert (Ht : allowed_apps (meta_token hex_decode acc t) =
               match apps_value t with Some v => parse_apps v | None => allowed_apps acc end).
  { unfold meta_token, apps_value. destruct (split_once "="%char t) as [[k v]|]; [|done]. cbn.
    destruct (decide (to_ascii_lowercase k = "owner")) as [Ek|Ek]; [by rewrite Ek|].
    rewrite bool_decide_eq_false_2 by done. case_bool_decide; [done|]. by repeat case_match. }
  cbn [omap list_omap]. rewrite Ht. destruct (apps_value t) as [v|]; [|done].
  rewrite last_cons. by destruct (last _).
Qed.

(** ** Lemmas: the first failing attempts *)

Definition failures (o : option AuthFailureEntry) : Z :=
  match o with Some e => failure_count e | None => 0 end.

Lemma record_failure_early pr ip now st :
  poisoned st = false -> 0 <= failures (entries st !! ip) < 4 ->
  (entries st !! ip = None -> map_len (entries st) < MAX_ENTRIES) ->
  (forall e, entries st !! ip = Some e -> backoff_until e = None) ->
  AuthLimiter.record_failure pr ip now st =
  (Val true, {| entries := <[ip := {| failure_count := failures (entries st !! ip) + 1;
                                      backoff_until := None; af_last_access := now |}]> (entries st);
                poisoned := false |}).
Proof.
  intros Hp Hf Hroom Hb. unfold AuthLimiter.record_failure. rewrite Hp.
  assert (bool_decide (entries st !! ip = None) && (MAX_ENTRIES <=? map_len (entries st)) = false) as ->.
  { case_bool_decide as Hn; [|done]. specialize (Hroom Hn). cbn [andb]. lia. }
  assert (Hgo : forall e, failure_count e = failures (entries st !! ip) -> backoff_until e = None ->
    AuthLimiter.fail_entry pr now e =
    Val (true, {| failure_count := failures (entries st !! ip) + 1; backoff_until := None; af_last_access := now |})).
  { intros e He Hbe. unfold AuthLimiter.fail_entry. cbn [failure_count].
    destruct (decide _) as [Hd|_]; [by unfold AuthLimiter.in_backoff in Hd; rewrite Hbe in Hd|].
    rewrite He, arith_in_range by lia. cbn [mbind outcome_bind]. unfold AUTH_FAILURE_THRESHOLD.
    by destruct (Z.leb_spec 5 (failures (entries st !! ip) + 1)); [lia|]. }
  destruct (entries st !! ip) as [e|] eqn:E; cbn [from_option id].
  - by rewrite Hgo; [|done|apply Hb].
  - by rewrite Hgo.
Qed.
End Facts.

(** ** Properties *)

Section Properties.
Context (hex_decode : string -> option bytes) (phc_valid : string -> bool)
        (verify_password : bytes -> string -> bool) {HI : HashIter} {HIL : HashIterLaws HI}.

Abbreviation require := (require_api_key phc_valid verify_password).

(** What a request that passes has shown. *)
Lemma require_api_key_Ok data_dir trust w pr addr h now now' lim p lim' :
  let st := (with_options hex_decode phc_valid data_dir trust w).1 in
  require pr st addr h now now' lim = (Val (Ok p), lim') ->
  AuthLimiter.is_blocked (client_ip addr (h_forwarded_for h) trust) now lim = Val false /\
  exists k hash, h_api_key h = Some k /\ publishers st !! hash = Some p /\
    starts_with "$argon2id$" hash = true /\ phc_valid hash = true /\
    verify_password (as_bytes k) hash = true.
Proof.
  intros st. destruct (with_options_state hex_decode phc_valid data_dir trust w) as [Hdom Hok]. fold st in Hdom, Hok.
  assert (Ht : trust_proxy st = trust).
  { unfold st, with_options, mbind, io_bind. by destruct (load_api_keys _ _ _ w). }
  unfold require_api_key. rewrite Ht. destruct (AuthLimiter.is_blocked _ now lim) as [[]|] eqn:Eb; [done| |done].
  destruct (h_api_key h) as [k|] eqn:Ek; cbn [mbind option_bind]; [|by repeat case_match].
  destruct (verify_api_key phc_valid verify_password k (api_keys st)) as [hash|] eqn:Ev; [|by repeat case_match].
  apply (verify_api_key_spec phc_valid verify_password k) in Ev as [Hin Hv].
  rewrite Hdom in Hin. apply elem_of_dom in Hin as [p' Hp']. rewrite Hp'. cbn [from_option id].
  destruct (AuthLimiter.record_success _ now' lim) as [[]]; [|done]. intros [= -> _]. split; [done|].
  destruct (Hok _ _ Hp') as [H1 H2]. exists k, hash. rewrite H2 in Hv. done.
Qed.

(** Who gets in: with the state built from the key file, a request passes
    the middleware with identity [p] only when its address is not in backoff
    and its key verifies against a stored, well-formed Argon2id hash whose
    entry grants [p]; the fall-back identity is never used. *)
Theorem authenticated_identity data_dir trust w pr addr h now now' lim p lim' :
  let st := (with_options hex_decode phc_valid data_dir trust w).1 in
  require pr st addr h now now' lim = (Val (Ok p), lim') ->
  AuthLimiter.is_blocked (client_ip addr (h_forwarded_for h) trust) now lim = Val false /\
  exists k hash, h_api_key h = Some k /\ publishers st !! hash = Some p /\
    starts_with "$argon2id$" hash = true /\ phc_valid hash = true /\
    verify_password (as_bytes k) hash = true.
Proof. apply require_api_key_Ok. Qed.

End Properties.

Section Scope.
Context (hex_decode : string -> option bytes).

(** The scope of a key: a publisher may act on exactly the applications of
    the last [apps=] token of its line, on all of them when that token is
    [apps=*], and also on all of them when the text [apps=] does not occur in
    the line at all; in particular an empty list locks the key out. *)
Theorem publisher_scope meta app :
  can_publish (parse_publisher_meta hex_decode meta) app = true <->
  match last (omap apps_value (split_whitespace meta)) with
  | Some v => v = "*" \/ (app <> "" /\ app ∈ trim <$> split_char ","%char v)
  | None => contains_str "apps=" (to_ascii_lowercase meta) = false
  end.
Proof.
  unfold parse_publisher_meta.
  pose proof (meta_tokens_scope hex_decode (split_whitespace meta)
                {| owner := "unknown"; allowed_apps := Some ∅; pubkey := None |}) as Hp.
  set (p := foldl _ _ _) in *. destruct (last (omap apps_value (split_whitespace meta))) as [v|] eqn:El.
  - apply last_Some_elem_of, list_elem_of_omap in El as (t & Ht & Hv).
    rewrite (apps_value_contains _ _ _ Ht Hv), Hp. unfold parse_apps in *. case_bool_decide as Hs.
    + unfold can_publish. rewrite Hp. naive_solver.
    + rewrite andb_false_r. unfold can_publish. rewrite Hp, bool_decide_eq_true, elem_of_list_to_set, list_elem_of_filter.
      naive_solver.
  - rewrite Hp. cbn [allowed_apps]. rewrite bool_decide_eq_true_2 by done. cbn [andb].
    destruct (contains_str _ _); cbn [negb]; unfold can_publish.
    + rewrite Hp. cbn [allowed_apps]. rewrite bool_decide_eq_true. set_solver.
    + done.
Qed.
End Scope.

Section Lockout.
Context (phc_valid : string -> bool) (verify_password : bytes -> string -> bool) {HI : HashIter}.

Abbreviation require := (require_api_key phc_valid verify_password).

(** The answers to a sequence of requests. *)
Fixpoint serve (pr : profile) (st : AppState) (addr : string) (h : Headers) (times : list (Z * Z))
    (lim : AuthFailureLimiter) : list (outcome (result StatusCode Publisher)) * AuthFailureLimiter :=
  match times with
  | [] => ([], lim)
  | (t, t') :: times =>
      let '(a, lim) := require pr st addr h t t' lim in
      let '(r, lim) := serve pr st addr h times lim in (a :: r, lim)
  end.

Lemma serve_snoc pr st addr h times t t' lim rs lim1 a lim2 :
  serve pr st addr h times lim = (rs, lim1) -> require pr st addr h t t' lim1 = (a, lim2) ->
  serve pr st addr h (times ++ [(t, t')]) lim = (rs ++ [a], lim2).
Proof.
  revert lim rs; induction times as [|[u u'] times IH]; intros lim rs; cbn [app serve].
  - intros [= <- <-] ->. done.
  - destruct (require pr st addr h u u' lim) as [b lim3].
    destruct (serve pr st addr h times lim3) as [rs' lim4] eqn:E. intros [= <- <-] Hr.
    by rewrite (IH lim3 rs' E Hr).
Qed.

Lemma early_failures pr st addr h times lim :
  let ip := client_ip addr (h_forwarded_for h) (trust_proxy st) in
  h_api_key h ≫= (fun k => verify_api_key phc_valid verify_password k (api_keys st)) = None ->
  poisoned lim = false -> 0 <= failures (entries lim !! ip) -> failures (entries lim !! ip) + lenZ times <= 4 ->
  (entries lim !! ip = None -> map_len (entries lim) < MAX_ENTRIES) ->
  (forall e, entries lim !! ip = Some e -> backoff_until e = None) ->
  exists lim', serve pr st addr h times lim = (replicate (length times) (Val (Err UNAUTHORIZED)), lim') /\
    poisoned lim' = false /\ failures (entries lim' !! ip) = failures (entries lim !! ip) + lenZ times /\
    (entries lim' !! ip = None -> map_len (entries lim') < MAX_ENTRIES) /\
    (forall e, entries lim' !! ip = Some e -> backoff_until e = None).
Proof.
  intros ip Hk. revert lim. induction times as [|[t t'] times IH]; intros lim Hp H0 Hn Hroom Hb.
  { exists lim. cbn. unfold lenZ. cbn. split_and!; try done. lia. }
  unfold lenZ in Hn. cbn [length] in Hn. cbn [serve]. unfold require_api_key at 1. fold ip.
  assert (AuthLimiter.is_blocked ip t lim = Val false) as ->.
  { unfold AuthLimiter.is_blocked. rewrite Hp. destruct (entries lim !! ip) as [e|] eqn:E; [|done].
    f_equal. apply bool_decide_eq_false. unfold AuthLimiter.in_backoff. rewrite (Hb e eq_refl). tauto. }
  rewrite Hk, (record_failure_early pr ip t' lim Hp) by (done || lia).
  set (lim1 := {| entries := _; poisoned := false |}).
  assert (Hl : entries lim1 !! ip = Some {| failure_count := failures (entries lim !! ip) + 1;
                                            backoff_until := None; af_last_access := t' |})
    by (apply lookup_insert_eq).
  destruct (IH lim1) as (lim2 & -> & Hp2 & Hf2 & Hr2 & Hb2); rewrite ?Hl; cbn [failures failure_count].
  - done.
  - lia.
  - unfold lenZ. lia.
  - done.
  - by intros e [= <-].
  - exists lim2. cbn [length replicate]. split_and!; try done. rewrite Hf2, Hl. cbn [failures failure_count].
    unfold lenZ. cbn [length]. lia.
Qed.

(** Brute force is slowed down end to end: an address the limiter does not
    know yet, sending requests without a valid key, is answered 401 four times
    and 429 from the fifth on; for the next sixty seconds every request from
    it, with whatever key, valid or not, is answered 429 and leaves the
    limiter as it is. *)
Theorem five_failures_lock_out pr st addr h t1 t2 t3 t4 t5 lim :
  let ip := client_ip addr (h_forwarded_for h) (trust_proxy st) in
  h_api_key h ≫= (fun k => verify_api_key phc_valid verify_password k (api_keys st)) = None ->
  poisoned lim = false -> entries lim !! ip = None -> map_len (entries lim) < MAX_ENTRIES ->
  exists lim',
    serve pr st addr h [t1; t2; t3; t4; t5] lim =
      (replicate 4 (Val (Err UNAUTHORIZED)) ++ [Val (Err TOO_MANY_REQUESTS)], lim') /\
    forall key now now', now < t5.2 + from_secs 60 ->
      require pr st addr {| h_forwarded_for := h_forwarded_for h; h_api_key := key |} now now' lim' =
      (Val (Err TOO_MANY_REQUESTS), lim').
Proof.
  intros ip Hk Hp Hn Hroom. destruct t5 as [t5 t5'].
  pose proof (early_failures pr st addr h [t1; t2; t3; t4] lim Hk Hp) as Hearly. fold ip in Hearly.
  rewrite Hn in Hearly. change (failures None + lenZ [t1; t2; t3; t4]) with 4 in Hearly. cbn [failures] in Hearly.
  destruct (Hearly ltac:(lia) ltac:(lia) (fun _ => Hroom) ltac:(intros e He; discriminate He)) as (lim4 & H4 & Hp4 & Hf4 & Hr4 & Hb4).
  destruct (entries lim4 !! ip) as [e|] eqn:E; [|discriminate Hf4]. cbn [failures] in Hf4. specialize (Hb4 e eq_refl).
  assert (Hnb : forall t, ~ AuthLimiter.in_backoff t e) by (intros t; unfold AuthLimiter.in_backoff; rewrite Hb4; tauto).
  pose proof (record_failure_known pr ip t5' lim4 e 60 Hp4 E (Hnb t5')) as Hr.
  rewrite Hf4 in Hr. specialize (Hr ltac:(unfold u32_max; lia) (backoff_seconds_schedule pr 5 ltac:(lia))).
  set (lim5 := {| entries := _; poisoned := false |}) in Hr.
  assert (Hbl : forall t, AuthLimiter.is_blocked ip t lim5 = Val (bool_decide (t < t5' + from_secs 60))).
  { intros t. unfold lim5. by rewrite is_blocked_inserted. }
  exists lim5. split.
  - apply (serve_snoc pr st addr h [t1; t2; t3; t4] t5 t5' lim _ lim4); [exact H4|].
    unfold require_api_key. fold ip.
    assert (AuthLimiter.is_blocked ip t5 lim4 = Val false) as ->.
    { unfold AuthLimiter.is_blocked. rewrite Hp4, E. f_equal. by apply bool_decide_eq_false. }
    rewrite Hk, Hr. done.
  - intros key now now' Hnow. unfold require_api_key. cbn [h_forwarded_for h_api_key]. fold ip.
    rewrite Hbl. cbn [snd] in Hnow. by rewrite bool_decide_eq_true_2.
Qed.
End Lockout.

(** ** A concrete key file *)

Definition toy_phc (h : string) : bool := true.
Definition toy_verify (k : bytes) (h : string) : bool := bool_decide (as_bytes h = as_bytes "$argon2id$" ++ k).
Definition toy_hex (s : string) : option bytes := None.

Definition keys_world : world :=
  {| files := {[ ["srv"; "api_keys.txt"] :=
       File (as_bytes ("$argon2id$secret owner=acme apps=foo,bar" +:+ String (chr 10) "# comment")) ]};
     faults := fun _ => None; tick := 0 |}.

Definition acme : Publisher := {| owner := "acme"; allowed_apps := Some {[ "foo"; "bar" ]}; pubkey := None |}.

Lemma authenticated_identity_witness :
  let st := (with_options toy_hex toy_phc "/srv" false keys_world).1 in
  exists k hash, Some "secret" = Some k /\ publishers st !! hash = Some acme /\
    starts_with "$argon2id$" hash = true /\ toy_phc hash = true /\ toy_verify (as_bytes k) hash = true.
Proof.
  refine (proj2 (authenticated_identity toy_hex toy_phc toy_verify "/srv" false keys_world Release "192.0.2.7"
    {| h_forwarded_for := None; h_api_key := Some "secret" |} 0 1 limiter_new acme limiter_new _)).
  vm_compute. reflexivity.
Defined.

Lemma five_failures_lock_out_witness :
  let st := (with_options toy_hex toy_phc "/srv" false keys_world).1 in
  let h := {| h_forwarded_for := None; h_api_key := Some "guess" |} in
  exists lim',
    serve toy_phc toy_verify Release st "192.0.2.7" h [(0, 0); (1, 1); (2, 2); (3, 3); (4, 4)] limiter_new =
      (replicate 4 (Val (Err UNAUTHORIZED)) ++ [Val (Err TOO_MANY_REQUESTS)], lim') /\
    forall key now now', now < 4 + from_secs 60 ->
      require_api_key toy_phc toy_verify Release st "192.0.2.7" {| h_forwarded_for := None; h_api_key := key |} now now' lim' =
      (Val (Err TOO_MANY_REQUESTS), lim').
Proof.
  refine (five_failures_lock_out toy_phc toy_verify Release _ "192.0.2.7"
    {| h_forwarded_for := None; h_api_key := Some "guess" |} (0, 0) (1, 1) (2, 2) (3, 3) (4, 4) limiter_new _ _ _ _);
    vm_compute; reflexivity.
Defined.
