(* ===== verification/Crypto.v ===== *)
(** * Crypto: hashes and the signed payload
    ([deltaship-crypto/src/hashing.rs], [deltaship-crypto/src/signing.rs])

    The hash functions themselves ([blake3], [sha2]) are external: an
    implementation of the trait [StreamHasher] with the law that feeding the
    chunks of a message is hashing the message. *)

From S2P Require Import Prelude Text Version Validation Fs.

#[local] Open Scope Z_scope.
#[local] Open Scope io_scope.

(** [CryptoError]. *)
Inductive CryptoError :=
| SignatureVerificationFailure
| InvalidSigningKey
| InvalidVerifyingKey
| InvalidSignature
| InvalidHex (msg : string)
| InvalidKeyFileFormat
| InvalidKeyFileHexOddLength
| InvalidKeyFileHexChar (character : list ascii) (position : Z)
| InvalidKeyFileHexLength (expected actual : Z)
| InvalidKeyFileVersion (expected actual : Z)
| InvalidKeyFileSalt (reason : string)
| InvalidKeyFileNonce (reason : string)
| PassphraseRequired
| IncorrectPassphrase
| ArgonParamsFailure
| KeyDerivationFailure (msg : string)
| AeadEncryptionFailure
| AeadDecryptionFailure
| EncryptionFailure
| DecryptionFailure
| LegacyKeyFormat
| CryptoIo (path : string) (e : io_error).

(** ** Streaming hashers *)

Class StreamHasher (H Output : Type) := {
  hasher_new : H;
  hasher_update : H -> bytes -> H;
  hasher_finalize : H -> Output;
}.

(** Incremental hashing of [digest]. *)
Class HasherLaw {H Output} (SH : StreamHasher H Output) (digest : bytes -> Output) : Prop :=
  hasher_chunks chunks : hasher_finalize (foldl hasher_update hasher_new chunks) = digest (concat chunks).

Section HashFile.
Context {H Output : Type} {SH : StreamHasher H Output}.

Definition BUFFER_SIZE : Z := 8192.

(** The read loop over the [data] still unread: the hasher's state and the
    values the progress callback was called with.  [None] never happens (see
    [hash_loop_spec]). *)
Fixpoint hash_loop (fuel : nat) (hasher : H) (data : bytes) (total_bytes : Z) : option (H * list Z) :=
  match fuel with
  | O => None
  | S fuel =>
      let chunk := takeZ BUFFER_SIZE data in
      if bool_decide (chunk = []) then Some (hasher, [])
      else
        let total_bytes := total_bytes + lenZ chunk in
        '(h, calls) ← hash_loop fuel (hasher_update hasher chunk) (dropZ BUFFER_SIZE data) total_bytes;
        Some (h, total_bytes :: calls)
  end.

(** The file is opened and read to its end: its content is the one it has when
    it is opened. *)
Definition hash_file_generic (path : string) (hasher : H) : io (result CryptoError (Output * list Z)) :=
  io_map (fun r => match r with
                   | Ok data =>
                       match hash_loop (S (length data)) hasher data 0 with
                       | Some (h, calls) => Ok (hasher_finalize h, calls)
                       | None => Err (CryptoIo path (IoOther ""))
                       end
                   | Err e => Err (CryptoIo path e)
                   end) (read path).

Definition hash_file (path : string) : io (result CryptoError Output) :=
  io_map (fun r => fst <$> r) (hash_file_generic path hasher_new).

Lemma hash_loop_spec fuel hasher data total :
  (length data < fuel)%nat ->
  exists chunks calls, hash_loop fuel hasher data total = Some (foldl hasher_update hasher chunks, calls) /\
    concat chunks = data /\
    (calls = [] <-> data = []) /\ default total (last calls) = total + lenZ data /\
    StronglySorted Z.lt (total :: calls).
Proof.
  revert hasher data total; induction fuel as [|fuel IH]; intros hasher data total Hf; [lia|].
  cbn [hash_loop]. rewrite takeZ_take, dropZ_drop. unfold BUFFER_SIZE.
  assert (Hk : (0 < Z.to_nat 8192)%nat) by lia. revert Hk. generalize (Z.to_nat 8192) as k. intros k Hk.
  case_bool_decide as Hc.
  - assert (data = []) as -> by (destruct data, k; simpl in Hc; [done|done|lia|done]).
    exists [], []. split_and!; try done; [unfold lenZ; simpl; lia|by repeat constructor].
  - assert (Hpos : 0 < lenZ (take k data)) by (destruct (take k data); [done|unfold lenZ; simpl; lia]).
    assert (Hlen : lenZ data = lenZ (take k data) + lenZ (drop k data))
      by (by rewrite <- lenZ_app, take_drop).
    destruct (IH (hasher_update hasher (take k data)) (drop k data)
                 (total + lenZ (take k data))) as (chunks & calls & -> & Hcat & Hnil & Hlast & Hs).
    { unfold lenZ in *. lia. }
    exists (take k data :: chunks), (total + lenZ (take k data) :: calls).
    split; [done|]. split; [cbn; by rewrite Hcat, take_drop|]. split; [split; [done|intros Hd; destruct Hc; rewrite Hd; by destruct k]|]. split.
    + rewrite last_cons. destruct (last calls); cbn in *; lia.
    + constructor; [done|]. apply StronglySorted_inv in Hs as [_ Hall]. constructor; [lia|].
      eapply Forall_impl; [exact Hall|]. cbn. lia.
Qed.
End HashFile.

(** ** Hash values *)

(** [struct Hash([u8; 32])]. *)
Definition hash_to_hex (h : bytes) : string := of_chars (hex_chars h).

(** [u8::from_str_radix(s, 16)]: an optional [+], then at least one digit, the
    value within range. *)
Fixpoint radix16 (acc : Z) (l : list ascii) : option Z :=
  match l with
  | [] => Some acc
  | c :: l => d ← digit16 c; let v := acc * 16 + d in if v <=? u8_max then radix16 v l else None
  end.

Definition u8_from_str_radix16 (l : list ascii) : option Z :=
  match l with
  | [] => None
  | [c] => if bool_decide (c = "+"%char) then None else radix16 0 l
  | c :: l' => if bool_decide (c = "+"%char) then radix16 0 l' else radix16 0 l
  end.

(** One two-byte chunk. *)
Definition parse_hex_pair (l : list ascii) : result CryptoError byte :=
  if utf8_valid (code <$> l) then
    match u8_from_str_radix16 l with
    | Some v => Ok (byte_of_Z v)
    | None => Err (InvalidHex ("invalid hex: " +:+ of_chars l))
    end
  else Err (InvalidHex "invalid UTF-8").

(** [chunks(2)], the error of the first bad one. *)
Fixpoint parse_hex_pairs (l : list ascii) : result CryptoError bytes :=
  match l with
  | a :: b :: l => x ← parse_hex_pair [a; b]; xs ← parse_hex_pairs l; Ok (x :: xs)
  | [a] => x ← parse_hex_pair [a]; Ok [x]
  | [] => Ok []
  end.

Definition hash_from_hex (s : string) : result CryptoError bytes :=
  if bool_decide (str_len s = 64) then parse_hex_pairs (chars s)
  else Err (InvalidHex ("expected 64 hex chars, got " +:+ pretty (str_len s))).

(** [Hash::ct_eq]. *)
Definition hash_ct_eq (a b : bytes) : bool := bool_decide (a = b).

(** ** The signed payload *)

Definition SIGNING_DOMAIN_TAG : bytes := as_bytes "DELTASHIP-sig-v1" ++ [byte_of_Z 0].

Definition signing_payload (blake3_hash : bytes) (version_string : string) : bytes :=
  SIGNING_DOMAIN_TAG ++ blake3_hash ++ as_bytes version_string.

(** ** Properties *)

(** Hashing a file in 8 KiB chunks: for every hasher whose incremental
    interface computes [digest], [hash_file] on a readable file returns the
    digest of the whole content, and the progress callback sees strictly
    increasing totals that end at the file's length. *)
Theorem hash_file_whole {H Output} {SH : StreamHasher H Output} digest {HL : HasherLaw SH digest} path w data :
  quiet w -> node_at (files w) (resolve path) = Some (File data) ->
  (hash_file path w).1 = Ok (digest data) /\
  exists calls, (hash_file_generic path hasher_new w).1 = Ok (digest data, calls) /\
    default 0 (last calls) = lenZ data /\ StronglySorted Z.lt (0 :: calls).
Proof.
  intros Hq Hn. assert (Hg : exists calls, (hash_file_generic path hasher_new w).1 = Ok (digest data, calls) /\
    default 0 (last calls) = lenZ data /\ StronglySorted Z.lt (0 :: calls)).
  { unfold hash_file_generic, io_map, read. rewrite syscall_quiet by done. unfold fs_read. rewrite Hn. cbn [fst].
    destruct (hash_loop_spec (S (length data)) hasher_new data 0) as (chunks & calls & -> & Hcat & _ & Hlast & Hs); [lia|].
    exists calls. rewrite (hasher_chunks chunks), Hcat. done. }
  split; [|done]. destruct Hg as (calls & Hg & _). unfold hash_file, io_map in *.
  destruct (hash_file_generic path hasher_new w) as [r w']. cbn in *. by rewrite Hg.
Qed.

Lemma code_hexdigit c : is_ascii_hexdigit c = true -> code c < 128 /\ c <> "+"%char.
Proof.
  intros H. split; [|by intros ->]. revert H.
  unfold is_ascii_hexdigit, is_ascii_digit, between. repeat rewrite ?orb_true_iff, ?andb_true_iff, ?Z.leb_le. lia.
Qed.

Lemma parse_hex_byte b l : parse_hex_pairs (hex_byte b ++ l) = xs ← parse_hex_pairs l; Ok (b :: xs).
Proof.
  destruct (hex_byte_digits b) as (c & d & -> & Hc & Hd & Hxc & Hxd & _). cbn [app parse_hex_pairs].
  destruct (code_hexdigit c Hxc) as [Hc1 Hc2], (code_hexdigit d Hxd) as [Hd1 _].
  assert (parse_hex_pair [c; d] = Ok b) as ->; [|done].
  unfold parse_hex_pair. rewrite utf8_valid_ascii by (by repeat constructor).
  unfold u8_from_str_radix16. rewrite bool_decide_eq_false_2 by done.
  pose proof (byte_to_Z_range b). pose proof (Z.div_mod (byte_to_Z b) 16 ltac:(lia)).
  pose proof (Z.mod_pos_bound (byte_to_Z b) 16 ltac:(lia)). cbn [radix16]. rewrite Hc. cbn [mbind option_bind].
  change u8_max with 255. destruct (Z.leb_spec (0 * 16 + byte_to_Z b / 16) 255); [|lia]. rewrite Hd. cbn [mbind option_bind].
  destruct (Z.leb_spec ((0 * 16 + byte_to_Z b / 16) * 16 + byte_to_Z b mod 16) 255); [|lia].
  f_equal. rewrite <- (byte_of_to_Z b). f_equal. rewrite byte_of_to_Z. lia.
Qed.

Lemma parse_hex_chars b : parse_hex_pairs (hex_chars b) = Ok b.
Proof. induction b as [|x b IH]; [done|]. by rewrite hex_chars_cons, parse_hex_byte, IH. Qed.

(** Hash values survive their text form: the text of a 32-byte hash is 64
    lower-case hexadecimal digits and parsing it gives the hash back, so
    different hashes have different texts. *)
Theorem hash_hex_roundtrip h :
  lenZ h = 32 ->
  hash_from_hex (hash_to_hex h) = Ok h /\ str_len (hash_to_hex h) = 64 /\
  Forall (fun c => is_ascii_hexdigit c = true) (chars (hash_to_hex h)) /\
  to_lowercase (hash_to_hex h) = hash_to_hex h.
Proof.
  intros Hh. assert (Hl : str_len (hash_to_hex h) = 64).
  { unfold str_len, hash_to_hex, lenZ in *. rewrite chars_of_chars, length_hex_chars. lia. }
  split_and!; [|done| |].
  - unfold hash_from_hex. rewrite bool_decide_eq_true_2 by done. unfold hash_to_hex. rewrite chars_of_chars. apply parse_hex_chars.
  - unfold hash_to_hex. rewrite chars_of_chars. apply hex_chars_hexdigit.
  - rewrite to_lowercase_ascii.
    + unfold to_ascii_lowercase, hash_to_hex. by rewrite chars_of_chars, hex_chars_lower.
    + apply all_chars_Forall. unfold hash_to_hex. rewrite chars_of_chars.
      eapply Forall_impl; [apply hex_chars_hexdigit|]. intros c. by destruct c as [[] [] [] [] [] [] [] []].
Qed.

(** [from_hex] accepts texts that are not hexadecimal: each pair may be a
    plus sign and one digit, so "+a" repeated is read as the hash of bytes 10,
    the same hash that "0a" repeated denotes. *)
Theorem hash_from_hex_accepts_plus :
  hash_from_hex (of_chars (concat (replicate 32 ["+"%char; "a"%char]))) = Ok (replicate 32 (byte_of_Z 10)) /\
  hash_from_hex (of_chars (concat (replicate 32 ["0"%char; "a"%char]))) = Ok (replicate 32 (byte_of_Z 10)).
Proof. split; vm_compute; reflexivity. Qed.

(** What a signature covers: two signed payloads are equal only when both
    the hash of the binary and the version string are, so a signature cannot be
    replayed for another binary or another version. *)
Theorem signing_payload_injective h h' v v' :
  lenZ h = lenZ h' -> signing_payload h v = signing_payload h' v' -> h = h' /\ v = v'.
Proof.
  intros Hl H. unfold signing_payload in H. apply (inj (app SIGNING_DOMAIN_TAG)) in H.
  apply app_inj_1 in H as [-> Hv]; [|unfold lenZ in Hl; lia]. split; [done|]. by apply (inj as_bytes).
Qed.

(** ** Applications *)

#[local] Instance concat_hasher : StreamHasher bytes bytes :=
  {| hasher_new := []; hasher_update := app; hasher_finalize := reverse |}.
#[local] Instance concat_hasher_law : HasherLaw concat_hasher reverse.
Proof.
  intros chunks. cbn. f_equal. rewrite <- (app_nil_l (concat chunks)). generalize (@nil byte) as acc.
  induction chunks as [|c cs IH]; intros acc; cbn; [by rewrite app_nil_r|]. by rewrite IH, app_assoc.
Qed.

Definition one_file : world :=
  {| files := {[ ["data.bin"] := File (as_bytes "abc") ]}; faults := fun _ => None; tick := 0 |}.

Lemma hash_file_whole_witness : (hash_file "/data.bin" one_file).1 = Ok (reverse (as_bytes "abc")).
Proof. apply (hash_file_whole reverse "/data.bin" one_file (as_bytes "abc")); [done|vm_compute; reflexivity]. Defined.

Lemma hash_hex_roundtrip_witness :
  hash_from_hex (hash_to_hex (replicate 32 (byte_of_Z 171))) = Ok (replicate 32 (byte_of_Z 171)).
Proof. apply (hash_hex_roundtrip (replicate 32 (byte_of_Z 171))). reflexivity. Defined.

Lemma signing_payload_injective_witness :
  replicate 32 (byte_of_Z 1) = replicate 32 (byte_of_Z 1) /\ "1.0.0" = "1.0.0".
Proof. apply (signing_payload_injective (replicate 32 (byte_of_Z 1)) (replicate 32 (byte_of_Z 1)) "1.0.0" "1.0.0"); reflexivity. Defined.
