(* ===== verification/Serving.v ===== *)
(** * Serving: the update-check and download routes
    ([deltaship-server/src/routes/update.rs], [routes/download.rs])

    [blake3] is a parameter (32-byte digests).  A handler is a program over the
    file system that returns a response or a status with a message. *)

From S2P Require Import Prelude Text Version Core Validation RateLimit Fs Catalog Storage StorageFacts Auth Crypto.

#[local] Open Scope Z_scope.
#[local] Open Scope io_scope.

Abbreviation http A := (io (result (StatusCode * string) A)).

Definition invalid_request : StatusCode * string := (BAD_REQUEST, "Invalid request").
Definition not_found : StatusCode * string := (NOT_FOUND, "Resource not found").
Definition server_error : StatusCode * string := (INTERNAL_SERVER_ERROR, "Internal server error").

Record UpdateCheckQuery := {
  q_current_version : option string;
  q_platform : string;
  q_device_id_hash : option string;
}.

Section Serving.
Context {SV : Semver}.
Context {SC : Serde AppCatalog} {SM : Serde VersionManifest} {SR : Serde RolloutConfig}.
Context (blake3 : bytes -> bytes).

(** ** Update checks *)

Definition device_in_rollout (device_id : string) (percentage : Z) : bool :=
  if percentage =? 0 then false
  else if 100 <=? percentage then true
  else le_combine (take 8 (blake3 (as_bytes device_id))) mod 100 <? percentage.

(** Whether the rollout of the latest version holds this request back. *)
Definition held_back (rollout : option RolloutConfig) (device_id : option string) : option RolloutPercentage :=
  match rollout with
  | Some config =>
      if rc_enabled config && (rc_percentage config <? 100) then
        match device_id with
        | Some d =>
            if negb (device_in_rollout d (rc_percentage config))
            then Some (default (MkRolloutPercentage 0) (ok (rollout_percentage_new (rc_percentage config))))
            else None
        | None => None
        end
      else None
  | None => None
  end.

Definition opt_with {A B} (f : A -> B -> B) (o : option A) (b : B) : B :=
  match o with Some a => f a b | None => b end.

(** The response that offers [info], from the manifest of its version. *)
Definition offer (app_name : string) (current latest : Version) (info : VersionInfo) (platform : Platform)
    (manifest : option VersionManifest) (rollout : option RolloutConfig) (device_id : option string)
    : UpdateCheckResponse :=
  let version_str := version_to_string latest in
  let base_url := "/api/v1/apps/" +:+ app_name in
  let artifact := manifest ≫= (fun m => vm_platforms m !! platform) in
  let diff_info := artifact ≫= (fun a => List.find (fun d => version_eqb (di_from_version d) current) (pa_diffs_from a)) in
  let r := with_forced (vi_forced info)
    (with_signature_url (base_url +:+ "/versions/" +:+ version_str +:+ "/signature")
    (with_full_binary_url (base_url +:+ "/versions/" +:+ version_str +:+ "/binary?platform=" +:+ platform_as_str platform)
    (available latest))) in
  let r := opt_with (fun _ => with_diff_url (base_url +:+ "/diffs/" +:+ version_to_string current +:+ "-to-" +:+
                               version_str +:+ "?platform=" +:+ platform_as_str platform)) diff_info r in
  let r := opt_with (fun d => with_diff_checksum (di_checksum d)) diff_info r in
  let r := opt_with (fun d => with_diff_size (di_size d)) diff_info r in
  let r := opt_with (fun a => with_checksum (pa_checksum a)) artifact r in
  let r := opt_with with_release_notes (vi_release_notes info) r in
  match rollout with
  | Some config =>
      let r := opt_with with_rollout_percentage (ok (rollout_percentage_new (rc_percentage config))) r in
      if bool_decide (is_Some device_id) then with_in_rollout true r else r
  | None => r
  end.

Definition check_update (data_dir app_name : string) (query : UpdateCheckQuery) : http UpdateCheckResponse :=
  elift (map_err (fun _ => invalid_request) (validate_name app_name)) ;;?
  platform ←? elift (map_err (fun _ => (BAD_REQUEST, "Invalid platform: " +:+ q_platform query))
                             (platform_from_str (q_platform query)));
  current ←? elift (match q_current_version query with
                    | Some v => map_err (fun _ => (BAD_REQUEST, "Invalid version: " +:+ v)) (version_from_str v)
                    | None => Ok (version_new 0 0 0)
                    end);
  o ←? io_map Ok (get_app_catalog data_dir app_name);
  catalog ←? elift (ok_or (NOT_FOUND, "Application not found: " +:+ app_name) o);
  if version_geb current (cat_latest_version catalog) then eret no_update
  else
    match List.find (fun e => version_eqb (vi_version e) (cat_latest_version catalog) &&
                              bool_decide (platform ∈ vi_platforms e)) (cat_versions catalog) with
    | None => eret no_update
    | Some info =>
        let version_str := version_to_string (cat_latest_version catalog) in
        rollout ←? io_map Ok (get_rollout_config data_dir app_name version_str);
        match held_back rollout (q_device_id_hash query) with
        | Some pct => eret (not_in_rollout (cat_latest_version catalog) pct)
        | None =>
            manifest ←? io_map Ok (get_version_manifest data_dir app_name version_str);
            eret (offer app_name current (cat_latest_version catalog) info platform manifest rollout
                        (q_device_id_hash query))
        end
    end.

(** ** Downloads *)

(** A streamed response: its body and the announced length. *)
Record FileResponse := { body : bytes; content_length : Z }.

(** Open the file, ask for its length, stream it.  The content streamed is the
    one at the time of opening. *)
Definition stream_file (path : string) : http FileResponse :=
  data ←? io_map (map_err (fun _ => server_error)) (read path);
  len ←? io_map (map_err (fun _ => server_error)) (file_len path);
  eret {| body := data; content_length := len |}.

(** With an expected checksum the file is hashed first, then opened again. *)
Definition serve_file (path : string) (expected_checksum : option string) : http FileResponse :=
  match expected_checksum with
  | Some expected =>
      data ←? io_map (map_err (fun _ => server_error)) (read path);
      let computed := hash_to_hex (blake3 data) in
      if bool_decide (to_lowercase computed = to_lowercase expected)
      then stream_file path
      else efail (INTERNAL_SERVER_ERROR, "File integrity check failed")
  | None => stream_file path
  end.

Definition download_binary (data_dir app_name version platform : string) : http FileResponse :=
  elift (map_err (fun _ => invalid_request) (validate_name app_name)) ;;?
  elift (map_err (fun _ => invalid_request) (validate_version version)) ;;?
  platform ←? elift (map_err (fun _ => invalid_request) (platform_from_str platform));
  let binary_path := get_binary_path data_dir app_name version platform in
  b ←? io_map Ok (exists_ binary_path);
  if (b : bool) then
    m ←? io_map Ok (get_version_manifest data_dir app_name version);
    serve_file binary_path (m ≫= (fun m => pa_checksum <$> vm_platforms m !! platform))
  else efail not_found.

Definition download_diff (data_dir app_name diff_spec platform : string) : http FileResponse :=
  elift (map_err (fun _ => invalid_request) (validate_name app_name)) ;;?
  platform ←? elift (map_err (fun _ => invalid_request) (platform_from_str platform));
  match split_str "-to-" diff_spec with
  | [from_version; to_version] =>
      if str_is_empty from_version || str_is_empty to_version then efail invalid_request
      else
        elift (map_err (fun _ => invalid_request) (validate_version from_version)) ;;?
        elift (map_err (fun _ => invalid_request) (validate_version to_version)) ;;?
        let diff_path := get_diff_path data_dir app_name from_version to_version platform in
        b ←? io_map Ok (exists_ diff_path);
        if (b : bool) then
          m ←? io_map Ok (get_version_manifest data_dir app_name to_version);
          serve_file diff_path
            (a ← (m ≫= (fun m => vm_platforms m !! platform));
             d ← List.find (fun d => bool_decide (version_to_string (di_from_version d) = from_version)) (pa_diffs_from a);
             Some (di_checksum d))
        else efail not_found
  | _ => efail invalid_request
  end.

Definition download_signature (data_dir app_name version : string) : http FileResponse :=
  elift (map_err (fun _ => invalid_request) (validate_name app_name)) ;;?
  elift (map_err (fun _ => invalid_request) (validate_version version)) ;;?
  let signature_path := get_signature_path data_dir app_name version in
  b ←? io_map Ok (exists_ signature_path);
  if (b : bool) then serve_file signature_path None else efail not_found.
End Serving.

(** ** Lemmas *)

Lemma ebind_inv {E A B} (m : io (result E A)) (f : A -> io (result E B)) w b w' :
  ebind m f w = (Ok b, w') -> exists a w1, m w = (Ok a, w1) /\ f a w1 = (Ok b, w').
Proof. unfold ebind. destruct (m w) as [[a|e] w1]; [eauto|done]. Qed.

Lemma elift_inv {E A} (r : result E A) w a w' : elift r w = (Ok a, w') -> r = Ok a /\ w' = w.
Proof. unfold elift. by intros [= -> ->]. Qed.

Lemma io_map_Ok_inv {E A} (m : io A) w a w' : io_map (Ok (E := E)) m w = (Ok a, w') -> m w = (a, w').
Proof. unfold io_map. destruct (m w). by intros [= -> ->]. Qed.

Lemma map_err_inv {E F A} (f : E -> F) (r : result E A) w a w' :
  elift (map_err f r) w = (Ok a, w') -> r = Ok a /\ w' = w.
Proof. intros [H ->]%elift_inv. by apply map_err_Ok in H. Qed.

(** Peel the successful steps of a handler. *)
Ltac peel H :=
  let a := fresh "a" in let w := fresh "w" in let E := fresh "E" in
  apply ebind_inv in H as (a & w & E & H).

Lemma read_inv path w data w' :
  read path w = (Ok data, w') -> fs_read (files w) (resolve path) = Ok data /\ files w' = files w.
Proof.
  unfold read. destruct (syscall_cases (fun f => (fs_read f (resolve path), f)) (fun _ f => (Err IoFault, f)) w)
    as [[_ ->]|(k & _ & ->)]; cbn; [|done]. by intros [= -> <-].
Qed.

Lemma fs_read_node f p data : fs_read f p = Ok data -> node_at f p = Some (File data).
Proof. unfold fs_read. by destruct (node_at f p) as [[|c]|]; intros [= ->]. Qed.

Lemma io_map_err_inv {E F A} (f : E -> F) (m : io (result E A)) w a w' :
  io_map (map_err f) m w = (Ok a, w') -> m w = (Ok a, w').
Proof. unfold io_map. destruct (m w) as [r w1]. intros [= Hr ->]. by apply map_err_Ok in Hr as ->. Qed.

Lemma read_quiet p w c :
  quiet w -> node_at (files w) (resolve p) = Some (File c) -> read p w = (Ok c, advance w (files w)).
Proof. intros Hq Hp. unfold read. rewrite syscall_quiet by done. unfold fs_read. by rewrite Hp. Qed.

Lemma stream_file_inv path w resp w' :
  stream_file path w = (Ok resp, w') ->
  node_at (files w) (resolve path) = Some (File (body resp)) /\ content_length resp = lenZ (body resp) /\
  files w' = files w.
Proof.
  unfold stream_file. intros H. peel H. apply io_map_err_inv, read_inv in E as [Hr1 Hf1].
  peel H. apply io_map_err_inv in E. injection H as <- <-. cbn. unfold file_len, io_map in E.
  destruct (read path w0) as [[d|e] w2] eqn:Er; [|done]. injection E as <- <-.
  apply read_inv in Er as [Hr2 Hf2]. rewrite Hf1, Hr1 in Hr2. injection Hr2 as <-.
  split; [by apply fs_read_node|]. split; [done|congruence].
Qed.

Lemma stream_file_quiet path w data :
  quiet w -> node_at (files w) (resolve path) = Some (File data) ->
  stream_file path w = (Ok {| body := data; content_length := lenZ data |}, advance (advance w (files w)) (files w)).
Proof.
  intros Hq Hn. unfold stream_file.
  erewrite ebind_Ok by exact (io_map_step _ _ _ (Ok data) _ (read_quiet path w data Hq Hn)).
  assert (Hl : file_len path (advance w (files w)) = (Ok (lenZ data), advance (advance w (files w)) (files w)))
    by exact (io_map_step _ _ _ _ _ (read_quiet path (advance w (files w)) data (quiet_advance _ _ Hq) Hn)).
  by erewrite ebind_Ok by exact (io_map_step _ _ _ _ _ Hl).
Qed.

Section Facts.
Context {SV : Semver} {SVL : SemverLaws SV}.
Context {SC : Serde AppCatalog} {SM : Serde VersionManifest} {SR : Serde RolloutConfig}.
Context (blake3 : bytes -> bytes).

Lemma version_geb_false v w : version_geb v w = false -> version_cmp v w = Lt.
Proof. unfold version_geb. rewrite bool_decide_eq_false. destruct (version_cmp v w); naive_solver. Qed.

Lemma opt_with_fields {A} (f : A -> UpdateCheckResponse -> UpdateCheckResponse) o r :
  (forall a r, update_available (f a r) = update_available r /\ target_version (f a r) = target_version r) ->
  update_available (opt_with f o r) = update_available r /\ target_version (opt_with f o r) = target_version r.
Proof. intros Hf. destruct o; cbn; [apply Hf|done]. Qed.

Lemma offer_target app cur latest i p m r d :
  update_available (offer app cur latest i p m r d) = true /\
  target_version (offer app cur latest i p m r d) = Some latest.
Proof.
  unfold offer. destruct r as [config|]; [destruct (rollout_percentage_new _)|]; repeat case_match; repeat (
    match goal with |- context [opt_with ?f ?o ?x] =>
      destruct (opt_with_fields f o x ltac:(done)) as [-> ->] end || cbn); done.
Qed.

(** The position of a device among a hundred buckets. *)
Definition bucket (device_id : string) : Z := le_combine (take 8 (blake3 (as_bytes device_id))) mod 100.

Lemma device_in_rollout_bucket d p :
  0 <= p -> device_in_rollout blake3 d p = bool_decide (bucket d < p).
Proof.
  intros Hp. unfold device_in_rollout. pose proof (Z.mod_pos_bound (le_combine (take 8 (blake3 (as_bytes d)))) 100 ltac:(lia)).
  fold (bucket d) in *. destruct (Z.eqb_spec p 0), (Z.leb_spec 100 p), (Z.ltb_spec (bucket d) p); case_bool_decide; lia || done.
Qed.
End Facts.

(** ** Properties *)

Section Properties.
Context {SV : Semver} {SVL : SemverLaws SV}.
Context {SC : Serde AppCatalog} {SM : Serde VersionManifest} {SR : Serde RolloutConfig}.
Context (blake3 : bytes -> bytes).

(** Gradual rollouts: a device is in the rollout exactly when its bucket, a
    number below 100 that depends on its identifier alone, is below the
    percentage; so raising the percentage never drops a device, nobody is in at
    0 and everybody is in at 100 and above. *)
Theorem rollout_monotone d p q :
  0 <= p <= q ->
  0 <= bucket blake3 d < 100 /\
  device_in_rollout blake3 d p = bool_decide (bucket blake3 d < p) /\
  (device_in_rollout blake3 d p = true -> device_in_rollout blake3 d q = true) /\
  device_in_rollout blake3 d 0 = false /\ (100 <= q -> device_in_rollout blake3 d q = true).
Proof.
  intros [Hp Hq]. assert (Hb : 0 <= bucket blake3 d < 100) by (apply Z.mod_pos_bound; lia).
  rewrite !device_in_rollout_bucket by lia. rewrite !bool_decide_eq_true, bool_decide_eq_false.
  split; [done|]. split; [done|]. lia.
Qed.


(** Downloads are verified: a body that [serve_file] returns under an
    expected checksum is the content of the file, announced with its length,
    and its hash is the expected one (up to letter case); corrupted content is
    never served but refused with a server error. *)
Theorem serve_file_verified path expected w :
  (forall resp w', serve_file blake3 path (Some expected) w = (Ok resp, w') ->
     node_at (files w) (resolve path) = Some (File (body resp)) /\
     content_length resp = lenZ (body resp) /\
     to_lowercase (hash_to_hex (blake3 (body resp))) = to_lowercase expected) /\
  (forall data, quiet w -> node_at (files w) (resolve path) = Some (File data) ->
     (serve_file blake3 path (Some expected) w).1 =
     if bool_decide (to_lowercase (hash_to_hex (blake3 data)) = to_lowercase expected)
     then Ok {| body := data; content_length := lenZ data |}
     else Err (INTERNAL_SERVER_ERROR, "File integrity check failed")).
Proof.
  split.
  - intros resp w' H. cbn [serve_file] in H. peel H.
    apply io_map_err_inv, read_inv in E as [Hr1 Hf1]. case_bool_decide as Hc; [|done].
    apply stream_file_inv in H as (Hn & Hl & _). rewrite Hf1 in Hn. apply fs_read_node in Hr1.
    assert (body resp = a) as Hb by congruence. rewrite Hb in *. by split_and!.
  - intros data Hq Hn. cbn [serve_file].
    erewrite ebind_Ok by exact (io_map_step _ _ _ (Ok data) _ (read_quiet path w data Hq Hn)).
    case_bool_decide; [|done]. by rewrite (stream_file_quiet path _ data (quiet_advance _ _ Hq)).
Qed.
End Properties.
