(* ===== verification/Admin.v ===== *)
(** * Admin: listings, statistics and the administration routes
    ([deltaship-server/src/storage.rs], [stats.rs], [routes/admin.rs])

    Directory listings come in an arbitrary order (class [HashIter], as for
    hash sets), and a failing [read_dir] may fail at once or after some
    entries. *)

From S2P Require Import Prelude Text Version Core Validation RateLimit Fs Catalog Storage StorageFacts Auth Serving.

#[local] Open Scope Z_scope.
#[local] Open Scope io_scope.

(** ** Directories *)

Fixpoint strip_path (p q : list string) : option (list string) :=
  match p, q with
  | [], q => Some q
  | x :: p, y :: q => if bool_decide (x = y) then strip_path p q else None
  | _ :: _, [] => None
  end.

(** The names in directory [p]. *)
Definition child_of (p q : list string) : option string :=
  match strip_path p q with Some [n] => Some n | _ => None end.
Definition children (f : fs) (p : list string) : gset string :=
  list_to_set (omap (child_of p) (map_to_list f).*1).

Section Listing.
Context {HI : HashIter}.

Definition fs_read_dir (f : fs) (p : list string) : result io_error (list string) :=
  match node_at f p with
  | Some Dir => Ok (set_iter (children f p))
  | Some (File _) => Err IoNotADirectory
  | None => Err IoNotFound
  end.

(** [fs::read_dir] with its iterator: the entries, one of which may be an error. *)
Definition with_entries (f : fs) (p : list string) (g : list string -> list (result io_error string))
    : result io_error (list (result io_error string)) * fs :=
  (match fs_read_dir f p with Ok l => Ok (g l) | Err e => Err e end, f).

Definition read_dir (p : string) : io (result io_error (list (result io_error string))) :=
  syscall (fun f => with_entries f (resolve p) (List.map Ok))
          (fun k f => match k with
                      | O => (Err IoFault, f)
                      | S k => with_entries f (resolve p) (fun l => List.map Ok (take k l) ++ [Err IoFault])
                      end).

(** [fs::symlink_metadata]: the kind of the node, with the length of a file. *)
Definition symlink_metadata (p : string) : io (result io_error node) :=
  syscall (fun f => (ok_or IoNotFound (node_at f (resolve p)), f)) (fun _ f => (Err IoFault, f)).

(** [entries.flatten()], [filter_map(|e| e.ok())]. *)
Definition flatten {E A} (l : list (result E A)) : list A := omap ok l.

(** [.filter(|e| e.path().is_dir()).count()]. *)
Fixpoint dirs_of (path : string) (names : list string) : io (list string) :=
  match names with
  | [] => mret []
  | n :: names =>
      d ← is_dir (join path n);
      r ← dirs_of path names;
      mret (if (d : bool) then n :: r else r)
  end.

Definition count_dirs (path : string) : io Z :=
  r ← read_dir path;
  match r with
  | Ok entries => io_map (fun l => lenZ l) (dirs_of path (flatten entries))
  | Err _ => mret 0
  end.

(** ** Sizes *)

(** The loop over the entries of a directory. *)
Fixpoint size_loop (rec : string -> io Z) (path : string) (names : list string) (size : Z) : io Z :=
  match names with
  | [] => mret size
  | n :: names =>
      m ← symlink_metadata (join path n);
      size ← match m with
             | Ok (File c) => mret (saturating_add_u64 size (lenZ c))
             | Ok Dir => d ← rec (join path n); mret (saturating_add_u64 size d)
             | Err _ => mret size
             end;
      size_loop rec path names size
  end.

Fixpoint dir_size (fuel : nat) (path : string) : io Z :=
  match fuel with
  | O => mret 0
  | S fuel =>
      r ← read_dir path;
      match r with
      | Ok entries => size_loop (dir_size fuel) path (flatten entries) 0
      | Err _ => mret 0
      end
  end.

(** The length of the longest path: recursion is never deeper. *)
Definition depth (f : fs) : nat := max_list (length <$> (map_to_list f).*1).

(** [calculate_app_size] and [calculate_dir_size]; enough fuel for the tree. *)
Definition calculate_app_size (app_dir : string) : io Z := fun w => dir_size (S (depth (files w))) app_dir w.
Definition calculate_dir_size (path : string) : io Z := fun w => dir_size (S (depth (files w))) path w.

(** ** Statistics *)

Definition calculate_storage_usage (data_dir : string) : io Z :=
  b ← exists_ (join data_dir "apps");
  if (b : bool) then calculate_dir_size (join data_dir "apps") else mret 0.

Definition count_apps (data_dir : string) : io Z :=
  b ← exists_ (join data_dir "apps");
  if (b : bool) then count_dirs (join data_dir "apps") else mret 0.

Fixpoint count_versions_loop (apps_dir : string) (names : list string) (count : Z) : io Z :=
  match names with
  | [] => mret count
  | n :: names =>
      let versions_dir := join (join apps_dir n) "versions" in
      d ← is_dir versions_dir;
      k ← (if (d : bool) then count_dirs versions_dir else mret 0);
      count_versions_loop apps_dir names (count + k)
  end.

Definition count_versions (data_dir : string) : io Z :=
  let apps_dir := join data_dir "apps" in
  b ← exists_ apps_dir;
  if (b : bool) then
    r ← read_dir apps_dir;
    match r with
    | Ok entries => count_versions_loop apps_dir (flatten entries) 0
    | Err _ => mret 0
    end
  else mret 0.

(** ** Sorting *)

(** [sort_by], stable. *)
Section Sort.
Context {A : Type} (cmp : A -> A -> comparison).
Fixpoint insert_by (x : A) (l : list A) : list A :=
  match l with
  | [] => [x]
  | y :: l' => match cmp x y with Gt => y :: insert_by x l' | _ => x :: l end
  end.
Definition sort_by (l : list A) : list A := foldr insert_by [] l.
End Sort.

(** ** Listings *)

Section Json.
Context {SV : Semver}.
Context {SC : Serde AppCatalog} {SM : Serde VersionManifest} {SR : Serde RolloutConfig}.

(** One application: the number of its versions and its latest one. *)
Definition app_summary (path : string) : io (Z * string) :=
  let catalog_path := join path "catalog.json" in
  b ← exists_ catalog_path;
  if (b : bool) then
    o ← read_json_opt (A := AppCatalog) catalog_path;
    mret match o with
         | Some c => (lenZ (cat_versions c), version_to_string (cat_latest_version c))
         | None => (0, "unknown")
         end
  else
    v ← exists_ (join path "versions");
    count ← (if (v : bool) then count_dirs (join path "versions") else mret 0);
    mret (count, "unknown").

Fixpoint list_apps_loop (apps_dir : string) (entries : list (result io_error string))
    : io (result StorageError (list AppListItem)) :=
  match entries with
  | [] => eret []
  | Err e :: _ => efail (SIo e)
  | Ok name :: entries =>
      d ←? io_map Ok (is_dir (join apps_dir name));
      if (d : bool) then
        s ←? io_map Ok (app_summary (join apps_dir name));
        r ←? list_apps_loop apps_dir entries;
        eret ({| al_name := name; al_versions_count := s.1; al_latest_version := s.2 |} :: r)
      else list_apps_loop apps_dir entries
  end.

Definition list_apps (data_dir : string) : io (result StorageError (list AppListItem)) :=
  let apps_dir := join data_dir "apps" in
  b ←? io_map Ok (exists_ apps_dir);
  if (b : bool) then
    entries ←? lift (read_dir apps_dir);
    apps ←? list_apps_loop apps_dir entries;
    eret (sort_by (fun a b => String.compare (al_name a) (al_name b)) apps)
  else eret [].

Definition app_not_found (app_name : string) : StorageError := SNotFound ("Application not found: " +:+ app_name).

Definition get_app_info (data_dir app_name : string) : io (result StorageError AppDetails) :=
  let d := app_dir data_dir app_name in
  b ←? io_map Ok (exists_ d);
  if (b : bool) then
    let catalog_path := join d "catalog.json" in
    b ←? io_map Ok (exists_ catalog_path);
    vp ←? (if (b : bool) then
             c ←? read_json (A := AppCatalog) catalog_path;
             eret ((fun e => version_to_string (vi_version e)) <$> cat_versions c,
                   set_iter (list_to_set (platform_as_str <$> (cat_versions c ≫= vi_platforms))))
           else
             v ←? io_map Ok (exists_ (join d "versions"));
             if (v : bool) then
               entries ←? lift (read_dir (join d "versions"));
               names ←? io_map Ok (dirs_of (join d "versions") (flatten entries));
               eret (names, [])
             else eret ([], []));
    size ←? io_map Ok (calculate_app_size d);
    eret {| ad_name := app_name; ad_versions := vp.1; ad_total_size_bytes := size; ad_platforms := vp.2 |}
  else efail (app_not_found app_name).

(** The size and the platforms a manifest states. *)
Definition manifest_summary (path : string) : io (Z * list string) :=
  let manifest_path := join path "manifest.json" in
  b ← exists_ manifest_path;
  if (b : bool) then
    o ← read_json_opt (A := VersionManifest) manifest_path;
    mret match o with
         | Some m => (foldl (fun acc a => saturating_add_u64 acc (pa_size a)) 0 (map_to_list (vm_platforms m)).*2,
                      set_iter (list_to_set (platform_as_str <$> (map_to_list (vm_platforms m)).*1)))
         | None => (0, [])
         end
  else mret (0, []).

(** The rollout percentage shown: that of the catalog entry when there is a
    catalog, else that of [rollout.json]. *)
Definition shown_rollout (catalog : option AppCatalog) (path version_str : string) : io Z :=
  match catalog with
  | Some c =>
      mret (default 100 (rc_percentage <$> (List.find (fun e => bool_decide (version_to_string (vi_version e) = version_str))
                                                      (cat_versions c) ≫= vi_rollout)))
  | None =>
      b ← exists_ (join path "rollout.json");
      if (b : bool) then
        o ← read_json_opt (A := RolloutConfig) (join path "rollout.json");
        mret (default 100 (rc_percentage <$> o))
      else mret 100
  end.

Definition version_item (catalog : option AppCatalog) (path version_str : string) : io VersionListItem :=
  deleted ← exists_ (join path ".deleted");
  s ← manifest_summary path;
  pct ← shown_rollout catalog path version_str;
  mret {| vl_version := version_str; vl_size_bytes := s.1; vl_platforms := s.2;
          vl_rollout_percentage := pct; vl_deleted := deleted; vl_published_at := None |}.

Fixpoint list_versions_loop (catalog : option AppCatalog) (versions_dir : string) (entries : list (result io_error string))
    : io (result StorageError (list VersionListItem)) :=
  match entries with
  | [] => eret []
  | Err e :: _ => efail (SIo e)
  | Ok name :: entries =>
      d ←? io_map Ok (is_dir (join versions_dir name));
      if (d : bool) then
        i ←? io_map Ok (version_item catalog (join versions_dir name) name);
        r ←? list_versions_loop catalog versions_dir entries;
        eret (i :: r)
      else list_versions_loop catalog versions_dir entries
  end.

Definition list_versions (data_dir app_name : string) : io (result StorageError (list VersionListItem)) :=
  let d := app_dir data_dir app_name in
  b ←? io_map Ok (exists_ d);
  if (b : bool) then
    v ←? io_map Ok (exists_ (join d "versions"));
    if (v : bool) then
      b ←? io_map Ok (exists_ (join d "catalog.json"));
      catalog ←? (if (b : bool) then io_map Ok (read_json_opt (join d "catalog.json")) else eret None);
      entries ←? lift (read_dir (join d "versions"));
      versions ←? list_versions_loop catalog (join d "versions") entries;
      eret (sort_by (fun a b => String.compare (vl_version b) (vl_version a)) versions)
    else eret []
  else efail (app_not_found app_name).

(** ** Routes *)

Record ServerStats := { apps_count : Z; total_versions : Z; total_storage_bytes : Z; uptime_seconds : Z }.
Record DeleteVersionResponse := { dv_success : bool; dv_message : string }.

Definition storage_status (msg : string) (e : StorageError) : StatusCode * string :=
  match e with SNotFound _ => (NOT_FOUND, msg) | _ => server_error end.

Definition admin_list_apps (data_dir : string) : http (list AppListItem) :=
  io_map (map_err (fun _ => server_error)) (list_apps data_dir).

Definition admin_get_app_details (data_dir app_name : string) : http AppDetails :=
  elift (map_err (fun _ => (BAD_REQUEST, "Invalid application name")) (validate_name app_name)) ;;?
  io_map (map_err (storage_status "Application not found")) (get_app_info data_dir app_name).

Definition admin_list_versions (data_dir app_name : string) : http (list VersionListItem) :=
  elift (map_err (fun _ => (BAD_REQUEST, "Invalid application name")) (validate_name app_name)) ;;?
  io_map (map_err (storage_status "Application not found")) (list_versions data_dir app_name).

Definition admin_delete_version (data_dir app_name version : string) (p : Publisher) : http DeleteVersionResponse :=
  elift (map_err (fun _ => (BAD_REQUEST, "Invalid application name")) (validate_name app_name)) ;;?
  if negb (can_publish p app_name) then efail (FORBIDDEN, "Not authorized for this app")
  else
    elift (map_err (fun _ => (BAD_REQUEST, "Invalid version")) (validate_version version)) ;;?
    io_map (map_err (storage_status "Version not found")) (delete_version data_dir app_name version) ;;?
    eret {| dv_success := true;
            dv_message := "Version " +:+ version +:+ " of " +:+ app_name +:+ " has been marked as deleted" |}.

(** [uptime] is the reading of the server's clock. *)
Definition get_stats (data_dir : string) (uptime : Z) : io ServerStats :=
  a ← count_apps data_dir;
  v ← count_versions data_dir;
  s ← calculate_storage_usage data_dir;
  mret {| apps_count := a; total_versions := v; total_storage_bytes := s; uptime_seconds := uptime |}.
End Json.
End Listing.

(** ** Sizes: lemmas *)

(** Every node has a directory above it, and no name is empty, a dot or has a
    separator. *)
Definition tree (f : fs) : Prop :=
  forall p n, is_Some (f !! (p ++ [n])) -> plain n /\ node_at f p = Some Dir.

Fixpoint sum_over {A} (g : A -> Z) (l : list A) : Z :=
  match l with [] => 0 | a :: l => g a + sum_over g l end.

Definition node_size (n : node) : Z := match n with File c => lenZ c | Dir => 0 end.

(** The bytes of all files strictly below [p]. *)
Definition size_below (f : fs) (p : list string) : Z :=
  sum_over (fun qn => match strip_path p qn.1 with Some (_ :: _) => node_size qn.2 | _ => 0 end) (map_to_list f).

(** The bytes of the files at or below [p]. *)
Definition size_at (f : fs) (p : list string) : Z :=
  sum_over (fun qn => match strip_path p qn.1 with Some _ => node_size qn.2 | None => 0 end) (map_to_list f).

Lemma strip_path_Some p q r : strip_path p q = Some r <-> q = p ++ r.
Proof.
  revert q; induction p as [|x p IH]; intros q; [split; [by intros [= ->]|by intros ->]|].
  destruct q as [|y q]; [done|]. cbn. case_bool_decide as Hxy; [|naive_solver]. subst. rewrite IH. naive_solver.
Qed.

Lemma node_size_nonneg n : 0 <= node_size n.
Proof. destruct n; cbn; [lia|apply lenZ_nonneg]. Qed.

Lemma sum_over_ext {A} (g h : A -> Z) l : (forall a, a ∈ l -> g a = h a) -> sum_over g l = sum_over h l.
Proof.
  induction l as [|a l IH]; intros H; [done|]. cbn. rewrite H, IH by set_solver. done.
Qed.

Lemma sum_over_add {A} (g h : A -> Z) l : sum_over (fun a => g a + h a) l = sum_over g l + sum_over h l.
Proof. induction l as [|a l IH]; cbn in *; lia. Qed.

Lemma sum_over_zero {A} (g : A -> Z) l : (forall a, a ∈ l -> g a = 0) -> sum_over g l = 0.
Proof. induction l as [|a l IH]; intros H; [done|]. cbn. rewrite H, IH by set_solver. done. Qed.

Lemma sum_over_nonneg {A} (g : A -> Z) l : (forall a, 0 <= g a) -> 0 <= sum_over g l.
Proof. intros H. induction l as [|a l IH]; cbn; [lia|]. specialize (H a). lia. Qed.

Lemma sum_over_swap {A B} (g : A -> B -> Z) l k :
  sum_over (fun a => sum_over (g a) k) l = sum_over (fun b => sum_over (fun a => g a b) l) k.
Proof.
  induction l as [|a l IH]; cbn; [symmetry; by apply sum_over_zero|]. by rewrite IH, sum_over_add.
Qed.

(** One element of a list without duplicates. *)
Lemma sum_over_one {A} `{EqDecision A} (x : A) (v : Z) l :
  NoDup l -> sum_over (fun a => if bool_decide (a = x) then v else 0) l = if bool_decide (x ∈ l) then v else 0.
Proof.
  induction 1 as [|a l Ha Hl IH]; [done|]. cbn [sum_over]. rewrite IH. repeat case_bool_decide; subst; try done; set_solver || lia.
Qed.

Lemma sum_over_perm {A} (g : A -> Z) l k : l ≡ₚ k -> sum_over g l = sum_over g k.
Proof. induction 1; cbn in *; lia. Qed.

(** The node itself and what is below it. *)
Lemma size_at_split f p n : f !! p = Some n -> size_at f p = node_size n + size_below f p.
Proof.
  intros Hp. unfold size_at, size_below. rewrite (sum_over_ext _ (fun qn =>
    (if bool_decide (qn = (p, n)) then node_size n else 0) +
    match strip_path p qn.1 with Some (_ :: _) => node_size qn.2 | _ => 0 end)).
  - rewrite sum_over_add. f_equal. rewrite sum_over_one by apply NoDup_map_to_list.
    rewrite bool_decide_eq_true_2; [done|]. by apply elem_of_map_to_list.
  - intros [q m] Hq%elem_of_map_to_list. cbn. destruct (strip_path p q) as [[|x r]|] eqn:E.
    + apply strip_path_Some in E. rewrite app_nil_r in E. subst q. assert (m = n) as -> by congruence.
      rewrite bool_decide_eq_true_2 by done. lia.
    + rewrite bool_decide_eq_false_2; [lia|]. intros [= -> ->]. apply strip_path_Some in E.
      rewrite <- (app_nil_r p) in E at 1. by apply (inj (app p)) in E.
    + rewrite bool_decide_eq_false_2; [lia|]. intros [= -> ->].
      assert (strip_path p p = Some []) by (apply strip_path_Some; by rewrite app_nil_r). congruence.
Qed.

Lemma tree_prefix f p x r : tree f -> is_Some (f !! (p ++ x :: r)) -> is_Some (f !! (p ++ [x])).
Proof.
  intros Ht. induction r as [|y r IH] using rev_ind; [done|]. intros H.
  replace (p ++ x :: r ++ [y]) with ((p ++ x :: r) ++ [y]) in H by (by rewrite <- app_assoc).
  apply Ht in H as [_ H]. apply IH. unfold node_at in H. case_bool_decide; [by destruct p|eauto].
Qed.

Lemma elem_of_children f p n : n ∈ children f p <-> is_Some (f !! (p ++ [n])).
Proof.
  unfold children. rewrite elem_of_list_to_set, list_elem_of_omap. split.
  - intros (q & Hq & Hc). apply list_elem_of_fmap in Hq as ([q' m] & -> & Hq%elem_of_map_to_list). cbn in *.
    unfold child_of in Hc. destruct (strip_path p q') as [[|n' [|]]|] eqn:E; simplify_eq.
    apply strip_path_Some in E as ->. eauto.
  - intros [m Hm]. exists (p ++ [n]). split.
    + apply list_elem_of_fmap. exists (p ++ [n], m). split; [done|]. by apply elem_of_map_to_list.
    + unfold child_of. by rewrite (proj2 (strip_path_Some p (p ++ [n]) [n]) eq_refl).
Qed.

(** What is below a directory is what is at or below its entries. *)
Lemma size_below_children f p ns :
  tree f -> NoDup ns -> (forall n, n ∈ ns <-> n ∈ children f p) ->
  size_below f p = sum_over (fun n => size_at f (p ++ [n])) ns.
Proof.
  intros Ht Hnd Hns. unfold size_below, size_at. rewrite sum_over_swap. apply sum_over_ext.
  intros [q m] Hq%elem_of_map_to_list. cbn.
  destruct (strip_path p q) as [[|x r]|] eqn:E.
  - apply strip_path_Some in E. rewrite app_nil_r in E. subst q. symmetry. apply sum_over_zero. intros n _.
    destruct (strip_path (p ++ [n]) p) eqn:E; [|done]. apply strip_path_Some, (f_equal length) in E.
    rewrite !length_app in E. simpl in E. lia.
  - apply strip_path_Some in E as ->. rewrite (sum_over_ext _ (fun n => if bool_decide (n = x) then node_size m else 0)).
    + rewrite sum_over_one by done. rewrite bool_decide_eq_true_2; [done|].
      apply Hns, elem_of_children. by eapply tree_prefix.
    + intros n _. case_bool_decide as Hn.
      * subst. by rewrite (proj2 (strip_path_Some _ _ r)) by (by rewrite <- app_assoc).
      * destruct (strip_path _ _) eqn:E; [|done]. apply strip_path_Some in E. rewrite <- app_assoc in E.
        apply (inj (app p)) in E. cbn in E. congruence.
  - symmetry. apply sum_over_zero. intros n _. destruct (strip_path (p ++ [n]) q) eqn:E'; [|done].
    apply strip_path_Some in E'. rewrite <- app_assoc in E'. apply strip_path_Some in E'. congruence.
Qed.

(** ** The recursion computes the sum *)

Section DirSize.
Context {HI : HashIter} {HIL : HashIterLaws HI}.

Lemma set_iter_NoDup (X : gset string) : NoDup (set_iter X).
Proof. unfold set_iter. rewrite (iter_perm unit). apply NoDup_fst_map_to_list. Qed.

(** A computation that only looks: its value on a quiet world. *)
Definition looks {A} (m : io A) (w : world) (a : A) : Prop :=
  exists w', m w = (a, w') /\ quiet w' /\ files w' = files w.

Lemma quiet_bind {A B} (m : io A) (g : A -> io B) w a b :
  looks m w a -> (forall w', quiet w' -> files w' = files w -> looks (g a) w' b) -> looks (m ≫= g) w b.
Proof.
  intros (w1 & Hm & Hq & Hf) Hg. destruct (Hg w1 Hq Hf) as (w2 & Hb & Hq2 & Hf2).
  exists w2. split; [by erewrite bind_step by exact Hm|]. split; [done|congruence].
Qed.

Lemma quiet_ret {A} (a : A) w : quiet w -> looks (mret a) w a.
Proof. intros Hq. by exists w. Qed.

Lemma quiet_syscall {A} (run : fs -> A * fs) fault w :
  quiet w -> (run (files w)).2 = files w -> looks (syscall run fault) w (run (files w)).1.
Proof.
  intros Hq Hf. exists (advance w (files w)). rewrite syscall_quiet, Hf by done.
  split; [done|]. split; [by apply quiet_advance|done].
Qed.

Lemma flatten_Ok (l : list string) : flatten (List.map (Ok (E := io_error)) l) = l.
Proof. induction l as [|x l IH]; [done|]. cbn. f_equal. exact IH. Qed.

Lemma saturating_min a b :
  0 <= a -> 0 <= b -> saturating_add_u64 (Z.min a u64_max) (Z.min b u64_max) = Z.min (a + b) u64_max.
Proof. assert (0 < u64_max) by (unfold u64_max; lia). unfold saturating_add_u64. lia. Qed.

Lemma size_below_nonneg f p : 0 <= size_below f p.
Proof. apply sum_over_nonneg. intros [q n]. cbn. repeat case_match; try lia; apply node_size_nonneg. Qed.

Lemma size_at_nonneg f p : 0 <= size_at f p.
Proof. apply sum_over_nonneg. intros [q n]. cbn. case_match; [apply node_size_nonneg|lia]. Qed.

(** Nothing is below a path that is no directory, or longer than all paths. *)
Lemma size_below_none f p :
  (forall q n, f !! q = Some n -> forall x r, q <> p ++ x :: r) -> size_below f p = 0.
Proof.
  intros H. apply sum_over_zero. intros [q n] Hq%elem_of_map_to_list. cbn.
  destruct (strip_path p q) as [[|x r]|] eqn:E; [done| |done]. apply strip_path_Some in E. by destruct (H _ _ Hq x r).
Qed.

Lemma size_below_no_dir f p : tree f -> node_at f p <> Some Dir -> size_below f p = 0.
Proof.
  intros Ht Hp. apply size_below_none. intros q n Hq x r ->. destruct Hp.
  eapply Ht, tree_prefix; [done|eauto].
Qed.

Lemma depth_bound f q n : f !! q = Some n -> (length q <= depth f)%nat.
Proof.
  intros Hq. unfold depth. apply max_list_elem_of_le. apply list_elem_of_fmap. exists q. split; [done|].
  apply list_elem_of_fmap. exists (q, n). split; [done|]. by apply elem_of_map_to_list.
Qed.

Lemma size_below_deep f p : (depth f <= length p)%nat -> size_below f p = 0.
Proof.
  intros Hd. apply size_below_none. intros q n Hq x r ->. apply depth_bound in Hq.
  rewrite length_app in Hq. simpl in Hq. lia.
Qed.

(** The loop over entries, given the sizes of the subdirectories. *)
Lemma size_loop_looks f rec path ns size w :
  tree f -> files w = f -> quiet w -> Forall (fun n => n ∈ children f (resolve path)) ns -> 0 <= size ->
  (forall n w', n ∈ ns -> quiet w' -> files w' = f ->
     looks (rec (join path n)) w' (Z.min (size_below f (resolve (join path n))) u64_max)) ->
  looks (size_loop rec path ns (Z.min size u64_max)) w
        (Z.min (size + sum_over (fun n => size_at f (resolve path ++ [n])) ns) u64_max).
Proof.
  intros Ht. revert size w; induction ns as [|n ns IH]; intros size w Hf Hq Hns Hsz Hrec; cbn [size_loop sum_over].
  { rewrite Z.add_0_r. by apply quiet_ret. }
  apply Forall_cons in Hns as [Hn Hns]. apply elem_of_children in Hn as [x Hx].
  destruct (Ht (resolve path) n) as [Hpl _]; [by eexists|].
  assert (Hres : resolve (join path n) = resolve path ++ [n]) by (by apply resolve_join_plain).
  assert (Hnode : node_at f (resolve path ++ [n]) = Some x).
  { unfold node_at. by rewrite bool_decide_eq_false_2 by (by destruct (resolve path)). }
  pose proof (size_at_nonneg f (resolve path ++ [n])) as Hnn. pose proof (size_at_split f _ _ Hx) as Hsplit.
  pose proof (size_below_nonneg f (resolve path ++ [n])) as Hbn.
  eapply quiet_bind; [apply quiet_syscall; [done|done]|]. cbn [fst]. rewrite Hf, Hres, Hnode. cbn [ok_or].
  intros w1 Hq1 Hf1. rewrite Z.add_assoc.
  apply (quiet_bind _ _ _ (Z.min (size + size_at f (resolve path ++ [n])) u64_max)).
  - destruct x as [|c].
    + eapply quiet_bind; [apply Hrec; [set_solver|done|done]|]. intros w2 Hq2 _. rewrite Hres, saturating_min by done.
      cbn in Hsplit. rewrite Hsplit. by apply quiet_ret.
    + rewrite size_below_no_dir in Hsplit by (done || by rewrite Hnode). rewrite Hsplit. cbn [node_size].
      rewrite Z.add_0_r. rewrite <- saturating_min; [|done|apply lenZ_nonneg].
      replace (saturating_add_u64 (Z.min size u64_max) (Z.min (lenZ c) u64_max))
        with (saturating_add_u64 (Z.min size u64_max) (lenZ c)); [by apply quiet_ret|].
      pose proof (lenZ_nonneg c). assert (0 < u64_max) by (unfold u64_max; lia). unfold saturating_add_u64. lia.
  - intros w2 Hq2 Hf2. apply IH; [congruence|done|done|lia|]. intros k w' Hk. apply Hrec. set_solver.
Qed.

Lemma dir_size_looks f fuel path w :
  tree f -> files w = f -> quiet w -> (depth f <= fuel + length (resolve path))%nat ->
  looks (dir_size fuel path) w (Z.min (size_below f (resolve path)) u64_max).
Proof.
  intros Ht. revert path w; induction fuel as [|fuel IH]; intros path w Hf Hq Hd; cbn [dir_size].
  { rewrite size_below_deep by done. by apply quiet_ret. }
  eapply quiet_bind; [apply quiet_syscall; [done|done]|]. cbn [fst with_entries]. rewrite Hf.
  intros w1 Hq1 Hf1. unfold fs_read_dir.
  destruct (node_at f (resolve path)) as [[|c]|] eqn:En;
    [|rewrite size_below_no_dir by (done || by rewrite En); by apply quiet_ret..].
  rewrite flatten_Ok. set (ns := set_iter (children f (resolve path))).
  assert (Hns : forall n, n ∈ ns <-> n ∈ children f (resolve path)) by (intros n; apply elem_of_set_iter).
  rewrite (size_below_children f (resolve path) ns) by (done || apply set_iter_NoDup).
  rewrite <- (Z.add_0_l (sum_over _ ns)). change 0 with (Z.min 0 u64_max) at 1.
  apply size_loop_looks; [done|congruence|done|by apply Forall_forall; intros n ?; apply Hns|done|].
  intros n w' Hn Hq' Hf'. apply IH; [done|done|].
  apply Hns, elem_of_children, Ht in Hn as [Hpl _]. rewrite resolve_join_plain by done. rewrite length_app. simpl. lia.
Qed.

(** C39: The storage statistics are the sizes of the files: on a tree of files
    read without errors the recursion over directories returns, at whatever
    depth, the number of bytes of all files below the directory, capped at the
    largest [u64]. *)
Theorem calculate_dir_size_spec path w :
  tree (files w) -> quiet w ->
  (calculate_dir_size path w).1 = Z.min (size_below (files w) (resolve path)) u64_max.
Proof.
  intros Ht Hq. unfold calculate_dir_size.
  destruct (dir_size_looks (files w) (S (depth (files w))) path w Ht eq_refl Hq) as (w' & -> & _); [lia|done].
Qed.
End DirSize.

(** ** A concrete tree *)

Definition tree_node (f : fs) (q : list string) : bool :=
  match last q with
  | Some n => bool_decide (plain n) && bool_decide (node_at f (removelast q) = Some Dir)
  | None => true
  end.

Lemma tree_intro f : forallb (tree_node f) (map_to_list f).*1 = true -> tree f.
Proof.
  rewrite forallb_forall. intros H p n [x Hx].
  assert (Hin : In (p ++ [n]) (map_to_list f).*1).
  { apply list_elem_of_In, list_elem_of_fmap. exists (p ++ [n], x). split; [done|]. by apply elem_of_map_to_list. }
  apply H in Hin. unfold tree_node in Hin. rewrite last_snoc, removelast_last in Hin.
  apply andb_true_iff in Hin as [?%bool_decide_eq_true ?%bool_decide_eq_true]. done.
Qed.
