(* ===== verification/Publish.v ===== *)
(** * Publish: the publishing routes ([deltaship-server/src/routes/publish.rs])

    A multipart body is the list of its parts as the extractor yields them.
    [blake3], the Ed25519 verification and the hexadecimal and base64 decoders
    are parameters, and so are the random bytes and clock readings that make
    temporary file names unique. *)

From S2P Require Import Prelude Text Version Core Validation RateLimit Fs Catalog Storage StorageFacts Auth Crypto Serving.

#[local] Open Scope Z_scope.
#[local] Open Scope io_scope.

Definition ED25519_SIGNATURE_SIZE : Z := 64.
Definition MAX_MULTIPART_FIELDS : Z := 10.
Definition MAX_BINARY_FIELD_SIZE : Z := 512 * 1024 * 1024.
Definition MAX_DIFF_FIELD_SIZE : Z := 256 * 1024 * 1024.
Definition MAX_TEXT_FIELD_SIZE : Z := 64 * 1024.
Definition MAX_SIGNATURE_FIELD_SIZE : Z := 1024.

(** A part of the body: its chunks, and whether its stream then breaks off; or
    a point where the body cannot be parsed. *)
Inductive part :=
| Part (name : string) (chunks : list bytes) (broken : bool)
| BrokenPart.

Abbreviation reply A := (result (StatusCode * PublishResponse) A).

Definition fail_with (s : StatusCode) (msg : string) : StatusCode * PublishResponse := (s, publish_error msg).
Definition bad_request : StatusCode * PublishResponse := fail_with BAD_REQUEST "Invalid request".
Definition internal_error : StatusCode * PublishResponse := fail_with INTERNAL_SERVER_ERROR "Internal server error".
Definition too_large (field_name : string) : StatusCode * PublishResponse :=
  fail_with PAYLOAD_TOO_LARGE ("Field '" +:+ field_name +:+ "' exceeds size limit").

(** ** Reading fields *)

Definition read_field_bytes_limited (chunks : list bytes) (broken : bool) (max_size : Z) (field_name : string)
    : reply bytes :=
  if broken then Err bad_request
  else
    let bytes := concat chunks in
    if max_size <? lenZ bytes then Err (too_large field_name) else Ok bytes.

Definition read_field_text_limited (chunks : list bytes) (broken : bool) (max_size : Z) (field_name : string)
    : reply string :=
  bytes ← read_field_bytes_limited chunks broken max_size field_name;
  ok_or (fail_with BAD_REQUEST ("Field '" +:+ field_name +:+ "' contains invalid UTF-8")) (from_utf8 bytes).

Record StreamedField := { sf_temp_path : string; sf_hash : bytes; sf_size : Z }.

(** Best-effort removal, then the error. *)
Definition cleanup_fail {A} (temp_path : string) (e : StatusCode * PublishResponse) : io (reply A) :=
  _ ← remove_file temp_path; efail e.

(** The loop of [stream_field_to_temp]; each chunk is written through. *)
Fixpoint stream_chunks (temp_path : string) (max_size : Z) (field_name : string) (total : Z)
    (chunks : list bytes) (broken : bool) : io (reply Z) :=
  match chunks with
  | chunk :: chunks =>
      let total := saturating_add_u64 total (lenZ chunk) in
      if max_size <? total then cleanup_fail temp_path (too_large field_name)
      else
        r ← append temp_path chunk;
        match r with
        | Ok _ => stream_chunks temp_path max_size field_name total chunks broken
        | Err _ => cleanup_fail temp_path internal_error
        end
  | [] => if broken then cleanup_fail temp_path bad_request else eret total
  end.

(** [map_err(|_| ...)] on a storage or I/O error. *)
Definition or_internal {E A} (m : io (result E A)) : io (reply A) :=
  io_map (map_err (fun _ => internal_error)) m.

(** [format!("{:x}")] of a [u64]: no leading zeros. *)
Fixpoint strip_zeros (l : list ascii) : list ascii :=
  match l with
  | c :: (_ :: _) as l' => if bool_decide (c = "0"%char) then strip_zeros l' else l
  | _ => l
  end.
Definition lower_hex_u64 (n : Z) : string :=
  of_chars (strip_zeros ((fun k => hex_digit (n / 16 ^ Z.of_nat k mod 16)) <$> reverse (seq 0 16))).

(** [uniq_suffix] with the eight random bytes and the clock it reads. *)
Definition uniq_suffix (buf : bytes) (nanos : N) : string := lower_hex_u64 (le_combine buf) +:+ pretty nanos.

Section Publish.
Context {SV : Semver}.
Context {SC : Serde AppCatalog} {SM : Serde VersionManifest} {SR : Serde RolloutConfig}.
Context (blake3 : bytes -> bytes) (verify_signature : bytes -> bytes -> bytes -> bool).
Context (hex_decode base64_decode : string -> option bytes).
Context (entropy : Z -> bytes * N).   (** random bytes and clock nanoseconds for the [n]-th field *)

Definition temp_name (field_name : string) (n : Z) : string :=
  ".upload-" +:+ field_name +:+ "-" +:+ uniq_suffix (entropy n).1 (entropy n).2 +:+ ".tmp".

Definition stream_field_to_temp (chunks : list bytes) (broken : bool) (dir : string) (max_size : Z)
    (field_name : string) (n : Z) : io (reply StreamedField) :=
  or_internal (create_dir_all dir) ;;?
  let temp_path := join dir (temp_name field_name n) in
  or_internal (write temp_path []) ;;?
  total ←? stream_chunks temp_path max_size field_name 0 chunks broken;
  r ←? io_map Ok flush;
  match (r : result io_error unit) with
  | Ok _ => eret {| sf_temp_path := temp_path; sf_hash := blake3 (concat chunks); sf_size := total |}
  | Err _ => cleanup_fail temp_path internal_error
  end.

(** [decode_signature]: hexadecimal when every character is a digit of it. *)
Definition decode_signature (input : string) : option bytes :=
  let input := trim input in
  if all_chars is_ascii_hexdigit input then hex_decode input else base64_decode input.

(** ** Publishing a version *)

Record form := {
  f_binary : option StreamedField;
  f_platform : option string;
  f_signature : option bytes;
  f_checksum : option string;
  f_release_notes : option string;
}.

Definition empty_form : form :=
  {| f_binary := None; f_platform := None; f_signature := None; f_checksum := None; f_release_notes := None |}.

Definition set_binary (b : StreamedField) (f : form) : form :=
  {| f_binary := Some b; f_platform := f_platform f; f_signature := f_signature f;
     f_checksum := f_checksum f; f_release_notes := f_release_notes f |}.
Definition set_platform (p : string) (f : form) : form :=
  {| f_binary := f_binary f; f_platform := Some p; f_signature := f_signature f;
     f_checksum := f_checksum f; f_release_notes := f_release_notes f |}.
Definition set_signature (s : bytes) (f : form) : form :=
  {| f_binary := f_binary f; f_platform := f_platform f; f_signature := Some s;
     f_checksum := f_checksum f; f_release_notes := f_release_notes f |}.
Definition set_checksum (c : string) (f : form) : form :=
  {| f_binary := f_binary f; f_platform := f_platform f; f_signature := f_signature f;
     f_checksum := Some c; f_release_notes := f_release_notes f |}.
Definition set_notes (n : string) (f : form) : form :=
  {| f_binary := f_binary f; f_platform := f_platform f; f_signature := f_signature f;
     f_checksum := f_checksum f;
     f_release_notes := if str_is_empty n then f_release_notes f else Some n |}.

(** The loop over the parts. *)
Fixpoint collect_fields (version_dir : string) (parts : list part) (field_count : Z) (f : form) : io (reply form) :=
  match parts with
  | [] => eret f
  | BrokenPart :: _ => efail bad_request
  | Part name chunks broken :: parts =>
      let field_count := field_count + 1 in
      if MAX_MULTIPART_FIELDS <? field_count then efail (fail_with BAD_REQUEST "Too many multipart fields")
      else
        f ←? (if bool_decide (name = "binary") then
                s ←? stream_field_to_temp chunks broken version_dir MAX_BINARY_FIELD_SIZE "binary" field_count;
                eret (set_binary s f)
              else if bool_decide (name = "platform") then
                p ←? elift (read_field_text_limited chunks broken MAX_TEXT_FIELD_SIZE "platform");
                eret (set_platform p f)
              else if bool_decide (name = "signature") then
                t ←? elift (read_field_text_limited chunks broken MAX_SIGNATURE_FIELD_SIZE "signature");
                s ←? elift (ok_or (fail_with BAD_REQUEST "Invalid signature") (decode_signature t));
                eret (set_signature s f)
              else if bool_decide (name = "checksum") then
                c ←? elift (read_field_text_limited chunks broken MAX_TEXT_FIELD_SIZE "checksum");
                eret (set_checksum c f)
              else if bool_decide (name = "release_notes") then
                n ←? elift (read_field_text_limited chunks broken MAX_TEXT_FIELD_SIZE "release_notes");
                eret (set_notes n f)
              else eret f);
        collect_fields version_dir parts field_count f
  end.

(** The checks on the collected fields, in order, after the binary was staged:
    the platform, the signature and the checksum, or the error to bail out with. *)
Definition check_form (p : Publisher) (version : string) (b : StreamedField) (f : form)
    : reply (Platform * bytes * string) :=
  platform_str ← ok_or (fail_with BAD_REQUEST "Missing required field: platform") (f_platform f);
  platform ← map_err (fun _ => fail_with BAD_REQUEST "Invalid platform") (platform_from_str platform_str);
  signature_data ← ok_or (fail_with BAD_REQUEST "Missing required field: signature") (f_signature f);
  _ ← (if bool_decide (lenZ signature_data = ED25519_SIGNATURE_SIZE) then Ok tt
       else Err (fail_with BAD_REQUEST "Invalid signature"));
  checksum ← ok_or (fail_with BAD_REQUEST "Missing required field: checksum") (f_checksum f);
  _ ← (if all_chars is_ascii_hexdigit checksum && bool_decide (str_len checksum = 64) then Ok tt
       else Err (fail_with BAD_REQUEST "Invalid checksum format"));
  _ ← (if bool_decide (to_lowercase (hash_to_hex (sf_hash b)) = to_lowercase checksum) then Ok tt
       else Err (fail_with BAD_REQUEST "Checksum verification failed"));
  _ ← match pubkey p with
      | Some pk =>
          if verify_signature pk (signing_payload (sf_hash b) version) signature_data then Ok tt
          else Err (fail_with BAD_REQUEST "Signature verification failed")
      | None => Ok tt
      end;
  Ok (platform, signature_data, checksum).

(** The writes of an accepted publication: the binary, the signature, the
    manifest and the catalog, in this order. *)
Definition store_publication (data_dir app_name version : string) (parsed_version : Version) (b : StreamedField)
    (platform : Platform) (signature_data : bytes) (checksum : string) (release_notes : option string)
    : io (reply PublishResponse) :=
  r ←? io_map Ok (save_binary_from_temp data_dir app_name version platform (sf_temp_path b));
  match (r : result StorageError unit) with
  | Err _ => cleanup_fail (sf_temp_path b) internal_error
  | Ok _ =>
      or_internal (save_signature data_dir app_name version signature_data) ;;?
      or_internal (update_manifest data_dir app_name version platform checksum (sf_size b)) ;;?
      or_internal (update_catalog_atomic data_dir app_name
        {| vi_version := parsed_version; vi_platforms := [platform];
           vi_release_notes := release_notes; vi_forced := false; vi_rollout := None |}) ;;?
      eret (publish_success version ("Successfully published version " +:+ version +:+ " for " +:+ app_name))
  end.

Definition publish_version (data_dir app_name version : string) (p : Publisher) (parts : list part)
    : io (reply PublishResponse) :=
  elift (map_err (fun _ => bad_request) (validate_name app_name)) ;;?
  elift (map_err (fun _ => bad_request) (validate_version version)) ;;?
  parsed_version ←? elift (map_err (fun _ => fail_with BAD_REQUEST "Invalid version format") (version_from_str version));
  if negb (can_publish p app_name) then efail (fail_with FORBIDDEN "Not authorized for this app")
  else
    version_dir ←? or_internal (ensure_version_dir data_dir app_name version);
    f ←? collect_fields version_dir parts 0 empty_form;
    b ←? elift (ok_or (fail_with BAD_REQUEST "Missing required field: binary") (f_binary f));
    match check_form p version b f with
    | Err e => cleanup_fail (sf_temp_path b) e
    | Ok (platform, signature_data, checksum) =>
        store_publication data_dir app_name version parsed_version b platform signature_data checksum (f_release_notes f)
    end.

(** ** Activation *)

Definition activate_version (data_dir app_name version : string) (p : Publisher) : io (reply PublishResponse) :=
  elift (map_err (fun _ => bad_request) (validate_name app_name)) ;;?
  if negb (can_publish p app_name) then efail (fail_with FORBIDDEN "Not authorized for this app")
  else
    elift (map_err (fun _ => bad_request) (validate_version version)) ;;?
    io_map (map_err (fun e => match e with
                              | SNotFound _ => fail_with NOT_FOUND "Version not found"
                              | _ => internal_error
                              end)) (set_latest_version data_dir app_name version) ;;?
    eret (publish_success version ("Version " +:+ version +:+ " is now the latest for " +:+ app_name)).

(** ** Diffs *)

Record diff_form := {
  df_diff : option StreamedField;
  df_platform : option string;
  df_checksum : option string;
  df_algorithm : string;
}.

Definition empty_diff_form : diff_form :=
  {| df_diff := None; df_platform := None; df_checksum := None; df_algorithm := "bsdiff" |}.

Fixpoint collect_diff_fields (diffs_dir : string) (parts : list part) (field_count : Z) (f : diff_form)
    : io (reply diff_form) :=
  match parts with
  | [] => eret f
  | BrokenPart :: _ => efail bad_request
  | Part name chunks broken :: parts =>
      let field_count := field_count + 1 in
      if MAX_MULTIPART_FIELDS <? field_count then efail (fail_with BAD_REQUEST "Too many multipart fields")
      else
        f ←? (if bool_decide (name = "diff") then
                s ←? stream_field_to_temp chunks broken diffs_dir MAX_DIFF_FIELD_SIZE "diff" field_count;
                eret {| df_diff := Some s; df_platform := df_platform f; df_checksum := df_checksum f;
                        df_algorithm := df_algorithm f |}
              else if bool_decide (name = "platform") then
                p ←? elift (read_field_text_limited chunks broken MAX_TEXT_FIELD_SIZE "platform");
                eret {| df_diff := df_diff f; df_platform := Some p; df_checksum := df_checksum f;
                        df_algorithm := df_algorithm f |}
              else if bool_decide (name = "checksum") then
                c ←? elift (read_field_text_limited chunks broken MAX_TEXT_FIELD_SIZE "checksum");
                eret {| df_diff := df_diff f; df_platform := df_platform f; df_checksum := Some c;
                        df_algorithm := df_algorithm f |}
              else if bool_decide (name = "algorithm") then
                alg ←? elift (read_field_text_limited chunks broken MAX_TEXT_FIELD_SIZE "algorithm");
                if bool_decide (alg ∈ ["bsdiff"; "courgette"; "xdelta3"])
                then eret {| df_diff := df_diff f; df_platform := df_platform f; df_checksum := df_checksum f;
                             df_algorithm := alg |}
                else efail (fail_with BAD_REQUEST "Invalid algorithm")
              else eret f);
        collect_diff_fields diffs_dir parts field_count f
  end.

Definition check_diff_form (d : StreamedField) (f : diff_form) : reply (Platform * string) :=
  platform_str ← ok_or (fail_with BAD_REQUEST "Missing required field: platform") (df_platform f);
  platform ← map_err (fun _ => fail_with BAD_REQUEST "Invalid platform") (platform_from_str platform_str);
  checksum ← ok_or (fail_with BAD_REQUEST "Missing required field: checksum") (df_checksum f);
  _ ← (if all_chars is_ascii_hexdigit checksum && bool_decide (str_len checksum = 64) then Ok tt
       else Err (fail_with BAD_REQUEST "Invalid checksum format"));
  _ ← (if bool_decide (to_lowercase (hash_to_hex (sf_hash d)) = to_lowercase checksum) then Ok tt
       else Err (fail_with BAD_REQUEST "Checksum verification failed"));
  Ok (platform, checksum).

(** The writes of an accepted diff: the file, then its manifest entry. *)
Definition store_diff (data_dir app_name from_version to_version : string) (parsed_from : Version) (d : StreamedField)
    (platform : Platform) (checksum algorithm : string) : io (reply PublishResponse) :=
  r ←? io_map Ok (save_diff_from_temp data_dir app_name from_version to_version platform (sf_temp_path d));
  match (r : result StorageError string) with
  | Err _ => cleanup_fail (sf_temp_path d) internal_error
  | Ok _ =>
      or_internal (add_diff_to_manifest data_dir app_name to_version platform
        {| di_from_version := parsed_from; di_checksum := checksum; di_size := sf_size d;
           di_algorithm := algorithm |}) ;;?
      eret (publish_success to_version ("Successfully uploaded diff from " +:+ from_version +:+ " to " +:+
                                        to_version +:+ " for " +:+ app_name))
  end.

Definition upload_diff (data_dir app_name from_version to_version : string) (p : Publisher) (parts : list part)
    : io (reply PublishResponse) :=
  elift (map_err (fun _ => bad_request) (validate_name app_name)) ;;?
  if negb (can_publish p app_name) then efail (fail_with FORBIDDEN "Not authorized for this app")
  else
    elift (map_err (fun _ => bad_request) (validate_version from_version)) ;;?
    elift (map_err (fun _ => bad_request) (validate_version to_version)) ;;?
    parsed_from ←? elift (map_err (fun _ => fail_with BAD_REQUEST "Invalid version format") (version_from_str from_version));
    elift (map_err (fun _ => fail_with BAD_REQUEST "Invalid version format") (version_from_str to_version)) ;;?
    or_internal (ensure_diffs_dir data_dir app_name) ;;?
    f ←? collect_diff_fields (diffs_dir data_dir app_name) parts 0 empty_diff_form;
    d ←? elift (ok_or (fail_with BAD_REQUEST "Missing required field: diff") (df_diff f));
    match check_diff_form d f with
    | Err e => cleanup_fail (sf_temp_path d) e
    | Ok (platform, checksum) =>
        store_diff data_dir app_name from_version to_version parsed_from d platform checksum (df_algorithm f)
    end.

(** ** Rollouts *)

Abbreviation rollout_reply := (result (StatusCode * RolloutResponse) RolloutResponse).

Definition rollout_error (s : StatusCode) (msg : string) : StatusCode * RolloutResponse :=
  (s, {| rr_success := false; rr_rollout := rollout_default; rr_message := msg |}).

(** The closure given to [update_rollout_config_atomic]; [now] is the text of
    the current time. *)
Definition set_percentage (now : string) (new_percentage : Z) (config : RolloutConfig) : RolloutConfig :=
  {| rc_percentage := new_percentage;
     rc_enabled := rc_enabled config;
     rc_started_at :=
       if (rc_percentage config =? 0) && (0 <? new_percentage) && bool_decide (rc_started_at config = None)
       then Some now else rc_started_at config;
     rc_completed_at :=
       if (100 <=? new_percentage) && bool_decide (rc_completed_at config = None)
       then Some now else rc_completed_at config |}.

Definition update_rollout (data_dir app_name version : string) (p : Publisher) (percentage : Z) (now : string)
    : io rollout_reply :=
  elift (map_err (fun _ => rollout_error BAD_REQUEST "Invalid request") (validate_name app_name)) ;;?
  if negb (can_publish p app_name) then efail (rollout_error FORBIDDEN "Not authorized for this app")
  else
    elift (map_err (fun _ => rollout_error BAD_REQUEST "Invalid request") (validate_version version)) ;;?
    if 100 <? percentage then efail (rollout_error BAD_REQUEST "Percentage must be between 0 and 100")
    else
      m ←? io_map Ok (get_version_manifest data_dir app_name version);
      match m with
      | None => efail (rollout_error NOT_FOUND "Version not found")
      | Some _ =>
          config ←? io_map (map_err (fun _ => rollout_error INTERNAL_SERVER_ERROR "Internal server error"))
                      (update_rollout_config_atomic data_dir app_name version (set_percentage now percentage));
          eret {| rr_success := true; rr_rollout := config;
                  rr_message := "Rollout updated to " +:+ pretty (rc_percentage config) +:+ "% for version " +:+
                                version +:+ " of " +:+ app_name |}
      end.

Definition get_rollout (data_dir app_name version : string) : io rollout_reply :=
  elift (map_err (fun _ => rollout_error BAD_REQUEST "Invalid request") (validate_name app_name)) ;;?
  elift (map_err (fun _ => rollout_error BAD_REQUEST "Invalid request") (validate_version version)) ;;?
  m ←? io_map Ok (get_version_manifest data_dir app_name version);
  match m with
  | None => efail (rollout_error NOT_FOUND "Version not found")
  | Some _ =>
      o ←? io_map Ok (get_rollout_config data_dir app_name version);
      eret {| rr_success := true; rr_rollout := default rollout_default o;
              rr_message := "Rollout config for version " +:+ version +:+ " of " +:+ app_name |}
  end.
End Publish.
