(* ===== verification/PublishFacts.v ===== *)
(** * PublishFacts: what the publishing routes guarantee

    Authorization: a key acts only on its applications.  Staging: an upload
    that is rejected leaves nothing but staged temporary files and directories
    behind.  Acceptance: what a successful publication has checked. *)

From S2P Require Import Prelude Text Version Core Validation RateLimit Fs Catalog Storage StorageFacts Confinement Auth Crypto Serving Admin Publish.

#[local] Open Scope Z_scope.
#[local] Open Scope io_scope.

(** ** Frames of an upload *)

(** Staging in the directory [dir]: only files whose name marks them as
    uploads change, and missing directories may be created. *)
Definition staging (dir p : list string) (o o' : option node) : Prop :=
  o = o' \/ (exists n, starts_with ".upload-" n = true /\ p = dir ++ [n]) \/ (o = None /\ o' = Some Dir).

#[global] Instance staging_preorder dir p : PreOrder (staging dir p).
Proof.
  split; [by left|]. intros o1 o2 o3 [->|[H|[-> ->]]] H2; [done|right; by left|].
  destruct H2 as [<-|[H2|[? _]]]; [right; by right|right; by left|done].
Qed.
#[global] Hint Resolve staging_preorder : respects.

Lemma staging_may_create dir p : may_create (staging dir) p.
Proof. intros d _ _. right; by right. Qed.

(** A staged file of a directory. *)
Definition staged (dir path : string) : Prop := exists n, plain n /\ starts_with ".upload-" n = true /\ path = join dir n.

Lemma staged_resolve dir path :
  staged dir path -> exists n, plain n /\ starts_with ".upload-" n = true /\ resolve path = resolve dir ++ [n].
Proof. intros (n & Hn & Hs & ->). exists n. split_and!; [done..|]. by apply resolve_join_plain. Qed.

Lemma respects_or_internal R `{forall p, PreOrder (R p)} {E A} (m : io (result E A)) :
  respects R m -> respects R (or_internal m).
Proof. apply respects_io_map. Qed.

(** The frame of an upload to a directory: the directory may be created and its
    staged files may change. *)
Section Frame.
Context (R : list string -> option node -> option node -> Prop) {HR : forall p, PreOrder (R p)}.
Context (dir : string) (Hdir : may_create R (resolve dir)) (Hstaged : forall path, staged dir path -> free R (resolve path)).

Lemma frame_cleanup {A} path e : staged dir path -> respects R (cleanup_fail (A := A) path e).
Proof. intros Hp. unfold cleanup_fail. respects_tac. Qed.

Lemma frame_chunks path max name total chunks broken :
  staged dir path -> respects R (stream_chunks path max name total chunks broken).
Proof.
  intros Hp. revert total; induction chunks as [|c cs IH]; intros total; cbn [stream_chunks].
  - respects_tac. by apply frame_cleanup.
  - respects_tac; by apply frame_cleanup.
Qed.
End Frame.

Section Staging.
Context (dir : string).

Lemma staged_free path : staged dir path -> free (staging (resolve dir)) (resolve path).
Proof. intros (n & _ & Hs & ->)%staged_resolve o o'. right; left. by exists n. Qed.

Lemma staging_mkdir p : respects (staging (resolve dir)) (create_dir_all p).
Proof. apply respects_create_dir_all; [apply _|apply staging_may_create]. Qed.

Lemma staging_cleanup {A} path e : staged dir path -> respects (staging (resolve dir)) (cleanup_fail (A := A) path e).
Proof. apply frame_cleanup; [apply _|apply staged_free]. Qed.
End Staging.

(** ** Temporary names *)

(** The suffixes are made of digits. *)
Lemma strip_zeros_elem c l : c ∈ strip_zeros l -> c ∈ l.
Proof.
  induction l as [|x [|y l] IH]; [done..|]. cbn [strip_zeros]. case_bool_decide; [|done].
  intros Hin. right. by apply IH.
Qed.

Lemma pretty_no_slash (n : N) : "/"%char ∉ chars (pretty n).
Proof.
  unfold pretty, pretty_N. case_decide as Hn; [set_solver|].
  assert (H0 : "/"%char ∉ chars "") by set_solver. revert H0. generalize "" as s. clear Hn.
  induction (N.lt_wf_0 n) as [n _ IH]. intros s Hs.
  destruct (decide (0 < n)%N) as [Hn|Hn]; [|by replace n with 0%N by lia].
  rewrite pretty_N_go_step by done. apply IH; [by apply N.div_lt|].
  intros [Hc|?]%elem_of_cons; [|done]. revert Hc. unfold pretty_N_char. by repeat case_match.
Qed.

Lemma uniq_suffix_no_slash buf nanos : "/"%char ∉ chars (uniq_suffix buf nanos).
Proof.
  unfold uniq_suffix, lower_hex_u64. rewrite chars_app, chars_of_chars, not_elem_of_app.
  split; [|apply pretty_no_slash].
  intros (k & Heq & _)%strip_zeros_elem%list_elem_of_fmap. revert Heq.
  generalize (le_combine buf / 16 ^ Z.of_nat k). intros z. pose proof (Z.mod_pos_bound z 16 ltac:(lia)) as Hz.
  revert Hz. generalize (z mod 16). clear. intros d [H0 H1].
  assert (Hd : d = 0 \/ d = 1 \/ d = 2 \/ d = 3 \/ d = 4 \/ d = 5 \/ d = 6 \/ d = 7 \/ d = 8 \/ d = 9 \/ d = 10 \/
    d = 11 \/ d = 12 \/ d = 13 \/ d = 14 \/ d = 15) by lia.
  repeat (destruct Hd as [->|Hd]; [done|]). by subst d.
Qed.

Section Temp.
Context (entropy : Z -> bytes * N).

Lemma temp_name_staged dir name n :
  "/"%char ∉ chars name -> staged dir (join dir (temp_name entropy name n)).
Proof.
  intros Hname. exists (temp_name entropy name n). split; [|split; [|done]].
  - unfold temp_name.
    assert (Hlen : (9 <= length (chars (".upload-" +:+ name +:+ "-" +:+ uniq_suffix (entropy n).1 (entropy n).2 +:+ ".tmp")))%nat).
    { rewrite !chars_app, !length_app. simpl. lia. }
    split_and!; try (intros Heq; rewrite Heq in Hlen; simpl in Hlen; lia).
    rewrite !chars_app, !not_elem_of_app. split_and!; [set_solver|done|set_solver|apply uniq_suffix_no_slash|set_solver].
  - apply starts_with_spec. unfold temp_name. eauto.
Qed.
End Temp.

Section Upload.
Context (blake3 : bytes -> bytes) (hex_decode base64_decode : string -> option bytes).
Context (entropy : Z -> bytes * N).

Section UploadFrame.
Context (R : list string -> option node -> option node -> Prop) {HR : forall p, PreOrder (R p)}.
Context (dir : string) (Hdir : may_create R (resolve dir)) (Hstaged : forall path, staged dir path -> free R (resolve path)).

Lemma frame_stream chunks broken max name n :
  "/"%char ∉ chars name -> respects R (stream_field_to_temp blake3 entropy chunks broken dir max name n).
Proof.
  intros Hname. pose proof (temp_name_staged entropy dir name n Hname) as Hst. unfold stream_field_to_temp.
  respects_tac.
  - apply respects_or_internal; [apply _|]. auto with respects.
  - apply respects_or_internal; [apply _|]. auto with respects.
  - by apply (frame_chunks R dir).
  - by apply (frame_cleanup R dir).
Qed.

Lemma frame_collect parts count f :
  respects R (collect_fields blake3 hex_decode base64_decode entropy dir parts count f).
Proof.
  revert count f; induction parts as [|[name chunks broken|] parts IH]; intros count f; cbn [collect_fields];
    respects_tac.
  apply frame_stream. set_solver.
Qed.

Lemma frame_collect_diff parts count f : respects R (collect_diff_fields blake3 entropy dir parts count f).
Proof.
  revert count f; induction parts as [|[name chunks broken|] parts IH]; intros count f; cbn [collect_diff_fields];
    respects_tac.
  apply frame_stream. set_solver.
Qed.
End UploadFrame.

Lemma staging_collect dir parts count f :
  respects (staging (resolve dir)) (collect_fields blake3 hex_decode base64_decode entropy dir parts count f).
Proof. apply frame_collect; [apply _|apply staging_may_create|apply staged_free]. Qed.

End Upload.

(** ** What was staged *)

(** The content of the last part of a given name. *)
Fixpoint last_part (name : string) (parts : list part) : option bytes :=
  match parts with
  | [] => None
  | BrokenPart :: parts => last_part name parts
  | Part n chunks _ :: parts =>
      match last_part name parts with
      | Some c => Some c
      | None => if bool_decide (n = name) then Some (concat chunks) else None
      end
  end.

Lemma last_part_snoc name parts n chunks broken :
  last_part name (parts ++ [Part n chunks broken]) =
  if bool_decide (n = name) then Some (concat chunks) else last_part name parts.
Proof.
  induction parts as [|[n' c' b'|] parts IH]; [done| |done]. cbn [last_part app]. rewrite IH.
  by destruct (bool_decide (n = name)).
Qed.

Definition last_text (name : string) (parts : list part) : option string :=
  match last_part name parts with Some c => from_utf8 c | None => None end.

Lemma last_text_snoc name parts n chunks broken :
  last_text name (parts ++ [Part n chunks broken]) =
  if bool_decide (n = name) then from_utf8 (concat chunks) else last_text name parts.
Proof. unfold last_text. rewrite last_part_snoc. by case_bool_decide. Qed.

Lemma saturating_small a b max : saturating_add_u64 a b <= max -> max < u64_max -> saturating_add_u64 a b = a + b.
Proof. unfold saturating_add_u64. lia. Qed.

Lemma append_cases p d w :
  (exists c w', append p d w = (Ok tt, w') /\ node_at (files w) (resolve p) = Some (File c) /\
     files w' = <[resolve p := File (c ++ d)]> (files w)) \/
  (exists e w', append p d w = (Err e, w')).
Proof.
  unfold append. edestruct (syscall_cases (fun f => commit tt f (fs_append f (resolve p) d))) as [[_ ->]|(k & _ & ->)];
    [|right; eauto].
  unfold fs_append. destruct (node_at (files w) (resolve p)) as [[|c]|]; cbn; eauto 10.
Qed.

Lemma cleanup_fail_Err {A} path e w : exists w', cleanup_fail (A := A) path e w = (Err e, w').
Proof. unfold cleanup_fail, mbind, io_bind. destruct (remove_file path w). unfold efail. eauto. Qed.

Lemma cleanup_fail_Ok {A} path e w (a : A) w' : cleanup_fail path e w <> (Ok a, w').
Proof. destruct (cleanup_fail_Err (A := A) path e w) as [w1 ->]. done. Qed.

Lemma stream_chunks_Ok path max name total chunks broken c w t w' :
  resolve path <> [] -> max < u64_max -> files w !! resolve path = Some (File c) ->
  stream_chunks path max name total chunks broken w = (Ok t, w') ->
  files w' !! resolve path = Some (File (c ++ concat chunks)) /\ t = total + lenZ (concat chunks) /\ broken = false.
Proof.
  intros Hnil Hmax. revert total c w; induction chunks as [|d chunks IH]; intros total c w Hc; cbn [stream_chunks].
  { destruct broken; [by intros ?%cleanup_fail_Ok|]. intros [= <- <-]. cbn [concat]. rewrite app_nil_r.
    split; [done|]. split; [|done]. unfold lenZ. cbn. lia. }
  cbv zeta. destruct (Z.ltb_spec max (saturating_add_u64 total (lenZ d))) as [|Hle]; [by intros ?%cleanup_fail_Ok|].
  destruct (append_cases path d w) as [(c' & w1 & Ha & Hn & Hf)|(e & w1 & Ha)];
    erewrite bind_step by exact Ha; [|by intros ?%cleanup_fail_Ok].
  unfold node_at in Hn. rewrite bool_decide_eq_false_2, Hc in Hn by done. injection Hn as <-.
  intros (H1 & H2 & H3)%(IH _ (c ++ d)); [|by rewrite Hf, lookup_insert_eq].
  split; [|split; [|done]].
  - rewrite H1. cbn [concat]. by rewrite <- app_assoc.
  - rewrite H2. rewrite (saturating_small _ _ max) by done. cbn [concat]. unfold lenZ. rewrite length_app. lia.
Qed.

Section Collected.
Context (blake3 : bytes -> bytes) (hex_decode base64_decode : string -> option bytes).
Context (entropy : Z -> bytes * N).

Lemma stream_field_Ok dir chunks broken max name n w s w' :
  "/"%char ∉ chars name -> max < u64_max ->
  stream_field_to_temp blake3 entropy chunks broken dir max name n w = (Ok s, w') ->
  staged dir (sf_temp_path s) /\ sf_hash s = blake3 (concat chunks) /\ sf_size s = lenZ (concat chunks) /\
  files w' !! resolve (sf_temp_path s) = Some (File (concat chunks)).
Proof.
  intros Hname Hmax H. pose proof (temp_name_staged entropy dir name n Hname) as Hst.
  destruct Hst as (x & Hx & Hstarts & Hxe). pose proof (resolve_in dir x Hx) as (_ & Hnil & _). rewrite <- Hxe in Hnil.
  unfold stream_field_to_temp in H. peel H. peel H.
  destruct (write_cases (join dir (temp_name entropy name n)) [] w0) as [w2 [[Hw Hf]|(e & Hw & _)]];
    unfold or_internal, io_map in E0; rewrite Hw in E0; [|done]. injection E0 as _ ->.
  peel H. apply (stream_chunks_Ok _ _ _ _ _ _ []) in E0 as (Hfile & Ht & _);
    [|done|done|by rewrite Hf, lookup_insert_eq].
  peel H. apply io_map_Ok_inv in E0. destruct a2; [|by apply cleanup_fail_Ok in H]. injection H as <- <-. cbn [sf_temp_path sf_hash sf_size].
  split; [by exists x|]. split; [done|]. split; [lia|].
  pose proof (respects_flush (fun _ => eq) w2) as (_ & _ & HR). rewrite E0 in HR. cbn in HR. by rewrite <- HR.
Qed.

(** The form agrees with the parts seen, and the staged file holds the binary. *)
Record collected (dir : string) (seen : list part) (f : form) (w : world) : Prop := {
  co_binary : forall b, f_binary f = Some b -> exists content,
    last_part "binary" seen = Some content /\ staged dir (sf_temp_path b) /\
    sf_hash b = blake3 content /\ sf_size b = lenZ content /\
    files w !! resolve (sf_temp_path b) = Some (File content);
  co_platform : f_platform f = last_text "platform" seen;
  co_signature : f_signature f = last_text "signature" seen ≫= decode_signature hex_decode base64_decode;
  co_checksum : f_checksum f = last_text "checksum" seen;
}.

Lemma read_text_Ok chunks broken max name t :
  read_field_text_limited chunks broken max name = Ok t -> from_utf8 (concat chunks) = Some t.
Proof.
  unfold read_field_text_limited, read_field_bytes_limited. destruct broken; [done|]. cbv zeta.
  destruct (_ <? _); [done|]. cbn. by intros ?%ok_or_Ok.
Qed.

Lemma collect_fields_Ok dir parts seen count f w f' w' :
  collected dir seen f w ->
  collect_fields blake3 hex_decode base64_decode entropy dir parts count f w = (Ok f', w') ->
  collected dir (seen ++ parts) f' w'.
Proof.
  revert seen count f w; induction parts as [|[name chunks broken|] parts IH]; intros seen count f w Hf;
    cbn [collect_fields]; [|cbv zeta; destruct (_ <? _); [done|]|done].
  { intros [= <- <-]. by rewrite app_nil_r. }
  intros H. peel H. replace (seen ++ Part name chunks broken :: parts)
    with ((seen ++ [Part name chunks broken]) ++ parts) by (by rewrite <- app_assoc).
  refine (IH _ _ a _ _ H). clear H IH.
  destruct Hf as [Hb Hp Hs Hc].
  repeat case_bool_decide; simplify_eq; repeat (peel E);
    repeat match goal with
    | H : elift _ _ = (Ok _, _) |- _ => apply elift_inv in H as [H ->]
    | H : read_field_text_limited _ _ _ _ = Ok _ |- _ => apply read_text_Ok in H
    | H : ok_or _ _ = Ok _ |- _ => apply ok_or_Ok in H
    end; injection E as <- <-; split;
    cbn [f_binary f_platform f_signature f_checksum set_binary set_platform set_signature set_checksum set_notes];
    rewrite ?last_part_snoc, ?last_text_snoc; rewrite ?bool_decide_eq_false_2 by done;
    rewrite ?bool_decide_eq_true_2 by done; try done.
  - intros b [= <-]. apply stream_field_Ok in E0 as (? & ? & ? & ?); [by eexists|set_solver|done].
  - by rewrite E0.
Qed.
End Collected.

(** ** The writes after the checks *)

Lemma keeps_free q p : p <> q -> free (keeps q) p.
Proof. by intros Hne o o' ->. Qed.

Lemma keeps_replace q d n t content :
  json_name n t -> q <> resolve d ++ [n] -> q <> resolve d ++ [t] ->
  respects (keeps q) (replace_file (join d n) content).
Proof.
  intros Hn H1 H2. unfold replace_file. apply respects_ebind; [apply _| |intros _].
  - apply respects_write; [apply _|]. rewrite (json_tmp_path Hn). by apply keeps_free.
  - apply respects_rename; [apply _|..]; rewrite ?(json_tmp_path Hn), ?(json_path Hn); by apply keeps_free.
Qed.

(** What a successful step preserves. *)
Lemma keeps_run {A} q (m : io A) w r w' c :
  respects (keeps q) m -> m w = (r, w') -> files w !! q = Some (File c) -> files w' !! q = Some (File c).
Proof. intros Hm Hr Hc. destruct (Hm w) as (_ & _ & HR). rewrite Hr in HR. by apply HR. Qed.

Lemma or_internal_inv {E A} (m : io (result E A)) w a w' : or_internal m w = (Ok a, w') -> m w = (Ok a, w').
Proof. unfold or_internal, io_map. destruct (m w) as [r w1]. intros [= Hr ->]. by apply map_err_Ok in Hr as ->. Qed.

Lemma lift_inv {A} (m : io (result io_error A)) w a w' : lift m w = (Ok a, w') -> m w = (Ok a, w').
Proof. unfold lift, io_map. destruct (m w) as [r w1]. intros [= Hr ->]. by apply map_err_Ok in Hr as ->. Qed.

Lemma write_inv p d w u w' : write p d w = (Ok u, w') -> files w' = <[resolve p := File d]> (files w).
Proof. destruct (write_cases p d w) as [w1 [[-> Hf]|(e & -> & _)]]; [|done]. by intros [= _ <-]. Qed.

Lemma rename_inv a b w u w' c :
  resolve a <> [] -> rename a b w = (Ok u, w') -> files w !! resolve a = Some (File c) ->
  files w' = <[resolve b := File c]> (delete (resolve a) (files w)).
Proof.
  intros Hnil. destruct (rename_cases a b w) as [w1 [[-> (c' & Hn & Hf)]|(e & -> & _)]]; [|done].
  intros [= _ <-] Hc. unfold node_at in Hn. rewrite bool_decide_eq_false_2 in Hn by done. congruence.
Qed.

Lemma replace_json_inv {n t} (Hn : json_name n t) d content w u w' :
  replace_file (join d n) content w = (Ok u, w') -> files w' !! (resolve d ++ [n]) = Some (File (as_bytes content)).
Proof.
  destruct (replace_json_cases Hn d content w) as [w1 [[-> Hf]|(e & -> & _)]]; [|done]. by intros [= _ <-].
Qed.

Lemma staging_version_dir data_dir app_name version :
  respects (staging (resolve (version_dir data_dir app_name version))) (ensure_version_dir data_dir app_name version).
Proof. unfold ensure_version_dir. respects_tac. apply staging_mkdir. Qed.

Section Writes.
Context {SV : Semver}.
Context {SC : Serde AppCatalog} {SM : Serde VersionManifest}.
Context (data_dir app_name version : string).
Abbreviation vdir := (version_dir data_dir app_name version).

Lemma ensure_version_dir_inv w d w' : ensure_version_dir data_dir app_name version w = (Ok d, w') -> d = vdir.
Proof. unfold ensure_version_dir. intros H. peel H. by injection H. Qed.

Lemma keeps_ensure_version_dir q : respects (keeps q) (ensure_version_dir data_dir app_name version).
Proof. unfold ensure_version_dir. respects_tac. Qed.

Lemma in_version_dir_inv {B} (f : string -> io (result StorageError B)) q c w b w' :
  ebind (ensure_version_dir data_dir app_name version) f w = (Ok b, w') -> files w !! q = Some (File c) ->
  exists w1, f vdir w1 = (Ok b, w') /\ files w1 !! q = Some (File c).
Proof.
  intros H Hc. peel H. rewrite (ensure_version_dir_inv _ _ _ E) in *. exists w0. split; [done|].
  by eapply keeps_run; [apply keeps_ensure_version_dir|exact E|].
Qed.

Lemma save_binary_from_temp_inv p tmp c w u w' :
  resolve tmp <> [] -> files w !! resolve tmp = Some (File c) ->
  save_binary_from_temp data_dir app_name version p tmp w = (Ok u, w') ->
  files w' !! (resolve vdir ++ [binary_file p]) = Some (File c).
Proof.
  intros Hnil Hc H. eapply in_version_dir_inv in H as (w1 & H & Hc1); [|exact Hc].
  apply lift_inv in H. eapply rename_inv in H; [|done|done]. rewrite H.
  rewrite resolve_join_plain by apply plain_binary_file. by rewrite lookup_insert_eq.
Qed.

Lemma save_signature_inv data q c w u w' :
  save_signature data_dir app_name version data w = (Ok u, w') ->
  q <> resolve vdir ++ ["signature.sig"] -> files w !! q = Some (File c) ->
  files w' !! (resolve vdir ++ ["signature.sig"]) = Some (File data) /\ files w' !! q = Some (File c).
Proof.
  intros H Hq Hc. eapply in_version_dir_inv in H as (w1 & H & Hc1); [|exact Hc].
  apply lift_inv, write_inv in H. rewrite H, resolve_join_plain by (by apply plain_intro).
  rewrite lookup_insert_eq. by rewrite lookup_insert_ne.
Qed.

Lemma keeps_manifest_or_new q path : respects (keeps q) (manifest_or_new path version).
Proof. unfold manifest_or_new, read_json_opt. respects_tac. Qed.

Lemma update_manifest_inv p checksum size w u w' :
  update_manifest data_dir app_name version p checksum size w = (Ok u, w') ->
  exists m, stored (files w') (resolve vdir ++ ["manifest.json"]) m /\
    vm_platforms m !! p = Some (fresh_artifact checksum size).
Proof.
  unfold update_manifest. intros H. peel H. apply ensure_version_dir_inv in E as ->. do 3 peel H.
  apply lift_inv in H. apply (replace_json_inv manifest_json) in H.
  eexists. split; [split; [by destruct (resolve vdir)|exact H]|]. cbn. by rewrite lookup_insert_eq.
Qed.

Lemma keeps_update_manifest p checksum size q :
  q <> resolve vdir ++ ["manifest.json"] -> q <> resolve vdir ++ ["manifest.json.tmp"] ->
  respects (keeps q) (update_manifest data_dir app_name version p checksum size).
Proof.
  intros H1 H2. apply respects_in_version_dir; [apply _|apply keeps_ensure_version_dir|].
  respects_tac; [apply keeps_manifest_or_new|by apply (keeps_replace _ _ _ _ _ manifest_json)].
Qed.

Lemma update_catalog_atomic_inv info w u w' :
  update_catalog_atomic data_dir app_name info w = (Ok u, w') ->
  exists c, stored (files w') (resolve (app_dir data_dir app_name) ++ ["catalog.json"]) (apply_version c info).
Proof.
  unfold update_catalog_atomic, locked_update. intros H. peel H. peel H. peel E0. peel E0. peel E0. peel E0.
  apply lift_inv in E4. apply (replace_json_inv catalog_json) in E4.
  injection E0 as _ ->. injection H as _ ->. exists a3. split; [by destruct (resolve _)|exact E4].
Qed.

Lemma keeps_update_catalog info q :
  q <> resolve (app_dir data_dir app_name) ++ ["catalog.json"] ->
  q <> resolve (app_dir data_dir app_name) ++ ["catalog.json.tmp"] ->
  respects (keeps q) (update_catalog_atomic data_dir app_name info).
Proof.
  intros H1 H2. unfold update_catalog_atomic, ensure_app_dirs, locked_update, read_json_or, read_json_opt.
  respects_tac. by apply (keeps_replace _ _ _ _ _ catalog_json).
Qed.
End Writes.

(** ** Error paths *)

Lemma ebind_Err_inv {E A B} (m : io (result E A)) (f : A -> io (result E B)) w e w' :
  ebind m f w = (Err e, w') -> m w = (Err e, w') \/ exists a w1, m w = (Ok a, w1) /\ f a w1 = (Err e, w').
Proof. unfold ebind. destruct (m w) as [[a|x] w1]; [eauto|]. intros [= -> ->]. by left. Qed.

(** A program whose failing runs, server errors apart, respect [R]. *)
Definition rejects R {A B} (m : io (result (StatusCode * B) A)) (w : world) : Prop :=
  forall s b w', m w = (Err (s, b), w') -> s <> INTERNAL_SERVER_ERROR -> forall q, R q (files w !! q) (files w' !! q).

Lemma rejects_respects R `{forall p, PreOrder (R p)} {A B} (m : io (result (StatusCode * B) A)) w :
  respects R m -> rejects R m w.
Proof. intros Hm s b w' E _. destruct (Hm w) as (_ & _ & HR). by rewrite E in HR. Qed.

Lemma rejects_ebind R `{forall p, PreOrder (R p)} {A B C} (m : io (result (StatusCode * B) A))
    (f : A -> io (result (StatusCode * B) C)) w :
  respects R m -> (forall a w1, m w = (Ok a, w1) -> rejects R (f a) w1) -> rejects R (ebind m f) w.
Proof.
  intros Hm Hf s b w' E Hs q. destruct (Hm w) as (_ & _ & HR).
  apply ebind_Err_inv in E as [E|(a & w1 & E1 & E)]; [by rewrite E in HR|].
  rewrite E1 in HR. etrans; [apply HR|]. by eapply Hf.
Qed.

(** Only server errors from here on. *)
Definition only_internal {A B} (m : io (result (StatusCode * B) A)) : Prop :=
  forall w e w', m w = (Err e, w') -> e.1 = INTERNAL_SERVER_ERROR.

Lemma rejects_internal R {A B} (m : io (result (StatusCode * B) A)) w : only_internal m -> rejects R m w.
Proof. intros Hm s b w' E Hs. by apply Hm in E. Qed.

Lemma only_internal_ebind {A B C} (m : io (result (StatusCode * B) A)) (f : A -> io (result (StatusCode * B) C)) :
  only_internal m -> (forall a, only_internal (f a)) -> only_internal (ebind m f).
Proof. intros Hm Hf w e w' [E|(a & w1 & _ & E)]%ebind_Err_inv; [by apply Hm in E|by apply Hf in E]. Qed.

Lemma only_internal_or {E A} (m : io (result E A)) : only_internal (or_internal m).
Proof. intros w e w' H. unfold or_internal, io_map in H. destruct (m w) as [[a|x] w1]; [done|]. by injection H as <- _. Qed.

Lemma only_internal_ret {A B} (a : A) : only_internal (B := B) (eret a).
Proof. by intros w e w'. Qed.

Lemma only_internal_cleanup {A} path : only_internal (cleanup_fail (A := A) path internal_error).
Proof. intros w e w'. destruct (cleanup_fail_Err (A := A) path internal_error w) as [w1 ->]. by intros [= <- _]. Qed.

Lemma only_internal_map_Ok {A B} (m : io A) : only_internal (io_map (Ok (E := StatusCode * B)) m).
Proof. intros w e w'. unfold io_map. by destruct (m w). Qed.

Create HintDb internal.
#[export] Hint Resolve only_internal_or only_internal_ret only_internal_cleanup only_internal_map_Ok : internal.

Ltac internal_tac :=
  repeat lazymatch goal with
    | |- only_internal (ebind _ _) => apply only_internal_ebind; [|intros ?]
    | |- only_internal (match ?x with _ => _ end) => destruct x
    | |- only_internal _ => solve [auto with internal]
    end.

(** ** Downloading what is stored *)

Section Download.
Context {SV : Semver} {SM : Serde VersionManifest} {SML : SerdeLaws VersionManifest}.
Context (blake3 : bytes -> bytes).
Context (data_dir app_name version : string).
Context (Hname : validate_name app_name = Ok tt) (Hversion : validate_version version = Ok tt).

Lemma serve_file_quiet p expected w c :
  quiet w -> node_at (files w) (resolve p) = Some (File c) ->
  (forall e, expected = Some e -> to_lowercase (hash_to_hex (blake3 c)) = to_lowercase e) ->
  (serve_file blake3 p expected w).1 = Ok {| body := c; content_length := lenZ c |}.
Proof.
  intros Hq Hp He. destruct expected as [e|]; cbn [serve_file].
  - erewrite ebind_Ok by exact (io_map_step _ _ _ (Ok c) _ (read_quiet p w c Hq Hp)).
    rewrite bool_decide_eq_true_2 by (by apply He).
    by rewrite (stream_file_quiet p _ c (quiet_advance _ _ Hq)).
  - by rewrite (stream_file_quiet p w c Hq Hp).
Qed.

Lemma node_at_lookup f p n : p <> [] -> f !! p = Some n -> node_at f p = Some n.
Proof. intros Hp H. unfold node_at. by rewrite bool_decide_eq_false_2. Qed.

Lemma download_binary_quiet s platform c m checksum size w :
  platform_from_str s = Ok platform -> quiet w ->
  files w !! resolve (get_binary_path data_dir app_name version platform) = Some (File c) ->
  stored (files w) (resolve (manifest_path data_dir app_name version)) m ->
  vm_platforms m !! platform = Some (fresh_artifact checksum size) ->
  to_lowercase (hash_to_hex (blake3 c)) = to_lowercase checksum ->
  (download_binary blake3 data_dir app_name version s w).1 = Ok {| body := c; content_length := lenZ c |}.
Proof.
  intros Hpl Hq Hb Hm Hmp Hck. apply node_at_lookup in Hb; [|by apply resolve_in, plain_binary_file].
  unfold download_binary. rewrite Hname, Hversion, Hpl.
  erewrite (ebind_Ok (elift _)) by done. erewrite (ebind_Ok (elift _)) by done. erewrite (ebind_Ok (elift _)) by done. cbv zeta.
  erewrite ebind_Ok by (apply io_map_step; by apply exists_quiet). rewrite Hb, bool_decide_eq_true_2 by (by eexists).
  destruct (lookup_or_none (A := VersionManifest) (manifest_path data_dir app_name version) (advance w (files w)) None)
    as (w1 & Hl & Hq1 & Hf1); [by apply quiet_advance|].
  unfold get_version_manifest. erewrite ebind_Ok by (apply io_map_step, Hl). cbn [advance files] in *.
  rewrite (stored_lookup _ _ _ Hm). cbn. rewrite Hmp. apply serve_file_quiet; [done|by rewrite Hf1|].
  by intros e [= <-].
Qed.

Lemma download_signature_quiet sig w :
  quiet w -> files w !! resolve (get_signature_path data_dir app_name version) = Some (File sig) ->
  (download_signature blake3 data_dir app_name version w).1 = Ok {| body := sig; content_length := lenZ sig |}.
Proof.
  intros Hq Hs. apply node_at_lookup in Hs; [|by apply resolve_in, plain_intro].
  unfold download_signature. rewrite Hname, Hversion.
  erewrite (ebind_Ok (elift _)) by done. erewrite (ebind_Ok (elift _)) by done. cbv zeta.
  erewrite ebind_Ok by (apply io_map_step; by apply exists_quiet). rewrite Hs, bool_decide_eq_true_2 by (by eexists).
  apply serve_file_quiet; [by apply quiet_advance|done|done].
Qed.
End Download.

(** ** Properties *)

(** The answer of a handler that turned the request down without touching the
    store: it was malformed, or the key is not allowed to act on the application. *)
Definition turned_down {A B} (r : result (StatusCode * B) A * world) (w : world) : Prop :=
  exists s m, r = (Err (s, m), w) /\ (s = BAD_REQUEST \/ s = FORBIDDEN).

Lemma turned_down_elift {X A B E} (f : E -> StatusCode * B) (r : result E X) (k : X -> io (result (StatusCode * B) A)) w :
  (forall e, (f e).1 = BAD_REQUEST) -> (forall x, turned_down (k x w) w) ->
  turned_down (ebind (elift (map_err f r)) k w) w.
Proof.
  intros Hf Hk. unfold ebind, elift. destruct r as [x|e]; cbn; [apply Hk|].
  specialize (Hf e). destruct (f e) as [s m]. exists s, m. auto.
Qed.

Lemma turned_down_fail {A B} s (m : B) w :
  s = BAD_REQUEST \/ s = FORBIDDEN -> turned_down (efail (A := A) (s, m) w) w.
Proof. intros Hs. exists s, m. auto. Qed.

Section Authorization.
Context {SV : Semver}.
Context {SC : Serde AppCatalog} {SM : Serde VersionManifest} {SR : Serde RolloutConfig} {HI : HashIter}.
Context (blake3 : bytes -> bytes) (verify_signature : bytes -> bytes -> bytes -> bool).
Context (hex_decode base64_decode : string -> option bytes) (entropy : Z -> bytes * N).

(** Authorization: a key whose scope does not include the application
    cannot publish, activate, upload diffs, change rollouts or delete versions
    for it; every such request is turned down (400 or 403) before the store is touched. *)
Theorem out_of_scope_turned_down data_dir app version version' p parts percentage now w :
  can_publish p app = false ->
  turned_down (publish_version blake3 verify_signature hex_decode base64_decode entropy
                 data_dir app version p parts w) w /\
  turned_down (activate_version data_dir app version p w) w /\
  turned_down (upload_diff blake3 entropy data_dir app version' version p parts w) w /\
  turned_down (update_rollout data_dir app version p percentage now w) w /\
  turned_down (admin_delete_version data_dir app version p w) w.
Proof.
  intros Hp. split_and!;
    repeat (unfold publish_version, activate_version, upload_diff, update_rollout, admin_delete_version;
            apply turned_down_elift; [done|intros ?]);
    rewrite Hp; cbn [negb]; apply turned_down_fail; auto.
Qed.
End Authorization.

Section Publication.
Context {SV : Semver}.
Context {SC : Serde AppCatalog} {SM : Serde VersionManifest}.
Context (blake3 : bytes -> bytes) (verify_signature : bytes -> bytes -> bytes -> bool).
Context (hex_decode base64_decode : string -> option bytes).
Context (entropy : Z -> bytes * N).
Context (data_dir app_name version : string).
Abbreviation vdir := (version_dir data_dir app_name version).
Abbreviation publish := (publish_version blake3 verify_signature hex_decode base64_decode entropy).

(** The checks of a publication. *)
Record accepted (p : Publisher) (parts : list part) (content sig : bytes) (platform : Platform) (checksum : string) : Prop := {
  ac_name : validate_name app_name = Ok tt;
  ac_version : validate_version version = Ok tt;
  ac_scope : can_publish p app_name = true;
  ac_binary : last_part "binary" parts = Some content;
  ac_platform : exists s, last_text "platform" parts = Some s /\ platform_from_str s = Ok platform;
  ac_checksum : last_text "checksum" parts = Some checksum;
  ac_hash : to_lowercase (hash_to_hex (blake3 content)) = to_lowercase checksum;
  ac_signature : last_text "signature" parts ≫= decode_signature hex_decode base64_decode = Some sig;
  ac_signature_len : lenZ sig = 64;
  ac_verified : forall pk, pubkey p = Some pk -> verify_signature pk (signing_payload (blake3 content) version) sig = true;
}.

Lemma check_form_inv p b f platform sig checksum :
  check_form verify_signature p version b f = Ok (platform, sig, checksum) ->
  (exists s, f_platform f = Some s /\ platform_from_str s = Ok platform) /\
  f_signature f = Some sig /\ lenZ sig = 64 /\ f_checksum f = Some checksum /\
  to_lowercase (hash_to_hex (sf_hash b)) = to_lowercase checksum /\
  (forall pk, pubkey p = Some pk -> verify_signature pk (signing_payload (sf_hash b) version) sig = true).
Proof.
  unfold check_form. destruct (f_platform f) as [s|]; [|done]. cbn.
  destruct (platform_from_str s) eqn:Hp; [|done]. cbn. destruct (f_signature f); [|done]. cbn.
  case_bool_decide; [|done]. cbn. destruct (f_checksum f); [|done]. cbn.
  destruct (_ && _); [|done]. cbn. case_bool_decide; [|done]. cbn.
  destruct (pubkey p) as [pk|]; [destruct (verify_signature _ _ _) eqn:Hv; [|done]|]; cbn; intros [= <- <- <-];
    split_and!; try done; try by eauto. by intros pk' [= <-].
Qed.

Lemma version_path_ne x y :
  validate_version version = Ok tt -> resolve vdir ++ [x] <> resolve (app_dir data_dir app_name) ++ [y].
Proof.
  intros Hv%validated_version Heq. apply (f_equal length) in Heq. revert Heq.
  unfold version_dir. rewrite resolve_join_validated by done. unfold versions_dir.
  rewrite resolve_join_plain by (by apply plain_intro). rewrite !length_app. simpl. lia.
Qed.

Lemma version_file_ne x y : x <> y -> resolve vdir ++ [x] <> resolve vdir ++ [y].
Proof. intros Hne Heq. apply (inj (app _)) in Heq. by simplify_eq. Qed.

Lemma binary_file_ne p y : bool_decide (starts_with "binary-" y = false) = true -> binary_file p <> y.
Proof.
  intros Hy%bool_decide_eq_true <-. enough (starts_with "binary-" (binary_file p) = true) by congruence.
  apply starts_with_spec. by eexists.
Qed.

Lemma keeps_manifest x p checksum size w r w' c :
  x <> "manifest.json" -> x <> "manifest.json.tmp" ->
  update_manifest data_dir app_name version p checksum size w = (r, w') ->
  files w !! (resolve vdir ++ [x]) = Some (File c) -> files w' !! (resolve vdir ++ [x]) = Some (File c).
Proof. intros H1 H2. apply keeps_run, keeps_update_manifest; by apply version_file_ne. Qed.

Lemma keeps_catalog x info w r w' c :
  validate_version version = Ok tt -> update_catalog_atomic data_dir app_name info w = (r, w') ->
  files w !! (resolve vdir ++ [x]) = Some (File c) -> files w' !! (resolve vdir ++ [x]) = Some (File c).
Proof. intros Hv. apply keeps_run, keeps_update_catalog; by apply version_path_ne. Qed.

(** The final state of a successful publication. *)
Lemma publish_version_inv p parts r w w' :
  publish data_dir app_name version p parts w = (Ok r, w') ->
  exists content sig platform checksum,
    accepted p parts content sig platform checksum /\
    files w' !! resolve (get_binary_path data_dir app_name version platform) = Some (File content) /\
    files w' !! resolve (get_signature_path data_dir app_name version) = Some (File sig) /\
    (exists m, stored (files w') (resolve (manifest_path data_dir app_name version)) m /\
       vm_platforms m !! platform = Some (fresh_artifact checksum (lenZ content))) /\
    (exists c v notes, version_from_str version = Ok v /\
       stored (files w') (resolve (catalog_path data_dir app_name))
         (apply_version c {| vi_version := v; vi_platforms := [platform]; vi_release_notes := notes;
                             vi_forced := false; vi_rollout := None |})).
Proof.
  intros H. unfold publish_version in H.
  peel H. apply map_err_inv in E as [Hname ->]. destruct a.
  peel H. apply map_err_inv in E as [Hver ->]. destruct a.
  peel H. apply map_err_inv in E as [Hparse ->]. rename a into v.
  destruct (can_publish p app_name) eqn:Hscope; [|done]. cbn [negb] in H.
  peel H. apply or_internal_inv, ensure_version_dir_inv in E as ->.
  peel H. eapply (collect_fields_Ok _ _ _ _ _ _ []) in E as [Hb Hp Hs Hc]; [|by split].
  cbn [app] in *. rename a into f. peel H. apply elift_inv in E as [Hfb ->]. apply ok_or_Ok in Hfb.
  destruct (Hb _ Hfb) as (content & Hbin & (tn & Htn & _ & Ht) & Hhash & Hsize & Htmp).
  destruct (check_form _ _ _ _ _) as [[[platform sig] checksum]|e] eqn:Hck; [|by apply cleanup_fail_Ok in H].
  apply check_form_inv in Hck as (Hpl & Hsig & Hlen & Hck & Heq & Hvf). rewrite Hhash in *.
  unfold store_publication in H. rewrite Hsize in *. peel H. apply io_map_Ok_inv in E. destruct a0; [|by apply cleanup_fail_Ok in H].
  apply (save_binary_from_temp_inv _ _ _ _ _ content) in E; [|rewrite Ht; by apply resolve_in|done].
  peel H. apply or_internal_inv in E0.
  apply (save_signature_inv _ _ _ _ _ _ _ _ _ E0) in E as [Hsigf Hbinf];
    [|by apply version_file_ne, binary_file_ne].
  peel H. apply or_internal_inv in E. pose proof (update_manifest_inv _ _ _ _ _ _ _ _ _ E) as (m & Hm & Hmp).
  peel H. apply or_internal_inv in E1. injection H as _ <-.
  pose proof (update_catalog_atomic_inv _ _ _ _ _ _ E1) as (c & Hcat).
  exists content, sig, platform, checksum. split_and!.
  - split; try done; [by rewrite <- Hp|by rewrite <- Hc|by rewrite <- Hs].
  - unfold get_binary_path. rewrite resolve_join_plain by apply plain_binary_file.
    eapply keeps_catalog; [done|exact E1|]. eapply keeps_manifest; [| |exact E|done]; by apply binary_file_ne.
  - unfold get_signature_path. rewrite resolve_join_plain by (by apply plain_intro).
    eapply keeps_catalog; [done|exact E1|]. by eapply keeps_manifest; [| |exact E|done].
  - exists m. split; [|done]. unfold manifest_path. rewrite (json_path manifest_json). destruct Hm as [Hnil Hm].
    split; [done|]. by eapply keeps_catalog; [done|exact E1|].
  - exists c, v, (f_release_notes f). split; [done|]. unfold catalog_path. by rewrite (json_path catalog_json).
Qed.

(** C6: what a successful publication means, whatever calls failed on the way:
    the key may publish the application, the checksum the client sent is that
    of the uploaded binary, the signature verifies when a public key is
    registered; and the binary, the signature, a manifest entry with that
    checksum and size, and the updated catalog are all on disk. *)
Theorem published_is_stored p parts r w w' :
  publish data_dir app_name version p parts w = (Ok r, w') ->
  exists content sig platform checksum,
    accepted p parts content sig platform checksum /\
    files w' !! resolve (get_binary_path data_dir app_name version platform) = Some (File content) /\
    files w' !! resolve (get_signature_path data_dir app_name version) = Some (File sig) /\
    (exists m, stored (files w') (resolve (manifest_path data_dir app_name version)) m /\
       vm_platforms m !! platform = Some (fresh_artifact checksum (lenZ content))) /\
    (exists c v notes, version_from_str version = Ok v /\
       stored (files w') (resolve (catalog_path data_dir app_name))
         (apply_version c {| vi_version := v; vi_platforms := [platform]; vi_release_notes := notes;
                             vi_forced := false; vi_rollout := None |})).
Proof. apply publish_version_inv. Qed.

(** Publish, then download: after a successful publication, reading from
    the resulting store without failing calls, [download_binary] for the
    published platform serves exactly the uploaded bytes and
    [download_signature] the decoded signature. *)
Theorem publish_download_roundtrip {SML : SerdeLaws VersionManifest} p parts r w w' :
  publish data_dir app_name version p parts w = (Ok r, w') ->
  exists content sig platform_str,
    last_part "binary" parts = Some content /\ last_text "platform" parts = Some platform_str /\
    last_text "signature" parts ≫= decode_signature hex_decode base64_decode = Some sig /\
    forall w2, quiet w2 -> files w2 = files w' ->
      (download_binary blake3 data_dir app_name version platform_str w2).1 = Ok {| body := content; content_length := lenZ content |} /\
      (download_signature blake3 data_dir app_name version w2).1 = Ok {| body := sig; content_length := lenZ sig |}.
Proof.
  intros (content & sig & platform & checksum & Ha & Hb & Hs & (m & Hm & Hmp) & _)%publish_version_inv.
  destruct (ac_platform _ _ _ _ _ _ Ha) as (s & Hps & Hpl). exists content, sig, s.
  split; [apply Ha|]. split; [done|]. split; [apply Ha|]. intros w2 Hq Hf. rewrite <- Hf in *.
  split; [by eapply download_binary_quiet; [apply Ha..| | | | | |apply Ha]|by eapply download_signature_quiet; [apply Ha..| |]].
Qed.

(** C35: a rejected upload publishes nothing: when [publish_version] answers
    with an error other than a server error, all that may have changed is that
    directories were created and that temporary upload files appeared or
    disappeared in the version's directory; no artifact, manifest or catalog
    was touched. *)
Theorem rejected_upload_publishes_nothing p parts s m w w' :
  publish data_dir app_name version p parts w = (Err (s, m), w') -> s <> INTERNAL_SERVER_ERROR ->
  forall q, staging (resolve vdir) q (files w !! q) (files w' !! q).
Proof.
  revert s m w'. change (rejects (staging (resolve vdir)) (publish data_dir app_name version p parts) w).
  unfold publish_version. do 3 (apply rejects_ebind; [apply _|auto with respects|intros ?? [_ ->]%elift_inv]).
  destruct (can_publish p app_name); cbn [negb]; [|apply rejects_respects; auto with respects].
  apply rejects_ebind; [apply _|apply respects_or_internal; [apply _|apply staging_version_dir]|].
  intros ? w1 ->%or_internal_inv%ensure_version_dir_inv.
  apply rejects_ebind; [apply _|by apply staging_collect|intros f w2 Hf].
  eapply (collect_fields_Ok _ _ _ _ _ _ []) in Hf as [Hb _ _ _]; [|by split].
  apply rejects_ebind; [apply _|auto with respects|intros b ? [Hfb%ok_or_Ok ->]%elift_inv].
  destruct (Hb _ Hfb) as (_ & _ & Hst & _).
  destruct (check_form _ _ _ _ _) as [[[platform sig] checksum]|e]; [|apply rejects_respects; [apply _|by apply staging_cleanup]].
  apply rejects_internal. unfold store_publication. internal_tac.
Qed.
End Publication.
