(* ===== verification/Scenarios.v ===== *)
(** * Scenarios: the routes on a concrete server

    Stand-ins for the external functions (a toy digest and signature scheme,
    hexadecimal only), applications of the theorems on the routes, and
    sequences of requests with a surprising outcome. *)

From S2P Require Import Prelude Text Version SemverRef Core Validation RateLimit Fs Catalog Storage StorageFacts Confinement Instances Auth Crypto Serving Admin Publish PublishFacts.

#[local] Open Scope Z_scope.

(** ** Stand-ins *)

Definition toy_digest (b : bytes) : bytes := le_split 32 (foldl (fun a x => a * 257 + le_combine [x]) (lenZ b) b).
Definition toy_verify (pk payload sig : bytes) : bool := bool_decide (sig = pk ++ toy_digest payload).
Definition toy_hex_decode (s : string) : option bytes := ok (parse_hex_pairs (chars s)).
Definition toy_base64 (s : string) : option bytes := None.
Definition toy_entropy (n : Z) : bytes * N := (le_split 8 n, 7%N).

Definition alice : Publisher := {| owner := "alice"; allowed_apps := Some {["app"]}; pubkey := Some (replicate 32 (byte_of_Z 97)) |}.
Definition bob : Publisher := {| owner := "bob"; allowed_apps := Some {["tool"]}; pubkey := None |}.

Definition sign (version : string) (content : bytes) : bytes :=
  replicate 32 (byte_of_Z 97) ++ toy_digest (signing_payload (toy_digest content) version).

Definition text (name s : string) : part := Part name [as_bytes s] false.

(** The upload of a client. *)
Definition upload (version platform content : string) : list part :=
  let c := as_bytes content in
  [Part "binary" [take 3 c; drop 3 c] false; text "platform" platform;
   text "checksum" (hash_to_hex (toy_digest c)); text "signature" (hash_to_hex (sign version c))].

Abbreviation publish := (publish_version toy_digest toy_verify toy_hex_decode toy_base64 toy_entropy "/srv").

Example publish_ok : (publish "app" "1.0.0" alice (upload "1.0.0" "linux-x86_64" "hello") empty_world).1 =
  Ok (publish_success "1.0.0" "Successfully published version 1.0.0 for app").
Proof. vm_compute. reflexivity. Qed.

(** ** Applications of the theorems on the routes *)

Lemma out_of_scope_turned_down_witness :
  turned_down (publish "app" "1.0.0" bob (upload "1.0.0" "linux-x86_64" "hello") empty_world) empty_world.
Proof.
  eapply (out_of_scope_turned_down toy_digest toy_verify toy_hex_decode toy_base64 toy_entropy "/srv" "app" "1.0.0" "0.9.0"
            bob (upload "1.0.0" "linux-x86_64" "hello") 10 "" empty_world).
  vm_compute. reflexivity.
Defined.

Definition after_upload (version platform content : string) (w : world) : world :=
  (publish "app" version alice (upload version platform content) w).2.

Lemma upload_ok version platform content w r :
  (publish "app" version alice (upload version platform content) w).1 = Ok r ->
  publish "app" version alice (upload version platform content) w = (Ok r, after_upload version platform content w).
Proof. unfold after_upload. destruct (publish _ _ _ _ _). by intros [= ->]. Qed.

Lemma published_is_stored_witness :
  exists content sig platform checksum,
    accepted toy_digest toy_verify toy_hex_decode toy_base64 "app" "1.0.0" alice
      (upload "1.0.0" "linux-x86_64" "hello") content sig platform checksum.
Proof.
  destruct (published_is_stored toy_digest toy_verify toy_hex_decode toy_base64 toy_entropy
              "/srv" "app" "1.0.0" alice (upload "1.0.0" "linux-x86_64" "hello")
              (publish_success "1.0.0" "Successfully published version 1.0.0 for app") empty_world
              (after_upload "1.0.0" "linux-x86_64" "hello" empty_world)) as (c & s & p & k & Ha & _).
  - apply upload_ok. vm_compute. reflexivity.
  - exists c, s, p, k. exact Ha.
Defined.

Lemma publish_download_roundtrip_witness :
  exists content, last_part "binary" (upload "1.0.0" "linux-x86_64" "hello") = Some content /\
    exists platform_str,
      (download_binary toy_digest "/srv" "app" "1.0.0" platform_str (after_upload "1.0.0" "linux-x86_64" "hello" empty_world)).1 =
      Ok {| body := content; content_length := lenZ content |}.
Proof.
  destruct (publish_download_roundtrip toy_digest toy_verify toy_hex_decode toy_base64 toy_entropy
              "/srv" "app" "1.0.0" alice (upload "1.0.0" "linux-x86_64" "hello")
              (publish_success "1.0.0" "Successfully published version 1.0.0 for app") empty_world
              (after_upload "1.0.0" "linux-x86_64" "hello" empty_world)) as (c & s & p & Hb & _ & _ & Hd).
  - apply upload_ok. vm_compute. reflexivity.
  - exists c. split; [exact Hb|]. exists p. apply Hd; [|reflexivity]. intros n. vm_compute. reflexivity.
Defined.

(** An upload whose checksum is that of other bytes. *)
Definition forged : list part :=
  [Part "binary" [as_bytes "hello"] false; text "platform" "linux-x86_64";
   text "checksum" (hash_to_hex (toy_digest (as_bytes "other"))); text "signature" (hash_to_hex (sign "1.0.0" (as_bytes "hello")))].

Lemma rejected_upload_publishes_nothing_witness :
  staging (resolve (version_dir "/srv" "app" "1.0.0")) (resolve (catalog_path "/srv" "app"))
    (files empty_world !! resolve (catalog_path "/srv" "app"))
    (files (publish "app" "1.0.0" alice forged empty_world).2 !! resolve (catalog_path "/srv" "app")).
Proof.
  apply (rejected_upload_publishes_nothing toy_digest toy_verify toy_hex_decode toy_base64 toy_entropy
           "/srv" "app" "1.0.0" alice forged BAD_REQUEST (publish_error "Checksum verification failed") empty_world).
  - assert (H : (publish "app" "1.0.0" alice forged empty_world).1 =
                Err (BAD_REQUEST, publish_error "Checksum verification failed")) by (vm_compute; reflexivity).
    revert H. destruct (publish _ _ _ _ _). by intros [= ->].
  - discriminate.
Defined.

Lemma rollout_monotone_witness :
  device_in_rollout toy_digest "device-7" 60 = bool_decide (bucket toy_digest "device-7" < 60).
Proof. destruct (rollout_monotone toy_digest "device-7" 60 80) as (_ & H & _); [lia|exact H]. Defined.

Definition query (current : string) : UpdateCheckQuery :=
  {| q_current_version := Some current; q_platform := "linux-x86_64"; q_device_id_hash := None |}.

Definition published_world : world := after_upload "1.0.0" "linux-x86_64" "hello" empty_world.

Definition answer (q : UpdateCheckQuery) (w : world) : UpdateCheckResponse :=
  default no_update (ok (check_update toy_digest "/srv" "app" q w).1).

Lemma answer_ok q w :
  is_ok (check_update toy_digest "/srv" "app" q w).1 = true ->
  check_update toy_digest "/srv" "app" q w = (Ok (answer q w), (check_update toy_digest "/srv" "app" q w).2).
Proof. unfold answer. by destruct (check_update _ _ _ _ _) as [[r|e] w']. Qed.


Lemma calculate_dir_size_spec_witness :
  (calculate_dir_size "/srv/apps" published_world).1 = Z.min (size_below (files published_world) ["srv"; "apps"]) u64_max.
Proof.
  rewrite (calculate_dir_size_spec "/srv/apps" published_world).
  - reflexivity.
  - apply tree_intro. vm_compute. reflexivity.
  - intros n. vm_compute. reflexivity.
Defined.

(** ** Surprising sequences of requests *)

(** The signature of a version is shared by its platforms: publishing the
    same version for a second platform replaces [signature.sig], so the
    signature served afterwards does not verify the binary of the first
    platform any more, although both publications succeeded. *)
Theorem second_platform_replaces_signature :
  let w := after_upload "1.0.0" "macos-x86_64" "world" published_world in
  let served := (download_signature toy_digest "/srv" "app" "1.0.0" w).1 in
  (download_binary toy_digest "/srv" "app" "1.0.0" "linux-x86_64" w).1 = Ok {| body := as_bytes "hello"; content_length := 5 |} /\
  body <$> served = Ok (sign "1.0.0" (as_bytes "world")) /\
  (forall pk, pubkey alice = Some pk ->
     toy_verify pk (signing_payload (toy_digest (as_bytes "hello")) "1.0.0") (sign "1.0.0" (as_bytes "hello")) = true /\
     toy_verify pk (signing_payload (toy_digest (as_bytes "hello")) "1.0.0") (sign "1.0.0" (as_bytes "world")) = false).
Proof.
  cbv zeta. split_and!; [vm_compute; reflexivity..|]. intros pk [= <-]. split; vm_compute; reflexivity.
Qed.

(** An upload that fails after its binary was staged, here on the encoding
    of the signature field, leaves the staged temporary file in the version's
    directory for good. *)
Theorem bad_signature_field_leaks_upload :
  let out := publish "app" "1.0.0" alice
               [Part "binary" [as_bytes "hello"] false; text "signature" "not hexadecimal"] empty_world in
  out.1 = Err (BAD_REQUEST, publish_error "Invalid signature") /\
  files out.2 !! resolve "/srv/apps/app/versions/1.0.0/.upload-binary-17.tmp" = Some (File (as_bytes "hello")).
Proof. cbv zeta. split_and!; vm_compute; reflexivity. Qed.

(** Versions that differ in build metadata only share a catalog entry but
    not a directory: after publishing 1.0.0+a for Linux and 1.0.0+b for macOS,
    macOS clients are offered 1.0.0+a, whose binary does not exist for them. *)
Theorem build_metadata_offers_missing_binary :
  let w := after_upload "1.0.0+b" "macos-x86_64" "world" (after_upload "1.0.0+a" "linux-x86_64" "hello" empty_world) in
  let q := {| q_current_version := Some "0.9.0"; q_platform := "macos-x86_64"; q_device_id_hash := None |} in
  update_available (answer q w) = true /\ target_version (answer q w) = Some (ver "1.0.0+a") /\
  (download_binary toy_digest "/srv" "app" "1.0.0+a" "macos-x86_64" w).1 = Err not_found.
Proof. cbv zeta. split_and!; vm_compute; reflexivity. Qed.

(** A deleted version stays available: after [delete_version] of the only
    version has succeeded, it is still the latest version of the catalog,
    update checks still offer it and its binary is still served. *)
Theorem deleted_version_still_offered :
  let out := delete_version "/srv" "app" "1.0.0" published_world in
  out.1 = Ok tt /\
  update_available (answer (query "0.9.0") out.2) = true /\
  target_version (answer (query "0.9.0") out.2) = Some (ver "1.0.0") /\
  body <$> (download_binary toy_digest "/srv" "app" "1.0.0" "linux-x86_64" out.2).1 = Ok (as_bytes "hello").
Proof. cbv zeta. split_and!; vm_compute; reflexivity. Qed.

(** The listing shows the rollout of the catalog entry, which publishing leaves
    empty: after the rollout of 1.0.0 is set to 10 percent, it shows 100. *)
Example listing_ignores_rollout :
  let w := (update_rollout "/srv" "app" "1.0.0" alice 10 "" published_world).2 in
  option_map rc_percentage (get_rollout_config "/srv" "app" "1.0.0" w).1 = Some 10 /\
  option_map (List.map vl_rollout_percentage) (ok (admin_list_versions "/srv" "app" w).1) = Some [100].
Proof. cbv zeta. split_and!; vm_compute; reflexivity. Qed.
