(* ===== verification/DbModels.v ===== *)
(** * DbModels: values and errors of the databases

    [deltaship-db/src/error.rs] (the errors and the classification of the
    messages of SQLite) and [deltaship-db/src/models.rs]: the validators, the
    normalisation of version strings, the two status enumerations and the rows
    of the tables.  The texts of error messages are left out, except those of
    SQLite, on which the classification branches. *)

From S2P Require Import Prelude Text Version Core.

#[local] Open Scope Z_scope.

(** ** Errors *)

(** [sqlx::Error], as far as [error.rs] distinguishes its variants. *)
Inductive SqlxError :=
| PoolTimedOut
| PoolClosed
| SqlxIo
| SqlxTls
| SqlxDatabase (message : string)
| SqlxRowNotFound
| SqlxColumnNotFound (column : string)
| SqlxColumnDecode (index : string)
| SqlxOther (message : string).

Inductive DbError :=
| DbSqlx
| DbMigration
| DbConnectionError
| DbTimeout (timeout_secs : Z)
| DbConstraintViolation
| DbNotFound
| DbDuplicate
| DbInvalidData
| DbIo
| DbStateTransition
| DbSchemaMismatch.

#[global] Instance DbError_eq_dec : EqDecision DbError.
Proof. solve_decision. Defined.

(** [impl From<sqlx::Error> for DbError]. *)
Definition from_sqlx (err : SqlxError) : DbError :=
  match err with
  | PoolTimedOut => DbTimeout 30
  | PoolClosed | SqlxIo | SqlxTls => DbConnectionError
  | SqlxDatabase msg =>
      if contains_str "UNIQUE constraint failed" msg then DbDuplicate
      else if contains_str "FOREIGN KEY constraint failed" msg then DbConstraintViolation
      else if contains_str "CHECK constraint failed" msg then DbConstraintViolation
      else if contains_str "NOT NULL constraint failed" msg then DbConstraintViolation
      else DbSqlx
  | SqlxRowNotFound => DbNotFound
  | SqlxColumnNotFound _ | SqlxColumnDecode _ => DbInvalidData
  | SqlxOther _ => DbSqlx
  end.

(** ** Validators *)

Definition KNOWN_PLATFORMS : list string := all_platform_variants.

(** The loop over the known values. *)
Definition validate_platform (platform : string) : result DbError unit :=
  let normalized := to_lowercase platform in
  if existsb (fun known => bool_decide (known = normalized)) KNOWN_PLATFORMS then Ok tt
  else Err DbInvalidData.

Definition KNOWN_DIFF_ALGORITHMS : list string := ["bsdiff"; "courgette"; "xdelta3"].

Definition validate_diff_algorithm (algorithm : string) : result DbError unit :=
  let normalized := to_lowercase algorithm in
  if existsb (fun known => bool_decide (known = normalized)) KNOWN_DIFF_ALGORITHMS then Ok tt
  else Err DbInvalidData.

Definition strip_v (trimmed : string) : string :=
  match strip_prefix "v" trimmed with
  | Some stripped => stripped
  | None => match strip_prefix "V" trimmed with Some stripped => stripped | None => trimmed end
  end.

Definition normalize_version_string `{Semver} (version : string) : result DbError string :=
  let trimmed := trim version in
  if negb (all_chars is_ascii trimmed) then Err DbInvalidData
  else
    let normalized := strip_v trimmed in
    if 255 <? str_len normalized then Err DbInvalidData
    else
      parsed ← map_err (fun _ => DbInvalidData) (sv_parse normalized);
      if (sv_major parsed =? 0) && (sv_minor parsed =? 0) && (sv_patch parsed =? 0)
      then Err DbInvalidData
      else Ok normalized.

Definition BLAKE3_HASH_SIZE : Z := 32.
Definition SHA256_HASH_SIZE : Z := 32.

Definition validate_hash_size (hash : bytes) (expected_size : Z) : result DbError unit :=
  if bool_decide (lenZ hash = expected_size) then Ok tt else Err DbInvalidData.

(** ** Statuses *)

Inductive DiffJobStatus := Pending | Running | Completed | Failed.

#[global] Instance DiffJobStatus_eq_dec : EqDecision DiffJobStatus.
Proof. solve_decision. Defined.

Definition job_status_as_str (s : DiffJobStatus) : string :=
  match s with
  | Pending => "pending" | Running => "running" | Completed => "completed" | Failed => "failed"
  end.

Definition job_status_from_str (s : string) : result DbError DiffJobStatus :=
  let l := to_lowercase s in
  if bool_decide (l = "pending") then Ok Pending
  else if bool_decide (l = "running") then Ok Running
  else if bool_decide (l = "completed") then Ok Completed
  else if bool_decide (l = "failed") then Ok Failed
  else Err DbInvalidData.

Inductive UpdateHistoryStatus :=
| UDownloading | UApplying | UVerifying | UCompleted | UFailed | URolledBack.

#[global] Instance UpdateHistoryStatus_eq_dec : EqDecision UpdateHistoryStatus.
Proof. solve_decision. Defined.

Definition update_status_as_str (s : UpdateHistoryStatus) : string :=
  match s with
  | UDownloading => "downloading" | UApplying => "applying" | UVerifying => "verifying"
  | UCompleted => "completed" | UFailed => "failed" | URolledBack => "rolled_back"
  end.

Definition update_status_from_str (s : string) : result DbError UpdateHistoryStatus :=
  let l := to_lowercase s in
  if bool_decide (l = "downloading") then Ok UDownloading
  else if bool_decide (l = "applying") then Ok UApplying
  else if bool_decide (l = "verifying") then Ok UVerifying
  else if bool_decide (l = "completed") then Ok UCompleted
  else if bool_decide (l = "failed") then Ok UFailed
  else if bool_decide (l = "rolled_back") then Ok URolledBack
  else Err DbInvalidData.

(** ** Expiration timestamps *)

(** [&s[a..b]]: a panic outside the string or inside a character. *)
Definition char_boundary (l : list ascii) (i : Z) : bool :=
  match l !! Z.to_nat i with Some c => negb (is_continuation c) | None => i =? lenZ l end.

Definition slice (s : string) (a b : Z) : outcome string :=
  if (a <=? b) && (b <=? str_len s) && char_boundary (chars s) a && char_boundary (chars s) b
  then Val (of_chars (takeZ (b - a) (dropZ a (chars s)))) else Panic.

(** [str::parse] to an unsigned integer of at most [max]: an optional plus sign
    and at least one digit. *)
Fixpoint digits_value (max acc : Z) (l : list ascii) : option Z :=
  match l with
  | [] => Some acc
  | c :: l =>
      let acc := acc * 10 + (code c - 48) in
      if is_ascii_digit c && (acc <=? max) then digits_value max acc l else None
  end.

Definition parse_unsigned (max : Z) (s : string) : option Z :=
  match chars s with
  | [] => None
  | "+"%char :: [] => None
  | "+"%char :: l => digits_value max 0 l
  | l => digits_value max 0 l
  end.

Definition parse_u32 : string -> option Z := parse_unsigned u32_max.

Definition parse_i32 (s : string) : option Z :=
  match chars s with
  | "-"%char :: c :: l => option_map Z.opp (digits_value (2 ^ 31) 0 (c :: l))
  | _ => parse_unsigned (2 ^ 31 - 1) s
  end.

(** The [?] operator in a function that may also panic. *)
Definition fbind {E A B} (m : outcome (result E A)) (k : A -> outcome (result E B)) : outcome (result E B) :=
  match m with
  | Val (Ok a) => k a
  | Val (Err e) => Val (Err e)
  | Panic => Panic
  end.

(** [trimmed[a..b].parse().map_err(..)?]. *)
Definition parse_field (parse : string -> option Z) (s : string) (a b : Z) : outcome (result DbError Z) :=
  match slice s a b with
  | Val sub => Val (ok_or DbInvalidData (parse sub))
  | Panic => Panic
  end.

Definition validate_expires_at_timestamp (expires_at : string) : outcome (result DbError unit) :=
  let trimmed := trim expires_at in
  if str_len trimmed <? 19 then Val (Err DbInvalidData)
  else
    match slice trimmed 0 19 with
    | Panic => Panic
    | Val datetime_part =>
        let has_valid_separator :=
          match utf8_chars (chars datetime_part) !! 10%nat with
          | Some c => bool_decide (c = ["T"%char]) || bool_decide (c = [" "%char])
          | None => false
          end in
        if negb has_valid_separator then Val (Err DbInvalidData)
        else
          fbind (parse_field parse_i32 trimmed 0 4) (fun year =>
          fbind (parse_field parse_u32 trimmed 5 7) (fun month =>
          fbind (parse_field parse_u32 trimmed 8 10) (fun day =>
          fbind (parse_field parse_u32 trimmed 11 13) (fun hour =>
          fbind (parse_field parse_u32 trimmed 14 16) (fun minute =>
          fbind (parse_field parse_u32 trimmed 17 19) (fun second =>
          if negb ((1970 <=? year) && (year <=? 2100)) then Val (Err DbInvalidData)
          else if negb ((1 <=? month) && (month <=? 12)) then Val (Err DbInvalidData)
          else if negb ((1 <=? day) && (day <=? 31)) then Val (Err DbInvalidData)
          else if 23 <? hour then Val (Err DbInvalidData)
          else if 59 <? minute then Val (Err DbInvalidData)
          else if 59 <? second then Val (Err DbInvalidData)
          else Val (Ok tt)))))))
    end.

(** ** Rows *)

Record DbBinary := {
  b_binary_id : string;
  b_binary_name : string;
  b_platform : string;
  b_binary_path : string;
  b_description : option string;
  b_created_at : string;
  b_updated_at : string;
}.

Record DbVersion := {
  v_version_id : string;
  v_binary_id : string;
  v_version_string : string;
  v_file_path : string;
  v_file_size_bytes : Z;
  v_file_hash_blake3 : bytes;
  v_file_hash_sha256 : bytes;
  v_signature_ed25519 : option bytes;
  v_signature_timestamp : option string;
  v_registered_at : option string;
  v_published_at : option string;
  v_is_published : bool;
  v_created_at : string;
}.

Record DbDiffJob := {
  j_job_id : string;
  j_from_version_id : string;
  j_to_version_id : string;
  j_diff_algorithm : string;
  j_status : string;
  j_diff_path : option string;
  j_diff_size_bytes : option Z;
  j_diff_hash_blake3 : option bytes;
  j_computation_time_ms : option Z;
  j_error_message : option string;
  j_created_at : string;
  j_started_at : option string;
  j_completed_at : option string;
}.

Record DbManagedBinary := {
  m_binary_id : string;
  m_binary_name : string;
  m_platform : string;
  m_install_path : string;
  m_current_version_id : option string;
  m_current_version_string : option string;
  m_publisher_public_key : bytes;
  m_auto_update : bool;
  m_last_check_at : option string;
  m_last_update_at : option string;
  m_created_at : string;
  m_updated_at : string;
}.

Record DbInstalledVersion := {
  i_id : Z;
  i_binary_id : string;
  i_version_id : string;
  i_version_string : string;
  i_file_hash_blake3 : bytes;
  i_file_hash_sha256 : bytes;
  i_file_size_bytes : Z;
  i_installed_at : string;
  i_is_current : bool;
}.

Record DbUpdateHistory := {
  u_update_id : Z;
  u_binary_id : string;
  u_from_version_id : option string;
  u_from_version_string : option string;
  u_to_version_id : string;
  u_to_version_string : string;
  u_diff_id : option string;
  u_diff_algorithm : option string;
  u_diff_size_bytes : option Z;
  u_full_size_bytes : option Z;
  u_actual_downloaded_bytes : option Z;
  u_started_at : string;
  u_completed_at : option string;
  u_status : string;
  u_success : option bool;
  u_error_message : option string;
  u_download_time_ms : option Z;
  u_apply_time_ms : option Z;
  u_verify_time_ms : option Z;
}.

Record DbRollbackBackup := {
  r_backup_id : Z;
  r_binary_id : string;
  r_version_id : string;
  r_version_string : string;
  r_backup_path : string;
  r_backup_hash_blake3 : bytes;
  r_backup_size_bytes : Z;
  r_created_at : string;
  r_expires_at : option string;
}.

(** ** Inputs *)

Record NewBinary := {
  nb_binary_name : string;
  nb_platform : string;
  nb_binary_path : string;
  nb_description : option string;
}.

Record NewVersion := {
  nv_binary_id : string;
  nv_version_string : string;
  nv_file_path : string;
  nv_file_size_bytes : Z;
  nv_file_hash_blake3 : bytes;
  nv_file_hash_sha256 : bytes;
}.

Record NewDiffJob := {
  nj_from_version_id : string;
  nj_to_version_id : string;
  nj_diff_algorithm : string;
}.

Record NewManagedBinary := {
  nm_binary_id : string;
  nm_binary_name : string;
  nm_platform : string;
  nm_install_path : string;
  nm_publisher_public_key : bytes;
}.

Record NewUpdateRecord := {
  nu_binary_id : string;
  nu_from_version_id : option string;
  nu_from_version_string : option string;
  nu_to_version_id : string;
  nu_to_version_string : string;
}.

Record UpdateMetrics := {
  um_diff_id : option string;
  um_diff_algorithm : option string;
  um_diff_size_bytes : option Z;
  um_full_size_bytes : option Z;
  um_actual_downloaded_bytes : option Z;
  um_download_time_ms : option Z;
  um_apply_time_ms : option Z;
  um_verify_time_ms : option Z;
}.

Record DatabaseStats := {
  st_managed_binaries : Z;
  st_installed_versions : Z;
  st_rollback_backups : Z;
  st_update_history_records : Z;
  st_pool_connections_max : Z;
}.

(** ** What the validators accept *)

(** A stored platform, algorithm or version string. *)
Definition known_platform (p : string) : Prop := to_lowercase p ∈ all_platform_variants.
Definition known_algorithm (a : string) : Prop := to_lowercase a ∈ KNOWN_DIFF_ALGORITHMS.

Lemma existsb_elem (x : string) l : existsb (fun y => bool_decide (y = x)) l = true <-> x ∈ l.
Proof.
  rewrite existsb_exists. setoid_rewrite bool_decide_eq_true. setoid_rewrite list_elem_of_In.
  naive_solver.
Qed.

Lemma validate_platform_Ok p : validate_platform p = Ok tt <-> known_platform p.
Proof.
  unfold validate_platform, known_platform. rewrite <- existsb_elem.
  unfold KNOWN_PLATFORMS. destruct (existsb _ _); naive_solver.
Qed.

Lemma validate_diff_algorithm_Ok a : validate_diff_algorithm a = Ok tt <-> known_algorithm a.
Proof.
  unfold validate_diff_algorithm, known_algorithm. rewrite <- existsb_elem.
  destruct (existsb _ _); naive_solver.
Qed.

Lemma validate_hash_size_Ok h n : validate_hash_size h n = Ok tt <-> lenZ h = n.
Proof. unfold validate_hash_size. case_bool_decide; naive_solver. Qed.

(** Characters that [trim] keeps. *)
Definition solid (c : ascii) : bool := (33 <=? code c) && (code c <? 128).

Lemma solid_not_ws c : solid c = true -> is_whitespace [c] = false.
Proof. destruct c as [[] [] [] [] [] [] [] []]; vm_compute; congruence. Qed.

Lemma drop_ws_solid l :
  match l with [] => True | c :: _ => solid c = true end ->
  drop_ws ((fun c => [c]) <$> l) = (fun c => [c]) <$> l.
Proof. destruct l as [|c l]; [done|]. intros H. cbn [fmap list_fmap drop_ws]. by rewrite solid_not_ws. Qed.

Lemma concat_singles {A} (l : list A) : concat ((fun c => [c]) <$> l) = l.
Proof. induction l as [|c l IH]; [done|]. cbn [fmap list_fmap concat]. simpl. by rewrite IH. Qed.

(** [trim] keeps a text whose first and last characters are not spaces. *)
Lemma trim_ends s :
  all_chars is_ascii s = true ->
  (forall c l, chars s = c :: l -> solid c = true) ->
  (forall c l, chars s = l ++ [c] -> solid c = true) -> trim s = s.
Proof.
  rewrite all_chars_Forall. intros Ha Hf Hl. unfold trim.
  rewrite utf8_chars_ascii by done. rewrite drop_ws_solid by (destruct (chars s); [done|by eapply Hf]).
  rewrite <- fmap_reverse, drop_ws_solid.
  - by rewrite fmap_reverse, reverse_involutive, concat_singles, of_chars_chars.
  - destruct (reverse (chars s)) as [|c l] eqn:E; [done|].
    apply (Hl c (reverse l)). rewrite <- (reverse_involutive (chars s)), E. by rewrite reverse_cons.
Qed.

Lemma version_char_solid c : version_char c = true -> solid c = true.
Proof. destruct c as [[] [] [] [] [] [] [] []]; vm_compute; congruence. Qed.

Lemma solid_ascii c : solid c = true -> is_ascii c = true.
Proof. unfold solid, is_ascii. lia. Qed.

(** ** Version strings *)

Section Versions.
Context `{SL : SemverLaws}.

(** A stored version string: valid semver, of bounded length, not 0.0.0. *)
Definition normalized (s : string) : Prop :=
  exists v, sv_parse s = Ok v /\ str_len s <= 255 /\
    ~ (sv_major v = 0 /\ sv_minor v = 0 /\ sv_patch v = 0).

Lemma parsed_solid s v : sv_parse s = Ok v ->
  Forall (fun c => solid c = true) (chars s) /\ all_chars is_ascii s = true.
Proof.
  intros H. pose proof (sv_to_string_chars v (sv_parse_wf _ _ H)) as Hc.
  rewrite (sv_to_string_parse _ _ H), all_chars_Forall in Hc.
  rewrite all_chars_Forall. split; eapply Forall_impl; try done;
    intros c Hcc; by apply version_char_solid in Hcc; try apply solid_ascii.
Qed.

Lemma parsed_trim s v : sv_parse s = Ok v -> trim s = s.
Proof.
  intros H. destruct (parsed_solid _ _ H) as [Hs Ha]. apply trim_ends; [done|..];
    intros c l E; rewrite E in Hs.
  - by apply Forall_cons in Hs as [? _].
  - apply Forall_app in Hs as [_ Hs]. by apply Forall_cons in Hs as [? _].
Qed.

Lemma parsed_strip_v s v : sv_parse s = Ok v -> strip_v s = s.
Proof.
  intros H. destruct (sv_to_string_digit v (sv_parse_wf _ _ H)) as (c & l & E & Hd).
  rewrite (sv_to_string_parse _ _ H) in E. unfold strip_v.
  assert (forall p a k, chars p = a :: k -> is_ascii_digit a = false -> strip_prefix p s = None) as Hn.
  { intros p a k Hp Ha. destruct (strip_prefix p s) as [t|] eqn:Es; [|done].
    apply strip_prefix_Some in Es as ->. rewrite chars_app, Hp in E. simplify_eq/=. congruence. }
  by rewrite (Hn "v" "v"%char []), (Hn "V" "V"%char []).
Qed.

Lemma normalize_normalized s n : normalize_version_string s = Ok n -> normalized n.
Proof.
  unfold normalize_version_string, normalized. case_match; [done|]. case_match eqn:Hlen; [done|].
  rewrite result_bind_Ok. intros (v & Hv%map_err_Ok & Hz). case_match eqn:E; [done|].
  simplify_eq. exists v. split; [done|]. split; [lia|]. intros (? & ? & ?). lia.
Qed.

Lemma normalize_id n : normalized n -> normalize_version_string n = Ok n.
Proof.
  intros (v & Hv & Hlen & Hz). unfold normalize_version_string.
  rewrite (parsed_trim _ _ Hv), (parsed_strip_v _ _ Hv), (proj2 (parsed_solid _ _ Hv)). cbn [negb].
  destruct (Z.ltb_spec 255 (str_len n)); [lia|]. rewrite Hv. cbn.
  destruct (Z.eqb_spec (sv_major v) 0), (Z.eqb_spec (sv_minor v) 0), (Z.eqb_spec (sv_patch v) 0);
    simpl; try done. naive_solver.
Qed.

(** Normalising version strings is a projection onto the valid release versions:
    the result is semver text of at most 255 bytes that is not 0.0.0, whatever
    spaces and [v] prefix the input had; normalising again changes nothing; and
    a text already of this form is its own result. *)
Theorem normalize_version_projection s n :
  normalize_version_string s = Ok n ->
  normalized n /\ normalize_version_string n = Ok n /\ n = strip_v (trim s).
Proof.
  intros H. pose proof (normalize_normalized _ _ H) as Hn. split; [done|].
  split; [by apply normalize_id|]. revert H. unfold normalize_version_string.
  repeat case_match; try done; rewrite result_bind_Ok; intros (v & _ & Hz); by case_match; simplify_eq.
Qed.
End Versions.

(** ** Status names *)

(** Status names: what is stored reads back as the same status in any case of
    its letters, and only the names of statuses are read. *)
Theorem status_roundtrip (j : DiffJobStatus) (u : UpdateHistoryStatus) (s : string) :
  job_status_from_str (job_status_as_str j) = Ok j /\
  update_status_from_str (update_status_as_str u) = Ok u /\
  (job_status_from_str s = Ok j <-> to_lowercase s = job_status_as_str j) /\
  (update_status_from_str s = Ok u <-> to_lowercase s = update_status_as_str u).
Proof.
  split; [by destruct j|]. split; [by destruct u|]. split.
  - unfold job_status_from_str. set (l := to_lowercase s). clearbody l.
    split; [repeat case_bool_decide; intros; by simplify_eq|intros ->; by destruct j].
  - unfold update_status_from_str. set (l := to_lowercase s). clearbody l.
    split; [repeat case_bool_decide; intros; by simplify_eq|intros ->; by destruct u].
Qed.

(** ** Expiration timestamps *)

Definition sub_text (t : string) (a b : Z) : string := of_chars (takeZ (b - a) (dropZ a (chars t))).

(** The fields at the fixed positions of a timestamp, in their ranges. *)
Definition timestamp_fields (t : string) : Prop :=
  19 <= str_len t /\
  (chars t !! 10%nat = Some "T"%char \/ chars t !! 10%nat = Some " "%char) /\
  exists year month day hour minute second,
    parse_i32 (sub_text t 0 4) = Some year /\ 1970 <= year <= 2100 /\
    parse_u32 (sub_text t 5 7) = Some month /\ 1 <= month <= 12 /\
    parse_u32 (sub_text t 8 10) = Some day /\ 1 <= day <= 31 /\
    parse_u32 (sub_text t 11 13) = Some hour /\ hour <= 23 /\
    parse_u32 (sub_text t 14 16) = Some minute /\ minute <= 59 /\
    parse_u32 (sub_text t 17 19) = Some second /\ second <= 59.

Lemma ascii_boundary l i :
  Forall (fun c => is_ascii c = true) l -> 0 <= i <= lenZ l -> char_boundary l i = true.
Proof.
  intros Hl Hi. unfold char_boundary, lenZ in *. destruct (l !! Z.to_nat i) as [c|] eqn:E.
  - rewrite Forall_lookup in Hl. specialize (Hl _ _ E). unfold is_ascii, is_continuation in *.
    destruct (Z.leb_spec 128 (code c)); [lia|done].
  - apply lookup_ge_None in E. lia.
Qed.

Lemma slice_ascii t a b :
  all_chars is_ascii t = true -> 0 <= a <= b -> b <= str_len t -> slice t a b = Val (sub_text t a b).
Proof.
  rewrite all_chars_Forall. intros Ht Hab Hb. unfold slice, str_len in *.
  rewrite !ascii_boundary by (done || lia).
  replace (a <=? b) with true by lia. by replace (b <=? lenZ (chars t)) with true by lia.
Qed.

Lemma fbind_Val {E A B} (r : result E A) (k : A -> outcome (result E B)) :
  fbind (Val r) k = match r with Ok a => k a | Err e => Val (Err e) end.
Proof. by destruct r. Qed.

(** An expiration timestamp in ASCII is always judged without a panic, and it is
    accepted exactly when the six fields at the fixed positions are numbers in
    their ranges and position 10 holds [T] or a space. *)
Theorem expires_at_validated s :
  all_chars is_ascii (trim s) = true ->
  exists r, validate_expires_at_timestamp s = Val r /\ (r = Ok tt <-> timestamp_fields (trim s)).
Proof.
  intros Ha. unfold validate_expires_at_timestamp, timestamp_fields.
  remember (trim s) as t eqn:Et. clear Et s. destruct (Z.ltb_spec (str_len t) 19).
  { eexists. split; [done|]. split; [done|]. intros [? _]. lia. }
  rewrite slice_ascii by (done || lia).
  assert (utf8_chars (chars (sub_text t 0 19)) !! 10%nat = (fun c => [c]) <$> (chars t !! 10%nat)) as ->.
  { unfold sub_text. rewrite chars_of_chars, utf8_chars_ascii, list_lookup_fmap.
    - rewrite dropZ_drop, takeZ_take. simpl. by rewrite lookup_take_lt by lia.
    - rewrite dropZ_drop, takeZ_take. apply Forall_take, Forall_drop. by apply all_chars_Forall. }
  assert (is_Some (chars t !! 10%nat)) as [c Hc].
  { apply lookup_lt_is_Some. unfold str_len, lenZ in *. lia. }
  rewrite Hc. cbn [fmap option_fmap option_map].
  destruct (bool_decide ([c] = ["T"%char]) || bool_decide ([c] = [" "%char])) eqn:Hsep; cbn [negb].
  2: { eexists. split; [done|]. split; [done|]. intros (_ & Hs & _).
       rewrite orb_false_iff, !bool_decide_eq_false in Hsep. naive_solver. }
  assert (Some c = Some "T"%char \/ Some c = Some " "%char) as Hs.
  { rewrite orb_true_iff, !bool_decide_eq_true in Hsep. naive_solver. }
  unfold parse_field. rewrite !slice_ascii by (done || lia). rewrite fbind_Val.
  destruct (parse_i32 _) as [y|]; cbn [ok_or]; [|eexists; split; [done|naive_solver]].
  repeat (rewrite fbind_Val; destruct (parse_u32 _); cbn [ok_or]; [|eexists; split; [done|naive_solver]]).
  repeat (case_match; [eexists; split; [done|]; split; [done|];
    intros (_ & _ & ? & ? & ? & ? & ? & ? & ?); destruct_and!; simplify_eq; lia|]).
  eexists. split; [done|]. split; [|done]. intros _. split; [done|]. split; [done|].
  do 6 eexists. split_and!; try done; lia.
Qed.
