(* ===== verification/Sql.v ===== *)
(** * Sql: connections, statements and transactions

    What the databases use of SQLite through [sqlx].  A connection holds the
    committed tables, the private copy of an open transaction, and a schedule of
    faults: every statement (also [BEGIN], [COMMIT] and [ROLLBACK]) may fail with
    an error of the driver, and then it has no effect.  Statements are functions
    on the tables; constraint violations are errors with the message of SQLite.
    [ORDER BY] is a parameter ([SqlOrder]): it sorts, and the order of rows with
    equal keys is unspecified. *)

From S2P Require Import Prelude Text Version DbModels.

#[local] Open Scope Z_scope.

(** ** Connections *)

Record conn (T : Type) := Conn {
  disk : T;
  tx : option T;
  sched : list (option SqlxError);
}.
Arguments Conn {T} _ _ _.
Arguments disk {T} _.
Arguments tx {T} _.
Arguments sched {T} _.

Definition db (T E A : Type) : Type := conn T -> result E A * conn T.

Section Db.
Context {T : Type}.

Definition dret {E A} (a : A) : db T E A := fun c => (Ok a, c).
Definition dfail {E A} (e : E) : db T E A := fun c => (Err e, c).
Definition dlift {E A} (r : result E A) : db T E A := fun c => (r, c).
Definition dbind {E A B} (m : db T E A) (k : A -> db T E B) : db T E B := fun c =>
  match m c with
  | (Ok a, c') => k a c'
  | (Err e, c') => (Err e, c')
  end.

(** The conversion of [?]: [From<sqlx::Error> for DbError]. *)
Definition q {A} (m : db T SqlxError A) : db T DbError A := fun c =>
  let '(r, c') := m c in (map_err from_sqlx r, c').

(** What a statement reads. *)
Definition view (c : conn T) : T := default (disk c) (tx c).

Definition store (t : T) (c : conn T) : conn T :=
  match tx c with
  | Some _ => Conn (disk c) (Some t) (sched c)
  | None => Conn t None (sched c)
  end.

(** One use of the driver: it fails as scheduled, or runs. *)
Definition driver {A} (f : conn T -> result SqlxError A * conn T) : db T SqlxError A := fun c =>
  let c' := Conn (disk c) (tx c) (tail (sched c)) in
  match head (sched c) with
  | Some (Some e) => (Err e, c')
  | _ => f c'
  end.

(** A statement that changes tables; a violated constraint undoes it. *)
Definition exec {A} (f : T -> result SqlxError (A * T)) : db T SqlxError A :=
  driver (fun c => match f (view c) with
                   | Ok (a, t) => (Ok a, store t c)
                   | Err e => (Err e, c)
                   end).

(** A query. *)
Definition query {A} (f : T -> result SqlxError A) : db T SqlxError A :=
  driver (fun c => (f (view c), c)).

Definition begin_tx : db T SqlxError unit :=
  driver (fun c => (Ok tt, Conn (disk c) (Some (disk c)) (sched c))).
Definition commit_tx : db T SqlxError unit :=
  driver (fun c => (Ok tt, Conn (view c) None (sched c))).
Definition rollback_tx : db T SqlxError unit :=
  driver (fun c => (Ok tt, Conn (disk c) None (sched c))).

(** The scope of a transaction: a transaction still open at its end is dropped,
    which rolls it back. *)
Definition in_tx {A} (body : db T DbError A) : db T DbError A :=
  dbind (q begin_tx) (fun _ c =>
    let '(r, c') := body c in (r, Conn (disk c') None (sched c'))).
End Db.

Declare Scope db_scope.
Delimit Scope db_scope with db.
Notation "x ←? m ; k" := (dbind m (fun x => k))
  (at level 20, m at level 100, k at level 200, right associativity) : db_scope.
Notation "m ;;? k" := (dbind m (fun _ => k))
  (at level 100, k at level 200, right associativity) : db_scope.

(** ** Statements on tables *)

Definition unique_failed (columns : string) : SqlxError :=
  SqlxDatabase ("UNIQUE constraint failed: " +:+ columns).
Definition foreign_key_failed : SqlxError := SqlxDatabase "FOREIGN KEY constraint failed".
Definition check_failed (what : string) : SqlxError :=
  SqlxDatabase ("CHECK constraint failed: " +:+ what).
Definition no_such_table (name : string) : SqlxError := SqlxDatabase ("no such table: " +:+ name).
Definition disk_full : SqlxError := SqlxDatabase "database or disk is full".

Definition require {E} (b : bool) (e : E) : result E unit := if b then Ok tt else Err e.

(** The next key of an [AUTOINCREMENT] column. *)
Definition next_rowid (seq : Z) : result SqlxError Z :=
  if seq <? i64_max then Ok (seq + 1) else Err disk_full.

(** [SELECT MAX(version)]: [NULL] when there are no rows. *)
Fixpoint max_version (l : list Z) : option Z :=
  match l with
  | [] => None
  | v :: l => Some (match max_version l with Some m => Z.max v m | None => v end)
  end.

(** [if result.rows_affected() == 0 { return Err(NotFound) }]. *)
Definition found_rows {T} (n : Z) : db T DbError unit := if n =? 0 then dfail DbNotFound else dret tt.

Section Rows.
Context {A : Type}.

(** [UPDATE .. SET .. WHERE ..]: the rows, and how many the condition selects. *)
Definition update_rows (p : A -> bool) (g : A -> A) (l : list A) : list A :=
  (fun r => if p r then g r else r) <$> l.
Definition count_rows (p : A -> bool) (l : list A) : Z := lenZ (List.filter p l).
(** [DELETE .. WHERE ..]. *)
Definition delete_rows (p : A -> bool) (l : list A) : list A := List.filter (fun r => negb (p r)) l.

(** [LIMIT]: a negative limit is no limit; [OFFSET]: a negative one is none. *)
Definition limit (n : Z) (l : list A) : list A := if n <? 0 then l else takeZ n l.
Definition offset (n : Z) (l : list A) : list A := dropZ n l.

Definition seek (p : A -> bool) (l : list A) : option A := List.find p l.
End Rows.

(** The order of [TEXT] columns: byte order. *)
Definition text_lt (a b : string) : bool := match String.compare a b with Lt => true | _ => false end.
Definition text_le (a b : string) : Prop := String.compare a b <> Gt.

Inductive direction := Asc | Desc.

Definition in_order (d : direction) (a b : string) : Prop :=
  match d with Asc => text_le a b | Desc => text_le b a end.

Class SqlOrder := {
  order_by {A} : direction -> (A -> string) -> list A -> list A;
}.

Class SqlOrderLaws (SO : SqlOrder) : Prop := {
  order_by_perm {A} d (key : A -> string) l : order_by d key l ≡ₚ l;
  order_by_sorted {A} d (key : A -> string) l :
    StronglySorted (fun a b => in_order d (key a) (key b)) (order_by d key l);
}.

(** ** The effect of a program on the committed tables *)

Section Effects.
Context {T : Type}.

(** Outside transactions: how the tables change when the program returns a value
    and when it returns an error, whatever the schedule. *)
Definition effect {E A} (m : db T E A) (ok : T -> A -> T -> Prop) (err : T -> E -> T -> Prop) : Prop :=
  forall c, tx c = None -> tx (m c).2 = None /\
    match (m c).1 with
    | Ok a => ok (disk c) a (disk (m c).2)
    | Err e => err (disk c) e (disk (m c).2)
    end.

(** The tables are not changed. *)
Definition same {B} (t : T) (_ : B) (t' : T) : Prop := t' = t.

Lemma effect_weaken {E A} (m : db T E A) (ok ok' : T -> A -> T -> Prop) (err err' : T -> E -> T -> Prop) :
  effect m ok err -> (forall t a t', ok t a t' -> ok' t a t') ->
  (forall t e t', err t e t' -> err' t e t') -> effect m ok' err'.
Proof.
  intros H Ho He c Hc. destruct (H c Hc) as [H1 H2]. split; [done|].
  destruct (m c) as [[a|e] c']; simpl in *; auto.
Qed.

Lemma effect_ret {E A} (a : A) : effect (dret (E := E) a) (fun t b t' => b = a /\ t' = t) same.
Proof. intros c Hc. done. Qed.

Lemma effect_lift {E A} (r : result E A) :
  effect (dlift r) (fun t b t' => r = Ok b /\ t' = t) (fun t e t' => r = Err e /\ t' = t).
Proof. intros c Hc. unfold dlift. simpl. by destruct r. Qed.

Lemma effect_q {A} (m : db T SqlxError A) ok err :
  effect m ok err -> effect (q m) ok (fun t e t' => exists e', e = from_sqlx e' /\ err t e' t').
Proof.
  intros H c Hc. destruct (H c Hc) as [H1 H2]. unfold q. destruct (m c) as [[a|e] c']; simpl in *; eauto.
Qed.

Lemma effect_bind {E A B} (m : db T E A) (k : A -> db T E B) ok ok' err err' :
  effect m ok err -> (forall a, effect (k a) (ok' a) (err' a)) ->
  effect (dbind m k)
    (fun t b t' => exists a t1, ok t a t1 /\ ok' a t1 b t')
    (fun t e t' => err t e t' \/ exists a t1, ok t a t1 /\ err' a t1 e t').
Proof.
  intros Hm Hk c Hc. destruct (Hm c Hc) as [H1 H2]. unfold dbind.
  destruct (m c) as [[a|e] c1]; simpl in *; [|by auto].
  destruct (Hk a c1 H1) as [H3 H4]. split; [done|].
  destruct (k a c1) as [[b|e] c2]; simpl in *; eauto.
Qed.

Lemma effect_exec {A} (f : T -> result SqlxError (A * T)) :
  effect (exec f) (fun t a t' => f t = Ok (a, t')) same.
Proof.
  intros [d o s] Hc. simpl in Hc. subst. unfold exec, driver, view, store, same. simpl.
  destruct s as [|[e|] s]; simpl; try done; destruct (f d) as [[a t]|e]; done.
Qed.

Lemma effect_query {A} (f : T -> result SqlxError A) :
  effect (query f) (fun t a t' => f t = Ok a /\ t' = t) same.
Proof.
  intros [d o s] Hc. simpl in Hc. subst. unfold query, driver, view, same. simpl.
  destruct s as [|[e|] s]; simpl; try done; destruct (f d) as [a|e]; done.
Qed.

(** Inside a transaction: the statements change the private copy only. *)
Definition within {E A} (m : db T E A) (ok : T -> A -> T -> Prop) : Prop :=
  forall c t, tx c = Some t -> disk (m c).2 = disk c /\
    match (m c).1 with
    | Ok a => exists t', tx (m c).2 = Some t' /\ ok t a t'
    | Err _ => True
    end.

(** The rest of a transaction up to its end: what is committed when it succeeds;
    nothing when it fails. *)
Definition closing {E A} (m : db T E A) (ok : T -> T -> A -> T -> Prop) : Prop :=
  forall c t, tx c = Some t ->
    match (m c).1 with
    | Ok a => ok (disk c) t a (disk (m c).2)
    | Err _ => disk (m c).2 = disk c
    end.

Lemma within_exec {A} (f : T -> result SqlxError (A * T)) :
  within (q (exec f)) (fun t a t' => f t = Ok (a, t')).
Proof.
  intros [d o s] t Hc. simpl in Hc. subst. unfold q, exec, driver, view, store. simpl.
  destruct s as [|[e|] s]; simpl; try done; destruct (f t) as [[a t']|e]; simpl; eauto.
Qed.

Lemma within_query {A} (f : T -> result SqlxError A) :
  within (q (query f)) (fun t a t' => f t = Ok a /\ t' = t).
Proof.
  intros [d o s] t Hc. simpl in Hc. subst. unfold q, query, driver, view. simpl.
  destruct s as [|[e|] s]; simpl; try done; destruct (f t) as [a|e]; simpl; eauto.
Qed.

Lemma closing_bind {E A B} (m : db T E A) (k : A -> db T E B) ok ok' :
  within m ok -> (forall a, closing (k a) (ok' a)) ->
  closing (dbind m k) (fun d t b d' => exists a t1, ok t a t1 /\ ok' a d t1 b d').
Proof.
  intros Hm Hk c t Hc. destruct (Hm c t Hc) as [H1 H2]. unfold dbind.
  destruct (m c) as [[a|e] c1]; simpl in *; [|done].
  destruct H2 as (t1 & Ht1 & Ho). specialize (Hk a c1 t1 Ht1).
  destruct (k a c1) as [[b|e] c2]; simpl in *; rewrite <- H1; eauto.
Qed.

Lemma closing_commit {A} (a : A) :
  closing (dbind (q commit_tx) (fun _ => dret (E := DbError) a)) (fun _ t b d' => b = a /\ d' = t).
Proof.
  intros [d o s] t Hc. simpl in Hc. subst. unfold dbind, q, commit_tx, driver, view. simpl.
  destruct s as [|[e|] s]; simpl; done.
Qed.

Lemma closing_rollback {A} (r : result DbError A) :
  closing (dbind (q rollback_tx) (fun _ => dlift r)) (fun d _ b d' => r = Ok b /\ d' = d).
Proof.
  intros [d o s] t Hc. simpl in Hc. subst. unfold dbind, q, rollback_tx, driver, dlift. simpl.
  destruct s as [|[e|] s]; simpl; try done; by destruct r.
Qed.

Lemma closing_weaken {E A} (m : db T E A) (ok ok' : T -> T -> A -> T -> Prop) :
  closing m ok -> (forall d t a d', ok d t a d' -> ok' d t a d') -> closing m ok'.
Proof. intros H Hw c t Hc. specialize (H c t Hc). destruct (m c) as [[a|e] c']; simpl in *; auto. Qed.

(** A guard that rolls back and returns an error. *)
Lemma closing_guard {A} (b : bool) e (m : db T DbError A) ok :
  closing m ok ->
  closing (if b then dbind (q rollback_tx) (fun _ => dlift (Err e)) else m)
    (fun d t a d' => b = false /\ ok d t a d').
Proof.
  intros Hm. destruct b.
  - eapply closing_weaken; [apply closing_rollback|]. by intros ???? [? _].
  - eapply closing_weaken; [done|]. auto.
Qed.

Lemma effect_in_tx {A} (body : db T DbError A) ok :
  closing body ok -> effect (in_tx body) (fun t a t' => ok t t a t') same.
Proof.
  intros Hb [d o s] Hc. simpl in Hc. subst. unfold in_tx, dbind, q, begin_tx, driver, same. simpl.
  destruct s as [|[e|] s]; simpl; [|done|];
    match goal with |- context [body ?c] => specialize (Hb c d eq_refl); destruct (body c) as [[a|e] c'] end;
    simpl in *; done.
Qed.
End Effects.
Arguments same {T B} t _ t' /.

(** A connection whose driver never fails. *)
Definition undisturbed {T} (t : T) : conn T := Conn t None [].

(** ** Rows *)

Section Lists.
Context {A : Type}.

Lemma elem_of_delete_rows (p : A -> bool) l x : x ∈ delete_rows p l <-> x ∈ l /\ p x = false.
Proof.
  unfold delete_rows. rewrite !list_elem_of_In, filter_In, negb_true_iff. done.
Qed.

Lemma elem_of_update_rows (p : A -> bool) g l y :
  y ∈ update_rows p g l <-> exists x, x ∈ l /\ y = if p x then g x else x.
Proof. unfold update_rows. rewrite list_elem_of_fmap. naive_solver. Qed.

Lemma NoDup_delete_rows {B} (f : A -> B) (p : A -> bool) l :
  NoDup (f <$> l) -> NoDup (f <$> delete_rows p l).
Proof.
  induction l as [|x l IH]; [done|]. cbn [fmap list_fmap]. rewrite NoDup_cons. intros [Hx Hl].
  unfold delete_rows. cbn [List.filter]. destruct (negb (p x)); [|by apply IH].
  cbn [fmap list_fmap]. apply NoDup_cons. split; [|by apply IH].
  intros Hin. apply Hx. apply list_elem_of_fmap in Hin as (y & -> & Hy).
  apply elem_of_delete_rows in Hy as [Hy _]. by apply list_elem_of_fmap_2.
Qed.

Lemma fmap_update_rows {B} (f : A -> B) (p : A -> bool) g l :
  (forall x, f (g x) = f x) -> f <$> update_rows p g l = f <$> l.
Proof.
  intros H. unfold update_rows. rewrite <- list_fmap_compose. apply list_fmap_ext. intros ? x _. simpl.
  by case_match.
Qed.

Lemma NoDup_snoc {B} (f : A -> B) l x : NoDup (f <$> l) -> f x ∉ f <$> l -> NoDup (f <$> l ++ [x]).
Proof.
  intros Hl Hx. rewrite fmap_app. apply NoDup_app. split; [done|]. split; [|apply NoDup_singleton].
  intros y Hy. cbn. intros ->%list_elem_of_singleton. done.
Qed.

Lemma count_rows_pos (p : A -> bool) l : count_rows p l <> 0 <-> exists x, x ∈ l /\ p x = true.
Proof.
  unfold count_rows, lenZ. induction l as [|x l IH]; cbn [List.filter].
  - simpl. split; [lia|]. intros (? & ?%elem_of_nil & _). done.
  - destruct (p x) eqn:E.
    + split; [|simpl; lia]. intros _. exists x. split; [left|done].
    + rewrite IH. split; intros (y & Hy & Hp); exists y; (split; [|done]); [by right|].
      apply elem_of_cons in Hy as [->|?]; [congruence|done].
Qed.

Lemma seek_Some (p : A -> bool) l x : seek p l = Some x -> x ∈ l /\ p x = true.
Proof. unfold seek. intros [H1 H2]%List.find_some. by rewrite list_elem_of_In. Qed.

Lemma seek_None (p : A -> bool) l : seek p l = None <-> forall x, x ∈ l -> p x = false.
Proof.
  unfold seek. setoid_rewrite list_elem_of_In. split; [by intros H x; apply List.find_none|].
  intros H. destruct (List.find p l) eqn:E; [|done]. apply List.find_some in E as [? E].
  rewrite H in E; done.
Qed.

Lemma NoDup_key_eq {B} (f : A -> B) l x y : NoDup (f <$> l) -> x ∈ l -> y ∈ l -> f x = f y -> x = y.
Proof.
  intros Hl [i Hi]%list_elem_of_lookup [j Hj]%list_elem_of_lookup E.
  assert (i = j) as ->; [|congruence].
  eapply NoDup_lookup; [done|by rewrite list_lookup_fmap, Hi|by rewrite list_lookup_fmap, Hj, E].
Qed.

(** A unique key finds its row. *)
Lemma seek_app (p : A -> bool) l k : seek p l = None -> seek p (l ++ k) = seek p k.
Proof. unfold seek. induction l as [|x l IH]; [done|]. cbn. destruct (p x); [done|exact IH]. Qed.

Lemma seek_key {B} `{EqDecision B} (f : A -> B) l x :
  NoDup (f <$> l) -> x ∈ l -> seek (fun y => bool_decide (f y = f x)) l = Some x.
Proof.
  intros Hl Hx. destruct (seek _ l) as [y|] eqn:E.
  - apply seek_Some in E as [Hy E%bool_decide_eq_true]. f_equal. by eapply NoDup_key_eq.
  - rewrite seek_None in E. specialize (E x Hx). by rewrite bool_decide_eq_false in E.
Qed.
End Lists.

(** Filters. *)
Lemma elem_of_filterb {A} (p : A -> bool) l x : x ∈ List.filter p l <-> x ∈ l /\ p x = true.
Proof. by rewrite !list_elem_of_In, filter_In. Qed.

Lemma filterb_perm {A} (p : A -> bool) l k : l ≡ₚ k -> List.filter p l ≡ₚ List.filter p k.
Proof.
  induction 1 as [|x l k H IH|x y l|l k j H1 IH1 H2 IH2]; simpl; [done| | |by etrans].
  - destruct (p x); [by constructor|done].
  - destruct (p x), (p y); try constructor; done.
Qed.

Lemma NoDup_filterb {A B} (f : A -> B) (p : A -> bool) l : NoDup (f <$> l) -> NoDup (f <$> List.filter p l).
Proof.
  intros H. pose proof (NoDup_delete_rows f (fun x => negb (p x)) l H) as Hd. unfold delete_rows in Hd.
  erewrite filter_ext in Hd; [exact Hd|]. intros x. apply negb_involutive.
Qed.

Lemma filter_filter {A} (p q : A -> bool) l : List.filter p (List.filter q l) = List.filter (fun x => q x && p x) l.
Proof. induction l as [|x l IH]; [done|]. cbn. destruct (q x); cbn; [|done]. by destruct (p x); rewrite IH. Qed.

Lemma filter_all {A} (p : A -> bool) l : (forall x, x ∈ l -> p x = true) -> List.filter p l = l.
Proof.
  induction l as [|x l IH]; intros H; [done|]. cbn. rewrite H by (by left). rewrite IH; [done|]. intros y Hy. apply H. by right.
Qed.

Lemma drop_in {A} k (l : list A) x : x ∈ drop k l -> x ∈ l.
Proof. intros H. rewrite <- (take_drop k l). apply elem_of_app. by right. Qed.

Create HintDb sql.
Create Rewrite HintDb sql.
#[export] Hint Resolve NoDup_delete_rows : sql.
#[export] Hint Rewrite @elem_of_delete_rows @elem_of_update_rows : sql.

Lemma existsb_key {A} (f : A -> string) k l :
  existsb (fun r => bool_decide (f r = k)) l = true <-> k ∈ f <$> l.
Proof.
  rewrite existsb_exists, list_elem_of_fmap. setoid_rewrite bool_decide_eq_true.
  setoid_rewrite list_elem_of_In. naive_solver.
Qed.

Lemma require_Ok {E} b (e : E) : require b e = Ok tt <-> b = true.
Proof. by destruct b. Qed.

Lemma next_rowid_Ok seq id : next_rowid seq = Ok id -> id = seq + 1.
Proof. unfold next_rowid. case_match; congruence. Qed.

(** ** Invariants of the tables *)

(** A program whose value is dropped. *)
Definition forget {T A} (m : db T DbError A) : db T DbError unit := dbind m (fun _ => dret tt).

Section Invariant.
Context {T : Type} (I : T -> Prop).

(** The program preserves the invariant, in success and in failure. *)
Definition keeps_inv {E A} (m : db T E A) : Prop :=
  effect m (fun t _ t' => I t -> I t') (fun t _ t' => I t -> I t').

Lemma preserves_bind {E A B} (m : db T E A) (k : A -> db T E B) :
  keeps_inv m -> (forall a, keeps_inv (k a)) -> keeps_inv (dbind m k).
Proof.
  intros Hm Hk. eapply effect_weaken; [apply (effect_bind m k _ (fun _ => _) _ (fun _ => _) Hm Hk)|..]; simpl.
  - intros t b t' (a & t1 & H1 & H2); auto.
  - intros t e t' [?|(a & t1 & H1 & H2)]; auto.
Qed.

Lemma preserves_same {E A} (m : db T E A) ok :
  effect m ok same -> (forall t a t', ok t a t' -> I t -> I t') -> keeps_inv m.
Proof. intros Hm Ho. eapply effect_weaken; [done|done|]. by intros ??? ->. Qed.

Lemma preserves_exec {A} (f : T -> result SqlxError (A * T)) :
  (forall t a t', I t -> f t = Ok (a, t') -> I t') -> keeps_inv (q (exec f)).
Proof.
  intros Hf. eapply effect_weaken; [apply effect_q, effect_exec|..]; simpl.
  - intros t a t' H. eauto.
  - by intros ??? (? & _ & ->).
Qed.

Lemma preserves_query {A} (f : T -> result SqlxError A) : keeps_inv (q (query f)).
Proof.
  eapply effect_weaken; [apply effect_q, effect_query|..]; simpl;
    [by intros ??? (_ & ->)|by intros ??? (? & _ & ->)].
Qed.

Lemma preserves_lift {E A} (r : result E A) : keeps_inv (dlift r).
Proof. eapply effect_weaken; [apply effect_lift|..]; by intros ??? [_ ->]. Qed.

Lemma preserves_ret {E A} (a : A) : keeps_inv (dret (E := E) a).
Proof. apply (preserves_lift (Ok a)). Qed.
Lemma preserves_fail {E A} (e : E) : keeps_inv (dfail (A := A) e).
Proof. apply (preserves_lift (Err e)). Qed.

Lemma preserves_found n : keeps_inv (found_rows n).
Proof. unfold found_rows. case_match; [apply preserves_fail|apply preserves_ret]. Qed.

Lemma preserves_forget {A} (m : db T DbError A) : keeps_inv m -> keeps_inv (forget m).
Proof. intros H. apply preserves_bind; [done|]. intros _. apply preserves_ret. Qed.

(** Checks before the statement. *)
Lemma preserves_check {E A B} (r : result E A) (k : A -> db T E B) :
  (forall a, r = Ok a -> keeps_inv (k a)) -> keeps_inv (dbind (dlift r) k).
Proof. intros Hk. destruct r as [a|e]; [by apply Hk|intros c Hc; by split; [|intros ?]]. Qed.
End Invariant.

(** Transactions whose statements all stay in a preorder. *)
Section Related.
Context {T : Type} (R : relation T) `{!PreOrder R}.

Definition closing_rel {A} (m : db T DbError A) : Prop := closing m (fun d t _ d' => d' = d \/ R t d').

Lemma within_rel_exec {A} (f : T -> result SqlxError (A * T)) :
  (forall t a t', f t = Ok (a, t') -> R t t') -> within (q (exec f)) (fun t _ t' => R t t').
Proof.
  intros Hf c t Hc. destruct (within_exec f c t Hc) as [? H]. split; [done|].
  destruct (q (exec f) c) as [[a|e] c']; simpl in *; [|done]. naive_solver.
Qed.

Lemma within_rel_query {A} (f : T -> result SqlxError A) : within (q (query f)) (fun t _ t' => R t t').
Proof.
  intros c t Hc. destruct (within_query f c t Hc) as [? H]. split; [done|].
  destruct (q (query f) c) as [[a|e] c']; simpl in *; [|done].
  destruct H as (t' & Ht' & _ & ->). by exists t.
Qed.

Lemma closing_rel_bind {A B} (m : db T DbError A) (k : A -> db T DbError B) :
  within m (fun t _ t' => R t t') -> (forall a, closing_rel (k a)) -> closing_rel (dbind m k).
Proof.
  intros Hm Hk. eapply closing_weaken; [apply (closing_bind m k _ (fun _ => _) Hm Hk)|].
  intros d t b d' (_ & t1 & H1 & [->|H2]); [by left|right; by etrans].
Qed.
End Related.

(** ** Atomicity *)

Section Atomic.
Context {T : Type}.

(** A failed program leaves the tables as they were. *)
Definition atomic {E A} (m : db T E A) : Prop := effect m (fun _ _ _ => True) same.

Lemma atomic_exec {A} (f : T -> result SqlxError (A * T)) : atomic (q (exec f)).
Proof.
  eapply effect_weaken; [apply effect_q, effect_exec|done|]. by intros ??? (? & _ & ->).
Qed.

Lemma atomic_check {E A B} (r : result E A) (k : A -> db T E B) :
  (forall a, atomic (k a)) -> atomic (dbind (dlift r) k).
Proof. intros Hk. destruct r as [a|e]; [apply Hk|by intros c Hc]. Qed.

Lemma atomic_forget {A} (m : db T DbError A) : atomic m -> atomic (forget m).
Proof.
  intros H c Hc. specialize (H c Hc). unfold forget, dbind. by destruct (m c) as [[a|e] c'].
Qed.

Lemma update_rows_none {A} (p : A -> bool) g l : count_rows p l = 0 -> update_rows p g l = l.
Proof.
  intros H. assert (forall x, x ∈ l -> p x = false) as Hn.
  { intros x Hx. destruct (p x) eqn:E; [|done]. exfalso. apply (proj2 (count_rows_pos p l)); eauto. }
  clear H. induction l as [|x l IH]; [done|]. cbn [update_rows fmap list_fmap].
  rewrite Hn by left. f_equal. apply IH. intros y Hy. apply Hn. by right.
Qed.

Lemma delete_rows_none {A} (p : A -> bool) l : count_rows p l = 0 -> delete_rows p l = l.
Proof.
  unfold count_rows, lenZ, delete_rows. induction l as [|x l IH]; [done|]. cbn [List.filter].
  destruct (p x); simpl; intros H; [lia|]. f_equal. by apply IH.
Qed.

(** An update or deletion that finds no row changes nothing. *)
Lemma atomic_count f :
  (forall t n t', f t = Ok (n, t') -> n = 0 -> t' = t) ->
  atomic (dbind (q (exec f)) found_rows).
Proof.
  intros Hf c Hc. destruct (effect_q _ _ _ (effect_exec f) c Hc) as [H1 H2].
  unfold dbind. destruct (q (exec f) c) as [[n|e] c']; simpl in *.
  - unfold found_rows. destruct (Z.eqb_spec n 0); simpl; [|done]. split; [done|]. eauto.
  - split; [done|]. by destruct H2 as (? & _ & ->).
Qed.

End Atomic.
