(* ===== verification/ClientDb.v ===== *)
(** * ClientDb: the client's database ([deltaship-db/src/client.rs])

    The tables of the client, with the constraints of [schema.rs] as checks of
    the statements, and the operations of [ClientDb].  [now] is the value of
    [CURRENT_TIMESTAMP] during the operation; SQLite's [datetime] with a modifier
    is a parameter. *)

From S2P Require Import Prelude Text Version DbModels Sql.

#[local] Open Scope Z_scope.
#[local] Open Scope db_scope.

(** ** The tables *)

Record client_tables := {
  ct_created : gset string;                         (** the tables that exist *)
  ct_schema_version : list Z;
  ct_config : gmap string (string * string);        (** value and [updated_at] *)
  ct_managed : list DbManagedBinary;
  ct_installed : list DbInstalledVersion;
  ct_history : list DbUpdateHistory;
  ct_backups : list DbRollbackBackup;
  ct_seq_installed : Z;                             (** [sqlite_sequence] *)
  ct_seq_history : Z;
  ct_seq_backups : Z;
}.

(** A new database file. *)
Definition empty_client : client_tables := {|
  ct_created := ∅; ct_schema_version := []; ct_config := ∅; ct_managed := []; ct_installed := [];
  ct_history := []; ct_backups := []; ct_seq_installed := 0; ct_seq_history := 0; ct_seq_backups := 0;
|}.

Definition with_created (f : gset string -> gset string) (t : client_tables) : client_tables := {|
  ct_created := f (ct_created t); ct_schema_version := ct_schema_version t; ct_config := ct_config t;
  ct_managed := ct_managed t; ct_installed := ct_installed t; ct_history := ct_history t;
  ct_backups := ct_backups t; ct_seq_installed := ct_seq_installed t;
  ct_seq_history := ct_seq_history t; ct_seq_backups := ct_seq_backups t;
|}.

Definition with_schema_version (v : list Z) (t : client_tables) : client_tables := {|
  ct_created := ct_created t; ct_schema_version := v; ct_config := ct_config t;
  ct_managed := ct_managed t; ct_installed := ct_installed t; ct_history := ct_history t;
  ct_backups := ct_backups t; ct_seq_installed := ct_seq_installed t;
  ct_seq_history := ct_seq_history t; ct_seq_backups := ct_seq_backups t;
|}.

Definition with_config (v : gmap string (string * string)) (t : client_tables) : client_tables := {|
  ct_created := ct_created t; ct_schema_version := ct_schema_version t; ct_config := v;
  ct_managed := ct_managed t; ct_installed := ct_installed t; ct_history := ct_history t;
  ct_backups := ct_backups t; ct_seq_installed := ct_seq_installed t;
  ct_seq_history := ct_seq_history t; ct_seq_backups := ct_seq_backups t;
|}.

Definition with_managed (v : list DbManagedBinary) (t : client_tables) : client_tables := {|
  ct_created := ct_created t; ct_schema_version := ct_schema_version t; ct_config := ct_config t;
  ct_managed := v; ct_installed := ct_installed t; ct_history := ct_history t;
  ct_backups := ct_backups t; ct_seq_installed := ct_seq_installed t;
  ct_seq_history := ct_seq_history t; ct_seq_backups := ct_seq_backups t;
|}.

Definition with_installed (v : list DbInstalledVersion) (seq : Z) (t : client_tables) : client_tables := {|
  ct_created := ct_created t; ct_schema_version := ct_schema_version t; ct_config := ct_config t;
  ct_managed := ct_managed t; ct_installed := v; ct_history := ct_history t;
  ct_backups := ct_backups t; ct_seq_installed := seq;
  ct_seq_history := ct_seq_history t; ct_seq_backups := ct_seq_backups t;
|}.

Definition with_history (v : list DbUpdateHistory) (seq : Z) (t : client_tables) : client_tables := {|
  ct_created := ct_created t; ct_schema_version := ct_schema_version t; ct_config := ct_config t;
  ct_managed := ct_managed t; ct_installed := ct_installed t; ct_history := v;
  ct_backups := ct_backups t; ct_seq_installed := ct_seq_installed t;
  ct_seq_history := seq; ct_seq_backups := ct_seq_backups t;
|}.

Definition with_backups (v : list DbRollbackBackup) (seq : Z) (t : client_tables) : client_tables := {|
  ct_created := ct_created t; ct_schema_version := ct_schema_version t; ct_config := ct_config t;
  ct_managed := ct_managed t; ct_installed := ct_installed t; ct_history := ct_history t;
  ct_backups := v; ct_seq_installed := ct_seq_installed t;
  ct_seq_history := ct_seq_history t; ct_seq_backups := seq;
|}.

(** A statement on a table that does not exist fails. *)
Definition on {A} (name : string) (f : client_tables -> result SqlxError A) (t : client_tables)
    : result SqlxError A :=
  if bool_decide (name ∈ ct_created t) then f t else Err (no_such_table name).

(** The foreign key of the three child tables. *)
Definition binary_exists (t : client_tables) (binary_id : string) : bool :=
  existsb (fun m => bool_decide (m_binary_id m = binary_id)) (ct_managed t).

(** ** Schema initialisation *)

Definition CLIENT_SCHEMA_VERSION : Z := 1.

(** [CREATE TABLE IF NOT EXISTS]. *)
Definition create_table (name : string) : db client_tables SqlxError unit :=
  exec (fun t => Ok (tt, with_created (fun X => {[name]} ∪ X) t)).

(** [CREATE INDEX IF NOT EXISTS]: uniqueness is checked by the statements. *)
Definition create_index (name : string) : db client_tables SqlxError unit :=
  exec (on name (fun t => Ok (tt, t))).

Definition default_config : list (string * string) :=
  [("server_url", "https://updates.example.com"); ("check_interval_seconds", "3600");
   ("auto_update_enabled", "1"); ("verify_signatures", "1"); ("rollback_enabled", "1");
   ("max_rollback_backups", "3")].

(** The insertion of the defaults: existing keys are kept. *)
Definition insert_default_config (now : string) : db client_tables SqlxError unit :=
  exec (on "client_config" (fun t =>
    Ok (tt, with_config (ct_config t ∪ ((fun v => (v, now)) <$> list_to_map default_config)) t))).

(** The transaction of [init]. *)
Definition init_schema (now : string) : db client_tables DbError unit :=
  q (create_table "schema_version") ;;?
  existing_version ←? q (query (on "schema_version" (fun t => Ok (max_version (ct_schema_version t)))));
  match existing_version with
  | Some version =>
      if version =? CLIENT_SCHEMA_VERSION then q rollback_tx ;;? dlift (Ok tt)
      else q rollback_tx ;;? dlift (Err DbSchemaMismatch)
  | None =>
      q (exec (on "schema_version" (fun t =>
           Ok (tt, with_schema_version
                     (if bool_decide (1 ∈ ct_schema_version t) then ct_schema_version t
                      else ct_schema_version t ++ [1]) t)))) ;;?
      q (create_table "client_config") ;;?
      q (insert_default_config now) ;;?
      q (create_table "managed_binaries") ;;?
      q (create_index "managed_binaries") ;;?
      q (create_table "installed_versions") ;;?
      q (create_index "installed_versions") ;;?
      q (create_table "update_history") ;;?
      q (create_index "update_history") ;;?
      q (create_table "rollback_backups") ;;?
      q (create_index "rollback_backups") ;;?
      q commit_tx ;;? dret tt
  end.

(** [integrity] is the answer of [PRAGMA integrity_check]. *)
Definition init (integrity : string) (now : string) : db client_tables DbError unit :=
  answer ←? q (query (fun _ => Ok integrity));
  if negb (bool_decide (answer = "ok")) then dfail DbInvalidData
  else in_tx (init_schema now).

(** ** Health and statistics *)

Definition health_check (integrity : string) : db client_tables DbError string :=
  q (query (fun _ => Ok 1)) ;;?
  answer ←? q (query (fun _ => Ok integrity));
  if negb (bool_decide (answer = "ok")) then dfail DbInvalidData
  else dret "Database is healthy".

Definition count_of {A} (name : string) (rows : client_tables -> list A) : db client_tables DbError Z :=
  q (query (on name (fun t => Ok (lenZ (rows t))))).

Definition get_stats : db client_tables DbError DatabaseStats :=
  binary_count ←? count_of "managed_binaries" ct_managed;
  version_count ←? count_of "installed_versions" ct_installed;
  backup_count ←? count_of "rollback_backups" ct_backups;
  update_count ←? count_of "update_history" ct_history;
  dret {| st_managed_binaries := binary_count; st_installed_versions := version_count;
          st_rollback_backups := backup_count; st_update_history_records := update_count;
          st_pool_connections_max := 5 |}.

(** ** Configuration *)

Definition get_config (key : string) : db client_tables DbError (option string) :=
  q (query (on "client_config" (fun t => Ok (option_map fst (ct_config t !! key))))).

Definition set_config (now key value : string) : db client_tables DbError unit :=
  q (exec (on "client_config" (fun t => Ok (tt, with_config (<[key := (value, now)]> (ct_config t)) t)))).

(** ** Managed binaries *)

Definition has_binary_id (id : string) (m : DbManagedBinary) : bool := bool_decide (m_binary_id m = id).
Definition has_binary_name (n : string) (m : DbManagedBinary) : bool := bool_decide (m_binary_name m = n).

Definition get_binary (binary_id : string) : db client_tables DbError (option DbManagedBinary) :=
  q (query (on "managed_binaries" (fun t => Ok (seek (has_binary_id binary_id) (ct_managed t))))).

Definition get_binary_by_name (binary_name : string) : db client_tables DbError (option DbManagedBinary) :=
  q (query (on "managed_binaries" (fun t => Ok (seek (has_binary_name binary_name) (ct_managed t))))).

(** The row of [INSERT INTO managed_binaries], with the column defaults. *)
Definition new_managed (now : string) (b : NewManagedBinary) : DbManagedBinary := {|
  m_binary_id := nm_binary_id b; m_binary_name := nm_binary_name b; m_platform := nm_platform b;
  m_install_path := nm_install_path b; m_current_version_id := None; m_current_version_string := None;
  m_publisher_public_key := nm_publisher_public_key b; m_auto_update := true; m_last_check_at := None;
  m_last_update_at := None; m_created_at := now; m_updated_at := now;
|}.

Definition insert_managed (row : DbManagedBinary) (t : client_tables) : result SqlxError (unit * client_tables) :=
  _ ← require (negb (existsb (has_binary_id (m_binary_id row)) (ct_managed t)))
        (unique_failed "managed_binaries.binary_id");
  _ ← require (negb (existsb (has_binary_name (m_binary_name row)) (ct_managed t)))
        (unique_failed "managed_binaries.binary_name");
  Ok (tt, with_managed (ct_managed t ++ [row]) t).

Definition register_binary (now : string) (binary : NewManagedBinary) : db client_tables DbError DbManagedBinary :=
  dlift (validate_platform (nm_platform binary)) ;;?
  q (exec (on "managed_binaries" (insert_managed (new_managed now binary)))) ;;?
  found ←? get_binary (nm_binary_id binary);
  dlift (ok_or DbNotFound found).

Section Lists.
Context {SO : SqlOrder}.

Definition list_binaries : db client_tables DbError (list DbManagedBinary) :=
  q (query (on "managed_binaries" (fun t => Ok (order_by Asc m_binary_name (ct_managed t))))).

Definition list_binaries_paginated (lim off : Z) : db client_tables DbError (list DbManagedBinary) :=
  if lim <=? 0 then dfail DbInvalidData
  else if off <? 0 then dfail DbInvalidData
  else q (query (on "managed_binaries" (fun t =>
         Ok (limit lim (offset off (order_by Asc m_binary_name (ct_managed t))))))).
End Lists.

(** An [UPDATE managed_binaries] of one row; the number of rows it found. *)
Definition update_managed (binary_id : string) (g : DbManagedBinary -> DbManagedBinary)
    (t : client_tables) : result SqlxError (Z * client_tables) :=
  Ok (count_rows (has_binary_id binary_id) (ct_managed t),
      with_managed (update_rows (has_binary_id binary_id) g (ct_managed t)) t).

Definition set_current (now version_id version_string : string) (m : DbManagedBinary) : DbManagedBinary := {|
  m_binary_id := m_binary_id m; m_binary_name := m_binary_name m; m_platform := m_platform m;
  m_install_path := m_install_path m; m_current_version_id := Some version_id;
  m_current_version_string := Some version_string; m_publisher_public_key := m_publisher_public_key m;
  m_auto_update := m_auto_update m; m_last_check_at := m_last_check_at m;
  m_last_update_at := Some now; m_created_at := m_created_at m; m_updated_at := now;
|}.

Definition set_is_current (b : bool) (r : DbInstalledVersion) : DbInstalledVersion := {|
  i_id := i_id r; i_binary_id := i_binary_id r; i_version_id := i_version_id r;
  i_version_string := i_version_string r; i_file_hash_blake3 := i_file_hash_blake3 r;
  i_file_hash_sha256 := i_file_hash_sha256 r; i_file_size_bytes := i_file_size_bytes r;
  i_installed_at := i_installed_at r; i_is_current := b;
|}.

Definition of_binary (binary_id : string) (r : DbInstalledVersion) : bool := bool_decide (i_binary_id r = binary_id).
Definition is_version (binary_id version_id : string) (r : DbInstalledVersion) : bool :=
  bool_decide (i_binary_id r = binary_id) && bool_decide (i_version_id r = version_id).

(** The partial unique index [idx_client_versions_one_current]. *)
Definition current_binaries (l : list DbInstalledVersion) : list string :=
  i_binary_id <$> List.filter i_is_current l.

(** An [UPDATE installed_versions SET is_current]. *)
Definition update_installed (p : DbInstalledVersion -> bool) (b : bool) (t : client_tables)
    : result SqlxError (Z * client_tables) :=
  let rows := update_rows p (set_is_current b) (ct_installed t) in
  _ ← require (bool_decide (NoDup (current_binaries rows))) (unique_failed "installed_versions.binary_id");
  Ok (count_rows p (ct_installed t), with_installed rows (ct_seq_installed t) t).

Definition update_current_version (now binary_id version_id version_string : string)
    : db client_tables DbError unit :=
  in_tx (
    q (exec (on "installed_versions" (update_installed (of_binary binary_id) false))) ;;?
    rows_affected ←? q (exec (on "managed_binaries"
                          (update_managed binary_id (set_current now version_id version_string))));
    if rows_affected =? 0 then q rollback_tx ;;? dlift (Err DbNotFound)
    else
      rows_affected ←? q (exec (on "installed_versions"
                            (update_installed (is_version binary_id version_id) true)));
      if rows_affected =? 0 then q rollback_tx ;;? dlift (Err DbNotFound)
      else q commit_tx ;;? dret tt).

(** [INSERT INTO installed_versions]. *)
Definition insert_installed (now binary_id version_id version_string : string) (blake3 sha256 : bytes)
    (size : Z) (t : client_tables) : result SqlxError (Z * client_tables) :=
  id ← next_rowid (ct_seq_installed t);
  _ ← require (negb (existsb (is_version binary_id version_id) (ct_installed t)))
        (unique_failed "installed_versions.binary_id, installed_versions.version_id");
  _ ← require (binary_exists t binary_id) foreign_key_failed;
  Ok (id, with_installed (ct_installed t ++ [{|
      i_id := id; i_binary_id := binary_id; i_version_id := version_id;
      i_version_string := version_string; i_file_hash_blake3 := blake3; i_file_hash_sha256 := sha256;
      i_file_size_bytes := size; i_installed_at := now; i_is_current := false |}]) id t).

Definition record_installed_version `{Semver} (now binary_id version_id version_string : string)
    (file_hash_blake3 file_hash_sha256 : bytes) (file_size_bytes : Z) : db client_tables DbError Z :=
  dlift (validate_hash_size file_hash_blake3 BLAKE3_HASH_SIZE) ;;?
  dlift (validate_hash_size file_hash_sha256 SHA256_HASH_SIZE) ;;?
  normalized_version ←? dlift (normalize_version_string version_string);
  if file_size_bytes <=? 0 then dfail DbInvalidData
  else q (exec (on "installed_versions" (insert_installed now binary_id version_id normalized_version
                                           file_hash_blake3 file_hash_sha256 file_size_bytes))).

Definition stamp_check (now : string) (m : DbManagedBinary) : DbManagedBinary := {|
  m_binary_id := m_binary_id m; m_binary_name := m_binary_name m; m_platform := m_platform m;
  m_install_path := m_install_path m; m_current_version_id := m_current_version_id m;
  m_current_version_string := m_current_version_string m;
  m_publisher_public_key := m_publisher_public_key m; m_auto_update := m_auto_update m;
  m_last_check_at := Some now; m_last_update_at := m_last_update_at m;
  m_created_at := m_created_at m; m_updated_at := m_updated_at m;
|}.

Definition flag_auto_update (now : string) (enabled : bool) (m : DbManagedBinary) : DbManagedBinary := {|
  m_binary_id := m_binary_id m; m_binary_name := m_binary_name m; m_platform := m_platform m;
  m_install_path := m_install_path m; m_current_version_id := m_current_version_id m;
  m_current_version_string := m_current_version_string m;
  m_publisher_public_key := m_publisher_public_key m; m_auto_update := enabled;
  m_last_check_at := m_last_check_at m; m_last_update_at := m_last_update_at m;
  m_created_at := m_created_at m; m_updated_at := now;
|}.

Definition set_last_check (now binary_id : string) : db client_tables DbError unit :=
  n ←? q (exec (on "managed_binaries" (update_managed binary_id (stamp_check now))));
  found_rows n.

Definition set_auto_update (now binary_id : string) (enabled : bool) : db client_tables DbError unit :=
  n ←? q (exec (on "managed_binaries" (update_managed binary_id (flag_auto_update now enabled))));
  found_rows n.

(** [ON DELETE CASCADE] of the three child tables. *)
Definition delete_managed (binary_id : string) (t : client_tables) : result SqlxError (Z * client_tables) :=
  let gone := has_binary_id binary_id in
  let n := count_rows gone (ct_managed t) in
  Ok (n,
      if n =? 0 then t
      else with_managed (delete_rows gone (ct_managed t))
          (with_installed (delete_rows (of_binary binary_id) (ct_installed t)) (ct_seq_installed t)
          (with_history (delete_rows (fun u => bool_decide (u_binary_id u = binary_id)) (ct_history t)) (ct_seq_history t)
          (with_backups (delete_rows (fun r => bool_decide (r_binary_id r = binary_id)) (ct_backups t)) (ct_seq_backups t)
             t)))).

Definition delete_managed_binary (binary_id : string) : db client_tables DbError unit :=
  n ←? q (exec (on "managed_binaries" (delete_managed binary_id)));
  found_rows n.

(** ** Update history *)

Definition insert_history (row : Z -> DbUpdateHistory) (t : client_tables) : result SqlxError (Z * client_tables) :=
  id ← next_rowid (ct_seq_history t);
  _ ← require (binary_exists t (u_binary_id (row id))) foreign_key_failed;
  Ok (id, with_history (ct_history t ++ [row id]) id t).

Definition new_update (now : string) (u : NewUpdateRecord) (id : Z) : DbUpdateHistory := {|
  u_update_id := id; u_binary_id := nu_binary_id u; u_from_version_id := nu_from_version_id u;
  u_from_version_string := nu_from_version_string u; u_to_version_id := nu_to_version_id u;
  u_to_version_string := nu_to_version_string u; u_diff_id := None; u_diff_algorithm := None;
  u_diff_size_bytes := None; u_full_size_bytes := None; u_actual_downloaded_bytes := None;
  u_started_at := now; u_completed_at := None; u_status := update_status_as_str UDownloading;
  u_success := None; u_error_message := None; u_download_time_ms := None; u_apply_time_ms := None;
  u_verify_time_ms := None;
|}.

Definition record_update_start (now : string) (update : NewUpdateRecord) : db client_tables DbError Z :=
  q (exec (on "update_history" (insert_history (new_update now update)))).

Definition is_update (id : Z) (u : DbUpdateHistory) : bool := u_update_id u =? id.

Definition update_history (id : Z) (g : DbUpdateHistory -> DbUpdateHistory) (t : client_tables)
    : result SqlxError (Z * client_tables) :=
  Ok (count_rows (is_update id) (ct_history t),
      with_history (update_rows (is_update id) g (ct_history t)) (ct_seq_history t) t).

Definition with_status (status : UpdateHistoryStatus) (u : DbUpdateHistory) : DbUpdateHistory := {|
  u_update_id := u_update_id u; u_binary_id := u_binary_id u; u_from_version_id := u_from_version_id u;
  u_from_version_string := u_from_version_string u; u_to_version_id := u_to_version_id u;
  u_to_version_string := u_to_version_string u; u_diff_id := u_diff_id u;
  u_diff_algorithm := u_diff_algorithm u; u_diff_size_bytes := u_diff_size_bytes u;
  u_full_size_bytes := u_full_size_bytes u; u_actual_downloaded_bytes := u_actual_downloaded_bytes u;
  u_started_at := u_started_at u; u_completed_at := u_completed_at u;
  u_status := update_status_as_str status; u_success := u_success u;
  u_error_message := u_error_message u; u_download_time_ms := u_download_time_ms u;
  u_apply_time_ms := u_apply_time_ms u; u_verify_time_ms := u_verify_time_ms u;
|}.

Definition set_update_status (update_id : Z) (status : UpdateHistoryStatus) : db client_tables DbError unit :=
  n ←? q (exec (on "update_history" (update_history update_id (with_status status))));
  found_rows n.

Definition finished (now : string) (success : bool) (error_message : option string) (m : UpdateMetrics)
    (u : DbUpdateHistory) : DbUpdateHistory := {|
  u_update_id := u_update_id u; u_binary_id := u_binary_id u; u_from_version_id := u_from_version_id u;
  u_from_version_string := u_from_version_string u; u_to_version_id := u_to_version_id u;
  u_to_version_string := u_to_version_string u; u_diff_id := um_diff_id m;
  u_diff_algorithm := um_diff_algorithm m; u_diff_size_bytes := um_diff_size_bytes m;
  u_full_size_bytes := um_full_size_bytes m; u_actual_downloaded_bytes := um_actual_downloaded_bytes m;
  u_started_at := u_started_at u; u_completed_at := Some now;
  u_status := update_status_as_str (if success then UCompleted else UFailed);
  u_success := Some success; u_error_message := error_message;
  u_download_time_ms := um_download_time_ms m; u_apply_time_ms := um_apply_time_ms m;
  u_verify_time_ms := um_verify_time_ms m;
|}.

Definition record_update_complete (now : string) (update_id : Z) (success : bool)
    (error_message : option string) (metrics : UpdateMetrics) : db client_tables DbError unit :=
  n ←? q (exec (on "update_history" (update_history update_id (finished now success error_message metrics))));
  found_rows n.

Definition get_update (update_id : Z) : db client_tables DbError (option DbUpdateHistory) :=
  q (query (on "update_history" (fun t => Ok (seek (is_update update_id) (ct_history t))))).

Definition rolled_back (now binary_id : string) (from_version_id from_version_string : option string)
    (to_version_id to_version_string : string) (id : Z) : DbUpdateHistory := {|
  u_update_id := id; u_binary_id := binary_id; u_from_version_id := from_version_id;
  u_from_version_string := from_version_string; u_to_version_id := to_version_id;
  u_to_version_string := to_version_string; u_diff_id := None; u_diff_algorithm := None;
  u_diff_size_bytes := None; u_full_size_bytes := None; u_actual_downloaded_bytes := None;
  u_started_at := now; u_completed_at := Some now; u_status := update_status_as_str URolledBack;
  u_success := Some true; u_error_message := None; u_download_time_ms := None; u_apply_time_ms := None;
  u_verify_time_ms := None;
|}.

Definition record_rollback (now binary_id : string) (from_version_id from_version_string : option string)
    (to_version_id to_version_string : string) : db client_tables DbError Z :=
  q (exec (on "update_history" (insert_history
    (rolled_back now binary_id from_version_id from_version_string to_version_id to_version_string)))).

(** [datetime modifier] is SQLite's [datetime('now', modifier)], [NULL] outside
    its range. *)
Definition delete_update_history (datetime : string -> option string) (days : Z) : db client_tables DbError Z :=
  if days <=? 0 then dfail DbInvalidData
  else
    let old u := match datetime ("-" +:+ pretty days +:+ " days") with
                 | Some cutoff => text_lt (u_started_at u) cutoff
                 | None => false
                 end in
    q (exec (on "update_history" (fun t =>
         Ok (count_rows old (ct_history t), with_history (delete_rows old (ct_history t)) (ct_seq_history t) t)))).

(** ** Backups *)

Definition insert_backup (now binary_id version_id version_string backup_path : string) (blake3 : bytes)
    (size : Z) (expires_at : option string) (t : client_tables) : result SqlxError (Z * client_tables) :=
  id ← next_rowid (ct_seq_backups t);
  _ ← require (binary_exists t binary_id) foreign_key_failed;
  Ok (id, with_backups (ct_backups t ++ [{|
      r_backup_id := id; r_binary_id := binary_id; r_version_id := version_id;
      r_version_string := version_string; r_backup_path := backup_path; r_backup_hash_blake3 := blake3;
      r_backup_size_bytes := size; r_created_at := now; r_expires_at := expires_at |}]) id t).

(** The checks before the insertion; that of the timestamp may panic. *)
Definition check_backup (backup_hash_blake3 : bytes) (expires_at : option string) : outcome (result DbError unit) :=
  fbind (Val (validate_hash_size backup_hash_blake3 BLAKE3_HASH_SIZE)) (fun _ =>
  match expires_at with
  | Some expires => validate_expires_at_timestamp expires
  | None => Val (Ok tt)
  end).

Definition create_backup `{Semver} (now binary_id version_id version_string backup_path : string)
    (backup_hash_blake3 : bytes) (backup_size_bytes : Z) (expires_at : option string)
    : outcome (db client_tables DbError Z) :=
  match check_backup backup_hash_blake3 expires_at with
  | Panic => Panic
  | Val checked => Val (
      dlift checked ;;?
      normalized_version ←? dlift (normalize_version_string version_string);
      q (exec (on "rollback_backups" (insert_backup now binary_id version_id normalized_version backup_path
                                        backup_hash_blake3 backup_size_bytes expires_at))))
  end.

Definition is_backup (id : Z) (r : DbRollbackBackup) : bool := r_backup_id r =? id.
Definition backup_of (binary_id : string) (r : DbRollbackBackup) : bool := bool_decide (r_binary_id r = binary_id).

Definition get_backup (backup_id : Z) : db client_tables DbError (option DbRollbackBackup) :=
  q (query (on "rollback_backups" (fun t => Ok (seek (is_backup backup_id) (ct_backups t))))).

(** A [DELETE FROM rollback_backups]; the number of rows. *)
Definition delete_backups (p : client_tables -> DbRollbackBackup -> bool) (t : client_tables)
    : result SqlxError (Z * client_tables) :=
  Ok (count_rows (p t) (ct_backups t), with_backups (delete_rows (p t) (ct_backups t)) (ct_seq_backups t) t).

Definition delete_backup (backup_id : Z) : db client_tables DbError unit :=
  n ←? q (exec (on "rollback_backups" (delete_backups (fun _ => is_backup backup_id))));
  found_rows n.

Definition expired (now : string) (r : DbRollbackBackup) : bool :=
  match r_expires_at r with Some e => text_lt e now | None => false end.

Definition delete_expired_backups (now : string) : db client_tables DbError Z :=
  q (exec (on "rollback_backups" (delete_backups (fun _ => expired now)))).

Section Ordered.
Context {SO : SqlOrder}.

(** The backups of a binary, newest first. *)
Definition backups_desc (binary_id : string) (t : client_tables) : list DbRollbackBackup :=
  order_by Desc r_created_at (List.filter (backup_of binary_id) (ct_backups t)).

Definition list_backups (binary_id : string) : db client_tables DbError (list DbRollbackBackup) :=
  q (query (on "rollback_backups" (fun t => Ok (backups_desc binary_id t)))).

(** The subquery of the cleanup: the keys of the newest backups. *)
Definition kept_backups (binary_id : string) (keep_count : Z) (t : client_tables) : list Z :=
  r_backup_id <$> limit keep_count (backups_desc binary_id t).

Definition cleanup_old_backups (binary_id : string) (keep_count : Z) : db client_tables DbError Z :=
  in_tx (
    rows_affected ←? q (exec (on "rollback_backups" (delete_backups (fun t r =>
      backup_of binary_id r && negb (bool_decide (r_backup_id r ∈ kept_backups binary_id keep_count t))))));
    q commit_tx ;;? dret rows_affected).

Definition get_backup_by_version (binary_id version_string : string)
    : db client_tables DbError (option DbRollbackBackup) :=
  q (query (on "rollback_backups" (fun t =>
    Ok (head (limit 1 (order_by Desc r_created_at
         (List.filter (fun r => backup_of binary_id r && bool_decide (r_version_string r = version_string))
            (ct_backups t)))))))).

Definition get_recent_updates (binary_id : string) (lim : Z) : db client_tables DbError (list DbUpdateHistory) :=
  q (query (on "update_history" (fun t =>
    Ok (limit lim (order_by Desc u_started_at
         (List.filter (fun u => bool_decide (u_binary_id u = binary_id)) (ct_history t))))))).
End Ordered.
