(* ===== verification/ClientDbFacts.v ===== *)
(** * ClientDbFacts: what the client's database guarantees

    An invariant of the tables (keys, references, the current version, stored
    values) that every operation preserves under every schedule of faults; which
    operations are atomic; what the cleanup of backups keeps; and how expiry
    compares timestamps. *)

From stdpp Require Import sorting.
From S2P Require Import Prelude Text Version DbModels Sql ClientDb.

#[local] Open Scope Z_scope.

(** ** The operations that change tables *)

Inductive client_op :=
| OpInit (integrity now : string)
| OpSetConfig (now key value : string)
| OpRegister (now : string) (b : NewManagedBinary)
| OpUpdateCurrent (now binary_id version_id version_string : string)
| OpRecordInstalled (now binary_id version_id version_string : string) (blake3 sha256 : bytes) (size : Z)
| OpSetLastCheck (now binary_id : string)
| OpSetAutoUpdate (now binary_id : string) (enabled : bool)
| OpDeleteManaged (binary_id : string)
| OpUpdateStart (now : string) (u : NewUpdateRecord)
| OpSetStatus (id : Z) (s : UpdateHistoryStatus)
| OpComplete (now : string) (id : Z) (success : bool) (msg : option string) (m : UpdateMetrics)
| OpRollback (now binary_id : string) (from_id from_s : option string) (to_id to_s : string)
| OpDeleteHistory (datetime : string -> option string) (days : Z)
| OpCreateBackup (now binary_id version_id version_string path : string) (hash : bytes) (size : Z) (expires : option string)
| OpDeleteBackup (id : Z)
| OpDeleteExpired (now : string)
| OpCleanup (binary_id : string) (keep : Z).

Section Facts.
Context `{SL : SemverLaws} {SO : SqlOrder}.

(** Running an operation; a panic comes before any statement. *)
Definition run_op (o : client_op) : db client_tables DbError unit :=
  match o with
  | OpInit i now => init i now
  | OpSetConfig now k v => set_config now k v
  | OpRegister now b => forget (register_binary now b)
  | OpUpdateCurrent now b v s => update_current_version now b v s
  | OpRecordInstalled now b v s h1 h2 n => forget (record_installed_version now b v s h1 h2 n)
  | OpSetLastCheck now b => set_last_check now b
  | OpSetAutoUpdate now b e => set_auto_update now b e
  | OpDeleteManaged b => delete_managed_binary b
  | OpUpdateStart now u => forget (record_update_start now u)
  | OpSetStatus id s => set_update_status id s
  | OpComplete now id s e m => record_update_complete now id s e m
  | OpRollback now b f fs v s => forget (record_rollback now b f fs v s)
  | OpDeleteHistory dt d => forget (delete_update_history dt d)
  | OpCreateBackup now b v s p h n e =>
      match create_backup now b v s p h n e with Val m => forget m | Panic => dret tt end
  | OpDeleteBackup id => delete_backup id
  | OpDeleteExpired now => forget (delete_expired_backups now)
  | OpCleanup b k => forget (cleanup_old_backups b k)
  end.

(** The states of the database: a new file under some schedule of faults, and
    any number of operations. *)
Inductive client_reachable : conn client_tables -> Prop :=
| reach_new sched : client_reachable (Conn empty_client None sched)
| reach_op o c : client_reachable c -> client_reachable (run_op o c).2.

(** ** The invariant *)

Definition installed_key (r : DbInstalledVersion) : string * string := (i_binary_id r, i_version_id r).
Definition binary_ids (t : client_tables) : list string := m_binary_id <$> ct_managed t.

Definition good_installed (t : client_tables) (r : DbInstalledVersion) : Prop :=
  1 <= i_id r <= ct_seq_installed t /\ i_binary_id r ∈ binary_ids t /\
  lenZ (i_file_hash_blake3 r) = 32 /\ lenZ (i_file_hash_sha256 r) = 32 /\
  0 < i_file_size_bytes r /\ normalized (i_version_string r).

Definition good_history (t : client_tables) (u : DbUpdateHistory) : Prop :=
  1 <= u_update_id u <= ct_seq_history t /\ u_binary_id u ∈ binary_ids t /\
  exists s, u_status u = update_status_as_str s.

Definition good_backup (t : client_tables) (r : DbRollbackBackup) : Prop :=
  1 <= r_backup_id r <= ct_seq_backups t /\ r_binary_id r ∈ binary_ids t /\
  lenZ (r_backup_hash_blake3 r) = 32 /\ normalized (r_version_string r).

Record client_inv (t : client_tables) : Prop := {
  inv_managed_id : NoDup (binary_ids t);
  inv_managed_name : NoDup (m_binary_name <$> ct_managed t);
  inv_platform m : m ∈ ct_managed t -> known_platform (m_platform m);
  inv_installed_id : NoDup (i_id <$> ct_installed t);
  inv_installed_key : NoDup (installed_key <$> ct_installed t);
  inv_installed r : r ∈ ct_installed t -> good_installed t r;
  inv_current r m : r ∈ ct_installed t -> m ∈ ct_managed t -> i_binary_id r = m_binary_id m ->
    (i_is_current r = true <-> m_current_version_id m = Some (i_version_id r));
  inv_current_installed m v : m ∈ ct_managed t -> m_current_version_id m = Some v ->
    exists r, r ∈ ct_installed t /\ installed_key r = (m_binary_id m, v);
  inv_history_id : NoDup (u_update_id <$> ct_history t);
  inv_history u : u ∈ ct_history t -> good_history t u;
  inv_backup_id : NoDup (r_backup_id <$> ct_backups t);
  inv_backup r : r ∈ ct_backups t -> good_backup t r;
  inv_seq : 0 <= ct_seq_installed t /\ 0 <= ct_seq_history t /\ 0 <= ct_seq_backups t;
}.

Abbreviation preserves := (keeps_inv client_inv).

Lemma on_Ok {A} name f t (a : A) : on name f t = Ok a -> f t = Ok a.
Proof. unfold on. by case_bool_decide. Qed.

Lemma preserves_on {A} (f : client_tables -> result SqlxError (A * client_tables)) name :
  (forall t a t', client_inv t -> f t = Ok (a, t') -> client_inv t') -> preserves (q (exec (on name f))).
Proof. intros Hf. apply preserves_exec. intros t a t' I H%on_Ok. eauto. Qed.

(** ** The statements preserve the invariant *)

Lemma binary_exists_spec t b : binary_exists t b = true <-> b ∈ binary_ids t.
Proof. apply existsb_key. Qed.

Lemma insert_managed_inv row t t' :
  client_inv t -> known_platform (m_platform row) -> m_current_version_id row = None ->
  insert_managed row t = Ok (tt, t') -> client_inv t'.
Proof.
  intros I Hp Hc. unfold insert_managed. rewrite result_bind_Ok. intros ([] & H1%require_Ok & H2).
  rewrite result_bind_Ok in H2. destruct H2 as ([] & H2%require_Ok & [= <-]).
  apply negb_true_iff, not_true_iff_false in H1, H2. unfold has_binary_id in H1. unfold has_binary_name in H2.
  rewrite existsb_key in H1, H2.
  assert (forall b, b ∈ binary_ids t -> b ∈ binary_ids (with_managed (ct_managed t ++ [row]) t)) as Hsub.
  { intros b Hb. unfold binary_ids. simpl. rewrite fmap_app. by apply elem_of_app; left. }
  split; cbn [with_managed ct_managed ct_installed ct_history ct_backups ct_seq_installed ct_seq_history ct_seq_backups].
  - apply NoDup_snoc; [apply I|done].
  - apply NoDup_snoc; [apply I|done].
  - intros m [?| ->%list_elem_of_singleton]%elem_of_app; [by eapply inv_platform|done].
  - apply I.
  - apply I.
  - intros r Hr. destruct (inv_installed _ I r Hr) as (? & ? & ?). split_and!; naive_solver.
  - intros r m Hr [Hm| ->%list_elem_of_singleton]%elem_of_app E; [by eapply inv_current|].
    destruct (inv_installed _ I r Hr) as (_ & Hb & _). by rewrite E in Hb.
  - intros m v [Hm| ->%list_elem_of_singleton]%elem_of_app E; [by eapply inv_current_installed|congruence].
  - apply I.
  - intros u Hu. destruct (inv_history _ I u Hu) as (? & ? & ?). split_and!; naive_solver.
  - apply I.
  - intros r Hr. destruct (inv_backup _ I r Hr) as (? & ? & ? & ?). split_and!; naive_solver.
  - apply I.
Qed.

(** Updates that keep keys and current versions. *)
Lemma update_managed_inv b g t n t' :
  client_inv t ->
  (forall m, m_binary_id (g m) = m_binary_id m /\ m_binary_name (g m) = m_binary_name m /\
             m_platform (g m) = m_platform m /\ m_current_version_id (g m) = m_current_version_id m) ->
  update_managed b g t = Ok (n, t') -> client_inv t'.
Proof.
  intros I Hg. unfold update_managed. intros [= _ <-].
  set (l := update_rows _ _ _).
  assert (m_binary_id <$> l = binary_ids t) as Hids by (apply fmap_update_rows; naive_solver).
  assert (forall m', m' ∈ l -> exists m, m ∈ ct_managed t /\ m_binary_id m' = m_binary_id m /\
            m_platform m' = m_platform m /\ m_current_version_id m' = m_current_version_id m) as Hl.
  { intros m' (m & Hm & ->)%elem_of_update_rows. exists m. split; [done|]. case_match; naive_solver. }
  split; unfold good_installed, good_history, good_backup, binary_ids;
    cbn [with_managed ct_managed ct_installed ct_history ct_backups ct_seq_installed ct_seq_history ct_seq_backups];
    rewrite ?Hids; try apply I.
  - unfold l. rewrite fmap_update_rows; [apply I|]. intros m. apply Hg.
  - intros m' (m & Hm & _ & -> & _)%Hl. by apply (inv_platform _ I).
  - intros r m' Hr (m & Hm & -> & _ & ->)%Hl. by apply (inv_current _ I).
  - intros m' v (m & Hm & -> & _ & ->)%Hl. by apply (inv_current_installed _ I).
Qed.

Lemma insert_installed_inv now b v s h1 h2 n t id t' :
  client_inv t -> lenZ h1 = 32 -> lenZ h2 = 32 -> 0 < n -> normalized s ->
  insert_installed now b v s h1 h2 n t = Ok (id, t') -> client_inv t'.
Proof.
  intros I Hh1 Hh2 Hn Hs. unfold insert_installed. rewrite result_bind_Ok.
  intros (id' & ->%next_rowid_Ok & H). rewrite result_bind_Ok in H. destruct H as ([] & Hu%require_Ok & H).
  rewrite result_bind_Ok in H. destruct H as ([] & Hb%require_Ok%binary_exists_spec & [= <- <-]).
  apply negb_true_iff, not_true_iff_false in Hu.
  assert ((b, v) ∉ installed_key <$> ct_installed t) as Hk.
  { intros ([] & Hr1 & Hr2)%list_elem_of_fmap. apply Hu, existsb_exists. eexists.
    split; [by apply list_elem_of_In|]. unfold is_version. unfold installed_key in Hr1. simplify_eq/=.
    by rewrite !bool_decide_eq_true_2. }
  pose proof (inv_seq _ I) as (Hq & _ & _).
  split; unfold good_installed, binary_ids; cbn; try apply I.
  - apply NoDup_snoc; [apply I|]. intros (r & E & Hr)%list_elem_of_fmap.
    destruct (inv_installed _ I r Hr) as (? & _). simpl in E. lia.
  - apply NoDup_snoc; [apply I|done].
  - intros r [Hr| ->%list_elem_of_singleton]%elem_of_app.
    + destruct (inv_installed _ I r Hr) as (? & ? & ?). split_and!; try naive_solver; lia.
    + simpl. split_and!; try done; lia.
  - intros r m [Hr| ->%list_elem_of_singleton]%elem_of_app Hm E; [by eapply inv_current|].
    simpl in *. split; [done|]. intros Hc. exfalso.
    destruct (inv_current_installed _ I m v Hm Hc) as (r & Hr & Ek). apply Hk.
    rewrite E, <- Ek. by apply list_elem_of_fmap_2.
  - intros m v' Hm Hc. destruct (inv_current_installed _ I m v' Hm Hc) as (r & Hr & Ek).
    exists r. split; [by apply elem_of_app; left|done].
  - destruct (inv_seq _ I) as (? & ? & ?). split_and!; lia.
Qed.

(** The rows of the new current version and of the others. *)
Definition mark_current (b v : string) (r : DbInstalledVersion) : DbInstalledVersion :=
  if of_binary b r then set_is_current (bool_decide (i_version_id r = v)) r else r.

(** What a committed [update_current_version] does. *)
Definition current_spec (now b v s : string) (t : client_tables) : client_tables :=
  with_managed (update_rows (has_binary_id b) (set_current now v s) (ct_managed t))
    (with_installed (mark_current b v <$> ct_installed t) (ct_seq_installed t) t).

Lemma update_installed_Ok p b t n t' :
  update_installed p b t = Ok (n, t') ->
  n = count_rows p (ct_installed t) /\
  t' = with_installed (update_rows p (set_is_current b) (ct_installed t)) (ct_seq_installed t) t.
Proof.
  unfold update_installed. rewrite result_bind_Ok. by intros ([] & _ & [= <- <-]).
Qed.

Lemma mark_current_rows b v l :
  update_rows (is_version b v) (set_is_current true) (update_rows (of_binary b) (set_is_current false) l)
  = mark_current b v <$> l.
Proof.
  unfold update_rows. rewrite <- list_fmap_compose. apply list_fmap_ext. intros _ r _.
  unfold mark_current, is_version, of_binary. simpl.
  destruct r as [id bi vi vs h1 h2 n at_ cur]; simpl.
  repeat case_bool_decide; simpl in *; simplify_eq; done.
Qed.

Lemma update_current_effect now b v s :
  effect (update_current_version now b v s)
    (fun t _ t' => b ∈ binary_ids t /\ (b, v) ∈ installed_key <$> ct_installed t /\
                   t' = current_spec now b v s t) same.
Proof.
  eapply effect_weaken; [|..|done].
  - apply effect_in_tx. eapply closing_bind; [apply within_exec|]. intros n1.
    eapply closing_bind; [apply within_exec|]. intros n2. apply closing_guard.
    eapply closing_bind; [apply within_exec|]. intros n3. apply closing_guard, closing_commit.
  - intros t [] t' (n1 & t1 & H1 & n2 & t2 & H2 & Hn2 & n3 & t3 & H3 & Hn3 & _ & ->).
    apply on_Ok, update_installed_Ok in H1 as [_ ->]. apply on_Ok in H2 as [= <- <-].
    apply on_Ok, update_installed_Ok in H3 as [-> ->]. cbn in *.
    apply Z.eqb_neq, count_rows_pos in Hn2 as (m & Hm & Hmb%bool_decide_eq_true).
    apply Z.eqb_neq, count_rows_pos in Hn3 as (r' & (r & Hr & ->)%elem_of_update_rows & Hrv).
    split_and!; [..|unfold current_spec; rewrite <- mark_current_rows; done].
    + subst. by apply list_elem_of_fmap_2.
    + apply list_elem_of_fmap. exists r. split; [|done]. revert Hrv. unfold is_version, installed_key.
      rewrite andb_true_iff, !bool_decide_eq_true. case_match; simpl; by intros [-> ->].
Qed.

Lemma current_spec_inv now b v s t :
  client_inv t -> (b, v) ∈ installed_key <$> ct_installed t -> client_inv (current_spec now b v s t).
Proof.
  intros I Hv. unfold current_spec. set (lm := update_rows _ _ _). set (li := _ <$> _).
  assert (m_binary_id <$> lm = binary_ids t) as Hids by (by apply fmap_update_rows).
  assert (forall m', m' ∈ lm -> exists m, m ∈ ct_managed t /\ m_binary_id m' = m_binary_id m /\
            m_platform m' = m_platform m /\
            m_current_version_id m' = if has_binary_id b m then Some v else m_current_version_id m) as Hm.
  { intros m' (m & Hm & ->)%elem_of_update_rows. exists m. split; [done|]. by case_match. }
  assert (forall r', r' ∈ li -> exists r, r ∈ ct_installed t /\ r' = mark_current b v r) as Hi.
  { intros r' (r & -> & Hr)%list_elem_of_fmap. eauto. }
  assert (forall r, i_id (mark_current b v r) = i_id r /\ installed_key (mark_current b v r) = installed_key r /\
            (good_installed t r -> good_installed t (mark_current b v r))) as Hmk.
  { intros r. unfold mark_current. by case_match. }
  assert (forall r, i_is_current (mark_current b v r) =
            if of_binary b r then bool_decide (i_version_id r = v) else i_is_current r) as Hcur.
  { intros r. unfold mark_current. by case_match. }
  split; unfold good_installed, good_history, good_backup, binary_ids; cbn; rewrite ?Hids; try apply I.
  - unfold lm. rewrite fmap_update_rows by done. apply I.
  - intros m' (m & Hm' & _ & -> & _)%Hm. by apply (inv_platform _ I).
  - unfold li. rewrite <- list_fmap_compose. rewrite (list_fmap_ext _ i_id); [apply I|]. intros. apply Hmk.
  - unfold li. rewrite <- list_fmap_compose. rewrite (list_fmap_ext _ installed_key); [apply I|]. intros. apply Hmk.
  - intros r' (r & Hr & ->)%Hi. apply Hmk. by apply (inv_installed _ I).
  - intros r' m' (r & Hr & ->)%Hi (m & Hm' & -> & _ & ->)%Hm.
    assert (installed_key (mark_current b v r) = installed_key r) as [= Hb' Hv'] by apply Hmk.
    rewrite Hb', Hv', Hcur. intros E. unfold of_binary, has_binary_id. rewrite E.
    case_bool_decide; [rewrite bool_decide_eq_true; naive_solver|by apply (inv_current _ I)].
  - intros m' v' (m & Hm' & -> & _ & ->)%Hm. intros Hc.
    assert (exists r, r ∈ ct_installed t /\ installed_key r = (m_binary_id m, v')) as (r & Hr & E).
    { revert Hc. unfold has_binary_id. case_bool_decide as Hb; [|by apply (inv_current_installed _ I)].
      intros [= <-]. apply list_elem_of_fmap in Hv as (r & E & Hr). exists r. by rewrite Hb. }
    exists (mark_current b v r). split; [by apply list_elem_of_fmap_2|]. by rewrite (proj1 (proj2 (Hmk r))).
Qed.

Lemma ids_delete b t x :
  x ∈ m_binary_id <$> delete_rows (has_binary_id b) (ct_managed t) <-> x ∈ binary_ids t /\ x <> b.
Proof.
  unfold binary_ids. rewrite !list_elem_of_fmap. split.
  - intros (m & -> & [Hm Hb]%elem_of_delete_rows). apply bool_decide_eq_false in Hb. eauto.
  - intros [(m & -> & Hm) Hb]. exists m. split; [done|]. apply elem_of_delete_rows. split; [done|].
    by apply bool_decide_eq_false.
Qed.

Lemma delete_managed_inv b t n t' : client_inv t -> delete_managed b t = Ok (n, t') -> client_inv t'.
Proof.
  intros I. unfold delete_managed. intros [= _ <-]. case_match; [done|].
  split; unfold good_installed, good_history, good_backup, binary_ids; cbn;
    try (apply NoDup_delete_rows; apply I); try apply I.
  - intros m [Hm _]%elem_of_delete_rows. by apply (inv_platform _ I).
  - intros r [Hr Hb%bool_decide_eq_false]%elem_of_delete_rows.
    destruct (inv_installed _ I r Hr) as (? & ? & ?). rewrite ids_delete. naive_solver.
  - intros r m [Hr _]%elem_of_delete_rows [Hm _]%elem_of_delete_rows. by apply (inv_current _ I).
  - intros m v [Hm Hb]%elem_of_delete_rows Hc. unfold has_binary_id in Hb. rewrite bool_decide_eq_false in Hb.
    destruct (inv_current_installed _ I m v Hm Hc) as (r & Hr & E). exists r. split; [|done].
    apply elem_of_delete_rows. split; [done|]. unfold of_binary. apply bool_decide_eq_false.
    injection E as -> _. done.
  - intros u [Hu Hb%bool_decide_eq_false]%elem_of_delete_rows.
    destruct (inv_history _ I u Hu) as (? & ? & ?). rewrite ids_delete. naive_solver.
  - intros r [Hr Hb%bool_decide_eq_false]%elem_of_delete_rows.
    destruct (inv_backup _ I r Hr) as (? & ? & ? & ?). rewrite ids_delete. naive_solver.
Qed.

Lemma insert_history_inv row t id t' :
  client_inv t -> (forall id, u_update_id (row id) = id) ->
  (forall id, exists s, u_status (row id) = update_status_as_str s) ->
  insert_history row t = Ok (id, t') -> client_inv t'.
Proof.
  intros I Hid Hst. unfold insert_history. rewrite result_bind_Ok. intros (i & ->%next_rowid_Ok & H).
  rewrite result_bind_Ok in H. destruct H as ([] & Hb%require_Ok%binary_exists_spec & [= <- <-]).
  destruct (inv_seq _ I) as (? & ? & ?).
  split; unfold good_history, binary_ids; cbn; try apply I.
  - apply NoDup_snoc; [apply I|]. intros (u & E & Hu)%list_elem_of_fmap.
    destruct (inv_history _ I u Hu) as (? & _). rewrite Hid in E. lia.
  - intros u [Hu| ->%list_elem_of_singleton]%elem_of_app.
    + destruct (inv_history _ I u Hu) as (? & ? & ?). split_and!; try done; lia.
    + rewrite Hid. split_and!; [lia..|done|apply Hst].
  - lia.
Qed.

Lemma update_history_inv i g t n t' :
  client_inv t ->
  (forall u, u_update_id (g u) = u_update_id u /\ u_binary_id (g u) = u_binary_id u /\
             exists s, u_status (g u) = update_status_as_str s) ->
  update_history i g t = Ok (n, t') -> client_inv t'.
Proof.
  intros I Hg. unfold update_history. intros [= _ <-].
  split; unfold good_history, binary_ids; cbn; try apply I.
  - rewrite fmap_update_rows; [apply I|]. intros u. apply Hg.
  - intros u' (u & Hu & ->)%elem_of_update_rows. destruct (inv_history _ I u Hu) as (? & ? & ?).
    case_match; [|by eauto]. destruct (Hg u) as (-> & -> & ?). by eauto.
Qed.

Lemma delete_history_inv p t : client_inv t ->
  client_inv (with_history (delete_rows p (ct_history t)) (ct_seq_history t) t).
Proof.
  intros I. split; unfold good_history, binary_ids; cbn; try apply I.
  - apply NoDup_delete_rows, I.
  - intros u [Hu _]%elem_of_delete_rows. by apply (inv_history _ I).
Qed.

Lemma delete_backups_inv p t n t' : client_inv t -> delete_backups p t = Ok (n, t') -> client_inv t'.
Proof.
  intros I. unfold delete_backups. intros [= _ <-].
  split; unfold good_backup, binary_ids; cbn; try apply I.
  - apply NoDup_delete_rows, I.
  - intros u [Hu _]%elem_of_delete_rows. by apply (inv_backup _ I).
Qed.

Lemma insert_backup_inv now b v s p h n e t id t' :
  client_inv t -> lenZ h = 32 -> normalized s ->
  insert_backup now b v s p h n e t = Ok (id, t') -> client_inv t'.
Proof.
  intros I Hh Hs. unfold insert_backup. rewrite result_bind_Ok. intros (i & ->%next_rowid_Ok & H).
  rewrite result_bind_Ok in H. destruct H as ([] & Hb%require_Ok%binary_exists_spec & [= <- <-]).
  destruct (inv_seq _ I) as (? & ? & ?).
  split; unfold good_backup, binary_ids; cbn; try apply I.
  - apply NoDup_snoc; [apply I|]. intros (u & E & Hu)%list_elem_of_fmap.
    destruct (inv_backup _ I u Hu) as (? & _). simpl in E. lia.
  - intros u [Hu| ->%list_elem_of_singleton]%elem_of_app.
    + destruct (inv_backup _ I u Hu) as (? & ? & ? & ?). split_and!; try done; lia.
    + simpl. split_and!; try done; lia.
  - lia.
Qed.

(** Statements that change only which tables exist, the schema version or the
    configuration. *)
Lemma metadata_inv t t' :
  client_inv t -> ct_managed t' = ct_managed t -> ct_installed t' = ct_installed t ->
  ct_history t' = ct_history t -> ct_backups t' = ct_backups t ->
  ct_seq_installed t' = ct_seq_installed t -> ct_seq_history t' = ct_seq_history t ->
  ct_seq_backups t' = ct_seq_backups t -> client_inv t'.
Proof.
  destruct t, t'. simpl. intros [] ???????. subst.
  split; simpl in *; try done; unfold good_installed, good_history, good_backup, binary_ids in *; simpl in *; eauto.
Qed.

(** ** Every operation preserves the invariant *)

(** Inside the transaction of [init] every statement keeps the rows. *)
Definition same_rows (t t' : client_tables) : Prop :=
  ct_managed t' = ct_managed t /\ ct_installed t' = ct_installed t /\ ct_history t' = ct_history t /\
  ct_backups t' = ct_backups t /\ ct_seq_installed t' = ct_seq_installed t /\
  ct_seq_history t' = ct_seq_history t /\ ct_seq_backups t' = ct_seq_backups t.

#[global] Instance same_rows_preorder : PreOrder same_rows.
Proof. split; [done|]. intros [] [] []; unfold same_rows; simpl; naive_solver. Qed.

Lemma within_create_table name : within (q (create_table name)) (fun t _ t' => same_rows t t').
Proof. apply within_rel_exec. by intros t a t' [= _ <-]. Qed.
Lemma within_create_index name : within (q (create_index name)) (fun t _ t' => same_rows t t').
Proof. apply within_rel_exec. intros t a t' H%on_Ok. by simplify_eq. Qed.
Lemma within_defaults now : within (q (insert_default_config now)) (fun t _ t' => same_rows t t').
Proof. apply within_rel_exec. intros t a t' H%on_Ok. by simplify_eq. Qed.

Lemma init_schema_rows now : closing_rel same_rows (init_schema now).
Proof.
  apply (closing_rel_bind same_rows); [apply within_create_table|]. intros _.
  apply (closing_rel_bind same_rows); [by apply (within_rel_query same_rows)|].
  intros [v|].
  { case_match; (eapply closing_weaken; [apply closing_rollback|]; naive_solver). }
  apply (closing_rel_bind same_rows); [apply within_rel_exec; intros ??? E%on_Ok; by simplify_eq|intros _].
  do 10 (apply (closing_rel_bind same_rows); [auto using within_create_table, within_create_index, within_defaults|intros _]).
  eapply closing_weaken; [apply closing_commit|]. intros d t [] d' [_ ->]. by right.
Qed.

Lemma init_effect i now : effect (init i now) (fun t _ t' => t' = t \/ same_rows t t') same.
Proof.
  intros c Hc. destruct (effect_q _ _ _ (effect_query (fun _ : client_tables => Ok i)) c Hc) as [H1 H2].
  unfold init, dbind. destruct (q _ c) as [[a|e] c']; cbn [fst snd] in *.
  - destruct H2 as [_ <-]. case_match; [done|]. by apply (effect_in_tx _ _ (init_schema_rows now)).
  - destruct H2 as (? & _ & H2). by split.
Qed.

Lemma init_preserves i now : preserves (init i now).
Proof.
  eapply preserves_same; [apply init_effect|]. intros t [] t' [->|Hr] I; [done|].
  destruct Hr as (? & ? & ? & ? & ? & ? & ?). by eapply metadata_inv.
Qed.

Lemma register_preserves now b : preserves (register_binary now b).
Proof.
  apply preserves_check. intros [] Hp%validate_platform_Ok. apply preserves_bind.
  - apply preserves_on. intros t [] t' I H. by eapply (insert_managed_inv (new_managed now b)).
  - intros _. apply preserves_bind; [apply preserves_query|]. intros o. apply preserves_lift.
Qed.

Lemma record_installed_preserves now b v s h1 h2 n : preserves (record_installed_version now b v s h1 h2 n).
Proof.
  apply preserves_check. intros [] H1%validate_hash_size_Ok.
  apply preserves_check. intros [] H2%validate_hash_size_Ok.
  apply preserves_check. intros s' H3%normalize_normalized.
  destruct (Z.leb_spec n 0); [apply preserves_fail|].
  apply preserves_on. intros t id t' I. by apply insert_installed_inv.
Qed.

Lemma create_backup_preserves now b v s p h n e m :
  create_backup now b v s p h n e = Val m -> preserves m.
Proof.
  unfold create_backup, check_backup. rewrite fbind_Val.
  destruct (validate_hash_size h _) as [[]|?] eqn:E1; [|intros [= <-]; intros c Hc; by split; [|intros ?]].
  apply validate_hash_size_Ok in E1. case_match; [|done]. intros [= <-].
  apply preserves_check. intros [] _. apply preserves_check. intros s' Hs%normalize_normalized.
  apply preserves_on. intros t id t' I. by apply insert_backup_inv.
Qed.

Lemma update_current_preserves now b v s : preserves (update_current_version now b v s).
Proof.
  eapply preserves_same; [apply update_current_effect|]. intros t [] t' (_ & Hv & ->) I.
  by apply current_spec_inv.
Qed.

Lemma cleanup_preserves b k : preserves (cleanup_old_backups b k).
Proof.
  eapply preserves_same.
  - apply effect_in_tx. eapply closing_bind; [apply within_exec|]. intros n. apply closing_commit.
  - intros t n t' (n' & t1 & H%on_Ok & _ & ->) I. by eapply delete_backups_inv.
Qed.

Lemma run_op_preserves o : preserves (run_op o).
Proof.
  destruct o; cbn [run_op]; auto using init_preserves, update_current_preserves.
  - apply preserves_on. intros t [] t' I [= <-]. by eapply metadata_inv.
  - apply preserves_forget, register_preserves.
  - apply preserves_forget, record_installed_preserves.
  - apply preserves_bind; [|apply preserves_found].
    apply preserves_on. intros t n t' I. by apply update_managed_inv.
  - apply preserves_bind; [|apply preserves_found].
    apply preserves_on. intros t n t' I. by apply update_managed_inv.
  - apply preserves_bind; [|apply preserves_found].
    apply preserves_on. intros t n t' I. by apply delete_managed_inv.
  - apply preserves_forget, preserves_on. intros t n t' I. apply insert_history_inv; [done..|].
    by exists UDownloading.
  - apply preserves_bind; [|apply preserves_found]. apply preserves_on. intros t n t' I.
    apply update_history_inv; [done|]. intros u. split; [done|]. split; [done|]. by exists s.
  - apply preserves_bind; [|apply preserves_found]. apply preserves_on. intros t n t' I.
    apply update_history_inv; [done|]. intros u. split; [done|]. split; [done|].
    by exists (if success then UCompleted else UFailed).
  - apply preserves_forget, preserves_on. intros t n t' I. apply insert_history_inv; [done..|].
    by exists URolledBack.
  - apply preserves_forget. unfold delete_update_history. case_match; [apply preserves_fail|].
    apply preserves_on. intros t n t' I [= _ <-]. by apply delete_history_inv.
  - destruct (create_backup _ _ _ _ _ _ _ _) eqn:E; [|apply preserves_ret].
    apply preserves_forget. by eapply create_backup_preserves.
  - apply preserves_bind; [|apply preserves_found].
    apply preserves_on. intros t n t' I. by apply delete_backups_inv.
  - apply preserves_forget, preserves_on. intros t n t' I. by apply delete_backups_inv.
  - apply preserves_forget, cleanup_preserves.
Qed.

Lemma empty_client_inv : client_inv empty_client.
Proof.
  split; cbn; try (apply NoDup_nil_2); try done; intros ? *; try (by intros ?%elem_of_nil).
Qed.

Lemma client_reachable_inv c : client_reachable c -> tx c = None /\ client_inv (disk c).
Proof.
  intros Hc. induction Hc as [s|o c Hc [Ht I]].
  - split; [done|]. apply empty_client_inv.
  - destruct (run_op_preserves o c Ht) as [? Hp]. split; [done|].
    destruct (run_op o c) as [[a|e] c']; simpl in *; auto.
Qed.

(** The client's database, after any sequence of operations on a new file and
    under any failures of the driver, is consistent: keys and names are unique,
    every installed version, history record and backup belongs to a managed
    binary, stored platforms, hashes, sizes and version strings are valid, and a
    managed binary's current version is exactly the one installed version
    flagged as current, if any. *)
Theorem client_db_consistent c :
  client_reachable c ->
  tx c = None /\ client_inv (disk c) /\
  forall r r', r ∈ ct_installed (disk c) -> r' ∈ ct_installed (disk c) ->
    i_binary_id r = i_binary_id r' -> i_is_current r = true -> i_is_current r' = true -> r = r'.
Proof.
  intros Hc. apply client_reachable_inv in Hc as [Ht I].
  split; [done|]. split; [done|]. intros r r' Hr Hr' Hb Hcur Hcur'.
  destruct (inv_installed _ I r Hr) as (_ & (m & Hm & Hin)%list_elem_of_fmap & _).
  eapply (NoDup_key_eq installed_key); [apply I|done|done|]. unfold installed_key.
  rewrite (inv_current _ I r m) in Hcur by congruence.
  rewrite (inv_current _ I r' m) in Hcur' by congruence. congruence.
Qed.

(** ** Atomicity *)

Lemma atomic_found f name :
  (forall t n t', f t = Ok (n, t') -> n = 0 -> t' = t) ->
  atomic (dbind (q (exec (on name f))) found_rows).
Proof. intros Hf. apply atomic_count. intros t n t' H%on_Ok. eauto. Qed.

Lemma atomic_managed b g name :
  atomic (dbind (q (exec (on name (update_managed b g)))) found_rows).
Proof.
  apply atomic_found. intros [] n t' [= <- <-] Hn. unfold with_managed. simpl in *. by rewrite update_rows_none.
Qed.

Lemma atomic_history i g name :
  atomic (dbind (q (exec (on name (update_history i g)))) found_rows).
Proof.
  apply atomic_found. intros [] n t' [= <- <-] Hn. unfold with_history. simpl in *. by rewrite update_rows_none.
Qed.

Definition is_register (o : client_op) : bool := match o with OpRegister _ _ => true | _ => false end.

Lemma atomic_run o : is_register o = false -> atomic (run_op o).
Proof.
  intros Ho. destruct o; cbn [run_op]; try done.
  - eapply effect_weaken; [apply init_effect|done|done].
  - apply atomic_exec.
  - eapply effect_weaken; [apply update_current_effect|done|done].
  - apply atomic_forget. unfold record_installed_version.
    do 3 (apply atomic_check; intros ?). case_match; [by intros c Hc|apply atomic_exec].
  - apply atomic_managed.
  - apply atomic_managed.
  - apply atomic_found. unfold delete_managed. intros t n t' [= <- <-] Hn. by rewrite Hn.
  - apply atomic_forget, atomic_exec.
  - apply atomic_history.
  - apply atomic_history.
  - apply atomic_forget, atomic_exec.
  - apply atomic_forget. unfold delete_update_history. case_match; [by intros c Hc|apply atomic_exec].
  - unfold create_backup. destruct (check_backup _ _); [|by intros c Hc]. apply atomic_forget.
    do 2 (apply atomic_check; intros ?). apply atomic_exec.
  - apply atomic_found. intros [] n t' [= <- <-] Hn. unfold with_backups. simpl in *. by rewrite delete_rows_none.
  - apply atomic_forget, atomic_exec.
  - apply atomic_forget. eapply effect_weaken; [apply effect_in_tx|done|done].
    eapply closing_bind; [apply within_exec|]. intros n. apply closing_commit.
Qed.

Lemma get_binary_effect b :
  effect (get_binary b) (fun t o t' => o = seek (has_binary_id b) (ct_managed t) /\ t' = t) same.
Proof.
  eapply effect_weaken; [apply effect_q, effect_query|..]; [|by intros ??? (? & _ & ->)].
  intros t o t' [H%on_Ok ->]. by injection H as <-.
Qed.

Lemma insert_managed_Ok row t t' :
  insert_managed row t = Ok (tt, t') ->
  t' = with_managed (ct_managed t ++ [row]) t /\ seek (has_binary_id (m_binary_id row)) (ct_managed t) = None.
Proof.
  unfold insert_managed. rewrite result_bind_Ok. intros ([] & H1%require_Ok & H2).
  rewrite result_bind_Ok in H2. destruct H2 as ([] & _ & [= <-]). split; [done|].
  apply seek_None. intros x Hx. apply negb_true_iff in H1. destruct (has_binary_id _ x) eqn:E; [|done].
  rewrite <- H1. symmetry. apply existsb_exists. exists x. by rewrite <- list_elem_of_In.
Qed.

Lemma reread_row id :
  effect (dbind (get_binary id) (fun o => dlift (ok_or DbNotFound o)))
    (fun t row t' => seek (has_binary_id id) (ct_managed t) = Some row /\ t' = t) same.
Proof.
  intros c Hc. destruct (get_binary_effect id c Hc) as [H1 H2]. unfold dbind.
  destruct (get_binary id c) as [[[row|]|e] c']; cbn in *; [|by destruct H2|done]. split; [done|]. by destruct H2.
Qed.

Lemma register_effect now b :
  effect (register_binary now b)
    (fun t row t' => row = new_managed now b /\ t' = with_managed (ct_managed t ++ [new_managed now b]) t)
    (fun t _ t' => t' = t \/ t' = with_managed (ct_managed t ++ [new_managed now b]) t).
Proof.
  unfold register_binary. destruct (validate_platform _) as [[]|?]; [|by intros d Hd; split; [|left]].
  eapply effect_weaken;
    [apply (effect_bind _ _ _ _ _ _ (effect_q _ _ _ (effect_exec _)) (fun _ => reread_row (nm_binary_id b)))|..]; cbn beta.
  - intros t row t' ([] & t1 & H1%on_Ok%insert_managed_Ok & H2 & ->). destruct H1 as [-> H1]. split; [|done].
    cbn [ct_managed with_managed new_managed m_binary_id] in *.
    rewrite seek_app in H2 by done. cbn in H2. unfold has_binary_id in H2. cbn in H2.
    rewrite bool_decide_eq_true_2 in H2 by done. by simplify_eq.
  - intros t e t' [(? & _ & ->)|([] & t1 & H1%on_Ok%insert_managed_Ok & ->)]; [by left|right]. by destruct H1.
Qed.

(** C32: The operations of the client's database are all or nothing under any
    failures of the driver: an operation that returns an error has left the
    tables as they were, also when a transaction failed half way, could not be
    rolled back explicitly, or could not be committed.  The registration of a
    binary is the exception: when reading the new row back fails, the row is
    stored although the operation returns an error. *)
Theorem client_ops_atomic o c e :
  tx c = None -> (run_op o c).1 = Err e ->
  disk (run_op o c).2 = disk c \/
  exists now b, o = OpRegister now b /\
    disk (run_op o c).2 = with_managed (ct_managed (disk c) ++ [new_managed now b]) (disk c).
Proof.
  intros Hc He. destruct (is_register o) eqn:Ho.
  - destruct o; try done. cbn [run_op] in *.
    pose proof (register_effect now b) as Hr.
    specialize (Hr c Hc). revert He. unfold forget, dbind.
    destruct (register_binary now b c) as [[m|?] c']; simpl in *; [done|]. intros _.
    destruct Hr as [_ [?|?]]; [by left|right; eauto].
  - left. destruct (atomic_run o Ho c Hc) as [_ H]. destruct (run_op o c) as [[[]|?] c']; simpl in *; [done|exact H].
Qed.

(** ** Cleaning up backups *)

Lemma filter_kept {A B} `{EqDecision B} (f : A -> B) n l :
  NoDup (f <$> l) -> List.filter (fun x => bool_decide (f x ∈ f <$> take n l)) l = take n l.
Proof.
  intros Hl. set (p := fun x => bool_decide (f x ∈ f <$> take n l)).
  rewrite <- (take_drop n l) at 1. rewrite List.filter_app.
  rewrite <- (take_drop n l), fmap_app in Hl. apply NoDup_app in Hl as (_ & Hd & _).
  rewrite forallb_filter_id.
  2: { apply forallb_forall. intros x Hx. apply bool_decide_eq_true, list_elem_of_fmap_2. by apply list_elem_of_In. }
  destruct (List.filter p (drop n l)) as [|x k] eqn:E; [apply app_nil_r|]. exfalso.
  assert (In x (x :: k)) as Hx by (by left). rewrite <- E in Hx. apply filter_In in Hx as [Hx Hb%bool_decide_eq_true].
  apply (Hd _ Hb). apply list_elem_of_fmap_2. by apply list_elem_of_In.
Qed.

Lemma filterb_filterb {A} (p p' : A -> bool) l :
  List.filter p (List.filter p' l) = List.filter (fun x => p x && p' x) l.
Proof.
  induction l as [|x l IH]; [done|]. simpl. destruct (p' x) eqn:E'; simpl; rewrite ?IH;
    destruct (p x); simpl; done.
Qed.

Context `{OL : !SqlOrderLaws SO}.

(** The keys a cleanup keeps select the newest rows. *)
Lemma kept_rows b keep t :
  NoDup (r_backup_id <$> ct_backups t) -> 0 <= keep ->
  List.filter (fun r => bool_decide (r_backup_id r ∈ kept_backups b keep t)) (List.filter (backup_of b) (ct_backups t))
    ≡ₚ takeZ keep (backups_desc b t).
Proof.
  intros Hn Hk. unfold kept_backups, limit. replace (keep <? 0) with false by lia.
  rewrite !takeZ_take. unfold backups_desc.
  etrans; [apply filterb_perm; symmetry; apply (order_by_perm Desc r_created_at)|].
  rewrite filter_kept; [done|]. rewrite (order_by_perm Desc r_created_at). by apply NoDup_filterb.
Qed.

(** Cleaning up the backups of a binary keeps the newest ones: afterwards at
    most [keep] are left, all of them when there were no more; every deleted
    backup is at most as new as every kept one; the number of deleted rows is
    returned; and the backups of other binaries are untouched. *)
Theorem cleanup_keeps_newest b keep c n c' :
  client_inv (disk c) -> tx c = None -> 0 <= keep ->
  cleanup_old_backups b keep c = (Ok n, c') ->
  let before := List.filter (backup_of b) (ct_backups (disk c)) in
  let after := List.filter (backup_of b) (ct_backups (disk c')) in
  lenZ after = Z.min keep (lenZ before) /\ n = lenZ before - lenZ after /\
  (forall r, r ∈ after -> r ∈ before) /\
  (forall r r', r ∈ before -> r ∉ after -> r' ∈ after -> text_le (r_created_at r) (r_created_at r')) /\
  (forall r, r_binary_id r <> b -> r ∈ ct_backups (disk c') <-> r ∈ ct_backups (disk c)).
Proof.
  intros I Hc Hk Hrun before after.
  assert (effect (cleanup_old_backups b keep) (fun t n t' => delete_backups (fun t r =>
      backup_of b r && negb (bool_decide (r_backup_id r ∈ kept_backups b keep t))) t = Ok (n, t')) same) as He.
  { eapply effect_weaken; [apply effect_in_tx; eapply closing_bind; [apply within_exec|]; intros; apply closing_commit| |done].
    intros t n0 t' (n' & t1 & H%on_Ok & -> & ->). exact H. }
  destruct (He c Hc) as [_ Hd]. rewrite Hrun in Hd. simpl in Hd. clear He.
  unfold delete_backups in Hd. injection Hd as Hn Hd.
  set (kept := fun r => bool_decide (r_backup_id r ∈ kept_backups b keep (disk c))).
  assert (after = List.filter kept before) as Ha.
  { unfold after, before. rewrite <- Hd. cbn. unfold delete_rows. rewrite !filterb_filterb.
    apply filter_ext. intros r. unfold kept. by destruct (backup_of b r), (bool_decide _). }
  assert (after ≡ₚ takeZ keep (backups_desc b (disk c))) as Hp.
  { rewrite Ha. apply kept_rows; [apply I|done]. }
  assert (backups_desc b (disk c) ≡ₚ before) as Hb by apply order_by_perm.
  assert (lenZ after + n = lenZ before) as Hlen.
  { unfold lenZ. rewrite Ha, <- (filter_length kept before), Nat2Z.inj_add. f_equal.
    rewrite <- Hn. unfold count_rows, lenZ, before.
    rewrite filterb_filterb. do 2 f_equal. apply filter_ext. intros r. unfold kept.
    by destruct (backup_of b r), (bool_decide _). }
  split_and!.
  - unfold lenZ. rewrite Hp, <- Hb. by apply lenZ_takeZ.
  - lia.
  - intros r Hr. rewrite Ha in Hr. by apply elem_of_filterb in Hr as [? _].
  - intros r r' Hr Hra Hra'. rewrite <- Hb in Hr. rewrite Hp in Hra, Hra'. rewrite takeZ_take in Hra, Hra'.
    rewrite <- (take_drop (Z.to_nat keep) (backups_desc b (disk c))), elem_of_app in Hr.
    destruct Hr as [Hr|Hr]; [done|].
    pose proof (order_by_sorted Desc r_created_at (List.filter (backup_of b) (ct_backups (disk c)))) as Hs.
    change (order_by _ _ _) with (backups_desc b (disk c)) in Hs.
    rewrite <- (take_drop (Z.to_nat keep) (backups_desc b (disk c))) in Hs.
    by eapply (StronglySorted_app_1_elem_of _ _ _ _ _ Hs).
  - intros r Hr. rewrite <- Hd. cbn. rewrite elem_of_delete_rows. unfold backup_of.
    rewrite bool_decide_eq_false_2 by done. naive_solver.
Qed.

(** ** Expiry *)

Lemma compare_app d s s' : String.compare (d +:+ s) (d +:+ s') = String.compare s s'.
Proof.
  induction d as [|a d IH]; [done|]. simpl. rewrite IH. unfold Ascii.compare. by rewrite N.compare_refl.
Qed.

(** Deleting expired backups removes exactly the rows whose expiry text is
    below the current time in byte order; a failure removes nothing. *)
Theorem expired_backups_deleted now c :
  tx c = None ->
  forall r, r ∈ ct_backups (disk (delete_expired_backups now c).2) <->
    r ∈ ct_backups (disk c) /\
    (is_ok (delete_expired_backups now c).1 = true -> forall e, r_expires_at r = Some e -> text_le now e).
Proof.
  intros Hc r. destruct (effect_q _ _ _ (effect_exec (on "rollback_backups" (delete_backups (fun _ => expired now)))) c Hc)
    as [_ H]. unfold delete_expired_backups. destruct (q _ c) as [[n|e] c']; simpl in *.
  - apply on_Ok in H. injection H as _ <-. cbn. rewrite elem_of_delete_rows. apply and_iff_compat_l.
    unfold expired, text_lt, text_le. destruct (r_expires_at r) as [e|]; [|done].
    assert (String.compare now e = CompOpp (String.compare e now)) as Hop by apply String.compare_antisym.
    split; [intros Hf _ e' [= <-]; rewrite Hop|intros Hf; specialize (Hf eq_refl e eq_refl); rewrite Hop in Hf];
      destruct (String.compare e now); simpl in *; congruence.
  - destruct H as (? & _ & ->). split; [by intros ?; split|by intros [? _]].
Qed.

(** An expiry in the documented ISO 8601 form is not noticed on its own day:
    [CURRENT_TIMESTAMP] has a space where the expiry has a [T], so in byte order
    the expiry is above every time of the same date, and deleting expired
    backups leaves the backup, however late on that day it runs. *)
Theorem iso_expiry_ignored_same_day date x y c r :
  tx c = None -> r ∈ ct_backups (disk c) -> r_expires_at r = Some (date +:+ "T" +:+ x) ->
  r ∈ ct_backups (disk (delete_expired_backups (date +:+ " " +:+ y) c).2).
Proof.
  intros Hc Hr He.
  destruct (effect_q _ _ _ (effect_exec (on "rollback_backups" (delete_backups (fun _ => expired (date +:+ " " +:+ y))))) c Hc)
    as [_ H]. unfold delete_expired_backups. destruct (q _ c) as [[n|e] c']; simpl in *.
  - apply on_Ok in H. injection H as _ <-. cbn. apply elem_of_delete_rows. split; [done|].
    unfold expired, text_lt. by rewrite He, compare_app.
  - by destruct H as (? & _ & ->).
Qed.
End Facts.
