(* ===== verification/System.v ===== *)
(** * System: programs on a file system and a database

    The commands of the client and some operations of the publisher use both
    files and a database: a program changes a pair of a [Fs.world] and a
    [Sql.conn], and both the file calls and the statements may fail.  Also here:
    the file calls only those programs make. *)

From S2P Require Import Prelude Text Version Validation Fs DbModels Sql.

#[local] Open Scope Z_scope.

(** ** File calls *)

(** [Path::is_file]. *)
Definition is_file (p : string) : io bool :=
  syscall (fun f => (match node_at f (resolve p) with Some (File _) => true | _ => false end, f))
          (fun _ f => (false, f)).

(** [fs::metadata] and [fs::set_permissions]; modes are not part of the tree. *)
Definition stat (p : string) : io (result io_error unit) :=
  syscall (fun f => (if bool_decide (is_Some (node_at f (resolve p))) then Ok tt else Err IoNotFound, f))
          (fun _ f => (Err IoFault, f)).
Definition set_permissions (p : string) : io (result io_error unit) := stat p.

(** [OpenOptions] with [create_new(true)]. *)
Definition create_new (p : string) : io (result io_error unit) :=
  syscall (fun f => match node_at f (resolve p) with
                    | Some _ => (Err (IoOther "File exists"), f)
                    | None => commit tt f (fs_put f (resolve p) [])
                    end)
          (fun _ f => (Err IoFault, f)).

(** The absolute path of a node. *)
Definition abs_path (p : list string) : string := "/" +:+ String.concat "/" p.

(** [Path::canonicalize], without symbolic links. *)
Definition canonicalize (p : string) : io (result io_error string) :=
  syscall (fun f => (if bool_decide (is_Some (node_at f (resolve p))) then Ok (abs_path (resolve p))
                     else Err IoNotFound, f))
          (fun _ f => (Err IoFault, f)).

(** A path from its end, without the trailing separators and [.] that
    [Path::components] skips. *)
Fixpoint trim_rev (l : list ascii) : list ascii :=
  match l with
  | [] => []
  | c :: l' =>
      if bool_decide (c = "/"%char) then match l' with [] => l | _ => trim_rev l' end
      else if bool_decide (c = "."%char) then
        match l' with
        | d :: _ => if bool_decide (d = "/"%char) then trim_rev l' else l
        | [] => l
        end
      else l
  end.

Fixpoint after_slash (l : list ascii) : option (list ascii) :=
  match l with
  | [] => None
  | c :: l => if bool_decide (c = "/"%char) then Some l else after_slash l
  end.

Fixpoint before_slash (l : list ascii) : list ascii :=
  match l with
  | [] => []
  | c :: l => if bool_decide (c = "/"%char) then [] else c :: before_slash l
  end.

(** [Path::parent]. *)
Definition parent_path (p : string) : option string :=
  let r := trim_rev (reverse (chars p)) in
  match after_slash r with
  | None => if bool_decide (r = []) then None else Some ""
  | Some [] => if bool_decide (r = ["/"%char]) then None else Some "/"
  | Some l => Some (of_chars (reverse (trim_rev l)))
  end.

(** [Path::file_name]: none when the path ends in [..] or is the root. *)
Definition path_file_name (p : string) : option string :=
  let name := of_chars (reverse (before_slash (trim_rev (reverse (chars p))))) in
  if bool_decide (plain name) then Some name else None.

Lemma after_slash_app n l : "/"%char ∉ n -> after_slash (n ++ "/"%char :: l) = Some l.
Proof.
  induction n as [|c n IH]; intros H; cbn [app after_slash].
  - by rewrite bool_decide_eq_true_2.
  - rewrite bool_decide_eq_false_2 by set_solver. apply IH. set_solver.
Qed.

Lemma after_slash_none n : "/"%char ∉ n -> after_slash n = None.
Proof.
  induction n as [|c n IH]; intros H; [done|]. cbn [after_slash].
  rewrite bool_decide_eq_false_2 by set_solver. apply IH. set_solver.
Qed.

Lemma resolve_trailing d : resolve (d +:+ "/") = resolve d.
Proof.
  unfold resolve. change (d +:+ "/") with (d +:+ "/" +:+ ""). rewrite split_char_sep by set_solver.
  by rewrite fold_left_app.
Qed.

Lemma resolve_dot d : resolve (d +:+ "/.") = resolve d.
Proof.
  unfold resolve. change (d +:+ "/.") with (d +:+ "/" +:+ "."). rewrite split_char_sep by set_solver.
  by rewrite fold_left_app.
Qed.

Lemma trim_rev_resolve l : resolve (of_chars (reverse (trim_rev l))) = resolve (of_chars (reverse l)).
Proof.
  induction l as [|c l IH]; [done|]. cbn [trim_rev].
  destruct (bool_decide_reflect (c = "/"%char)) as [->|_].
  - destruct l as [|d l]; [done|]. rewrite IH. rewrite (reverse_cons _ "/"%char), of_chars_app.
    symmetry. apply resolve_trailing.
  - destruct (bool_decide_reflect (c = "."%char)) as [->|_]; [|done].
    destruct l as [|d l]; [done|]. destruct (bool_decide_reflect (d = "/"%char)) as [->|_]; [|done].
    rewrite IH, !reverse_cons, !of_chars_app. etrans; [apply resolve_trailing|].
    symmetry. etrans; [|apply resolve_dot]. f_equal. apply (inj chars). by rewrite !chars_app, <- app_assoc.
Qed.

Lemma trim_rev_plain n k : plain n -> trim_rev (reverse (chars n) ++ k) = reverse (chars n) ++ k.
Proof.
  intros (Hn & Hd & _ & Hs). rewrite <- elem_of_reverse in Hs.
  assert (reverse (chars n) <> []) as Hne.
  { intros H. apply Hn, (inj chars). by rewrite <- (reverse_involutive (chars n)), H. }
  destruct (reverse (chars n)) as [|c [|d l]] eqn:E; [done| |]; cbn [app trim_rev];
    (rewrite bool_decide_eq_false_2 by set_solver); [|].
  - rewrite bool_decide_eq_false_2; [done|]. intros ->. apply Hd, (inj chars).
    by rewrite <- (reverse_involutive (chars n)), E.
  - case_bool_decide; [|done]. by rewrite bool_decide_eq_false_2 by set_solver.
Qed.

Lemma before_slash_app n l : "/"%char ∉ n -> before_slash (n ++ "/"%char :: l) = n.
Proof.
  induction n as [|c n IH]; intros H; cbn [app before_slash].
  - by rewrite bool_decide_eq_true_2.
  - rewrite bool_decide_eq_false_2 by set_solver. f_equal. apply IH. set_solver.
Qed.

Lemma before_slash_none n : "/"%char ∉ n -> before_slash n = n.
Proof.
  induction n as [|c n IH]; intros H; [done|]. cbn [before_slash].
  rewrite bool_decide_eq_false_2 by set_solver. f_equal. apply IH. set_solver.
Qed.

Lemma reverse_sep d n :
  reverse (chars (d +:+ "/" +:+ n)) = reverse (chars n) ++ "/"%char :: reverse (chars d).
Proof. rewrite !chars_app, !reverse_app. change (chars "/") with ["/"%char]. by rewrite <- app_assoc. Qed.

(** The parent of [d/n], written with a separator, is [d]. *)
Lemma parent_path_sep d n :
  plain n -> exists q, parent_path (d +:+ "/" +:+ n) = Some q /\ resolve q = resolve d.
Proof.
  intros Hp. pose proof Hp as (Hn & _ & _ & Hs). unfold parent_path. rewrite reverse_sep, trim_rev_plain by done.
  cbn zeta. rewrite after_slash_app by (by rewrite elem_of_reverse).
  destruct (reverse (chars d)) as [|c l] eqn:E.
  - assert (d = "") as ->.
    { apply (inj chars). by rewrite <- (reverse_involutive (chars d)), E. }
    rewrite bool_decide_eq_false_2; [by exists "/"|]. intros Hx. apply (f_equal length) in Hx.
    rewrite length_app, length_reverse in Hx. cbn in Hx. apply Hn, (inj chars), nil_length_inv. cbn in *. lia.
  - exists (of_chars (reverse (trim_rev (c :: l)))). split; [done|]. rewrite trim_rev_resolve, <- E, reverse_involutive.
    by rewrite of_chars_chars.
Qed.

Lemma path_file_name_sep d n : plain n -> path_file_name (d +:+ "/" +:+ n) = Some n.
Proof.
  intros Hp. unfold path_file_name. rewrite reverse_sep, trim_rev_plain by done.
  rewrite before_slash_app by (rewrite elem_of_reverse; apply Hp).
  rewrite reverse_involutive, of_chars_chars. cbn zeta. by rewrite bool_decide_eq_true_2.
Qed.

Lemma path_file_name_join d n : plain n -> path_file_name (join d n) = Some n.
Proof.
  intros Hp. destruct (join_prefix d) as (pre & Hpre & Hj). rewrite Hj by apply Hp. destruct Hpre as [->|[q ->]].
  - change ("" +:+ n) with n. unfold path_file_name.
    rewrite <- (app_nil_r (reverse (chars n))), trim_rev_plain by done. cbn zeta.
    replace (before_slash (reverse (chars n) ++ [])) with (reverse (chars n)); [|symmetry].
    + by rewrite reverse_involutive, of_chars_chars, bool_decide_eq_true_2.
    + rewrite app_nil_r. apply before_slash_none. rewrite elem_of_reverse. apply Hp.
  - replace ((q +:+ "/") +:+ n) with (q +:+ "/" +:+ n) by (apply (inj chars); by rewrite !chars_app, <- app_assoc).
    by apply path_file_name_sep.
Qed.

Lemma parent_path_join d n :
  plain n -> exists q, parent_path (join d n) = Some q /\ resolve q = resolve d.
Proof.
  intros Hp. pose proof Hp as (Hn & _ & _ & Hs). unfold join. rewrite not_starts_with_slash by done.
  destruct (str_is_empty d || ends_with "/" d) eqn:E; [|by apply parent_path_sep].
  apply orb_true_iff in E as [E|E].
  - unfold str_is_empty in E. apply bool_decide_eq_true in E as ->. exists "". split; [|done].
    change ("" +:+ n) with n. unfold parent_path.
    rewrite <- (app_nil_r (reverse (chars n))), trim_rev_plain, app_nil_r by done. cbn zeta.
    rewrite after_slash_none by (by rewrite elem_of_reverse).
    rewrite bool_decide_eq_false_2; [done|]. intros H. apply Hn, (inj chars).
    by rewrite <- (reverse_involutive (chars n)), H.
  - unfold ends_with in E. apply prefixb_spec in E as [k Hk].
    apply (f_equal reverse) in Hk. rewrite reverse_involutive, reverse_app in Hk.
    assert (d = of_chars (reverse k) +:+ "/") as ->.
    { apply (inj chars). by rewrite Hk, chars_app, chars_of_chars. }
    assert ((of_chars (reverse k) +:+ "/") +:+ n = of_chars (reverse k) +:+ "/" +:+ n) as ->.
    { apply (inj chars). by rewrite !chars_app, <- app_assoc. }
    destruct (parent_path_sep (of_chars (reverse k)) n Hp) as (q & ? & Hq). exists q. split; [done|].
    by rewrite Hq, resolve_trailing.
Qed.

Lemma snoc_prefix {A} (a b : list A) x : a ++ [x] `prefix_of` b -> a `prefix_of` b.
Proof. intros [k ->]. exists ([x] ++ k). by rewrite app_assoc. Qed.

Lemma prefix_of_snoc {A} (a b : list A) x : a `prefix_of` b ++ [x] -> a `prefix_of` b \/ a = b ++ [x].
Proof.
  intros [k Hk]. destruct k as [|y k _] using rev_ind; [right; by rewrite app_nil_r in Hk|].
  rewrite app_assoc in Hk. apply app_inj_tail in Hk as [-> _]. left. by exists k.
Qed.

(** What a successful write leaves. *)
Lemma write_read_back p d w w' : write p d w = (Ok tt, w') -> fs_read (files w') (resolve p) = Ok d.
Proof.
  unfold write. destruct (syscall_cases (fun f => commit tt f (fs_put f (resolve p) d))
    (fun k f => (Err IoFault, match k with O => f | S k => (commit tt f (fs_put f (resolve p) (take k d))).2 end)) w)
    as [[_ ->]|(k & _ & ->)]; [|done].
  unfold fs_put. destruct (node_at (files w) (resolve p)) as [[|]|] eqn:E; [done|..];
    (destruct (node_at (files w) (parent (resolve p))) as [[|]|]; [|done..]); intros [= <-]; unfold fs_read, node_at in *;
    cbn; case_bool_decide; try done; by rewrite lookup_insert_eq.
Qed.

(** ** Audit events ([deltaship-client/src/audit.rs]) *)

Inductive AuditEvent :=
| UpdateApplied (binary_name version install_path : string)
| Rollback (binary_name from_version to_version : string)
| BinaryAdded (binary_name install_path : string)
| BinaryRemoved (binary_name install_path : string)
| SignatureVerificationFailed (binary_name version : string)
| UpdateCheckFailed (binary_name error : string).

Definition audit_text (e : AuditEvent) : string :=
  match e with
  | UpdateApplied n v p => "UPDATE_APPLIED: binary=" +:+ n +:+ " version=" +:+ v +:+ " path=" +:+ p
  | Rollback n a b => "ROLLBACK: binary=" +:+ n +:+ " from=" +:+ a +:+ " to=" +:+ b
  | BinaryAdded n p => "BINARY_ADDED: binary=" +:+ n +:+ " path=" +:+ p
  | BinaryRemoved n p => "BINARY_REMOVED: binary=" +:+ n +:+ " path=" +:+ p
  | SignatureVerificationFailed n v => "SIGNATURE_VERIFICATION_FAILED: binary=" +:+ n +:+ " version=" +:+ v
  | UpdateCheckFailed n e => "UPDATE_CHECK_FAILED: binary=" +:+ n +:+ " error=" +:+ e
  end.

(** ** The monad *)

(** Besides files and database, the client has sent requests to some addresses
    of the network, slept for some durations (in milliseconds) and logged audit
    events, all latest first. *)
Record system (T : Type) := Sys {
  sy_fs : world;
  sy_db : conn T;
  sy_sent : list string;
  sy_slept : list Z;
  sy_audit : list AuditEvent;
}.
Arguments Sys {T} _ _ _ _ _.
Arguments sy_audit {T} _.
Arguments sy_fs {T} _.
Arguments sy_db {T} _.
Arguments sy_sent {T} _.
Arguments sy_slept {T} _.

(** How many requests were sent so far; the network may answer each differently. *)
Definition sy_requests {T} (s : system T) : nat := length (sy_sent s).

Definition sys (T E A : Type) : Type := system T -> result E A * system T.

(** The values of an error type that stand for a panic, and for a call that does
    not return: no match on a result sees them, and after a call that does not
    return no destructor runs either. *)
Class Panics (E : Type) := { is_panic : E -> bool; never_returns : E -> bool }.
Definition uncaught `{Panics E} (e : E) : bool := is_panic e || never_returns e.

Section Sys.
Context {T E : Type}.

Definition sret {A} (a : A) : sys T E A := fun s => (Ok a, s).
Definition sfail {A} (e : E) : sys T E A := fun s => (Err e, s).
Definition of_result {A} (r : result E A) : sys T E A := fun s => (r, s).
Definition sbind {A B} (m : sys T E A) (k : A -> sys T E B) : sys T E B := fun s =>
  match m s with
  | (Ok a, s') => k a s'
  | (Err e, s') => (Err e, s')
  end.

Definition with_fs (w : world) (s : system T) : system T := 
  Sys w (sy_db s) (sy_sent s) (sy_slept s) (sy_audit s).
Definition with_db (c : conn T) (s : system T) : system T := 
  Sys (sy_fs s) c (sy_sent s) (sy_slept s) (sy_audit s).

Definition of_io {A} (m : io (result E A)) : sys T E A := fun s =>
  let '(r, w) := m (sy_fs s) in (r, with_fs w s).
Definition of_db {A} (m : db T E A) : sys T E A := fun s =>
  let '(r, c) := m (sy_db s) in (r, with_db c s).

(** A match on the result instead of [?]: an error is a value, a panic goes on
    unwinding. *)
Definition attempt `{Panics E} {A} (m : sys T E A) : sys T E (result E A) := fun s =>
  match m s with
  | (Ok a, s') => (Ok (Ok a), s')
  | (Err e, s') => if uncaught e then (Err e, s') else (Ok (Err e), s')
  end.

(** What destructors see: an error or a panic on its way out. *)
Definition caught `{Panics E} {A} (m : sys T E A) : sys T E (result E A) := fun s =>
  match m s with
  | (Ok a, s') => (Ok (Ok a), s')
  | (Err e, s') => if never_returns e then (Err e, s') else (Ok (Err e), s')
  end.

(** [tokio::time::sleep]. *)
Definition sleep (ms : Z) : sys T E unit := fun s =>
  (Ok tt, Sys (sy_fs s) (sy_db s) (sy_sent s) (ms :: sy_slept s) (sy_audit s)).

(** [log_audit_event]: a failure of syslog is ignored. *)
Definition log_audit_event (e : AuditEvent) : sys T E unit := fun s =>
  (Ok tt, Sys (sy_fs s) (sy_db s) (sy_sent s) (sy_slept s) (e :: sy_audit s)).

(** What the program observes of its host may differ from step to step. *)
Definition at_tick {A} (f : nat -> A) : sys T E A := fun s => (Ok (f (tick (sy_fs s))), s).
End Sys.

Declare Scope sys_scope.
Delimit Scope sys_scope with sys.
Notation "x ←! m ; k" := (sbind m (fun x => k))
  (at level 20, m at level 100, k at level 200, right associativity) : sys_scope.
Notation "' x ←! m ; k" := (sbind m (fun x => k))
  (at level 20, x pattern, m at level 100, k at level 200, right associativity) : sys_scope.
Notation "m ;;! k" := (sbind m (fun _ => k))
  (at level 100, k at level 200, right associativity) : sys_scope.

(** ** Frames *)

Section Frame.
Context {T : Type} (R : list string -> option node -> option node -> Prop) {HR : forall p, PreOrder (R p)}.

(** The program changes the tree only as [R] allows, whatever fails, and leaves
    the fault schedule alone. *)
Definition sys_respects {E A} (m : sys T E A) : Prop :=
  forall s, faults (sy_fs (m s).2) = faults (sy_fs s) /\
    forall p, R p (files (sy_fs s) !! p) (files (sy_fs (m s).2) !! p).

Lemma sys_respects_same {E A} (m : sys T E A) : (forall s, sy_fs (m s).2 = sy_fs s) -> sys_respects m.
Proof. intros Hm s. by rewrite Hm. Qed.

Lemma sys_respects_bind {E A B} (m : sys T E A) (k : A -> sys T E B) :
  sys_respects m -> (forall a, sys_respects (k a)) -> sys_respects (sbind m k).
Proof.
  intros Hm Hk s. specialize (Hm s) as [Hf Hm]. unfold sbind. destruct (m s) as [[a|e] s']; [|by split].
  destruct (Hk a s') as [Hf' Hk']. cbn [snd] in *. split; [congruence|]. intros p. etrans; [apply Hm|apply Hk'].
Qed.

(** The continuation need only be framed for values the program returns. *)
Lemma sys_respects_bind_val {E A B} (m : sys T E A) (k : A -> sys T E B) :
  sys_respects m -> (forall s a s1, m s = (Ok a, s1) -> sys_respects (k a)) -> sys_respects (sbind m k).
Proof.
  intros Hm Hk s. specialize (Hm s) as [Hf Hm]. unfold sbind. destruct (m s) as [[a|e] s'] eqn:E1; [|by split].
  destruct (Hk _ _ _ E1 s') as [Hf' Hk']. cbn [snd] in *. split; [congruence|]. intros p. etrans; [apply Hm|apply Hk'].
Qed.

Lemma sys_respects_io {E A} (m : io (result E A)) : respects R m -> sys_respects (of_io m).
Proof. intros Hm s. destruct (Hm (sy_fs s)) as (? & _ & H). unfold of_io. by destruct (m (sy_fs s)). Qed.

Lemma sys_respects_db {E A} (m : db T E A) : sys_respects (of_db m).
Proof. apply sys_respects_same. intros s. unfold of_db. by destruct (m (sy_db s)). Qed.

Lemma sys_respects_attempt `{Panics E} {A} (m : sys T E A) : sys_respects m -> sys_respects (attempt m).
Proof. intros Hm s. specialize (Hm s). unfold attempt. destruct (m s) as [[a|e] s']; [done|]. by destruct (uncaught e). Qed.
Lemma sys_respects_caught `{Panics E} {A} (m : sys T E A) : sys_respects m -> sys_respects (caught m).
Proof. intros Hm s. specialize (Hm s). unfold caught. destruct (m s) as [[a|e] s']; [done|]. by destruct (never_returns e). Qed.

Lemma sys_respects_result {E A} (r : result E A) : sys_respects (of_result r).
Proof. by apply sys_respects_same. Qed.
Lemma sys_respects_ret {E A} (a : A) : sys_respects (sret (E := E) a).
Proof. by apply sys_respects_same. Qed.
Lemma sys_respects_fail {E A} (e : E) : sys_respects (sfail (A := A) e).
Proof. by apply sys_respects_same. Qed.
Lemma sys_respects_sleep {E} ms : sys_respects (sleep (E := E) ms).
Proof. by apply sys_respects_same. Qed.
Lemma sys_respects_audit {E} e : sys_respects (log_audit_event (E := E) e).
Proof. by apply sys_respects_same. Qed.
Lemma sys_respects_at_tick {E A} (f : nat -> A) : sys_respects (at_tick (E := E) f).
Proof. by apply sys_respects_same. Qed.

Lemma respects_is_file p : respects R (is_file p).
Proof. apply respects_syscall; intros; reflexivity. Qed.
Lemma respects_canonicalize p : respects R (canonicalize p).
Proof. apply respects_syscall; intros; cbn; reflexivity. Qed.
Lemma respects_stat p : respects R (stat p).
Proof. apply respects_syscall; intros; cbn; reflexivity. Qed.
Lemma respects_set_permissions p : respects R (set_permissions p).
Proof. apply respects_syscall; intros; cbn; reflexivity. Qed.
Lemma respects_create_new p : free R (resolve p) -> respects R (create_new p).
Proof. intros Hp. apply respects_syscall; intros; [|reflexivity]. case_match; [reflexivity|by apply commit_put]. Qed.
End Frame.

#[global] Hint Resolve sys_respects_db sys_respects_result sys_respects_ret sys_respects_fail
  sys_respects_sleep sys_respects_audit sys_respects_at_tick respects_is_file respects_canonicalize respects_stat
  respects_set_permissions respects_create_new : respects.

#[global] Hint Extern 1 (PreOrder _) => apply _ : respects.

(** Case analysis on a program, then the frames of its calls. *)
Ltac sys_respects_tac :=
  repeat (cbn zeta;
    lazymatch goal with
    | |- sys_respects _ (if ?b then _ else _) => destruct b
    | |- sys_respects _ (match ?x with _ => _ end) => destruct x
    | |- sys_respects _ (sbind _ _) => apply sys_respects_bind; [apply _| |intros ?]
    | |- sys_respects _ (attempt _) => apply sys_respects_attempt
    | |- sys_respects _ (caught _) => apply sys_respects_caught
    | |- sys_respects _ (of_io _) => apply sys_respects_io
    | |- respects _ (io_map _ _) => apply respects_io_map
    | |- respects _ (if ?b then _ else _) => destruct b
    | |- respects _ (match ?x with _ => _ end) => destruct x
    | |- _ => solve [auto with respects]
    end).

Lemma sbind_step {T E A B} (m : sys T E A) (k : A -> sys T E B) s a s1 :
  m s = (Ok a, s1) -> sbind m k s = k a s1.
Proof. unfold sbind. by intros ->. Qed.

(** Inversion of the bind. *)
Lemma sbind_Ok {T E A B} (m : sys T E A) (k : A -> sys T E B) s b s' :
  sbind m k s = (Ok b, s') -> exists a s1, m s = (Ok a, s1) /\ k a s1 = (Ok b, s').
Proof. unfold sbind. destruct (m s) as [[a|e] s1]; [eauto|done]. Qed.

Lemma sbind_Err {T E A B} (m : sys T E A) (k : A -> sys T E B) s e s' :
  sbind m k s = (Err e, s') ->
  m s = (Err e, s') \/ exists a s1, m s = (Ok a, s1) /\ k a s1 = (Err e, s').
Proof. unfold sbind. destruct (m s) as [[a|e'] s1]; [eauto|]. intros [= <- <-]. by left. Qed.

Lemma of_io_Ok {T E A} (m : io (result E A)) (s : system T) a s' :
  of_io m s = (Ok a, s') -> exists w', m (sy_fs s) = (Ok a, w') /\ s' = with_fs w' s.
Proof. unfold of_io. destruct (m (sy_fs s)) as [r w']. intros [= -> <-]. eauto. Qed.

Lemma of_db_Ok {T E A} (m : db T E A) (s : system T) a s' :
  of_db m s = (Ok a, s') -> exists c', m (sy_db s) = (Ok a, c') /\ s' = with_db c' s.
Proof. unfold of_db. destruct (m (sy_db s)) as [r c']. intros [= -> <-]. eauto. Qed.

Lemma attempt_Ok {T A} `{Panics E} (m : sys T E A) s r s' : attempt m s = (Ok r, s') -> m s = (r, s').
Proof. unfold attempt. destruct (m s) as [[a|e] s1]; [|destruct (uncaught e)]; by intros [= <- ->]. Qed.

Lemma attempt_Err {T A} `{Panics E} (m : sys T E A) s e s' : attempt m s = (Err e, s') -> m s = (Err e, s') /\ uncaught e = true.
Proof. unfold attempt. destruct (m s) as [[a|e1] s1]; [done|]. destruct (uncaught e1) eqn:Hp; [|done]. by intros [= <- ->]. Qed.

Lemma caught_Ok {T A} `{Panics E} (m : sys T E A) s r s' : caught m s = (Ok r, s') -> m s = (r, s').
Proof. unfold caught. destruct (m s) as [[a|e] s1]; [|destruct (never_returns e)]; by intros [= <- ->]. Qed.

Lemma caught_Err {T A} `{Panics E} (m : sys T E A) s e s' : caught m s = (Err e, s') -> m s = (Err e, s') /\ never_returns e = true.
Proof. unfold caught. destruct (m s) as [[a|e1] s1]; [done|]. destruct (never_returns e1) eqn:Hp; [|done]. by intros [= <- ->]. Qed.

(** ** Programs that return, and do not panic *)

Definition steady {T A} `{Panics E} (m : sys T E A) : Prop := forall s e s', m s = (Err e, s') -> uncaught e = false.

(** A match on the result of such a program always sees it. *)
Lemma attempt_steady {T A} `{Panics E} (m : sys T E A) s : steady m -> attempt m s = (Ok (m s).1, (m s).2).
Proof. intros Hm. specialize (Hm s). unfold attempt. destruct (m s) as [[a|e] s']; [done|]. by rewrite (Hm _ _ eq_refl). Qed.

Section Steady.
Context {T E : Type} `{Panics E}.

Lemma steady_bind {A B} (m : sys T E A) (k : A -> sys T E B) : steady m -> (forall a, steady (k a)) -> steady (sbind m k).
Proof. intros Hm Hk s e s' [E1|(a & s1 & _ & E1)]%sbind_Err; [by eapply Hm|by eapply Hk]. Qed.
Lemma steady_attempt {A} (m : sys T E A) : steady m -> steady (attempt m).
Proof. intros Hm s e s' [E1 _]%attempt_Err. by eapply Hm. Qed.
(** A match on the result sees no panic. *)
Lemma steady_attempt_bind {A B} (m : sys T E A) (k : result E A -> sys T E B) :
  steady m -> (forall r, (forall e, r = Err e -> uncaught e = false) -> steady (k r)) -> steady (sbind (attempt m) k).
Proof.
  intros Hm Hk s e s' [[E1 _]%attempt_Err|(r & s1 & E1%attempt_Ok & E2)]%sbind_Err; [by eapply Hm|].
  eapply Hk, E2. intros e1 ->. by eapply Hm.
Qed.
Lemma steady_caught {A} (m : sys T E A) : steady m -> steady (caught m).
Proof. intros Hm s e s' [E1 _]%caught_Err. by eapply Hm. Qed.
Lemma steady_result {A} (r : result E A) : (forall e, r = Err e -> uncaught e = false) -> steady (T := T) (of_result r).
Proof. intros Hr s e s' [= -> ->]. by apply Hr. Qed.
Lemma steady_ret {A} (a : A) : steady (T := T) (sret a).
Proof. by intros s e s'. Qed.
Lemma steady_fail {A} (e : E) : uncaught e = false -> steady (T := T) (sfail (A := A) e).
Proof. by intros He s e' s' [= <- <-]. Qed.
Lemma steady_ok_or {A} (e : E) (o : option A) : uncaught e = false -> steady (T := T) (of_result (ok_or e o)).
Proof. intros He. destruct o; [apply steady_ret|by apply steady_fail]. Qed.
Lemma steady_at_tick {A} (f : nat -> A) : steady (T := T) (at_tick f).
Proof. by intros s e s'. Qed.
Lemma steady_sleep ms : steady (T := T) (sleep ms).
Proof. by intros s e s'. Qed.
Lemma steady_audit a : steady (T := T) (log_audit_event a).
Proof. by intros s e s'. Qed.
Lemma steady_io {X A} (f : X -> E) (m : io (result X A)) :
  (forall x, uncaught (f x) = false) -> steady (T := T) (of_io (io_map (map_err f) m)).
Proof. intros Hf s e s'. unfold of_io, io_map. destruct (m (sy_fs s)) as [[a|x] w]; intros [= <- <-]; apply Hf. Qed.
Lemma steady_io_Ok {A} (m : io A) : steady (T := T) (of_io (io_map Ok m)).
Proof. intros s e s'. unfold of_io, io_map. by destruct (m (sy_fs s)). Qed.
Lemma steady_db {X A} (f : X -> E) (m : db T X A) :
  (forall x, uncaught (f x) = false) -> steady (of_db (fun c => let '(r, c') := m c in (map_err f r, c'))).
Proof. intros Hf s e s'. unfold of_db. destruct (m (sy_db s)) as [[a|x] c]; intros [= <- <-]; apply Hf. Qed.
End Steady.

Create HintDb steady.
#[global] Hint Resolve steady_ret steady_at_tick steady_sleep steady_audit steady_io_Ok : steady.
#[global] Hint Extern 1 (steady (sfail _)) => apply steady_fail; auto : steady.
#[global] Hint Extern 1 (steady (of_result (ok_or _ _))) => apply steady_ok_or; done : steady.
#[global] Hint Extern 1 (steady (of_io (io_map (map_err _) _))) => apply steady_io; done : steady.

Ltac steady_tac :=
  repeat (cbn zeta;
    lazymatch goal with
    | |- steady (if ?b then _ else _) => destruct b
    | |- steady (match ?x with _ => _ end) => destruct x
    | |- steady (sbind (attempt _) _) => apply steady_attempt_bind; [|intros ? ?]
    | |- steady (sbind _ _) => apply steady_bind; [|intros ?]
    | |- steady (attempt _) => apply steady_attempt
    | |- _ => solve [auto with steady]
    end).

(** ** Properties that programs keep *)

Section Keeps.
Context {T : Type} (P : system T -> Prop).

Definition keeps {E A} (m : sys T E A) : Prop := forall s, P s -> P (m s).2.

(** The property survives everything but statements of the database. *)
Class Framed : Prop := {
  framed_fs s w : P s -> P (with_fs w s);
  framed_request s a : P s -> P (Sys (sy_fs s) (sy_db s) (a :: sy_sent s) (sy_slept s) (sy_audit s));
  framed_sleep s ms : P s -> P (Sys (sy_fs s) (sy_db s) (sy_sent s) (ms :: sy_slept s) (sy_audit s));
  framed_audit s e : P s -> P (Sys (sy_fs s) (sy_db s) (sy_sent s) (sy_slept s) (e :: sy_audit s));
}.

Lemma keeps_bind {E A B} (m : sys T E A) (k : A -> sys T E B) :
  keeps m -> (forall a, keeps (k a)) -> keeps (sbind m k).
Proof. intros Hm Hk s Hs. specialize (Hm s Hs). unfold sbind. destruct (m s) as [[a|e] s']; [by apply Hk|done]. Qed.
(** The continuation need only keep [P] for values the program returns. *)
Lemma keeps_bind_val {E A B} (m : sys T E A) (k : A -> sys T E B) :
  keeps m -> (forall s a s1, m s = (Ok a, s1) -> keeps (k a)) -> keeps (sbind m k).
Proof.
  intros Hm Hk s Hs. specialize (Hm s Hs). unfold sbind. destruct (m s) as [[a|e] s'] eqn:E1; [|done].
  by apply (Hk _ _ _ E1).
Qed.
Lemma keeps_attempt `{Panics E} {A} (m : sys T E A) : keeps m -> keeps (attempt m).
Proof. intros Hm s Hs. specialize (Hm s Hs). unfold attempt. destruct (m s) as [[a|e] s']; [done|]. by destruct (uncaught e). Qed.
Lemma keeps_caught `{Panics E} {A} (m : sys T E A) : keeps m -> keeps (caught m).
Proof. intros Hm s Hs. specialize (Hm s Hs). unfold caught. destruct (m s) as [[a|e] s']; [done|]. by destruct (never_returns e). Qed.
Lemma keeps_result {E A} (r : result E A) : keeps (of_result r).
Proof. by intros s. Qed.
Lemma keeps_ret {E A} (a : A) : keeps (sret (E := E) a).
Proof. by intros s. Qed.
Lemma keeps_fail {E A} (e : E) : keeps (sfail (A := A) e).
Proof. by intros s. Qed.
Lemma keeps_at_tick {E A} (f : nat -> A) : keeps (at_tick (E := E) f).
Proof. by intros s. Qed.

Context {F : Framed}.

Lemma keeps_io {E A} (m : io (result E A)) : keeps (of_io m).
Proof. intros s Hs. unfold of_io. destruct (m (sy_fs s)). by apply framed_fs. Qed.
Lemma keeps_sleep {E} ms : keeps (sleep (E := E) ms).
Proof. intros s. apply framed_sleep. Qed.
Lemma keeps_audit {E} e : keeps (log_audit_event (E := E) e).
Proof. intros s. apply framed_audit. Qed.
End Keeps.

(** Properties of the connection. *)
#[global] Instance framed_db {T} (Q : conn T -> Prop) : Framed (fun s => Q (sy_db s)).
Proof. by split. Qed.

(** Properties of the requests that more requests do not undo. *)
Class Growing (Q : list string -> Prop) : Prop := growing : forall a l, Q l -> Q (a :: l).
#[global] Instance framed_sent {T} Q `{Growing Q} : Framed (fun s : system T => Q (sy_sent s)).
Proof. split; try done. intros s a. apply growing. Qed.

(** Since the requests were [l0], one for the address [a] was sent. *)
Definition asked (l0 : list string) (a : string) (l : list string) : Prop := exists new, l = new ++ l0 /\ a ∈ new.
#[global] Instance growing_asked l0 a : Growing (asked l0 a).
Proof. intros b l (new & -> & Ha). exists (b :: new). split; [done|by right]. Qed.
#[global] Instance growing_suffix l0 : Growing (suffix l0).
Proof. intros b l [new ->]. by exists (b :: new). Qed.

Lemma asked_before l0 l1 a l : l0 `suffix_of` l1 -> asked l1 a l -> asked l0 a l.
Proof. intros [k ->] (new & -> & Ha). exists (new ++ k). rewrite <- app_assoc. split; [done|]. set_solver. Qed.

Abbreviation db_respects Q := (keeps (fun s => Q (sy_db s))).

Lemma keeps_db {T E A} (Q : conn T -> Prop) (m : db T E A) : (forall c, Q c -> Q (m c).2) -> db_respects Q (of_db m).
Proof. intros Hm s Hs. specialize (Hm _ Hs). unfold of_db. by destruct (m (sy_db s)). Qed.

Create HintDb keeps.
#[global] Hint Resolve keeps_io keeps_result keeps_ret keeps_fail keeps_sleep keeps_audit keeps_at_tick : keeps.
#[global] Hint Extern 1 (Framed _) => apply _ : keeps.

Ltac keeps_tac :=
  repeat (cbn zeta;
    lazymatch goal with
    | |- keeps _ (if ?b then _ else _) => destruct b
    | |- keeps _ (match ?x with _ => _ end) => destruct x
    | |- keeps _ (sbind _ _) => apply keeps_bind; [|intros ?]
    | |- keeps _ (attempt _) => apply keeps_attempt
    | |- keeps _ (caught _) => apply keeps_caught
    | |- _ => solve [auto with keeps]
    end).
