(* ===== verification/PublisherDb.v ===== *)
(** * PublisherDb: the publisher's database ([deltaship-db/src/publisher.rs])

    The tables of the publisher, with the constraints of [schema.rs], and the
    operations of [PublisherDb].  [now] is [CURRENT_TIMESTAMP], [id] the UUID an
    insertion draws; SQLite's [datetime] is a parameter.  The two operations that
    also look at files, [insert_binary] and [find_orphaned_diff_files], run on a
    file system and a connection. *)

From S2P Require Import Prelude Text Version Validation RateLimit Fs Storage Admin DbModels Sql System.

#[local] Open Scope Z_scope.
#[local] Open Scope db_scope.

(** ** The tables *)

Record publisher_tables := {
  pt_created : gset string;
  pt_schema_version : list Z;
  pt_config : gmap string (string * bool * string);   (** value, [is_secret], [updated_at] *)
  pt_binaries : list DbBinary;
  pt_versions : list DbVersion;
  pt_jobs : list DbDiffJob;
}.

Definition empty_publisher : publisher_tables := {|
  pt_created := ∅; pt_schema_version := []; pt_config := ∅; pt_binaries := []; pt_versions := []; pt_jobs := [];
|}.

Definition p_with_created (f : gset string -> gset string) (t : publisher_tables) : publisher_tables := {|
  pt_created := f (pt_created t); pt_schema_version := pt_schema_version t; pt_config := pt_config t;
  pt_binaries := pt_binaries t; pt_versions := pt_versions t; pt_jobs := pt_jobs t;
|}.
Definition p_with_schema_version (v : list Z) (t : publisher_tables) : publisher_tables := {|
  pt_created := pt_created t; pt_schema_version := v; pt_config := pt_config t;
  pt_binaries := pt_binaries t; pt_versions := pt_versions t; pt_jobs := pt_jobs t;
|}.
Definition p_with_config (v : gmap string (string * bool * string)) (t : publisher_tables) : publisher_tables := {|
  pt_created := pt_created t; pt_schema_version := pt_schema_version t; pt_config := v;
  pt_binaries := pt_binaries t; pt_versions := pt_versions t; pt_jobs := pt_jobs t;
|}.
Definition with_binaries (v : list DbBinary) (t : publisher_tables) : publisher_tables := {|
  pt_created := pt_created t; pt_schema_version := pt_schema_version t; pt_config := pt_config t;
  pt_binaries := v; pt_versions := pt_versions t; pt_jobs := pt_jobs t;
|}.
Definition with_versions (v : list DbVersion) (t : publisher_tables) : publisher_tables := {|
  pt_created := pt_created t; pt_schema_version := pt_schema_version t; pt_config := pt_config t;
  pt_binaries := pt_binaries t; pt_versions := v; pt_jobs := pt_jobs t;
|}.
Definition with_jobs (v : list DbDiffJob) (t : publisher_tables) : publisher_tables := {|
  pt_created := pt_created t; pt_schema_version := pt_schema_version t; pt_config := pt_config t;
  pt_binaries := pt_binaries t; pt_versions := pt_versions t; pt_jobs := v;
|}.

Definition p_on {A} (name : string) (f : publisher_tables -> result SqlxError A) (t : publisher_tables)
    : result SqlxError A :=
  if bool_decide (name ∈ pt_created t) then f t else Err (no_such_table name).

(** ** Schema initialisation *)

Definition PUBLISHER_SCHEMA_VERSION : Z := 1.

Definition p_create_table (name : string) : db publisher_tables SqlxError unit :=
  exec (fun t => Ok (tt, p_with_created (fun X => {[name]} ∪ X) t)).
Definition p_create_index (name : string) : db publisher_tables SqlxError unit :=
  exec (p_on name (fun t => Ok (tt, t))).

Definition default_publisher_config : list (string * (string * bool)) :=
  [("server_url", ("https://updates.example.com", false)); ("publisher_name", ("", false));
   ("api_key", ("", true)); ("public_key_path", (".deltaship/keys/public.key", false));
   ("private_key_path", (".deltaship/keys/private.key", true))].

Definition p_insert_default_config (now : string) : db publisher_tables SqlxError unit :=
  exec (p_on "publisher_config" (fun t =>
    Ok (tt, p_with_config (pt_config t ∪ ((fun v => (v, now)) <$> list_to_map default_publisher_config)) t))).

(** The tables and defaults of a new database. *)
Definition p_create_schema (now : string) : db publisher_tables DbError unit :=
  q (exec (p_on "schema_version" (fun t =>
       Ok (tt, p_with_schema_version
                 (if bool_decide (1 ∈ pt_schema_version t) then pt_schema_version t
                  else pt_schema_version t ++ [1]) t)))) ;;?
  q (p_create_table "publisher_config") ;;?
  q (p_insert_default_config now) ;;?
  q (p_create_table "binaries") ;;?
  q (p_create_index "binaries") ;;?
  q (p_create_table "versions") ;;?
  q (p_create_index "versions") ;;?
  q (p_create_table "diff_jobs") ;;?
  q (p_create_index "diff_jobs") ;;?
  q commit_tx ;;? dret tt.

(** The transaction of [init]. *)
Definition p_init_schema (now : string) : db publisher_tables DbError unit :=
  q (p_create_table "schema_version") ;;?
  existing_version ←? q (query (p_on "schema_version" (fun t => Ok (max_version (pt_schema_version t)))));
  match existing_version with
  | Some version =>
      if PUBLISHER_SCHEMA_VERSION <? version then q rollback_tx ;;? dlift (Err DbSchemaMismatch)
      else if version =? PUBLISHER_SCHEMA_VERSION then q rollback_tx ;;? dlift (Ok tt)
      else if version <? PUBLISHER_SCHEMA_VERSION then q rollback_tx ;;? dlift (Err DbSchemaMismatch)
      else p_create_schema now
  | None => p_create_schema now
  end.

Definition p_init (integrity : string) (now : string) : db publisher_tables DbError unit :=
  answer ←? q (query (fun _ => Ok integrity));
  if negb (bool_decide (answer = "ok")) then dfail DbInvalidData
  else in_tx (p_init_schema now).

(** ** Configuration *)

Definition p_get_config (key : string) : db publisher_tables DbError (option string) :=
  q (query (p_on "publisher_config" (fun t => Ok (option_map (fun r => r.1.1) (pt_config t !! key))))).

(** A new key is not secret; an existing key keeps its flag. *)
Definition p_set_config (now key value : string) : db publisher_tables DbError unit :=
  q (exec (p_on "publisher_config" (fun t =>
    let secret := match pt_config t !! key with Some (_, s, _) => s | None => false end in
    Ok (tt, p_with_config (<[key := (value, secret, now)]> (pt_config t)) t)))).

(** ** Versions *)

Definition is_binary (id : string) (b : DbBinary) : bool := bool_decide (b_binary_id b = id).
Definition has_version_id (id : string) (v : DbVersion) : bool := bool_decide (v_version_id v = id).

Definition p_get_binary (binary_id : string) : db publisher_tables DbError (option DbBinary) :=
  q (query (p_on "binaries" (fun t => Ok (seek (is_binary binary_id) (pt_binaries t))))).

Definition p_get_binary_by_name (binary_name platform : string) : db publisher_tables DbError (option DbBinary) :=
  q (query (p_on "binaries" (fun t => Ok (seek (fun b =>
    bool_decide (b_binary_name b = binary_name) && bool_decide (b_platform b = platform)) (pt_binaries t))))).

Definition get_version (version_id : string) : db publisher_tables DbError (option DbVersion) :=
  q (query (p_on "versions" (fun t => Ok (seek (has_version_id version_id) (pt_versions t))))).

Definition get_version_by_string (binary_id version_string : string)
    : db publisher_tables DbError (option DbVersion) :=
  q (query (p_on "versions" (fun t => Ok (seek (fun v =>
    bool_decide (v_binary_id v = binary_id) && bool_decide (v_version_string v = version_string)) (pt_versions t))))).

(** The row of [INSERT INTO versions], with the column defaults. *)
Definition new_version (now id normalized_version : string) (v : NewVersion) : DbVersion := {|
  v_version_id := id; v_binary_id := nv_binary_id v; v_version_string := normalized_version;
  v_file_path := nv_file_path v; v_file_size_bytes := nv_file_size_bytes v;
  v_file_hash_blake3 := nv_file_hash_blake3 v; v_file_hash_sha256 := nv_file_hash_sha256 v;
  v_signature_ed25519 := None; v_signature_timestamp := None; v_registered_at := None;
  v_published_at := None; v_is_published := false; v_created_at := now;
|}.

(** The [CHECK] of the table: published versions have a time. *)
Definition published_check (v : DbVersion) : bool := Bool.eqb (v_is_published v) (bool_decide (is_Some (v_published_at v))).

Definition insert_version_row (row : DbVersion) (t : publisher_tables) : result SqlxError (unit * publisher_tables) :=
  _ ← require (published_check row) (check_failed "versions");
  _ ← require (negb (existsb (has_version_id (v_version_id row)) (pt_versions t)))
        (unique_failed "versions.version_id");
  _ ← require (negb (existsb (fun v => bool_decide (v_binary_id v = v_binary_id row) &&
                                       bool_decide (v_version_string v = v_version_string row)) (pt_versions t)))
        (unique_failed "versions.binary_id, versions.version_string");
  _ ← require (existsb (is_binary (v_binary_id row)) (pt_binaries t)) foreign_key_failed;
  Ok (tt, with_versions (pt_versions t ++ [row]) t).

Definition insert_version `{Semver} (now id : string) (version : NewVersion) : db publisher_tables DbError DbVersion :=
  dlift (validate_hash_size (nv_file_hash_blake3 version) BLAKE3_HASH_SIZE) ;;?
  dlift (validate_hash_size (nv_file_hash_sha256 version) SHA256_HASH_SIZE) ;;?
  normalized_version ←? dlift (normalize_version_string (nv_version_string version));
  q (exec (p_on "versions" (insert_version_row (new_version now id normalized_version version)))) ;;?
  found ←? get_version id;
  dlift (ok_or DbNotFound found).

(** An [UPDATE versions .. WHERE version_id = ?]; the number of rows. *)
Definition update_version (version_id : string) (g : DbVersion -> DbVersion) (t : publisher_tables)
    : result SqlxError (Z * publisher_tables) :=
  let rows := update_rows (has_version_id version_id) g (pt_versions t) in
  _ ← require (forallb published_check rows) (check_failed "versions");
  Ok (count_rows (has_version_id version_id) (pt_versions t), with_versions rows t).

Definition sign_version (signature : bytes) (timestamp : string) (v : DbVersion) : DbVersion := {|
  v_version_id := v_version_id v; v_binary_id := v_binary_id v; v_version_string := v_version_string v;
  v_file_path := v_file_path v; v_file_size_bytes := v_file_size_bytes v;
  v_file_hash_blake3 := v_file_hash_blake3 v; v_file_hash_sha256 := v_file_hash_sha256 v;
  v_signature_ed25519 := Some signature; v_signature_timestamp := Some timestamp;
  v_registered_at := v_registered_at v; v_published_at := v_published_at v;
  v_is_published := v_is_published v; v_created_at := v_created_at v;
|}.

Definition set_version_signature (version_id : string) (signature : bytes) (timestamp : string)
    : db publisher_tables DbError unit :=
  n ←? q (exec (p_on "versions" (update_version version_id (sign_version signature timestamp))));
  found_rows n.

Definition mark_published (at_ : option string) (v : DbVersion) : DbVersion := {|
  v_version_id := v_version_id v; v_binary_id := v_binary_id v; v_version_string := v_version_string v;
  v_file_path := v_file_path v; v_file_size_bytes := v_file_size_bytes v;
  v_file_hash_blake3 := v_file_hash_blake3 v; v_file_hash_sha256 := v_file_hash_sha256 v;
  v_signature_ed25519 := v_signature_ed25519 v; v_signature_timestamp := v_signature_timestamp v;
  v_registered_at := v_registered_at v; v_published_at := at_;
  v_is_published := bool_decide (is_Some at_); v_created_at := v_created_at v;
|}.

Definition set_version_published (now version_id : string) : db publisher_tables DbError unit :=
  n ←? q (exec (p_on "versions" (update_version version_id (mark_published (Some now)))));
  found_rows n.

Definition set_version_unpublished (version_id : string) : db publisher_tables DbError unit :=
  n ←? q (exec (p_on "versions" (update_version version_id (mark_published None))));
  found_rows n.

Definition rehash_version (blake3 sha256 : bytes) (size : Z) (v : DbVersion) : DbVersion := {|
  v_version_id := v_version_id v; v_binary_id := v_binary_id v; v_version_string := v_version_string v;
  v_file_path := v_file_path v; v_file_size_bytes := size;
  v_file_hash_blake3 := blake3; v_file_hash_sha256 := sha256;
  v_signature_ed25519 := v_signature_ed25519 v; v_signature_timestamp := v_signature_timestamp v;
  v_registered_at := v_registered_at v; v_published_at := v_published_at v;
  v_is_published := v_is_published v; v_created_at := v_created_at v;
|}.

Definition update_version_hashes (version_id : string) (blake3_hash sha256_hash : bytes) (file_size_bytes : Z)
    : db publisher_tables DbError unit :=
  dlift (validate_hash_size blake3_hash BLAKE3_HASH_SIZE) ;;?
  dlift (validate_hash_size sha256_hash SHA256_HASH_SIZE) ;;?
  n ←? q (exec (p_on "versions" (update_version version_id (rehash_version blake3_hash sha256_hash file_size_bytes))));
  found_rows n.

(** ** Listings *)

Section Listings.
Context {SO : SqlOrder}.

Definition p_list_binaries : db publisher_tables DbError (list DbBinary) :=
  q (query (p_on "binaries" (fun t => Ok (order_by Asc b_binary_name (pt_binaries t))))).

Definition p_list_binaries_paginated (lim off : Z) : db publisher_tables DbError (list DbBinary) :=
  if lim <=? 0 then dfail DbInvalidData
  else if off <? 0 then dfail DbInvalidData
  else q (query (p_on "binaries" (fun t => Ok (limit lim (offset off (order_by Asc b_binary_name (pt_binaries t))))))).

Definition versions_desc (binary_id : string) (t : publisher_tables) : list DbVersion :=
  order_by Desc v_created_at (List.filter (fun v => bool_decide (v_binary_id v = binary_id)) (pt_versions t)).

Definition list_versions (binary_id : string) : db publisher_tables DbError (list DbVersion) :=
  q (query (p_on "versions" (fun t => Ok (versions_desc binary_id t)))).

Definition list_versions_paginated (binary_id : string) (lim off : Z) : db publisher_tables DbError (list DbVersion) :=
  if lim <=? 0 then dfail DbInvalidData
  else if off <? 0 then dfail DbInvalidData
  else q (query (p_on "versions" (fun t => Ok (limit lim (offset off (versions_desc binary_id t)))))).

Definition list_diff_jobs_by_status (status : DiffJobStatus) : db publisher_tables DbError (list DbDiffJob) :=
  q (query (p_on "diff_jobs" (fun t =>
    Ok (order_by Asc j_created_at
          (List.filter (fun j => bool_decide (j_status j = job_status_as_str status)) (pt_jobs t)))))).
End Listings.

(** ** Diff jobs *)

Definition is_job (id : string) (j : DbDiffJob) : bool := bool_decide (j_job_id j = id).

Definition get_diff_job (job_id : string) : db publisher_tables DbError (option DbDiffJob) :=
  q (query (p_on "diff_jobs" (fun t => Ok (seek (is_job job_id) (pt_jobs t))))).

Definition new_job (now id : string) (job : NewDiffJob) : DbDiffJob := {|
  j_job_id := id; j_from_version_id := nj_from_version_id job; j_to_version_id := nj_to_version_id job;
  j_diff_algorithm := nj_diff_algorithm job; j_status := "pending"; j_diff_path := None;
  j_diff_size_bytes := None; j_diff_hash_blake3 := None; j_computation_time_ms := None;
  j_error_message := None; j_created_at := now; j_started_at := None; j_completed_at := None;
|}.

(** The columns of [UNIQUE (from_version_id, to_version_id, diff_algorithm)]. *)
Definition job_key (j : DbDiffJob) : string * string * string :=
  (j_from_version_id j, j_to_version_id j, j_diff_algorithm j).
Definition new_job_key (j : NewDiffJob) : string * string * string :=
  (nj_from_version_id j, nj_to_version_id j, nj_diff_algorithm j).

Definition insert_job_row (row : DbDiffJob) (t : publisher_tables) : result SqlxError (unit * publisher_tables) :=
  _ ← require (negb (existsb (is_job (j_job_id row)) (pt_jobs t))) (unique_failed "diff_jobs.job_id");
  _ ← require (negb (existsb (fun j => bool_decide (job_key j = job_key row)) (pt_jobs t)))
        (unique_failed "diff_jobs.from_version_id, diff_jobs.to_version_id, diff_jobs.diff_algorithm");
  _ ← require (existsb (has_version_id (j_from_version_id row)) (pt_versions t) &&
               existsb (has_version_id (j_to_version_id row)) (pt_versions t)) foreign_key_failed;
  Ok (tt, with_jobs (pt_jobs t ++ [row]) t).

(** The checks both insertions start with. *)
Definition check_job (job : NewDiffJob) : db publisher_tables DbError unit :=
  from_version ←? get_version (nj_from_version_id job);
  from_version ←? dlift (ok_or DbNotFound from_version);
  to_version ←? get_version (nj_to_version_id job);
  to_version ←? dlift (ok_or DbNotFound to_version);
  if negb (bool_decide (v_binary_id from_version = v_binary_id to_version)) then dfail DbInvalidData
  else dlift (validate_diff_algorithm (nj_diff_algorithm job)).

Definition insert_diff_job (now id : string) (job : NewDiffJob) : db publisher_tables DbError DbDiffJob :=
  check_job job ;;?
  q (exec (p_on "diff_jobs" (insert_job_row (new_job now id job)))) ;;?
  found ←? get_diff_job id;
  dlift (ok_or DbNotFound found).

(** [sqlx::Error::Database(e) if e.is_unique_violation()]. *)
Definition is_unique_violation (e : SqlxError) : bool :=
  match e with SqlxDatabase msg => contains_str "UNIQUE constraint failed" msg | _ => false end.

Definition insert_or_get_diff_job (now id : string) (job : NewDiffJob) : db publisher_tables DbError DbDiffJob :=
  check_job job ;;?
  (fun c =>
     let '(insert_result, c') := exec (p_on "diff_jobs" (insert_job_row (new_job now id job))) c in
     match insert_result with
     | Ok _ =>
         (found ←? get_diff_job id;
          dlift (ok_or DbNotFound found)) c'
     | Err e =>
         if is_unique_violation e then
           (existing_job ←? q (query (p_on "diff_jobs" (fun t =>
                Ok (seek (fun j => bool_decide (job_key j = new_job_key job)) (pt_jobs t)))));
            dlift (ok_or DbNotFound existing_job)) c'
         else (Err (from_sqlx e), c')
     end).

Definition update_job (job_id : string) (g : DbDiffJob -> DbDiffJob) (t : publisher_tables)
    : result SqlxError (Z * publisher_tables) :=
  Ok (count_rows (is_job job_id) (pt_jobs t), with_jobs (update_rows (is_job job_id) g (pt_jobs t)) t).

Definition start_job (now : string) (j : DbDiffJob) : DbDiffJob := {|
  j_job_id := j_job_id j; j_from_version_id := j_from_version_id j; j_to_version_id := j_to_version_id j;
  j_diff_algorithm := j_diff_algorithm j; j_status := "running"; j_diff_path := j_diff_path j;
  j_diff_size_bytes := j_diff_size_bytes j; j_diff_hash_blake3 := j_diff_hash_blake3 j;
  j_computation_time_ms := j_computation_time_ms j; j_error_message := j_error_message j;
  j_created_at := j_created_at j; j_started_at := Some now; j_completed_at := j_completed_at j;
|}.

Definition set_diff_job_running (now job_id : string) : db publisher_tables DbError unit :=
  n ←? q (exec (p_on "diff_jobs" (update_job job_id (start_job now))));
  found_rows n.

Definition complete_job (now diff_path : string) (size : Z) (hash : bytes) (ms : Z) (j : DbDiffJob) : DbDiffJob := {|
  j_job_id := j_job_id j; j_from_version_id := j_from_version_id j; j_to_version_id := j_to_version_id j;
  j_diff_algorithm := j_diff_algorithm j; j_status := "completed"; j_diff_path := Some diff_path;
  j_diff_size_bytes := Some size; j_diff_hash_blake3 := Some hash; j_computation_time_ms := Some ms;
  j_error_message := j_error_message j; j_created_at := j_created_at j; j_started_at := j_started_at j;
  j_completed_at := Some now;
|}.

Definition set_diff_job_completed (now job_id diff_path : string) (diff_size_bytes : Z)
    (diff_hash_blake3 : bytes) (computation_time_ms : Z) : db publisher_tables DbError unit :=
  dlift (validate_hash_size diff_hash_blake3 BLAKE3_HASH_SIZE) ;;?
  n ←? q (exec (p_on "diff_jobs"
         (update_job job_id (complete_job now diff_path diff_size_bytes diff_hash_blake3 computation_time_ms))));
  found_rows n.

Definition fail_job (now error_message : string) (j : DbDiffJob) : DbDiffJob := {|
  j_job_id := j_job_id j; j_from_version_id := j_from_version_id j; j_to_version_id := j_to_version_id j;
  j_diff_algorithm := j_diff_algorithm j; j_status := "failed"; j_diff_path := j_diff_path j;
  j_diff_size_bytes := j_diff_size_bytes j; j_diff_hash_blake3 := j_diff_hash_blake3 j;
  j_computation_time_ms := j_computation_time_ms j; j_error_message := Some error_message;
  j_created_at := j_created_at j; j_started_at := j_started_at j; j_completed_at := Some now;
|}.

Definition set_diff_job_failed (now job_id error_message : string) : db publisher_tables DbError unit :=
  n ←? q (exec (p_on "diff_jobs" (update_job job_id (fail_job now error_message))));
  found_rows n.

Definition reset_job (j : DbDiffJob) : DbDiffJob := {|
  j_job_id := j_job_id j; j_from_version_id := j_from_version_id j; j_to_version_id := j_to_version_id j;
  j_diff_algorithm := j_diff_algorithm j; j_status := "pending"; j_diff_path := j_diff_path j;
  j_diff_size_bytes := j_diff_size_bytes j; j_diff_hash_blake3 := j_diff_hash_blake3 j;
  j_computation_time_ms := j_computation_time_ms j;
  j_error_message := Some "Reset from stale running state"; j_created_at := j_created_at j;
  j_started_at := None; j_completed_at := j_completed_at j;
|}.

(** [datetime t modifier] is SQLite's function, [NULL] on what it cannot read. *)
Definition stale (datetime : string -> string -> option string) (now : string) (timeout_minutes : Z)
    (j : DbDiffJob) : bool :=
  bool_decide (j_status j = "running") &&
  match j_started_at j with
  | None => false
  | Some started =>
      match datetime started ("+" +:+ pretty timeout_minutes +:+ " minutes") with
      | Some deadline => text_lt deadline now
      | None => false
      end
  end.

Definition reset_stale_diff_jobs (datetime : string -> string -> option string) (now : string)
    (timeout_minutes : Z) : db publisher_tables DbError Z :=
  let p := stale datetime now timeout_minutes in
  q (exec (p_on "diff_jobs" (fun t =>
       Ok (count_rows p (pt_jobs t), with_jobs (update_rows p reset_job (pt_jobs t)) t)))).

(** ** Deletion *)

Definition delete_diff_job (job_id : string) : db publisher_tables DbError bool :=
  n ←? q (exec (p_on "diff_jobs" (fun t =>
         Ok (count_rows (is_job job_id) (pt_jobs t), with_jobs (delete_rows (is_job job_id) (pt_jobs t)) t))));
  dret (0 <? n).

(** The jobs from or to a version. *)
Definition touches (version_id : string) (j : DbDiffJob) : bool :=
  bool_decide (j_from_version_id j = version_id) || bool_decide (j_to_version_id j = version_id).

(** [ON DELETE CASCADE]: the jobs of the version go with it. *)
Definition delete_version_row (version_id : string) (t : publisher_tables) : result SqlxError (Z * publisher_tables) :=
  let n := count_rows (has_version_id version_id) (pt_versions t) in
  Ok (n, if n =? 0 then t
         else with_versions (delete_rows (has_version_id version_id) (pt_versions t))
             (with_jobs (delete_rows (touches version_id) (pt_jobs t)) t)).

Definition delete_version (version_id : string) : db publisher_tables DbError bool :=
  n ←? q (exec (p_on "versions" (delete_version_row version_id)));
  dret (0 <? n).

Definition delete_diff_jobs_for_version (version_id : string) : db publisher_tables DbError Z :=
  q (exec (p_on "diff_jobs" (fun t =>
       Ok (count_rows (touches version_id) (pt_jobs t), with_jobs (delete_rows (touches version_id) (pt_jobs t)) t)))).

(** ** Operations that also look at files *)


Definition new_binary (now id canonical_path : string) (b : NewBinary) : DbBinary := {|
  b_binary_id := id; b_binary_name := nb_binary_name b; b_platform := nb_platform b;
  b_binary_path := canonical_path; b_description := nb_description b; b_created_at := now; b_updated_at := now;
|}.

Definition insert_binary_row (row : DbBinary) (t : publisher_tables) : result SqlxError (unit * publisher_tables) :=
  _ ← require (negb (existsb (is_binary (b_binary_id row)) (pt_binaries t))) (unique_failed "binaries.binary_id");
  _ ← require (negb (existsb (fun b => bool_decide (b_binary_name b = b_binary_name row) &&
                                       bool_decide (b_platform b = b_platform row)) (pt_binaries t)))
        (unique_failed "binaries.binary_name, binaries.platform");
  Ok (tt, with_binaries (pt_binaries t ++ [row]) t).

Section Files.
#[local] Open Scope sys_scope.

Definition insert_binary (now id : string) (binary : NewBinary) : sys publisher_tables DbError DbBinary :=
  of_result (validate_platform (nb_platform binary)) ;;!
  found ←! of_io (io_map Ok (exists_ (nb_binary_path binary)));
  if negb found then sfail DbInvalidData
  else
    canonical_path ←! of_io (io_map (map_err (fun _ => DbInvalidData)) (canonicalize (nb_binary_path binary)));
    file ←! of_io (io_map Ok (is_file canonical_path));
    if negb file then sfail DbInvalidData
    else
      of_io (io_map (map_err (fun _ => DbInvalidData)) (open_existing canonical_path)) ;;!
      of_db (q (exec (p_on "binaries" (insert_binary_row (new_binary now id canonical_path binary))))) ;;!
      row ←! of_db (p_get_binary id);
      of_result (ok_or DbNotFound row).

(** The loop over the entries: directories are skipped, an entry that cannot be
    read ends it. *)
Fixpoint orphan_loop (known_files : gset string) (dir : string) (entries : list (result io_error string))
    (orphaned : list string) : sys publisher_tables DbError (list string) :=
  match entries with
  | [] => sret orphaned
  | Err _ :: _ => sfail DbIo
  | Ok name :: entries =>
      let path := join dir name in
      file ←! of_io (io_map Ok (is_file path));
      if negb file then orphan_loop known_files dir entries orphaned
      else orphan_loop known_files dir entries
             (if bool_decide (path ∈ known_files) then orphaned else orphaned ++ [path])
  end.

Definition find_orphaned_diff_files `{HashIter} (diff_directory : string) : sys publisher_tables DbError (list string) :=
  db_paths ←! of_db (q (query (p_on "diff_jobs" (fun t =>
    Ok (omap j_diff_path (List.filter (fun j => bool_decide (j_status j = "completed")) (pt_jobs t)))))));
  let known_files := list_to_set db_paths : gset string in
  present ←! of_io (io_map Ok (exists_ diff_directory));
  if negb present then sret []
  else
    entries ←! of_io (io_map (map_err (fun _ => DbIo)) (read_dir diff_directory));
    orphan_loop known_files diff_directory entries [].
End Files.
