(* ===== verification/PublisherDbFacts.v ===== *)
(** * PublisherDbFacts: what the publisher's database guarantees

    An invariant of the tables that every operation preserves under every
    schedule of faults; idempotent creation of diff jobs; recovery of stale jobs;
    and what deleting a version takes with it. *)

From S2P Require Import Prelude Text Version Validation RateLimit Fs Storage Admin DbModels Sql System PublisherDb.

#[local] Open Scope Z_scope.

(** ** The operations that change tables *)

Inductive publisher_op :=
| POpInit (integrity now : string)
| POpSetConfig (now key value : string)
| POpInsertBinary (w : world) (now id : string) (b : NewBinary)
| POpInsertVersion (now id : string) (v : NewVersion)
| POpSign (id : string) (signature : bytes) (timestamp : string)
| POpPublish (now id : string)
| POpUnpublish (id : string)
| POpRehash (id : string) (blake3 sha256 : bytes) (size : Z)
| POpInsertJob (now id : string) (j : NewDiffJob)
| POpInsertOrGetJob (now id : string) (j : NewDiffJob)
| POpRunning (now id : string)
| POpCompleted (now id path : string) (size : Z) (hash : bytes) (ms : Z)
| POpFailed (now id msg : string)
| POpResetStale (datetime : string -> string -> option string) (now : string) (minutes : Z)
| POpDeleteJob (id : string)
| POpDeleteVersion (id : string)
| POpDeleteJobs (version_id : string).

(** A program on files and the database, run with the files as they are then. *)
Definition with_files {T A} (w : world) (m : sys T DbError A) : db T DbError A := fun c =>
  let '(r, s) := m (Sys w c [] [] []) in (r, sy_db s).

Section Facts.
Context `{SL : SemverLaws}.

Definition run_publisher_op (o : publisher_op) : db publisher_tables DbError unit :=
  match o with
  | POpInit i now => p_init i now
  | POpSetConfig now k v => p_set_config now k v
  | POpInsertBinary w now id b => forget (with_files w (insert_binary now id b))
  | POpInsertVersion now id v => forget (insert_version now id v)
  | POpSign id s ts => set_version_signature id s ts
  | POpPublish now id => set_version_published now id
  | POpUnpublish id => set_version_unpublished id
  | POpRehash id h1 h2 n => update_version_hashes id h1 h2 n
  | POpInsertJob now id j => forget (insert_diff_job now id j)
  | POpInsertOrGetJob now id j => forget (insert_or_get_diff_job now id j)
  | POpRunning now id => set_diff_job_running now id
  | POpCompleted now id p n h ms => set_diff_job_completed now id p n h ms
  | POpFailed now id msg => set_diff_job_failed now id msg
  | POpResetStale dt now m => forget (reset_stale_diff_jobs dt now m)
  | POpDeleteJob id => forget (delete_diff_job id)
  | POpDeleteVersion id => forget (delete_version id)
  | POpDeleteJobs id => forget (delete_diff_jobs_for_version id)
  end.

Inductive publisher_reachable : conn publisher_tables -> Prop :=
| p_reach_new sched : publisher_reachable (Conn empty_publisher None sched)
| p_reach_op o c : publisher_reachable c -> publisher_reachable (run_publisher_op o c).2.

(** ** The invariant *)

Definition binary_key (b : DbBinary) : string * string := (b_binary_name b, b_platform b).
Definition version_key (v : DbVersion) : string * string := (v_binary_id v, v_version_string v).

Definition good_version (t : publisher_tables) (v : DbVersion) : Prop :=
  v_binary_id v ∈ b_binary_id <$> pt_binaries t /\ lenZ (v_file_hash_blake3 v) = 32 /\
  lenZ (v_file_hash_sha256 v) = 32 /\ normalized (v_version_string v) /\
  (v_is_published v = true <-> is_Some (v_published_at v)).

(** Both ends of a diff are versions of one binary. *)
Definition job_ends (t : publisher_tables) (j : DbDiffJob) : Prop :=
  exists v v', v ∈ pt_versions t /\ v' ∈ pt_versions t /\ v_version_id v = j_from_version_id j /\
    v_version_id v' = j_to_version_id j /\ v_binary_id v = v_binary_id v'.

Definition good_job_row (j : DbDiffJob) : Prop :=
  known_algorithm (j_diff_algorithm j) /\ (exists s, j_status j = job_status_as_str s) /\
  (j_status j = "running" -> is_Some (j_started_at j)) /\
  (j_status j = "completed" -> is_Some (j_diff_path j) /\ exists h, j_diff_hash_blake3 j = Some h /\ lenZ h = 32).

Record publisher_inv (t : publisher_tables) : Prop := {
  pinv_binary_id : NoDup (b_binary_id <$> pt_binaries t);
  pinv_binary_key : NoDup (binary_key <$> pt_binaries t);
  pinv_platform b : b ∈ pt_binaries t -> known_platform (b_platform b);
  pinv_version_id : NoDup (v_version_id <$> pt_versions t);
  pinv_version_key : NoDup (version_key <$> pt_versions t);
  pinv_version v : v ∈ pt_versions t -> good_version t v;
  pinv_job_id : NoDup (j_job_id <$> pt_jobs t);
  pinv_job_key : NoDup (job_key <$> pt_jobs t);
  pinv_job_ends j : j ∈ pt_jobs t -> job_ends t j;
  pinv_job j : j ∈ pt_jobs t -> good_job_row j;
}.

Abbreviation preserves := (keeps_inv publisher_inv).

Lemma p_on_Ok {A} name f t (a : A) : p_on name f t = Ok a -> f t = Ok a.
Proof. unfold p_on. by case_bool_decide. Qed.

Lemma p_preserves_on {A} (f : publisher_tables -> result SqlxError (A * publisher_tables)) name :
  (forall t a t', publisher_inv t -> f t = Ok (a, t') -> publisher_inv t') -> preserves (q (exec (p_on name f))).
Proof. intros Hf. apply preserves_exec. intros t a t' I H%p_on_Ok. eauto. Qed.

Lemma existsb_pair {A} (f g : A -> string) x y l :
  existsb (fun r => bool_decide (f r = x) && bool_decide (g r = y)) l = true <->
  (x, y) ∈ (fun r => (f r, g r)) <$> l.
Proof.
  rewrite existsb_exists, list_elem_of_fmap. setoid_rewrite andb_true_iff.
  setoid_rewrite bool_decide_eq_true. setoid_rewrite list_elem_of_In.
  split; [intros (r & Hr & <- & <-)|intros (r & [= -> ->] & Hr)]; eauto.
Qed.

(** ** The statements preserve the invariant *)

Lemma insert_binary_row_inv row t t' :
  publisher_inv t -> known_platform (b_platform row) ->
  insert_binary_row row t = Ok (tt, t') -> publisher_inv t'.
Proof.
  intros I Hp. unfold insert_binary_row. rewrite result_bind_Ok. intros ([] & H1%require_Ok & H2).
  rewrite result_bind_Ok in H2. destruct H2 as ([] & H2%require_Ok & [= <-]).
  apply negb_true_iff, not_true_iff_false in H1, H2. unfold is_binary in H1.
  rewrite existsb_key in H1. rewrite existsb_pair in H2.
  split; cbn; try apply I.
  - apply NoDup_snoc; [apply I|done].
  - apply NoDup_snoc; [apply I|done].
  - intros b [?| ->%list_elem_of_singleton]%elem_of_app; [by apply (pinv_platform _ I)|done].
  - intros v Hv. destruct (pinv_version _ I v Hv) as (Hb & ?). split; [|done].
    cbn. rewrite fmap_app. by apply elem_of_app; left.
Qed.

Lemma published_check_spec v :
  published_check v = true <-> (v_is_published v = true <-> is_Some (v_published_at v)).
Proof.
  unfold published_check. rewrite eqb_true_iff. case_bool_decide; destruct (v_is_published v); naive_solver.
Qed.

Lemma insert_version_row_inv row t t' :
  publisher_inv t -> lenZ (v_file_hash_blake3 row) = 32 -> lenZ (v_file_hash_sha256 row) = 32 ->
  normalized (v_version_string row) ->
  insert_version_row row t = Ok (tt, t') -> publisher_inv t'.
Proof.
  intros I Hh1 Hh2 Hn. unfold insert_version_row.
  rewrite result_bind_Ok. intros ([] & H0%require_Ok%published_check_spec & H).
  rewrite result_bind_Ok in H. destruct H as ([] & H1%require_Ok & H).
  rewrite result_bind_Ok in H. destruct H as ([] & H2%require_Ok & H).
  rewrite result_bind_Ok in H. destruct H as ([] & H3%require_Ok & [= <-]).
  apply negb_true_iff, not_true_iff_false in H1, H2. unfold has_version_id in H1. unfold is_binary in H3.
  rewrite existsb_key in H1. rewrite existsb_key in H3. rewrite existsb_pair in H2.
  split; cbn; try apply I.
  - apply NoDup_snoc; [apply I|done].
  - apply NoDup_snoc; [apply I|done].
  - intros v [Hv| ->%list_elem_of_singleton]%elem_of_app; [by apply (pinv_version _ I)|]. by split_and!.
  - intros j Hj. destruct (pinv_job_ends _ I j Hj) as (v & v' & ? & ? & ?). exists v, v'.
    cbn. rewrite !elem_of_app. naive_solver.
Qed.

(** Updates of versions that keep keys and texts. *)
Lemma update_version_inv id g t n t' :
  publisher_inv t ->
  (forall v, v_version_id (g v) = v_version_id v /\ version_key (g v) = version_key v /\
             (good_version t v -> lenZ (v_file_hash_blake3 (g v)) = 32 /\ lenZ (v_file_hash_sha256 (g v)) = 32)) ->
  update_version id g t = Ok (n, t') -> publisher_inv t'.
Proof.
  intros I Hg. unfold update_version. rewrite result_bind_Ok. intros ([] & Hc%require_Ok & [= _ <-]).
  rewrite forallb_forall in Hc. split; cbn; try apply I.
  - rewrite fmap_update_rows; [apply I|]. intros v. apply Hg.
  - rewrite fmap_update_rows; [apply I|]. intros v. apply Hg.
  - intros v' Hv'. assert (published_check v' = true) as Hp%published_check_spec by (by apply Hc, list_elem_of_In).
    apply elem_of_update_rows in Hv' as (v & Hv & ->). pose proof (pinv_version _ I v Hv) as Hgood.
    destruct (Hg v) as (_ & [= Hb Hs] & Hh). case_match; [|done].
    unfold good_version. cbn. rewrite Hb, Hs. destruct (Hh Hgood), Hgood as (? & _ & _ & ? & _). by split_and!.
  - intros j Hj. destruct (pinv_job_ends _ I j Hj) as (v & v' & Hv & Hv' & H1 & H2 & H3).
    exists (if has_version_id id v then g v else v), (if has_version_id id v' then g v' else v').
    destruct (Hg v) as (E1 & [= E2 _] & _), (Hg v') as (E1' & [= E2' _] & _).
    split_and!; [apply elem_of_update_rows; eauto..| | |]; repeat case_match; congruence.
Qed.

Lemma insert_job_row_inv row t t' :
  publisher_inv t -> good_job_row row -> job_ends t row ->
  insert_job_row row t = Ok (tt, t') -> publisher_inv t'.
Proof.
  intros I Hr He. unfold insert_job_row.
  rewrite result_bind_Ok. intros ([] & H1%require_Ok & H).
  rewrite result_bind_Ok in H. destruct H as ([] & H2%require_Ok & H).
  rewrite result_bind_Ok in H. destruct H as ([] & _ & [= <-]).
  apply negb_true_iff, not_true_iff_false in H1, H2. unfold is_job in H1.
  rewrite existsb_key in H1.
  split; cbn; try apply I.
  - apply NoDup_snoc; [apply I|done].
  - apply NoDup_snoc; [apply I|]. intros (j & E & Hj)%list_elem_of_fmap. apply H2, existsb_exists.
    exists j. split; [by apply list_elem_of_In|by apply bool_decide_eq_true].
  - intros j [Hj| ->%list_elem_of_singleton]%elem_of_app; [by apply (pinv_job_ends _ I)|done].
  - intros j [Hj| ->%list_elem_of_singleton]%elem_of_app; [by apply (pinv_job _ I)|done].
Qed.

(** Updates of jobs that keep keys. *)
Lemma update_jobs_inv p g t :
  publisher_inv t ->
  (forall j, j_job_id (g j) = j_job_id j /\ job_key (g j) = job_key j) ->
  (forall j, good_job_row j -> good_job_row (g j)) ->
  publisher_inv (with_jobs (update_rows p g (pt_jobs t)) t).
Proof.
  intros I Hk Hg. split; cbn; try apply I.
  - rewrite fmap_update_rows; [apply I|]. intros j. apply Hk.
  - rewrite fmap_update_rows; [apply I|]. intros j. apply Hk.
  - intros j' (j & Hj & ->)%elem_of_update_rows. pose proof (pinv_job_ends _ I j Hj) as He.
    case_match; [|done]. destruct (Hk j) as [_ [= E1 E2 _]]. unfold job_ends. by rewrite E1, E2.
  - intros j' (j & Hj & ->)%elem_of_update_rows. pose proof (pinv_job _ I j Hj). case_match; auto.
Qed.

Lemma delete_jobs_inv p t : publisher_inv t -> publisher_inv (with_jobs (delete_rows p (pt_jobs t)) t).
Proof.
  intros I. split; cbn; try apply I; try (apply NoDup_delete_rows; apply I).
  - intros j [Hj _]%elem_of_delete_rows. by apply (pinv_job_ends _ I).
  - intros j [Hj _]%elem_of_delete_rows. by apply (pinv_job _ I).
Qed.

Lemma delete_version_row_inv id t n t' :
  publisher_inv t -> delete_version_row id t = Ok (n, t') -> publisher_inv t'.
Proof.
  intros I. unfold delete_version_row. intros [= _ <-]. case_match; [done|].
  split; cbn; try apply I; try (apply NoDup_delete_rows; apply I).
  - intros v [Hv _]%elem_of_delete_rows. by apply (pinv_version _ I).
  - intros j [Hj Ht]%elem_of_delete_rows. destruct (pinv_job_ends _ I j Hj) as (v & v' & Hv & Hv' & H1 & H2 & H3).
    unfold touches in Ht. rewrite orb_false_iff, !bool_decide_eq_false in Ht.
    exists v, v'. cbn. rewrite !elem_of_delete_rows. unfold has_version_id. rewrite !bool_decide_eq_false.
    split_and!; try done; naive_solver congruence.
  - intros j [Hj _]%elem_of_delete_rows. by apply (pinv_job _ I).
Qed.

(** ** Every operation preserves the invariant *)

Lemma query_effect {A} (f : publisher_tables -> result SqlxError A) name :
  effect (q (query (p_on name f))) (fun t a t' => f t = Ok a /\ t' = t) same.
Proof.
  eapply effect_weaken; [apply effect_q, effect_query|..]; simpl.
  - by intros t a t' [H%p_on_Ok ->].
  - by intros ??? (? & _ & ->).
Qed.

(** What the checks of a new diff job establish; they change nothing. *)
Definition checked_job (job : NewDiffJob) (t : publisher_tables) : Prop :=
  known_algorithm (nj_diff_algorithm job) /\
  exists v v', v ∈ pt_versions t /\ v' ∈ pt_versions t /\ v_version_id v = nj_from_version_id job /\
    v_version_id v' = nj_to_version_id job /\ v_binary_id v = v_binary_id v'.

Lemma check_job_effect job : effect (check_job job) (fun t _ t' => t' = t /\ checked_job job t) same.
Proof.
  eapply effect_weaken.
  - eapply effect_bind; [apply query_effect|]. intros o. eapply effect_bind; [apply effect_lift|]. intros v.
    eapply effect_bind; [apply query_effect|]. intros o'. eapply effect_bind; [apply effect_lift|]. intros v'.
    instantiate (1 := fun v' t e t' => t' = t).
    instantiate (1 := fun v' t _ t' => t' = t /\ v_binary_id v = v_binary_id v' /\ known_algorithm (nj_diff_algorithm job)).
    case_bool_decide; cbn [negb]; [|by intros c Hc].
    eapply effect_weaken; [apply effect_lift|..]; [|by intros ??? [_ ->]].
    intros t [] t' [Ha%validate_diff_algorithm_Ok ->]. done.
  - intros t [] t' (o & t1 & [[= <-] ->] & v & t2 & [Hv%ok_or_Ok ->] & o' & t3 & [[= <-] ->] & v' & t4 &
      [Hv'%ok_or_Ok ->] & -> & Hb & Ha). split; [done|]. split; [done|].
    apply seek_Some in Hv as [? Hv%bool_decide_eq_true], Hv' as [? Hv'%bool_decide_eq_true].
    exists v, v'. by split_and!.
  - intros t e t' H. cbn in *. naive_solver.
Qed.

(** Reading a row back. *)
Lemma reread_effect {A} (f : publisher_tables -> result SqlxError (option A)) name e :
  effect (dbind (q (query (p_on name f))) (fun o => dlift (ok_or e o)))
    (fun t a t' => t' = t /\ f t = Ok (Some a)) same.
Proof.
  eapply effect_weaken; [eapply effect_bind; [apply query_effect|intros o; apply effect_lift]|..].
  - by intros t a t' (o & t1 & [Hf ->] & Ho%ok_or_Ok & ->); subst.
  - by intros t ? t' [->|(o & t1 & [_ ->] & _ & ->)].
Qed.

(** How the insertions of diff jobs change the tables. *)
Definition job_inserted (now id : string) (job : NewDiffJob) (t t' : publisher_tables) : Prop :=
  checked_job job t /\ insert_job_row (new_job now id job) t = Ok (tt, t').

Lemma insert_diff_job_effect now id job :
  effect (insert_diff_job now id job)
    (fun t j t' => job_inserted now id job t t' /\ seek (is_job id) (pt_jobs t') = Some j)
    (fun t _ t' => t' = t \/ job_inserted now id job t t').
Proof.
  eapply effect_weaken.
  - eapply effect_bind; [apply check_job_effect|]. intros u.
    eapply effect_bind; [apply effect_q, effect_exec|]. intros u'. apply reread_effect.
  - intros t j t' ([] & t1 & [-> Hc] & [] & t2 & H%p_on_Ok & -> & [= Hs]). done.
  - cbn. intros t e t' [->|([] & t1 & [-> Hc] & [(? & _ & ->)|([] & t2 & H%p_on_Ok & ->)])]; [by left..|by right].
Qed.

Lemma insert_or_get_effect now id job :
  effect (insert_or_get_diff_job now id job)
    (fun t j t' => checked_job job t /\
       ((job_inserted now id job t t' /\ seek (is_job id) (pt_jobs t') = Some j) \/
        (t' = t /\ seek (fun j => bool_decide (job_key j = new_job_key job)) (pt_jobs t) = Some j)))
    (fun t _ t' => t' = t \/ job_inserted now id job t t').
Proof.
  eapply effect_weaken.
  - eapply effect_bind; [apply check_job_effect|]. intros u.
    instantiate (1 := fun _ t _ t' => t' = t \/ insert_job_row (new_job now id job) t = Ok (tt, t')).
    instantiate (1 := fun _ t j t' =>
       (insert_job_row (new_job now id job) t = Ok (tt, t') /\ seek (is_job id) (pt_jobs t') = Some j) \/
       (t' = t /\ seek (fun j => bool_decide (job_key j = new_job_key job)) (pt_jobs t) = Some j)).
    intros c Hc. destruct (effect_exec (p_on "diff_jobs" (insert_job_row (new_job now id job))) c Hc) as [H1 H2].
    destruct (exec _ c) as [[[]|e] c'] eqn:E; cbn [fst snd] in *.
    + apply p_on_Ok in H2.
      destruct (reread_effect (fun t => Ok (seek (is_job id) (pt_jobs t))) "diff_jobs" DbNotFound c' H1) as [H3 H4].
      unfold get_diff_job. split; [done|]. destruct (dbind _ _ c') as [[j|e] c2]; cbn [fst snd] in *.
      * destruct H4 as [E4 [= H4]]. rewrite E4. by left.
      * right. by rewrite H4.
    + case_match; [|split; [done|by left]].
      destruct (reread_effect (fun t => Ok (seek (fun j => bool_decide (job_key j = new_job_key job)) (pt_jobs t)))
                  "diff_jobs" DbNotFound c' H1) as [H3 H4].
      split; [done|]. destruct (dbind _ _ c') as [[j|e'] c2]; cbn [fst snd] in *.
      * right. destruct H4 as [E4 [= H4]]. rewrite E4, H2. rewrite H2 in H4. done.
      * left. congruence.
  - intros t j t' ([] & t1 & [-> Hc] & H). unfold job_inserted. naive_solver.
  - unfold job_inserted. intros t e t' [->|([] & t1 & [-> Hc] & H)]; [by left|]. naive_solver.
Qed.

Lemma job_inserted_inv now id job t t' : publisher_inv t -> job_inserted now id job t t' -> publisher_inv t'.
Proof.
  intros I [(Ha & v & v' & H) Hi]. eapply insert_job_row_inv; [done|..|done].
  - split; [done|]. split; [by exists Pending|]. done.
  - by exists v, v'.
Qed.

Definition same_p_rows (t t' : publisher_tables) : Prop :=
  pt_binaries t' = pt_binaries t /\ pt_versions t' = pt_versions t /\ pt_jobs t' = pt_jobs t.

#[local] Instance same_p_rows_preorder : PreOrder same_p_rows.
Proof. split; [done|]. intros [] [] []; unfold same_p_rows; simpl; naive_solver. Qed.

Lemma metadata_p_inv t t' : publisher_inv t -> same_p_rows t t' -> publisher_inv t'.
Proof.
  destruct t, t'. unfold same_p_rows. simpl. intros [] (? & ? & ?). subst.
  split; simpl in *; try done; unfold good_version, job_ends in *; simpl in *; eauto.
Qed.

Lemma within_p_create name : within (q (p_create_table name)) (fun t _ t' => same_p_rows t t').
Proof. apply (within_rel_exec same_p_rows). by intros t a t' [= _ <-]. Qed.
Lemma within_p_index name : within (q (p_create_index name)) (fun t _ t' => same_p_rows t t').
Proof. apply (within_rel_exec same_p_rows). intros t a t' H%p_on_Ok. by simplify_eq. Qed.
Lemma within_p_defaults now : within (q (p_insert_default_config now)) (fun t _ t' => same_p_rows t t').
Proof. apply (within_rel_exec same_p_rows). intros t a t' H%p_on_Ok. by simplify_eq. Qed.

Lemma p_init_schema_rows now : closing_rel same_p_rows (p_init_schema now).
Proof.
  assert (forall r : result DbError unit,
    closing_rel same_p_rows (dbind (q rollback_tx) (fun _ => dlift r))) as Hroll.
  { intros r. eapply closing_weaken; [apply closing_rollback|]. naive_solver. }
  apply (closing_rel_bind same_p_rows); [apply within_p_create|]. intros _.
  apply (closing_rel_bind same_p_rows); [by apply (within_rel_query same_p_rows)|]. intros o.
  assert (closing_rel same_p_rows (p_create_schema now)) as Hfresh.
  { apply (closing_rel_bind same_p_rows);
      [apply (within_rel_exec same_p_rows); intros ??? E%p_on_Ok; by simplify_eq|intros _].
    do 8 (apply (closing_rel_bind same_p_rows); [auto using within_p_create, within_p_index, within_p_defaults|intros _]).
    eapply closing_weaken; [apply closing_commit|]. intros d t [] d' [_ ->]. by right. }
  destruct o; [|done]. repeat (case_match; [apply Hroll|]). done.
Qed.

Lemma p_init_preserves i now : preserves (p_init i now).
Proof.
  unfold p_init. apply preserves_bind; [apply preserves_query|]. intros ans.
  case_match; [apply preserves_fail|]. eapply preserves_same; [apply effect_in_tx, p_init_schema_rows|].
  intros t [] t' [->|Hr] I; [done|by eapply metadata_p_inv].
Qed.

(** Programs on files and the database. *)
Definition sys_preserves {A} (m : sys publisher_tables DbError A) : Prop :=
  forall s, tx (sy_db s) = None ->
    tx (sy_db (m s).2) = None /\ (publisher_inv (disk (sy_db s)) -> publisher_inv (disk (sy_db (m s).2))).

Lemma sys_preserves_bind {A B} (m : sys publisher_tables DbError A) (k : A -> sys publisher_tables DbError B) :
  sys_preserves m -> (forall a, sys_preserves (k a)) -> sys_preserves (sbind m k).
Proof.
  intros Hm Hk s Hs. destruct (Hm s Hs) as [H1 H2]. unfold sbind.
  destruct (m s) as [[a|e] s']; cbn [fst snd] in *; [|done].
  destruct (Hk a s' H1) as [H3 H4]. split; auto.
Qed.

Lemma sys_preserves_db {A} (m : db publisher_tables DbError A) : preserves m -> sys_preserves (of_db m).
Proof.
  intros H s Hs. specialize (H _ Hs). unfold of_db. destruct (m (sy_db s)) as [[a|e] c]; exact H.
Qed.

Lemma sys_preserves_io {A} (m : io (result DbError A)) : sys_preserves (of_io m).
Proof. intros s Hs. unfold of_io. destruct (m (sy_fs s)) as [r w]. by split. Qed.

Lemma sys_preserves_result {A} (r : result DbError A) : sys_preserves (of_result r).
Proof. intros s Hs. by split. Qed.

Lemma with_files_preserves {A} w (m : sys publisher_tables DbError A) : sys_preserves m -> preserves (with_files w m).
Proof.
  intros H c Hc. specialize (H (Sys w c [] [] []) Hc). unfold with_files.
  destruct (m (Sys w c [] [] [])) as [[a|e] s]; exact H.
Qed.

Lemma insert_binary_preserves now id b : sys_preserves (insert_binary now id b).
Proof.
  unfold insert_binary. destruct (validate_platform (nb_platform b)) as [[]|e] eqn:Hp;
    [|by intros s Hs]. apply validate_platform_Ok in Hp.
  apply sys_preserves_bind; [apply sys_preserves_result|intros _].
  apply sys_preserves_bind; [apply sys_preserves_io|intros found].
  destruct found; cbn [negb]; [|apply (sys_preserves_result (Err _))].
  apply sys_preserves_bind; [apply sys_preserves_io|intros path].
  apply sys_preserves_bind; [apply sys_preserves_io|intros file].
  destruct file; cbn [negb]; [|apply (sys_preserves_result (Err _))].
  apply sys_preserves_bind; [apply sys_preserves_io|intros _].
  apply sys_preserves_bind; [|intros _; apply sys_preserves_bind;
    [apply sys_preserves_db, preserves_query|intros row; apply sys_preserves_result]].
  apply sys_preserves_db, p_preserves_on. intros t [] t' I. by apply (insert_binary_row_inv (new_binary now id path b)).
Qed.

Lemma insert_version_preserves now id v : preserves (insert_version now id v).
Proof.
  apply preserves_check. intros [] H1%validate_hash_size_Ok.
  apply preserves_check. intros [] H2%validate_hash_size_Ok.
  apply preserves_check. intros s H3%normalize_normalized.
  apply preserves_bind.
  - apply p_preserves_on. intros t [] t' I. by apply (insert_version_row_inv (new_version now id s v)).
  - intros _. apply preserves_bind; [apply preserves_query|intros o; apply preserves_lift].
Qed.

Lemma update_version_preserves id g name :
  (forall v, v_version_id (g v) = v_version_id v /\ version_key (g v) = version_key v /\
     (lenZ (v_file_hash_blake3 v) = 32 /\ lenZ (v_file_hash_sha256 v) = 32 ->
      lenZ (v_file_hash_blake3 (g v)) = 32 /\ lenZ (v_file_hash_sha256 (g v)) = 32)) ->
  preserves (dbind (q (exec (p_on name (update_version id g)))) found_rows).
Proof.
  intros Hg. apply preserves_bind; [|apply preserves_found]. apply p_preserves_on. intros t n t' I.
  apply update_version_inv; [done|]. intros v. destruct (Hg v) as (? & ? & H). split; [done|]. split; [done|].
  intros (_ & ? & ? & _). auto.
Qed.

Lemma update_job_preserves id g name :
  (forall j, j_job_id (g j) = j_job_id j /\ job_key (g j) = job_key j) ->
  (forall j, good_job_row j -> good_job_row (g j)) ->
  preserves (dbind (q (exec (p_on name (update_job id g)))) found_rows).
Proof.
  intros Hk Hg. apply preserves_bind; [|apply preserves_found]. apply p_preserves_on.
  intros t n t' I [= _ <-]. by apply update_jobs_inv.
Qed.

Lemma run_publisher_op_preserves o : preserves (run_publisher_op o).
Proof.
  destruct o; cbn [run_publisher_op].
  - apply p_init_preserves.
  - apply p_preserves_on. intros t [] t' I [= <-]. by eapply metadata_p_inv.
  - apply preserves_forget, with_files_preserves, insert_binary_preserves.
  - apply preserves_forget, insert_version_preserves.
  - by apply update_version_preserves.
  - by apply update_version_preserves.
  - by apply update_version_preserves.
  - apply preserves_check. intros [] H1%validate_hash_size_Ok.
    apply preserves_check. intros [] H2%validate_hash_size_Ok. by apply update_version_preserves.
  - apply preserves_forget. eapply effect_weaken; [apply insert_diff_job_effect|..].
    + intros t j' t' [H _] I. by eapply job_inserted_inv.
    + intros t e t' [->|H] I; [done|by eapply job_inserted_inv].
  - apply preserves_forget. eapply effect_weaken; [apply insert_or_get_effect|..].
    + intros t j' t' [_ [[H _]|[-> _]]] I; [by eapply job_inserted_inv|done].
    + intros t e t' [->|H] I; [done|by eapply job_inserted_inv].
  - apply update_job_preserves; [done|]. intros j (? & _ & _ & _). split; [done|]. split; [by exists Running|].
    split; [by eexists|done].
  - apply preserves_check. intros [] Hh%validate_hash_size_Ok. apply update_job_preserves; [done|].
    intros j (? & _ & _ & _). split; [done|]. split; [by exists Completed|]. split; [done|]. cbn. eauto.
  - apply update_job_preserves; [done|]. intros j (? & _ & _ & _). split; [done|]. by split; [exists Failed|].
  - apply preserves_forget, p_preserves_on. intros t n t' I [= _ <-]. apply update_jobs_inv; [done..|].
    intros j (? & _ & _ & _). split; [done|]. by split; [exists Pending|].
  - apply preserves_forget, preserves_bind; [|intros; apply preserves_ret].
    apply p_preserves_on. intros t n t' I [= _ <-]. by apply delete_jobs_inv.
  - apply preserves_forget, preserves_bind; [|intros; apply preserves_ret].
    apply p_preserves_on. intros t n t' I. by apply delete_version_row_inv.
  - apply preserves_forget, p_preserves_on. intros t n t' I [= _ <-]. by apply delete_jobs_inv.
Qed.

Lemma empty_publisher_inv : publisher_inv empty_publisher.
Proof. split; cbn; try (apply NoDup_nil_2); try done; intros ? *; by intros ?%elem_of_nil. Qed.

Lemma reachable_consistent c : publisher_reachable c -> tx c = None /\ publisher_inv (disk c).
Proof.
  induction 1 as [s|o c Hc [Ht I]]; [split; [done|apply empty_publisher_inv]|].
  destruct (run_publisher_op_preserves o c Ht) as [? Hp]. split; [done|].
  destruct (run_publisher_op o c) as [[a|e] c']; simpl in *; auto.
Qed.

(** The publisher's database, after any sequence of operations on a new file
    and under any failures of the driver, is consistent: identifiers, names per
    platform, version strings per binary and diff jobs per pair of versions and
    algorithm are unique; versions belong to binaries, have valid hashes and
    version strings, and are published exactly when they have a time of
    publication; every diff job connects two versions of the same binary, has a
    known algorithm and status, a start time while it runs, and a diff file with
    its hash when it is completed. *)
Theorem publisher_db_consistent c : publisher_reachable c -> tx c = None /\ publisher_inv (disk c).
Proof. apply reachable_consistent. Qed.

(** ** Idempotent creation of diff jobs *)

Lemma seek_job_key j l :
  NoDup (job_key <$> l) -> j ∈ l -> seek (fun j' => bool_decide (job_key j' = job_key j)) l = Some j.
Proof. apply seek_key. Qed.

(** A query on a connection without faults. *)
Lemma query_undisturbed {T A} (f : T -> result SqlxError A) t : query f (undisturbed t) = (f t, undisturbed t).
Proof. done. Qed.

Lemma p_on_in {A} name (f : publisher_tables -> result SqlxError A) t : name ∈ pt_created t -> p_on name f t = f t.
Proof. intros H. unfold p_on. by rewrite bool_decide_eq_true_2. Qed.

Lemma check_job_quiet job t :
  publisher_inv t -> "versions" ∈ pt_created t -> checked_job job t ->
  check_job job (undisturbed t) = (Ok tt, undisturbed t).
Proof.
  intros I Hv (Ha & v & v' & Hin & Hin' & E1 & E2 & E3).
  unfold check_job, dbind, get_version, q. rewrite !query_undisturbed, !p_on_in by done. cbn.
  rewrite <- E1, <- E2. unfold has_version_id.
  rewrite (seek_key v_version_id _ v) by (apply I || done). cbn.
  rewrite p_on_in by done. cbn. rewrite (seek_key v_version_id _ v') by (apply I || done). cbn.
  rewrite bool_decide_eq_true_2 by done. cbn. unfold dlift. by rewrite (proj2 (validate_diff_algorithm_Ok _) Ha).
Qed.

(** Creating a diff job is idempotent: once [insert_or_get_diff_job] has
    returned a job, asking again for the same pair of versions and algorithm
    returns the same job and changes nothing, whatever identifier and time the
    second request draws. *)
Theorem insert_or_get_idempotent now now' id id' job c j t' :
  publisher_inv (disk c) -> tx c = None ->
  insert_or_get_diff_job now id job c = (Ok j, undisturbed t') ->
  {["versions"; "diff_jobs"]} ⊆ pt_created t' ->
  insert_or_get_diff_job now' id' job (undisturbed t') = (Ok j, undisturbed t') /\ j ∈ pt_jobs t' /\
  job_key j = new_job_key job.
Proof.
  intros I Hc Hrun Hcr. destruct (insert_or_get_effect now id job c Hc) as [_ He].
  rewrite Hrun in He. cbn in He. destruct He as [Hchk He].
  assert (publisher_inv t' /\ checked_job job t' /\ j ∈ pt_jobs t' /\ job_key j = new_job_key job)
    as (I' & Hchk' & Hj & Hk).
  { destruct He as [[Hi Hs]|[-> Hs]].
    - pose proof (job_inserted_inv _ _ _ _ _ I Hi) as I'. split; [done|]. destruct Hi as [_ Hi].
      unfold insert_job_row in Hi. rewrite result_bind_Ok in Hi. destruct Hi as ([] & _ & Hi).
      rewrite result_bind_Ok in Hi. destruct Hi as ([] & _ & Hi).
      rewrite result_bind_Ok in Hi. destruct Hi as ([] & _ & [= <-]). cbn in *.
      split; [done|]. apply seek_Some in Hs as [Hj Hid%bool_decide_eq_true].
      assert (j = new_job now id job) as ->; [|done].
      eapply (NoDup_key_eq j_job_id); [apply I'|done|apply elem_of_app; right; by left|done].
    - apply seek_Some in Hs as [? ?%bool_decide_eq_true]. done. }
  split; [|done]. unfold insert_or_get_diff_job, dbind at 1.
  rewrite check_job_quiet by (done || set_solver). unfold exec, driver. cbn [sched undisturbed head tail].
  change (view _) with t'. rewrite p_on_in by set_solver. unfold insert_job_row.
  assert (existsb (fun j0 => bool_decide (job_key j0 = job_key (new_job now' id' job))) (pt_jobs t') = true) as Hex.
  { apply existsb_exists. exists j. split; [by apply list_elem_of_In|by apply bool_decide_eq_true]. }
  rewrite Hex. destruct (existsb (is_job (j_job_id (new_job now' id' job))) (pt_jobs t')) eqn:Ex; cbn;
    rewrite p_on_in by set_solver; cbn; rewrite <- Hk, seek_job_key by (apply I' || done); done.
Qed.

(** ** Stale jobs *)

(** Resetting stale jobs returns every job that has been running longer than
    the timeout to the queue, with its start time cleared so that it can be
    started again; no other job changes, none is left stale, and the number of
    reset jobs is returned.  A failure changes nothing. *)
Theorem stale_jobs_reset dt now minutes c :
  tx c = None ->
  let p := stale dt now minutes in
  let '(r, c') := reset_stale_diff_jobs dt now minutes c in
  match r with
  | Ok n =>
      pt_jobs (disk c') = (fun j => if p j then reset_job j else j) <$> pt_jobs (disk c) /\
      n = count_rows p (pt_jobs (disk c)) /\
      (forall j, j ∈ pt_jobs (disk c') -> p j = false) /\
      pt_versions (disk c') = pt_versions (disk c)
  | Err _ => disk c' = disk c
  end.
Proof.
  intros Hc p. unfold reset_stale_diff_jobs. fold p.
  destruct (effect_q _ _ _ (effect_exec (p_on "diff_jobs" (fun t =>
       Ok (count_rows p (pt_jobs t), with_jobs (update_rows p reset_job (pt_jobs t)) t)))) c Hc) as [_ H].
  destruct (q _ c) as [[n|e] c']; cbn in *; [|by destruct H as (? & _ & ->)].
  apply p_on_Ok in H. injection H as <- <-. cbn. split_and!; [done..| |done].
  intros j' (j & Hj & ->)%elem_of_update_rows. destruct (p j) eqn:E; [|done]. unfold p, stale. by cbn.
Qed.

(** ** Deleting versions *)

(** Deleting a version takes its diff jobs with it: without faults, deleting
    an existing version succeeds although diff jobs reference it, and exactly
    the jobs from or to that version are deleted as well. *)
Theorem delete_version_cascades id t v :
  publisher_inv t -> "versions" ∈ pt_created t -> v ∈ pt_versions t -> v_version_id v = id ->
  exists t', delete_version id (undisturbed t) = (Ok true, undisturbed t') /\
    (forall j, j ∈ pt_jobs t' <-> j ∈ pt_jobs t /\ j_from_version_id j <> id /\ j_to_version_id j <> id) /\
    (forall v', v' ∈ pt_versions t' <-> v' ∈ pt_versions t /\ v' <> v).
Proof.
  intros I Hcr Hv Hid.
  assert (count_rows (has_version_id id) (pt_versions t) <> 0) as Hn.
  { apply count_rows_pos. exists v. split; [done|by apply bool_decide_eq_true]. }
  eexists. split.
  - unfold delete_version, dbind, q, exec, driver. cbn [sched undisturbed head tail].
    change (view _) with t. rewrite p_on_in by done. unfold delete_version_row.
    destruct (Z.eqb_spec (count_rows (has_version_id id) (pt_versions t)) 0); [done|]. cbn.
    replace (0 <? count_rows (has_version_id id) (pt_versions t)) with true; [done|].
    pose proof (lenZ_nonneg (List.filter (has_version_id id) (pt_versions t))). unfold count_rows in *. lia.
  - cbn. split; intros x; rewrite elem_of_delete_rows.
    + unfold touches. rewrite orb_false_iff, !bool_decide_eq_false. done.
    + unfold has_version_id. rewrite bool_decide_eq_false. split; intros [Hx Hne]; (split; [done|]).
      * by intros ->.
      * intros E. apply Hne. eapply (NoDup_key_eq v_version_id); [apply I|done|done|congruence].
Qed.
End Facts.
