(* ===== verification/DbScenarios.v ===== *)
(** * DbScenarios: an order of rows and concrete databases

    A stable insertion sort satisfies [SqlOrderLaws], so the laws of [ORDER BY]
    can hold; a client and a publisher database on which the theorems about them
    run. *)

From S2P Require Import Prelude Text Version SemverRef Validation RateLimit Fs Storage Admin Instances DbModels Sql System ClientDb ClientDbFacts PublisherDb PublisherDbFacts.

#[local] Open Scope Z_scope.

(** ** Sorting *)

#[global] Instance string_compare_order : CmpOrder String.compare.
Proof.
  assert (forall s t, String.compare s t = list_cmp Z.compare (code <$> chars s) (code <$> chars t)) as E.
  { intros s; induction s as [|a s IH]; intros [|b t]; [done..|]. cbn [String.compare].
    change (chars (String a s)) with (a :: chars s). change (chars (String b t)) with (b :: chars t).
    cbn [fmap list_fmap list_cmp]. unfold Ascii.compare. rewrite IH. unfold code at 3 4. by rewrite N2Z.inj_compare. }
  split; intros *; rewrite !E.
  - rewrite cmp_eq. split; [|by intros ->]. intros H. by apply (inj (fmap code)), (inj chars) in H.
  - apply cmp_opp.
  - apply cmp_lt_trans.
Qed.

Definition row_cmp {A} (d : direction) (key : A -> string) (a b : A) : comparison :=
  match d with Asc => String.compare (key a) (key b) | Desc => String.compare (key b) (key a) end.

#[global] Instance sort_order : SqlOrder := {| order_by A d key := sort_by (row_cmp d key) |}.

Section Sorting.
Context {A : Type} (d : direction) (key : A -> string).

Lemma in_order_cmp a b : in_order d (key a) (key b) <-> row_cmp d key a b <> Gt.
Proof. by destruct d. Qed.

Lemma row_cmp_total a b : row_cmp d key a b = Gt -> row_cmp d key b a <> Gt.
Proof.
  unfold row_cmp. destruct d; [rewrite (cmp_opp (cmp := String.compare) (key a) (key b))
                              |rewrite (cmp_opp (cmp := String.compare) (key b) (key a))];
    destruct (String.compare _ _); simpl; congruence.
Qed.

Lemma text_le_trans a b c : text_le a b -> text_le b c -> text_le a c.
Proof.
  unfold text_le. destruct (String.compare a b) eqn:E1; [apply cmp_eq in E1 as ->; done| |done].
  destruct (String.compare b c) eqn:E2; [apply cmp_eq in E2 as <-; congruence| |done].
  rewrite (cmp_lt_trans _ _ _ E1 E2). done.
Qed.

Lemma in_order_trans a b c : in_order d a b -> in_order d b c -> in_order d a c.
Proof. destruct d; simpl; eauto using text_le_trans. Qed.

Lemma row_insert_perm x l : insert_by (row_cmp d key) x l ≡ₚ x :: l.
Proof.
  induction l as [|y l IH]; [done|]. cbn [insert_by]. case_match; try done. rewrite IH. apply Permutation_swap.
Qed.

Lemma insert_by_sorted x l :
  StronglySorted (fun a b => in_order d (key a) (key b)) l ->
  StronglySorted (fun a b => in_order d (key a) (key b)) (insert_by (row_cmp d key) x l).
Proof.
  induction 1 as [|y l Hl IH Hy]; [repeat constructor|]. cbn [insert_by].
  assert (row_cmp d key x y <> Gt -> Forall (fun b => in_order d (key x) (key b)) (y :: l)) as Hx.
  { intros Hxy%in_order_cmp. constructor; [done|]. eapply Forall_impl; [done|]. intros z. by apply in_order_trans. }
  destruct (row_cmp d key x y) eqn:E; [constructor; [by constructor|by apply Hx]..|].
  constructor; [done|]. apply Forall_forall. intros z. rewrite row_insert_perm.
  intros [->|Hz]%elem_of_cons; [by apply in_order_cmp, row_cmp_total|]. rewrite Forall_forall in Hy. by apply Hy.
Qed.
End Sorting.

#[global] Instance sort_order_laws : SqlOrderLaws sort_order.
Proof.
  split; intros A d key l; cbn; unfold sort_by.
  - induction l as [|x l IH]; [done|]. cbn [foldr]. by rewrite row_insert_perm, IH.
  - induction l as [|x l IH]; [constructor|]. cbn [foldr]. by apply insert_by_sorted.
Qed.

(** ** A client database *)

Definition hash32 (z : Z) : bytes := le_split 32 z.

Definition app_row : NewManagedBinary := {|
  nm_binary_id := "b1"; nm_binary_name := "app"; nm_platform := "Linux-x86_64";
  nm_install_path := "/opt/app"; nm_publisher_public_key := hash32 1;
|}.

(** The operations of a client that installs two versions and keeps backups; the
    driver fails once, in the middle of the second change of the version. *)
Definition client_day : list client_op :=
  [OpInit "ok" "2024-05-01 08:00:00"; OpRegister "2024-05-01 08:00:01" app_row;
   OpRecordInstalled "2024-05-01 08:00:02" "b1" "v-1" " v1.0.0 " (hash32 11) (hash32 12) 5;
   OpUpdateCurrent "2024-05-01 08:00:03" "b1" "v-1" "1.0.0";
   OpRecordInstalled "2024-05-01 09:00:00" "b1" "v-2" "1.1.0" (hash32 21) (hash32 22) 6;
   OpUpdateCurrent "2024-05-01 09:00:01" "b1" "v-2" "1.1.0";
   OpCreateBackup "2024-05-01 09:00:02" "b1" "v-1" "1.0.0" "/bk/1" (hash32 11) 5 (Some "2024-05-01T10:00:00Z");
   OpCreateBackup "2024-05-01 09:00:03" "b1" "v-2" "1.1.0" "/bk/2" (hash32 21) 6 None;
   OpCreateBackup "2024-05-01 09:00:04" "b1" "v-2" "1.1.0" "/bk/3" (hash32 21) 6 (Some "2024-05-01 10:00:00")].

Definition run_client (ops : list client_op) (c : conn client_tables) : conn client_tables :=
  fold_left (fun c o => (run_op o c).2) ops c.

Definition client_faults : list (option SqlxError) := replicate 28 None ++ [Some SqlxIo].
Definition client_evening : conn client_tables := run_client client_day (Conn empty_client None client_faults).

Lemma run_client_reachable ops c : client_reachable c -> client_reachable (run_client ops c).
Proof. revert c; induction ops as [|o ops IH]; intros c Hc; [done|]. apply IH. by constructor. Qed.

Lemma client_db_consistent_witness :
  tx client_evening = None /\ client_inv (disk client_evening) /\
  (m_current_version_id <$> ct_managed (disk client_evening)) = [Some "v-1"].
Proof.
  destruct (client_db_consistent client_evening) as (H1 & H2 & _).
  - apply run_client_reachable. constructor.
  - split; [exact H1|]. split; [exact H2|]. vm_compute. reflexivity.
Defined.

(** The same database without faults, up to the second version. *)
Definition client_noon : client_tables := disk (run_client (take 5 client_day) (undisturbed empty_client)).

(** The change of the version when the last statement of the transaction fails. *)
Definition failing_op : client_op := OpUpdateCurrent "2024-05-01 09:00:01" "b1" "v-2" "1.1.0".
Definition failing_conn : conn client_tables := Conn client_noon None (replicate 4 None ++ [Some PoolTimedOut]).

Lemma client_ops_atomic_witness :
  (run_op failing_op failing_conn).1 = Err (DbTimeout 30) /\ disk (run_op failing_op failing_conn).2 = disk failing_conn.
Proof.
  assert ((run_op failing_op failing_conn).1 = Err (DbTimeout 30)) as He by (vm_compute; reflexivity).
  split; [exact He|].
  destruct (client_ops_atomic failing_op failing_conn (DbTimeout 30) eq_refl He) as [H|(now & b & H & _)];
    [exact H|discriminate H].
Defined.

(** The whole day without faults. *)
Definition calm : conn client_tables := run_client client_day (undisturbed empty_client).

Lemma calm_facts : tx calm = None /\ client_inv (disk calm).
Proof.
  assert (client_reachable calm) as H by (apply run_client_reachable; constructor).
  exact (client_reachable_inv calm H).
Qed.

Lemma pair_fst {A B} (x : A * B) a : x.1 = a -> x = (a, x.2).
Proof. destruct x. by intros <-. Qed.

Abbreviation cleaned := ((cleanup_old_backups "b1" 2 calm).2).

Lemma cleanup_run : cleanup_old_backups "b1" 2 calm = (Ok 1, cleaned).
Proof. apply pair_fst. vm_compute. reflexivity. Qed.

Lemma cleanup_keeps_newest_witness :
  lenZ (List.filter (backup_of "b1") (ct_backups (disk cleaned))) =
    Z.min 2 (lenZ (List.filter (backup_of "b1") (ct_backups (disk calm)))) /\
  (r_backup_path <$> ct_backups (disk cleaned)) = ["/bk/2"; "/bk/3"].
Proof.
  split; [|vm_compute; reflexivity].
  exact (proj1 (cleanup_keeps_newest "b1" 2 calm 1 cleaned (proj2 calm_facts) (proj1 calm_facts)
                  (proj1 (Z.leb_le 0 2) eq_refl) cleanup_run)).
Defined.

Abbreviation later := ((delete_expired_backups "2024-05-01 23:59:59" calm).2).

Lemma expired_backups_deleted_witness :
  (r_backup_path <$> ct_backups (disk calm)) = ["/bk/1"; "/bk/2"; "/bk/3"] /\
  (r_backup_path <$> ct_backups (disk later)) = ["/bk/1"; "/bk/2"] /\
  Forall (fun r => r ∈ ct_backups (disk calm)) (ct_backups (disk later)).
Proof.
  split; [vm_compute; reflexivity|]. split; [vm_compute; reflexivity|]. apply Forall_forall. intros r Hr.
  exact (proj1 (proj1 (expired_backups_deleted "2024-05-01 23:59:59" calm (proj1 calm_facts) r) Hr)).
Defined.

(** The first backup expired at ten, and is still there at midnight. *)
Definition first_backup : DbRollbackBackup := {|
  r_backup_id := 1; r_binary_id := "b1"; r_version_id := "v-1"; r_version_string := "1.0.0";
  r_backup_path := "/bk/1"; r_backup_hash_blake3 := hash32 11; r_backup_size_bytes := 5;
  r_created_at := "2024-05-01 09:00:02"; r_expires_at := Some "2024-05-01T10:00:00Z";
|}.

Definition one_backup : conn client_tables :=
  undisturbed (with_created (fun _ => {["rollback_backups"]}) (with_backups [first_backup] 1 empty_client)).

Lemma iso_expiry_ignored_same_day_witness :
  first_backup ∈ ct_backups (disk (delete_expired_backups "2024-05-01 23:59:59" one_backup).2).
Proof.
  exact (iso_expiry_ignored_same_day "2024-05-01" "10:00:00Z" "23:59:59" one_backup first_backup
           eq_refl (list_elem_of_here _ _) eq_refl).
Defined.

(** ** Texts *)

Lemma normalize_version_projection_witness :
  normalized "1.2.0-rc.1" /\ normalize_version_string "1.2.0-rc.1" = Ok "1.2.0-rc.1".
Proof.
  destruct (normalize_version_projection "  v1.2.0-rc.1 " "1.2.0-rc.1") as (H1 & H2 & _);
    [vm_compute; reflexivity|split; [exact H1|exact H2]].
Defined.

Example normalize_rejects :
  (fun s => is_ok (normalize_version_string s)) <$> ["0.0.0"; "0.0.0-alpha"; "vv1.0.0"; "1.0"; "V1.0.0"]
  = [false; false; false; false; true].
Proof. vm_compute. reflexivity. Qed.

Lemma expires_at_validated_witness :
  validate_expires_at_timestamp " 2024-02-31T23:59:59+05:00 " = Val (Ok tt) /\
  timestamp_fields (trim " 2024-02-31T23:59:59+05:00 ").
Proof.
  destruct (expires_at_validated " 2024-02-31T23:59:59+05:00 ") as (r & H1 & H2); [vm_compute; reflexivity|].
  assert (r = Ok tt) as Hr; [|split; [rewrite Hr in H1; exact H1|apply H2, Hr]].
  assert (validate_expires_at_timestamp " 2024-02-31T23:59:59+05:00 " = Val (Ok tt)) as H3 by (vm_compute; reflexivity).
  rewrite H3 in H1. injection H1 as <-. reflexivity.
Defined.

(** A timestamp whose nineteenth byte is inside a character makes the check
    panic, and separators other than the one of position 10 are not looked at. *)
Example expires_at_panics :
  validate_expires_at_timestamp ("2024-01-01T00:00:0" +:+ of_chars [chr 195; chr 169]) = Panic.
Proof. vm_compute. reflexivity. Qed.

Example expires_at_separators : validate_expires_at_timestamp "2024x01y01T00z00w00" = Val (Ok tt).
Proof. vm_compute. reflexivity. Qed.

(** ** A publisher database *)

Definition app_file : world :=
  {| files := {[ ["build"] := Dir; ["build"; "app"] := File [byte_of_Z 1] ]}; faults := fun _ => None; tick := 0 |}.

Definition new_app : NewBinary :=
  {| nb_binary_name := "app"; nb_platform := "linux-x86_64"; nb_binary_path := "/build/./app"; nb_description := None |}.
Definition new_v (v : string) (z : Z) : NewVersion :=
  {| nv_binary_id := "b1"; nv_version_string := v; nv_file_path := "/build/app"; nv_file_size_bytes := 1;
     nv_file_hash_blake3 := hash32 z; nv_file_hash_sha256 := hash32 (z + 1) |}.
Definition diff_1_2 : NewDiffJob :=
  {| nj_from_version_id := "v1"; nj_to_version_id := "v2"; nj_diff_algorithm := "bsdiff" |}.

Definition publisher_day : list publisher_op :=
  [POpInit "ok" "2024-05-01 08:00:00"; POpInsertBinary app_file "2024-05-01 08:00:01" "b1" new_app;
   POpInsertVersion "2024-05-01 08:00:02" "v1" (new_v "v1.0.0" 5);
   POpInsertVersion "2024-05-01 08:00:03" "v2" (new_v "1.1.0" 7);
   POpPublish "2024-05-01 08:00:04" "v1"; POpInsertJob "2024-05-01 08:00:05" "j1" diff_1_2;
   POpRunning "2024-05-01 08:00:06" "j1"].

Definition run_publisher (ops : list publisher_op) (c : conn publisher_tables) : conn publisher_tables :=
  fold_left (fun c o => (run_publisher_op o c).2) ops c.

Lemma run_publisher_reachable ops c : publisher_reachable c -> publisher_reachable (run_publisher ops c).
Proof. revert c; induction ops as [|o ops IH]; intros c Hc; [done|]. apply IH. by constructor. Qed.

Definition publisher_evening : conn publisher_tables :=
  run_publisher publisher_day (undisturbed empty_publisher).

Lemma publisher_db_consistent_witness :
  tx publisher_evening = None /\ publisher_inv (disk publisher_evening) /\
  (j_status <$> pt_jobs (disk publisher_evening)) = ["running"] /\
  (b_binary_path <$> pt_binaries (disk publisher_evening)) = ["/build/app"].
Proof.
  assert (publisher_reachable publisher_evening) as H by (apply run_publisher_reachable; constructor).
  destruct (publisher_db_consistent publisher_evening H) as (H1 & H2).
  refine (conj H1 (conj H2 (conj _ _))); vm_compute; reflexivity.
Defined.

(** The first job again, with another identifier. *)
Definition first_job : DbDiffJob := new_job "2024-05-01 08:00:05" "j1" diff_1_2.

Definition before_job : publisher_tables := {|
  pt_created := {["versions"; "diff_jobs"; "binaries"]}; pt_schema_version := [1]; pt_config := ∅;
  pt_binaries := [new_binary "t" "b1" "/build/app" new_app];
  pt_versions := [new_version "t" "v1" "1.0.0" (new_v "1.0.0" 5); new_version "t" "v2" "1.1.0" (new_v "1.1.0" 7)];
  pt_jobs := [];
|}.

Lemma before_job_inv : publisher_inv before_job.
Proof.
  split; cbn; try (by repeat constructor; set_solver); try (intros x Hx; by apply elem_of_nil in Hx).
  - intros b ->%list_elem_of_singleton. by vm_compute; left.
  - assert (normalized "1.0.0") by (apply (normalize_normalized "1.0.0"); vm_compute; reflexivity).
    assert (normalized "1.1.0") by (apply (normalize_normalized "1.1.0"); vm_compute; reflexivity).
    intros v [->| ->%list_elem_of_singleton]%elem_of_cons; unfold good_version; cbn [new_version v_binary_id
      v_file_hash_blake3 v_file_hash_sha256 v_version_string v_is_published v_published_at];
      (split; [by left|]); (split; [vm_compute; reflexivity|]); (split; [vm_compute; reflexivity|]);
      (split; [assumption|]); split; [discriminate|by intros [? ?]|discriminate|by intros [? ?]].
Qed.

Abbreviation with_job := (with_jobs [first_job] before_job).

Lemma insert_or_get_idempotent_witness :
  insert_or_get_diff_job "later" "j2" diff_1_2 (undisturbed with_job) = (Ok first_job, undisturbed with_job).
Proof.
  assert (insert_or_get_diff_job "2024-05-01 08:00:05" "j1" diff_1_2 (undisturbed before_job)
          = (Ok first_job, undisturbed with_job)) as Hrun by (vm_compute; reflexivity).
  exact (proj1 (insert_or_get_idempotent "2024-05-01 08:00:05" "later" "j1" "j2" diff_1_2 (undisturbed before_job)
                  first_job with_job before_job_inv eq_refl Hrun ltac:(cbn; set_solver))).
Defined.

Definition same_time (started modifier : string) : option string := Some started.
Definition stuck : conn publisher_tables :=
  undisturbed (with_jobs [start_job "2024-05-01 08:00:06" first_job] before_job).
Abbreviation unstuck := (reset_stale_diff_jobs same_time "2024-05-01 09:00:00" 30 stuck).

Lemma stale_jobs_reset_witness :
  List.map j_status (pt_jobs (disk unstuck.2)) = ["pending"] /\
  Forall (fun j => stale same_time "2024-05-01 09:00:00" 30 j = false) (pt_jobs (disk unstuck.2)).
Proof.
  split; [vm_compute; reflexivity|].
  pose proof (stale_jobs_reset same_time "2024-05-01 09:00:00" 30 stuck eq_refl) as H.
  assert (is_ok unstuck.1 = true) as Hok by (vm_compute; reflexivity).
  destruct unstuck as [[n|e] c']; [|discriminate Hok]. apply Forall_forall. apply H.
Defined.

Lemma delete_version_cascades_witness :
  exists t', delete_version "v1" (undisturbed with_job) = (Ok true, undisturbed t') /\ pt_jobs t' = [].
Proof.
  destruct (delete_version_cascades "v1" with_job (new_version "t" "v1" "1.0.0" (new_v "1.0.0" 5)))
    as (t' & H1 & H2 & _).
  - assert (publisher_inv with_job) as H; [|exact H]. eapply (job_inserted_inv "2024-05-01 08:00:05" "j1" diff_1_2); [exact before_job_inv|].
    split; [|vm_compute; reflexivity]. split; [vm_compute; by left|].
    exists (new_version "t" "v1" "1.0.0" (new_v "1.0.0" 5)), (new_version "t" "v2" "1.1.0" (new_v "1.1.0" 7)).
    split; [by left|]. split; [right; by left|]. done.
  - cbn. set_solver.
  - by left.
  - reflexivity.
  - exists t'. split; [exact H1|]. destruct (pt_jobs t') as [|j l] eqn:E; [reflexivity|].
    destruct (proj1 (H2 j)) as (Hj & Hne & _); [left|].
    apply list_elem_of_singleton in Hj. subst j. by destruct Hne.
Defined.

(** Spelling counts for uniqueness: the same algorithm in capitals passes the
    check and is stored as a second job for the same pair of versions. *)
Example algorithm_spellings :
  let job := {| nj_from_version_id := "v1"; nj_to_version_id := "v2"; nj_diff_algorithm := "BSDIFF" |} in
  List.map j_diff_algorithm (pt_jobs (disk (insert_or_get_diff_job "later" "j2" job (undisturbed with_job)).2))
  = ["bsdiff"; "BSDIFF"].
Proof. vm_compute. reflexivity. Qed.
