(* ===== verification/ClientConfig.v ===== *)
(** * ClientConfig: the client's configuration ([deltaship-client/src/config.rs])

    The configuration record and its directories, the check of server URLs and
    which hosts are loopback addresses.  Parsing URLs ([url]) and TOML are
    external: parameters of the functions that use them. *)

From S2P Require Import Prelude Text Version Validation Fs DbModels Sql System.

#[local] Open Scope Z_scope.

Inductive DiskCheckMode := Strict | Permissive.

Record ClientConfig := {
  server_url : string;
  check_interval_secs : Z;
  data_dir : string;
  disk_check_mode : DiskCheckMode;
}.

(** [local_dir] is [dirs::data_local_dir]. *)
Definition default_data_dir (local_dir : option string) : string := join (default "." local_dir) "deltaship".

Definition default_config (local_dir : option string) : ClientConfig := {|
  server_url := "http://localhost:3000"; check_interval_secs := 3600;
  data_dir := default_data_dir local_dir; disk_check_mode := Strict;
|}.

Definition default_config_path (config_dir : option string) : string :=
  join (join (default "." config_dir) "deltaship") "client.toml".

Definition db_path (c : ClientConfig) : string := join (data_dir c) "client.db".
Definition backups_dir (c : ClientConfig) : string := join (data_dir c) "backups".
Definition downloads_dir (c : ClientConfig) : string := join (data_dir c) "downloads".

(** ** Loopback hosts *)

(** [Ipv4Addr::from_str]: four decimal octets without leading zeros. *)
Definition parse_octet (s : string) : option Z :=
  match chars s with
  | ["0"%char] => Some 0
  | "0"%char :: _ => None
  | l => if forallb is_ascii_digit l && (lenZ l <=? 3) then parse_unsigned 255 s else None
  end.

Definition parse_ipv4 (s : string) : option (list Z) :=
  let l := split_char "."%char s in
  if bool_decide (length l = 4%nat) then mapM parse_octet l else None.

(** [Ipv6Addr::from_str]: a group of one to four hexadecimal digits. *)
Definition parse_group (s : string) : option (list Z) :=
  let l := chars s in
  if (1 <=? lenZ l) && (lenZ l <=? 4) && forallb is_ascii_hexdigit l
  then Some [foldl (fun acc c => acc * 16 + default 0 (digit16 c)) 0 l] else None.

(** A trailing IPv4 address stands for two groups. *)
Definition ipv4_groups (s : string) : option (list Z) :=
  match parse_ipv4 s with
  | Some [a; b; c; d] => Some [a * 256 + b; c * 256 + d]
  | _ => None
  end.

Fixpoint parse_groups (last_ipv4 : bool) (l : list string) : option (list Z) :=
  match l with
  | [] => Some []
  | s :: l =>
      let g := match l with
               | [] => if last_ipv4 then match parse_group s with Some g => Some g | None => ipv4_groups s end
                       else parse_group s
               | _ => parse_group s
               end in
      match g, parse_groups last_ipv4 l with Some g, Some gs => Some (g ++ gs) | _, _ => None end
  end.

Definition groups_of (last_ipv4 : bool) (s : string) : option (list Z) :=
  if str_is_empty s then Some [] else parse_groups last_ipv4 (split_char ":"%char s).

(** The eight groups; [::] stands for at least one. *)
Definition parse_ipv6 (s : string) : option (list Z) :=
  match split_str "::" s with
  | [a] => match groups_of true a with
           | Some gs => if bool_decide (length gs = 8%nat) then Some gs else None
           | None => None
           end
  | [a; b] => match groups_of false a, groups_of true b with
              | Some ga, Some gb =>
                  if bool_decide (length ga + length gb <= 7)%nat
                  then Some (ga ++ replicate (8 - (length ga + length gb)) 0 ++ gb) else None
              | _, _ => None
              end
  | _ => None
  end.

(** [IpAddr::from_str] and [is_loopback]; [None] when the text is no address. *)
Definition ip_is_loopback (s : string) : option bool :=
  match parse_ipv4 s with
  | Some l => Some (bool_decide (head l = Some 127))
  | None => match parse_ipv6 s with
            | Some l => Some (bool_decide (l = [0; 0; 0; 0; 0; 0; 0; 1]))
            | None => None
            end
  end.

(** [trim_start_matches], [trim_end_matches] of one character. *)
Fixpoint trim_start (c : ascii) (l : list ascii) : list ascii :=
  match l with
  | d :: l' => if bool_decide (d = c) then trim_start c l' else l
  | [] => []
  end.
Definition trim_start_matches (c : ascii) (s : string) : string := of_chars (trim_start c (chars s)).
Definition trim_end_matches (c : ascii) (s : string) : string :=
  of_chars (reverse (trim_start c (reverse (chars s)))).

Definition is_loopback_host (host : option string) : bool :=
  match host with
  | None => false
  | Some host =>
      let host := trim_end_matches "]"%char (trim_start_matches "["%char host) in
      if bool_decide (to_ascii_lowercase host = "localhost") then true
      else default false (ip_is_loopback host)
  end.

(** ** Server URLs *)

(** What [url::Url::parse] gives: the scheme and the host. *)
Record url_parts := { url_scheme : string; url_host : option string }.

Inductive config_error := InvalidUrl | InvalidScheme | InsecureUrl | ConfigIo (e : io_error) | ConfigToml.

Section Config.
Context (url_parse : string -> option url_parts) (toml_parse : string -> option ClientConfig).

Definition validate_server_url (url : string) : result config_error unit :=
  match url_parse url with
  | None => Err InvalidUrl
  | Some parsed =>
      let scheme := url_scheme parsed in
      if negb (bool_decide (scheme = "http")) && negb (bool_decide (scheme = "https")) then Err InvalidScheme
      else if bool_decide (scheme = "http") && negb (is_loopback_host (url_host parsed)) then Err InsecureUrl
      else Ok tt
  end.

(** Whether the HTTP client built for [url] refuses anything but HTTPS. *)
Definition require_https_for (url : string) : bool :=
  match url_parse url with
  | Some parsed => negb (is_loopback_host (url_host parsed))
  | None => true
  end.

#[local] Open Scope io_scope.

Definition load_config (local_dir config_dir : option string) (path : option string)
    : io (result config_error ClientConfig) :=
  let config_path := default (default_config_path config_dir) path in
  present ←? io_map Ok (exists_ config_path);
  if negb present then
    let config := default_config local_dir in
    elift (validate_server_url (server_url config)) ;;? eret config
  else
    content ←? io_map (map_err ConfigIo) (read_to_string config_path);
    config ←? elift (ok_or ConfigToml (toml_parse content));
    elift (validate_server_url (server_url config)) ;;? eret config.

(** A name for this machine: [localhost] in any case, an IPv4 address 127.b.c.d,
    or the IPv6 address ::1, possibly in brackets. *)
Definition loopback_name (host : string) : Prop :=
  exists i j inner, chars host = replicate i "["%char ++ chars inner ++ replicate j "]"%char /\
    (to_ascii_lowercase inner = "localhost" \/
     (exists b c d, parse_ipv4 inner = Some [127; b; c; d]) \/
     parse_ipv6 inner = Some [0; 0; 0; 0; 0; 0; 0; 1]).

(** The server is reached by HTTPS, or it is this machine. *)
Definition secure_server (c : ClientConfig) : Prop :=
  exists u, url_parse (server_url c) = Some u /\
    (url_scheme u = "https" \/
     url_scheme u = "http" /\ exists host, url_host u = Some host /\ loopback_name host).

Lemma trim_start_brackets c l : exists i, l = replicate i c ++ trim_start c l.
Proof.
  induction l as [|d l [i IH]]; [by exists 0%nat|]. cbn [trim_start]. case_bool_decide as E; [|by exists 0%nat].
  subst d. exists (S i). cbn. by f_equal.
Qed.

Lemma trim_end_brackets c s : exists j, chars s = chars (trim_end_matches c s) ++ replicate j c.
Proof.
  unfold trim_end_matches. rewrite chars_of_chars. destruct (trim_start_brackets c (reverse (chars s))) as [j E].
  exists j. rewrite <- (reverse_involutive (chars s)), E at 1. by rewrite reverse_app, reverse_replicate.
Qed.

Lemma parse_ipv4_length s l : parse_ipv4 s = Some l -> length l = 4%nat.
Proof.
  unfold parse_ipv4. case_bool_decide as E; [|done]. intros H%length_mapM. congruence.
Qed.

Lemma is_loopback_host_name host : is_loopback_host host = true -> exists h, host = Some h /\ loopback_name h.
Proof.
  destruct host as [h|]; [|done]. cbn zeta beta iota delta [is_loopback_host]. intros H. exists h. split; [done|].
  destruct (trim_start_brackets "["%char (chars h)) as [i Hi].
  destruct (trim_end_brackets "]"%char (trim_start_matches "["%char h)) as [j Hj].
  set (inner := trim_end_matches _ _) in *. exists i, j, inner. split.
  { rewrite Hi at 1. f_equal. rewrite <- Hj. unfold trim_start_matches. by rewrite chars_of_chars. }
  case_bool_decide as E; [by left|right]. unfold ip_is_loopback in H.
  destruct (parse_ipv4 inner) as [l|] eqn:E4; cbn in H.
  - left. apply bool_decide_eq_true in H. pose proof (parse_ipv4_length _ _ E4).
    destruct l as [|a [|b [|c [|d [|]]]]]; try done. injection H as ->. by exists b, c, d.
  - right. destruct (parse_ipv6 inner) as [l|]; [|done]. by apply bool_decide_eq_true in H as ->.
Qed.

Lemma validate_server_url_Ok url :
  validate_server_url url = Ok tt <->
  exists u, url_parse url = Some u /\
    (url_scheme u = "https" \/ (url_scheme u = "http" /\ is_loopback_host (url_host u) = true)).
Proof.
  unfold validate_server_url. split.
  - destruct (url_parse url) as [u|]; [|done]. intros H. exists u. split; [done|].
    repeat case_bool_decide; destruct (is_loopback_host (url_host u)); simpl in *; try done; auto.
  - intros (u & -> & [E|[E Hl]]); rewrite E; cbn; [done|]. by rewrite Hl.
Qed.

(** C38: Every configuration the client loads, from a file or the defaults, names a
    server whose address is an HTTPS one, or a plain HTTP one on this machine:
    [localhost] in any case, an IPv4 address 127.b.c.d or ::1; and unless the
    address names this machine, the HTTP client built for it is restricted to
    HTTPS. *)
Theorem loaded_config_secure local_dir config_dir path w c w' :
  load_config local_dir config_dir path w = (Ok c, w') ->
  secure_server c /\
  (require_https_for (server_url c) = true \/
   exists u host, url_parse (server_url c) = Some u /\ url_host u = Some host /\ loopback_name host).
Proof.
  intros H. assert (validate_server_url (server_url c) = Ok tt) as Hv.
  { revert H. unfold load_config, ebind at 1. destruct (io_map Ok _ w) as [[[]|e] w1]; cbn [negb]; [| |done].
    - unfold ebind at 1. destruct (io_map _ _ w1) as [[content|e] w2]; [|done].
      unfold ebind at 1, elift at 1. destruct (toml_parse content) as [c'|]; cbn [ok_or]; [|done].
      unfold ebind, elift, eret. destruct (validate_server_url (server_url c')) as [[]|] eqn:E; [|done].
      by intros [= <- _].
    - unfold ebind, elift, eret. destruct (validate_server_url _) as [[]|] eqn:E; [|done]. by intros [= <- _]. }
  apply validate_server_url_Ok in Hv as (u & Hu & Hv). unfold require_https_for. rewrite Hu. split.
  - exists u. split; [done|]. destruct Hv as [?|[? Hl]]; [by left|right]. split; [done|]. by apply is_loopback_host_name.
  - destruct (is_loopback_host (url_host u)) eqn:El; [right|by left].
    apply is_loopback_host_name in El as (host & ? & ?). by exists u, host.
Qed.
End Config.

Example loopback_hosts :
  (fun h => is_loopback_host (Some h)) <$>
    ["localhost"; "LOCALHOST"; "127.0.0.1"; "127.8.9.10"; "[::1]"; "0:0:0:0:0:0:0:1"; "128.0.0.1"; "127.0.0.01";
     "127.1"; "::ffff:127.0.0.1"; "localhost.evil.com"; "1::"; ""; "[::2]"]
  = [true; true; true; true; true; true; false; false; false; false; false; false; false; false].
Proof. vm_compute. reflexivity. Qed.

Definition toy_url (s : string) : option url_parts :=
  match split_str "://" s with [scheme; host] => Some {| url_scheme := scheme; url_host := Some host |} | _ => None end.

Definition local_config : ClientConfig :=
  {| server_url := "http://[::1]"; check_interval_secs := 60; data_dir := "/d"; disk_check_mode := Permissive |}.

(** A local server loads, and a remote one over plain HTTP does not. *)
Lemma loaded_config_secure_witness :
  secure_server toy_url local_config /\
  let w := {| files := {[ ["c"] := File [] ]}; faults := fun _ => None; tick := 0 |} in
  (load_config toy_url (fun _ => Some {| server_url := "http://127.0.0.1.evil.com"; check_interval_secs := 60; data_dir := "/d";
                                         disk_check_mode := Permissive |}) None None (Some "/c") w).1 = Err InsecureUrl.
Proof.
  split; [|vm_compute; reflexivity].
  set (w := {| files := {[ ["c"] := File [] ]}; faults := fun _ => None; tick := 0 |}).
  exact (proj1 (loaded_config_secure toy_url (fun _ => Some local_config) None None (Some "/c") w local_config
                  (advance (advance w (files w)) (files (advance w (files w)))) eq_refl)).
Defined.
