(* ===== verification/Downloader.v ===== *)
(** * Downloader: fetching files ([deltaship-client/src/downloader.rs])

    The network is external: [net n r] is what the HTTP client gets for its
    [n]-th request, a response with a stream of chunks, any of which may be an
    error, or an error of the transport.  Progress bars and logging are left
    out; sleeping is recorded. *)

From S2P Require Import Prelude Text Version Diff Validation Fs Crypto DbModels Sql System ClientConfig.

#[local] Open Scope Z_scope.

(** ** Errors *)

(** [reqwest::Error]. *)
Record reqwest_error := {
  re_timeout : bool;
  re_connect : bool;
  re_status : option Z;
  re_text : string;
}.

(** [anyhow::Error], by its source. *)
Inductive client_error :=
| CReqwest (e : reqwest_error)
| CIo (e : io_error)
| CDb (e : DbError)
| CCrypto (e : CryptoError)
| CDiff (e : DiffError)
| CPanic                                            (** a panic, which no match on a result stops *)
| CBlocked                                          (** no error: a call that does not return *)
| CMsg (text : string)                              (** [anyhow!], [bail!] *)
| CContext (text : string) (source : client_error). (** [context] *)

#[global] Instance client_panics : Panics client_error := {|
  is_panic := fix is_panic e := match e with CPanic => true | CContext _ e => is_panic e | _ => false end;
  never_returns := fix never_returns e := match e with CBlocked => true | CContext _ e => never_returns e | _ => false end;
|}.

(** The messages of other crates' errors. *)
Class ErrorTexts := {
  io_text : io_error -> string;
  db_text : DbError -> string;
  crypto_text : CryptoError -> string;
  diff_text : DiffError -> string;
}.

Definition error_to_string `{ErrorTexts} (e : client_error) : string :=
  match e with
  | CReqwest e => re_text e
  | CIo e => io_text e
  | CDb e => db_text e
  | CCrypto e => crypto_text e
  | CDiff e => diff_text e
  | CPanic | CBlocked => ""
  | CMsg t => t
  | CContext t _ => t
  end.

(** [downcast_ref::<reqwest::Error>()]: contexts are looked through. *)
Fixpoint downcast_reqwest (e : client_error) : option reqwest_error :=
  match e with
  | CReqwest e => Some e
  | CContext _ e => downcast_reqwest e
  | _ => None
  end.

(** ** Requests *)

Inductive http_method := HEAD | GET.

Record http_request := {
  rq_method : http_method;
  rq_url : string;
  rq_query : list (string * string);
  rq_range : option Z;          (** [Range: bytes=n-] *)
  rq_https_only : bool;
}.

Record http_response := {
  rs_status : Z;
  rs_content_length : option Z;
  rs_content_range : option string;
  rs_chunks : list (result reqwest_error bytes);
}.

Definition RANGE_NOT_SATISFIABLE : Z := 416.
Definition PARTIAL_CONTENT : Z := 206.
Definition is_success (status : Z) : bool := (200 <=? status) && (status <? 300).

Definition MAX_RETRIES : Z := 3.
Definition INITIAL_BACKOFF_MS : Z := 1000.
Definition MAX_BACKOFF_MS : Z := 30000.
Definition PERMANENT_ERROR_CODES : list Z := [400; 401; 403; 404; 405; 410].

(** ** Statuses in error texts *)

(** The text from the first occurrence of [p] on. *)
Fixpoint find_from (p l : list ascii) : option (list ascii) :=
  if prefixb p l then Some l else match l with [] => None | _ :: l => find_from p l end.

Fixpoint drop_nondigits (l : list ascii) : list ascii :=
  match l with
  | c :: l' => if is_ascii_digit c then l else drop_nondigits l'
  | [] => []
  end.

(** [trim_matches(|c| !c.is_ascii_digit())]. *)
Definition trim_nondigits (s : string) : string :=
  of_chars (reverse (drop_nondigits (reverse (drop_nondigits (chars s))))).

(** A word that is a status code. *)
Definition status_word (w : string) : option Z :=
  match parse_unsigned 65535 (trim_nondigits w) with
  | Some code => if (100 <=? code) && (code <? 600) then Some code else None
  | None => None
  end.

Fixpoint first_status (words : list string) : option Z :=
  match words with
  | [] => None
  | w :: words => match status_word w with Some code => Some code | None => first_status words end
  end.

Definition status_in_text (error_str : string) : option Z :=
  match find_from (chars "status") (chars error_str) with
  | Some rest => first_status (tail (split_whitespace (of_chars rest)))
  | None => None
  end.

Definition extract_http_status `{ErrorTexts} (err : client_error) : option Z :=
  match downcast_reqwest err with
  | Some e => match re_status e with Some code => Some code | None => status_in_text (error_to_string err) end
  | None => status_in_text (error_to_string err)
  end.

Section Download.
Context {T : Type} {ET : ErrorTexts} {H : Type} {SH : StreamHasher H bytes}.
Context (net : nat -> http_request -> result reqwest_error http_response).
Context (url_parse : string -> option url_parts).
(** The text of a status code, e.g. [404 Not Found]. *)
Context (status_text : Z -> string).

#[local] Open Scope sys_scope.

Definition fs_call {A} (m : io (result io_error A)) : sys T client_error A := of_io (io_map (map_err CIo) m).
Definition fs_test (m : io bool) : sys T client_error bool := of_io (io_map Ok m).

(** [client.get(url)], [client.head(url)] and [send]. *)
Definition send (r : http_request) : sys T client_error http_response := fun s =>
  (map_err CReqwest (net (sy_requests s) r), 
   Sys (sy_fs s) (sy_db s) (rq_url r :: sy_sent s) (sy_slept s) (sy_audit s)).

Definition request_for (m : http_method) (url : string) (range : option Z) : http_request :=
  {| rq_method := m; rq_url := url; rq_query := []; rq_range := range;
     rq_https_only := require_https_for url_parse url |}.

(** [response.bytes()]: the whole body or the first error. *)
Fixpoint body (chunks : list (result reqwest_error bytes)) : result reqwest_error bytes :=
  match chunks with
  | [] => Ok []
  | c :: chunks => x ← c; y ← body chunks; Ok (x ++ y)
  end.

Definition download_bytes (url : string) : sys T client_error bytes :=
  response ←! send (request_for GET url None);
  if negb (is_success (rs_status response)) then
    sfail (CMsg ("Download failed with status: " +:+ status_text (rs_status response)))
  else of_result (map_err CReqwest (body (rs_chunks response))).

(** The size of a file that exists, 0 otherwise. *)
Definition existing_size (dest : string) : sys T client_error Z :=
  present ←! fs_test (exists_ dest);
  if (present : bool) then fs_call (file_len dest) else sret 0.

Definition verify_partial_download (dest : string) (expected_total_size : option Z) : sys T client_error bool :=
  existing ←! fs_call (file_len dest);
  if match expected_total_size with Some total => total <? existing | None => false end then sret false
  else
    of_io (io_map (map_err CCrypto) (hash_file dest)) ;;!
    sret true.

(** [while let Some(chunk) = stream.next().await]. *)
Fixpoint stream_loop (dest : string) (chunks : list (result reqwest_error bytes)) (downloaded : Z)
    : sys T client_error Z :=
  match chunks with
  | [] => sret downloaded
  | Err e :: _ => sfail (CContext "Failed to read chunk from stream" (CReqwest e))
  | Ok chunk :: chunks =>
      of_io (io_map (map_err (fun e => CContext "Failed to write chunk to file" (CIo e))) (append dest chunk)) ;;!
      stream_loop dest chunks (downloaded + lenZ chunk)
  end.

Definition download_stream_to_file (dest : string) (response : http_response) (existing : Z) (is_partial : bool)
    : sys T client_error Z :=
  downloaded ←! stream_loop dest (rs_chunks response) (if is_partial then existing else 0);
  of_io (io_map (map_err (fun e => CContext "Failed to flush file" (CIo e))) flush) ;;!
  sret downloaded.

(** Before resuming: a partial file that is too large or cannot be checked is
    removed. *)
Definition check_partial (url dest : string) (existing : Z) : sys T client_error unit :=
  if 0 <? existing then
    head ←! attempt (send (request_for HEAD url None));
    let expected_total_size := match head with Ok r => rs_content_length r | Err _ => None end in
    verified ←! attempt (verify_partial_download dest expected_total_size);
    match verified with
    | Ok true => sret tt
    | Ok false | Err _ => fs_call (remove_file dest)
    end
  else sret tt.

(** The destination, opened for appending or created afresh. *)
Definition open_dest (dest : string) (resume : bool) : sys T client_error unit :=
  if resume then
    of_io (io_map (map_err (fun e => CContext "Failed to open file for appending" (CIo e))) (open_existing dest))
  else
    of_io (io_map (map_err (fun e => CContext "Failed to create parent directory" (CIo e)))
             (match parent_path dest with Some parent => create_dir_all parent | None => mret (Ok tt) end)) ;;!
    of_io (io_map (map_err (fun e => CContext "Failed to create file" (CIo e))) (write dest [])).

Definition download_attempt (url dest : string) : sys T client_error Z :=
  size ←! existing_size dest;
  check_partial url dest size ;;!
  size ←! existing_size dest;
  response ←! send (request_for GET url (if 0 <? size then Some size else None));
  let status := rs_status response in
  if status =? RANGE_NOT_SATISFIABLE then sret size
  else if negb (is_success status) then sfail (CMsg ("Download failed with status: " +:+ status_text status))
  else
    let is_partial := status =? PARTIAL_CONTENT in
    open_dest dest (is_partial && (0 <? size)) ;;!
    download_stream_to_file dest response size is_partial.

(** The backoff before attempt [n], counted from 0. *)
Definition backoff_ms (attempt : Z) : Z := Z.min (INITIAL_BACKOFF_MS * 2 ^ (attempt - 1)) MAX_BACKOFF_MS.

Definition is_permanent (e : client_error) : bool :=
  match extract_http_status e with
  | Some code => bool_decide (code ∈ PERMANENT_ERROR_CODES)
  | None => false
  end.

(** [for attempt in 0..MAX_RETRIES], from attempt [n] with [remaining] attempts to go. *)
Fixpoint retry_loop (remaining : nat) (n : Z) (url dest : string) (all_errors : list string)
    : sys T client_error (Z + list string) :=
  match remaining with
  | O => sret (inr all_errors)
  | S remaining =>
      (if 0 <? n then sleep (backoff_ms n) else sret tt) ;;!
      r ←! attempt (download_attempt url dest);
      match r with
      | Ok bytes => sret (inl bytes)
      | Err e =>
          let all_errors := all_errors ++ ["Attempt " +:+ pretty (n + 1) +:+ ": " +:+ error_to_string e] in
          if is_permanent e then sret (inr all_errors) else retry_loop remaining (n + 1) url dest all_errors
      end
  end.

(** The error that reports the attempts. *)
Definition error_summary (all_errors : list string) : string :=
  match all_errors with
  | [e] => e
  | _ => "Last error: " +:+ default "Unknown error" (last all_errors) +:+ ". See logs for all " +:+
         pretty (lenZ all_errors) +:+ " errors."
  end.

(** The cleanup after the last attempt; a failure to remove is only logged. *)
Definition remove_failed (dest : string) : sys T client_error unit :=
  present ←! fs_test (exists_ dest);
  if (present : bool) then attempt (fs_call (remove_file dest)) ;;! sret tt else sret tt.

Definition download_failed (all_errors : list string) : client_error :=
  CMsg ("Download failed after " +:+ pretty (lenZ all_errors) +:+ " attempt(s): " +:+ error_summary all_errors).

Definition download_file_with_progress (url dest : string) : sys T client_error Z :=
  r ←! retry_loop (Z.to_nat MAX_RETRIES) 0 url dest [];
  match r with
  | inl bytes => sret bytes
  | inr all_errors => remove_failed dest ;;! sfail (download_failed all_errors)
  end.

(** ** [download_file]: one attempt, with the progress in percent *)

(** The total size the response announces. *)
Definition total_size (response : http_response) : option Z :=
  if rs_status response =? PARTIAL_CONTENT then
    rs_content_range response ≫= (fun r => parse_unsigned u64_max (default "" (last (split_char "/"%char r))))
  else rs_content_length response.

(** The percentage is [downloaded * 100 / total]: a total of zero panics. *)
Fixpoint progress_loop (dest : string) (total : option Z) (chunks : list (result reqwest_error bytes))
    : sys T client_error unit :=
  match chunks with
  | [] => sret tt
  | Err e :: _ => sfail (CContext "Failed to read chunk" (CReqwest e))
  | Ok chunk :: chunks =>
      of_io (io_map (map_err (fun e => CContext "Failed to write to file" (CIo e))) (append dest chunk)) ;;!
      if bool_decide (total = Some 0) then sfail CPanic else progress_loop dest total chunks
  end.

Definition send_in_context (context : string) (r : http_request) : sys T client_error http_response := fun s =>
  let '(x, s') := send r s in (map_err (CContext context) x, s').

Definition download_file (url dest : string) : sys T client_error unit :=
  present ←! fs_test (exists_ dest);
  size ←! (if (present : bool) then
             of_io (io_map (map_err (fun e => CContext "Failed to read metadata" (CIo e))) (file_len dest))
           else sret 0);
  response ←! send_in_context "Failed to send HTTP request"
                (request_for GET url (if 0 <? size then Some size else None));
  let status := rs_status response in
  if status =? RANGE_NOT_SATISFIABLE then sret tt
  else if negb (is_success status) then
    sfail (CMsg ("Download failed from " +:+ url +:+ ": status " +:+ status_text status))
  else
    open_dest dest ((status =? PARTIAL_CONTENT) && (0 <? size)) ;;!
    progress_loop dest (total_size response) (rs_chunks response) ;;!
    fs_call flush.
End Download.

(** ** What a download changes *)

Section Facts.
Context {T : Type} {ET : ErrorTexts} {H : Type} {SH : StreamHasher H bytes}.
Context (net : nat -> http_request -> result reqwest_error http_response).
Context (url_parse : string -> option url_parts) (status_text : Z -> string).

Section Frame.
Context (R : list string -> option node -> option node -> Prop) {HR : forall p, PreOrder (R p)}.
Context (dest : string) (Hdest : free R (resolve dest)).
Context (Hway : forall q, parent_path dest = Some q -> may_create R (resolve q)).

Lemma respects_send r : sys_respects R (send (T := T) net r).
Proof. by apply sys_respects_same. Qed.

Lemma respects_hash_file p : respects R (hash_file p).
Proof. unfold hash_file, hash_file_generic. do 2 apply respects_io_map. by apply respects_read. Qed.

Hint Resolve respects_send respects_hash_file : respects.

Lemma respects_stream_loop chunks n : sys_respects R (stream_loop (T := T) dest chunks n).
Proof.
  revert n; induction chunks as [|[c|e] chunks IH]; intros n; cbn [stream_loop]; [auto with respects| |auto with respects].
  sys_respects_tac.
Qed.

Hint Resolve respects_stream_loop : respects.

Lemma respects_download_attempt url : sys_respects R (download_attempt (T := T) net url_parse status_text url dest).
Proof.
  unfold download_attempt, existing_size, check_partial, verify_partial_download, download_stream_to_file,
    open_dest, fs_call, fs_test. sys_respects_tac; try (by apply respects_create_dir_all, Hway).
Qed.

Lemma respects_download_file url : sys_respects R (download_file (T := T) net url_parse status_text url dest).
Proof.
  assert (forall c r, sys_respects R (send_in_context (T := T) net c r)) as Hsend by (intros; by apply sys_respects_same).
  assert (forall total chunks, sys_respects R (progress_loop (T := T) dest total chunks)) as Hloop.
  { intros total chunks. induction chunks as [|[c|e] chunks IH]; cbn [progress_loop]; sys_respects_tac. }
  unfold download_file, open_dest, fs_call, fs_test.
  sys_respects_tac; try (by apply respects_create_dir_all, Hway).
Qed.

Lemma respects_retry_loop remaining n url errs :
  sys_respects R (retry_loop (T := T) net url_parse status_text remaining n url dest errs).
Proof.
  revert n errs; induction remaining as [|k IH]; intros n errs; cbn [retry_loop]; [auto with respects|].
  pose proof (respects_download_attempt url). sys_respects_tac.
Qed.

Lemma respects_download url :
  sys_respects R (download_file_with_progress (T := T) net url_parse status_text url dest).
Proof.
  unfold download_file_with_progress, remove_failed. pose proof respects_retry_loop. unfold fs_test, fs_call. sys_respects_tac.
Qed.
End Frame.

(** ** How long a download goes on *)

(** The requests and the sleeping of a program that never sleeps. *)
Definition spends {E A} (n : nat) (m : sys T E A) : Prop :=
  forall s, sy_slept (m s).2 = sy_slept s /\ (sy_requests (m s).2 <= sy_requests s + n)%nat.

Lemma spends_bind {E A B} n k (m : sys T E A) (f : A -> sys T E B) :
  spends n m -> (forall a, spends k (f a)) -> spends (n + k) (sbind m f).
Proof.
  intros Hm Hf s. destruct (Hm s) as [H1 H2]. unfold sbind. destruct (m s) as [[a|e] s']; cbn in *; [|split; [done|lia]].
  destruct (Hf a s') as [H3 H4]. split; [congruence|lia].
Qed.

Lemma spends_weaken {E A} n k (m : sys T E A) : spends n m -> (n <= k)%nat -> spends k m.
Proof. intros Hm Hle s. destruct (Hm s). split; [done|lia]. Qed.

Lemma spends_io {E A} (m : io (result E A)) : spends 0 (of_io m).
Proof. intros s. unfold of_io, sy_requests. destruct (m (sy_fs s)). cbn. split; [done|lia]. Qed.
Lemma spends_result {E A} (r : result E A) : spends 0 (of_result r).
Proof. intros s. unfold sy_requests. cbn. split; [done|lia]. Qed.
Lemma spends_send r : spends 1 (send (T := T) net r).
Proof. intros s. unfold sy_requests. cbn. split; [done|lia]. Qed.
Lemma spends_attempt `{Panics E} {A} n (m : sys T E A) : spends n m -> spends n (attempt m).
Proof.
  intros Hm s. destruct (Hm s). unfold attempt. destruct (m s) as [[a|e] s']; [done|]. by destruct (uncaught e).
Qed.

Lemma spends_stream_loop dest chunks n : spends 0 (stream_loop (T := T) dest chunks n).
Proof.
  revert n; induction chunks as [|[c|e] chunks IH]; intros n; cbn [stream_loop];
    [apply (spends_result (Ok _))| |apply (spends_result (Err _))].
  apply (spends_bind 0 0); [apply spends_io|done].
Qed.

Lemma spends_existing_size dest : spends 0 (existing_size (T := T) dest).
Proof.
  apply (spends_bind 0 0); [apply spends_io|]. intros b. destruct b; [apply spends_io|apply (spends_result (Ok _))].
Qed.

Lemma spends_check_partial url dest n : spends 1 (check_partial (T := T) net url_parse url dest n).
Proof.
  unfold check_partial. case_match; [|apply (spends_weaken 0); [apply (spends_result (Ok _))|lia]].
  apply (spends_bind 1 0); [apply spends_attempt, spends_send|]. intros h. cbn zeta.
  apply (spends_bind 0 0).
  - apply spends_attempt. unfold verify_partial_download.
    apply (spends_bind 0 0); [apply spends_io|]. intros k. case_match; [apply (spends_result (Ok _))|].
    apply (spends_bind 0 0); [apply spends_io|]. intros _. apply (spends_result (Ok _)).
  - intros r. repeat case_match; first [apply (spends_result (Ok _))|apply spends_io].
Qed.

(** One attempt sends at most two requests and does not sleep. *)
Lemma spends_download_attempt url dest : spends 2 (download_attempt (T := T) net url_parse status_text url dest).
Proof.
  apply (spends_bind 0 2); [apply spends_existing_size|]. intros n.
  apply (spends_bind 1 1); [apply spends_check_partial|]. intros _.
  apply (spends_bind 0 1); [apply spends_existing_size|]. intros k.
  apply (spends_bind 1 0); [apply spends_send|]. intros resp. cbn zeta.
  case_match; [apply (spends_result (Ok _))|]. case_match; [apply (spends_result (Err _))|].
  apply (spends_bind 0 0).
  - unfold open_dest. case_match; [apply spends_io|]. apply (spends_bind 0 0); [apply spends_io|]. intros _. apply spends_io.
  - intros _. apply (spends_bind 0 0); [apply spends_stream_loop|]. intros d.
    apply (spends_bind 0 0); [apply spends_io|]. intros _. apply (spends_result (Ok _)).
Qed.

(** The pauses before the attempts [n], [n+1], ... *)
Fixpoint pauses (n : Z) (k : nat) : list Z :=
  match k with
  | O => []
  | S k => (if 0 <? n then [backoff_ms n] else []) ++ pauses (n + 1) k
  end.

Lemma retry_loop_spends remaining n url dest errs s :
  exists k, (k <= remaining)%nat /\ (remaining = 0 \/ 1 <= k)%nat /\
    let s' := (retry_loop (T := T) net url_parse status_text remaining n url dest errs s).2 in
    (sy_requests s' <= sy_requests s + 2 * k)%nat /\ sy_slept s' = reverse (pauses n k) ++ sy_slept s.
Proof.
  revert n errs s; induction remaining as [|rem IH]; intros n errs s.
  { exists 0%nat. unfold sy_requests. cbn. split; [lia|]. split; [lia|]. split; [lia|done]. }
  cbn [retry_loop].
  set (s1 := if 0 <? n then Sys (sy_fs s) (sy_db s) (sy_sent s) (backoff_ms n :: sy_slept s) (sy_audit s) else s).
  assert (((if 0 <? n then sleep (E := client_error) (backoff_ms n) else sret tt) s) = (Ok tt, s1)) as Hsl.
  { unfold s1. by destruct (0 <? n). }
  rewrite (sbind_step _ _ _ _ _ Hsl). clear Hsl.
  assert (sy_requests s1 = sy_requests s /\ sy_slept s1 = reverse (pauses n 1) ++ sy_slept s) as [Hr1 Hs1].
  { unfold s1, sy_requests. cbn. by destruct (0 <? n). }
  unfold sbind, attempt. destruct (spends_download_attempt url dest s1) as [Hs2 Hr2].
  destruct (download_attempt _ _ _ url dest s1) as [r s2]. cbn [snd] in *.
  assert (exists k, (k <= S rem)%nat /\ (S rem = 0 \/ 1 <= k)%nat /\
    (sy_requests s2 <= sy_requests s + 2 * k)%nat /\ sy_slept s2 = reverse (pauses n k) ++ sy_slept s) as Hone.
  { exists 1%nat. split_and!; try lia. by rewrite Hs2. }
  destruct r as [bytes|e]; [exact Hone|]. destruct (uncaught e); [exact Hone|]. cbn zeta. destruct (is_permanent e); [exact Hone|]. clear Hone.
  destruct (IH (n + 1) (errs ++ ["Attempt " +:+ pretty (n + 1) +:+ ": " +:+ error_to_string e]) s2)
    as (k & Hk & _ & Hr & Hs).
  exists (S k). split; [lia|]. split; [lia|]. cbn zeta in *. split; [lia|].
  rewrite Hs, Hs2, Hs1. cbn [pauses]. by rewrite app_nil_r, reverse_app, <- app_assoc.
Qed.

(** What follows a program that pauses and sends nothing adds nothing. *)
Lemma spends_tail {E A B} (m : sys T E A) (k : A -> sys T E B) s :
  (forall a, spends 0 (k a)) ->
  sy_slept (sbind m k s).2 = sy_slept (m s).2 /\ (sy_requests (sbind m k s).2 <= sy_requests (m s).2)%nat.
Proof.
  intros Hk. unfold sbind. destruct (m s) as [[a|e] s1]; [|by split].
  destruct (Hk a s1) as [H1 H2]. cbn [snd]. split; [exact H1|lia].
Qed.

Lemma spends_remove_failed dest : spends 0 (remove_failed (T := T) dest).
Proof.
  apply (spends_bind 0 0); [apply spends_io|]. intros b.
  destruct b; [|apply (spends_result (Ok _))].
  apply (spends_bind 0 0); [apply spends_attempt, spends_io|]. intros r. apply (spends_result (Ok _)).
Qed.

(** A download stops: it makes at most three attempts of at most two requests
    each, and pauses one second before the second attempt and two seconds before
    the third, whatever the network and the file system answer. *)
Theorem download_attempts_bounded url dest s :
  exists k, (1 <= k <= 3)%nat /\
    let s' := (download_file_with_progress (T := T) net url_parse status_text url dest s).2 in
    (sy_requests s' <= sy_requests s + 2 * k)%nat /\
    sy_slept s' = reverse (take (k - 1) [1000; 2000]) ++ sy_slept s.
Proof.
  destruct (retry_loop_spends 3 0 url dest [] s) as (k & Hk & Hk1 & Hr & Hs). cbn zeta in *.
  exists k. split; [lia|].
  destruct (spends_tail (retry_loop (T := T) net url_parse status_text 3 0 url dest [])
    (fun r => match r with
              | inl bytes => sret bytes
              | inr all_errors => sbind (remove_failed dest) (fun _ => sfail (download_failed all_errors))
              end) s) as [Hsl Hrq].
  { intros [bytes|errs]; [apply (spends_result (Ok _))|].
    apply (spends_bind 0 0); [apply spends_remove_failed|intros u; apply (spends_result (Err _))]. }
  change (Z.to_nat MAX_RETRIES) with 3%nat in *. unfold download_file_with_progress.
  split; [etrans; [exact Hrq|exact Hr]|]. etrans; [exact Hsl|]. rewrite Hs. f_equal. f_equal.
  destruct k as [|[|[|[|k]]]]; try lia; reflexivity.
Qed.
End Facts.

(** ** What downloads keep *)

Section Keeps.
Context {T : Type} (P : system T -> Prop) {F : Framed P} {ET : ErrorTexts} {H : Type} {SH : StreamHasher H bytes}.
Context (net : nat -> http_request -> result reqwest_error http_response).
Context (url_parse : string -> option url_parts) (status_text : Z -> string).

Lemma keeps_send r : keeps P (send net r).
Proof using F. intros s Hs. exact (framed_request P s _ Hs). Qed.

Hint Resolve keeps_send : keeps.

Lemma keeps_download_bytes url : keeps P (download_bytes net url_parse status_text url).
Proof. unfold download_bytes. keeps_tac. Qed.

Lemma keeps_stream_loop dest chunks n : keeps P (stream_loop dest chunks n).
Proof. revert n; induction chunks as [|[c|e] chunks IH]; intros n; cbn [stream_loop]; keeps_tac. Qed.

Lemma keeps_download_attempt url dest : keeps P (download_attempt net url_parse status_text url dest).
Proof.
  pose proof keeps_stream_loop.
  unfold download_attempt, existing_size, check_partial, verify_partial_download, open_dest, download_stream_to_file,
    fs_call, fs_test. keeps_tac.
Qed.

Lemma keeps_retry_loop remaining n url dest errs :
  keeps P (retry_loop net url_parse status_text remaining n url dest errs).
Proof.
  pose proof keeps_download_attempt.
  revert n errs; induction remaining as [|k IH]; intros n errs; cbn [retry_loop]; keeps_tac.
Qed.

Lemma keeps_download url dest : keeps P (download_file_with_progress net url_parse status_text url dest).
Proof.
  pose proof keeps_retry_loop. unfold download_file_with_progress, remove_failed, fs_call, fs_test. keeps_tac.
Qed.

Lemma keeps_download_file url dest : keeps P (download_file net url_parse status_text url dest).
Proof.
  assert (forall c r, keeps P (send_in_context net c r)) by (intros c r s Hs; exact (framed_request P s _ Hs)).
  assert (forall total chunks, keeps P (progress_loop dest total chunks)).
  { intros total chunks. induction chunks as [|[c|e] chunks IH]; cbn [progress_loop]; keeps_tac. }
  unfold download_file, open_dest, fs_call, fs_test. keeps_tac.
Qed.
End Keeps.
#[global] Hint Resolve keeps_send keeps_download_bytes keeps_download keeps_download_file : keeps.

(** ** Downloads that do not panic *)

Section Steady.
Context {T : Type} {ET : ErrorTexts} {H : Type} {SH : StreamHasher H bytes}.
Context (net : nat -> http_request -> result reqwest_error http_response).
Context (url_parse : string -> option url_parts) (status_text : Z -> string).

Lemma steady_fs_call {A} (m : io (result io_error A)) : steady (fs_call (T := T) m).
Proof. apply steady_io. done. Qed.
Lemma steady_fs_test m : steady (fs_test (T := T) m).
Proof. apply steady_io_Ok. Qed.
Lemma steady_send r : steady (send (T := T) net r).
Proof. intros s e s'. unfold send. destruct (net _ _); intros [= <- <-]. done. Qed.
Lemma steady_map_err {X A} (f : X -> client_error) (r : result X A) :
  (forall x, uncaught (f x) = false) -> steady (T := T) (of_result (map_err f r)).
Proof. intros Hf. apply steady_result. destruct r as [a|x]; intros e [= <-]. apply Hf. Qed.

(** A match on the result of a file operation. *)
Lemma attempt_fs_call {A} (m : io (result io_error A)) (s : system T) :
  attempt (fs_call m) s = (Ok (map_err CIo (m (sy_fs s)).1), with_fs (m (sy_fs s)).2 s).
Proof. rewrite attempt_steady by apply steady_fs_call. unfold fs_call, of_io, io_map. by destruct (m (sy_fs s)). Qed.

Hint Resolve steady_fs_call steady_fs_test steady_send : steady.
Hint Extern 1 (steady (of_result (map_err _ _))) => apply steady_map_err; done : steady.

Lemma steady_download_bytes url : steady (download_bytes (T := T) net url_parse status_text url).
Proof. unfold download_bytes. steady_tac. Qed.

Lemma steady_stream_loop dest chunks n : steady (stream_loop (T := T) dest chunks n).
Proof. revert n; induction chunks as [|[c|e] chunks IH]; intros n; cbn [stream_loop]; steady_tac. Qed.

Lemma steady_download_attempt url dest : steady (download_attempt (T := T) net url_parse status_text url dest).
Proof.
  pose proof steady_stream_loop.
  unfold download_attempt, existing_size, check_partial, verify_partial_download, open_dest, download_stream_to_file.
  steady_tac.
Qed.

Lemma steady_retry_loop remaining n url dest errs :
  steady (retry_loop (T := T) net url_parse status_text remaining n url dest errs).
Proof.
  pose proof steady_download_attempt.
  revert n errs; induction remaining as [|k IH]; intros n errs; cbn [retry_loop]; steady_tac.
Qed.

Lemma steady_download url dest : steady (download_file_with_progress (T := T) net url_parse status_text url dest).
Proof. pose proof steady_retry_loop. unfold download_file_with_progress, remove_failed. steady_tac. Qed.
End Steady.
#[global] Hint Resolve steady_fs_call steady_fs_test steady_send steady_download_bytes steady_download : steady.
#[global] Hint Extern 1 (steady (of_result (map_err _ _))) => apply steady_map_err; done : steady.
