(* ===== verification/Checker.v ===== *)
(** * Checker: asking the server for updates ([deltaship-client/src/checker.rs])

    The client sends its platform and version and turns the answer into an
    [UpdateInfo].  The network and the JSON decoder are external ([net],
    [decode_response]); logging is left out. *)

From S2P Require Import Prelude Text Version Core Validation Fs DbModels Sql System ClientConfig Downloader.

#[local] Open Scope Z_scope.

Definition MAX_RELEASE_NOTES_SIZE : Z := 64 * 1024.
Definition MAX_VERSION_LENGTH : Z := 64.

(** ** Errors worth a retry *)

Definition in_range (a b code : Z) : bool := (a <=? code) && (code <? b).

(** The first status code in the message that decides. *)
Fixpoint words_retry (words : list string) : option bool :=
  match words with
  | [] => None
  | w :: words =>
      match parse_unsigned 65535 (trim_nondigits w) with
      | Some code =>
          if in_range 100 600 code then
            if (code =? 429) || in_range 500 600 code then Some true
            else if bool_decide (code ∈ PERMANENT_ERROR_CODES) then Some false
            else words_retry words
          else words_retry words
      | None => words_retry words
      end
  end.

(** What the error of the HTTP client says, when it says something. *)
Definition reqwest_retry (e : reqwest_error) : option bool :=
  if re_timeout e || re_connect e then Some true
  else match re_status e with
       | Some code =>
           if (code =? 429) || in_range 500 600 code then Some true
           else if in_range 400 500 code then Some false
           else None
       | None => None
       end.

Definition text_retry (error_str : string) : bool :=
  if contains_str "timeout" error_str || contains_str "connection" error_str then true
  else default true (words_retry (split_whitespace error_str)).

Definition should_retry_error `{ErrorTexts} (err : client_error) : bool :=
  match downcast_reqwest err ≫= reqwest_retry with
  | Some b => b
  | None => text_retry (to_lowercase (error_to_string err))
  end.

(** ** Names in URLs *)

Definition unreserved (c : ascii) : bool := is_ascii_alphanumeric c || bool_decide (c ∈ chars "-_.~").

Definition upper_hex_digit (n : Z) : ascii := if n <? 10 then chr (48 + n) else chr (55 + n).

(** [{:02X}] after a percent sign. *)
Definition percent (c : ascii) : list ascii :=
  ["%"%char; upper_hex_digit (code c / 16); upper_hex_digit (code c mod 16)].

(** A character outside ASCII is encoded byte by byte. *)
Definition url_encode_path_segment (s : string) : string :=
  of_chars (concat ((fun c => if unreserved c then [c] else percent c) <$> chars s)).

(** ** Versions from the server *)

Definition format_char (c : ascii) : bool := is_ascii_alphanumeric c || bool_decide (c ∈ chars ".-_").

Definition validate_version_format (version : string) : result client_error unit :=
  if str_is_empty version then Err (CMsg "Version string cannot be empty")
  else if MAX_VERSION_LENGTH <? str_len version then
    Err (CMsg ("Version string too long: " +:+ pretty (str_len version) +:+ " characters (max 64)"))
  else if starts_with "." version || ends_with "." version then
    Err (CMsg ("Invalid version format: '" +:+ version +:+ "'. Version strings cannot start or end with a dot."))
  else if contains_str ".." version then
    Err (CMsg ("Invalid version format: '" +:+ version +:+ "'. Version strings cannot contain consecutive dots."))
  else if negb (all_chars format_char version) then
    Err (CMsg ("Invalid version format: '" +:+ version +:+
               "'. Only alphanumeric characters, dots, hyphens, and underscores are allowed."))
  else Ok tt.

(** ** Release notes *)

(** The first [n] characters. *)
Definition take_chars (n : Z) (s : string) : string := of_chars (concat (takeZ n (utf8_chars (chars s)))).

Definition sanitize_release_notes (notes : option string) : option string :=
  (fun s => if MAX_RELEASE_NOTES_SIZE <? str_len s then take_chars MAX_RELEASE_NOTES_SIZE s +:+ "... [truncated]"
            else s) <$> notes.

(** [char::is_control]. *)
Definition is_control (u : list ascii) : bool :=
  match u with
  | [c] => (code c <? 32) || (code c =? 127)
  | [c; d] => (code c =? 194) && in_range 128 160 (code d)
  | _ => false
  end.

Definition sanitize_body (b : string) : string :=
  of_chars (concat ((fun u => if is_control u && negb (bool_decide (u = [chr 10])) then [" "%char] else u) <$>
                    takeZ 200 (utf8_chars (chars b)))).

(** ** The check *)

Section Checker.
Context {SV : Semver} {ET : ErrorTexts} {T : Type}.
Context (net : nat -> http_request -> result reqwest_error http_response).
Context (url_parse : string -> option url_parts) (status_text : Z -> string).

Record UpdateInfo := {
  ui_version : Version;
  ui_version_id : string;
  ui_diff_url : option string;
  ui_diff_checksum : option string;
  ui_diff_size : option Z;
  ui_full_binary_url : option string;
  ui_full_binary_size : option Z;
  ui_checksum : string;
  ui_signature_url : option string;
  ui_forced : bool;
  ui_release_notes : option string;
}.

Record ServerUpdateResponse := { su_base : UpdateCheckResponse; su_version_id : option string }.

Context (decode_response : bytes -> result reqwest_error ServerUpdateResponse).
Context (decode_text : bytes -> string).   (** [Response::text], lossy *)

#[local] Open Scope sys_scope.

(** [format!("{}{}", base, u)] for a URL that starts with a slash. *)
Definition absolutize (base : string) (url : option string) : option string :=
  (fun u => if starts_with "/" u then base +:+ u else u) <$> url.

(** From the decoded answer to the update. *)
Definition extract_update (server_url : string) (r : ServerUpdateResponse)
    : result client_error (option UpdateInfo) :=
  if negb (update_available (su_base r)) then Ok None
  else
    version ← ok_or (CMsg "Update available but no target version provided") (target_version (su_base r));
    let version_str := version_to_string version in
    _ ← validate_version_format version_str;
    sum ← ok_or (CMsg "Update available but no checksum provided") (checksum (su_base r));
    let version_id := default version_str (su_version_id r) in
    _ ← validate_version_format version_id;
    let base := trim_end_matches "/"%char server_url in
    Ok (Some {|
      ui_version := version;
      ui_version_id := version_id;
      ui_diff_url := absolutize base (diff_url (su_base r));
      ui_diff_checksum := diff_checksum (su_base r);
      ui_diff_size := diff_size (su_base r);
      ui_full_binary_url := absolutize base (full_binary_url (su_base r));
      ui_full_binary_size := full_binary_size (su_base r);
      ui_checksum := sum;
      ui_signature_url := absolutize base (signature_url (su_base r));
      ui_forced := forced (su_base r);
      ui_release_notes := sanitize_release_notes (release_notes (su_base r));
    |}).

(** The request; the client was built for the configured server. *)
Definition check_request (config : ClientConfig) (binary : DbManagedBinary) (url : string) : http_request := {|
  rq_method := GET;
  rq_url := url;
  rq_query := ("platform", m_platform binary) ::
              match m_current_version_string binary with Some v => [("current_version", v)] | None => [] end;
  rq_range := None;
  rq_https_only := require_https_for url_parse (server_url config);
|}.

(** The error for an answer that is no success; an unreadable body reads as empty. *)
Definition status_error (response : http_response) : client_error :=
  let b := match body (rs_chunks response) with Ok b => decode_text b | Err _ => "" end in
  CMsg ("Update check failed with status " +:+ status_text (rs_status response) +:+ ": " +:+ sanitize_body b +:+
        (if 200 <? str_len b then "... [truncated]" else "")).

Definition check_for_updates_attempt (config : ClientConfig) (binary : DbManagedBinary) (url : string)
    : sys T client_error (option UpdateInfo) :=
  response ←! send net (check_request config binary url);
  if negb (is_success (rs_status response)) then sfail (status_error response)
  else
    r ←! of_result (map_err CReqwest (b ← body (rs_chunks response); decode_response b));
    of_result (extract_update (server_url config) r).

Fixpoint check_loop (remaining : nat) (n : Z) (config : ClientConfig) (binary : DbManagedBinary) (url : string)
    (all_errors : list string) : sys T client_error (option UpdateInfo + list string) :=
  match remaining with
  | O => sret (inr all_errors)
  | S remaining =>
      (if 0 <? n then sleep (backoff_ms n) else sret tt) ;;!
      r ←! attempt (check_for_updates_attempt config binary url);
      match r with
      | Ok u => sret (inl u)
      | Err e =>
          let all_errors := all_errors ++ ["Attempt " +:+ pretty (n + 1) +:+ ": " +:+ error_to_string e] in
          if should_retry_error e then check_loop remaining (n + 1) config binary url all_errors
          else sret (inr all_errors)
      end
  end.

Definition check_url (config : ClientConfig) (binary : DbManagedBinary) : string :=
  trim_end_matches "/"%char (server_url config) +:+ "/api/v1/apps/" +:+
  url_encode_path_segment (m_binary_name binary) +:+ "/check-update".

Definition check_for_updates (config : ClientConfig) (binary : DbManagedBinary)
    : sys T client_error (option UpdateInfo) :=
  r ←! check_loop (Z.to_nat MAX_RETRIES) 0 config binary (check_url config binary) [];
  match r with
  | inl u => sret u
  | inr all_errors =>
      sfail (CMsg ("Update check failed after " +:+ pretty (lenZ all_errors) +:+ " attempt(s): " +:+
                   error_summary all_errors))
  end.

(** [UpdateChecker::health_check]. *)
Definition server_health_check (config : ClientConfig) : sys T client_error bool :=
  r ←! attempt (send net {|
    rq_method := GET; rq_url := trim_end_matches "/"%char (server_url config) +:+ "/api/v1/health";
    rq_query := []; rq_range := None; rq_https_only := require_https_for url_parse (server_url config) |});
  sret (match r with Ok response => is_success (rs_status response) | Err _ => false end).
End Checker.

(** ** What the check guarantees *)

(** Decoding percent escapes, as a server does. *)
Fixpoint percent_decode (l : list ascii) : option (list ascii) :=
  match l with
  | [] => Some []
  | c :: l =>
      if bool_decide (c = "%"%char) then
        match l with
        | a :: b :: l =>
            match digit16 a, digit16 b with
            | Some x, Some y => (cons (chr (16 * x + y))) <$> percent_decode l
            | _, _ => None
            end
        | _ => None
        end
      else (cons c) <$> percent_decode l
  end.

(** The characters of an encoded segment: no separator, no query, no fragment. *)
Definition segment_char (c : ascii) : bool := unreserved c || bool_decide (c = "%"%char).

Lemma percent_decode_step c l :
  percent_decode ((if unreserved c then [c] else percent c) ++ l) = (cons c) <$> percent_decode l.
Proof. by destruct c as [[] [] [] [] [] [] [] []]. Qed.

Lemma segment_chars c : Forall (fun d => segment_char d = true) (if unreserved c then [c] else percent c).
Proof. destruct c as [[] [] [] [] [] [] [] []]; repeat constructor. Qed.

(** An application name becomes one path segment of the URL: the encoded name
    contains only unreserved characters and percent signs, so no slash, query or
    fragment, and decoding it gives the name back. *)
Theorem url_encode_roundtrip name :
  percent_decode (chars (url_encode_path_segment name)) = Some (chars name) /\
  Forall (fun c => segment_char c = true) (chars (url_encode_path_segment name)).
Proof.
  unfold url_encode_path_segment. rewrite chars_of_chars.
  induction (chars name) as [|c l [IH1 IH2]]; [by split|]. cbn [fmap list_fmap concat]. split.
  - rewrite percent_decode_step, IH1. done.
  - apply Forall_app. split; [apply segment_chars|done].
Qed.

(** ** Versions *)

Record safe_format (v : string) : Prop := {
  sf_nonempty : v <> "";
  sf_length : str_len v <= MAX_VERSION_LENGTH;
  sf_chars : Forall (fun c => format_char c = true) (chars v);
  sf_dots : contains_str ".." v = false;
  sf_first : starts_with "." v = false;
  sf_last : ends_with "." v = false;
}.

Lemma validate_version_format_iff v : validate_version_format v = Ok tt <-> safe_format v.
Proof.
  unfold validate_version_format. unfold str_is_empty. case_bool_decide as He.
  { split; [done|]. by intros []. }
  destruct (Z.ltb_spec MAX_VERSION_LENGTH (str_len v)). { split; [done|]. intros []. lia. }
  destruct (starts_with "." v) eqn:E1. { split; [done|]. intros []. congruence. }
  destruct (ends_with "." v) eqn:E2. { split; [done|]. intros []. congruence. }
  destruct (contains_str ".." v) eqn:E3. { split; [done|]. intros []. congruence. }
  destruct (all_chars format_char v) eqn:E4; cbn.
  - split; [intros _|done]. by apply all_chars_Forall in E4.
  - split; [done|]. intros []. apply not_true_iff_false in E4. exfalso. by apply E4, all_chars_Forall.
Qed.

(** Such a version is one component of a path and has no build metadata. *)
Lemma safe_format_plain v : safe_format v -> plain v /\ ("+"%char ∉ chars v) /\ "/"%char ∉ chars v.
Proof.
  intros [Hn Hl Hc Hd Hf Hla]. rewrite Forall_forall in Hc.
  assert ("/"%char ∉ chars v) as Hs by (intros Hi; by specialize (Hc _ Hi)).
  split_and!; [|by intros Hi; specialize (Hc _ Hi)|done].
  split_and!; [done| | |done]; by intros ->.
Qed.

Section Facts.
Context {SV : Semver} {ET : ErrorTexts} {T : Type}.
Context (net : nat -> http_request -> result reqwest_error http_response).
Context (url_parse : string -> option url_parts) (status_text : Z -> string).
Context (decode_response : bytes -> result reqwest_error ServerUpdateResponse) (decode_text : bytes -> string).

Abbreviation check := (check_for_updates (T := T) net url_parse status_text decode_response decode_text).
Abbreviation check_attempt := (check_for_updates_attempt (T := T) net url_parse status_text decode_response decode_text).
Abbreviation checks := (check_loop (T := T) net url_parse status_text decode_response decode_text).

Lemma extract_update_safe server_url r u :
  extract_update server_url r = Ok (Some u) ->
  safe_format (version_to_string (ui_version u)) /\ safe_format (ui_version_id u) /\
  update_available (su_base r) = true /\ target_version (su_base r) = Some (ui_version u) /\
  checksum (su_base r) = Some (ui_checksum u).
Proof.
  unfold extract_update. destruct (update_available (su_base r)); [|done]. cbn [negb].
  intros (v & Hv%ok_or_Ok & H)%result_bind_Ok. cbn zeta in H.
  apply result_bind_Ok in H as ([] & H1%validate_version_format_iff & H).
  apply result_bind_Ok in H as (c & Hc%ok_or_Ok & H).
  apply result_bind_Ok in H as ([] & H2%validate_version_format_iff & H).
  by injection H as <-.
Qed.

(** The attempt changes nothing but the requests sent. *)
Lemma check_attempt_steps config binary url s :
  sy_fs (check_attempt config binary url s).2 = sy_fs s /\ sy_db (check_attempt config binary url s).2 = sy_db s /\
  sy_audit (check_attempt config binary url s).2 = sy_audit s /\
  sy_slept (check_attempt config binary url s).2 = sy_slept s /\
  sy_sent (check_attempt config binary url s).2 = url :: sy_sent s.
Proof.
  unfold check_for_updates_attempt, send, sbind, of_result, sfail.
  repeat (case_match; simplify_eq/=; try done).
Qed.

Lemma validate_version_format_steady v e : validate_version_format v = Err e -> uncaught e = false.
Proof. unfold validate_version_format. repeat case_match; intros [= <-]; done. Qed.

Lemma extract_update_steady server_url r e : extract_update server_url r = Err e -> uncaught e = false.
Proof.
  unfold extract_update, mbind, result_bind. case_match; [done|].
  destruct (target_version _) as [v|]; cbn [ok_or]; [|by intros [= <-]].
  destruct (validate_version_format _) as [[]|e1] eqn:E1; [|intros [= <-]; by eapply validate_version_format_steady].
  destruct (checksum _) as [c|]; cbn [ok_or]; [|by intros [= <-]].
  destruct (validate_version_format (default _ _)) as [[]|e1] eqn:E2; [done|].
  intros [= <-]; by eapply validate_version_format_steady.
Qed.

Lemma steady_check_attempt config binary url : steady (check_attempt config binary url).
Proof.
  unfold check_for_updates_attempt, status_error. steady_tac. apply steady_result. intros e. apply extract_update_steady.
Qed.

Lemma steady_check config binary : steady (check config binary).
Proof.
  assert (forall remaining n url errs, steady (checks remaining n config binary url errs)).
  { pose proof steady_check_attempt. intros remaining. induction remaining; intros n url errs; cbn [check_loop]; steady_tac. }
  unfold check_for_updates. steady_tac.
Qed.

Lemma check_attempt_safe config binary url s u s' :
  check_attempt config binary url s = (Ok (Some u), s') ->
  safe_format (version_to_string (ui_version u)) /\ safe_format (ui_version_id u).
Proof.
  unfold check_for_updates_attempt. intros (resp & s1 & _ & H)%sbind_Ok. case_match; [done|].
  apply sbind_Ok in H as (r & s2 & _ & H). injection H as H _. apply extract_update_safe in H. naive_solver.
Qed.

Lemma check_loop_facts remaining n config binary url errs s :
  let r := checks remaining n config binary url errs s in
  sy_fs r.2 = sy_fs s /\ sy_db r.2 = sy_db s /\ sy_audit r.2 = sy_audit s /\
  (forall u, r.1 = Ok (inl (Some u)) ->
     safe_format (version_to_string (ui_version u)) /\ safe_format (ui_version_id u)) /\
  exists k, (min 1 remaining <= k <= remaining)%nat /\ sy_sent r.2 = replicate k url ++ sy_sent s /\
    sy_slept r.2 = reverse (pauses n k) ++ sy_slept s.
Proof.
  cbn zeta. revert n errs s; induction remaining as [|rem IH]; intros n errs s.
  { cbn. split_and!; try done. by exists 0%nat. }
  cbn [check_loop].
  set (s1 := if 0 <? n then Sys (sy_fs s) (sy_db s) (sy_sent s) (backoff_ms n :: sy_slept s) (sy_audit s) else s).
  assert (((if 0 <? n then sleep (E := client_error) (backoff_ms n) else sret tt) s) = (Ok tt, s1)) as Hsl.
  { unfold s1. by destruct (0 <? n). }
  rewrite (sbind_step _ _ _ _ _ Hsl). clear Hsl.
  assert (sy_fs s1 = sy_fs s /\ sy_db s1 = sy_db s /\ sy_audit s1 = sy_audit s /\ sy_sent s1 = sy_sent s /\
    sy_slept s1 = reverse (pauses n 1) ++ sy_slept s) as (Hf1 & Hd1 & Ha1 & Hr1 & Hs1).
  { unfold s1. cbn. by destruct (0 <? n). }
  destruct (check_attempt_steps config binary url s1) as (Hf2 & Hd2 & Ha2 & Hs2 & Hr2).
  pose proof (check_attempt_safe config binary url s1) as Hsafe.
  destruct (check_attempt config binary url s1) as [r s2] eqn:E. cbn [fst snd] in *.
  rewrite (sbind_step _ _ _ r s2) by (rewrite attempt_steady, E by apply steady_check_attempt; done).
  assert (sy_fs s2 = sy_fs s /\ sy_db s2 = sy_db s /\ sy_audit s2 = sy_audit s) as (Hf & Hd & Ha) by (split_and!; congruence).
  assert (sy_sent s2 = url :: sy_sent s /\ sy_slept s2 = reverse (pauses n 1) ++ sy_slept s) as [Hr Hs]
    by (split; congruence).
  destruct r as [u|e]; cbn zeta.
  - cbn. split_and!; [done..| |exists 1%nat; split; [lia|by split]].
    intros u' [= ->]. by eapply Hsafe.
  - destruct (should_retry_error e).
    + destruct (IH (n + 1) (errs ++ ["Attempt " +:+ pretty (n + 1) +:+ ": " +:+ error_to_string e]) s2)
        as (H1 & H2 & H3 & H4 & k & Hk & H5 & H6).
      split_and!; [congruence..|exact H4|]. exists (S k). split; [lia|]. split; [by rewrite H5, Hr, (replicate_S_end k url), <- app_assoc|].
      rewrite H6, Hs. cbn [pauses]. by rewrite app_nil_r, reverse_app, <- app_assoc.
    + cbn. split_and!; try done. exists 1%nat. split; [lia|by split].
Qed.

(** An update check touches neither files nor database, sends one to three
    requests with pauses of one and two seconds between them, and an update it
    reports has a version and an identifier that are single, safe components of a
    path - and no build metadata, so such versions are never installed. *)
Theorem check_for_updates_safe config binary s :
  let r := check config binary s in
  sy_fs r.2 = sy_fs s /\ sy_db r.2 = sy_db s /\
  (exists k, (1 <= k <= 3)%nat /\ sy_sent r.2 = replicate k (check_url config binary) ++ sy_sent s /\
     sy_slept r.2 = reverse (take (k - 1) [1000; 2000]) ++ sy_slept s) /\
  forall u, r.1 = Ok (Some u) ->
    safe_format (version_to_string (ui_version u)) /\ plain (ui_version_id u) /\
    "+"%char ∉ chars (version_to_string (ui_version u)).
Proof.
  cbn zeta. destruct (check_loop_facts 3 0 config binary (check_url config binary) [] s)
    as (Hf & Hd & Ha & Hsafe & k & Hk & Hr & Hs).
  unfold check_for_updates. change (Z.to_nat MAX_RETRIES) with 3%nat. unfold sbind.
  destruct (checks 3 0 config binary (check_url config binary) [] s) as [[[u|errs]|e] s1]; cbn [fst snd] in *;
    (split; [done|]; split; [done|]; split;
      [exists k; split; [done|]; split; [done|]; etrans; [exact Hs|]; f_equal;
       destruct k as [|[|[|[|k]]]]; try lia; reflexivity|]); try done.
  intros u' [= ->]. destruct (Hsafe u' eq_refl) as [H1 H2]. split; [done|].
  split; [by apply safe_format_plain|by apply safe_format_plain].
Qed.
End Facts.

(** The server accepts versions the client refuses. *)
Example build_metadata_refused :
  validate_version "1.2.0+build.7" = Ok tt /\
  exists e, validate_version_format "1.2.0+build.7" = Err e.
Proof. split; [vm_compute; reflexivity|eexists; vm_compute; reflexivity]. Qed.

(** The limit of 64 KiB counts characters: notes of two-byte characters keep twice as much. *)
Definition long_notes : string := of_chars (concat (replicate (Z.to_nat 70000) [chr 195; chr 169])).

Example release_notes_exceed_limit :
  2 * MAX_RELEASE_NOTES_SIZE < default 0 (str_len <$> sanitize_release_notes (Some long_notes)).
Proof. vm_compute. reflexivity. Qed.
