(* ===== verification/InstallPath.v ===== *)
(** * InstallPath: where the client may write ([deltaship-client/src/patcher.rs])

    The denylist of system directories, the validation of install paths and the
    checks of memory and disk space.  What the client reads of its host -
    symbolic links, owners, free memory, mounted disks, clocks and random names -
    is a record of functions; what may change between two calls depends on the
    step of the run. *)

From S2P Require Import Prelude Text Version Validation Fs DbModels Sql System ClientConfig Downloader.

#[local] Open Scope Z_scope.

(** ** Privileged directories *)

Definition PRIVILEGED_PATHS : list string :=
  ["/etc"; "/usr"; "/bin"; "/sbin"; "/lib"; "/lib64"; "/boot"; "/sys"; "/proc"; "/dev"; "/var/run"; "/run";
   "C:\Windows"; "C:\Program Files"; "C:\Program Files (x86)"].

Definition strip_verbatim_prefix (p : string) : string :=
  match strip_prefix "\\?\UNC\" p with
  | Some rest => rest
  | None => default p (strip_prefix "\\?\" p)
  end.

Definition strip_drive (p : string) : string :=
  match chars p with
  | c :: d :: rest => if bool_decide (d = ":"%char) && is_ascii_alphabetic c then of_chars rest else p
  | _ => p
  end.

Definition unix_path_under (candidate prefix : string) : bool :=
  match strip_prefix prefix candidate with
  | Some rest => str_is_empty rest || starts_with "/" rest
  | None => false
  end.

(** [to_lowercase] and [replace('/', "\\")]. *)
Definition windows_normalize (s : string) : string :=
  of_chars ((fun c => if bool_decide (c = "/"%char) then "\"%char else c) <$> chars (to_lowercase s)).

Definition windows_path_under (candidate prefix : string) : bool :=
  let cand := strip_drive (strip_verbatim_prefix (windows_normalize candidate)) in
  let pref := strip_drive (windows_normalize prefix) in
  match strip_prefix pref cand with
  | Some rest => str_is_empty rest || starts_with "\" rest
  | None => false
  end.

Definition privileged_match (candidate privileged : string) : bool :=
  if contains_char "\"%char privileged || contains_char ":"%char privileged
  then windows_path_under candidate privileged
  else unix_path_under candidate privileged.

Definition matched_privileged_path (candidate : string) : option string :=
  List.find (privileged_match candidate) PRIVILEGED_PATHS.

(** ** The host *)

(** Whether another process holds an advisory lock, and if so whether it ever
    releases it. *)
Inductive lock_state := LockFree | LockHeld (released : bool).

Record host := {
  h_is_symlink : string -> bool;
  h_real_path : string -> string;         (** an existing absolute path without its symbolic links *)
  h_uid : string -> Z;                    (** the owner of an existing path *)
  h_euid : Z;
  h_memory : nat -> Z;                    (** available memory *)
  h_disks : list (string * Z);            (** mount points and available space *)
  h_identity : nat -> string -> Z * Z;    (** device and inode *)
  h_clock : nat -> Z;                     (** milliseconds of the monotonic clock *)
  h_unix_time : nat -> Z;                 (** seconds of the system clock *)
  h_now : nat -> string;                  (** the database's CURRENT_TIMESTAMP *)
  h_expiry : nat -> string;               (** the time in thirty days *)
  h_temp : nat -> string;                 (** the name the temporary file gets *)
  h_pid : Z;
  h_lock : nat -> string -> lock_state;   (** the advisory lock of a file, as other processes hold it *)
}.

Section Host.
Context {T : Type} (h : host).
#[local] Open Scope sys_scope.

Definition io_context {A} (text : string) (m : io (result io_error A)) : sys T client_error A :=
  of_io (io_map (map_err (fun e => CContext text (CIo e))) m).

(** ** Validation of install paths *)

(** The path that is checked: canonical when the path, or else its parent, exists. *)
Definition check_path_of (path : string) : sys T client_error string :=
  present ←! fs_test (exists_ path);
  if (present : bool) then
    p ←! io_context "Failed to resolve canonical path" (canonicalize path);
    sret (h_real_path h p)
  else
    match parent_path path with
    | None => sret path
    | Some parent =>
        parent_present ←! fs_test (exists_ parent);
        if (parent_present : bool) then
          if h_is_symlink h parent then sfail (CMsg "Security error: parent directory is a symlink.")
          else
            canonical ←! io_context "Failed to resolve canonical path for parent" (canonicalize parent);
            let canonical_parent := h_real_path h canonical in
            sret (match path_file_name path with
                  | Some filename => join canonical_parent filename
                  | None => canonical_parent
                  end)
        else sret path
    end.

(** The owner check of Unix. *)
Definition check_owner (check_path : string) : sys T client_error unit :=
  present ←! fs_test (exists_ check_path);
  if (present : bool) then
    if (h_uid h check_path =? 0) && negb (h_euid h =? 0) then
      sfail (CMsg "Security error: install path is owned by root and current user is not root.")
    else sret tt
  else
    match parent_path check_path with
    | Some parent =>
        parent_present ←! fs_test (exists_ parent);
        if (parent_present : bool) && (h_uid h parent =? 0) && negb (h_euid h =? 0) then
          sfail (CMsg "Security error: parent directory is owned by root and current user is not root.")
        else sret tt
    | None => sret tt
    end.

Definition validate_install_path (path : string) : sys T client_error unit :=
  if h_is_symlink h path then sfail (CMsg "Security error: install path is a symlink.")
  else
    check_path ←! check_path_of path;
    match matched_privileged_path check_path with
    | Some privileged =>
        sfail (CMsg ("Security error: cannot update binary in privileged location '" +:+ check_path +:+ "'."))
    | None => check_owner check_path
    end.

(** ** Memory and disk space *)

Definition check_available_memory (required_bytes : Z) (purpose : string) : sys T client_error unit :=
  let required_memory := saturating_mul_u64 required_bytes 2 in
  available_memory ←! at_tick (h_memory h);
  if available_memory <? required_memory then sfail (CMsg ("Insufficient memory for " +:+ purpose))
  else sret tt.

(** The normal components of an absolute path, and [Path::starts_with] a mount point. *)
Definition components (p : string) : list string :=
  List.filter (fun c => negb (bool_decide (c = "" \/ c = "."))) (split_char "/"%char p).

Fixpoint list_prefixb (p l : list string) : bool :=
  match p, l with
  | [], _ => true
  | a :: p, b :: l => bool_decide (a = b) && list_prefixb p l
  | _ :: _, [] => false
  end.

Definition path_starts_with (p base : string) : bool :=
  starts_with "/" p && starts_with "/" base && list_prefixb (components base) (components p).

(** [max_by_key]: the last of the longest mount points. *)
Fixpoint longest_mount (best : option (string * Z)) (disks : list (string * Z)) : option (string * Z) :=
  match disks with
  | [] => best
  | d :: disks =>
      longest_mount (match best with
                     | Some b => if str_len d.1 <? str_len b.1 then best else Some d
                     | None => Some d
                     end) disks
  end.

Definition disk_of (path : string) : option (string * Z) :=
  longest_mount None (List.filter (fun d => path_starts_with path d.1) (h_disks h)).

Definition check_disk_space_at_path (path : string) (required_bytes : Z) (purpose : string) (config : ClientConfig)
    : sys T client_error unit :=
  match disk_of path with
  | Some (_, available) =>
      if available <? required_bytes then sfail (CMsg ("Insufficient disk space for " +:+ purpose)) else sret tt
  | None =>
      match disk_check_mode config with
      | Strict => sfail (CMsg ("Cannot determine disk space for " +:+ purpose))
      | Permissive => sret tt
      end
  end.

Definition check_disk_space (install_path backup_path : string) (binary_size : Z) (config : ClientConfig)
    : sys T client_error unit :=
  check_disk_space_at_path install_path binary_size "new binary" config ;;!
  check_disk_space_at_path backup_path binary_size "backup" config.
End Host.
