(* ===== verification/Patcher.v ===== *)
(** * Patcher: applying updates ([deltaship-client/src/patcher.rs])

    Fetching the new binary as a diff or as a whole, verifying it against the
    expected hash and the publisher's signature, swapping it in through a
    temporary file, and the database records around it.  BLAKE3, SHA-256,
    Ed25519 and zstd are external. *)

From S2P Require Import Prelude Text Diff Version Core Validation Fs Crypto DbModels Sql ClientDb System.
From S2P Require Import ClientConfig Downloader Checker InstallPath.

#[local] Open Scope Z_scope.

Definition sig_path_for (path : string) : string := path +:+ ".sig".

(** [UpdateMetrics::default] and its updates. *)
Definition no_metrics : UpdateMetrics :=
  {| um_diff_id := None; um_diff_algorithm := None; um_diff_size_bytes := None; um_full_size_bytes := None;
     um_actual_downloaded_bytes := None; um_download_time_ms := None; um_apply_time_ms := None;
     um_verify_time_ms := None |}.

Definition with_verify_time (t : Z) (m : UpdateMetrics) : UpdateMetrics :=
  {| um_diff_id := um_diff_id m; um_diff_algorithm := um_diff_algorithm m; um_diff_size_bytes := um_diff_size_bytes m;
     um_full_size_bytes := um_full_size_bytes m; um_actual_downloaded_bytes := um_actual_downloaded_bytes m;
     um_download_time_ms := um_download_time_ms m; um_apply_time_ms := um_apply_time_ms m;
     um_verify_time_ms := Some t |}.

Definition with_apply_time (t : Z) (m : UpdateMetrics) : UpdateMetrics :=
  {| um_diff_id := um_diff_id m; um_diff_algorithm := um_diff_algorithm m; um_diff_size_bytes := um_diff_size_bytes m;
     um_full_size_bytes := um_full_size_bytes m; um_actual_downloaded_bytes := um_actual_downloaded_bytes m;
     um_download_time_ms := um_download_time_ms m; um_apply_time_ms := Some t;
     um_verify_time_ms := um_verify_time_ms m |}.

Definition with_diff_download (ms : Z) (diff_id : string) (m : UpdateMetrics) : UpdateMetrics :=
  {| um_diff_id := Some diff_id; um_diff_algorithm := Some "bsdiff"; um_diff_size_bytes := um_diff_size_bytes m;
     um_full_size_bytes := um_full_size_bytes m; um_actual_downloaded_bytes := um_actual_downloaded_bytes m;
     um_download_time_ms := Some ms; um_apply_time_ms := um_apply_time_ms m;
     um_verify_time_ms := um_verify_time_ms m |}.

Definition with_diff_size (size : Z) (full : option Z) (m : UpdateMetrics) : UpdateMetrics :=
  {| um_diff_id := um_diff_id m; um_diff_algorithm := um_diff_algorithm m; um_diff_size_bytes := Some (as_i64 size);
     um_full_size_bytes := match full with Some n => Some (as_i64 n) | None => um_full_size_bytes m end;
     um_actual_downloaded_bytes := Some (as_i64 size);
     um_download_time_ms := um_download_time_ms m; um_apply_time_ms := um_apply_time_ms m;
     um_verify_time_ms := um_verify_time_ms m |}.

Definition with_download_time (ms : Z) (m : UpdateMetrics) : UpdateMetrics :=
  {| um_diff_id := um_diff_id m; um_diff_algorithm := um_diff_algorithm m; um_diff_size_bytes := um_diff_size_bytes m;
     um_full_size_bytes := um_full_size_bytes m; um_actual_downloaded_bytes := um_actual_downloaded_bytes m;
     um_download_time_ms := Some ms; um_apply_time_ms := um_apply_time_ms m;
     um_verify_time_ms := um_verify_time_ms m |}.

Definition with_full_size (size : Z) (m : UpdateMetrics) : UpdateMetrics :=
  {| um_diff_id := um_diff_id m; um_diff_algorithm := um_diff_algorithm m; um_diff_size_bytes := um_diff_size_bytes m;
     um_full_size_bytes := Some (as_i64 size); um_actual_downloaded_bytes := Some (as_i64 size);
     um_download_time_ms := um_download_time_ms m; um_apply_time_ms := um_apply_time_ms m;
     um_verify_time_ms := um_verify_time_ms m |}.

Definition zstd_magic : bytes := [byte_of_Z 40; byte_of_Z 181; byte_of_Z 47; byte_of_Z 253].

Definition MAX_SIGNATURE_SIZE : Z := 500 * 1024 * 1024.

(** Where the new binary is. *)
Inductive BinarySource :=
| InMemory (data : bytes)
| OnDisk (path : string).

Section Patcher.
Context {SV : Semver} {ET : ErrorTexts}.
Context {H : Type} {SH : StreamHasher H bytes}.
Context (h : host).
Context (net : nat -> http_request -> result reqwest_error http_response).
Context (url_parse : string -> option url_parts) (status_text : Z -> string).
Context (blake3 : bytes -> bytes) (valid_key : bytes -> bool) (verify_signature : bytes -> bytes -> bytes -> bool).
Context (blake3_from_hex : string -> option bytes).
Context (zstd_decoder_new : bytes -> result string (bytes * option string)).

#[local] Open Scope sys_scope.
Abbreviation csys := (sys client_tables client_error).

(** ** Building blocks *)

Definition hashed {A} (m : io (result CryptoError A)) : csys A := of_io (io_map (map_err CCrypto) m).
Definition db_call {A} (m : db client_tables DbError A) : csys A := fun s =>
  of_db (fun c => let '(r, c') := m c in (map_err CDb r, c')) s.
(** A statement at the time it runs. *)
Definition db_now {A} (m : string -> db client_tables DbError A) : csys A := now ←! at_tick (h_now h); db_call (m now).

(** [try_into] of a byte vector to an array. *)
Definition sized (n : Z) (error : string) (b : bytes) : csys bytes :=
  if lenZ b =? n then sret b else sfail (CMsg error).

(** [VerifyingKey::from_bytes] of a stored key, and [verify]. *)
Definition load_key (key : bytes) : csys bytes :=
  if valid_key key then sret key else sfail (CCrypto InvalidVerifyingKey).

Definition verify (key payload signature : bytes) : result CryptoError unit :=
  if verify_signature key payload signature then Ok tt else Err SignatureVerificationFailure.

(** [Instant::now] and [elapsed]. *)
Definition instant : csys Z := at_tick (h_clock h).
Definition elapsed (start : Z) : csys Z := now ←! instant; sret (now - start).

(** [NamedTempFile::new_in]: the name is the one the file gets in the end. *)
Definition new_temp (dir : string) : csys string :=
  name ←! at_tick (h_temp h);
  let path := join dir name in
  fs_call (create_new path) ;;! sret path.

(** [context], [with_context]. *)
Definition in_context {A} (text : string) (m : csys A) : csys A := fun s =>
  let '(r, s') := m s in (map_err (CContext text) r, s').

(** A temporary file is removed when it is dropped on an early return or by a panic. *)
Definition scoped_temp {A} (path : string) (body : csys A) : csys A :=
  r ←! caught body;
  match r with
  | Ok a => sret a
  | Err e => attempt (fs_call (remove_file path)) ;;! sfail e
  end.

(** ** Backups *)

Definition verify_backup_signature (backup_path : string) (publisher_public_key : bytes)
    (binary_name version : string) : csys unit :=
  let sig_path := sig_path_for backup_path in
  present ←! fs_test (exists_ sig_path);
  if negb present then
    log_audit_event (SignatureVerificationFailed binary_name version) ;;!
    sfail (CMsg ("Backup signature missing at " +:+ sig_path))
  else
    sig_bytes ←! io_context "Failed to read backup signature" (read sig_path);
    signature ←! sized 64 "Invalid backup signature length" sig_bytes;
    key ←! sized 32 "Invalid publisher public key length" publisher_public_key;
    verifying_key ←! in_context "Failed to parse publisher public key" (load_key key);
    backup_hash ←! in_context "Failed to hash backup file" (hashed (hash_file backup_path));
    match verify verifying_key (signing_payload backup_hash version) signature with
    | Ok _ => sret tt
    | Err e =>
        log_audit_event (SignatureVerificationFailed binary_name version) ;;!
        sfail (CMsg ("Backup signature verification failed for " +:+ binary_name +:+ " version " +:+ version))
    end.

(** ** The new binary *)

Definition source_hash (src : BinarySource) : csys bytes :=
  match src with
  | InMemory data => sret (blake3 data)
  | OnDisk path => hashed (hash_file path)
  end.

Definition verify_checksum (src : BinarySource) (expected : bytes) : csys unit :=
  actual ←! source_hash src;
  if hash_ct_eq expected actual then sret tt
  else sfail (CMsg ("Binary checksum mismatch: expected " +:+ hash_to_hex expected +:+ ", got " +:+ hash_to_hex actual)).

Definition read_for_verification (src : BinarySource) : csys bytes :=
  match src with
  | InMemory data => sret data
  | OnDisk path =>
      file_size ←! fs_call (file_len path);
      if MAX_SIGNATURE_SIZE <? file_size then sfail (CMsg "Binary too large for signature verification")
      else
        check_available_memory h file_size "signature verification" ;;!
        io_context "Failed to read binary" (read path)
  end.

Definition write_to (src : BinarySource) (dest : string) : csys unit :=
  match src with
  | InMemory data => fs_call (write dest data)
  | OnDisk path => fs_call (copy path dest)
  end.

Definition cleanup (src : BinarySource) : csys unit :=
  match src with
  | InMemory _ => sret tt
  | OnDisk path => attempt (fs_call (remove_file path)) ;;! sret tt
  end.

(** ** Fetching *)

Definition diff_path (config : ClientConfig) (binary : DbManagedBinary) (update : UpdateInfo) : string :=
  join (downloads_dir config) (m_binary_name binary +:+ "_" +:+ ui_version_id update +:+ ".diff").
Definition download_path (config : ClientConfig) (binary : DbManagedBinary) (update : UpdateInfo) : string :=
  join (downloads_dir config) (m_binary_name binary +:+ "_" +:+ ui_version_id update +:+ ".tmp").

(** The metrics are passed by reference: what was recorded before an error stays. *)
Definition download_diff (config : ClientConfig) (binary : DbManagedBinary) (update : UpdateInfo)
    (metrics : UpdateMetrics) : csys (UpdateMetrics * result client_error unit) :=
  match ui_diff_url update with
  | None => sret (metrics, Err (CMsg "No diff URL available"))
  | Some diff_url =>
      let path := diff_path config binary update in
      start ←! instant;
      r ←! attempt (download_file_with_progress net url_parse status_text diff_url path);
      match r with
      | Err e => sret (metrics, Err e)
      | Ok _ =>
          ms ←! elapsed start;
          let metrics := with_diff_download ms (ui_version_id update) metrics in
          size ←! attempt (fs_call (file_len path));
          match size with
          | Err e => sret (metrics, Err e)
          | Ok size => sret (with_diff_size size (ui_full_binary_size update) metrics, Ok tt)
          end
      end
  end.

Definition patch_current (config : ClientConfig) (binary : DbManagedBinary) (update : UpdateInfo) : csys bytes :=
  let path := diff_path config binary update in
  expected_diff_checksum ←! of_result (ok_or (CMsg "Security error: diff checksum is required but missing.")
                                         (ui_diff_checksum update));
  expected_hash ←! of_result (map_err CCrypto (hash_from_hex expected_diff_checksum));
  actual_hash ←! hashed (hash_file path);
  if negb (hash_ct_eq expected_hash actual_hash) then
    attempt (fs_call (remove_file path)) ;;!
    sfail (CMsg ("Diff checksum mismatch: expected " +:+ hash_to_hex expected_hash +:+ ", got " +:+
                 hash_to_hex actual_hash))
  else
    current_binary ←! fs_call (read (m_install_path binary));
    diff_raw ←! fs_call (read path);
    attempt (fs_call (remove_file path)) ;;!
    diff_data ←! (if bool_decide (take 4 diff_raw = zstd_magic) then
                    of_result (map_err (fun e => CMsg ("Failed to decompress diff: " +:+ diff_text e))
                                 (decompress_diff zstd_decoder_new diff_raw))
                  else sret diff_raw);
    of_result (map_err (fun e => CMsg ("Failed to apply diff patch: " +:+ diff_text e))
                 (apply_patch current_binary diff_data)).

Definition apply_diff_update (config : ClientConfig) (binary : DbManagedBinary) (update : UpdateInfo)
    (metrics : UpdateMetrics) : csys (UpdateMetrics * result client_error bytes) :=
  '(metrics, r) ←! download_diff config binary update metrics;
  match r with
  | Err e => sret (metrics, Err e)
  | Ok _ => new ←! attempt (patch_current config binary update); sret (metrics, new)
  end.

Definition download_full_binary (config : ClientConfig) (binary : DbManagedBinary) (update : UpdateInfo)
    (metrics : UpdateMetrics) : csys (UpdateMetrics * string) :=
  full_url ←! of_result (ok_or (CMsg "No full binary URL available") (ui_full_binary_url update));
  start ←! instant;
  let path := download_path config binary update in
  download_file_with_progress net url_parse status_text full_url path ;;!
  ms ←! elapsed start;
  let metrics := with_download_time ms metrics in
  size ←! fs_call (file_len path);
  sret (with_full_size size metrics, path).

Definition full_source (config : ClientConfig) (binary : DbManagedBinary) (update : UpdateInfo)
    (metrics : UpdateMetrics) : csys (UpdateMetrics * BinarySource) :=
  '(metrics, path) ←! download_full_binary config binary update metrics;
  sret (metrics, OnDisk path).

(** The diff when there is one and a binary to patch, the whole binary otherwise
    and when the diff fails. *)
Definition fetch_binary (config : ClientConfig) (binary : DbManagedBinary) (update : UpdateInfo)
    : csys (UpdateMetrics * BinarySource) :=
  present ←! match ui_diff_url update with
             | Some _ => fs_test (exists_ (m_install_path binary))
             | None => sret false
             end;
  if (present : bool) then
    '(metrics, r) ←! apply_diff_update config binary update no_metrics;
    match r with
    | Ok data => sret (metrics, InMemory data)
    | Err _ => full_source config binary update metrics
    end
  else full_source config binary update no_metrics.

(** ** Verification *)

(** A binary with another hash is removed. *)
Definition check_source (src : BinarySource) (expected : bytes) : csys unit :=
  checked ←! attempt (verify_checksum src expected);
  match checked with
  | Ok _ => sret tt
  | Err e => cleanup src ;;! sfail e
  end.

(** The signature, once it is known to sign the binary for the version. *)
Definition verify_source (binary : DbManagedBinary) (update : UpdateInfo) (src : BinarySource) : csys bytes :=
  sig_url ←! of_result (ok_or (CMsg "Security error: signature URL is required but missing.")
                          (ui_signature_url update));
  sig_bytes ←! download_bytes net url_parse status_text sig_url;
  signature ←! sized 64 ("Invalid signature: expected 64 bytes, got " +:+ pretty (lenZ sig_bytes)) sig_bytes;
  key ←! sized 32 "Invalid public key length" (m_publisher_public_key binary);
  verifying_key ←! load_key key;
  binary_data ←! read_for_verification src;
  match verify verifying_key
          (signing_payload (blake3 binary_data) (version_to_string (ui_version update))) signature with
  | Ok _ => sret signature
  | Err e =>
      log_audit_event (SignatureVerificationFailed (m_binary_name binary) (version_to_string (ui_version update))) ;;!
      cleanup src ;;! sfail (CCrypto e)
  end.

(** ** Installation *)

(** The metadata calls around [set_permissions]. *)
Definition chmod (path : string) : csys unit := fs_call (stat path) ;;! fs_call (set_permissions path).

Definition identity (path : string) : csys (Z * Z) :=
  fs_call (stat path) ;;! at_tick (fun t => h_identity h t path).

Definition discard (path : string) : csys unit := attempt (fs_call (remove_file path)) ;;! sret tt.

(** [NamedTempFile::persist]: the file the error holds is removed when the error
    is dropped, some callers remove it first. *)
Definition persist (temp_path dest error : string) (explicit : bool) : csys unit :=
  r ←! attempt (fs_call (rename temp_path dest));
  match r with
  | Ok _ => sret tt
  | Err e => (if explicit then discard temp_path else sret tt) ;;! discard temp_path ;;! sfail (CMsg error)
  end.

(** From the creation of the temporary file to just before the rename. *)
Definition fill_temp (src : BinarySource) (install_path parent_dir temp_path : string) : csys unit :=
  parent_dir_identity ←! identity parent_dir;
  chmod temp_path ;;!
  write_to src temp_path ;;!
  cleanup src ;;!
  chmod temp_path ;;!
  in_context "Install path validation failed immediately before write" (validate_install_path h install_path) ;;!
  id ←! of_io (io_map (map_err (fun _ => CMsg "Security: cannot re-stat parent directory")) (stat parent_dir)) ;;!
        at_tick (fun t => h_identity h t parent_dir);
  if bool_decide (id = parent_dir_identity) then sret tt
  else sfail (CMsg "Security error: parent directory was replaced between validation and write.").

Definition install_source (src : BinarySource) (install_path : string) : csys unit :=
  parent_dir ←! of_result (ok_or (CMsg "Install path has no parent directory") (parent_path install_path));
  fs_call (create_dir_all parent_dir) ;;!
  temp_path ←! new_temp parent_dir;
  scoped_temp temp_path (fill_temp src install_path parent_dir temp_path) ;;!
  persist temp_path install_path "Failed to persist temp file" true.

Definition write_sidecar (install_path : string) (signature : bytes) : csys unit :=
  let sig_path := sig_path_for install_path in
  sig_parent ←! of_result (ok_or (CMsg "Signature sidecar path has no parent directory") (parent_path sig_path));
  sig_temp ←! in_context "Failed to create temp file for signature sidecar" (new_temp sig_parent);
  scoped_temp sig_temp (io_context "Failed to write signature sidecar to temp file" (write sig_temp signature)) ;;!
  persist sig_temp sig_path "Failed to persist signature sidecar" false.

Definition execute_update (config : ClientConfig) (binary : DbManagedBinary) (update : UpdateInfo)
    : csys UpdateMetrics :=
  let install_path := m_install_path binary in
  fs_call (create_dir_all (downloads_dir config)) ;;!
  expected_final_hash ←! of_result (map_err CCrypto (hash_from_hex (ui_checksum update)));
  '(metrics, src) ←! fetch_binary config binary update;
  check_source src expected_final_hash ;;!
  verify_start ←! instant;
  signature ←! verify_source binary update src;
  verify_ms ←! elapsed verify_start;
  apply_start ←! instant;
  install_source src install_path ;;!
  apply_ms ←! elapsed apply_start;
  installed_hash ←! hashed (hash_file install_path);
  if negb (hash_ct_eq expected_final_hash installed_hash) then
    sfail (CMsg ("Installed binary checksum mismatch: expected " +:+ hash_to_hex expected_final_hash +:+ ", got " +:+
                 hash_to_hex installed_hash))
  else
    write_sidecar install_path signature ;;!
    sret (with_apply_time apply_ms (with_verify_time verify_ms metrics)).

(** ** Rollback to one backup *)

Definition rollback_to_backup (binary : DbManagedBinary) (backup_id : Z) : csys unit :=
  found ←! db_call (get_backup backup_id);
  backup ←! of_result (ok_or (CMsg ("Backup not found: " +:+ pretty backup_id)) found);
  let backup_path := r_backup_path backup in
  present ←! fs_test (exists_ backup_path);
  if negb present then sfail (CMsg ("Backup file not found: " +:+ backup_path))
  else
    expected_hash ←! sized 32 "Invalid backup hash" (r_backup_hash_blake3 backup);
    actual_hash ←! hashed (hash_file backup_path);
    if negb (hash_ct_eq expected_hash actual_hash) then sfail (CMsg "Backup file corrupted: checksum mismatch")
    else
      verify_backup_signature backup_path (m_publisher_public_key binary) (m_binary_name binary)
        (r_version_string backup) ;;!
      let install_path := m_install_path binary in
      fs_call (copy backup_path install_path) ;;!
      signed ←! fs_test (exists_ (sig_path_for backup_path));
      (if (signed : bool) then
         io_context "Failed to restore signature sidecar" (copy (sig_path_for backup_path) (sig_path_for install_path))
       else sret tt) ;;!
      chmod install_path ;;!
      db_now (fun now => update_current_version now (m_binary_id binary) (r_version_id backup) (r_version_string backup)).
(** ** The whole update *)

Definition space_for (config : ClientConfig) (binary : DbManagedBinary) (update : UpdateInfo) (size : Z) : csys unit :=
  check_disk_space h (m_install_path binary) (backups_dir config) size config ;;!
  match ui_diff_size update with
  | Some diff_size => check_disk_space_at_path h (downloads_dir config) diff_size "diff file" config
  | None => sret tt
  end.

(** Without an announced size that of the current binary is the estimate. *)
Definition check_space (config : ClientConfig) (binary : DbManagedBinary) (update : UpdateInfo) : csys unit :=
  match ui_full_binary_size update with
  | Some binary_size => space_for config binary update binary_size
  | None =>
      present ←! fs_test (exists_ (m_install_path binary));
      if (present : bool) then
        current_size ←! io_context "Failed to read metadata" (file_len (m_install_path binary));
        space_for config binary update current_size
      else sret tt
  end.

Definition start_record (binary : DbManagedBinary) (update : UpdateInfo) : NewUpdateRecord := {|
  nu_binary_id := m_binary_id binary;
  nu_from_version_id := m_current_version_id binary;
  nu_from_version_string := m_current_version_string binary;
  nu_to_version_id := ui_version_id update;
  nu_to_version_string := version_to_string (ui_version update);
|}.

Definition backup_path_for (config : ClientConfig) (binary : DbManagedBinary) : string :=
  join (backups_dir config)
    (m_binary_name binary +:+ "_" +:+ default "unknown" (m_current_version_string binary) +:+ ".backup").

(** The current binary and its signature, copied to the backup directory. *)
Definition back_up (config : ClientConfig) (binary : DbManagedBinary) : csys (option string) :=
  let install_path := m_install_path binary in
  io_context "Failed to create backups directory" (create_dir_all (backups_dir config)) ;;!
  present ←! fs_test (exists_ install_path);
  if (present : bool) then
    let backup_path := backup_path_for config binary in
    io_context "Failed to create backup" (copy install_path backup_path) ;;!
    signed ←! fs_test (exists_ (sig_path_for install_path));
    (if (signed : bool) then
       io_context "Failed to copy signature sidecar" (copy (sig_path_for install_path) (sig_path_for backup_path))
     else sret tt) ;;!
    sret (Some backup_path)
  else sret None.

(** A panic of the checks unwinds. *)
Definition unwinding {A} (m : outcome (db client_tables DbError A)) : csys A :=
  match m with Val m => db_call m | Panic => sfail CPanic end.

(** [sha256_file]. *)
Context {H2 : Type} {SH2 : StreamHasher H2 bytes}.

(** The records of a successful update. *)
Definition record_success (binary : DbManagedBinary) (update : UpdateInfo) (update_id : Z) (metrics : UpdateMetrics)
    (backup : option string) : csys unit :=
  let install_path := m_install_path binary in
  let version := version_to_string (ui_version update) in
  db_now (fun now => record_update_complete now update_id true None metrics) ;;!
  size ←! fs_call (file_len install_path);
  blake3_bytes ←! of_result (ok_or (CMsg "Failed to decode blake3 checksum from update info")
                               (blake3_from_hex (ui_checksum update)));
  sha256_bytes ←! in_context "Failed to compute sha256 of installed binary" (hashed (hash_file (SH := SH2) install_path));
  in_context "Failed to record installed version"
    (db_now (fun now => record_installed_version now (m_binary_id binary) (ui_version_id update) version blake3_bytes
                          sha256_bytes (as_i64 size))) ;;!
  db_now (fun now => update_current_version now (m_binary_id binary) (ui_version_id update) version) ;;!
  match backup, m_current_version_id binary, m_current_version_string binary with
  | Some backup_path, Some prev_version_id, Some prev_version_str =>
      present ←! fs_test (exists_ backup_path);
      if (present : bool) then
        backup_hash ←! hashed (hash_file (SH := SH) backup_path);
        backup_size ←! fs_call (file_len backup_path);
        now ←! at_tick (h_now h);
        unwinding (create_backup now (m_binary_id binary) prev_version_id prev_version_str backup_path backup_hash
                     (as_i64 backup_size) None) ;;!
        sret tt
      else sret tt
  | _, _, _ => sret tt
  end ;;!
  log_audit_event (UpdateApplied (m_binary_name binary) version install_path).

(** The recovery from a failed update: the backup is copied back. *)
Definition recover (binary : DbManagedBinary) (update_id : Z) (backup : option string) (e : client_error) : csys unit :=
  restore_error ←!
    match backup with
    | Some backup_path =>
        present ←! fs_test (exists_ backup_path);
        if (present : bool) then
          r ←! attempt (fs_call (copy backup_path (m_install_path binary)));
          sret (match r with Ok _ => None | Err x => Some x end)
        else sret None
    | None => sret None
    end;
  db_now (fun now => record_update_complete now update_id false (Some (error_to_string e)) no_metrics) ;;!
  match restore_error with
  | Some x =>
      sfail (CMsg ("Update failed: " +:+ error_to_string e +:+ ". CRITICAL: Backup restore also failed: " +:+
                   error_to_string x +:+ ". Binary may be in inconsistent state."))
  | None => sfail e
  end.

Definition apply_update (config : ClientConfig) (binary : DbManagedBinary) (update : UpdateInfo) : csys unit :=
  in_context "Install path validation failed" (validate_install_path h (m_install_path binary)) ;;!
  check_space config binary update ;;!
  update_id ←! in_context "Failed to record update start in database"
                 (db_now (fun now => record_update_start now (start_record binary update)));
  backup ←! back_up config binary;
  result ←! attempt (execute_update config binary update);
  match result with
  | Ok metrics => record_success binary update update_id metrics backup
  | Err e => recover binary update_id backup e
  end.

End Patcher.
