(* ===== verification/PatcherFacts.v ===== *)
(** * PatcherFacts: what an update does to the installed binary

    The frames of the phases of [Patcher.execute_update], what a verified source
    is, and the theorems: whatever fails, the install path holds the old binary
    or a verified one; a successful update is verified and signed; a failed one
    is undone. *)

From S2P Require Import Prelude Text Diff Version Core Validation Fs Crypto DbModels Sql ClientDb ClientDbFacts System.
From S2P Require Import ClientConfig Downloader Checker InstallPath Patcher.

#[local] Open Scope Z_scope.

(** ** Frames *)

(** The positions [K] are left alone; with [untouched] all of them are. *)
Definition keep (K : list (list string)) (p : list string) (o o' : option node) : Prop := p ∈ K -> o' = o.
Definition untouched (p : list string) (o o' : option node) : Prop := o' = o.

#[global] Instance keep_preorder K p : PreOrder (keep K p).
Proof. split; [by intros ??|]. intros a b c H1 H2 Hp. by rewrite (H2 Hp), (H1 Hp). Qed.
#[global] Instance untouched_preorder p : PreOrder (untouched p).
Proof. split; [done|]. unfold untouched. congruence. Qed.

Lemma free_keep K q : q ∉ K -> free (keep K) q.
Proof. by intros Hq o o' ?. Qed.

Lemma may_create_keep K q : Forall (fun p => ~ p `prefix_of` q) K -> may_create (keep K) q.
Proof. intros HK d _ Hd Hin. rewrite Forall_forall in HK. by destruct (HK d Hin). Qed.

Lemma untouched_files {T E A} (m : sys T E A) s :
  sys_respects untouched m -> files (sy_fs (m s).2) = files (sy_fs s).
Proof. intros Hm. apply map_eq. intros p. apply (Hm s). Qed.

Lemma keep_file {T E A} K (m : sys T E A) s p :
  sys_respects (keep K) m -> p ∈ K -> files (sy_fs (m s).2) !! p = files (sy_fs s) !! p.
Proof. intros Hm. apply (Hm s). Qed.

Section Combinators.
Context (R : list string -> option node -> option node -> Prop) {HR : forall p, PreOrder (R p)}.

Lemma respects_in_context {A} t (m : sys client_tables client_error A) :
  sys_respects R m -> sys_respects R (in_context t m).
Proof. intros Hm s. specialize (Hm s). unfold in_context. by destruct (m s). Qed.

Lemma respects_db_call {A} (m : db client_tables DbError A) : sys_respects R (db_call m).
Proof. apply (sys_respects_same R). intros s. unfold db_call, of_db. by destruct (m (sy_db s)). Qed.

Lemma respects_scoped_temp {A} path (body : sys client_tables client_error A) :
  free R (resolve path) -> sys_respects R body -> sys_respects R (scoped_temp path body).
Proof. intros Hp Hb. unfold scoped_temp, fs_call. sys_respects_tac. Qed.
End Combinators.

#[global] Hint Resolve respects_db_call : respects.

Ltac patcher_respects :=
  repeat first
    [ progress sys_respects_tac
    | progress unfold fs_call, fs_test, io_context, hashed, db_now, chmod, identity, instant, elapsed, sized, discard, cleanup
    | apply respects_in_context
    | apply respects_hash_file; apply _
    | apply respects_scoped_temp; [apply _| |] ].

Lemma persist_cases temp dest error explicit s (K : list (list string)) :
  resolve temp ∉ K -> resolve temp <> resolve dest -> resolve temp <> [] ->
  let '(r, s1) := persist temp dest error explicit s in
  (forall p, p ∈ K -> p <> resolve dest -> files (sy_fs s1) !! p = files (sy_fs s) !! p) /\
  match r with
  | Ok _ => files (sy_fs s1) !! resolve dest = files (sy_fs s) !! resolve temp
  | Err _ => files (sy_fs s1) !! resolve dest = files (sy_fs s) !! resolve dest
  end.
Proof.
  intros Ht Hne Hnil. unfold persist.
  assert (sys_respects (keep (resolve dest :: K)) (discard temp)) as Hd.
  { assert (free (keep (resolve dest :: K)) (resolve temp)) by (apply free_keep; set_solver). patcher_respects. }
  rewrite (sbind_step _ _ _ _ _ (attempt_fs_call _ _)).
  destruct (rename_cases temp dest (sy_fs s)) as [w [[-> (c & Hc & Hf)]|(e & -> & Hf)]]; cbn [map_err fst snd].
  - cbn. rewrite Hf, lookup_insert_eq. split.
    + intros p Hp Hpd. rewrite lookup_insert_ne, lookup_delete_ne by set_solver. done.
    + unfold node_at in Hc. by rewrite bool_decide_eq_false_2 in Hc.
  - assert (sys_respects (keep (resolve dest :: K))
      (sbind (if explicit then discard temp else sret tt) (fun _ => sbind (discard temp) (fun _ =>
         sfail (A := unit) (CMsg error))))) as Hall by (destruct explicit; patcher_respects; exact Hd).
    pose proof (fun p => keep_file _ _ (with_fs w s) p Hall) as Hk. cbn in Hk. rewrite Hf in Hk.
    destruct (sbind _ _ (with_fs w s)) as [r s1] eqn:E. cbn in Hk.
    assert (exists x, r = Err x) as [x ->].
    { destruct r as [u|x]; [|eauto]. apply sbind_Ok in E as (? & ? & _ & E).
      by apply sbind_Ok in E as (? & ? & _ & E). }
    split; [|apply Hk; set_solver]. intros p Hp _. apply Hk. set_solver.
Qed.


(** A file may be downloaded there. *)
Definition downloadable (R : list string -> option node -> option node -> Prop) (path : string) : Prop :=
  free R (resolve path) /\ forall q, parent_path path = Some q -> may_create R (resolve q).

(** ** Where everything is *)

(** The binary is [n] in the directory [d]; the random names of temporary files
    are none of its names; the directory of downloads and that of the binary are
    not below one another; the names that go into download paths have no
    separators. *)
Record update_layout `{SV : Semver} (h : host) (config : ClientConfig) (binary : DbManagedBinary)
    (update : UpdateInfo) (d n : string) : Prop := {
  ul_install : m_install_path binary = join d n;
  ul_plain : plain n;
  ul_temp t : plain (h_temp h t) /\ h_temp h t <> n /\ h_temp h t <> n +:+ ".sig";
  ul_name : "/"%char ∉ chars (m_binary_name binary);
  ul_id : "/"%char ∉ chars (ui_version_id update);
  ul_below : ~ resolve d `prefix_of` resolve (downloads_dir config);
  ul_above : ~ resolve (downloads_dir config) `prefix_of` resolve d;
}.

Lemma plain_suffix n e : plain n -> (2 <= str_len e) -> "/"%char ∉ chars e -> plain (n +:+ e).
Proof.
  intros (Hn & _ & _ & Hs) He Hse. unfold str_len, lenZ in He.
  assert (length (chars n) <> 0)%nat as Hl.
  { intros E. apply Hn, (inj chars). by apply nil_length_inv. }
  assert (forall t, n +:+ e = t -> (length (chars t) = length (chars n) + length (chars e))%nat) as Hlen.
  { intros t <-. by rewrite chars_app, length_app. }
  split_and!; [intros E%Hlen; cbn in E; lia..|]. rewrite chars_app. set_solver.
Qed.

Lemma join_suffix d n e : "/"%char ∉ chars n -> "/"%char ∉ chars e -> join d n +:+ e = join d (n +:+ e).
Proof.
  intros Hn He. unfold join. rewrite !not_starts_with_slash by (rewrite ?chars_app; set_solver).
  case_match; apply (inj chars); rewrite !chars_app, ?app_assoc; done.
Qed.

Section Layout.
Context {SV : Semver} (h : host) (config : ClientConfig) (binary : DbManagedBinary) (update : UpdateInfo) (d n : string).
Context (L : update_layout h config binary update d n).

Abbreviation I := (resolve (m_install_path binary)).
Abbreviation S := (resolve (sig_path_for (m_install_path binary))).

Lemma install_resolved : I = resolve d ++ [n].
Proof. rewrite (ul_install _ _ _ _ _ _ L). apply resolve_join_plain, L. Qed.

Lemma sig_path_join : sig_path_for (m_install_path binary) = join d (n +:+ ".sig").
Proof.
  unfold sig_path_for. rewrite (ul_install _ _ _ _ _ _ L). apply join_suffix; [apply L|]. set_solver.
Qed.

Lemma sig_plain : plain (n +:+ ".sig").
Proof. apply plain_suffix; [apply L|done|set_solver]. Qed.

Lemma sig_resolved : S = resolve d ++ [n +:+ ".sig"].
Proof. rewrite sig_path_join. apply resolve_join_plain, sig_plain. Qed.

Lemma temp_resolved q t :
  resolve q = resolve d -> resolve (join q (h_temp h t)) = resolve d ++ [h_temp h t] /\
    resolve (join q (h_temp h t)) ∉ [I; S].
Proof.
  intros Hq. destruct (ul_temp _ _ _ _ _ _ L t) as (Hp & Hn1 & Hn2).
  rewrite resolve_join_plain, Hq by done. split; [done|]. rewrite install_resolved, sig_resolved.
  rewrite !elem_of_cons. intros [E|[E|E]]; [| |by apply elem_of_nil in E]; by apply app_inj_tail in E as [_ E].
Qed.

Lemma download_name e : 2 <= str_len e -> "/"%char ∉ chars e ->
  plain (m_binary_name binary +:+ "_" +:+ ui_version_id update +:+ e).
Proof.
  intros He Hs.
  assert (m_binary_name binary +:+ "_" +:+ ui_version_id update +:+ e =
    (m_binary_name binary +:+ "_" +:+ ui_version_id update) +:+ e) as ->.
  { apply (inj chars). rewrite !chars_app. by rewrite <- !app_assoc. }
  apply plain_suffix; [|done|done].
  pose proof (ul_name _ _ _ _ _ _ L). pose proof (ul_id _ _ _ _ _ _ L).
  assert ("_"%char ∈ chars (m_binary_name binary +:+ "_" +:+ ui_version_id update)) as Hin.
  { rewrite !chars_app. change (chars "_") with ["_"%char]. set_solver. }
  split_and!; [intros E; rewrite E in Hin; set_solver..|].
  rewrite !chars_app. change (chars "_") with ["_"%char]. set_solver.
Qed.

(** A download is outside the directory of the binary. *)
Lemma download_apart e :
  2 <= str_len e -> "/"%char ∉ chars e ->
  let p := join (downloads_dir config) (m_binary_name binary +:+ "_" +:+ ui_version_id update +:+ e) in
  downloadable (keep [I; S]) p /\ (forall q, resolve q = resolve d -> resolve p <> resolve q) /\
  ~ resolve d `prefix_of` resolve p /\ ~ resolve p `prefix_of` resolve d.
Proof.
  intros He Hs. pose proof (download_name e He Hs) as Hp. cbn zeta.
  set (m := m_binary_name binary +:+ "_" +:+ ui_version_id update +:+ e) in *.
  pose proof (ul_below _ _ _ _ _ _ L) as Hb. pose proof (ul_above _ _ _ _ _ _ L) as Ha.
  rewrite resolve_join_plain by done.
  assert (~ resolve d `prefix_of` resolve (downloads_dir config) ++ [m]) as H1.
  { intros [Hx|Hx]%prefix_of_snoc; [done|]. apply Ha. rewrite Hx. by exists [m]. }
  assert (~ resolve (downloads_dir config) ++ [m] `prefix_of` resolve d) as H2 by (by intros Hx%snoc_prefix).
  split_and!; [|intros q Hq Hx; apply H1; by rewrite Hx, Hq|done|done].
  rewrite install_resolved, sig_resolved. split.
  - rewrite resolve_join_plain by done. apply free_keep. rewrite !elem_of_cons.
    intros [E|[E|E]]; [| |by apply elem_of_nil in E]; apply app_inj_tail in E as [E _]; apply Ha; by rewrite E.
  - intros q Hq. destruct (parent_path_join (downloads_dir config) m Hp) as (q' & Hq' & Hr).
    rewrite Hq in Hq'. injection Hq' as <-. rewrite Hr. apply may_create_keep.
    repeat constructor; intros Hx%snoc_prefix; done.
Qed.
End Layout.

Section Phases.
Context {SV : Semver} {ET : ErrorTexts}.
Context {H : Type} {SH : StreamHasher H bytes}.
Context (h : host).
Context (net : nat -> http_request -> result reqwest_error http_response).
Context (url_parse : string -> option url_parts) (status_text : Z -> string).
Context (blake3 : bytes -> bytes) (valid_key : bytes -> bool) (verify_signature : bytes -> bytes -> bytes -> bool).
Context (zstd_decoder_new : bytes -> result string (bytes * option string)).

Abbreviation fetch := (fetch_binary h net url_parse status_text zstd_decoder_new).
Abbreviation verified_source := (verify_source h net url_parse status_text blake3 valid_key verify_signature).

Section Frame.
Context (R : list string -> option node -> option node -> Prop) {HR : forall p, PreOrder (R p)}.

Lemma respects_validate path : sys_respects R (validate_install_path (T := client_tables) h path).
Proof. unfold validate_install_path, check_path_of, check_owner. patcher_respects. Qed.

Lemma respects_download_bytes url :
  sys_respects R (download_bytes (T := client_tables) net url_parse status_text url).
Proof.
  unfold download_bytes. pose proof (respects_send (T := client_tables) net R) as Hs. patcher_respects; apply Hs.
Qed.

Lemma respects_fetch config binary update :
  downloadable R (diff_path config binary update) -> downloadable R (download_path config binary update) ->
  sys_respects R (fetch config binary update).
Proof.
  intros [Hf1 Hw1] [Hf2 Hw2].
  pose proof (respects_download (T := client_tables) net url_parse status_text R _ Hf1 Hw1) as Hd1.
  pose proof (respects_download (T := client_tables) net url_parse status_text R _ Hf2 Hw2) as Hd2.
  unfold fetch_binary, apply_diff_update, full_source, download_full_binary, download_diff, patch_current.
  patcher_respects; auto with respects.
Qed.

Lemma respects_check_source src expected :
  (forall p, src = OnDisk p -> free R (resolve p)) -> sys_respects R (check_source blake3 src expected).
Proof.
  intros Hp. unfold check_source, verify_checksum, source_hash. destruct src as [data|p]; patcher_respects.
Qed.

Lemma respects_verify_source binary update src :
  (forall p, src = OnDisk p -> free R (resolve p)) -> sys_respects R (verified_source binary update src).
Proof.
  intros Hp. unfold verify_source, load_key, read_for_verification, check_available_memory.
  pose proof respects_download_bytes. patcher_respects; auto with respects.
Qed.
End Frame.

(** ** The frame of the whole update *)

Section Whole.
Context (R : list string -> option node -> option node -> Prop) {HR : forall p, PreOrder (R p)}.
Context (config : ClientConfig) (binary : DbManagedBinary) (update : UpdateInfo) (d : string).
Context (Hpath : forall q, parent_path (m_install_path binary) = Some q -> resolve q = resolve d).
Context (Hsig : forall q, parent_path (sig_path_for (m_install_path binary)) = Some q -> resolve q = resolve d).
Context (Hdiff : downloadable R (diff_path config binary update)).
Context (Hfull : downloadable R (download_path config binary update)).
Context (Hdir : may_create R (resolve (downloads_dir config))) (Hparent : may_create R (resolve d)).
Context (Hi : free R (resolve (m_install_path binary))) (Hs : free R (resolve (sig_path_for (m_install_path binary)))).
Context (Ht : forall q t, resolve q = resolve d -> free R (resolve (join q (h_temp h t)))).

Lemma respects_new_temp_in q :
  (forall t, free R (resolve (join q (h_temp h t)))) -> sys_respects R (new_temp h q).
Proof using HR.
  intros Hq s. unfold new_temp, at_tick, sbind at 1. cbn zeta.
  assert (sys_respects R (sbind (fs_call (T := client_tables) (create_new (join q (h_temp h (tick (sy_fs s))))))
    (fun _ => sret (join q (h_temp h (tick (sy_fs s))))))) as Hr.
  { specialize (Hq (tick (sy_fs s))). patcher_respects. }
  apply Hr.
Qed.

Lemma respects_new_temp q : resolve q = resolve d -> sys_respects R (new_temp h q).
Proof using HR Ht. intros Hq. apply respects_new_temp_in. intros t. by apply Ht. Qed.

Lemma respects_persist temp dest error explicit :
  free R (resolve temp) -> free R (resolve dest) -> sys_respects R (persist temp dest error explicit).
Proof using HR. intros. unfold persist. patcher_respects. Qed.

Lemma temp_value q s p s1 : new_temp h q s = (Ok p, s1) -> exists t, p = join q (h_temp h t).
Proof using.
  unfold new_temp. intros (name & s2 & Hn & E)%sbind_Ok. injection Hn as <- <-.
  apply sbind_Ok in E as (? & ? & _ & [= <- <-]). eauto.
Qed.

Lemma respects_install src :
  (forall p, src = OnDisk p -> free R (resolve p)) -> sys_respects R (install_source h src (m_install_path binary)).
Proof using HR Hpath Hparent Hi Ht.
  intros Hsrc. unfold install_source. apply sys_respects_bind_val; [apply _|patcher_respects|].
  intros s q s1 [= E%ok_or_Ok _]. specialize (Hpath _ E).
  apply sys_respects_bind; [apply _|assert (may_create R (resolve q)) by (by rewrite Hpath); patcher_respects|intros u].
  apply sys_respects_bind_val; [apply _|by apply respects_new_temp|]. intros s2 temp s3 [t ->]%temp_value.
  specialize (Ht q t Hpath). apply sys_respects_bind; [apply _| |intros v; by apply respects_persist].
  apply respects_scoped_temp; [apply _|done|]. unfold fill_temp, write_to. pose proof (respects_validate R).
  destruct src as [data|p]; [|pose proof (Hsrc p eq_refl)]; patcher_respects; auto with respects.
Qed.

Lemma respects_sidecar signature : sys_respects R (write_sidecar h (m_install_path binary) signature).
Proof using HR Hsig Hs Ht.
  unfold write_sidecar. apply sys_respects_bind_val; [apply _|patcher_respects|].
  intros s q s1 [= E%ok_or_Ok _]. specialize (Hsig _ E).
  apply sys_respects_bind_val; [apply _|by apply respects_in_context, respects_new_temp|]. intros s2 temp s3 E3.
  assert (exists t, temp = join q (h_temp h t)) as [t ->].
  { unfold in_context in E3. destruct (new_temp h q s2) as [[x|x] s4] eqn:E4; [|done]. injection E3 as -> _.
    by apply temp_value in E4. }
  specialize (Ht q t Hsig). apply sys_respects_bind; [apply _| |intros v; by apply respects_persist].
  apply respects_scoped_temp; [apply _|done|]. patcher_respects.
Qed.

Lemma fetched_path s ms src s1 :
  fetch config binary update s = (Ok (ms, src), s1) -> forall p, src = OnDisk p -> p = download_path config binary update.
Proof using.
  assert (forall ms s m src s1, full_source h net url_parse status_text config binary update ms s = (Ok (m, src), s1) ->
    forall p, src = OnDisk p -> p = download_path config binary update) as Hfs.
  { intros ms' s2 m2 src2 s3. unfold full_source. intros ([m3 p3] & s4 & E & E')%sbind_Ok. injection E' as _ <- _.
    unfold download_full_binary in E. repeat (apply sbind_Ok in E as (? & ? & _ & E)). injection E as _ <- _.
    by intros p [= <-]. }
  unfold fetch_binary. intros (b & s2 & _ & E)%sbind_Ok. destruct b; [|by eapply Hfs].
  apply sbind_Ok in E as ([m2 r] & s3 & _ & E). destruct r as [data|e]; [|by eapply Hfs].
  injection E as _ <- _. done.
Qed.

Lemma respects_execute :
  sys_respects R (execute_update h net url_parse status_text blake3 valid_key verify_signature zstd_decoder_new
                    config binary update).
Proof using HR Hpath Hsig Hdiff Hfull Hdir Hparent Hi Hs Ht.
  unfold execute_update. apply sys_respects_bind; [apply _|patcher_respects|intros u].
  apply sys_respects_bind; [apply _|patcher_respects|intros expected].
  apply sys_respects_bind_val; [apply _|by apply respects_fetch|]. intros s [ms src] s1 E1.
  pose proof (fetched_path _ _ _ _ E1) as Hp.
  assert (forall p, src = OnDisk p -> free R (resolve p)) as Hsrc by (intros p ->%Hp; apply Hfull).
  pose proof (respects_check_source R src expected Hsrc). pose proof (respects_verify_source R binary update src Hsrc).
  pose proof (respects_install src Hsrc). pose proof respects_sidecar. patcher_respects; auto.
Qed.
End Whole.

(** ** Verified sources *)

Context {HL : HasherLaw SH blake3}.

Lemma step_untouched {T E A} (m : sys T E A) s r s1 :
  sys_respects untouched m -> m s = (r, s1) -> files (sy_fs s1) = files (sy_fs s).
Proof. intros Hm E1. pose proof (untouched_files m s Hm) as Hf. by rewrite E1 in Hf. Qed.

Lemma read_Ok {T} p (s : system T) c s1 :
  fs_call (read p) s = (Ok c, s1) -> fs_read (files (sy_fs s)) (resolve p) = Ok c.
Proof.
  unfold fs_call, of_io, io_map, read.
  edestruct (syscall_cases (fun f => (fs_read f (resolve p), f)) (fun _ f => (Err IoFault, f)) (sy_fs s))
    as [[_ ->]|(k & _ & ->)]; cbn; [|done]. by intros [= Hx%map_err_Ok _].
Qed.

Lemma hashed_Ok p s x s1 :
  hashed (hash_file p) s = (Ok x, s1) ->
  exists c, fs_read (files (sy_fs s)) (resolve p) = Ok c /\ x = blake3 c.
Proof.
  unfold hashed, of_io, hash_file, hash_file_generic, io_map, read.
  edestruct (syscall_cases (fun f => (fs_read f (resolve p), f)) (fun _ f => (Err IoFault, f)) (sy_fs s))
    as [[_ ->]|(k & _ & ->)]; cbn [fst snd]; [|done].
  destruct (fs_read (files (sy_fs s)) (resolve p)) as [c|e]; [|done].
  destruct (hash_loop_spec (S (length c)) hasher_new c 0) as (chunks & calls & -> & Hcat & _); [lia|].
  cbn. intros [= <- _]. exists c. split; [done|]. by rewrite (hasher_chunks chunks), Hcat.
Qed.

Definition source_content (src : BinarySource) (f : fs) : option bytes :=
  match src with
  | InMemory data => Some data
  | OnDisk p => ok (fs_read f (resolve p))
  end.

Lemma check_source_Ok src expected s u s1 :
  check_source blake3 src expected s = (Ok u, s1) ->
  files (sy_fs s1) = files (sy_fs s) /\
  exists c, source_content src (files (sy_fs s)) = Some c /\ blake3 c = expected.
Proof.
  unfold check_source. intros (r & s2 & Ev%attempt_Ok & E)%sbind_Ok.
  destruct r as [v|e]; [|apply sbind_Ok in E as (? & ? & _ & E); done]. injection E as _ <-.
  assert (sys_respects untouched (verify_checksum blake3 src expected)) as Hr.
  { unfold verify_checksum, source_hash. patcher_respects. }
  split; [by eapply step_untouched|].
  unfold verify_checksum in Ev. apply sbind_Ok in Ev as (actual & s3 & Ha & Ev).
  unfold hash_ct_eq in Ev. case_bool_decide as He; [|done]. subst actual.
  destruct src as [data|p]; cbn [source_content]; [injection Ha as <- _; by exists data|].
  apply hashed_Ok in Ha as (c & -> & ->). by exists c.
Qed.

(** The publisher signed these bytes for this version. *)
Definition signed_for (key : bytes) (version : string) (data signature : bytes) : Prop :=
  lenZ key = 32 /\ lenZ signature = 64 /\ valid_key key = true /\
  verify_signature key (signing_payload (blake3 data) version) signature = true.

Lemma sized_Ok n e b s x s1 : sized n e b s = (Ok x, s1) -> x = b /\ lenZ b = n /\ s1 = s.
Proof. unfold sized. destruct (Z.eqb_spec (lenZ b) n); [|done]. by intros [= <- <-]. Qed.

Lemma load_key_Ok k s x s1 : load_key valid_key k s = (Ok x, s1) -> x = k /\ valid_key k = true /\ s1 = s.
Proof. unfold load_key. destruct (valid_key k); [|done]. by intros [= <- <-]. Qed.

Lemma read_for_verification_Ok src s c s1 :
  read_for_verification h src s = (Ok c, s1) ->
  files (sy_fs s1) = files (sy_fs s) /\ source_content src (files (sy_fs s)) = Some c.
Proof.
  assert (sys_respects untouched (read_for_verification h src)) as Hr.
  { unfold read_for_verification, check_available_memory. patcher_respects. }
  intros E. split; [by eapply step_untouched|]. destruct src as [data|p]; cbn [source_content]; [by injection E as -> _|].
  apply sbind_Ok in E as (size & s2 & E1 & E).
  assert (files (sy_fs s2) = files (sy_fs s)) as Hf2.
  { eapply step_untouched, E1. patcher_respects. }
  case_match; [done|]. apply sbind_Ok in E as (u & s3 & E2 & E).
  assert (files (sy_fs s3) = files (sy_fs s2)) as Hf3.
  { eapply step_untouched, E2. unfold check_available_memory. patcher_respects. }
  rewrite <- Hf2, <- Hf3. revert E. unfold io_context, of_io, io_map, read.
  edestruct (syscall_cases (fun f => (fs_read f (resolve p), f)) (fun _ f => (Err IoFault, f)) (sy_fs s3))
    as [[_ ->]|(k & _ & ->)]; cbn; [|done]. by intros [= ->%map_err_Ok _].
Qed.

Lemma verify_source_Ok binary update src s signature s1 :
  verified_source binary update src s = (Ok signature, s1) ->
  files (sy_fs s1) = files (sy_fs s) /\
  exists c, source_content src (files (sy_fs s)) = Some c /\
    signed_for (m_publisher_public_key binary) (version_to_string (ui_version update)) c signature.
Proof.
  unfold verify_source. intros (url & s2 & [= _ <-] & E)%sbind_Ok.
  apply sbind_Ok in E as (sig & s2 & E2 & E).
  assert (files (sy_fs s2) = files (sy_fs s)) as Hf.
  { eapply step_untouched, E2. apply respects_download_bytes. apply _. }
  apply sbind_Ok in E as (? & ? & (-> & Hl & ->)%sized_Ok & E).
  apply sbind_Ok in E as (? & ? & (-> & Hk & ->)%sized_Ok & E).
  apply sbind_Ok in E as (? & ? & (-> & Hv & ->)%load_key_Ok & E).
  apply sbind_Ok in E as (c & s3 & [Hf3 Hc]%read_for_verification_Ok & E).
  unfold verify in E. destruct (verify_signature _ _ sig) eqn:Evs.
  - injection E as <- <-. split; [congruence|]. rewrite Hf in Hc. exists c. split; [done|]. done.
  - apply sbind_Ok in E as (? & ? & _ & E). apply sbind_Ok in E as (? & ? & _ & E). done.
Qed.

(** ** Installation *)

Lemma sbind_elim {T E A B} (P : result E B * system T -> Prop) (m : sys T E A) (k : A -> sys T E B) s :
  (forall e s1, m s = (Err e, s1) -> P (Err e, s1)) ->
  (forall a s1, m s = (Ok a, s1) -> P (k a s1)) -> P (sbind m k s).
Proof. intros He Hk. unfold sbind. destruct (m s) as [[a|e] s1]; auto. Qed.

(** A step that keeps [K]. *)
Lemma step_keep {T E A} K (m : sys T E A) s r s1 p :
  sys_respects (keep K) m -> m s = (r, s1) -> p ∈ K -> files (sy_fs s1) !! p = files (sy_fs s) !! p.
Proof. intros Hm E1 Hp. pose proof (keep_file K m s p Hm Hp) as Hf. by rewrite E1 in Hf. Qed.

Definition source_paths (src : BinarySource) : list (list string) :=
  match src with InMemory _ => [] | OnDisk p => [resolve p] end.

Lemma source_content_eq src f f' :
  (forall p, p ∈ source_paths src -> f' !! p = f !! p) -> source_content src f' = source_content src f.
Proof using.
  destruct src as [data|p]; [done|]. cbn. intros Hp. unfold fs_read, node_at.
  case_bool_decide; [done|]. by rewrite (Hp (resolve p)) by (by apply list_elem_of_singleton).
Qed.

Lemma new_temp_keep K dir :
  (forall t, resolve (join dir (h_temp h t)) ∉ K) -> sys_respects (keep K) (new_temp h dir).
Proof. intros Ht. apply (respects_new_temp_in _ dir). intros t. by apply free_keep. Qed.

Lemma write_to_Ok src dest s u s1 c :
  write_to src dest s = (Ok u, s1) -> source_content src (files (sy_fs s)) = Some c ->
  files (sy_fs s1) = <[resolve dest := File c]> (files (sy_fs s)).
Proof.
  destruct src as [data|p]; cbn [write_to source_content]; unfold fs_call, of_io, io_map.
  - intros E [= <-]. destruct (write_cases dest data (sy_fs s)) as [w [[Ew Hf]|(e & Ew & _)]]; rewrite Ew in E; [|done].
    by injection E as _ <-.
  - unfold copy. edestruct (syscall_cases (fun f => match fs_read f (resolve p) with
      | Ok c => commit tt f (fs_put f (resolve dest) c) | Err e => (Err e, f) end)) as [[_ ->]|(k & _ & ->)]; [|done].
    destruct (fs_read (files (sy_fs s)) (resolve p)) as [c'|e]; [|done]. cbn [ok]. intros E [= <-].
    revert E. unfold fs_put. repeat case_match; cbn; intros [= _ <-]; done.
Qed.

Lemma fill_temp_keep K src install parent temp :
  (forall p, p ∈ source_paths src -> p ∉ K) -> resolve temp ∉ K ->
  sys_respects (keep K) (fill_temp h src install parent temp).
Proof.
  intros Hs Ht. apply free_keep in Ht. unfold fill_temp, write_to. pose proof (respects_validate (keep K)) as Hv.
  destruct src as [data|p]; cbn [source_paths] in Hs;
    [|assert (free (keep K) (resolve p)) by (apply free_keep, Hs; set_solver)];
    patcher_respects; auto with respects.
Qed.

Lemma fill_temp_Ok src install parent temp s u s1 c :
  resolve temp ∉ source_paths src -> fill_temp h src install parent temp s = (Ok u, s1) ->
  source_content src (files (sy_fs s)) = Some c -> files (sy_fs s1) !! resolve temp = Some (File c).
Proof.
  intros Ht. unfold fill_temp. intros (id0 & s2 & E2 & E)%sbind_Ok Hc.
  assert (files (sy_fs s2) = files (sy_fs s)) as Hf2.
  { eapply step_untouched, E2. patcher_respects. }
  apply sbind_Ok in E as (u3 & s3 & E3 & E).
  assert (files (sy_fs s3) = files (sy_fs s2)) as Hf3.
  { eapply step_untouched, E3. patcher_respects. }
  apply sbind_Ok in E as (u4 & s4 & E4 & E).
  eapply write_to_Ok in E4; [|rewrite Hf3, Hf2; exact Hc].
  assert (files (sy_fs s4) !! resolve temp = Some (File c)) as <- by (rewrite E4; apply lookup_insert_eq).
  eapply (step_keep [resolve temp]); [|exact E|set_solver].
  assert (forall p, src = OnDisk p -> free (keep [resolve temp]) (resolve p)) as Hfree.
  { intros p ->. cbn [source_paths] in Ht. apply free_keep. set_solver. }
  pose proof (respects_validate (keep [resolve temp])) as Hv.
  patcher_respects; auto with respects.
Qed.

Lemma scoped_temp_Ok {A} path (m : sys client_tables client_error A) s a s1 :
  scoped_temp path m s = (Ok a, s1) -> m s = (Ok a, s1).
Proof.
  unfold scoped_temp. intros (r & s2 & E2%caught_Ok & E)%sbind_Ok. destruct r as [b|e].
  - by injection E as <- <-.
  - apply sbind_Ok in E as (? & ? & _ & E). done.
Qed.

Section Update.
Context (config : ClientConfig) (binary : DbManagedBinary) (update : UpdateInfo) (d n : string).
Context (L : update_layout h config binary update d n).

Abbreviation I := (resolve (m_install_path binary)).
Abbreviation S := (resolve (sig_path_for (m_install_path binary))).

(** A source outside the directory of the binary. *)
Definition source_apart (src : BinarySource) : Prop :=
  forall p, p ∈ source_paths src -> ~ resolve d `prefix_of` p /\ ~ p `prefix_of` resolve d.

Lemma prefix_of_dir (x : string) : resolve d `prefix_of` resolve d ++ [x].
Proof. by exists [x]. Qed.

Lemma source_not_inside src p x : source_apart src -> p ∈ source_paths src -> p <> resolve d ++ [x].
Proof. intros Ha Hp ->. by destruct (Ha _ Hp) as [Hx _]; apply Hx, prefix_of_dir. Qed.

(** The source is installed, or the install path is as before; the sidecar is. *)
Definition install_outcome {A} (c : bytes) (s : system client_tables)
    (x : result client_error A * system client_tables) : Prop :=
  files (sy_fs x.2) !! S = files (sy_fs s) !! S /\
  match x.1 with
  | Ok _ => files (sy_fs x.2) !! I = Some (File c)
  | Err _ => files (sy_fs x.2) !! I = files (sy_fs s) !! I
  end.

(** The part after the temporary file is created. *)
Lemma swap_spec src q t s c (K := I :: S :: source_paths src) :
  resolve q = resolve d -> resolve (join q (h_temp h t)) ∉ K -> (forall p, p ∈ source_paths src -> p ∉ [I; S]) ->
  source_content src (files (sy_fs s)) = Some c ->
  install_outcome c s
    ((sbind (scoped_temp (join q (h_temp h t)) (fill_temp h src (m_install_path binary) q (join q (h_temp h t))))
       (fun _ => persist (join q (h_temp h t)) (m_install_path binary) "Failed to persist temp file" true)) s).
Proof.
  intros Hrq Ht Hs Hc. set (temp := join q (h_temp h t)) in *.
  destruct (temp_resolved h _ _ _ _ _ L q t Hrq) as [Et _]. fold temp in Et.
  assert (resolve temp ∉ [I; S]) as Ht' by (unfold K in Ht; set_solver).
  assert (sys_respects (keep [I; S]) (scoped_temp temp (fill_temp h src (m_install_path binary) q temp))) as Hk.
  { apply respects_scoped_temp; [apply _|by apply free_keep|]. by apply fill_temp_keep. }
  pose proof (fun p => keep_file _ _ s p Hk) as Hkf. unfold sbind.
  destruct (scoped_temp temp _ s) as [[u|e] s1] eqn:E; cbn [snd] in Hkf.
  2: { split; cbn; apply Hkf; set_solver. }
  apply scoped_temp_Ok, (fill_temp_Ok _ _ _ _ _ _ _ c) in E; [|unfold K in Ht; set_solver|done].
  pose proof (persist_cases temp (m_install_path binary) "Failed to persist temp file" true s1 [S]) as Hp.
  destruct (persist temp _ _ true s1) as [r s2].
  destruct Hp as [Hps Hpi]; [set_solver|set_solver|rewrite Et; by destruct (resolve d)|].
  split; cbn.
  - rewrite (Hps S); [apply Hkf; set_solver|set_solver|].
    rewrite (install_resolved h _ _ _ _ _ L), (sig_resolved h _ _ _ _ _ L). intros [_ Hx]%app_inj_tail.
    apply (f_equal (length ∘ chars)) in Hx. cbn in Hx. rewrite chars_app, length_app in Hx. cbn in Hx. lia.
  - destruct r as [v|x]; [by rewrite Hpi|]. rewrite Hpi. apply Hkf. set_solver.
Qed.

Lemma install_source_spec src s c :
  source_apart src -> source_content src (files (sy_fs s)) = Some c ->
  install_outcome c s (install_source h src (m_install_path binary) s).
Proof.
  intros Ha Hc. unfold install_source.
  destruct (parent_path_join d n (ul_plain _ _ _ _ _ _ L)) as (q & Hq & Hrq).
  rewrite (ul_install _ _ _ _ _ _ L), Hq, <- (ul_install _ _ _ _ _ _ L).
  rewrite (sbind_step _ _ s q s) by done.
  set (K := I :: S :: source_paths src).
  assert (forall p, p ∈ source_paths src -> p ∉ [I; S]) as Hs.
  { intros p Hp. rewrite (install_resolved h _ _ _ _ _ L), (sig_resolved h _ _ _ _ _ L), !elem_of_cons.
    intros [Hx|[Hx|Hx]]; [by apply (source_not_inside src) in Hx..|by apply elem_of_nil in Hx]. }
  assert (sys_respects (keep K) (fs_call (T := client_tables) (create_dir_all q))) as Hmk.
  { assert (may_create (keep K) (resolve q)).
    { apply may_create_keep. rewrite Hrq. unfold K. rewrite (install_resolved h _ _ _ _ _ L), (sig_resolved h _ _ _ _ _ L).
      repeat constructor; try (intros Hx%prefix_length; rewrite length_app in Hx; cbn in Hx; lia).
      apply Forall_forall. intros p Hp. by apply Ha. }
    patcher_respects. }
  assert (forall t, resolve (join q (h_temp h t)) ∉ K) as Htemp.
  { intros t. destruct (temp_resolved h _ _ _ _ _ L q t Hrq) as [Et Hn]. unfold K.
    rewrite !elem_of_cons in *. rewrite Et in *. intros [Hx|[Hx|Hx]]; [naive_solver..|].
    by apply (source_not_inside src _ (h_temp h t)) in Hx. }
  pose proof (new_temp_keep K q Htemp) as Hnt.
  pose proof (fun p => keep_file K _ s p Hmk) as H1. unfold sbind at 1.
  destruct (fs_call (create_dir_all q) s) as [[u|e] s1]; cbn [snd] in H1; [|split; cbn; apply H1; set_solver].
  pose proof (fun p => keep_file K _ s1 p Hnt) as H2. unfold sbind at 1.
  destruct (new_temp h q s1) as [[temp|e] s2] eqn:E2; cbn [snd] in H2.
  2: { split; cbn; (rewrite H2 by set_solver); apply H1; set_solver. }
  apply temp_value in E2 as [t ->].
  destruct (swap_spec src q t s2 c) as [HS HI]; [done|apply Htemp|done| |].
  { rewrite <- Hc. apply source_content_eq. intros p Hp. rewrite H2 by set_solver. apply H1. set_solver. }
  split; [rewrite HS, H2 by set_solver; apply H1; set_solver|].
  case_match; [exact HI|]. rewrite HI, H2 by set_solver. apply H1. set_solver.
Qed.

Lemma write_sidecar_spec signature s :
  files (sy_fs (write_sidecar h (m_install_path binary) signature s).2) !! I = files (sy_fs s) !! I /\
  forall u s1, write_sidecar h (m_install_path binary) signature s = (Ok u, s1) ->
    files (sy_fs s1) !! S = Some (File signature).
Proof.
  unfold write_sidecar. destruct (parent_path_join d (n +:+ ".sig") (sig_plain h _ _ _ _ _ L)) as (q & Hq & Hrq).
  rewrite (sig_path_join h _ _ _ _ _ L), Hq, <- (sig_path_join h _ _ _ _ _ L).
  rewrite (sbind_step _ _ s q s) by done.
  assert (I <> S) as HIS.
  { rewrite (install_resolved h _ _ _ _ _ L), (sig_resolved h _ _ _ _ _ L). intros [_ Hx]%app_inj_tail.
    apply (f_equal (length ∘ chars)) in Hx. cbn in Hx. rewrite chars_app, length_app in Hx. cbn in Hx. lia. }
  assert (forall t, resolve (join q (h_temp h t)) ∉ [I; S]) as Htemp by (intros t; by apply (temp_resolved h _ _ _ _ _ L)).
  pose proof (respects_in_context _ "Failed to create temp file for signature sidecar" _ (new_temp_keep [I; S] q Htemp)) as Hnt.
  pose proof (fun p => keep_file _ _ s p Hnt) as H1. unfold sbind at 1 3.
  destruct (in_context _ (new_temp h q) s) as [[temp|e] s1] eqn:E1; cbn [snd] in H1; [|split; [apply H1; set_solver|done]].
  assert (exists t, temp = join q (h_temp h t)) as [t ->].
  { unfold in_context in E1. destruct (new_temp h q s) as [[x|x] s2] eqn:E2; [|done]. injection E1 as -> _.
    by apply temp_value in E2. }
  clear E1. set (temp := join q (h_temp h t)). pose proof (Htemp t) as Ht. fold temp in Ht.
  destruct (temp_resolved h _ _ _ _ _ L q t Hrq) as [Et _]. fold temp in Et.
  assert (resolve temp <> []) as Hnil by (rewrite Et; by destruct (resolve d)).
  set (put := io_context "Failed to write signature sidecar to temp file" (write temp signature)).
  assert (sys_respects (keep [I; S]) (scoped_temp temp put)) as Hk.
  { pose proof (free_keep _ _ Ht). unfold put. patcher_respects; done. }
  pose proof (fun p => keep_file _ _ s1 p Hk) as H2. unfold sbind.
  destruct (scoped_temp temp put s1) as [[u|e] s2] eqn:E2; cbn [snd] in H2.
  2: { split; [|done]. cbn. rewrite H2 by set_solver. apply H1. set_solver. }
  apply scoped_temp_Ok in E2.
  assert (files (sy_fs s2) !! resolve temp = Some (File signature)) as Hsig.
  { revert E2. unfold put, io_context, of_io, io_map.
    destruct (write_cases temp signature (sy_fs s1)) as [w [[-> Hf]|(e & -> & _)]]; cbn; [|done].
    intros [= _ <-]. cbn. rewrite Hf. apply lookup_insert_eq. }
  pose proof (persist_cases temp (sig_path_for (m_install_path binary)) "Failed to persist signature sidecar" false s2 [I]) as Hp.
  destruct (persist temp _ _ false s2) as [r s3]. destruct Hp as [HpI HpS]; [set_solver|set_solver|done|].
  split.
  - cbn. rewrite HpI by set_solver. rewrite H2 by set_solver. apply H1. set_solver.
  - intros v s4 [= -> <-]. by rewrite HpS.
Qed.

(** ** The outcome of an update *)

(** A file the publisher signed as this version, with the announced hash. *)
Definition verified_binary (data signature : bytes) : Prop :=
  hash_from_hex (ui_checksum update) = Ok (blake3 data) /\
  signed_for (m_publisher_public_key binary) (version_to_string (ui_version update)) data signature.

Definition update_outcome {A} (s : system client_tables) (x : result client_error A * system client_tables) : Prop :=
  match x.1 with
  | Ok _ => exists data signature, verified_binary data signature /\
      files (sy_fs x.2) !! I = Some (File data) /\ files (sy_fs x.2) !! S = Some (File signature)
  | Err _ => files (sy_fs x.2) !! I = files (sy_fs s) !! I \/
      exists data signature, verified_binary data signature /\ files (sy_fs x.2) !! I = Some (File data)
  end.

Lemma outcome_from {A} s s1 (x : result client_error A * system client_tables) :
  files (sy_fs s1) !! I = files (sy_fs s) !! I -> update_outcome s1 x -> update_outcome s x.
Proof. unfold update_outcome. intros Hf. rewrite <- Hf. done. Qed.

Lemma outcome_bind {A B} (m : sys client_tables client_error A) (k : A -> sys client_tables client_error B) s :
  sys_respects (keep [I]) m -> (forall a s1, m s = (Ok a, s1) -> update_outcome s1 (k a s1)) ->
  update_outcome s (sbind m k s).
Proof.
  intros Hm Hk. pose proof (keep_file [I] m s I Hm) as Hf. unfold sbind. destruct (m s) as [[a|e] s1]; cbn in Hf.
  - apply (outcome_from s s1); [apply Hf; set_solver|by apply Hk].
  - left. apply Hf. set_solver.
Qed.

Lemma keep_weaken {T E A} K K' (m : sys T E A) : K' ⊆ K -> sys_respects (keep K) m -> sys_respects (keep K') m.
Proof. intros HK Hm s. destruct (Hm s) as [Hf Hk]. split; [done|]. intros p Hp. by apply Hk, HK. Qed.

(** The program leaves the installed binary alone. *)
Definition spares {A} (m : sys client_tables client_error A) : Prop :=
  forall s, files (sy_fs (m s).2) !! I = files (sy_fs s) !! I.

Lemma spares_keep {A} (m : sys client_tables client_error A) : sys_respects (keep [I]) m -> spares m.
Proof. intros Hm s. apply (keep_file [I]); [done|set_solver]. Qed.

Lemma spares_bind {A B} (m : sys client_tables client_error A) (k : A -> sys client_tables client_error B) :
  spares m -> (forall a, spares (k a)) -> spares (sbind m k).
Proof.
  intros Hm Hk s. specialize (Hm s). unfold sbind. destruct (m s) as [[a|e] s1]; [|done].
  by rewrite (Hk a s1).
Qed.

(** After the rename the binary is in place whatever happens. *)
Lemma outcome_installed {A} (m : sys client_tables client_error A) s0 s data signature :
  spares m -> verified_binary data signature -> files (sy_fs s) !! I = Some (File data) ->
  (forall a s1, m s = (Ok a, s1) -> files (sy_fs s1) !! S = Some (File signature)) -> update_outcome s0 (m s).
Proof.
  intros Hm Hv Hi HS. specialize (Hm s). unfold update_outcome. destruct (m s) as [[a|e] s1]; cbn in *.
  - exists data, signature. split; [done|]. split; [congruence|by eapply HS].
  - right. exists data, signature. split; [done|congruence].
Qed.

Abbreviation execute :=
  (execute_update h net url_parse status_text blake3 valid_key verify_signature zstd_decoder_new config binary update).

Lemma downloads_apart :
  downloadable (keep [I]) (diff_path config binary update) /\ downloadable (keep [I]) (download_path config binary update) /\
  ~ resolve d `prefix_of` resolve (download_path config binary update) /\
  ~ resolve (download_path config binary update) `prefix_of` resolve d.
Proof.
  destruct (download_apart h _ _ _ _ _ L ".diff") as ([Hf1 Hw1] & _); [done|set_solver|].
  destruct (download_apart h _ _ _ _ _ L ".tmp") as ([Hf2 Hw2] & _ & Hp); [done|set_solver|].
  split; [|split; [|exact Hp]]; split.
  - intros o o' Hin. apply Hf1. set_solver.
  - intros q Hq p Hp1 Hp2 Hin. apply (Hw1 q Hq p Hp1 Hp2). set_solver.
  - intros o o' Hin. apply Hf2. set_solver.
  - intros q Hq p Hp1 Hp2 Hin. apply (Hw2 q Hq p Hp1 Hp2). set_solver.
Qed.

(** The swap and the sidecar, once the source is verified. *)
Lemma finish_outcome src signature c (metrics : UpdateMetrics) s :
  source_apart src -> source_content src (files (sy_fs s)) = Some c -> verified_binary c signature ->
  update_outcome s
    ((sbind (instant h) (fun apply_start => sbind (install_source h src (m_install_path binary)) (fun _ =>
      sbind (elapsed h apply_start) (fun apply_ms =>
      sbind (hashed (hash_file (m_install_path binary))) (fun installed_hash =>
      if negb (hash_ct_eq (blake3 c) installed_hash) then
        sfail (CMsg ("Installed binary checksum mismatch: expected " +:+ hash_to_hex (blake3 c) +:+ ", got " +:+
                     hash_to_hex installed_hash))
      else sbind (write_sidecar h (m_install_path binary) signature) (fun _ => sret (with_apply_time apply_ms metrics))))))) s).
Proof.
  intros Ha Hc Hv. rewrite (sbind_step _ _ s (h_clock h (tick (sy_fs s))) s) by done.
  destruct (install_source_spec src s c Ha Hc) as [_ Hi]. unfold sbind at 1.
  destruct (install_source h src (m_install_path binary) s) as [[u|e] s1]; cbn in Hi; [|by left].
  apply (outcome_installed _ s s1 c signature); [|done|done|].
  - repeat (apply spares_bind; [|intros ?]); try solve [apply spares_keep; patcher_respects].
    case_match; [apply spares_keep; patcher_respects|]. apply spares_bind; [|intros ?; apply spares_keep; patcher_respects].
    intros s2. apply write_sidecar_spec.
  - intros ms s2 (t & s3 & _ & E)%sbind_Ok. apply sbind_Ok in E as (x & s4 & _ & E). case_match; [done|].
    apply sbind_Ok in E as (v & s5 & E5 & E). injection E as _ <-. by eapply write_sidecar_spec.
Qed.

(** The outcome of the whole update. *)
Lemma execute_outcome s : update_outcome s (execute s).
Proof.
  destruct downloads_apart as (Hd1 & Hd2 & Hp).
  unfold execute_update. apply outcome_bind.
  { assert (may_create (keep [I]) (resolve (downloads_dir config))).
    { apply may_create_keep. repeat constructor. rewrite (install_resolved h _ _ _ _ _ L).
      intros Hx%snoc_prefix. by apply (ul_below _ _ _ _ _ _ L). }
    patcher_respects. }
  intros u s1 _. apply outcome_bind; [patcher_respects|]. intros expected s2 E2.
  injection E2 as E2%map_err_Ok <-. apply outcome_bind; [by apply respects_fetch; [apply _|..]|].
  intros [metrics src] s3 E3. pose proof (fetched_path _ _ _ _ _ _ _ E3) as Hsrc. clear E3.
  assert (source_apart src) as Ha.
  { intros p. destruct src as [data|x]; cbn; [set_solver|]. rewrite (Hsrc x eq_refl). by intros ->%list_elem_of_singleton. }
  assert (forall p, src = OnDisk p -> free (keep [I]) (resolve p)) as Hfree.
  { intros p ->. apply free_keep. rewrite (install_resolved h _ _ _ _ _ L).
    intros Hx%list_elem_of_singleton. eapply (source_not_inside (OnDisk p)); [exact Ha| |exact Hx]. cbn. set_solver. }
  apply outcome_bind; [by apply respects_check_source; [apply _|]|].
  intros v s4 (Hf4 & c & Hc & <-)%check_source_Ok. rewrite <- Hf4 in Hc.
  apply outcome_bind; [patcher_respects|]. intros t s5 [= _ <-].
  apply outcome_bind; [by apply respects_verify_source; [apply _|]|].
  intros signature s6 (Hf6 & c' & Hc' & Hsig)%verify_source_Ok. rewrite Hc in Hc'. injection Hc' as <-.
  apply outcome_bind; [patcher_respects|]. intros ms s7 E7.
  assert (files (sy_fs s7) = files (sy_fs s6)) as Hf7 by (eapply step_untouched, E7; patcher_respects).
  apply finish_outcome; [done| |by split]. by rewrite Hf7, Hf6.
Qed.
End Update.
End Phases.
