(* ===== verification/UpdateFacts.v ===== *)
(** * UpdateFacts: what [apply_update] leaves behind

    The database around an update - it stays consistent whatever fails, and
    after a success records what is installed - and the recovery of the old
    binary after a failure. *)

From S2P Require Import Prelude Text Diff Version Core Validation Fs Crypto DbModels Sql ClientDb ClientDbFacts System.
From S2P Require Import ClientConfig Downloader Checker InstallPath Patcher PatcherFacts.

#[local] Open Scope Z_scope.

(** ** What the patcher's programs keep *)

Section Combinators.
Context (P : system client_tables -> Prop).

Lemma keeps_in_context {A} t (m : sys client_tables client_error A) : keeps P m -> keeps P (in_context t m).
Proof. intros Hm s Hs. specialize (Hm s Hs). unfold in_context. by destruct (m s). Qed.

End Combinators.

Lemma keeps_call {A} (Q : conn client_tables -> Prop) (m : db client_tables DbError A) :
  (forall c, Q c -> Q (m c).2) -> db_respects Q (db_call m).
Proof. intros Hm s Hs. specialize (Hm _ Hs). unfold db_call, of_db. by destruct (m (sy_db s)). Qed.

Lemma keeps_now {A} (Q : conn client_tables -> Prop) h (m : string -> db client_tables DbError A) :
  (forall now c, Q c -> Q (m now c).2) -> db_respects Q (db_now h m).
Proof.
  intros Hm. unfold db_now. apply keeps_bind; [auto with keeps|]. intros now. apply keeps_call, Hm.
Qed.

Ltac patcher_keeps :=
  repeat first
    [ progress keeps_tac
    | progress unfold fs_call, fs_test, io_context, hashed, chmod, identity, instant, elapsed, sized, discard, cleanup,
        new_temp, scoped_temp, persist
    | apply keeps_in_context ].

(** ** What the patcher's programs do not do: panic *)

Lemma steady_in_context {A} t (m : sys client_tables client_error A) : steady m -> steady (in_context t m).
Proof.
  intros Hm s e s'. specialize (Hm s). unfold in_context. destruct (m s) as [[a|x] s1]; intros [= <- <-]. exact (Hm _ _ eq_refl).
Qed.
Lemma steady_scoped_temp {A} path (m : sys client_tables client_error A) : steady m -> steady (scoped_temp path m).
Proof.
  intros Hm s e s' [E|(r & s1 & E1%caught_Ok & E2)]%sbind_Err; [by eapply (steady_caught m Hm)|].
  destruct r as [a|x]; [done|]. specialize (Hm _ _ _ E1). eapply (steady_bind (attempt _) (fun _ => sfail x)), E2; [steady_tac|].
  intros _. by apply steady_fail.
Qed.
Lemma steady_call {A} (m : db client_tables DbError A) : steady (db_call m).
Proof. exact (steady_db CDb m (fun _ => eq_refl)). Qed.
Lemma steady_now {A} h (m : string -> db client_tables DbError A) : steady (db_now h m).
Proof. apply steady_bind; [apply steady_at_tick|]. intros now. apply steady_call. Qed.
#[global] Hint Resolve steady_call steady_now : steady.

(** An update sets no expiry, so that recording its backup cannot panic. *)
Lemma steady_backup `{Semver} now id v vs path hash size :
  steady (unwinding (create_backup now id v vs path hash size None)).
Proof. unfold create_backup, check_backup. rewrite fbind_Val. destruct (validate_hash_size _ _); apply steady_call. Qed.
#[global] Hint Resolve steady_backup : steady.

Ltac patcher_steady :=
  repeat first
    [ progress steady_tac
    | progress unfold io_context, hashed, chmod, identity, instant, elapsed, sized, discard, cleanup,
        new_temp, persist
    | apply steady_in_context | apply steady_scoped_temp
    | apply steady_result; let e := fresh in intros e; repeat case_match; intros; simplify_eq; done ].

Section Keeps.
Context {SV : Semver} {ET : ErrorTexts}.
Context {H : Type} {SH : StreamHasher H bytes}.
Context (h : host).
Context (net : nat -> http_request -> result reqwest_error http_response).
Context (url_parse : string -> option url_parts) (status_text : Z -> string).
Context (blake3 : bytes -> bytes) (valid_key : bytes -> bool) (verify_signature : bytes -> bytes -> bytes -> bool).
Context (blake3_from_hex : string -> option bytes).
Context (zstd_decoder_new : bytes -> result string (bytes * option string)).
Context (P : system client_tables -> Prop) {F : Framed P}.

Lemma keeps_validate path : keeps P (validate_install_path (T := client_tables) h path).
Proof. unfold validate_install_path, check_path_of, check_owner. patcher_keeps. Qed.

Lemma keeps_check_space config binary update : keeps P (check_space h config binary update).
Proof. unfold check_space, space_for, check_disk_space, check_disk_space_at_path. patcher_keeps. Qed.

Lemma keeps_back_up config binary : keeps P (back_up config binary).
Proof. unfold back_up. patcher_keeps. Qed.

Lemma keeps_fetch config binary update :
  keeps P (fetch_binary h net url_parse status_text zstd_decoder_new config binary update).
Proof.
  unfold fetch_binary, apply_diff_update, full_source, download_full_binary, download_diff, patch_current. patcher_keeps.
Qed.

Lemma keeps_verify binary update src :
  keeps P (verify_source h net url_parse status_text blake3 valid_key verify_signature binary update src).
Proof. unfold verify_source, load_key, read_for_verification, check_available_memory. patcher_keeps. Qed.

Lemma keeps_install src path : keeps P (install_source h src path).
Proof.
  pose proof keeps_validate. unfold install_source, fill_temp, write_to. patcher_keeps.
Qed.

Lemma keeps_execute config binary update :
  keeps P (execute_update h net url_parse status_text blake3 valid_key verify_signature zstd_decoder_new
                   config binary update).
Proof.
  pose proof keeps_fetch. pose proof keeps_verify. pose proof keeps_install.
  unfold execute_update, check_source, verify_checksum, source_hash, write_sidecar. patcher_keeps.
Qed.

(** No step of an update panics. *)
Lemma steady_validate path : steady (validate_install_path (T := client_tables) h path).
Proof. unfold validate_install_path, check_path_of, check_owner. patcher_steady. Qed.

Lemma steady_execute config binary update :
  steady (execute_update h net url_parse status_text blake3 valid_key verify_signature zstd_decoder_new config binary update).
Proof.
  pose proof steady_validate.
  unfold execute_update, check_source, verify_checksum, source_hash, write_sidecar, fetch_binary, apply_diff_update,
    full_source, download_full_binary, download_diff, patch_current, verify_source, load_key, read_for_verification,
    check_available_memory, install_source, fill_temp, write_to. patcher_steady.
Qed.

Context {H2 : Type} {SH2 : StreamHasher H2 bytes}.

Lemma steady_apply config binary update :
  steady (apply_update (SH := SH) (SH2 := SH2) h net url_parse status_text blake3 valid_key verify_signature
            blake3_from_hex zstd_decoder_new config binary update).
Proof.
  pose proof steady_validate. pose proof steady_execute.
  unfold apply_update, check_space, space_for, check_disk_space, check_disk_space_at_path, back_up, record_success, recover.
  patcher_steady.
Qed.
End Keeps.

(** ** Backups and files that stay *)

(** What exists at the positions [K] stays. *)
Definition keep_some (K : list (list string)) (p : list string) (o o' : option node) : Prop :=
  p ∈ K -> is_Some o -> o' = o.

#[global] Instance keep_some_preorder K p : PreOrder (keep_some K p).
Proof.
  split; [by intros ???|]. intros a b c H1 H2' Hp Ha. specialize (H1 Hp Ha). subst b. by apply H2'.
Qed.

Lemma free_keep_some K q : q ∉ K -> free (keep_some K) q.
Proof. by intros Hq o o' ?. Qed.

Lemma may_create_keep_some K q : may_create (keep_some K) q.
Proof. intros d _ _ _ [? ?]. done. Qed.

Lemma kept_some {T E A} K (m : sys T E A) s p x :
  sys_respects (keep_some K) m -> p ∈ K -> files (sy_fs s) !! p = Some x -> files (sy_fs (m s).2) !! p = Some x.
Proof. intros Hm Hp Hx. destruct (Hm s) as [_ Hk]. rewrite <- Hx. apply (Hk p Hp). by rewrite Hx. Qed.

Lemma quiet_kept {T E A} R (m : sys T E A) s : sys_respects R m -> quiet (sy_fs s) -> quiet (sy_fs (m s).2).
Proof. intros Hm Hq k. destruct (Hm s) as [Hf _]. rewrite Hf. apply Hq. Qed.

(** A copy is whole, or fails with the target untouched or cut short. *)
Lemma copy_cases a b w :
  exists r w', copy a b w = (r, w') /\
  ((r = Ok tt /\ exists c, fs_read (files w) (resolve a) = Ok c /\ files w' = <[resolve b := File c]> (files w)) \/
   (exists e, r = Err e /\
     (files w' = files w \/
      exists c k, fs_read (files w) (resolve a) = Ok c /\ files w' = <[resolve b := File (take k c)]> (files w)))).
Proof.
  assert (Hput : forall c, fs_put (files w) (resolve b) c = Ok (<[resolve b := File c]> (files w)) \/
    exists e, fs_put (files w) (resolve b) c = Err e) by (intros c; unfold fs_put; repeat case_match; eauto).
  unfold copy, syscall. destruct (fs_read (files w) (resolve a)) as [c|e]; destruct (faults w (tick w)) as [[|k]|];
    [|destruct (Hput (take k c)) as [->|[e ->]]|destruct (Hput c) as [->|[e ->]]|..]; cbn [commit snd];
    do 2 eexists; (split; [reflexivity|]); first [left; split; [done|]; by exists c | right; eexists; split; [done|]];
    first [by left | right; by exists c, k].
Qed.

Lemma copy_quiet a b w c :
  quiet w -> fs_read (files w) (resolve a) = Ok c -> node_at (files w) (resolve b) <> Some Dir ->
  node_at (files w) (parent (resolve b)) = Some Dir ->
  copy a b w = (Ok tt, advance w (<[resolve b := File c]> (files w))).
Proof.
  intros Hq Ha Hb Hp. unfold copy. rewrite syscall_quiet by done. rewrite Ha. unfold fs_put. rewrite Hp.
  by destruct (node_at (files w) (resolve b)) as [[|]|].
Qed.

Lemma node_at_snoc f p x : node_at f (p ++ [x]) = f !! (p ++ [x]).
Proof. unfold node_at. rewrite bool_decide_eq_false_2; [done|]. by destruct p. Qed.

Lemma parent_snoc (p : list string) x : parent (p ++ [x]) = p.
Proof. apply removelast_last. Qed.

(** The backups are neither in the directory of the binary nor around it. *)
Record backup_layout (config : ClientConfig) (binary : DbManagedBinary) (d : string) : Prop := {
  bl_version : "/"%char ∉ chars (default "unknown" (m_current_version_string binary));
  bl_below : ~ resolve d `prefix_of` resolve (backups_dir config);
  bl_above : ~ resolve (backups_dir config) `prefix_of` resolve d;
}.

Lemma dirs_differ config : resolve (downloads_dir config) <> resolve (backups_dir config).
Proof.
  unfold downloads_dir, backups_dir. rewrite !resolve_join_plain by (by vm_compute; split_and!; try done; set_solver).
  intros [_ E]%app_inj_tail. done.
Qed.
Section BackupLayout.
Context {SV : Semver} (h : host) (config : ClientConfig) (binary : DbManagedBinary) (update : UpdateInfo) (d n : string).
Context (L : update_layout h config binary update d n) (BL : backup_layout config binary d).

Abbreviation B := (resolve (backup_path_for config binary)).

Lemma backup_name : plain (m_binary_name binary +:+ "_" +:+ default "unknown" (m_current_version_string binary) +:+ ".backup").
Proof.
  pose proof (ul_name _ _ _ _ _ _ L) as H1. pose proof (bl_version _ _ _ BL) as H3.
  set (v := default "unknown" (m_current_version_string binary)) in *.
  assert (m_binary_name binary +:+ "_" +:+ v +:+ ".backup" = (m_binary_name binary +:+ "_" +:+ v) +:+ ".backup") as ->.
  { apply (inj chars). rewrite !chars_app. by rewrite <- !app_assoc. }
  apply plain_suffix; [|done|set_solver].
  assert ("_"%char ∈ chars (m_binary_name binary +:+ "_" +:+ v)) as Hin.
  { rewrite !chars_app. change (chars "_") with ["_"%char]. set_solver. }
  split_and!; [intros E; rewrite E in Hin; set_solver..|].
  rewrite !chars_app. change (chars "_") with ["_"%char]. set_solver.
Qed.

Lemma backup_resolved : exists x, B = resolve (backups_dir config) ++ [x] /\
  resolve (sig_path_for (backup_path_for config binary)) = resolve (backups_dir config) ++ [x +:+ ".sig"].
Proof.
  pose proof backup_name as Hp. unfold backup_path_for. eexists. rewrite resolve_join_plain by done. split; [done|].
  unfold sig_path_for. rewrite join_suffix; [|apply Hp|set_solver].
  apply resolve_join_plain, plain_suffix; [done|done|set_solver].
Qed.

Lemma not_in_dir p x : p = resolve (backups_dir config) ++ [x] -> forall y, p <> resolve d ++ [y].
Proof. intros -> y E. apply app_inj_tail in E as [E _]. apply (bl_below _ _ _ BL). by rewrite E. Qed.

End BackupLayout.

(** ** The database stays consistent *)

(** Outside a transaction, with tables in [I]. *)
Definition settled (I : client_tables -> Prop) (c : conn client_tables) : Prop := tx c = None /\ I (disk c).

(** The invariant of [ClientDbFacts]. *)
Definition consistent `{SV : Semver} : conn client_tables -> Prop := settled client_inv.

Lemma settled_keeps {A} I (m : db client_tables DbError A) c : keeps_inv I m -> settled I c -> settled I (m c).2.
Proof.
  intros Hm [Ht Hi]. destruct (Hm c Ht) as [Ht' Hi']. split; [done|]. destruct (m c) as [[a|e] c']; cbn in *; auto.
Qed.

(** The statements an update makes keep [I]. *)
Record update_ops `{SV : Semver} (I : client_tables -> Prop) (binary : DbManagedBinary) (update : UpdateInfo) : Prop := {
  uo_start now : keeps_inv I (record_update_start now (start_record binary update));
  uo_complete now id ok e m : keeps_inv I (record_update_complete now id ok e m);
  uo_installed now x y n : keeps_inv I (record_installed_version now (m_binary_id binary) (ui_version_id update)
                                          (version_to_string (ui_version update)) x y n);
  uo_current now : keeps_inv I (update_current_version now (m_binary_id binary) (ui_version_id update)
                                  (version_to_string (ui_version update)));
  uo_backup now v s p x n e m : create_backup now (m_binary_id binary) v s p x n e = Val m -> keeps_inv I m;
}.

Section Update.
Context {SV : Semver} {SL : SemverLaws SV} {SO : SqlOrder} {ET : ErrorTexts}.
Context {H : Type} {SH : StreamHasher H bytes} {H2 : Type} {SH2 : StreamHasher H2 bytes}.
Context (h : host).
Context (net : nat -> http_request -> result reqwest_error http_response).
Context (url_parse : string -> option url_parts) (status_text : Z -> string).
Context (blake3 : bytes -> bytes) (valid_key : bytes -> bool) (verify_signature : bytes -> bytes -> bytes -> bool).
Context (blake3_from_hex : string -> option bytes).
Context (zstd_decoder_new : bytes -> result string (bytes * option string)).

Abbreviation execute := (execute_update (SH := SH) h net url_parse status_text blake3 valid_key verify_signature zstd_decoder_new).
Abbreviation apply_ := (apply_update (SH := SH) (SH2 := SH2) h net url_parse status_text blake3 valid_key verify_signature
  blake3_from_hex zstd_decoder_new).
Abbreviation success := (record_success (SH := SH) (SH2 := SH2) h blake3_from_hex).

Section Keeping.
Context (P : system client_tables -> Prop) {F : Framed P} (binary : DbManagedBinary) (update : UpdateInfo).

(** The statements of an update as programs. *)
Record keeps_ops : Prop := {
  ko_start : keeps P (db_now h (fun now => record_update_start now (start_record binary update)));
  ko_complete id ok e m : keeps P (db_now h (fun now => record_update_complete now id ok e m));
  ko_installed x y n : keeps P (db_now h (fun now => record_installed_version now (m_binary_id binary)
                                 (ui_version_id update) (version_to_string (ui_version update)) x y n));
  ko_current : keeps P (db_now h (fun now => update_current_version now (m_binary_id binary) (ui_version_id update)
                                 (version_to_string (ui_version update))));
  ko_backup now v s p x n e : keeps P (unwinding (create_backup now (m_binary_id binary) v s p x n e));
}.
Context (U : keeps_ops).

(** An update keeps what its statements keep. *)
Lemma keeps_apply config : keeps P (apply_ config binary update).
Proof.
  pose proof (keeps_execute (SH := SH) h net url_parse status_text blake3 valid_key verify_signature zstd_decoder_new P).
  pose proof (keeps_validate h P). pose proof (keeps_check_space h P). pose proof (keeps_back_up P). destruct U.
  unfold apply_update, record_success, recover. patcher_keeps.
Qed.
End Keeping.

Lemma settled_ops I binary update : update_ops I binary update -> keeps_ops (fun s => settled I (sy_db s)) binary update.
Proof.
  intros U. split; intros; try (apply keeps_now; intros t c; apply settled_keeps; apply U).
  destruct (create_backup _ _ _ _ _ _ _ _) as [op|] eqn:E; cbn; [|auto with keeps].
  apply keeps_call. intros c. apply settled_keeps. by eapply (uo_backup _ _ _ U).
Qed.

Lemma keeps_forget {A} I (m : db client_tables DbError A) : keeps_inv I (forget m) -> keeps_inv I m.
Proof. intros Hm c Hc. specialize (Hm c Hc). unfold forget, dbind in Hm. by destruct (m c) as [[a|e] c']. Qed.

Lemma inv_update_ops binary update : update_ops client_inv binary update.
Proof.
  split; intros.
  - apply keeps_forget, (run_op_preserves (OpUpdateStart _ _)).
  - apply (run_op_preserves (OpComplete _ _ _ _ _)).
  - apply record_installed_preserves.
  - apply update_current_preserves.
  - by eapply create_backup_preserves.
Qed.

(** Applying an update - whatever fails, including statements of the database -
    leaves the client database consistent and outside a transaction. *)
Theorem apply_update_consistent config binary update s :
  consistent (sy_db s) -> consistent (sy_db (apply_ config binary update s).2).
Proof.
  apply (keeps_apply (fun s => consistent (sy_db s))), settled_ops, inv_update_ops.
Qed.

(** ** Recovery *)

Lemma recover_fails binary id backup e s u s1 : recover h binary id backup e s <> (Ok u, s1).
Proof.
  unfold recover. intros (? & ? & _ & E)%sbind_Ok. apply sbind_Ok in E as (? & ? & _ & E). by case_match.
Qed.

Section Recovery.
Context {HL : HasherLaw SH blake3}.
Context (config : ClientConfig) (binary : DbManagedBinary) (update : UpdateInfo) (d n : string).
Context (L : update_layout h config binary update d n) (BL : backup_layout config binary d).

Abbreviation I := (resolve (m_install_path binary)).
Abbreviation S := (resolve (sig_path_for (m_install_path binary))).
Abbreviation B := (resolve (backup_path_for config binary)).

(** The backup and the directory of the binary survive the update itself. *)
Lemma execute_keeps : sys_respects (keep_some [B; resolve d]) (execute config binary update).
Proof.
  destruct (backup_resolved h config binary update d n L BL) as (x & HB & _).
  assert (forall y, resolve d ++ [y] ∉ [B; resolve d]) as Hd.
  { intros y. rewrite !elem_of_cons. intros [E|[E|E%elem_of_nil]]; [|apply (f_equal length) in E; rewrite length_app in E; cbn in E; lia|done].
    symmetry in E. by apply (not_in_dir config binary d BL B x HB y). }
  assert (forall e, 2 <= str_len e -> "/"%char ∉ chars e ->
    downloadable (keep_some [B; resolve d])
      (join (downloads_dir config) (m_binary_name binary +:+ "_" +:+ ui_version_id update +:+ e))) as Hdl.
  { intros e He Hs. destruct (download_apart h _ _ _ _ _ L e He Hs) as (_ & _ & Hp1 & Hp2).
    split; [|intros q _; apply may_create_keep_some]. apply free_keep_some. rewrite !elem_of_cons.
    intros [E|[E|E%elem_of_nil]]; [|by rewrite E in Hp1|done].
    rewrite resolve_join_plain, HB in E by (by apply (download_name h _ _ _ _ _ L)).
    apply app_inj_tail in E as [E _]. by apply (dirs_differ config). }
  apply (respects_execute h net url_parse status_text blake3 valid_key verify_signature zstd_decoder_new
    (keep_some [B; resolve d]) config binary update d).
  - intros q Hq. destruct (parent_path_join d n (ul_plain _ _ _ _ _ _ L)) as (q' & Hq' & Hr).
    rewrite <- (ul_install _ _ _ _ _ _ L), Hq in Hq'. by injection Hq' as <-.
  - intros q Hq. destruct (parent_path_join d (n +:+ ".sig") (sig_plain h _ _ _ _ _ L)) as (q' & Hq' & Hr).
    rewrite <- (sig_path_join h _ _ _ _ _ L), Hq in Hq'. by injection Hq' as <-.
  - apply Hdl; [done|set_solver].
  - apply Hdl; [done|set_solver].
  - apply may_create_keep_some.
  - apply may_create_keep_some.
  - apply free_keep_some. rewrite (install_resolved h _ _ _ _ _ L). apply Hd.
  - apply free_keep_some. rewrite (sig_resolved h _ _ _ _ _ L). apply Hd.
  - intros q t Hq. destruct (temp_resolved h _ _ _ _ _ L q t Hq) as [-> _]. apply free_keep_some, Hd.
Qed.

Lemma back_up_keeps : sys_respects (keep [I; S]) (back_up config binary).
Proof.
  destruct (backup_resolved h config binary update d n L BL) as (x & HB & HBS).
  assert ((B ∉ [I; S]) /\ resolve (sig_path_for (backup_path_for config binary)) ∉ [I; S]) as [H1 H3].
  { rewrite (install_resolved h _ _ _ _ _ L), (sig_resolved h _ _ _ _ _ L), !elem_of_cons. split.
    - intros [E|[E|E%elem_of_nil]]; [by eapply (not_in_dir config binary d BL B x HB)..|done].
    - intros [E|[E|E%elem_of_nil]]; [by eapply (not_in_dir config binary d BL _ _ HBS)..|done]. }
  assert (may_create (keep [I; S]) (resolve (backups_dir config))).
  { apply may_create_keep. rewrite (install_resolved h _ _ _ _ _ L), (sig_resolved h _ _ _ _ _ L).
    repeat constructor; intros Hx%snoc_prefix; by apply (bl_below _ _ _ BL). }
  apply free_keep in H1. apply free_keep in H3. unfold back_up. patcher_respects.
Qed.

Lemma file_at_install (s : system client_tables) old : fs_read (files (sy_fs s)) I = Ok old <-> files (sy_fs s) !! I = Some (File old).
Proof.
  unfold fs_read. rewrite (install_resolved h _ _ _ _ _ L), node_at_snoc. case_match; [|naive_solver]. case_match; naive_solver.
Qed.

Lemma back_up_dir_keeps :
  sys_respects (keep [I]) (io_context (T := client_tables) "Failed to create backups directory" (create_dir_all (backups_dir config))).
Proof.
  assert (may_create (keep [I]) (resolve (backups_dir config))).
  { apply may_create_keep. rewrite (install_resolved h _ _ _ _ _ L).
    repeat constructor. intros Hx%snoc_prefix. by apply (bl_below _ _ _ BL). }
  patcher_respects.
Qed.

(** A backup that was taken, whatever else failed, is a copy of the binary. *)
Lemma back_up_copies s p s1 :
  back_up config binary s = (Ok (Some p), s1) ->
  p = backup_path_for config binary /\
  exists old, files (sy_fs s) !! I = Some (File old) /\ files (sy_fs s1) !! B = Some (File old).
Proof.
  destruct (backup_resolved h config binary update d n L BL) as (x & HB & HBS).
  unfold back_up. intros (u & s2 & E2 & E)%sbind_Ok.
  pose proof (step_keep [I] _ s _ s2 I back_up_dir_keeps E2 ltac:(set_solver)) as HI2.
  apply sbind_Ok in E as (present & s3 & E3 & E).
  assert (files (sy_fs s3) = files (sy_fs s2)) as Hf3 by (eapply step_untouched, E3; patcher_respects).
  destruct present; [|done]. apply sbind_Ok in E as (v & s4 & E4 & E).
  assert (exists old, files (sy_fs s) !! I = Some (File old) /\ files (sy_fs s4) !! B = Some (File old)) as (old & HI & HB4).
  { revert E4. unfold io_context, of_io, io_map.
    destruct (copy_cases (m_install_path binary) (backup_path_for config binary) (sy_fs s3)) as (r & w & -> & Hc).
    destruct Hc as [(-> & c & Hr & Hw)|(e & -> & _)]; cbn; [|done]. intros [= _ <-]. cbn. exists c.
    rewrite Hw, lookup_insert_eq. split; [|done]. by rewrite <- HI2, <- Hf3, <- file_at_install. }
  apply sbind_Ok in E as (signed & s5 & E5 & E). apply sbind_Ok in E as (w & s6 & E6 & E). injection E as <- <-.
  split; [done|]. exists old. split; [done|].
  rewrite <- HB4. etrans; [eapply (step_keep [B]); [|exact E6|set_solver]|eapply (step_keep [B]); [|exact E5|set_solver]].
  - assert (free (keep [B]) (resolve (sig_path_for (backup_path_for config binary)))).
    { apply free_keep. rewrite HB, HBS. intros E%list_elem_of_singleton. apply app_inj_tail in E as [_ E].
      apply (f_equal (length ∘ chars)) in E. cbn in E. rewrite chars_app, length_app in E. cbn in E. lia. }
    patcher_respects.
  - patcher_respects.
Qed.

Lemma back_up_Ok s b s1 old :
  quiet (sy_fs s) -> files (sy_fs s) !! I = Some (File old) -> back_up config binary s = (Ok b, s1) ->
  b = Some (backup_path_for config binary) /\ files (sy_fs s1) !! B = Some (File old).
Proof.
  intros Hq Hold E. destruct b as [p|].
  { apply back_up_copies in E as (-> & old' & Ho & HB). rewrite Hold in Ho. by injection Ho as <-. }
  exfalso. revert E. unfold back_up. intros (u & s2 & E2 & E)%sbind_Ok.
  pose proof (step_keep [I] _ s _ s2 I back_up_dir_keeps E2 ltac:(set_solver)) as HI2.
  assert (quiet (sy_fs s2)) as Hq2 by (apply (quiet_kept _ _ s back_up_dir_keeps) in Hq; by rewrite E2 in Hq).
  apply sbind_Ok in E as (present & s3 & E3 & E). assert (present = true) as ->.
  { revert E3. unfold fs_test, of_io, io_map. rewrite exists_quiet by done. intros [= <- <-].
    rewrite (install_resolved h _ _ _ _ _ L), node_at_snoc, <- (install_resolved h _ _ _ _ _ L), HI2, Hold.
    by rewrite bool_decide_eq_true_2. }
  apply sbind_Ok in E as (? & ? & _ & E). apply sbind_Ok in E as (? & ? & _ & E). by apply sbind_Ok in E as (? & ? & _ & E).
Qed.

Lemma back_up_keeps_dir : sys_respects (keep_some [resolve d]) (back_up config binary).
Proof.
  destruct (backup_resolved h config binary update d n L BL) as (x & HB & HBS).
  assert (forall y, free (keep_some [resolve d]) (resolve (backups_dir config) ++ [y])) as Hf.
  { intros y. apply free_keep_some. intros E%list_elem_of_singleton. apply (bl_above _ _ _ BL). rewrite <- E. by exists [y]. }
  pose proof (Hf x) as H1. pose proof (Hf (x +:+ ".sig")) as H3. rewrite <- HB in H1. rewrite <- HBS in H3.
  pose proof (may_create_keep_some [resolve d] (resolve (backups_dir config))).
  unfold back_up. patcher_respects.
Qed.

Lemma dir_kept {A} (m : sys client_tables client_error A) s :
  sys_respects (keep_some [resolve d]) m -> node_at (files (sy_fs s)) (resolve d) = Some Dir ->
  node_at (files (sy_fs (m s).2)) (resolve d) = Some Dir.
Proof.
  unfold node_at. case_bool_decide; [done|]. intros Hm Hd. eapply kept_some; [done|set_solver|done].
Qed.

Lemma recover_restores id e s old x :
  quiet (sy_fs s) -> files (sy_fs s) !! B = Some (File old) -> files (sy_fs s) !! I = Some (File x) ->
  node_at (files (sy_fs s)) (resolve d) = Some Dir ->
  files (sy_fs (recover h binary id (Some (backup_path_for config binary)) e s).2) !! I = Some (File old) /\
  exists e', (recover h binary id (Some (backup_path_for config binary)) e s).1 = Err e'.
Proof.
  intros Hq HB HI Hd. destruct (backup_resolved h config binary update d n L BL) as (y & HBr & _).
  assert (node_at (files (sy_fs s)) B = Some (File old)) as HnB by (by rewrite HBr, node_at_snoc, <- HBr).
  assert (node_at (files (sy_fs s)) I = Some (File x)) as HnI.
  { by rewrite (install_resolved h _ _ _ _ _ L), node_at_snoc, <- (install_resolved h _ _ _ _ _ L). }
  unfold recover.
  set (w1 := advance (sy_fs s) (files (sy_fs s))).
  set (w2 := advance w1 (<[I := File old]> (files w1))).
  match goal with |- context [sbind ?m ?k s] => rewrite (sbind_step m k s None (with_fs w2 s)) end.
  2: { rewrite (sbind_step _ _ s true (with_fs w1 s)).
       2: { unfold fs_test, of_io, io_map. rewrite exists_quiet by done. rewrite HnB. by rewrite bool_decide_eq_true_2. }
       rewrite (sbind_step _ _ (with_fs w1 s) (Ok tt) (with_fs w2 s)); [done|].
       unfold attempt, fs_call, of_io, io_map. cbn [sy_fs with_fs].
       rewrite (copy_quiet _ _ w1 old); [done|by apply quiet_advance| | |].
       - unfold fs_read. cbn. by rewrite HnB.
       - cbn. by rewrite HnI.
       - cbn. by rewrite (install_resolved h _ _ _ _ _ L), parent_snoc. }
  assert (files (sy_fs (with_fs w2 s)) !! I = Some (File old)) as HI2 by (cbn; apply lookup_insert_eq).
  match goal with |- context [sbind ?m ?k (with_fs w2 s)] => pose proof (step_untouched (sbind m k) (with_fs w2 s)) as Hu;
    destruct (sbind m k (with_fs w2 s)) as [r s3] eqn:E end.
  split.
  - cbn [snd]. rewrite (Hu r s3); [done| |done]. unfold db_now. patcher_respects.
  - destruct r as [v|e']; [|eauto]. by apply sbind_Ok in E as (? & ? & _ & E).
Qed.

(** The old binary is in its directory and no call fails. *)
Definition intact (old : bytes) (s : system client_tables) : Prop :=
  quiet (sy_fs s) /\ files (sy_fs s) !! I = Some (File old) /\ node_at (files (sy_fs s)) (resolve d) = Some Dir.

Lemma intact_step {A} old (m : sys client_tables client_error A) s r s1 :
  sys_respects (keep [I]) m -> sys_respects (keep_some [resolve d]) m -> intact old s -> m s = (r, s1) -> intact old s1.
Proof.
  intros Hk Hd (Hq & Hi & Hn) E. split_and!.
  - apply (quiet_kept _ _ s Hk) in Hq. by rewrite E in Hq.
  - rewrite <- Hi. eapply (step_keep [I]); [done|done|set_solver].
  - apply (dir_kept m s Hd) in Hn. by rewrite E in Hn.
Qed.

Lemma intact_untouched {A} old (m : sys client_tables client_error A) s r s1 :
  sys_respects untouched m -> intact old s -> m s = (r, s1) -> intact old s1.
Proof.
  intros Hu. apply intact_step.
  - intros s2. destruct (Hu s2) as [Hf Hp]. split; [done|]. intros p _. apply Hp.
  - intros s2. destruct (Hu s2) as [Hf Hp]. split; [done|]. intros p _ _. apply Hp.
Qed.

Lemma success_untouched id metrics backup : sys_respects untouched (success binary update id metrics backup).
Proof. unfold record_success, unwinding, db_now. patcher_respects. Qed.

(** The recovery leaves the install path alone, or copies there what the backup
    holds, as far as it gets. *)
Lemma recover_copies id backup e s old :
  (forall p, backup = Some p -> p = backup_path_for config binary /\ files (sy_fs s) !! B = Some (File old)) ->
  let s' := (recover h binary id backup e s).2 in
  files (sy_fs s') !! I = files (sy_fs s) !! I \/ is_Some backup /\ exists k, files (sy_fs s') !! I = Some (File (take k old)).
Proof.
  intros Hb. destruct (backup_resolved h config binary update d n L BL) as (y & HBr & _). cbn zeta.
  unfold recover. set (restore := match backup with Some _ => _ | None => _ end).
  set (k := fun restore_error : option client_error => _).
  assert (forall o, sys_respects untouched (k o)) as Hk by (intros o; unfold k, db_now; patcher_respects).
  assert (files (sy_fs (sbind restore k s).2) = files (sy_fs (restore s).2)) as ->.
  { unfold sbind. destruct (restore s) as [[o|x] s1]; [|done]. cbn [snd].
    destruct (k o s1) as [r s2] eqn:E. cbn [snd]. by rewrite (step_untouched _ _ _ _ (Hk o) E). }
  assert (files (sy_fs (restore s).2) = files (sy_fs s) \/ is_Some backup /\
    exists j, files (sy_fs (restore s).2) = <[I := File (take j old)]> (files (sy_fs s))) as [->|[Hs [j ->]]].
  2: { by left. }
  2: { right. split; [done|]. exists j. by rewrite lookup_insert_eq. }
  unfold restore. destruct backup as [p|]; [|by left]. destruct (Hb p eq_refl) as [-> HB]. unfold sbind.
  destruct (fs_test (exists_ (backup_path_for config binary)) s) as [r s1] eqn:E1.
  assert (files (sy_fs s1) = files (sy_fs s)) as Hw1 by (eapply step_untouched, E1; patcher_respects).
  destruct r as [[]|x]; [|by left..]. rewrite attempt_fs_call.
  destruct (copy_cases (backup_path_for config binary) (m_install_path binary) (sy_fs s1)) as (rc & w & -> & Hc).
  cbn [fst snd sret sy_fs with_fs]. rewrite <- Hw1.
  assert (forall c, fs_read (files (sy_fs s1)) B = Ok c -> c = old) as Hold.
  { intros c. unfold fs_read. rewrite HBr, node_at_snoc, <- HBr, Hw1, HB. by intros [= ->]. }
  destruct Hc as [(_ & c & ->%Hold & ->)|(x & _ & [->|(c & j & ->%Hold & ->)])]; [right|by left|right; by eauto].
  split; [done|]. exists (length old). by rewrite firstn_all.
Qed.

(** How an update ends: verified and signed after a success; after an error as
    before, verified, or with the first part of the old binary. *)
Definition apply_outcome (s : system client_tables) (x : result client_error unit * system client_tables) : Prop :=
  match x.1 with
  | Ok _ => exists data signature, verified_binary blake3 valid_key verify_signature binary update data signature /\
      files (sy_fs x.2) !! I = Some (File data) /\ files (sy_fs x.2) !! S = Some (File signature)
  | Err _ => files (sy_fs x.2) !! I = files (sy_fs s) !! I \/
      (exists data signature, verified_binary blake3 valid_key verify_signature binary update data signature /\
         files (sy_fs x.2) !! I = Some (File data)) \/
      exists old k, files (sy_fs s) !! I = Some (File old) /\ files (sy_fs x.2) !! I = Some (File (take k old))
  end.

Lemma apply_outcome_bind {A} (m : sys client_tables client_error A) k s :
  sys_respects (keep [I]) m -> (forall a s1, m s = (Ok a, s1) -> apply_outcome s1 (k a s1)) -> apply_outcome s (sbind m k s).
Proof.
  intros Hm Hk. unfold sbind. destruct (m s) as [r s1] eqn:E.
  pose proof (step_keep [I] m s r s1 I Hm E ltac:(set_solver)) as Hf. destruct r as [a|e]; [|by left].
  specialize (Hk a s1 eq_refl). unfold apply_outcome in *. by rewrite Hf in Hk.
Qed.

(** The update proper, the records and the recovery. *)
Lemma apply_last_outcome id backup s old :
  (forall p, backup = Some p -> p = backup_path_for config binary /\
     files (sy_fs s) !! I = Some (File old) /\ files (sy_fs s) !! B = Some (File old)) ->
  apply_outcome s (sbind (attempt (execute config binary update)) (fun r =>
    match r with
    | Ok metrics => success binary update id metrics backup
    | Err e => recover h binary id backup e
    end) s).
Proof.
  intros Hb. rewrite (sbind_step _ _ _ _ _ (attempt_steady _ _ (steady_execute _ _ _ _ _ _ _ _ _ _ _))).
  pose proof (execute_outcome h net url_parse status_text blake3 valid_key verify_signature zstd_decoder_new
    config binary update d n L s) as Hout.
  pose proof (fun f => kept_some _ _ s B (File f) execute_keeps ltac:(set_solver)) as HB.
  destruct (execute config binary update s) as [r s1]. cbn [fst snd] in *. destruct r as [metrics|e]; cbn in Hout.
  - pose proof (step_untouched _ s1 _ _ (success_untouched id metrics backup) (surjective_pairing _)) as Hf.
    destruct Hout as (data & sig & Hv & HI & HS). unfold apply_outcome.
    destruct (success binary update id metrics backup s1) as [[u|x] s2]; cbn [fst snd] in *; rewrite Hf; eauto 6.
  - unfold apply_outcome. destruct (recover h binary id backup e s1) as [[u|x] s2] eqn:Er;
      [by apply recover_fails in Er|]. cbn [fst snd].
    destruct (recover_copies id backup e s1 old) as [Hr|[[p Hp] [k Hr]]].
    { intros p Hp. destruct (Hb p Hp) as (-> & _ & HBs). split; [done|by apply HB]. }
    + rewrite Er in Hr. cbn in Hr. rewrite Hr. destruct Hout as [Ho|Ho]; [by left|by right; left].
    + rewrite Er in Hr. cbn in Hr. right; right. exists old, k. split; [apply (Hb p Hp)|done].
Qed.

Lemma apply_safe s : apply_outcome s (apply_ config binary update s).
Proof.
  unfold apply_update. pose proof (respects_validate h (keep [I]) (m_install_path binary)) as Hv.
  apply apply_outcome_bind; [patcher_respects; done|]. intros u1 s1 _.
  apply apply_outcome_bind; [unfold check_space, space_for, check_disk_space, check_disk_space_at_path; patcher_respects|].
  intros u2 s2 _. apply apply_outcome_bind; [unfold db_now; patcher_respects|]. intros id s3 _.
  assert (sys_respects (keep [I]) (back_up config binary)) as Hbk by (eapply keep_weaken, back_up_keeps; set_solver).
  apply apply_outcome_bind; [exact Hbk|]. intros backup s4 E4.
  destruct backup as [p|]; [|apply (apply_last_outcome id None s4 []); done].
  pose proof (step_keep [I] _ _ _ _ I Hbk E4 ltac:(set_solver)) as HI.
  apply back_up_copies in E4 as (-> & old & Ho & HB). apply (apply_last_outcome id _ s4 old).
  intros p [= <-]. split; [done|]. split; [by rewrite HI|done].
Qed.

(** C2: Whatever calls of the file system, the network, the clock or the database
    fail on the way: when [apply_update] reports success, the install path holds a
    binary whose hash is the announced one and which the publisher's key signed
    for the announced version, with its signature beside it.  When it reports an
    error, the install path holds what was there before, or such a verified
    binary, or - when the recovery's copy of the backup was cut short - a first
    part of the old binary. *)
Theorem apply_update_safe s : apply_outcome s (apply_ config binary update s).
Proof. apply apply_safe. Qed.

(** C10: In a run without file errors a failed update is undone: when [apply_update]
    returns an error the old binary is in place again - unless the new one was
    already installed completely, verified and with its signature, and only the
    bookkeeping after it failed. *)
Theorem failed_update_undone s old e s' :
  intact old s -> apply_ config binary update s = (Err e, s') ->
  files (sy_fs s') !! I = Some (File old) \/
  exists data signature, verified_binary blake3 valid_key verify_signature binary update data signature /\
    files (sy_fs s') !! I = Some (File data) /\ files (sy_fs s') !! S = Some (File signature).
Proof.
  intros Hin. unfold apply_update. pose proof (respects_validate h untouched (m_install_path binary)) as Hv.
  intros [E|(u & s1 & E1 & E)]%sbind_Err.
  { left. eapply (intact_untouched old); [|exact Hin|exact E]. patcher_respects; done. }
  eapply (intact_untouched old) in E1; [|patcher_respects; done|exact Hin]. clear Hin.
  apply sbind_Err in E as [E|(u2 & s2 & E2 & E)].
  { left. eapply (intact_untouched old); [|exact E1|exact E].
    unfold check_space, space_for, check_disk_space, check_disk_space_at_path. patcher_respects. }
  eapply (intact_untouched old) in E2; [|unfold check_space, space_for, check_disk_space, check_disk_space_at_path; patcher_respects|exact E1].
  apply sbind_Err in E as [E|(id & s3 & E3 & E)].
  { left. eapply (intact_untouched old); [|exact E2|exact E]. unfold db_now. patcher_respects. }
  eapply (intact_untouched old) in E3; [|unfold db_now; patcher_respects|exact E2].
  assert (sys_respects (keep [I]) (back_up config binary)) as Hb by (eapply keep_weaken, back_up_keeps; set_solver).
  apply sbind_Err in E as [E|(b & s4 & E4 & E)].
  { left. eapply (intact_step old); [exact Hb|exact back_up_keeps_dir|exact E3|exact E]. }
  destruct (back_up_Ok s3 b s4 old) as [-> HB]; [apply E3|apply E3|exact E4|].
  eapply (intact_step old) in E4; [|exact Hb|exact back_up_keeps_dir|exact E3].
  apply sbind_Err in E as [E|(r & s5 & E5%attempt_Ok & E)].
  { apply attempt_Err in E as [E Hp]. apply steady_execute in E. congruence. }
  pose proof (execute_outcome h net url_parse status_text blake3 valid_key verify_signature zstd_decoder_new
    config binary update d n L s4) as Hout. rewrite E5 in Hout.
  destruct r as [metrics|e5].
  - right. destruct Hout as (data & sig & Hver & HI5 & HS5). exists data, sig.
    pose proof (step_untouched _ _ _ _ (success_untouched id metrics (Some (backup_path_for config binary))) E) as Hf.
    by rewrite Hf.
  - left. destruct E4 as (Hq4 & HI4 & Hd4).
    assert (exists x, files (sy_fs s5) !! I = Some (File x)) as [x Hx].
    { destruct Hout as [Ho|(data & sig & _ & Ho)]; cbn in Ho; [rewrite Ho; eauto|eauto]. }
    destruct (recover_restores id e5 s5 old x) as [Hr _]; [| |done| |by rewrite E in Hr].
    + apply (quiet_kept _ _ s4 execute_keeps) in Hq4. by rewrite E5 in Hq4.
    + pose proof (kept_some _ _ s4 B (File old) execute_keeps ltac:(set_solver) HB) as HB5. by rewrite E5 in HB5.
    + assert (sys_respects (keep_some [resolve d]) (execute config binary update)) as Hk.
      { intros s6. destruct (execute_keeps s6) as [Hf Hp]. split; [done|]. intros p Hin. apply Hp. set_solver. }
      apply (dir_kept _ s4 Hk) in Hd4. by rewrite E5 in Hd4.
Qed.
End Recovery.

(** ** What a success records *)

Lemma in_context_Ok {A} t (m : sys client_tables client_error A) s a s1 : in_context t m s = (Ok a, s1) -> m s = (Ok a, s1).
Proof. unfold in_context. destruct (m s) as [[b|e] s2]; [by intros [= -> ->]|done]. Qed.

Lemma db_call_Ok {A} (m : db client_tables DbError A) s a s1 :
  db_call m s = (Ok a, s1) -> exists c, m (sy_db s) = (Ok a, c) /\ s1 = with_db c s.
Proof. unfold db_call, of_db. destruct (m (sy_db s)) as [[b|e] c]; [|done]. intros [= -> <-]. eauto. Qed.

Lemma db_now_Ok {A} (m : string -> db client_tables DbError A) s a s1 :
  db_now h m s = (Ok a, s1) -> exists now c, m now (sy_db s) = (Ok a, c) /\ s1 = with_db c s.
Proof.
  unfold db_now. intros (now & s2 & E2 & E)%sbind_Ok. injection E2 as <- <-. apply db_call_Ok in E. eauto.
Qed.

Lemma effect_Ok {T E A} (m : db T E A) ok err c a c' :
  effect m ok err -> tx c = None -> m c = (Ok a, c') -> tx c' = None /\ ok (disk c) a (disk c').
Proof. intros Hm Ht E1. specialize (Hm c Ht). by rewrite E1 in Hm. Qed.

(** A call that touches no database. *)
Lemma same_db {A} (m : sys client_tables client_error A) s r s1 :
  (forall Q, db_respects Q m) -> m s = (r, s1) -> sy_db s1 = sy_db s.
Proof. intros Hm E. specialize (Hm (eq (sy_db s)) s eq_refl). by rewrite E in Hm. Qed.

Lemma record_installed_effect now b v s x y size :
  effect (record_installed_version now b v s x y size)
    (fun t id t' => exists r, t' = with_installed (ct_installed t ++ [r]) id t /\ installed_key r = (b, v) /\
                              i_file_hash_blake3 r = x) (fun _ _ _ => True).
Proof.
  unfold record_installed_version.
  intros c Hc. unfold dbind, dlift. do 2 (destruct (validate_hash_size _ _) as [[]|?]; [|done]).
  destruct (normalize_version_string s) as [s'|?]; [|done]. case_match; [done|].
  destruct (effect_q _ _ _ (effect_exec (on "installed_versions" (insert_installed now b v s' x y size))) c Hc) as [H1 H3].
  split; [done|]. destruct (q _ c) as [[id|e] c']; cbn in *; [|done].
  apply on_Ok in H3. unfold insert_installed in H3. apply result_bind_Ok in H3 as (id' & _ & H3).
  apply result_bind_Ok in H3 as (_ & _ & H3). apply result_bind_Ok in H3 as (_ & _ & [= <- <-]). eauto.
Qed.

Lemma create_backup_effect now b v s p x size e m :
  create_backup now b v s p x size e = Val m ->
  effect m (fun t _ t' => ct_managed t' = ct_managed t /\ ct_installed t' = ct_installed t) (fun _ _ _ => True).
Proof.
  unfold create_backup. destruct (check_backup x e) as [r|]; [|done]. intros [= <-] c Hc.
  unfold dbind, dlift. destruct r as [[]|?]; [|done]. destruct (normalize_version_string s) as [s'|?]; [|done].
  destruct (effect_q _ _ _ (effect_exec (on "rollback_backups" (insert_backup now b v s' p x size e))) c Hc) as [H1 H3].
  split; [done|]. destruct (q _ c) as [[id|er] c']; cbn in *; [|done].
  apply on_Ok in H3. unfold insert_backup in H3. apply result_bind_Ok in H3 as (id' & _ & H3).
  by apply result_bind_Ok in H3 as (_ & _ & [= <- <-]).
Qed.

Lemma complete_tx now id ok e m c : tx c = None -> tx (record_update_complete now id ok e m c).2 = None.
Proof.
  intros Hc. unfold record_update_complete.
  destruct (effect_q _ _ _ (effect_exec (on "update_history" (update_history id (finished now ok e m)))) c Hc) as [H1 _].
  unfold dbind. destruct (q _ c) as [[k|er] c']; [|done]. unfold found_rows. by case_match.
Qed.

(** The version is the current one of its binary, in both tables. *)
Definition is_installed (t : client_tables) (b v s : string) (hash : bytes) : Prop :=
  (exists m, m ∈ ct_managed t /\ m_binary_id m = b /\ m_current_version_id m = Some v /\
     m_current_version_string m = Some s) /\
  exists r, r ∈ ct_installed t /\ installed_key r = (b, v) /\ i_is_current r = true /\ i_file_hash_blake3 r = hash.

Lemma current_spec_installed now b v s t x r :
  b ∈ binary_ids t -> r ∈ ct_installed t -> installed_key r = (b, v) -> i_file_hash_blake3 r = x ->
  is_installed (current_spec now b v s t) b v s x.
Proof.
  intros Hb Hr Hk Hx. split.
  - apply list_elem_of_fmap in Hb as (m & -> & Hm). exists (set_current now v s m). split_and!; try done.
    cbn. apply elem_of_update_rows. exists m. split; [done|]. unfold has_binary_id. by rewrite bool_decide_eq_true_2.
  - injection Hk as Hk1 Hk2. exists (mark_current b v r). split.
    + cbn. by apply list_elem_of_fmap_2.
    + unfold mark_current, of_binary, installed_key. rewrite bool_decide_eq_true_2 by done. cbn.
      split; [congruence|]. split; [by rewrite bool_decide_eq_true_2|done].
Qed.

Lemma unwinding_backup_Ok now b v s p x size e st id st1 :
  unwinding (create_backup now b v s p x size e) st = (Ok id, st1) -> tx (sy_db st) = None ->
  tx (sy_db st1) = None /\ ct_managed (disk (sy_db st1)) = ct_managed (disk (sy_db st)) /\
  ct_installed (disk (sy_db st1)) = ct_installed (disk (sy_db st)).
Proof.
  destruct (create_backup now b v s p x size e) as [m|] eqn:Em; [|done]. cbn [unwinding].
  intros (c & E & ->)%db_call_Ok Ht. cbn. by eapply effect_Ok in E; [|by eapply create_backup_effect|].
Qed.

Lemma success_records binary update id metrics backup s u s1 :
  tx (sy_db s) = None -> success binary update id metrics backup s = (Ok u, s1) ->
  exists x, blake3_from_hex (ui_checksum update) = Some x /\
    is_installed (disk (sy_db s1)) (m_binary_id binary) (ui_version_id update) (version_to_string (ui_version update)) x /\
    head (sy_audit s1) = Some (UpdateApplied (m_binary_name binary) (version_to_string (ui_version update)) (m_install_path binary)).
Proof.
  intros Ht. unfold record_success. intros (u1 & s2 & (now & c & E1 & ->)%db_now_Ok & E)%sbind_Ok.
  assert (tx c = None) as Ht2.
  { pose proof (complete_tx now id true None metrics (sy_db s) Ht) as Hx. by rewrite E1 in Hx. }
  apply sbind_Ok in E as (size & s3 & E3 & E). eapply same_db in E3; [|intros Q; patcher_keeps]. cbn in E3.
  apply sbind_Ok in E as (x & s4 & E4 & E). injection E4 as Hx%ok_or_Ok <-. exists x. split; [done|].
  apply sbind_Ok in E as (y & s5 & E5 & E). eapply same_db in E5; [|intros Q; patcher_keeps]. rewrite E3 in E5.
  apply sbind_Ok in E as (rid & s6 & (now6 & c6 & E6 & ->)%in_context_Ok%db_now_Ok & E). rewrite E5 in E6.
  eapply effect_Ok in E6; [|apply record_installed_effect|done]. destruct E6 as [Ht6 (r & Hd6 & Hk & Hh)].
  apply sbind_Ok in E as (v & s7 & (now7 & c7 & E7 & ->)%db_now_Ok & E). cbn in E7.
  eapply effect_Ok in E7; [|apply update_current_effect|done]. destruct E7 as [Ht7 (Hb & _ & Hd7)].
  apply sbind_Ok in E as (w & s8 & E8 & E). injection E as _ <-. split; [|done]. cbn.
  assert (is_installed (disk c7) (m_binary_id binary) (ui_version_id update) (version_to_string (ui_version update)) x) as Hin.
  { rewrite Hd7. apply (current_spec_installed _ _ _ _ _ _ r); [done| |done|done]. rewrite Hd6. cbn.
    apply elem_of_app. right. set_solver. }
  assert (sy_db s8 = c7 \/ (ct_managed (disk (sy_db s8)) = ct_managed (disk c7) /\
                           ct_installed (disk (sy_db s8)) = ct_installed (disk c7))) as [->|[Hm Hi]].
  { destruct backup as [bp|]; [|left; by injection E8 as _ <-].
    destruct (m_current_version_id binary) as [pv|]; [|left; by injection E8 as _ <-].
    destruct (m_current_version_string binary) as [ps|]; [|left; by injection E8 as _ <-].
    apply sbind_Ok in E8 as (present & s9 & E9 & E8). eapply same_db in E9; [|intros Q; patcher_keeps]. cbn in E9.
    destruct present; [|left; by injection E8 as _ <-].
    apply sbind_Ok in E8 as (bh & s10 & E10 & E8). eapply same_db in E10; [|intros Q; patcher_keeps].
    apply sbind_Ok in E8 as (bs & s11 & E11 & E8). eapply same_db in E11; [|intros Q; patcher_keeps].
    apply sbind_Ok in E8 as (now8 & s12 & E12 & E8). injection E12 as _ <-.
    apply sbind_Ok in E8 as (bid & s13 & E13 & E8). injection E8 as _ <-. right.
    assert (sy_db s11 = c7) as Hc7 by congruence.
    apply unwinding_backup_Ok in E13 as (_ & ? & ?); rewrite Hc7 in *; done. }
  - done.
  - destruct Hin as [Ha Hc]. split; [by rewrite Hm|by rewrite Hi].
Qed.

Lemma apply_recorded {HL : HasherLaw SH blake3} config binary update d n s u s' :
  update_layout h config binary update d n -> tx (sy_db s) = None ->
  apply_ config binary update s = (Ok u, s') ->
  (exists data signature, verified_binary blake3 valid_key verify_signature binary update data signature /\
     files (sy_fs s') !! resolve (m_install_path binary) = Some (File data) /\
     files (sy_fs s') !! resolve (sig_path_for (m_install_path binary)) = Some (File signature)) /\
  (exists x, blake3_from_hex (ui_checksum update) = Some x /\
     is_installed (disk (sy_db s')) (m_binary_id binary) (ui_version_id update) (version_to_string (ui_version update)) x) /\
  head (sy_audit s') = Some (UpdateApplied (m_binary_name binary) (version_to_string (ui_version update)) (m_install_path binary)).
Proof.
  intros L Ht. unfold apply_update. intros (u1 & s1 & E1 & E)%sbind_Ok.
  eapply same_db in E1; [|intros Q; apply keeps_in_context, keeps_validate; apply _].
  apply sbind_Ok in E as (u2 & s2 & E2 & E). eapply same_db in E2; [|intros Q; apply keeps_check_space; apply _].
  apply sbind_Ok in E as (id & s3 & (now & c & E3 & ->)%in_context_Ok%db_now_Ok & E).
  rewrite E2, E1 in E3. apply (effect_Ok _ _ _ _ _ _ (effect_q _ _ _ (effect_exec _)) Ht) in E3 as [Ht3 _].
  apply sbind_Ok in E as (backup & s4 & E4 & E). eapply same_db in E4; [|intros Q; apply keeps_back_up; apply _]. cbn in E4.
  apply sbind_Ok in E as (r & s5 & E5%attempt_Ok & E).
  destruct r as [metrics|e]; [|by apply recover_fails in E].
  pose proof (execute_outcome h net url_parse status_text blake3 valid_key verify_signature zstd_decoder_new
    config binary update d n L s4) as Hout. rewrite E5 in Hout. destruct Hout as (data & sig & Hv & HI & HS).
  eapply same_db in E5; [|intros Q; apply keeps_execute; apply _].
  pose proof (step_untouched _ _ _ _ (success_untouched binary update id metrics backup) E) as Hf.
  split; [exists data, sig; by rewrite Hf|].
  apply success_records in E as (x & Hx & Hi & Ha); [eauto|congruence].
Qed.

(** C13: When [apply_update] reports success, whatever failed on the way, the install
    path holds a binary with the announced hash that the publisher signed for the
    announced version, with its signature beside it; the database names that
    version as the current one and stores its hash; and the update was logged. *)
Theorem successful_update_recorded {HL : HasherLaw SH blake3} config binary update d n s u s' :
  update_layout h config binary update d n -> tx (sy_db s) = None ->
  apply_ config binary update s = (Ok u, s') ->
  (exists data signature, verified_binary blake3 valid_key verify_signature binary update data signature /\
     files (sy_fs s') !! resolve (m_install_path binary) = Some (File data) /\
     files (sy_fs s') !! resolve (sig_path_for (m_install_path binary)) = Some (File signature)) /\
  (exists x, blake3_from_hex (ui_checksum update) = Some x /\
     is_installed (disk (sy_db s')) (m_binary_id binary) (ui_version_id update) (version_to_string (ui_version update)) x) /\
  head (sy_audit s') = Some (UpdateApplied (m_binary_name binary) (version_to_string (ui_version update)) (m_install_path binary)).
Proof. apply apply_recorded. Qed.
End Update.
