(* ===== verification/Rollback.v ===== *)
(** * Rollback: restoring a backup ([deltaship-client/src/commands/rollback.rs])

    The chosen backup is checked against its recorded hash and the publisher's
    signature, the current binary is backed up, and the backup is swapped in
    through a temporary file. *)

From S2P Require Import Prelude Text Diff Version Core Validation Fs Crypto DbModels Sql ClientDb ClientDbFacts System.
From S2P Require Import ClientConfig Downloader Checker InstallPath Patcher PatcherFacts UpdateFacts.

#[local] Open Scope Z_scope.

Record RollbackInfo := {
  ri_backup_id : Z;
  ri_version_string : string;
  ri_backup_path : string;
  ri_created_at : string;
  ri_size_bytes : Z;
}.

(** [impl From<DbRollbackBackup> for RollbackInfo]. *)
Definition rollback_info (b : DbRollbackBackup) : RollbackInfo := {|
  ri_backup_id := r_backup_id b; ri_version_string := r_version_string b; ri_backup_path := r_backup_path b;
  ri_created_at := r_created_at b; ri_size_bytes := r_backup_size_bytes b |}.

(** [replace(['/', '\\', ' '], "_")]. *)
Definition sanitize_version (v : string) : string :=
  of_chars ((fun c => if bool_decide (c ∈ chars "/\ ") then "_"%char else c) <$> chars v).

Section Rollback.
Context {SV : Semver} {SO : SqlOrder} {ET : ErrorTexts} {H : Type} {SH : StreamHasher H bytes} (h : host).
Context (valid_key : bytes -> bool) (verify_signature : bytes -> bytes -> bytes -> bool).

#[local] Open Scope sys_scope.
Abbreviation csys := (sys client_tables client_error).

Definition find_binary (binary_name : string) : csys DbManagedBinary :=
  found ←! db_call (get_binary_by_name binary_name);
  of_result (ok_or (CMsg ("Binary '" +:+ binary_name +:+ "' not found")) found).

(** The loop that keeps the backups whose files exist. *)
Fixpoint existing_backups (backups : list DbRollbackBackup) : csys (list RollbackInfo) :=
  match backups with
  | [] => sret []
  | b :: backups =>
      present ←! fs_test (exists_ (r_backup_path b));
      rest ←! existing_backups backups;
      sret (if (present : bool) then rollback_info b :: rest else rest)
  end.

Definition list_available_rollbacks (binary_name : string) : csys (list RollbackInfo) :=
  binary ←! find_binary binary_name;
  backups ←! db_call (list_backups (m_binary_id binary));
  existing_backups backups.

(** The backup that is asked for, by default the newest. *)
Definition choose_backup (binary_name : string) (backups : list DbRollbackBackup) (to_version : option string)
    : result client_error DbRollbackBackup :=
  match backups with
  | [] => Err (CMsg ("No backups available for '" +:+ binary_name +:+ "'"))
  | newest :: _ =>
      match to_version with
      | Some version =>
          ok_or (CMsg ("No backup found for version '" +:+ version +:+ "'"))
            (List.find (fun b => bool_decide (r_version_string b = version)) backups)
      | None => Ok newest
      end
  end.

(** Integrity and authenticity of the backup. *)
Definition verify_backup (binary : DbManagedBinary) (binary_name : string) (backup : DbRollbackBackup) : csys unit :=
  let backup_path := r_backup_path backup in
  present ←! fs_test (exists_ backup_path);
  if negb present then sfail (CMsg ("Backup file not found: " +:+ backup_path +:+ ". The backup may have been deleted."))
  else
    expected_hash ←! sized 32 "Invalid backup hash stored in database" (r_backup_hash_blake3 backup);
    actual_hash ←! hashed (hash_file backup_path);
    if negb (hash_ct_eq expected_hash actual_hash) then
      sfail (CMsg ("Backup file corrupted: checksum mismatch for version " +:+ r_version_string backup))
    else
      verify_backup_signature valid_key verify_signature backup_path (m_publisher_public_key binary) binary_name
        (r_version_string backup).

Definition current_version (binary : DbManagedBinary) : string := default "(unknown)" (m_current_version_string binary).

Definition pre_rollback_path (config : ClientConfig) (binary : DbManagedBinary) (binary_name : string) : string :=
  join (backups_dir config)
    (binary_name +:+ "_" +:+ sanitize_version (current_version binary) +:+ "_pre_rollback.backup").

(** The backup of the current binary, to undo the rollback with. *)
Definition pre_rollback_backup (config : ClientConfig) (binary : DbManagedBinary) (binary_name : string) : csys unit :=
  let install_path := m_install_path binary in
  present ←! fs_test (exists_ install_path);
  if (present : bool) then
    fs_call (create_dir_all (backups_dir config)) ;;!
    let path := pre_rollback_path config binary binary_name in
    fs_call (copy install_path path) ;;!
    signed ←! fs_test (exists_ (sig_path_for install_path));
    (if (signed : bool) then
       io_context "Failed to copy signature sidecar" (copy (sig_path_for install_path) (sig_path_for path))
     else sret tt) ;;!
    match m_current_version_id binary, m_current_version_string binary with
    | Some version_id, Some version_string =>
        backup_hash ←! hashed (hash_file path);
        backup_size ←! fs_call (file_len path);
        expires_at ←! at_tick (h_expiry h);
        now ←! at_tick (h_now h);
        unwinding (create_backup now (m_binary_id binary) version_id version_string path backup_hash
                     (as_i64 backup_size) (Some expires_at)) ;;!
        sret tt
    | _, _ => sret tt
    end
  else sret tt.

(** The swap through a temporary file. *)
Definition restore_temp (backup_path install_path temp_path : string) : csys unit :=
  fs_call (copy backup_path temp_path) ;;!
  chmod temp_path ;;!
  in_context "Install path validation failed immediately before rollback write" (validate_install_path h install_path).

Definition restore_backup (backup_path install_path : string) : csys unit :=
  parent_dir ←! of_result (ok_or (CMsg "Install path has no parent directory") (parent_path install_path));
  temp_path ←! in_context "Failed to create temp file for restore" (new_temp h parent_dir);
  scoped_temp temp_path (restore_temp backup_path install_path temp_path) ;;!
  persist temp_path install_path "Failed to atomically restore binary" true.

Definition restore_sidecar (backup_path install_path : string) : csys unit :=
  signed ←! fs_test (exists_ (sig_path_for backup_path));
  if (signed : bool) then
    io_context "Failed to restore signature sidecar" (copy (sig_path_for backup_path) (sig_path_for install_path))
  else sret tt.

Definition perform_rollback (config : ClientConfig) (binary_name : string) (to_version : option string) : csys unit :=
  binary ←! find_binary binary_name;
  backups ←! db_call (list_backups (m_binary_id binary));
  target_backup ←! of_result (choose_backup binary_name backups to_version);
  verify_backup binary binary_name target_backup ;;!
  let install_path := m_install_path binary in
  in_context "Install path validation failed" (validate_install_path h install_path) ;;!
  pre_rollback_backup config binary binary_name ;;!
  restore_backup (r_backup_path target_backup) install_path ;;!
  restore_sidecar (r_backup_path target_backup) install_path ;;!
  db_now h (fun now => update_current_version now (m_binary_id binary) (r_version_id target_backup)
                         (r_version_string target_backup)) ;;!
  db_now h (fun now => record_rollback now (m_binary_id binary) (m_current_version_id binary)
                         (m_current_version_string binary) (r_version_id target_backup)
                         (r_version_string target_backup)) ;;!
  log_audit_event (Rollback binary_name (current_version binary) (r_version_string target_backup)).
End Rollback.

(** ** What a rollback restores *)

(** The binary is [n] in the directory [d], the random names of temporary files
    are not its name, the backup is outside that directory and is not the file the
    current binary is backed up to. *)
Record rollback_layout (h : host) (config : ClientConfig) (binary : DbManagedBinary) (name d n b : string) : Prop := {
  rl_install : m_install_path binary = join d n;
  rl_plain : plain n;
  rl_temp t : plain (h_temp h t) /\ h_temp h t <> n;
  rl_name : "/"%char ∉ chars name;
  rl_outside : ~ resolve d `prefix_of` resolve b;
  rl_below : ~ resolve d `prefix_of` resolve (backups_dir config);
  rl_other : resolve b <> resolve (pre_rollback_path config binary name) /\
             resolve b <> resolve (sig_path_for (pre_rollback_path config binary name));
}.

Section Layout.
Context (h : host) (config : ClientConfig) (binary : DbManagedBinary) (name d n b : string).
Context (L : rollback_layout h config binary name d n b).

Lemma rollback_install : resolve (m_install_path binary) = resolve d ++ [n].
Proof. rewrite (rl_install _ _ _ _ _ _ _ L). apply resolve_join_plain, L. Qed.

Lemma rollback_temp q t : resolve q = resolve d ->
  resolve (join q (h_temp h t)) = resolve d ++ [h_temp h t] /\
  resolve (join q (h_temp h t)) <> resolve (m_install_path binary) /\ resolve (join q (h_temp h t)) <> resolve b.
Proof.
  intros Hq. destruct (rl_temp _ _ _ _ _ _ _ L t) as [Hp Hn]. rewrite resolve_join_plain, Hq by done.
  split; [done|]. rewrite rollback_install. split.
  - by intros [_ E]%app_inj_tail.
  - intros E. apply (rl_outside _ _ _ _ _ _ _ L). rewrite <- E. by exists [h_temp h t].
Qed.

Lemma sanitize_no_slash v : "/"%char ∉ chars (sanitize_version v).
Proof.
  unfold sanitize_version. rewrite chars_of_chars. intros Hin. apply list_elem_of_fmap in Hin as (c & E & _).
  case_bool_decide as Hc; [done|]. subst c. apply Hc. vm_compute. set_solver.
Qed.

Lemma pre_rollback_resolved : exists x, resolve (pre_rollback_path config binary name) = resolve (backups_dir config) ++ [x] /\
  resolve (sig_path_for (pre_rollback_path config binary name)) = resolve (backups_dir config) ++ [x +:+ ".sig"].
Proof.
  unfold pre_rollback_path. pose proof (rl_name _ _ _ _ _ _ _ L) as Hn. pose proof (sanitize_no_slash (current_version binary)) as Hv.
  set (v := sanitize_version (current_version binary)) in *.
  assert (plain (name +:+ "_" +:+ v +:+ "_pre_rollback.backup")) as Hp.
  { assert (name +:+ "_" +:+ v +:+ "_pre_rollback.backup" = (name +:+ "_" +:+ v) +:+ "_pre_rollback.backup") as ->.
    { apply (inj chars). rewrite !chars_app. by rewrite <- !app_assoc. }
    assert ("_"%char ∈ chars (name +:+ "_" +:+ v)) as Hin.
    { rewrite !chars_app. change (chars "_") with ["_"%char]. set_solver. }
    apply plain_suffix; [|done|set_solver].
    split_and!; [intros E; rewrite E in Hin; set_solver..|].
    rewrite !chars_app. change (chars "_") with ["_"%char]. set_solver. }
  eexists. rewrite resolve_join_plain by done. split; [done|]. unfold sig_path_for.
  rewrite join_suffix; [|apply Hp|set_solver]. apply resolve_join_plain, plain_suffix; [done|done|set_solver].
Qed.

Lemma pre_rollback_free x : resolve (backups_dir config) ++ [x] <> resolve (m_install_path binary).
Proof. rewrite rollback_install. intros [E _]%app_inj_tail. apply (rl_below _ _ _ _ _ _ _ L). by rewrite E. Qed.
End Layout.

Section Facts.
Context {SV : Semver} {SL : SemverLaws SV} {SO : SqlOrder} {ET : ErrorTexts} {H : Type} {SH : StreamHasher H bytes} (h : host).
Context (blake3 : bytes -> bytes) {HL : HasherLaw SH blake3}.
Context (valid_key : bytes -> bool) (verify_signature : bytes -> bytes -> bytes -> bool).
Context (config : ClientConfig) (binary : DbManagedBinary) (name d n b : string).
Context (L : rollback_layout h config binary name d n b).

Abbreviation I := (resolve (m_install_path binary)).
Abbreviation B := (resolve b).

(** The current binary and the chosen backup survive the backup of the former. *)
Lemma pre_rollback_keeps :
  sys_respects (keep [I]) (pre_rollback_backup h config binary name) /\
  sys_respects (keep_some [B]) (pre_rollback_backup h config binary name).
Proof.
  destruct (pre_rollback_resolved h config binary name d n b L) as (x & Hx & Hxs).
  destruct (rl_other _ _ _ _ _ _ _ L) as [Ho Hos]. unfold pre_rollback_backup, unwinding. split.
  - assert (free (keep [I]) (resolve (pre_rollback_path config binary name))).
    { apply free_keep. rewrite Hx. intros E%list_elem_of_singleton. by apply (pre_rollback_free h config binary name d n b L x). }
    assert (free (keep [I]) (resolve (sig_path_for (pre_rollback_path config binary name)))).
    { apply free_keep. rewrite Hxs. intros E%list_elem_of_singleton. by apply (pre_rollback_free h config binary name d n b L (x +:+ ".sig")). }
    assert (may_create (keep [I]) (resolve (backups_dir config))).
    { apply may_create_keep. rewrite (rollback_install h config binary name d n b L).
      repeat constructor. intros E%snoc_prefix. by apply (rl_below _ _ _ _ _ _ _ L). }
    patcher_respects.
  - assert (free (keep_some [B]) (resolve (pre_rollback_path config binary name))) by (apply free_keep_some; set_solver).
    assert (free (keep_some [B]) (resolve (sig_path_for (pre_rollback_path config binary name)))) by (apply free_keep_some; set_solver).
    pose proof (may_create_keep_some [B] (resolve (backups_dir config))). patcher_respects.
Qed.

Lemma verify_backup_Ok target s u s1 :
  r_backup_path target = b -> verify_backup valid_key verify_signature binary name target s = (Ok u, s1) ->
  files (sy_fs s1) = files (sy_fs s) /\
  exists c signature, fs_read (files (sy_fs s)) B = Ok c /\ r_backup_hash_blake3 target = blake3 c /\
    signed_for blake3 valid_key verify_signature (m_publisher_public_key binary) (r_version_string target) c signature.
Proof.
  intros Hb. assert (sys_respects untouched (verify_backup valid_key verify_signature binary name target)) as Hu.
  { unfold verify_backup, verify_backup_signature, load_key. patcher_respects. }
  intros E. split; [by eapply step_untouched|].
  unfold verify_backup in E. rewrite Hb in E. apply sbind_Ok in E as (present & s2 & E2 & E).
  assert (files (sy_fs s2) = files (sy_fs s)) as Hf2 by (eapply step_untouched, E2; patcher_respects).
  destruct present; [|done]. cbn [negb] in E. apply sbind_Ok in E as (? & ? & (-> & Hl & ->)%sized_Ok & E).
  apply sbind_Ok in E as (x & s3 & E3 & E).
  assert (files (sy_fs s3) = files (sy_fs s)) as Hf3 by (rewrite <- Hf2; eapply step_untouched, E3; patcher_respects).
  eapply (hashed_Ok blake3) in E3 as (c & Hc & ->). rewrite Hf2 in Hc.
  unfold hash_ct_eq in E. case_bool_decide as Hh; [|done]. cbn [negb] in E.
  unfold verify_backup_signature in E. apply sbind_Ok in E as (p2 & s4 & E4 & E).
  assert (files (sy_fs s4) = files (sy_fs s)) as Hf4 by (rewrite <- Hf3; eapply step_untouched, E4; patcher_respects).
  destruct p2; [|by apply sbind_Ok in E as (? & ? & _ & E)]. cbn [negb] in E.
  apply sbind_Ok in E as (sig & s5 & E5 & E).
  assert (files (sy_fs s5) = files (sy_fs s)) as Hf5 by (rewrite <- Hf4; eapply step_untouched, E5; patcher_respects).
  apply sbind_Ok in E as (? & ? & (-> & Hls & ->)%sized_Ok & E).
  apply sbind_Ok in E as (? & ? & (-> & Hlk & ->)%sized_Ok & E).
  apply sbind_Ok in E as (? & ? & (-> & Hv & ->)%in_context_Ok%load_key_Ok & E).
  apply sbind_Ok in E as (x & s6 & E6%in_context_Ok & E). eapply (hashed_Ok blake3) in E6 as (c' & Hc' & ->).
  rewrite Hf5, Hc in Hc'. injection Hc' as <-. exists c, sig. split; [done|]. split; [done|].
  unfold verify in E. destruct (verify_signature _ _ sig) eqn:Evs; [done|]. by apply sbind_Ok in E as (? & ? & _ & E).
Qed.

(** The backup is swapped in or the install path is as before. *)
Definition restore_outcome (c : bytes) (s : system client_tables)
    (x : result client_error unit * system client_tables) : Prop :=
  match x.1 with
  | Ok _ => files (sy_fs x.2) !! I = Some (File c)
  | Err _ => files (sy_fs x.2) !! I = files (sy_fs s) !! I
  end.

Lemma restore_backup_spec s c :
  fs_read (files (sy_fs s)) B = Ok c -> restore_outcome c s (restore_backup h b (m_install_path binary) s).
Proof.
  intros Hc. unfold restore_backup.
  destruct (parent_path_join d n (rl_plain _ _ _ _ _ _ _ L)) as (q & Hq & Hrq).
  rewrite (rl_install _ _ _ _ _ _ _ L), Hq, <- (rl_install _ _ _ _ _ _ _ L). rewrite (sbind_step _ _ s q s) by done.
  assert (forall t, resolve (join q (h_temp h t)) ∉ [I; B]) as Htemp.
  { intros t. destruct (rollback_temp h config binary name d n b L q t Hrq) as (_ & H1 & H2). set_solver. }
  pose proof (respects_in_context _ "Failed to create temp file for restore" _ (new_temp_keep h [I; B] q Htemp)) as Hnt.
  pose proof (fun p => keep_file _ _ s p Hnt) as H1. unfold sbind at 1.
  destruct (in_context _ (new_temp h q) s) as [[temp|e] s1] eqn:E1; cbn [snd] in H1; [|apply H1; set_solver].
  apply in_context_Ok, temp_value in E1 as [t ->]. set (temp := join q (h_temp h t)). pose proof (Htemp t) as Ht. fold temp in Ht.
  destruct (rollback_temp h config binary name d n b L q t Hrq) as [Et _]. fold temp in Et.
  assert (sys_respects (keep [I]) (scoped_temp temp (restore_temp h b (m_install_path binary) temp))) as Hk.
  { apply respects_scoped_temp; [apply _|apply free_keep; set_solver|].
    assert (free (keep [I]) (resolve temp)) by (apply free_keep; set_solver).
    pose proof (respects_validate h (keep [I])). unfold restore_temp. patcher_respects; done. }
  pose proof (fun p => keep_file _ _ s1 p Hk) as H2'. unfold sbind.
  destruct (scoped_temp temp _ s1) as [[u|e] s2] eqn:E2; cbn [snd] in H2'.
  2: { unfold restore_outcome. cbn. rewrite H2' by set_solver. apply H1. set_solver. }
  apply scoped_temp_Ok in E2. unfold restore_temp in E2. apply sbind_Ok in E2 as (v & s3 & E3 & E2).
  assert (files (sy_fs s2) = files (sy_fs s3)) as Hf23.
  { eapply step_untouched, E2. pose proof (respects_validate h untouched). patcher_respects; done. }
  assert (source_content (OnDisk b) (files (sy_fs s1)) = Some c) as Hsc.
  { rewrite (source_content_eq (OnDisk b) (files (sy_fs s))); [cbn; by rewrite Hc|]. intros p Hp. apply H1. set_solver. }
  apply (write_to_Ok (OnDisk b) temp s1 v s3 c) in E3; [|done].
  pose proof (persist_cases temp (m_install_path binary) "Failed to atomically restore binary" true s2 []) as Hp.
  destruct (persist temp _ _ true s2) as [r s4]. destruct Hp as [_ Hp]; [set_solver|set_solver|rewrite Et; by destruct (resolve d)|].
  unfold restore_outcome. cbn. destruct r as [w|e]; rewrite Hp.
  - by rewrite Hf23, E3, lookup_insert_eq.
  - rewrite H2' by set_solver. apply H1. set_solver.
Qed.

Lemma sidecar_elsewhere : resolve (sig_path_for (m_install_path binary)) ∉ [I].
Proof.
  unfold sig_path_for. rewrite (rollback_install h config binary name d n b L), (rl_install _ _ _ _ _ _ _ L).
  pose proof (rl_plain _ _ _ _ _ _ _ L) as Hp.
  rewrite join_suffix, resolve_join_plain; [|apply plain_suffix; [done|done|set_solver]|apply Hp|set_solver].
  intros E%list_elem_of_singleton. apply app_inj_tail in E as [_ E]. apply (f_equal (length ∘ chars)) in E.
  cbn in E. rewrite chars_app, length_app in E. cbn in E. lia.
Qed.

(** The install path holds the chosen backup, which has the recorded hash and
    which the publisher signed as the recorded version. *)
Definition backup_installed (target : DbRollbackBackup) (f : fs) : Prop :=
  exists data signature, r_backup_hash_blake3 target = blake3 data /\
    signed_for blake3 valid_key verify_signature (m_publisher_public_key binary) (r_version_string target) data signature /\
    f !! I = Some (File data).

Definition is_current (t : client_tables) (b v s : string) : Prop :=
  exists m, m ∈ ct_managed t /\ m_binary_id m = b /\ m_current_version_id m = Some v /\ m_current_version_string m = Some s.

Definition rollback_outcome (target : DbRollbackBackup) (s : system client_tables)
    (x : result client_error unit * system client_tables) : Prop :=
  match x.1 with
  | Ok _ => backup_installed target (files (sy_fs x.2)) /\
      (tx (sy_db s) = None ->
       is_current (disk (sy_db x.2)) (m_binary_id binary) (r_version_id target) (r_version_string target))
  | Err _ => files (sy_fs x.2) !! I = files (sy_fs s) !! I \/ backup_installed target (files (sy_fs x.2))
  end.

Lemma rollback_finish target s u s1 :
  tx (sy_db s) = None ->
  (sbind (db_now h (fun now => update_current_version now (m_binary_id binary) (r_version_id target) (r_version_string target)))
     (fun _ => sbind (db_now h (fun now => record_rollback now (m_binary_id binary) (m_current_version_id binary)
        (m_current_version_string binary) (r_version_id target) (r_version_string target)))
     (fun _ => log_audit_event (Rollback name (current_version binary) (r_version_string target))))) s = (Ok u, s1) ->
  is_current (disk (sy_db s1)) (m_binary_id binary) (r_version_id target) (r_version_string target).
Proof.
  intros Ht (v & s2 & (now & c & E2 & ->)%db_now_Ok & E)%sbind_Ok.
  eapply effect_Ok in E2; [|apply update_current_effect|done]. destruct E2 as (Ht2 & Hb & _ & Hd).
  apply sbind_Ok in E as (w & s3 & (now3 & c3 & E3 & ->)%db_now_Ok & E). injection E as _ <-. cbn in E3 |- *.
  apply (effect_Ok _ _ _ _ _ _ (effect_q _ _ _ (effect_exec _)) Ht2) in E3 as [_ E3]. apply on_Ok in E3.
  unfold insert_history in E3. apply result_bind_Ok in E3 as (id & _ & E3). apply result_bind_Ok in E3 as (_ & _ & [= <- Hd3]).
  rewrite <- Hd3, Hd. apply list_elem_of_fmap in Hb as (m & Hm & Hin).
  exists (set_current now (r_version_id target) (r_version_string target) m). split; [|done]. cbn.
  apply elem_of_update_rows. exists m. split; [done|]. unfold has_binary_id. by rewrite bool_decide_eq_true_2.
Qed.

(** The part of [perform_rollback] after the choice of the backup. *)
Definition rollback_chosen (target : DbRollbackBackup) : sys client_tables client_error unit :=
  (verify_backup valid_key verify_signature binary name target ;;!
   in_context "Install path validation failed" (validate_install_path h (m_install_path binary)) ;;!
   pre_rollback_backup h config binary name ;;!
   restore_backup h (r_backup_path target) (m_install_path binary) ;;!
   restore_sidecar (r_backup_path target) (m_install_path binary) ;;!
   db_now h (fun now => update_current_version now (m_binary_id binary) (r_version_id target) (r_version_string target)) ;;!
   db_now h (fun now => record_rollback now (m_binary_id binary) (m_current_version_id binary)
                          (m_current_version_string binary) (r_version_id target) (r_version_string target)) ;;!
   log_audit_event (Rollback name (current_version binary) (r_version_string target)))%sys.

Definition no_tx (c : conn client_tables) : Prop := tx c = None.

Lemma pre_rollback_no_tx : db_respects no_tx (pre_rollback_backup h config binary name).
Proof.
  assert (forall now v s p x k e, db_respects no_tx (unwinding (create_backup now (m_binary_id binary) v s p x k e))) as Hu.
  { intros now v s p x k e. destruct (create_backup now _ v s p x k e) as [m|] eqn:E; cbn; [|auto with keeps].
    apply (keeps_call no_tx). intros c Hc. by destruct (create_backup_effect _ _ _ _ _ _ _ _ _ E c Hc). }
  unfold pre_rollback_backup. patcher_keeps; apply Hu.
Qed.

(** Everything after the swap leaves the restored binary alone. *)
Lemma finish_spares target :
  sys_respects (keep [I])
    (restore_sidecar b (m_install_path binary) ;;!
     db_now h (fun now => update_current_version now (m_binary_id binary) (r_version_id target) (r_version_string target)) ;;!
     db_now h (fun now => record_rollback now (m_binary_id binary) (m_current_version_id binary)
                            (m_current_version_string binary) (r_version_id target) (r_version_string target)) ;;!
     log_audit_event (Rollback name (current_version binary) (r_version_string target)))%sys.
Proof.
  pose proof (free_keep _ _ sidecar_elsewhere). unfold restore_sidecar, db_now. patcher_respects.
Qed.

Lemma rollback_from_swap target s0 s c signature :
  files (sy_fs s) !! I = files (sy_fs s0) !! I -> fs_read (files (sy_fs s)) B = Ok c ->
  (tx (sy_db s0) = None -> tx (sy_db s) = None) -> r_backup_hash_blake3 target = blake3 c ->
  signed_for blake3 valid_key verify_signature (m_publisher_public_key binary) (r_version_string target) c signature ->
  rollback_outcome target s0
    ((restore_backup h b (m_install_path binary) ;;!
      restore_sidecar b (m_install_path binary) ;;!
      db_now h (fun now => update_current_version now (m_binary_id binary) (r_version_id target) (r_version_string target)) ;;!
      db_now h (fun now => record_rollback now (m_binary_id binary) (m_current_version_id binary)
                             (m_current_version_string binary) (r_version_id target) (r_version_string target)) ;;!
      log_audit_event (Rollback name (current_version binary) (r_version_string target)))%sys s).
Proof.
  intros HI Hc Htx Hh Hsig. pose proof (restore_backup_spec s c Hc) as Hr. unfold sbind at 1.
  assert (forall Q, db_respects Q (restore_backup h b (m_install_path binary))) as Hdb.
  { intros Q. pose proof (keeps_validate h (fun s => Q (sy_db s))). unfold restore_backup, restore_temp. patcher_keeps; done. }
  destruct (restore_backup h b (m_install_path binary) s) as [[u|e] s1] eqn:E1; unfold restore_outcome in Hr; cbn in Hr.
  2: { left. cbn. congruence. }
  apply same_db in E1; [|done].
  match goal with |- rollback_outcome _ _ (?m s1) => pose proof (keep_file [I] m s1 I (finish_spares target) ltac:(set_solver)) as Hk;
    destruct (m s1) as [r s2] eqn:E2 end.
  assert (backup_installed target (files (sy_fs s2))) as Hin.
  { exists c, signature. split_and!; [done|done|]. cbn in Hk. congruence. }
  destruct r as [v|e]; [|by right]. split; [done|]. cbn. intros Ht0.
  apply sbind_Ok in E2 as (w & s3 & E3 & E2). eapply same_db in E3; [|intros Q; unfold restore_sidecar; patcher_keeps].
  eapply rollback_finish, E2. rewrite E3, E1. auto.
Qed.

Lemma rollback_chosen_outcome target s :
  r_backup_path target = b -> rollback_outcome target s (rollback_chosen target s).
Proof.
  intros Hb. unfold rollback_chosen.
  destruct (verify_backup valid_key verify_signature binary name target s) as [[u|e] s1] eqn:E1.
  2: { unfold sbind at 1. rewrite E1. left. cbn. f_equal. eapply step_untouched, E1.
       unfold verify_backup, verify_backup_signature, load_key. patcher_respects. }
  rewrite (sbind_step _ _ _ _ _ E1), Hb.
  assert (sy_db s1 = sy_db s) as Hdb1.
  { eapply same_db, E1. intros Q. unfold verify_backup, verify_backup_signature, load_key. patcher_keeps. }
  apply verify_backup_Ok in E1 as (Hf1 & c & sig & Hc & Hh & Hsig); [|done].
  pose proof (respects_in_context _ "Install path validation failed" _ (respects_validate h untouched (m_install_path binary))) as Hv.
  destruct (in_context "Install path validation failed" (validate_install_path h (m_install_path binary)) s1) as [[u2|e] s2] eqn:E2.
  2: { unfold sbind at 1. rewrite E2. left. cbn. by rewrite (step_untouched _ _ _ _ Hv E2), Hf1. }
  rewrite (sbind_step _ _ _ _ _ E2). pose proof (step_untouched _ _ _ _ Hv E2) as Hf2.
  eapply same_db in E2; [|intros Q; apply keeps_in_context, keeps_validate; apply _].
  destruct pre_rollback_keeps as [HkI HkB]. pose proof (keep_file [I] _ s2 I HkI ltac:(set_solver)) as HI3.
  pose proof (kept_some [B] _ s2 B (File c) HkB ltac:(set_solver)) as HB3.
  pose proof (pre_rollback_no_tx s2) as Htx.
  destruct (pre_rollback_backup h config binary name s2) as [[u3|e] s3] eqn:E3; cbn in HI3, HB3.
  2: { unfold sbind at 1. rewrite E3. left. cbn. by rewrite HI3, Hf2, Hf1. }
  rewrite (sbind_step _ _ _ _ _ E3). apply (rollback_from_swap target s s3 c sig); [by rewrite HI3, Hf2, Hf1| | |done|done].
  - assert (node_at (files (sy_fs s)) B = Some (File c)) as Hn by (unfold fs_read in Hc; by repeat case_match; simplify_eq).
    unfold fs_read, node_at in *. case_bool_decide; [done|]. rewrite HB3; [done|]. by rewrite Hf2, Hf1.
  - intros Ht. apply Htx. by rewrite E2, Hdb1.
Qed.

(** C12: A rollback installs only authentic backups: whatever fails on the way, the
    install path afterwards holds what it held before, or the chosen backup with
    the hash the database recorded and a valid signature of the publisher for the
    recorded version.  After a success it is the backup, and the database names
    its version as the current one.  The layout of paths excludes that the chosen
    backup is the file to which the current binary is backed up first, as one that
    an earlier rollback made of the current version is, see [rollback_overwrites_its_target]. *)
Theorem rollback_verified target backups to c1 c2 s :
  get_binary_by_name name (sy_db s) = (Ok (Some binary), c1) ->
  list_backups (m_binary_id binary) c1 = (Ok backups, c2) ->
  choose_backup name backups to = Ok target -> r_backup_path target = b -> tx c2 = None ->
  rollback_outcome target (with_db c2 s) (perform_rollback h valid_key verify_signature config name to s).
Proof.
  intros H1 H2 H3 Hb Ht. unfold perform_rollback, find_binary.
  rewrite (sbind_step _ _ s binary (with_db c1 s)).
  2: { rewrite (sbind_step _ _ s (Some binary) (with_db c1 s)); [done|]. unfold db_call, of_db. by rewrite H1. }
  rewrite (sbind_step _ _ (with_db c1 s) backups (with_db c2 s)) by (unfold db_call, of_db; cbn; by rewrite H2).
  rewrite (sbind_step _ _ _ target (with_db c2 s)) by (by rewrite H3).
  by apply rollback_chosen_outcome.
Qed.
End Facts.
