(* ===== verification/Daemon.v ===== *)
(** * Daemon: the update loop ([deltaship-client/src/daemon.rs])

    One cycle checks every managed binary and applies what is newer; the loop
    around it counts failed cycles and backs off.  File locks of other processes
    are part of the environment: taking one may fail. *)

From S2P Require Import Prelude Text Diff Version Core Validation RateLimit Fs Crypto DbModels Sql ClientDb System.
From S2P Require Import ClientConfig Downloader Checker InstallPath Patcher.

#[local] Open Scope Z_scope.

Definition PID_LOCK_FILE : string := "deltaship-daemon.pid".
Definition UPDATE_LOCK_FILE : string := "deltaship-update.lock".
Definition MAX_CONSECUTIVE_FAILURES : Z := 5.
Definition MAX_BACKOFF_MULTIPLIER : Z := 16.
Definition CIRCUIT_BREAKER_FAILURES_KEY : string := "daemon_consecutive_failures".
Definition CIRCUIT_BREAKER_TIMESTAMP_KEY : string := "daemon_failures_timestamp".
Definition CIRCUIT_BREAKER_EXPIRATION_SECS : Z := 24 * 60 * 60.

(** [str::parse::<i64>]. *)
Definition parse_i64 (s : string) : option Z :=
  match chars s with
  | "-"%char :: c :: l => option_map Z.opp (digits_value (2 ^ 63) 0 (c :: l))
  | _ => parse_unsigned i64_max s
  end.

(** [a - b] on i64. *)
Definition sub_i64 (m : profile) (a b : Z) : outcome Z :=
  let z := a - b in
  if (i64_min <=? z) && (z <=? i64_max) then Val z
  else match m with
       | Debug => Panic
       | Release => Val (as_i64 (z mod 2 ^ 64))
       end.

(** ** Locks *)

Section Locks.
Context {T : Type} (h : host).
#[local] Open Scope sys_scope.

(** [try_lock_exclusive] fails while another process has the lock. *)
Definition try_lock_exclusive (path : string) : sys T client_error unit :=
  fs_call lock_file ;;!
  held ←! at_tick (fun t => h_lock h t path);
  match held with
  | LockFree => sret tt
  | LockHeld _ => sfail (CIo (IoOther "would block"))
  end.

(** [lock_exclusive] waits until the other process releases it. *)
Definition lock_exclusive (path : string) : sys T client_error unit :=
  fs_call lock_file ;;!
  held ←! at_tick (fun t => h_lock h t path);
  match held with
  | LockFree | LockHeld true => sret tt
  | LockHeld false => sfail CBlocked
  end.

Definition acquire_daemon_lock (config : ClientConfig) : sys T client_error unit :=
  let pid_path := join (data_dir config) PID_LOCK_FILE in
  fs_call (create_dir_all (data_dir config)) ;;!
  fs_call (open_create pid_path) ;;!
  locked ←! attempt (try_lock_exclusive pid_path);
  match locked with
  | Ok _ =>
      fs_call (write pid_path []) ;;!                                   (* set_len(0) *)
      fs_call (append pid_path (as_bytes (pretty (h_pid h)))) ;;!
      fs_call flush                                                     (* sync_all *)
  | Err _ =>
      existing_pid ←! attempt (fs_call (read_to_string pid_path));
      let pid_info := trim (match existing_pid with Ok p => p | Err _ => "" end) in
      sfail (CMsg ("Another Deltaship daemon instance is already running (PID: " +:+
                   (if str_is_empty pid_info then "unknown" else pid_info) +:+
                   "). If you believe this is an error, remove the lock file at: " +:+ pid_path))
  end.

Definition open_update_lock (config : ClientConfig) : sys T client_error unit :=
  fs_call (create_dir_all (data_dir config)) ;;!
  fs_call (open_create (join (data_dir config) UPDATE_LOCK_FILE)).

Definition acquire_update_lock (config : ClientConfig) : sys T client_error unit :=
  open_update_lock config ;;! lock_exclusive (join (data_dir config) UPDATE_LOCK_FILE).

Definition try_acquire_update_lock (config : ClientConfig) : sys T client_error bool :=
  open_update_lock config ;;!
  locked ←! attempt (try_lock_exclusive (join (data_dir config) UPDATE_LOCK_FILE));
  sret (match locked with Ok _ => true | Err _ => false end).
End Locks.

Section Daemon.
Context {SV : Semver} {SO : SqlOrder} {ET : ErrorTexts}.
Context {H : Type} {SH : StreamHasher H bytes}.
Context (m : profile) (h : host).
Context (net : nat -> http_request -> result reqwest_error http_response).
Context (url_parse : string -> option url_parts) (status_text : Z -> string).
Context (decode_response : bytes -> result reqwest_error ServerUpdateResponse) (decode_text : bytes -> string).
Context (blake3 : bytes -> bytes) (valid_key : bytes -> bool) (verify_signature : bytes -> bytes -> bytes -> bool).
Context (blake3_from_hex : string -> option bytes).
Context (zstd_decoder_new : bytes -> result string (bytes * option string)).
Context {H2 : Type} {SH2 : StreamHasher H2 bytes}.

#[local] Open Scope sys_scope.
Abbreviation csys := (sys client_tables client_error).
Abbreviation apply_ := (apply_update (SH := SH) (SH2 := SH2) h net url_parse status_text blake3 valid_key verify_signature
  blake3_from_hex zstd_decoder_new).
Abbreviation check := (check_for_updates (T := client_tables) net url_parse status_text decode_response decode_text).

(** ** One cycle *)

(** Downgrade protection: the target must be newer than the version installed. *)
Definition allowed (binary : DbManagedBinary) (update : UpdateInfo) : csys bool :=
  match m_current_version_string binary with
  | None => sret true
  | Some current_str =>
      match version_from_str current_str with
      | Ok current =>
          if version_gtb (ui_version update) current then sret true
          else
            log_audit_event (UpdateCheckFailed (m_binary_name binary)
              ("downgrade refused: target " +:+ version_to_string (ui_version update) +:+ " <= installed " +:+
               version_to_string current)) ;;!
            sret false
      | Err _ => sret false
      end
  end.

(** The body of the loop over the binaries: no error leaves it.  (The one panic an
    update could end in, on a malformed expiry, needs an expiry, and it sets none.) *)
Definition update_binary (config : ClientConfig) (binary : DbManagedBinary) : csys unit :=
  if negb (m_auto_update binary) then sret tt
  else
    attempt (db_now h (fun now => set_last_check now (m_binary_id binary))) ;;!
    checked ←! attempt (check config binary);
    match checked with
    | Ok (Some update) =>
        ok ←! allowed binary update;
        if (ok : bool) then attempt (apply_ config binary update) ;;! sret tt else sret tt
    | Ok None => sret tt
    | Err e => log_audit_event (UpdateCheckFailed (m_binary_name binary) (error_to_string e))
    end.

Fixpoint update_all (config : ClientConfig) (binaries : list DbManagedBinary) : csys unit :=
  match binaries with
  | [] => sret tt
  | binary :: binaries => update_binary config binary ;;! update_all config binaries
  end.

Definition check_and_apply_updates (config : ClientConfig) : csys unit :=
  binaries ←! db_call list_binaries;
  update_all config binaries.

(** [run_check_once]. *)
Definition run_check_once (config : ClientConfig) : csys unit :=
  acquire_update_lock h config ;;! check_and_apply_updates config.

(** ** The circuit breaker *)

(** The failures persisted before a restart; they expire after a day. *)
Definition load_failures : csys Z :=
  stored ←! attempt (db_call (get_config CIRCUIT_BREAKER_FAILURES_KEY));
  match stored with
  | Ok (Some value) =>
      let failures := default 0 (parse_u32 value) in
      if 0 <? failures then
        timestamp_str ←! attempt (db_call (get_config CIRCUIT_BREAKER_TIMESTAMP_KEY));
        match timestamp_str with
        | Ok (Some timestamp_str) =>
            match parse_i64 timestamp_str with
            | Some timestamp =>
                current_time ←! at_tick (h_unix_time h);
                match sub_i64 m current_time timestamp with
                | Panic => sfail CPanic
                | Val age_secs =>
                    if CIRCUIT_BREAKER_EXPIRATION_SECS <? age_secs then
                      attempt (db_now h (fun now => set_config now CIRCUIT_BREAKER_FAILURES_KEY "0")) ;;!
                      attempt (db_now h (fun now => set_config now CIRCUIT_BREAKER_TIMESTAMP_KEY "0")) ;;!
                      sret 0
                    else sret failures
                end
            | None => sret 0
            end
        | _ => sret 0
        end
      else sret failures
  | _ => sret 0
  end.

(** The counter after a cycle, persisted as far as the database lets it. *)
Definition save_failures (failed : bool) (consecutive_failures : Z) : csys Z :=
  if failed then
    let failures := Z.min (consecutive_failures + 1) u32_max in
    current_time ←! at_tick (h_unix_time h);
    attempt (db_now h (fun now => set_config now CIRCUIT_BREAKER_FAILURES_KEY (pretty failures))) ;;!
    attempt (db_now h (fun now => set_config now CIRCUIT_BREAKER_TIMESTAMP_KEY (pretty current_time))) ;;!
    sret failures
  else
    (if 0 <? consecutive_failures then
       attempt (db_now h (fun now => set_config now CIRCUIT_BREAKER_FAILURES_KEY "0")) ;;!
       attempt (db_now h (fun now => set_config now CIRCUIT_BREAKER_TIMESTAMP_KEY "0")) ;;!
       sret tt
     else sret tt) ;;!
    sret 0.

(** [2u32.saturating_pow(failures - 1)], capped. *)
Definition backoff_multiplier (consecutive_failures : Z) : Z :=
  if consecutive_failures =? 0 then 1
  else Z.min (Z.min (2 ^ (consecutive_failures - 1)) u32_max) MAX_BACKOFF_MULTIPLIER.

(** [base_interval * multiplier] panics when the seconds overflow. *)
Definition sleep_interval (config : ClientConfig) (failures : Z) : csys unit :=
  let secs := check_interval_secs config * backoff_multiplier failures in
  if u64_max <? secs then sfail CPanic else sleep (secs * 1000).

(** One turn of the loop: whether the cycle failed, the cleanup of expired
    backups, the counter, the pause. *)
Definition cycle_failed (config : ClientConfig) : csys bool :=
  locked ←! attempt (acquire_update_lock h config);
  match locked with
  | Err _ => sret true
  | Ok _ =>
      r ←! attempt (check_and_apply_updates config);
      sret (match r with Ok _ => false | Err _ => true end)
  end.

Definition daemon_turn (config : ClientConfig) (consecutive_failures : Z) : csys Z :=
  failed ←! cycle_failed config;
  attempt (db_now h (fun now => delete_expired_backups now)) ;;!
  failures ←! save_failures failed consecutive_failures;
  sleep_interval config failures ;;!
  sret failures.

(** The first [turns] turns of the loop, which has no end of its own. *)
Fixpoint daemon_loop (turns : nat) (config : ClientConfig) (failures : Z) : csys Z :=
  match turns with
  | O => sret failures
  | S turns => failures ←! daemon_turn config failures; daemon_loop turns config failures
  end.

(** [run_daemon] for some turns; the PID file is removed when an error ends it. *)
Definition run_daemon (turns : nat) (config : ClientConfig) : csys Z :=
  acquire_daemon_lock h config ;;!
  scoped_temp (join (data_dir config) PID_LOCK_FILE)
    (failures ←! load_failures; daemon_loop turns config failures).
End Daemon.
