(* ===== verification/DaemonFacts.v ===== *)
(** * DaemonFacts: what the update loop guarantees

    It never moves a binary to an older version, whatever the server answers; it
    never stops and pauses between one and sixteen intervals; and a cycle that
    counts as a success has asked the server about every binary. *)

From S2P Require Import Prelude Text Diff Version Core Validation RateLimit Fs Crypto DbModels Sql ClientDb ClientDbFacts System.
From S2P Require Import ClientConfig Downloader Checker InstallPath Patcher PatcherFacts UpdateFacts Daemon.

#[local] Open Scope Z_scope.

Section Facts.
Context {SV : Semver} {SL : SemverLaws SV} {SO : SqlOrder} {SOL : SqlOrderLaws SO} {ET : ErrorTexts}.
Context {H : Type} {SH : StreamHasher H bytes} {H2 : Type} {SH2 : StreamHasher H2 bytes}.
Context (m : profile) (h : host).
Context (net : nat -> http_request -> result reqwest_error http_response).
Context (url_parse : string -> option url_parts) (status_text : Z -> string).
Context (decode_response : bytes -> result reqwest_error ServerUpdateResponse) (decode_text : bytes -> string).
Context (blake3 : bytes -> bytes) (valid_key : bytes -> bool) (verify_signature : bytes -> bytes -> bytes -> bool).
Context (blake3_from_hex : string -> option bytes).
Context (zstd_decoder_new : bytes -> result string (bytes * option string)).

Abbreviation apply_ := (apply_update (SH := SH) (SH2 := SH2) h net url_parse status_text blake3 valid_key verify_signature
  blake3_from_hex zstd_decoder_new).
Abbreviation check := (check_for_updates (T := client_tables) net url_parse status_text decode_response decode_text).
Abbreviation update_one := (update_binary (SH := SH) (SH2 := SH2) h net url_parse status_text decode_response decode_text
  blake3 valid_key verify_signature blake3_from_hex zstd_decoder_new).
Abbreviation updates := (update_all (SH := SH) (SH2 := SH2) h net url_parse status_text decode_response decode_text
  blake3 valid_key verify_signature blake3_from_hex zstd_decoder_new).
Abbreviation cycle := (check_and_apply_updates (SH := SH) (SH2 := SH2) h net url_parse status_text decode_response decode_text
  blake3 valid_key verify_signature blake3_from_hex zstd_decoder_new).
Abbreviation failed_cycle := (cycle_failed (SH := SH) (SH2 := SH2) h net url_parse status_text decode_response decode_text
  blake3 valid_key verify_signature blake3_from_hex zstd_decoder_new).
Abbreviation turn := (daemon_turn (SH := SH) (SH2 := SH2) h net url_parse status_text decode_response decode_text
  blake3 valid_key verify_signature blake3_from_hex zstd_decoder_new).
Abbreviation loop := (daemon_loop (SH := SH) (SH2 := SH2) h net url_parse status_text decode_response decode_text
  blake3 valid_key verify_signature blake3_from_hex zstd_decoder_new).

(** ** Versions of the managed binaries *)

Abbreviation cur := m_current_version_string.

(** [u] is newer than the version of [b], if [b] has one. *)
Definition newer (b : DbManagedBinary) (u : Version) : Prop :=
  match cur b with
  | None => True
  | Some c => exists a, version_from_str c = Ok a /\ version_cmp u a = Gt
  end.

(** The row of a binary before and after updates of some binaries [bs]. *)
Definition moved (bs : list DbManagedBinary) (r r' : DbManagedBinary) : Prop :=
  m_binary_id r' = m_binary_id r /\
  (cur r' = cur r \/
   exists b u, b ∈ bs /\ m_binary_id r = m_binary_id b /\ cur r' = Some (version_to_string u) /\ newer b u).

Definition all_moved (bs : list DbManagedBinary) (t t' : client_tables) : Prop :=
  Forall2 (moved bs) (ct_managed t) (ct_managed t').

Lemma moved_refl bs r : moved bs r r.
Proof. split; [done|by left]. Qed.

Lemma all_moved_same bs t t1 t2 : ct_managed t2 = ct_managed t1 -> all_moved bs t t1 -> all_moved bs t t2.
Proof. unfold all_moved. by intros ->. Qed.

Lemma all_moved_refl bs t : all_moved bs t t.
Proof. unfold all_moved. induction (ct_managed t) as [|r l IH]; constructor; [apply moved_refl|done]. Qed.

Lemma all_moved_rows bs t t1 p g :
  (forall r r1, moved bs r r1 -> p r1 = true -> moved bs r (g r1)) -> all_moved bs t t1 ->
  Forall2 (moved bs) (ct_managed t) (update_rows p g (ct_managed t1)).
Proof.
  intros Hg Ht. unfold update_rows. apply Forall2_fmap_r. eapply Forall2_impl; [exact Ht|].
  intros r r1 Hr. cbn. destruct (p r1) eqn:E; eauto.
Qed.

(** The statements of an update to a newer version move only its own row. *)
Lemma moved_update_ops t binary update :
  newer binary (ui_version update) -> update_ops (all_moved [binary] t) binary update.
Proof.
  intros Hn. split; [intros now|intros now id ok e ms|intros now x y z|intros now|intros now v s p x z e op Hop].
  - apply preserves_exec. intros t1 id t2 Ht H1%on_Ok. revert H1. unfold insert_history. rewrite result_bind_Ok.
    intros (i & _ & H1). apply result_bind_Ok in H1 as (? & _ & [= _ <-]). by eapply all_moved_same.
  - apply preserves_bind; [|apply preserves_found]. apply preserves_exec. intros t1 k t2 Ht H1%on_Ok.
    injection H1 as _ <-. by eapply all_moved_same.
  - do 3 (apply preserves_check; intros ? _). case_match; [apply preserves_fail|].
    apply preserves_exec. intros t1 k t2 Ht H1%on_Ok. revert H1. unfold insert_installed. rewrite result_bind_Ok.
    intros (i & _ & H1). apply result_bind_Ok in H1 as (? & _ & H1). apply result_bind_Ok in H1 as (? & _ & [= _ <-]).
    by eapply all_moved_same.
  - eapply preserves_same; [apply update_current_effect|]. intros t1 [] t2 (_ & _ & ->) Ht.
    apply all_moved_rows; [|done]. intros r r1 [Hi _] Hb%bool_decide_eq_true. split; [done|]. right.
    exists binary, (ui_version update). split_and!; [by left|congruence|done|done].
  - revert Hop. unfold create_backup. case_match; [|done]. intros [= <-].
    do 2 (apply preserves_check; intros ? _). apply preserves_exec. intros t1 k t2 Ht H1%on_Ok. revert H1.
    unfold insert_backup. rewrite result_bind_Ok. intros (i & _ & H1). apply result_bind_Ok in H1 as (? & _ & [= _ <-]).
    by eapply all_moved_same.
Qed.

Lemma keeps_check P `{F : Framed client_tables P} config binary : keeps P (check config binary).
Proof.
  assert (forall remaining n url errs,
    keeps P (check_loop net url_parse status_text decode_response decode_text remaining n config binary url errs)) as Hl.
  { induction remaining as [|k IH]; intros n url errs; cbn [check_loop]; [auto with keeps|].
    unfold check_for_updates_attempt. keeps_tac. }
  unfold check_for_updates. keeps_tac.
Qed.

Lemma allowed_newer binary update s s1 : allowed binary update s = (Ok true, s1) -> newer binary (ui_version update).
Proof.
  unfold allowed, newer. destruct (cur binary) as [c|]; [|done]. destruct (version_from_str c) as [a|]; [|done].
  unfold version_gtb. case_bool_decide; [eauto|]. by intros (? & ? & _ & ?)%sbind_Ok.
Qed.

Lemma keeps_allowed P `{F : Framed client_tables P} binary update : keeps P (allowed binary update).
Proof. unfold allowed. keeps_tac. Qed.

Lemma set_last_check_moved bs t now b : keeps_inv (all_moved bs t) (set_last_check now b).
Proof.
  apply preserves_bind; [|apply preserves_found]. apply preserves_exec. intros t1 k t2 Ht H1%on_Ok.
  injection H1 as _ <-. by apply all_moved_rows.
Qed.

(** What one binary's turn keeps. *)
Lemma keeps_update_one (I : client_tables -> Prop) config binary :
  (forall now, keeps_inv I (set_last_check now (m_binary_id binary))) ->
  (forall update, newer binary (ui_version update) -> update_ops I binary update) ->
  db_respects (settled I) (update_one config binary).
Proof.
  intros Hc Hu. unfold update_binary. case_match; [auto with keeps|].
  apply keeps_bind; [apply keeps_attempt, keeps_now; intros now c; by apply settled_keeps|]. intros _.
  apply keeps_bind; [apply keeps_attempt, keeps_check; apply _|]. intros [[update|]|e]; [|auto with keeps..].
  apply keeps_bind_val; [apply keeps_allowed; apply _|]. intros s1 [] s2 Hok; [|auto with keeps].
  apply keeps_bind; [|auto with keeps]. apply keeps_attempt, keeps_apply, settled_ops, Hu; [apply _|]. by eapply allowed_newer.
Qed.

Lemma update_one_moved config binary s :
  tx (sy_db s) = None -> settled (all_moved [binary] (disk (sy_db s))) (sy_db (update_one config binary s).2).
Proof.
  intros Ht. apply keeps_update_one.
  - intros now. apply set_last_check_moved.
  - intros update. apply moved_update_ops.
  - split; [done|apply all_moved_refl].
Qed.

Lemma update_one_Ok config binary s : exists s1, update_one config binary s = (Ok tt, s1).
Proof.
  unfold update_binary. case_match; [by eexists|].
  rewrite (sbind_step _ _ _ _ _ (attempt_steady _ _ (steady_now _ _))).
  rewrite (sbind_step _ _ _ _ _ (attempt_steady _ _ (steady_check _ _ _ _ _ _ _))).
  destruct (check config binary _).1 as [[update|]|e]; [|by eexists..].
  generalize (check config binary (db_now h (fun now => set_last_check now (m_binary_id binary)) s).2).2. intros s2.
  assert (exists ok s3, allowed binary update s2 = (Ok ok, s3)) as (ok & s3 & E).
  { unfold allowed. repeat case_match; by do 2 eexists. }
  rewrite (sbind_step _ _ _ _ _ E). destruct ok; [|by eexists].
  rewrite (sbind_step _ _ _ _ _ (attempt_steady _ _ (steady_apply _ _ _ _ _ _ _ _ _ _ _ _))). by eexists.
Qed.

Lemma update_all_cons config b bs s :
  updates config (b :: bs) s = updates config bs (update_one config b s).2.
Proof. cbn [update_all]. destruct (update_one_Ok config b s) as [s1 E]. by rewrite (sbind_step _ _ _ _ _ E), E. Qed.

Lemma update_all_Ok config bs s : exists s1, updates config bs s = (Ok tt, s1).
Proof. revert s; induction bs as [|b bs IH]; intros s; [by eexists|]. rewrite update_all_cons. apply IH. Qed.

(** Each binary moves at most once, from the version its row had at the start. *)
Lemma moved_trans b bs r r1 r2 :
  m_binary_id b ∉ m_binary_id <$> bs -> moved [b] r r1 -> moved bs r1 r2 -> moved (b :: bs) r r2.
Proof.
  intros Hb [Hi H1] [Hi2 H3]. split; [congruence|]. destruct H1 as [H1|(b1 & u & ->%list_elem_of_singleton & Hr & Hc & Hu)].
  - destruct H3 as [H3|(b2 & u & Hin & Hr & Hc & Hu)]; [left; congruence|right].
    exists b2, u. split_and!; [by right|congruence|done|done].
  - destruct H3 as [H3|(b2 & u2 & Hin & Hr2 & _)]; [right|].
    + exists b, u. split_and!; [by left|done|congruence|done].
    + destruct Hb. rewrite <- Hr, <- Hi, Hr2. by apply list_elem_of_fmap_2.
Qed.

Lemma update_all_moved config bs s :
  NoDup (m_binary_id <$> bs) -> tx (sy_db s) = None ->
  settled (all_moved bs (disk (sy_db s))) (sy_db (updates config bs s).2).
Proof.
  revert s; induction bs as [|b bs IH]; intros s Hd Ht; [split; [done|apply all_moved_refl]|].
  rewrite fmap_cons in Hd. apply NoDup_cons in Hd as [Hb Hd].
  rewrite update_all_cons. destruct (update_one_moved config b s Ht) as [Ht1 H1].
  destruct (IH (update_one config b s).2 Hd Ht1) as [Ht2 H3]. split; [done|].
  unfold all_moved in *. eapply Forall2_trans; [|exact H1|exact H3].
  intros r r1 r2. by apply moved_trans.
Qed.

(** ** A cycle *)

(** The version of a row did not go backwards: it is the same, or was written by
    an update to a version newer than it. *)
Definition not_older (r r' : DbManagedBinary) : Prop :=
  m_binary_id r' = m_binary_id r /\
  (cur r' = cur r \/ exists u, cur r' = Some (version_to_string u) /\ newer r u).

Lemma list_binaries_effect : effect list_binaries
  (fun t bs t' => bs = order_by Asc m_binary_name (ct_managed t) /\ t' = t) same.
Proof.
  eapply effect_weaken; [apply effect_q, effect_query|..].
  - intros t bs t' [H1%on_Ok ->]. by injection H1 as <-.
  - by intros t e t' (? & _ & ->).
Qed.

Lemma cycle_lists config s :
  tx (sy_db s) = None ->
  let bs := order_by Asc m_binary_name (ct_managed (disk (sy_db s))) in
  exists s1, disk (sy_db s1) = disk (sy_db s) /\ tx (sy_db s1) = None /\ sy_sent s1 = sy_sent s /\
  ((exists e, cycle config s = (Err e, s1)) \/ cycle config s = updates config bs s1).
Proof.
  intros Ht. unfold check_and_apply_updates, sbind, db_call, of_db.
  destruct (list_binaries_effect (sy_db s) Ht) as [H1 H3].
  destruct (list_binaries (sy_db s)) as [[bs|e] c]; cbn in *; eexists (with_db c s); cbn.
  - destruct H3 as [-> ->]. by eauto.
  - rewrite H3. by eauto 10.
Qed.

Lemma moved_not_older bs t t' :
  NoDup (m_binary_id <$> ct_managed t) -> (forall b, b ∈ bs -> b ∈ ct_managed t) -> all_moved bs t t' ->
  Forall2 not_older (ct_managed t) (ct_managed t').
Proof.
  intros Hnd Hbs. assert (forall r, r ∈ ct_managed t -> forall b, b ∈ bs -> m_binary_id r = m_binary_id b -> r = b) as Hu.
  { intros r Hr b Hb Heq. by eapply (NoDup_key_eq m_binary_id); [..|apply Hbs|]. }
  unfold all_moved. revert Hu. clear Hnd Hbs. generalize (ct_managed t') as l'. generalize (ct_managed t) as l. intros l l' Hu Hm.
  induction Hm as [|r r' l l' [Hid Hr] Hm IH]; constructor; [|apply IH; intros x Hx; apply Hu; by right].
  split; [done|]. destruct Hr as [Hr|(b & u & Hb & Hi & Hc & Hn)]; [by left|right]. exists u. split; [done|].
  by rewrite (Hu r ltac:(by left) b Hb Hi).
Qed.

Lemma not_older_refl l : Forall2 not_older l l.
Proof. induction l as [|r l IH]; constructor; [split; [done|by left]|done]. Qed.

Lemma cycle_not_older config s :
  consistent (sy_db s) ->
  Forall2 not_older (ct_managed (disk (sy_db s))) (ct_managed (disk (sy_db (cycle config s).2))).
Proof.
  intros [Ht Hi]. destruct (cycle_lists config s Ht) as (s1 & Hd & Ht1 & _ & [[e ->]| ->]).
  { cbn [snd]. rewrite Hd. apply not_older_refl. }
  set (bs := order_by _ _ _).
  pose proof (order_by_perm Asc m_binary_name (ct_managed (disk (sy_db s)))) as Hp. fold bs in Hp.
  destruct (update_all_moved config bs s1) as [_ Hm]; [|done|].
  { rewrite (fmap_Permutation m_binary_id _ _ Hp). apply Hi. }
  rewrite Hd in Hm. eapply moved_not_older; [apply Hi| |exact Hm]. intros b. by rewrite Hp.
Qed.

Lemma keeps_cycle (I : client_tables -> Prop) config :
  (forall now b, keeps_inv I (set_last_check now b)) ->
  (forall binary update, update_ops I binary update) -> db_respects (settled I) (cycle config).
Proof.
  intros Hc Hu. apply keeps_bind; [apply keeps_call; intros c; apply settled_keeps, preserves_query|]. intros bs.
  induction bs as [|b bs IH]; cbn [update_all]; [auto with keeps|].
  apply keeps_bind; [|done]. apply keeps_update_one; auto.
Qed.

Lemma cycle_consistent config : db_respects consistent (cycle config).
Proof.
  apply keeps_cycle; [|apply inv_update_ops]. intros now b. apply (run_op_preserves (OpSetLastCheck now b)).
Qed.

(** The statements of a turn outside the cycle. *)
Definition same_managed (t t' : client_tables) : Prop := ct_managed t' = ct_managed t.

Lemma set_config_managed t now k v : keeps_inv (same_managed t) (set_config now k v).
Proof. apply preserves_exec. intros t1 [] t2 Ht H1%on_Ok. by injection H1 as <-. Qed.

Lemma expired_managed t now : keeps_inv (same_managed t) (delete_expired_backups now).
Proof. apply preserves_exec. intros t1 k t2 Ht H1%on_Ok. by injection H1 as _ <-. Qed.

(** [I] holds after every turn when the cycles, the cleanup and the counters keep it. *)
Lemma keeps_turn (Q : conn client_tables -> Prop) config failures :
  db_respects Q (cycle config) ->
  (forall now c, Q c -> Q (delete_expired_backups now c).2) ->
  (forall now k v c, Q c -> Q (set_config now k v c).2) ->
  db_respects Q (turn config failures).
Proof.
  intros Hcy He Hs. unfold daemon_turn, cycle_failed, acquire_update_lock, open_update_lock, lock_exclusive, save_failures, sleep_interval,
    fs_call. keeps_tac; try (apply keeps_now; auto).
Qed.

(** ** Versions only go up *)

Definition upward (t0 : client_tables) (c : conn client_tables) : Prop :=
  consistent c /\ Forall2 (rtc not_older) (ct_managed t0) (ct_managed (disk c)).

Lemma upward_managed {A} t0 (op : db client_tables DbError A) c :
  keeps_inv client_inv op -> (forall t, keeps_inv (same_managed t) op) -> upward t0 c -> upward t0 (op c).2.
Proof.
  intros Hc Hm [[Ht Hi] Hu]. split; [by apply settled_keeps|].
  destruct (settled_keeps (same_managed (disk c)) op c (Hm _)) as [_ ->]; [|done]. by split.
Qed.

Lemma upward_cycle t0 config : db_respects (upward t0) (cycle config).
Proof.
  intros s [Hc Hu]. split; [by apply cycle_consistent|].
  eapply Forall2_trans; [|exact Hu|by apply cycle_not_older]. intros x y z. apply rtc_r.
Qed.

Lemma upward_turn t0 config failures : db_respects (upward t0) (turn config failures).
Proof.
  apply keeps_turn; [apply upward_cycle|..].
  - intros now c. apply upward_managed; [|intros t; apply expired_managed].
    apply keeps_forget, (run_op_preserves (OpDeleteExpired now)).
  - intros now k v c. apply upward_managed; [|intros t; apply set_config_managed].
    apply (run_op_preserves (OpSetConfig now k v)).
Qed.

Lemma upward_loop t0 turns config failures : db_respects (upward t0) (loop turns config failures).
Proof.
  pose proof (upward_turn t0). revert failures; induction turns as [|n IH]; intros failures; cbn [daemon_loop]; keeps_tac.
Qed.

(** C8: The daemon never downgrades: however often it runs, whatever the server
    answers and whatever fails, the version the database records for a binary
    changes only in steps from a version to a newer one (or from none at all), no
    binary appears or disappears, and the database stays consistent. *)
Theorem daemon_never_downgrades turns config failures s :
  consistent (sy_db s) ->
  consistent (sy_db (loop turns config failures s).2) /\
  Forall2 (rtc not_older) (ct_managed (disk (sy_db s))) (ct_managed (disk (sy_db (loop turns config failures s).2))).
Proof.
  intros Hc. apply (upward_loop (disk (sy_db s))). split; [done|].
  induction (ct_managed (disk (sy_db s))); constructor; [apply rtc_refl|done].
Qed.

(** ** The loop goes on *)

Lemma check_sends config binary s : asked (sy_sent s) (check_url config binary) (sy_sent (check config binary s).2).
Proof.
  destruct (check_loop_facts (T := client_tables) net url_parse status_text decode_response decode_text 3 0 config binary
    (check_url config binary) [] s) as (_ & _ & _ & _ & k & Hk & Hr & _).
  assert (asked (sy_sent s) (check_url config binary) (replicate k (check_url config binary) ++ sy_sent s)) as Ha.
  { exists (replicate k (check_url config binary)). split; [done|]. destruct k; [lia|left]. }
  unfold check_for_updates, sbind. change (Z.to_nat MAX_RETRIES) with 3%nat. rewrite <- Hr in Ha.
  by destruct (check_loop _ _ _ _ _ 3 0 config binary _ [] s) as [[[u|errs]|e] s1].
Qed.

Lemma db_now_sent {A} (op : string -> db client_tables DbError A) s : sy_sent (db_now h op s).2 = sy_sent s.
Proof. unfold db_now, db_call, of_db, sbind. cbn. by destruct (op _ (sy_db s)) as [[a|e] c]. Qed.

Section Sent.
Context (Q : list string -> Prop) {G : Growing Q}.
Abbreviation P := (fun s : system client_tables => Q (sy_sent s)).

Lemma keeps_now_sent {A} (op : string -> db client_tables DbError A) : keeps P (db_now h op).
Proof. intros s. by rewrite db_now_sent. Qed.

Lemma keeps_apply_sent config binary update : keeps P (apply_ config binary update).
Proof using G.
  apply keeps_apply; [apply _|]. split; intros; try apply keeps_now_sent.
  destruct (create_backup _ _ _ _ _ _ _ _) as [op|]; intros s0; [|done].
  cbn. unfold db_call, of_db. by destruct (op (sy_db s0)) as [[a|er] c].
Qed.

(** What the rest of the loop body does after the check. *)
Lemma keeps_outcome config b (r : result client_error (option UpdateInfo)) :
  keeps P (match r with
           | Ok (Some update) => sbind (allowed b update) (fun ok : bool =>
               if ok then sbind (attempt (apply_ config b update)) (fun _ => sret tt) else sret tt)
           | Ok None => sret tt
           | Err e => log_audit_event (UpdateCheckFailed (m_binary_name b) (error_to_string e))
           end).
Proof using G.
  destruct r as [[update|]|e]; [|auto with keeps..]. apply keeps_bind; [apply keeps_allowed, _|].
  intros []; [|auto with keeps]. apply keeps_bind; [|auto with keeps]. apply keeps_attempt, keeps_apply_sent.
Qed.

Lemma keeps_one_sent config b : keeps P (update_one config b).
Proof using G.
  unfold update_binary. case_match; [auto with keeps|].
  apply keeps_bind; [apply keeps_attempt, keeps_now_sent|]. intros _.
  apply keeps_bind; [apply keeps_attempt, keeps_check, _|]. intros r. apply keeps_outcome.
Qed.

Lemma keeps_all_sent config bs : keeps P (updates config bs).
Proof using G.
  induction bs as [|b bs IH]; cbn [update_all]; [auto with keeps|]. apply keeps_bind; [apply keeps_one_sent|done].
Qed.
End Sent.

Lemma update_one_asks config b s :
  m_auto_update b = true -> asked (sy_sent s) (check_url config b) (sy_sent (update_one config b s).2).
Proof.
  intros Hb. unfold update_binary. rewrite Hb. cbn [negb].
  rewrite (sbind_step _ _ _ _ _ (attempt_steady _ _ (steady_now _ _))).
  rewrite (sbind_step _ _ _ _ _ (attempt_steady _ _ (steady_check _ _ _ _ _ _ _))).
  apply (keeps_outcome (asked (sy_sent s) (check_url config b))).
  rewrite <- (db_now_sent (fun now => set_last_check now (m_binary_id b)) s). apply check_sends.
Qed.

(** The server was asked about a binary. *)
Definition asked_about (config : ClientConfig) (b : DbManagedBinary) (s s' : system client_tables) : Prop :=
  asked (sy_sent s) (check_url config b) (sy_sent s').

Lemma update_all_asks config bs s b :
  b ∈ bs -> m_auto_update b = true -> asked_about config b s (updates config bs s).2.
Proof.
  revert s; induction bs as [|b1 bs IH]; intros s; [by intros ?%not_elem_of_nil|]. intros [->|Hin]%elem_of_cons Hb;
    rewrite update_all_cons.
  - apply (keeps_all_sent (asked (sy_sent s) (check_url config b1))). by apply update_one_asks.
  - eapply asked_before; [|by apply IH]. by apply (keeps_one_sent (suffix (sy_sent s))).
Qed.

(** A cycle of the daemon fails exactly when the list of binaries cannot be
    read: failed checks and failed updates are logged and never reach the circuit
    breaker.  A cycle that succeeds has asked the server about every binary with
    automatic updates. *)
Theorem cycle_outcome config s :
  (forall e, (cycle config s).1 = Err e <-> (db_call list_binaries s).1 = Err e) /\
  (forall bs, (db_call list_binaries s).1 = Ok bs ->
     (cycle config s).1 = Ok tt /\
     forall b, b ∈ bs -> m_auto_update b = true -> asked_about config b s (cycle config s).2).
Proof.
  unfold check_and_apply_updates, sbind.
  assert (sy_sent (db_call list_binaries s).2 = sy_sent s) as Hr.
  { unfold db_call, of_db. by destruct (list_binaries (sy_db s)) as [[bs|e] c]. }
  destruct (db_call list_binaries s) as [[bs|e] s1]; cbn [fst snd] in *; [|split; [intros e'; split; by intros [= ->]|by intros ? [=]]].
  pose proof (update_all_asks config bs s1) as H1.
  destruct (update_all_Ok config bs s1) as [s2 E]. unfold asked_about in *. rewrite E, Hr in *. cbn [fst snd] in *.
  split; [done|]. intros ? [= <-]. by split.
Qed.

Lemma backoff_bounds failures :
  0 <= failures -> 1 <= backoff_multiplier failures <= MAX_BACKOFF_MULTIPLIER /\ (failures = 0 -> backoff_multiplier failures = 1).
Proof.
  intros Hf. unfold backoff_multiplier, MAX_BACKOFF_MULTIPLIER, u32_max. destruct (Z.eqb_spec failures 0); [lia|].
  pose proof (Z.pow_pos_nonneg 2 (failures - 1)). lia.
Qed.

Lemma save_failures_Ok failed failures s :
  exists s1, save_failures h failed failures s = (Ok (if failed then Z.min (failures + 1) u32_max else 0), s1) /\
    sy_sent s1 = sy_sent s.
Proof.
  assert (forall A (op : string -> db client_tables DbError A) s,
    exists r s1, attempt (db_now h op) s = (Ok r, s1) /\ sy_sent s1 = sy_sent s) as Ha.
  { intros A op s0. rewrite attempt_steady by apply steady_now. do 2 eexists. split; [reflexivity|apply db_now_sent]. }
  unfold save_failures. destruct failed.
  - rewrite (sbind_step (at_tick (h_unix_time h)) _ s _ s eq_refl).
    edestruct Ha as (r1 & s1 & E1 & H1). rewrite (sbind_step _ _ _ _ _ E1).
    edestruct Ha as (r3 & s3 & E3 & H3). rewrite (sbind_step _ _ _ _ _ E3). eexists. split; [reflexivity|congruence].
  - destruct (0 <? failures); [|by eexists].
    edestruct Ha as (r1 & s1 & E1 & H1). edestruct Ha as (r3 & s3 & E3 & H3). eexists.
    unfold sbind at 1. rewrite (sbind_step _ _ _ _ _ E1), (sbind_step _ _ _ _ _ E3). split; [reflexivity|congruence].
Qed.

(** Whoever else takes the update lock gives it back. *)
Definition lock_released : Prop := forall t path, h_lock h t path <> LockHeld false.

Lemma steady_lock config : lock_released -> steady (acquire_update_lock (T := client_tables) h config).
Proof.
  intros Hl. apply steady_bind; [unfold open_update_lock; steady_tac|]. intros _.
  apply steady_bind; [auto with steady|]. intros _ s e s' [E|(l & s1 & E1 & E)]%sbind_Err; [done|]. injection E1 as E1 <-.
  specialize (Hl (tick (sy_fs s)) (join (data_dir config) UPDATE_LOCK_FILE)). by destruct l as [|[]].
Qed.

Lemma keeps_lock P `{F : Framed client_tables P} config : keeps P (acquire_update_lock h config).
Proof. unfold acquire_update_lock, open_update_lock, lock_exclusive, fs_call. keeps_tac. Qed.

(** When the lock is released the cycle returns; when it counts as a success
    every binary was asked for. *)
Lemma failed_cycle_Ok config s :
  lock_released -> consistent (sy_db s) ->
  exists failed s1, failed_cycle config s = (Ok failed, s1) /\
    (failed = false ->
     forall b, b ∈ ct_managed (disk (sy_db s)) -> m_auto_update b = true -> asked_about config b s s1).
Proof.
  intros Hl [Ht _]. unfold cycle_failed.
  rewrite (sbind_step _ _ _ _ _ (attempt_steady _ _ (steady_lock config Hl))).
  pose proof (keeps_lock (fun s1 => suffix (sy_sent s) (sy_sent s1)) config s (reflexivity _)) as Hr.
  pose proof (fun r s1 => same_db (acquire_update_lock h config) s r s1 (fun Q => keeps_lock _ config)) as Hsame.
  destruct (acquire_update_lock h config s) as [[u|e] s1]; [|by eexists true, _]. cbn [fst snd] in *.
  specialize (Hsame _ _ eq_refl).
  destruct (cycle_lists config s1) as (s2 & _ & _ & Hr2 & Hc); [by rewrite Hsame|].
  set (bs := order_by _ _ _) in Hc. destruct (update_all_Ok config bs s2) as [s3 E].
  assert (steady (cycle config)) as Hst.
  { apply steady_bind; [apply steady_call|]. intros l s4 e s5 E5. destruct (update_all_Ok config l s4). congruence. }
  rewrite (sbind_step _ _ _ _ _ (attempt_steady _ _ Hst)). eexists _, _. split; [reflexivity|].
  destruct Hc as [[e ->]| ->]; [done|]. intros _ b Hb Ha. eapply asked_before; [|apply (update_all_asks config bs); [|done]].
  - by rewrite Hr2.
  - unfold bs. rewrite order_by_perm, Hsame. done.
Qed.

Lemma turn_Ok config failures s :
  lock_released -> 0 <= check_interval_secs config -> check_interval_secs config * MAX_BACKOFF_MULTIPLIER <= u64_max ->
  0 <= failures -> consistent (sy_db s) ->
  exists failures' s' ms, turn config failures s = (Ok failures', s') /\ head (sy_slept s') = Some ms /\
    check_interval_secs config * 1000 <= ms <= check_interval_secs config * 1000 * MAX_BACKOFF_MULTIPLIER /\
    ((failures' = Z.min (failures + 1) u32_max) \/
     (failures' = 0 /\ ms = check_interval_secs config * 1000 /\
      forall b, b ∈ ct_managed (disk (sy_db s)) -> m_auto_update b = true -> asked_about config b s s')).
Proof.
  intros Hl Hi Hmax Hf Hc. destruct (failed_cycle_Ok config s Hl Hc) as (failed & s1 & E1 & Hr1).
  unfold daemon_turn. rewrite (sbind_step _ _ _ _ _ E1).
  rewrite (sbind_step _ _ _ _ _ (attempt_steady _ _ (steady_now _ _))).
  pose proof (db_now_sent delete_expired_backups s1) as Hr2.
  set (s2 := (db_now h _ s1).2) in *.
  destruct (save_failures_Ok failed failures s2) as (s3 & E3 & Hr3). rewrite (sbind_step _ _ _ _ _ E3).
  set (f := if failed then _ else 0) in *.
  assert (0 <= f) as Hf' by (unfold f, u32_max; destruct failed; lia).
  destruct (backoff_bounds f Hf') as [Hb Hb0]. unfold sleep_interval. cbn zeta.
  destruct (Z.ltb_spec u64_max (check_interval_secs config * backoff_multiplier f)) as [Ho|_]; [nia|].
  eexists f, _, _. split; [reflexivity|]. split; [reflexivity|]. split; [nia|].
  destruct failed; [by left|right]. split; [done|]. split; [rewrite Hb0 by done; lia|].
  intros b Hin Ha. specialize (Hr1 eq_refl b Hin Ha). unfold asked_about in *. cbn [sy_sent]. by rewrite Hr3, Hr2.
Qed.

(** C31: The daemon goes on for ever, whatever fails, as long as every other process
    that takes the update lock, for which it waits without limit, releases it:
    after any number of turns there is a next one, which ends with a pause of one
    to sixteen intervals; unless it raised the count of failures the count is
    zero, the pause is one interval and for every binary with automatic updates a
    request for its update check was sent in that turn. *)
Theorem daemon_keeps_checking turns config failures s :
  lock_released -> 0 <= check_interval_secs config -> check_interval_secs config * MAX_BACKOFF_MULTIPLIER <= u64_max ->
  0 <= failures -> consistent (sy_db s) ->
  exists f s', loop turns config failures s = (Ok f, s') /\
  exists f' s'' ms, turn config f s' = (Ok f', s'') /\ head (sy_slept s'') = Some ms /\
    check_interval_secs config * 1000 <= ms <= check_interval_secs config * 1000 * MAX_BACKOFF_MULTIPLIER /\
    ((f' = Z.min (f + 1) u32_max) \/
     (f' = 0 /\ ms = check_interval_secs config * 1000 /\
      forall b, b ∈ ct_managed (disk (sy_db s')) -> m_auto_update b = true -> asked_about config b s' s'')).
Proof.
  intros Hl Hi Hmax. revert failures s; induction turns as [|n IH]; intros failures s Hf Hc.
  - eexists _, _. split; [reflexivity|]. by apply turn_Ok.
  - cbn [daemon_loop]. destruct (turn_Ok config failures s Hl Hi Hmax Hf Hc) as (f1 & s1 & ms & E1 & _ & _ & Hf1).
    rewrite (sbind_step _ _ _ _ _ E1). apply IH; [unfold u32_max in *; lia|].
    pose proof (upward_turn (disk (sy_db s)) config failures s) as Hu. rewrite E1 in Hu. apply Hu.
    split; [done|]. induction (ct_managed (disk (sy_db s))); constructor; [apply rtc_refl|done].
Qed.

End Facts.
