(* ===== verification/UpdateCommand.v ===== *)
(** * UpdateCommand: updates on demand ([deltaship-client/src/commands/update.rs])

    Progress bars and what is printed are left out; the results are returned. *)

From S2P Require Import Prelude Text Diff Version Core Validation RateLimit Fs Crypto DbModels Sql ClientDb System.
From S2P Require Import ClientConfig Downloader Checker InstallPath Patcher.

#[local] Open Scope Z_scope.

Inductive UpdateResult := Updated | AlreadyCurrent | Skipped | UpdateFailed.

#[global] Instance UpdateResult_eq_dec : EqDecision UpdateResult.
Proof. solve_decision. Defined.

Record UpdateSummary := { us_updated : Z; us_already_current : Z; us_skipped : Z; us_failed : Z }.
Definition summary_new : UpdateSummary := {| us_updated := 0; us_already_current := 0; us_skipped := 0; us_failed := 0 |}.

Definition record (s : UpdateSummary) (result : UpdateResult) : UpdateSummary :=
  match result with
  | Updated => {| us_updated := us_updated s + 1; us_already_current := us_already_current s; us_skipped := us_skipped s; us_failed := us_failed s |}
  | AlreadyCurrent => {| us_updated := us_updated s; us_already_current := us_already_current s + 1; us_skipped := us_skipped s; us_failed := us_failed s |}
  | Skipped => {| us_updated := us_updated s; us_already_current := us_already_current s; us_skipped := us_skipped s + 1; us_failed := us_failed s |}
  | UpdateFailed => {| us_updated := us_updated s; us_already_current := us_already_current s; us_skipped := us_skipped s; us_failed := us_failed s + 1 |}
  end.

(** [print_summary]. *)
Definition summarize (results : list UpdateResult) : UpdateSummary := fold_left record results summary_new.

(** What to download: the address, the name of the file, its checksum and whether
    it is the whole binary. *)
Record download := { dl_url : string; dl_filename : string; dl_checksum : string; dl_is_full_binary : bool }.

Section Update.
Context {SV : Semver} {SO : SqlOrder} {ET : ErrorTexts}.
Context {H : Type} {SH : StreamHasher H bytes}.
Context (h : host).
Context (net : nat -> http_request -> result reqwest_error http_response).
Context (url_parse : string -> option url_parts) (status_text : Z -> string).
Context (decode_response : bytes -> result reqwest_error ServerUpdateResponse) (decode_text : bytes -> string).
Context (blake3 : bytes -> bytes) (valid_key : bytes -> bool) (verify_signature : bytes -> bytes -> bytes -> bool).
Context (blake3_from_hex : string -> option bytes).
Context (zstd_decoder_new : bytes -> result string (bytes * option string)).
Context {H2 : Type} {SH2 : StreamHasher H2 bytes}.

#[local] Open Scope sys_scope.
Abbreviation csys := (sys client_tables client_error).

(** ** Downloading only *)

(** A diff if there is one. *)
Definition choose_download (binary : DbManagedBinary) (update : UpdateInfo) : result client_error download :=
  let name := m_binary_name binary +:+ "_" +:+ version_to_string (ui_version update) in
  match ui_diff_url update, ui_full_binary_url update with
  | Some diff_url, _ =>
      checksum ← ok_or (CMsg "Security error: diff checksum is required but missing. Cannot download unverified diff files.")
                   (ui_diff_checksum update);
      Ok {| dl_url := diff_url; dl_filename := name +:+ ".diff"; dl_checksum := checksum; dl_is_full_binary := false |}
  | None, Some full_url =>
      Ok {| dl_url := full_url; dl_filename := name; dl_checksum := ui_checksum update; dl_is_full_binary := true |}
  | None, None => Err (CMsg "No download URL available for update")
  end.

Definition verify_downloaded_signature (sig_url : string) (binary : DbManagedBinary) (binary_hash : bytes) (version : string)
    : csys unit :=
  sig_bytes ←! download_bytes net url_parse status_text sig_url;
  signature ←! sized 64 ("invalid signature length: expected 64 bytes, got " +:+ pretty (lenZ sig_bytes)) sig_bytes;
  key_bytes ←! sized 32 "invalid publisher public key length" (m_publisher_public_key binary);
  verifying_key ←! load_key valid_key key_bytes;
  let payload := signing_payload binary_hash version in
  of_result (map_err (fun e => CMsg (crypto_text e)) (verify verify_signature verifying_key payload signature)).

(** An error after the download: the file is removed first. *)
Definition discard_and_fail {A} (dest_path text : string) : csys A :=
  attempt (fs_call (remove_file dest_path)) ;;! sfail (CMsg text).

Definition check_download (binary : DbManagedBinary) (update : UpdateInfo) (d : download) (dest_path : string) : csys unit :=
  match hash_from_hex (dl_checksum d) with
  | Err e => discard_and_fail dest_path ("Invalid checksum format from server: " +:+ crypto_text e)
  | Ok expected_hash =>
      hashed_file ←! attempt (hashed (hash_file (SH := SH) dest_path));
      match hashed_file with
      | Err e => discard_and_fail dest_path ("Failed to compute checksum of downloaded file: " +:+ error_to_string e)
      | Ok actual_hash =>
          if negb (hash_ct_eq expected_hash actual_hash) then
            discard_and_fail dest_path ("Checksum verification failed: expected " +:+ hash_to_hex expected_hash +:+ ", got " +:+
              hash_to_hex actual_hash +:+ ". Downloaded file has been deleted for security.")
          else
            match dl_is_full_binary d, ui_signature_url update with
            | true, Some sig_url =>
                verified ←! attempt (verify_downloaded_signature sig_url binary actual_hash (version_to_string (ui_version update)));
                match verified with
                | Ok _ => sret tt
                | Err e => discard_and_fail dest_path ("Signature verification failed: " +:+ error_to_string e +:+
                             ". Downloaded file has been deleted for security.")
                end
            | _, _ => sret tt
            end
      end
  end.

Definition download_update_only (config : ClientConfig) (binary : DbManagedBinary) (update : UpdateInfo) : csys string :=
  fs_call (create_dir_all (downloads_dir config)) ;;!
  d ←! of_result (choose_download binary update);
  let dest_path := join (downloads_dir config) (dl_filename d) in
  download_file net url_parse status_text (dl_url d) dest_path ;;!
  check_download binary update d dest_path ;;!
  sret dest_path.

(** ** One binary *)

(** Downgrade protection, unless the operator overrides it. *)
Definition may_install (binary : DbManagedBinary) (update : UpdateInfo) (allow_downgrade : bool) : bool :=
  match m_current_version_string binary with
  | None => true
  | Some current_str =>
      match version_from_str current_str with
      | Ok current => version_gtb (ui_version update) current || allow_downgrade
      | Err _ => allow_downgrade
      end
  end.

(** [--force] and [quiet] change only what is printed. *)
Definition process_binary_update (config : ClientConfig) (binary : DbManagedBinary) (force dry_run download_only quiet_
    allow_downgrade : bool) : csys UpdateResult :=
  attempt (db_now h (fun now => set_last_check now (m_binary_id binary))) ;;!
  checked ←! attempt (check_for_updates net url_parse status_text decode_response decode_text config binary);
  match checked with
  | Err _ => sret UpdateFailed
  | Ok None => sret AlreadyCurrent
  | Ok (Some update) =>
      if negb (may_install binary update allow_downgrade) then sret UpdateFailed
      else if dry_run then sret Skipped
      else if download_only then
        r ←! attempt (download_update_only config binary update);
        sret match r with Ok _ => Skipped | Err _ => UpdateFailed end
      else
        r ←! attempt (apply_update (SH := SH) (SH2 := SH2) h net url_parse status_text blake3 valid_key verify_signature
                        blake3_from_hex zstd_decoder_new config binary update);
        sret match r with Ok _ => Updated | Err _ => UpdateFailed end
  end.

Fixpoint process_binaries (config : ClientConfig) (binaries : list DbManagedBinary) (force dry_run download_only quiet_
    allow_downgrade : bool) (results : list UpdateResult) : csys (list UpdateResult) :=
  match binaries with
  | [] => sret results
  | binary :: binaries =>
      result ←! process_binary_update config binary force dry_run download_only quiet_ allow_downgrade;
      process_binaries config binaries force dry_run download_only quiet_ allow_downgrade (results ++ [result])
  end.

Definition perform_update (config : ClientConfig) (name : option string) (force dry_run download_only quiet_ allow_downgrade : bool)
    : csys (list UpdateResult) :=
  match name with
  | Some binary_name =>
      found ←! db_call (get_binary_by_name binary_name);
      match found with
      | Some binary => process_binaries config [binary] force dry_run download_only quiet_ allow_downgrade []
      | None => sret [UpdateFailed]
      end
  | None =>
      binaries ←! db_call list_binaries;
      process_binaries config binaries force dry_run download_only quiet_ allow_downgrade []
  end.

Definition update_run (config : ClientConfig) (name : option string) (force dry_run download_only quiet_ allow_downgrade : bool)
    : csys UpdateSummary :=
  results ←! perform_update config name force dry_run download_only quiet_ allow_downgrade;
  sret (summarize results).
End Update.
