(* ===== verification/UpdateCommandFacts.v ===== *)
(** * UpdateCommandFacts: updates on demand do no harm

    Without [--allow-downgrade] no binary moves to an older version; dry runs and
    downloads leave what is installed alone, and what a download reports has been
    verified. *)

From S2P Require Import Prelude Text Diff Version Core Validation RateLimit Fs Crypto DbModels Sql ClientDb ClientDbFacts System.
From S2P Require Import ClientConfig Downloader Checker InstallPath Patcher PatcherFacts UpdateFacts Daemon DaemonFacts UpdateCommand.

#[local] Open Scope Z_scope.

Section Facts.
Context {SV : Semver} {SL : SemverLaws SV} {SO : SqlOrder} {SOL : SqlOrderLaws SO} {ET : ErrorTexts}.
Context {H : Type} {SH : StreamHasher H bytes} {H2 : Type} {SH2 : StreamHasher H2 bytes}.
Context (h : host).
Context (net : nat -> http_request -> result reqwest_error http_response).
Context (url_parse : string -> option url_parts) (status_text : Z -> string).
Context (decode_response : bytes -> result reqwest_error ServerUpdateResponse) (decode_text : bytes -> string).
Context (blake3 : bytes -> bytes) (valid_key : bytes -> bool) (verify_signature : bytes -> bytes -> bytes -> bool).
Context (blake3_from_hex : string -> option bytes).
Context (zstd_decoder_new : bytes -> result string (bytes * option string)).
Context {HL : HasherLaw SH blake3}.

Abbreviation process := (process_binary_update (SH := SH) (SH2 := SH2) h net url_parse status_text decode_response decode_text
  blake3 valid_key verify_signature blake3_from_hex zstd_decoder_new).
Abbreviation process_all := (process_binaries (SH := SH) (SH2 := SH2) h net url_parse status_text decode_response decode_text
  blake3 valid_key verify_signature blake3_from_hex zstd_decoder_new).
Abbreviation perform := (perform_update (SH := SH) (SH2 := SH2) h net url_parse status_text decode_response decode_text
  blake3 valid_key verify_signature blake3_from_hex zstd_decoder_new).
Abbreviation fetch_only := (download_update_only (SH := SH) net url_parse status_text valid_key verify_signature).

(** ** Versions *)

Lemma may_install_newer binary update : may_install binary update false = true -> newer binary (ui_version update).
Proof.
  unfold may_install, newer. destruct (m_current_version_string binary) as [c|]; [|done].
  destruct (version_from_str c) as [a|]; [|done]. rewrite orb_false_r. intros Hg%bool_decide_eq_true. eauto.
Qed.

Lemma keeps_fetch_only P `{F : Framed client_tables P} config binary update : keeps P (fetch_only config binary update).
Proof.
  unfold download_update_only, check_download, verify_downloaded_signature, discard_and_fail, hashed, sized, load_key, fs_call.
  keeps_tac.
Qed.

(** What one binary's turn keeps. *)
Lemma keeps_process (I : client_tables -> Prop) config binary force dry only q :
  (forall now, keeps_inv I (set_last_check now (m_binary_id binary))) ->
  (forall update, newer binary (ui_version update) -> update_ops I binary update) ->
  db_respects (settled I) (process config binary force dry only q false).
Proof.
  intros Hc Hu. unfold process_binary_update.
  apply keeps_bind; [apply keeps_attempt, keeps_now; intros now c; by apply settled_keeps|]. intros _.
  apply keeps_bind; [apply keeps_attempt, keeps_check; apply _|]. intros [[update|]|e]; [|auto with keeps..].
  destruct (may_install binary update false) eqn:Hm; cbn [negb]; [|auto with keeps]. destruct dry; [auto with keeps|].
  destruct only.
  - apply keeps_bind; [apply keeps_attempt, keeps_fetch_only; apply _|auto with keeps].
  - apply keeps_bind; [|auto with keeps].
    apply keeps_attempt, keeps_apply, settled_ops, Hu; [apply _|]. by apply may_install_newer.
Qed.

Lemma process_moved config binary force dry only q s :
  tx (sy_db s) = None -> settled (all_moved [binary] (disk (sy_db s))) (sy_db (process config binary force dry only q false s).2).
Proof.
  intros Ht. apply keeps_process.
  - intros now. apply set_last_check_moved.
  - intros update. apply moved_update_ops.
  - split; [done|apply all_moved_refl].
Qed.

Lemma process_all_moved config bs force dry only q results s :
  NoDup (m_binary_id <$> bs) -> tx (sy_db s) = None ->
  settled (all_moved bs (disk (sy_db s))) (sy_db (process_all config bs force dry only q false results s).2).
Proof.
  revert results s. induction bs as [|b bs IH]; intros results s Hd Ht; [split; [done|apply all_moved_refl]|].
  rewrite fmap_cons in Hd. apply NoDup_cons in Hd as [Hb Hd]. cbn [process_binaries].
  pose proof (process_moved config b force dry only q s Ht) as [Ht1 H1].
  unfold sbind. destruct (process config b force dry only q false s) as [[r|e] s1]; cbn [snd] in Ht1, H1.
  2: { split; [done|]. eapply Forall2_impl; [exact H1|]. intros x x1 [Hid Hx]. split; [done|].
       destruct Hx as [Hx|(b1 & u & ->%list_elem_of_singleton & Hx)]; [by left|right]. exists b, u. split; [left|done]. }
  destruct (IH (results ++ [r]) s1 Hd Ht1) as [Ht2 H3]. split; [done|].
  unfold all_moved in *. eapply Forall2_trans; [|exact H1|exact H3]. intros x x1 x2. by apply moved_trans.
Qed.

(** C21: An update on demand never goes back in the records: without
    [--allow-downgrade], for one binary or for all, and whatever the server answers
    and whatever calls fail, the recorded version of every binary, which is what
    offers are compared with, is afterwards the one before or a newer one, and no
    other field that tells binaries apart has changed.  The file can be ahead of
    the record, see [reinstall_after_rollback]. *)
Theorem update_never_downgrades config name force dry only q s :
  consistent (sy_db s) ->
  Forall2 not_older (ct_managed (disk (sy_db s))) (ct_managed (disk (sy_db (perform config name force dry only q false s).2))).
Proof.
  intros [Ht Hi]. unfold perform_update. destruct name as [name|]; unfold sbind, db_call, of_db.
  - assert (Hq : effect (get_binary_by_name name)
      (fun t o t' => o = seek (has_binary_name name) (ct_managed t) /\ t' = t) same).
    { eapply effect_weaken; [apply effect_q, effect_query|..]; [|by intros t e t' (? & _ & ->)].
      intros t o t' [H1%on_Ok ->]. by injection H1 as <-. }
    destruct (Hq (sy_db s) Ht) as [Ht1 H1]. destruct (get_binary_by_name name (sy_db s)) as [[o|e] c]; cbn in *;
      [|rewrite H1; apply not_older_refl].
    destruct H1 as [-> Hd]. rewrite <- Hd. destruct (seek _ _) as [b|] eqn:Hb; [|apply not_older_refl].
    destruct (process_all_moved config [b] force dry only q [] (with_db c s)) as [_ Hm]; [apply NoDup_singleton|done|].
    eapply moved_not_older; [|..|exact Hm]; cbn; rewrite Hd; [apply Hi|]. intros b2 ->%list_elem_of_singleton. apply seek_Some in Hb as [Hb _]. by rewrite <- Hd.
  - destruct (list_binaries_effect (sy_db s) Ht) as [Ht1 H1]. destruct (list_binaries (sy_db s)) as [[bs|e] c]; cbn in *;
      [|rewrite H1; apply not_older_refl].
    destruct H1 as [-> Hd]. rewrite <- Hd. pose proof (order_by_perm Asc m_binary_name (ct_managed (disk (sy_db s)))) as Hp.
    rewrite <- Hd in Hp.
    destruct (process_all_moved config (order_by Asc m_binary_name (ct_managed (disk c))) force dry only q [] (with_db c s)) as [_ Hm];
      [rewrite (fmap_Permutation m_binary_id _ _ Hp), Hd; apply Hi|done|].
    eapply moved_not_older; [|..|exact Hm]; cbn; [rewrite Hd; apply Hi|]. intros b. by rewrite Hp.
Qed.

(** ** Files *)

Section Frame.
Context (R : list string -> option node -> option node -> Prop) {HR : forall p, PreOrder (R p)}.

Lemma respects_signature url binary hash version :
  sys_respects R (verify_downloaded_signature net url_parse status_text valid_key verify_signature url binary hash version).
Proof.
  unfold verify_downloaded_signature, load_key. pose proof (respects_download_bytes net url_parse status_text R url).
  patcher_respects.
Qed.

Lemma respects_check_download binary update d dest :
  free R (resolve dest) ->
  sys_respects R (check_download (SH := SH) net url_parse status_text valid_key verify_signature binary update d dest).
Proof.
  intros Hd. unfold check_download, discard_and_fail. pose proof respects_signature. patcher_respects.
Qed.

Lemma respects_process_check config binary :
  sys_respects R (check_for_updates (T := client_tables) net url_parse status_text decode_response decode_text config binary).
Proof.
  assert (forall remaining n url errs,
    sys_respects R (check_loop (T := client_tables) net url_parse status_text decode_response decode_text remaining n config binary url errs)) as Hl.
  { induction remaining as [|k IH]; intros n url errs; cbn [check_loop]; [auto with respects|].
    unfold check_for_updates_attempt. pose proof (respects_send (T := client_tables) net R) as Hs. patcher_respects; apply Hs. }
  unfold check_for_updates. patcher_respects.
Qed.
End Frame.

(** Where an update of the binary is downloaded to. *)
Definition fetched (config : ClientConfig) (binary : DbManagedBinary) (p : list string) : Prop :=
  exists v suffix, (suffix = "" \/ suffix = ".diff") /\
    p = resolve (join (downloads_dir config) (m_binary_name binary +:+ "_" +:+ version_to_string v +:+ suffix)).

(** Elsewhere what exists stays. *)
Definition elsewhere_kept (config : ClientConfig) (binary : DbManagedBinary) (p : list string) (o o' : option node) : Prop :=
  fetched config binary p \/ (is_Some o -> o' = o).

#[local] Instance elsewhere_preorder config binary p : PreOrder (elsewhere_kept config binary p).
Proof.
  split; [by right|]. intros a b c [H1|H1] [H3|H3]; [by left..|]. right. intros Ha. specialize (H1 Ha). subst b. by apply H3.
Qed.

Lemma chosen_fetched config binary update d :
  choose_download binary update = Ok d -> fetched config binary (resolve (join (downloads_dir config) (dl_filename d))).
Proof.
  unfold choose_download. intros E. exists (ui_version update). destruct (ui_diff_url update) as [u|].
  - apply result_bind_Ok in E as (c & _ & [= <-]). exists ".diff". split; [by right|]. cbn [dl_filename]. do 2 f_equal.
    apply (inj chars). by rewrite !chars_app, <- !app_assoc.
  - destruct (ui_full_binary_url update) as [u|]; [|done]. injection E as <-. exists "". split; [by left|]. cbn [dl_filename]. do 2 f_equal.
    apply (inj chars). by rewrite !chars_app, app_nil_r, <- ?app_assoc.
Qed.

Lemma respects_fetch_only config binary update : sys_respects (elsewhere_kept config binary) (fetch_only config binary update).
Proof.
  assert (Hmk : forall p, may_create (elsewhere_kept config binary) p) by (intros p d _ _; right; by intros [? ?]).
  unfold download_update_only. apply sys_respects_bind; [apply _| |intros _].
  { unfold fs_call. apply sys_respects_io, respects_io_map, respects_create_dir_all; [apply _|apply Hmk]. }
  destruct (choose_download binary update) as [d|e] eqn:Hd; [|apply sys_respects_same; [apply _|done]].
  apply sys_respects_bind_val; [apply _|apply sys_respects_same; [apply _|done]|]. intros s1 d' s2 [= <- <-]. cbn zeta.
  assert (Hf : free (elsewhere_kept config binary) (resolve (join (downloads_dir config) (dl_filename d))))
    by (intros o o'; left; by eapply chosen_fetched).
  apply sys_respects_bind; [apply _|apply respects_download_file; [apply _|done|intros; apply Hmk]|intros _].
  apply sys_respects_bind; [apply _|apply respects_check_download; [apply _|done]|intros _]. auto with respects.
Qed.

(** Nothing installed is touched by [update --dry-run] and
    [update --download-only]: whatever calls fail, a dry run changes no file, and
    a download changes what exists only at its own place among the downloads. *)
Theorem careful_update_leaves_files config binary force only q down s :
  files (sy_fs (process config binary force true only q down s).2) = files (sy_fs s) /\
  forall p, elsewhere_kept config binary p (files (sy_fs s) !! p) (files (sy_fs (process config binary force false true q down s).2) !! p).
Proof.
  assert (Hdb : forall R (HR : forall p, PreOrder (R p)),
    sys_respects R (attempt (db_now (A := unit) h (fun now => set_last_check now (m_binary_id binary)))) /\
    sys_respects R (attempt (check_for_updates (T := client_tables) net url_parse status_text decode_response decode_text config binary))).
  { intros R HR. split; apply sys_respects_attempt; [patcher_respects|by apply respects_process_check]. }
  split.
  - apply untouched_files. destruct (Hdb untouched _) as [H1 H3]. unfold process_binary_update.
    apply sys_respects_bind; [apply _|exact H1|intros _]. apply sys_respects_bind; [apply _|exact H3|].
    intros [[update|]|e]; [|auto with respects..]. case_match; auto with respects.
  - destruct (Hdb (elsewhere_kept config binary) _) as [H1 H3].
    assert (Hp : sys_respects (elsewhere_kept config binary) (process config binary force false true q down)); [|apply Hp].
    unfold process_binary_update. apply sys_respects_bind; [apply _|exact H1|intros _].
    apply sys_respects_bind; [apply _|exact H3|]. intros [[update|]|e]; [|auto with respects..]. case_match; [auto with respects|].
    apply sys_respects_bind; [apply _| |intros r; auto with respects]. apply sys_respects_attempt, respects_fetch_only.
Qed.

(** What [update --download-only] reports has been verified: when it names a
    file, that file has the checksum the server announced for it, and a whole
    binary with a signature address carries a signature of the publisher for its
    content and the version. *)
Theorem download_only_verified config binary update s path s' :
  fetch_only config binary update s = (Ok path, s') ->
  exists d data, choose_download binary update = Ok d /\ path = join (downloads_dir config) (dl_filename d) /\
    fs_read (files (sy_fs s')) (resolve path) = Ok data /\ hash_from_hex (dl_checksum d) = Ok (blake3 data) /\
    (dl_is_full_binary d = true -> is_Some (ui_signature_url update) -> exists signature, lenZ signature = 64 /\
       verify_signature (m_publisher_public_key binary)
         (signing_payload (blake3 data) (version_to_string (ui_version update))) signature = true).
Proof.
  intros (u1 & s1 & _ & E)%sbind_Ok. apply sbind_Ok in E as (d & s2 & Hd & E). injection Hd as Hd <-.
  apply sbind_Ok in E as (u3 & s3 & _ & E). apply sbind_Ok in E as (u4 & s4 & E4 & E). injection E as <- <-.
  exists d. unfold check_download, discard_and_fail in E4.
  destruct (hash_from_hex (dl_checksum d)) as [expected|e] eqn:Hx; [|by apply sbind_Ok in E4 as (? & ? & _ & ?)].
  apply sbind_Ok in E4 as (r & s5 & Er%attempt_Ok & E4). destruct r as [actual|e]; [|by apply sbind_Ok in E4 as (? & ? & _ & ?)].
  pose proof (hashed_Ok blake3 _ _ _ _ Er) as (data & Hdata & ->).
  assert (Hf5 : files (sy_fs s5) = files (sy_fs s3)).
  { eapply step_untouched; [|exact Er]. unfold hashed. apply sys_respects_io, respects_io_map, respects_hash_file; apply _. }
  unfold hash_ct_eq in E4. case_bool_decide as Heq; cbn [negb] in E4; [|by apply sbind_Ok in E4 as (? & ? & _ & ?)]. subst expected.
  exists data. assert (Hsame : files (sy_fs s4) = files (sy_fs s5) ->
    fs_read (files (sy_fs s4)) (resolve (join (downloads_dir config) (dl_filename d))) = Ok data) by (intros ->; by rewrite Hf5).
  destruct (dl_is_full_binary d) eqn:Hfull; [|injection E4 as _ <-; split_and!; auto; done].
  destruct (ui_signature_url update) as [sig_url|] eqn:Hsig; [|injection E4 as _ <-; split_and!; auto; by intros _ [? ?]].
  apply sbind_Ok in E4 as (v & s6 & Ev%attempt_Ok & E4). destruct v as [u|e]; [|by apply sbind_Ok in E4 as (? & ? & _ & ?)].
  injection E4 as _ <-. split_and!; auto; [apply Hsame; eapply step_untouched; [|exact Ev]; apply respects_signature; apply _|].
  intros _ _. unfold verify_downloaded_signature, sized, load_key in Ev.
  apply sbind_Ok in Ev as (sb & s7 & _ & Ev). apply sbind_Ok in Ev as (sg & s8 & E8 & Ev).
  destruct (Z.eqb_spec (lenZ sb) 64) as [Hl|]; [|done]. injection E8 as <- <-.
  apply sbind_Ok in Ev as (k & s9 & E9 & Ev). destruct (_ =? 32); [|done]. injection E9 as <- <-.
  apply sbind_Ok in Ev as (vk & s10 & E10 & Ev). destruct (valid_key _); [|done]. injection E10 as <- <-.
  unfold verify, of_result in Ev. exists sb. split; [done|]. by destruct (verify_signature _ _ _).
Qed.
End Facts.
