(* ===== verification/ClientScenarios.v ===== *)
(** * ClientScenarios: a concrete client

    A host, a server and a database on which the theorems about updates,
    rollbacks and the daemon run, and scenarios with a surprising outcome. *)

From S2P Require Import Prelude Text Diff Version SemverRef Core Validation RateLimit Fs Storage Instances Auth Crypto Publish.
From S2P Require Import Scenarios DbModels Sql ClientDb ClientDbFacts System DbScenarios ClientConfig Downloader Checker InstallPath Patcher PatcherFacts UpdateFacts.
From S2P Require Import Rollback Daemon DaemonFacts UpdateCommand UpdateCommandFacts.

#[local] Open Scope Z_scope.

(** ** Stand-ins *)

#[local] Instance toy_texts : ErrorTexts := {|
  io_text e := "io"; db_text e := "db"; crypto_text e := "crypto"; diff_text e := "diff" |}.

(** A hasher that keeps everything it is given. *)
#[local] Instance toy_hasher : StreamHasher bytes bytes :=
  {| hasher_new := []; hasher_update := app; hasher_finalize := toy_digest |}.
#[local] Instance toy_hasher_law : HasherLaw toy_hasher toy_digest.
Proof.
  intros chunks. change (toy_digest (foldl app [] chunks) = toy_digest (concat chunks)). apply (f_equal toy_digest).
  rewrite <- (app_nil_l (concat chunks)). generalize (@nil byte) as acc.
  induction chunks as [|c cs IH]; intros acc; cbn; [by rewrite app_nil_r|]. by rewrite IH, app_assoc.
Qed.

Definition toy_host : host := {|
  h_is_symlink _ := false; h_real_path p := p; h_uid _ := 1000; h_euid := 1000; h_memory _ := 10 ^ 9;
  h_disks := [("/", 10 ^ 9)]; h_identity _ _ := (1, 1); h_clock n := Z.of_nat n; h_unix_time n := 1714550400;
  h_now _ := "2024-05-02 08:00:00"; h_expiry _ := "2024-06-01 08:00:00"; h_temp _ := ".tmp1"; h_pid := 77; h_lock _ _ := LockFree |}.

Definition toy_config : ClientConfig := {|
  server_url := "https://up"; check_interval_secs := 3600; data_dir := "/home/ds"; disk_check_mode := Strict |}.

Definition new_tool : bytes := as_bytes "tool, second version".
Definition old_tool : bytes := as_bytes "tool, first version".

Definition version_of (s : string) : Version :=
  match version_from_str s with Ok v => v | Err _ => version_new 0 0 0 end.

(** The server offers the second version. *)
Definition offer : UpdateCheckResponse :=
  {| update_available := true; target_version := Some (version_of "2.0.0"); diff_url := None; diff_checksum := None;
     diff_size := None; full_binary_url := Some "/tool"; full_binary_size := Some (lenZ new_tool);
     checksum := Some (hash_to_hex (toy_digest new_tool)); signature_url := Some "/tool.sig"; release_notes := None;
     forced := false; rollout_percentage := None; in_rollout := None |}.

Definition answer (status : Z) (content : bytes) : http_response := {|
  rs_status := status; rs_content_length := Some (lenZ content); rs_content_range := None; rs_chunks := [Ok content] |}.

Definition serve (content signature : bytes) (n : nat) (r : http_request) : result reqwest_error http_response :=
  Ok (if bool_decide (rq_url r = "https://up/tool") then answer 200 content
      else if bool_decide (rq_url r = "https://up/tool.sig") then answer 200 signature
      else answer 200 []).

Definition toy_decode (b : bytes) : result reqwest_error ServerUpdateResponse :=
  Ok {| su_base := offer; su_version_id := Some "v-2" |}.

(** The disk and the database of the client. *)
Definition client_disk : fs :=
  {[ ["opt"] := Dir; ["opt"; "app"] := Dir; ["opt"; "app"; "tool"] := File old_tool;
     ["opt"; "app"; "tool.sig"] := File (sign "1.0.0" old_tool); ["home"] := Dir ]}.

Definition tool_row : NewManagedBinary := {|
  nm_binary_id := "b1"; nm_binary_name := "tool"; nm_platform := "linux-x86_64";
  nm_install_path := "/opt/app/tool"; nm_publisher_public_key := replicate 32 (byte_of_Z 97) |}.

Definition client_setup : list client_op :=
  [OpInit "ok" "2024-05-01 08:00:00"; OpRegister "2024-05-01 08:00:01" tool_row;
   OpRecordInstalled "2024-05-01 08:00:02" "b1" "v-1" "1.0.0" (toy_digest old_tool) (toy_digest old_tool) (lenZ old_tool);
   OpUpdateCurrent "2024-05-01 08:00:03" "b1" "v-1" "1.0.0"].

Definition client_conn : conn client_tables := run_client client_setup (undisturbed empty_client).

Definition client_start : system client_tables :=
  Sys {| files := client_disk; faults := fun _ => None; tick := 0 |} client_conn [] [] [].

Definition first_row : DbManagedBinary := default
  {| m_binary_id := ""; m_binary_name := ""; m_platform := ""; m_install_path := ""; m_current_version_id := None;
     m_current_version_string := None; m_publisher_public_key := []; m_auto_update := false; m_last_check_at := None;
     m_last_update_at := None; m_created_at := ""; m_updated_at := "" |} (head (ct_managed (disk client_conn))).

Definition the_update : UpdateInfo :=
  match extract_update "https://up" {| su_base := offer; su_version_id := Some "v-2" |} with
  | Ok (Some u) => u
  | _ => {| ui_version := version_new 0 0 0; ui_version_id := ""; ui_diff_url := None; ui_diff_checksum := None;
            ui_diff_size := None; ui_full_binary_url := None; ui_full_binary_size := None; ui_checksum := "";
            ui_signature_url := None; ui_forced := false; ui_release_notes := None |}
  end.

Abbreviation toy_parse := (fun _ : string => @None url_parts).
Abbreviation toy_status := (fun z : Z => pretty z).
Abbreviation any_key := (fun _ : bytes => true).
Abbreviation no_zstd := (fun _ : bytes => @Err string (bytes * option string) "zstd").
Abbreviation good_server := (serve new_tool (sign "2.0.0" new_tool)).
Abbreviation apply_from net := (apply_update (SH := toy_hasher) (SH2 := toy_hasher) toy_host net toy_parse toy_status toy_digest
  any_key toy_verify toy_hex_decode no_zstd toy_config first_row the_update).

Definition at_tool (s : system client_tables) : option node := files (sy_fs s) !! ["opt"; "app"; "tool"].

Example update_runs : (apply_from good_server client_start).1 = Ok tt /\
  at_tool (apply_from good_server client_start).2 = Some (File new_tool).
Proof. split; vm_compute; reflexivity. Qed.

(** ** Updates *)

Lemma tool_layout : update_layout toy_host toy_config first_row the_update "/opt/app" "tool".
Proof.
  split; [vm_compute; reflexivity|apply (bool_decide_unpack _); vm_compute; exact I| | | | |].
  - intros t. split; [apply (bool_decide_unpack _); vm_compute; exact I|split; discriminate].
  - apply (bool_decide_unpack _); vm_compute; exact I.
  - apply (bool_decide_unpack _); vm_compute; exact I.
  - apply (bool_decide_unpack _); vm_compute; exact I.
  - apply (bool_decide_unpack _); vm_compute; exact I.
Qed.

Lemma tool_backup_layout : backup_layout toy_config first_row "/opt/app".
Proof. split; apply (bool_decide_unpack _); vm_compute; exact I. Qed.

Lemma client_conn_consistent : consistent client_conn.
Proof.
  assert (client_reachable client_conn) as H by (apply run_client_reachable; constructor).
  induction H as [sched|o c _ IH]; [split; [reflexivity|apply empty_client_inv]|].
  apply settled_keeps; [apply run_op_preserves|exact IH].
Qed.

(** A server whose signature is for another version. *)
Abbreviation bad_server := (serve new_tool (sign "1.0.0" new_tool)).
(** The statements fail from some point on. *)
Definition shaky_start : system client_tables :=
  Sys (sy_fs client_start) (Conn (disk client_conn) None (replicate 4 None ++ [Some SqlxIo])) [] [] [].

Lemma apply_update_consistent_witness :
  (exists e, (apply_from good_server shaky_start).1 = Err e) /\ consistent (sy_db (apply_from good_server shaky_start).2).
Proof.
  split; [eexists; vm_compute; reflexivity|].
  apply (apply_update_consistent (SH := toy_hasher) (SH2 := toy_hasher)). exact client_conn_consistent.
Defined.

Lemma failed_update_undone_witness :
  exists e s', apply_from bad_server client_start = (Err e, s') /\ at_tool s' = Some (File old_tool).
Proof.
  destruct (apply_from bad_server client_start) as [[u|e] s'] eqn:E.
  - exfalso. assert ((apply_from bad_server client_start).1 = Ok u) as H by (by rewrite E). vm_compute in H. discriminate H.
  - exists e, s'. split; [reflexivity|].
    destruct (failed_update_undone (SH := toy_hasher) (SH2 := toy_hasher) toy_host bad_server toy_parse toy_status toy_digest
                any_key toy_verify toy_hex_decode no_zstd toy_config first_row the_update "/opt/app" "tool"
                tool_layout tool_backup_layout client_start old_tool e s') as [H|(data & signature & _ & H & _)]; [|exact E|..].
    + split; [intros k; reflexivity|]. split; vm_compute; reflexivity.
    + exact H.
    + assert (at_tool (apply_from bad_server client_start).2 = Some (File old_tool)) as H1 by (vm_compute; reflexivity).
      rewrite E in H1. exact H1.
Defined.

Lemma successful_update_recorded_witness :
  exists s', apply_from good_server client_start = (Ok tt, s') /\
    at_tool s' = Some (File new_tool) /\
    head (sy_audit s') = Some (UpdateApplied "tool" "2.0.0" "/opt/app/tool").
Proof.
  destruct (apply_from good_server client_start) as [[[]|e] s'] eqn:E.
  - exists s'. split; [reflexivity|].
    destruct (successful_update_recorded (SH := toy_hasher) (SH2 := toy_hasher) toy_host good_server toy_parse toy_status toy_digest
                any_key toy_verify toy_hex_decode no_zstd toy_config first_row the_update "/opt/app" "tool" client_start tt s')
      as (_ & _ & H); [exact tool_layout|reflexivity|exact E|].
    split; [|exact H].
    assert (at_tool (apply_from good_server client_start).2 = Some (File new_tool)) as H1 by (vm_compute; reflexivity).
    rewrite E in H1. exact H1.
  - exfalso. assert ((apply_from good_server client_start).1 = Err e) as H by (by rewrite E). vm_compute in H. discriminate H.
Defined.

(** ** Rollbacks *)

Definition updated : system client_tables := (apply_from good_server client_start).2.

Abbreviation rollback_from to := (perform_rollback (SH := toy_hasher) toy_host any_key toy_verify toy_config "tool" to).

Definition some_backup : DbRollbackBackup :=
  {| r_backup_id := 0; r_binary_id := ""; r_version_id := ""; r_version_string := ""; r_backup_path := "";
     r_backup_hash_blake3 := []; r_backup_size_bytes := 0; r_created_at := ""; r_expires_at := None |}.

Definition updated_row : DbManagedBinary := default first_row (head (ct_managed (disk (sy_db updated)))).
Definition kept_backup : DbRollbackBackup := default some_backup (head (ct_backups (disk (sy_db updated)))).

Lemma tool_rollback_layout :
  rollback_layout toy_host toy_config updated_row "tool" "/opt/app" "tool" (r_backup_path kept_backup).
Proof.
  split; [vm_compute; reflexivity|apply (bool_decide_unpack _); vm_compute; exact I| | | | |].
  - intros t. split; [apply (bool_decide_unpack _); vm_compute; exact I|discriminate].
  - apply (bool_decide_unpack _); vm_compute; exact I.
  - apply (bool_decide_unpack _); vm_compute; exact I.
  - apply (bool_decide_unpack _); vm_compute; exact I.
  - apply (bool_decide_unpack _); vm_compute; exact I.
Qed.

Lemma rollback_verified_witness :
  (rollback_from None updated).1 = Ok tt /\ at_tool (rollback_from None updated).2 = Some (File old_tool) /\
  rollback_outcome toy_digest any_key toy_verify updated_row kept_backup (with_db (sy_db updated) updated)
    (rollback_from None updated).
Proof.
  split; [vm_compute; reflexivity|]. split; [vm_compute; reflexivity|].
  apply (rollback_verified (SH := toy_hasher) toy_host toy_digest any_key toy_verify toy_config updated_row "tool" "/opt/app" "tool"
           (r_backup_path kept_backup) tool_rollback_layout kept_backup [kept_backup] None (sy_db updated) (sy_db updated)
           updated); vm_compute; reflexivity.
Defined.

(** ** Surprises *)

Definition rolled_back : system client_tables := (rollback_from None updated).2.
Definition restored_row : DbManagedBinary := default first_row (head (ct_managed (disk (sy_db rolled_back)))).

(** The same update again after the rollback. *)
Abbreviation reapply := (apply_update (SH := toy_hasher) (SH2 := toy_hasher) toy_host good_server toy_parse toy_status toy_digest
  any_key toy_verify toy_hex_decode no_zstd toy_config restored_row the_update).

(** After a rollback the same update can never be recorded again: the new
    binary is swapped in and the history marked completed, then the insertion of
    the installed version fails because its row exists; [apply_update] returns an
    error, the old binary is not restored, and the database still names the old
    version as current. *)
Theorem reinstall_after_rollback :
  (exists e, (reapply rolled_back).1 = Err (CContext "Failed to record installed version" (CDb e))) /\
  at_tool rolled_back = Some (File old_tool) /\ at_tool (reapply rolled_back).2 = Some (File new_tool) /\
  (m_current_version_string <$> ct_managed (disk (sy_db (reapply rolled_back).2))) = [Some "1.0.0"] /\
  (u_status <$> last (ct_history (disk (sy_db (reapply rolled_back).2)))) = Some "completed".
Proof. split_and!; [eexists|..]; vm_compute; reflexivity. Qed.

(** The rollback is undone, then the installed binary is damaged. *)
Definition undone : system client_tables := (rollback_from (Some "2.0.0") rolled_back).2.
Definition damaged : system client_tables :=
  with_fs {| files := <[["opt"; "app"; "tool"] := File (as_bytes "damaged")]> (files (sy_fs undone));
             faults := faults (sy_fs undone); tick := tick (sy_fs undone) |} undone.
Definition at_backup (s : system client_tables) : option node :=
  files (sy_fs s) !! ["home"; "ds"; "backups"; "tool_2.0.0_pre_rollback.backup"].

(** Rolling back to the backup of the current version destroys it: the backup of
    the current binary that a rollback makes first has the same name, so a damaged
    binary is copied over the verified backup, which is then "restored": the
    rollback reports success with the damaged binary in place and no good copy
    left. *)
Theorem rollback_overwrites_its_target :
  at_backup damaged = Some (File new_tool) /\
  (rollback_from (Some "2.0.0") damaged).1 = Ok tt /\
  at_tool (rollback_from (Some "2.0.0") damaged).2 = Some (File (as_bytes "damaged")) /\
  at_backup (rollback_from (Some "2.0.0") damaged).2 = Some (File (as_bytes "damaged")).
Proof. split_and!; vm_compute; reflexivity. Qed.

(** A download the server refuses, and a file error while the backup is copied back. *)
Definition refusing (n : nat) (r : http_request) : result reqwest_error http_response := Ok (answer 404 []).
Definition faulty_start (k : nat) : system client_tables :=
  Sys {| files := client_disk; faults := fun n => if bool_decide (n = k) then Some 5%nat else None; tick := 0 |} client_conn [] [] [].

(** The recovery of a failed update is not atomic and runs even when nothing was
    changed: after a download that was merely refused the backup is copied over
    the intact binary in place, and an error in that copy leaves the installed
    binary truncated. *)
Theorem recovery_may_destroy_the_binary :
  at_tool (apply_from refusing client_start).2 = Some (File old_tool) /\
  at_tool (apply_from refusing (faulty_start 13)).2 = Some (File (take 4 old_tool)).
Proof. split; vm_compute; reflexivity. Qed.

Lemma apply_update_safe_witness :
  (apply_from good_server client_start).1 = Ok tt /\ at_tool (apply_from good_server client_start).2 = Some (File new_tool) /\
  at_tool (apply_from bad_server client_start).2 = Some (File old_tool) /\
  apply_outcome toy_digest any_key toy_verify first_row the_update client_start (apply_from good_server client_start) /\
  apply_outcome toy_digest any_key toy_verify first_row the_update client_start (apply_from bad_server client_start) /\
  apply_outcome toy_digest any_key toy_verify first_row the_update (faulty_start 13) (apply_from refusing (faulty_start 13)).
Proof.
  split; [vm_compute; reflexivity|]. split; [vm_compute; reflexivity|]. split; [vm_compute; reflexivity|].
  split; [|split]; (eapply (apply_update_safe (SH := toy_hasher) (SH2 := toy_hasher)); [exact toy_hasher_law|exact tool_layout|exact tool_backup_layout]).
Defined.

(** A Content-Range that ends in a size of zero. *)
Definition empty_range (n : nat) (r : http_request) : result reqwest_error http_response :=
  Ok {| rs_status := 206; rs_content_length := None; rs_content_range := Some "bytes 0-0/0"; rs_chunks := [Ok [byte_of_Z 1]] |}.

(** The progress of a download divides by the announced size. *)
Example content_range_panics :
  (download_file empty_range toy_parse toy_status "https://up/tool" "/home/tool" client_start).1 = Err CPanic.
Proof. vm_compute. reflexivity. Qed.

(** ** The daemon *)

Abbreviation run_loop net turns := (daemon_loop (SH := toy_hasher) (SH2 := toy_hasher) toy_host net toy_parse toy_status toy_decode
  (fun _ => "") toy_digest any_key toy_verify toy_hex_decode no_zstd turns toy_config 0).
Abbreviation run_turn net := (daemon_turn (SH := toy_hasher) (SH2 := toy_hasher) toy_host net toy_parse toy_status toy_decode
  (fun _ => "") toy_digest any_key toy_verify toy_hex_decode no_zstd toy_config).

(** Two turns: the first updates the tool, the second finds nothing newer. *)
Lemma daemon_never_downgrades_witness :
  (m_current_version_string <$> ct_managed (disk (sy_db (run_loop good_server 2 client_start).2))) = [Some "2.0.0"] /\
  consistent (sy_db (run_loop good_server 2 client_start).2).
Proof.
  split; [vm_compute; reflexivity|].
  apply (daemon_never_downgrades (SH := toy_hasher) (SH2 := toy_hasher) toy_host good_server toy_parse toy_status toy_decode
           (fun _ => "") toy_digest any_key toy_verify toy_hex_decode no_zstd 2 toy_config 0 client_start).
  exact client_conn_consistent.
Defined.

Lemma daemon_keeps_checking_witness :
  exists s' s'' b, run_loop good_server 3 client_start = (Ok 0, s') /\ run_turn good_server 0 s' = (Ok 0, s'') /\
    head (sy_slept s'') = Some (3600 * 1000) /\ m_binary_name b = "tool" /\ b ∈ ct_managed (disk (sy_db s')) /\
    asked_about toy_config b s' s''.
Proof.
  destruct (daemon_keeps_checking (SH := toy_hasher) (SH2 := toy_hasher) toy_host good_server toy_parse toy_status toy_decode
           (fun _ => "") toy_digest any_key toy_verify toy_hex_decode no_zstd 3 toy_config 0 client_start)
    as (f & s' & E & f' & s'' & ms & E1 & E2 & _ & E3);
    [intros t p Hp; discriminate Hp|discriminate|discriminate|discriminate|exact client_conn_consistent|].
  assert (f = 0) as ->.
  { assert ((run_loop good_server 3 client_start).1 = Ok 0) as H by (vm_compute; reflexivity).
    rewrite E in H. injection H as H. exact H. }
  assert (s' = (run_loop good_server 3 client_start).2) as Hs by (rewrite E; reflexivity).
  assert (f' = 0) as ->.
  { assert ((run_turn good_server 0 (run_loop good_server 3 client_start).2).1 = Ok 0) as H by (vm_compute; reflexivity).
    rewrite <- Hs, E1 in H. injection H as H. exact H. }
  assert (exists b, ct_managed (disk (sy_db s')) = [b] /\ m_auto_update b = true /\ m_binary_name b = "tool") as (b & Hb & Ha & Hn).
  { rewrite Hs. vm_compute. eexists. split; [reflexivity|]. split; reflexivity. }
  destruct E3 as [E3|(_ & -> & E3)]; [discriminate E3|].
  exists s', s'', b. split; [exact E|]. split; [exact E1|]. split; [exact E2|]. split; [exact Hn|].
  assert (b ∈ ct_managed (disk (sy_db s'))) as Hin by (rewrite Hb; left).
  split; [exact Hin|]. exact (E3 b Hin Ha).
Defined.

(** Another process holds the update lock and never lets go: the turn of the
    daemon does not return, and it has sent nothing. *)
Definition locked_host : host := {|
  h_is_symlink _ := false; h_real_path p := p; h_uid _ := 1000; h_euid := 1000; h_memory _ := 10 ^ 9;
  h_disks := [("/", 10 ^ 9)]; h_identity _ _ := (1, 1); h_clock n := Z.of_nat n; h_unix_time n := 1714550400;
  h_now _ := "2024-05-02 08:00:00"; h_expiry _ := "2024-06-01 08:00:00"; h_temp _ := ".tmp1"; h_pid := 77;
  h_lock _ p := if bool_decide (p = "/home/ds/deltaship-update.lock") then LockHeld false else LockFree |}.

Example held_lock_stops_daemon :
  let r := daemon_turn (SH := toy_hasher) (SH2 := toy_hasher) locked_host good_server toy_parse toy_status toy_decode
    (fun _ => "") toy_digest any_key toy_verify toy_hex_decode no_zstd toy_config 0 client_start in
  r.1 = Err CBlocked /\ sy_sent r.2 = [].
Proof. split; vm_compute; reflexivity. Qed.

(** ** Updates on demand *)

#[local] Existing Instance toy_texts.
#[local] Existing Instance toy_hasher.
#[local] Existing Instance toy_hasher_law.

Abbreviation perform_from net dry only down := (perform_update (SH := toy_hasher) (SH2 := toy_hasher) toy_host net toy_parse toy_status
  toy_decode (fun _ => "") toy_digest any_key toy_verify toy_hex_decode no_zstd toy_config None false dry only true down).

(** An update, a dry run, a download; and a server that offers the version again. *)
Example performed :
  (perform_from good_server false false false client_start).1 = Ok [Updated] /\
  (perform_from good_server true false false client_start).1 = Ok [Skipped] /\
  (perform_from good_server false true false client_start).1 = Ok [Skipped] /\
  (perform_from good_server false false false updated).1 = Ok [UpdateFailed].
Proof. vm_compute. split_and!; reflexivity. Qed.

Lemma update_never_downgrades_witness :
  Forall2 not_older (ct_managed (disk (sy_db client_start))) (ct_managed (disk (sy_db (perform_from good_server false false false client_start).2))).
Proof.
  apply (update_never_downgrades (SH := toy_hasher) (SH2 := toy_hasher) toy_host good_server toy_parse toy_status toy_decode
           (fun _ => "") toy_digest any_key toy_verify toy_hex_decode no_zstd toy_config None false false false true client_start).
  exact client_conn_consistent.
Defined.

Abbreviation fetch_from net := (download_update_only (SH := toy_hasher) net toy_parse toy_status any_key toy_verify toy_config first_row the_update).

Definition fetched_state : system client_tables := (fetch_from good_server client_start).2.

Lemma fetch_done : fetch_from good_server client_start = (Ok "/home/ds/downloads/tool_2.0.0", fetched_state).
Proof.
  assert (E : (fetch_from good_server client_start).1 = Ok "/home/ds/downloads/tool_2.0.0") by (vm_compute; reflexivity).
  unfold fetched_state. by apply pair_fst.
Qed.

Lemma download_only_verified_witness : exists data,
  fs_read (files (sy_fs fetched_state)) (resolve "/home/ds/downloads/tool_2.0.0") = Ok data /\
  exists signature, toy_verify (m_publisher_public_key first_row) (signing_payload (toy_digest data) "2.0.0") signature = true.
Proof.
  destruct (download_only_verified (SH := toy_hasher) good_server toy_parse toy_status toy_digest any_key toy_verify toy_config first_row
    the_update client_start _ _ fetch_done) as (d & data & Hd & _ & Hf & _ & Hs).
  exists data. split; [exact Hf|]. destruct Hs as (sg & _ & Hv).
  - vm_compute in Hd. injection Hd as <-. reflexivity.
  - vm_compute. eexists. reflexivity.
  - exists sg. exact Hv.
Defined.
