(* ===== verification/KeyFiles.v ===== *)
(** * KeyFiles: keys on disk ([deltaship-crypto/src/keys.rs])

    The text format of signing keys, encrypted with a passphrase or not, and of
    verifying keys, and the operations that save and load them.  A key is its 32
    bytes.  Argon2, ChaCha20-Poly1305, the hex crate and the decoding of points
    are external; salt and nonce are arguments.  Zeroization leaves no trace in
    the model. *)

From S2P Require Import Prelude Text Version Validation Fs Crypto DbModels Sql System.

#[local] Open Scope Z_scope.

Definition SIGNING_KEY_HEADER : string := "-----BEGIN DELTASHIP SIGNING KEY-----".
Definition SIGNING_KEY_FOOTER : string := "-----END DELTASHIP SIGNING KEY-----".
Definition ENCRYPTED_SIGNING_KEY_HEADER : string := "-----BEGIN DELTASHIP ENCRYPTED SIGNING KEY-----".
Definition ENCRYPTED_SIGNING_KEY_FOOTER : string := "-----END DELTASHIP ENCRYPTED SIGNING KEY-----".
Definition VERIFYING_KEY_HEADER : string := "-----BEGIN DELTASHIP VERIFYING KEY-----".
Definition VERIFYING_KEY_FOOTER : string := "-----END DELTASHIP VERIFYING KEY-----".
Definition CURRENT_VERSION : Z := 1.

Inductive SecurityLevel := LevelStandard | LevelHigh | LevelMaximum.

#[global] Instance SecurityLevel_eq_dec : EqDecision SecurityLevel.
Proof. solve_decision. Defined.

(** [Params::new(m_cost, t_cost, p_cost, output_len)]. *)
Record Argon2Params := { m_cost : Z; t_cost : Z; p_cost : Z; output_len : Z }.

Definition level_costs (l : SecurityLevel) : Argon2Params :=
  let '(m, t) := match l with LevelStandard => (19456, 2) | LevelHigh => (65536, 3) | LevelMaximum => (262144, 4) end in
  {| m_cost := m; t_cost := t; p_cost := 1; output_len := 32 |}.

(** The external functions. *)
Class KeyCrypto := {
  params_valid : Argon2Params -> bool;                              (** [Params::new] *)
  encode_b64 : bytes -> result string string;                       (** [SaltString::encode_b64] *)
  argon2id : Argon2Params -> bytes -> string -> result string (option bytes);  (** [hash_password(..).hash] *)
  aead_encrypt : bytes -> bytes -> bytes -> option bytes;           (** key, nonce, plaintext *)
  aead_decrypt : bytes -> bytes -> bytes -> option bytes;           (** key, nonce, ciphertext *)
  hex_decode : string -> result string bytes;                       (** [hex::decode], its error as text *)
  point_valid : bytes -> bool;                                      (** [VerifyingKey::from_bytes] *)
}.

(** What the documentation of those crates says. *)
Class KeyCryptoLaws (KC : KeyCrypto) : Prop := {
  aead_roundtrip k n d c : aead_encrypt k n d = Some c -> aead_decrypt k n c = Some d;
  aead_length k n d c : aead_encrypt k n d = Some c -> lenZ c = lenZ d + 16;
  hex_decode_encode b : hex_decode (of_chars (hex_chars b)) = Ok b;
}.

Definition NL : string := of_chars [chr 10].

(** [slice::chunks]. *)
Fixpoint chunks_go {A} (fuel : nat) (n : nat) (l : list A) : list (list A) :=
  match fuel, l with
  | S fuel, _ :: _ => take n l :: chunks_go fuel n (drop n l)
  | _, _ => []
  end.
Definition chunks {A} (n : nat) (l : list A) : list (list A) := chunks_go (length l) n l.

Definition strip_suffix (p s : string) : option string :=
  if ends_with p s then Some (of_chars (take (length (chars s) - length (chars p)) (chars s))) else None.

Section Keys.
Context {KC : KeyCrypto}.

Definition params (l : SecurityLevel) : result CryptoError Argon2Params :=
  if params_valid (level_costs l) then Ok (level_costs l) else Err ArgonParamsFailure.

(** [copy_from_slice] panics when the lengths differ. *)
Definition derive_key_from_passphrase (passphrase : string) (salt : bytes) (security_level : SecurityLevel)
    : outcome (result CryptoError bytes) :=
  match (p ← params security_level;
         salt_string ← map_err (fun e => KeyDerivationFailure ("salt encoding failed: " +:+ e)) (encode_b64 salt);
         hash ← map_err (fun e => KeyDerivationFailure ("Argon2 hashing failed: " +:+ e))
                  (argon2id p (as_bytes passphrase) salt_string);
         ok_or (KeyDerivationFailure "hash output missing") hash) with
  | Ok hash_bytes => if lenZ hash_bytes =? 32 then Val (Ok hash_bytes) else Panic
  | Err e => Val (Err e)
  end.

Definition encrypt_with_key (data key nonce : bytes) : result CryptoError bytes :=
  ok_or AeadEncryptionFailure (aead_encrypt key nonce data).
Definition decrypt_with_key (ciphertext key nonce : bytes) : result CryptoError bytes :=
  ok_or AeadDecryptionFailure (aead_decrypt key nonce ciphertext).

Definition encode_key_data (data : bytes) : string := String.concat NL (of_chars <$> chunks 64 (hex_chars data)).

Definition remove_whitespace (s : string) : string :=
  of_chars (concat (List.filter (fun u => negb (is_whitespace u)) (utf8_chars (chars s)))).

(** The error names the first character and position 0 whatever was wrong. *)
Definition decode_hex_string (hex_str : string) : result CryptoError bytes :=
  let hex := remove_whitespace hex_str in
  if negb (str_len hex mod 2 =? 0) then Err InvalidKeyFileHexOddLength
  else
    map_err (fun error_str =>
      if contains_str "Invalid character" error_str then
        match utf8_chars (chars hex) with
        | ch :: _ => InvalidKeyFileHexChar ch 0
        | [] => InvalidKeyFileHexChar ["?"%char] 0
        end
      else InvalidKeyFileHexChar ["?"%char] 0) (hex_decode hex).

Definition decode_key_data (data : string) : result CryptoError bytes := decode_hex_string data.

(** ** The texts *)

Definition level_name (l : SecurityLevel) : string :=
  match l with LevelStandard => "standard" | LevelHigh => "high" | LevelMaximum => "maximum" end.

Definition encrypted_text (security_level : SecurityLevel) (salt nonce ciphertext : bytes) : string :=
  ENCRYPTED_SIGNING_KEY_HEADER +:+ NL +:+
  "version: " +:+ pretty CURRENT_VERSION +:+ NL +:+
  "security_level: " +:+ level_name security_level +:+ NL +:+
  "salt: " +:+ of_chars (hex_chars salt) +:+ NL +:+
  "nonce: " +:+ of_chars (hex_chars nonce) +:+ NL +:+
  "ciphertext: " +:+ encode_key_data ciphertext +:+ NL +:+
  ENCRYPTED_SIGNING_KEY_FOOTER +:+ NL.

Definition plain_text (header footer : string) (key : bytes) : string :=
  header +:+ NL +:+ encode_key_data key +:+ NL +:+ footer +:+ NL.

(** The content [save_signing_key] writes. *)
Definition signing_key_text (key : bytes) (passphrase : option string) (security_level : SecurityLevel)
    (salt nonce : bytes) : outcome (result CryptoError string) :=
  match passphrase with
  | Some pass =>
      fbind (derive_key_from_passphrase pass salt security_level) (fun derived_key =>
      Val (ciphertext ← encrypt_with_key key derived_key nonce;
           Ok (encrypted_text security_level salt nonce ciphertext)))
  | None => Val (Ok (plain_text SIGNING_KEY_HEADER SIGNING_KEY_FOOTER key))
  end.

(** ** Saving *)

#[local] Open Scope io_scope.

Definition on_path {A} (path : string) (m : io (result io_error A)) : io (result CryptoError A) :=
  io_map (map_err (CryptoIo path)) m.

(** To a temporary file, its permissions, then the rename. *)
Definition save_text (path content : string) : io (result CryptoError unit) :=
  (let temp_path := with_extension path "tmp" in
   on_path temp_path (write temp_path (as_bytes content)) ;;?
   on_path temp_path (set_permissions temp_path) ;;?
   on_path path (rename temp_path path)).

Definition save_signing_key (key : bytes) (path : string) (passphrase : option string)
    (security_level : SecurityLevel) (salt nonce : bytes) : io (outcome (result CryptoError unit)) :=
  match signing_key_text key passphrase security_level salt nonce with
  | Panic => fun w => (Panic, w)
  | Val (Err e) => fun w => (Val (Err e), w)
  | Val (Ok content) => io_map Val (save_text path content)
  end.

Definition save_verifying_key (key : bytes) (path : string) : io (result CryptoError unit) :=
  save_text path (plain_text VERIFYING_KEY_HEADER VERIFYING_KEY_FOOTER key).

(** ** Parsing *)

Record key_fields := {
  kf_version : option Z;
  kf_security_level : option SecurityLevel;
  kf_salt : option bytes;
  kf_nonce : option bytes;
  kf_ciphertext_lines : list string;
}.
Definition no_fields : key_fields :=
  {| kf_version := None; kf_security_level := None; kf_salt := None; kf_nonce := None; kf_ciphertext_lines := [] |}.

Definition level_from_name (s : string) : result CryptoError SecurityLevel :=
  if bool_decide (s = "standard") then Ok LevelStandard
  else if bool_decide (s = "high") then Ok LevelHigh
  else if bool_decide (s = "maximum") then Ok LevelMaximum
  else Err InvalidKeyFileFormat.

(** The body of the loop over the lines. *)
Definition parse_key_line (f : key_fields) (raw : string) : result CryptoError key_fields :=
  let line := trim raw in
  let more := fun l => {| kf_version := kf_version f; kf_security_level := kf_security_level f; kf_salt := kf_salt f;
                          kf_nonce := kf_nonce f; kf_ciphertext_lines := kf_ciphertext_lines f ++ [l] |} in
  if str_is_empty line then Ok f
  else
    match strip_prefix "version:" line with
    | Some v =>
        x ← ok_or (InvalidKeyFileVersion CURRENT_VERSION 0) (parse_unsigned u8_max (trim v));
        Ok {| kf_version := Some x; kf_security_level := kf_security_level f; kf_salt := kf_salt f;
              kf_nonce := kf_nonce f; kf_ciphertext_lines := kf_ciphertext_lines f |}
    | None =>
    match strip_prefix "security_level:" line with
    | Some sl =>
        x ← level_from_name (trim sl);
        Ok {| kf_version := kf_version f; kf_security_level := Some x; kf_salt := kf_salt f;
              kf_nonce := kf_nonce f; kf_ciphertext_lines := kf_ciphertext_lines f |}
    | None =>
    match strip_prefix "salt:" line with
    | Some s =>
        x ← map_err (fun _ => InvalidKeyFileSalt "invalid hex encoding") (decode_hex_string (trim s));
        Ok {| kf_version := kf_version f; kf_security_level := kf_security_level f; kf_salt := Some x;
              kf_nonce := kf_nonce f; kf_ciphertext_lines := kf_ciphertext_lines f |}
    | None =>
    match strip_prefix "nonce:" line with
    | Some n =>
        x ← map_err (fun _ => InvalidKeyFileNonce "invalid hex encoding") (decode_hex_string (trim n));
        Ok {| kf_version := kf_version f; kf_security_level := kf_security_level f; kf_salt := kf_salt f;
              kf_nonce := Some x; kf_ciphertext_lines := kf_ciphertext_lines f |}
    | None =>
    match strip_prefix "ciphertext:" line with
    | Some c => Ok (more (trim c))
    | None => if negb (starts_with "-----" line) then Ok (more line) else Ok f
    end
    end
    end
    end
    end.

Fixpoint parse_key_lines (f : key_fields) (ls : list string) : result CryptoError key_fields :=
  match ls with
  | [] => Ok f
  | l :: ls => f ← parse_key_line f l; parse_key_lines f ls
  end.

Definition parse_encrypted_key_metadata (data : string)
    : result CryptoError (Z * SecurityLevel * bytes * bytes * bytes) :=
  f ← parse_key_lines no_fields (lines data);
  version ← ok_or (InvalidKeyFileVersion CURRENT_VERSION 0) (kf_version f);
  let security_level := default LevelStandard (kf_security_level f) in
  salt ← ok_or (InvalidKeyFileSalt "missing salt field") (kf_salt f);
  nonce ← ok_or (InvalidKeyFileNonce "missing nonce field") (kf_nonce f);
  ciphertext ← decode_key_data (String.concat NL (kf_ciphertext_lines f));
  Ok (version, security_level, salt, nonce, ciphertext).

(** ** Loading *)

(** [try_into] of a vector to an array. *)
Definition exactly {E} (n : Z) (e : E) (b : bytes) : result E bytes := if lenZ b =? n then Ok b else Err e.

(** The text between header and footer, trimmed. *)
Definition unwrap_text (header footer content : string) : result CryptoError string :=
  trim <$> ok_or InvalidKeyFileFormat (strip_prefix header content ≫= strip_suffix footer).

Definition plain_key (data : string) : result CryptoError bytes :=
  decoded ← decode_key_data data;
  exactly 32 (InvalidKeyFileHexLength 32 (lenZ decoded)) decoded.

Definition decrypt_key (data : string) (passphrase : option string) : outcome (result CryptoError bytes) :=
  fbind (Val (m ← parse_encrypted_key_metadata data;
              let '(version, security_level, salt, nonce, ciphertext) := m in
              if negb (version =? CURRENT_VERSION) then Err (InvalidKeyFileVersion CURRENT_VERSION version)
              else
                pass ← ok_or PassphraseRequired passphrase;
                salt ← exactly 16 (InvalidKeyFileSalt "expected 16 bytes, got different length") salt;
                nonce ← exactly 12 (InvalidKeyFileNonce "expected 12 bytes, got different length") nonce;
                Ok (pass, security_level, salt, nonce, ciphertext)))
    (fun x => let '(pass, security_level, salt, nonce, ciphertext) := x in
      fbind (derive_key_from_passphrase pass salt security_level) (fun derived_key =>
      Val (decrypted ← decrypt_with_key ciphertext derived_key nonce;
           exactly 32 (InvalidKeyFileHexLength 32 (lenZ decrypted)) decrypted))).

Definition parse_signing_key (text : string) (passphrase : option string) : outcome (result CryptoError bytes) :=
  let content := trim text in
  if starts_with ENCRYPTED_SIGNING_KEY_HEADER content then
    fbind (Val (unwrap_text ENCRYPTED_SIGNING_KEY_HEADER ENCRYPTED_SIGNING_KEY_FOOTER content)) (fun data =>
      if contains_str "version:" data then decrypt_key data passphrase else Val (Err LegacyKeyFormat))
  else if starts_with SIGNING_KEY_HEADER content then
    Val (data ← unwrap_text SIGNING_KEY_HEADER SIGNING_KEY_FOOTER content; plain_key data)
  else Val (Err InvalidKeyFileFormat).

Definition load_signing_key (path : string) (passphrase : option string) : io (outcome (result CryptoError bytes)) :=
  io_map (fun r => match map_err (CryptoIo path) r with
                   | Ok text => parse_signing_key text passphrase
                   | Err e => Val (Err e)
                   end) (read_to_string path).

Definition parse_verifying_key (text : string) : result CryptoError bytes :=
  data ← unwrap_text VERIFYING_KEY_HEADER VERIFYING_KEY_FOOTER (trim text);
  key ← plain_key data;
  if point_valid key then Ok key else Err InvalidVerifyingKey.

Definition load_verifying_key (path : string) : io (result CryptoError bytes) :=
  io_map (fun r => text ← map_err (CryptoIo path) r; parse_verifying_key text) (read_to_string path).
End Keys.
