(* ===== verification/KeyFacts.v ===== *)
(** * KeyFacts: what the key files guarantee

    A saved key is the key that is loaded, encrypted or not; without its
    passphrase an encrypted key is refused; a file is replaced as a whole. *)

From S2P Require Import Prelude Text Version Validation Fs Crypto DbModels Sql System KeyFiles.

#[local] Open Scope Z_scope.

(** ** ASCII text *)

Definition ws1 (c : ascii) : bool := is_whitespace [c].
Definition ascii_text (l : list ascii) : Prop := Forall (fun c => code c < 128) l.
(** Printable, not blank. *)
Definition visible (c : ascii) : Prop := 33 <= code c < 127.

Lemma visible_ws c : visible c -> ws1 c = false.
Proof.
  unfold visible. destruct c as [[] [] [] [] [] [] [] []]; vm_compute; intros [H1 H2]; try done; by destruct H1 || destruct H2.
Qed.

Lemma visible_ascii l : Forall visible l -> ascii_text l.
Proof. intros Hl. eapply Forall_impl; [exact Hl|]. intros c [_ Hc]. cbn. lia. Qed.

Lemma utf8_chars_text l : ascii_text l -> utf8_chars l = (fun c => [c]) <$> l.
Proof. intros Hl. apply utf8_chars_ascii. eapply Forall_impl; [exact Hl|]. intros c Hc. by apply Z.ltb_lt. Qed.

Lemma drop_ws_pad pre l :
  Forall (fun c => ws1 c = true) pre -> (forall c, head l = Some c -> ws1 c = false) ->
  drop_ws ((fun c => [c]) <$> (pre ++ l)) = (fun c => [c]) <$> l.
Proof.
  intros Hp Hl. induction Hp as [|c pre Hc _ IH]; cbn [app fmap list_fmap].
  - destruct l as [|c l]; [done|]. cbn [fmap list_fmap drop_ws]. change (is_whitespace [c]) with (ws1 c).
    by rewrite (Hl c eq_refl).
  - cbn [drop_ws]. change (is_whitespace [c]) with (ws1 c). by rewrite Hc.
Qed.

(** Trimming removes blanks around a text that starts and ends visibly. *)
Lemma trim_pad pre l post :
  Forall (fun c => ws1 c = true) pre -> Forall (fun c => ws1 c = true) post ->
  (forall c, head l = Some c -> visible c) -> (forall c, last l = Some c -> visible c) ->
  ascii_text (pre ++ l ++ post) -> l <> [] -> trim (of_chars (pre ++ l ++ post)) = of_chars l.
Proof.
  intros Hpre Hpost Hh Hl Ha Hn. unfold trim. rewrite chars_of_chars, utf8_chars_text by done. f_equal.
  rewrite drop_ws_pad; [|done|].
  2: { intros c Hc. apply visible_ws, Hh. destruct l; [done|]. by injection Hc as ->. }
  rewrite <- fmap_reverse, reverse_app, drop_ws_pad.
  - rewrite <- fmap_reverse, reverse_involutive. apply concat_singles.
  - by apply Forall_reverse.
  - intros c Hc. apply visible_ws, Hl. by rewrite <- head_reverse.
Qed.

Lemma head_last_visible l : Forall visible l ->
  (forall c, head l = Some c -> visible c) /\ (forall c, last l = Some c -> visible c).
Proof.
  intros Hl. rewrite Forall_forall in Hl. split; intros c Hc; apply Hl.
  - destruct l; [done|]. injection Hc as ->. by left.
  - apply last_Some in Hc as [l' ->]. set_solver.
Qed.

Lemma trim_visible s : Forall visible (chars s) -> trim s = s.
Proof.
  intros Hs. destruct (decide (chars s = [])) as [E|E].
  { apply (f_equal of_chars) in E. rewrite of_chars_chars in E. by subst. }
  destruct (head_last_visible _ Hs) as [H1 H2].
  rewrite <- (of_chars_chars s) at 1. rewrite <- (app_nil_r (chars s)), <- (app_nil_l (chars s ++ [])).
  rewrite trim_pad; rewrite ?app_nil_l, ?app_nil_r; auto using visible_ascii. apply of_chars_chars.
Qed.

(** A field and its value, with a blank between them. *)
Lemma trim_blank s : Forall visible (chars s) -> s <> "" -> trim (" " +:+ s) = s.
Proof.
  intros Hs Hn. destruct (head_last_visible _ Hs) as [H1 H2].
  assert (" " +:+ s = of_chars ([" "%char] ++ chars s ++ [])) as ->.
  { apply (inj chars). by rewrite chars_of_chars, app_nil_r, chars_app. }
  rewrite trim_pad; [apply of_chars_chars|by repeat constructor|done|done|done| |].
  - rewrite app_nil_r. constructor; [by vm_compute|by apply visible_ascii].
  - intros E. apply Hn, (inj chars). by rewrite E.
Qed.

(** Lines without line feeds. *)
Definition one_line (s : string) : Prop := Forall (fun c => 32 <= code c < 128) (chars s).
#[local] Instance one_line_dec s : Decision (one_line s).
Proof. unfold one_line. apply _. Defined.

Lemma NL_chars : chars NL = [chr 10].
Proof. done. Qed.

Lemma concat_chars x y ls : String.concat NL (x :: y :: ls) = x +:+ NL +:+ String.concat NL (y :: ls).
Proof. done. Qed.

Lemma split_lines ls acc :
  Forall one_line ls -> ls <> [] ->
  split_on (fun c => code c =? 10) acc (chars (String.concat NL ls)) =
  match ls with [] => [] | x :: ls => of_chars (reverse acc ++ chars x) :: ls end.
Proof.
  intros Hls. revert acc. induction Hls as [|x ls Hx Hls IH]; intros acc Hn; [done|].
  assert (forall acc k, split_on (fun c => code c =? 10) acc (chars x ++ k) =
    split_on (fun c => code c =? 10) (reverse (chars x) ++ acc) k) as Hstep.
  { clear IH. unfold one_line in Hx. induction Hx as [|c l Hc _ IHl]; intros a k; [done|]. cbn [app split_on].
    destruct (Z.eqb_spec (code c) 10); [lia|]. rewrite IHl. by rewrite reverse_cons, <- app_assoc. }
  destruct ls as [|y ls].
  - cbn [String.concat]. rewrite <- (app_nil_r (chars x)), Hstep. cbn [split_on]. by rewrite reverse_app, reverse_involutive, app_nil_r.
  - rewrite concat_chars, !chars_app, Hstep, NL_chars. cbn [app split_on].
    change (code (chr 10) =? 10) with true. cbn iota. rewrite IH by done. cbn [reverse rev_append app].
    rewrite of_chars_chars. by rewrite reverse_app, reverse_involutive.
Qed.

Lemma strip_cr_line s : one_line s -> strip_cr s = s.
Proof.
  intros Hs. unfold strip_cr. destruct (reverse (chars s)) as [|c r] eqn:E; [done|].
  assert (c ∈ chars s) as Hc by (rewrite <- elem_of_reverse, E; by left).
  unfold one_line in Hs. rewrite Forall_forall in Hs. specialize (Hs c Hc). destruct (Z.eqb_spec (code c) 13); [lia|done].
Qed.

Lemma lines_concat ls :
  Forall one_line ls -> ls <> [] -> last ls <> Some "" -> lines (String.concat NL ls) = ls.
Proof.
  intros Hls Hn Hlast. unfold lines. rewrite split_lines by done. destruct ls as [|x ls]; [done|].
  change (reverse [] ++ chars x) with (chars x). rewrite of_chars_chars. rewrite <- head_reverse in Hlast.
  destruct (reverse (x :: ls)) as [|l r] eqn:E.
  { apply (f_equal reverse) in E. by rewrite reverse_involutive in E. }
  unfold str_is_empty. rewrite bool_decide_eq_false_2 by (intros ->; done).
  assert (strip_cr <$> r = r) as ->.
  { assert (Forall one_line r) as Hr.
    { apply Forall_reverse in Hls. rewrite E in Hls. by inversion Hls. }
    clear -Hr. induction Hr as [|y r Hy _ IH]; [done|]. cbn. by rewrite IH, strip_cr_line. }
  by rewrite <- E, reverse_involutive.
Qed.

(** ** Hexadecimal fields *)

Lemma hexdigit_visible c : is_ascii_hexdigit c = true -> visible c.
Proof. unfold visible. by destruct c as [[] [] [] [] [] [] [] []]; vm_compute. Qed.

Lemma hex_visible b : Forall visible (hex_chars b).
Proof. eapply Forall_impl; [apply hex_chars_hexdigit|]. apply hexdigit_visible. Qed.

Lemma remove_whitespace_ascii l :
  ascii_text l -> remove_whitespace (of_chars l) = of_chars (List.filter (fun c => negb (ws1 c)) l).
Proof.
  intros Hl. unfold remove_whitespace. rewrite chars_of_chars, utf8_chars_text by done. f_equal. clear Hl.
  induction l as [|c l IH]; [done|]. cbn [fmap list_fmap List.filter]. change (is_whitespace [c]) with (ws1 c).
  destruct (ws1 c); cbn [negb]; [done|]. cbn [concat app]. by rewrite IH.
Qed.

Lemma filter_visible l : Forall visible l -> List.filter (fun c => negb (ws1 c)) l = l.
Proof. induction 1 as [|c l Hc _ IH]; [done|]. cbn [List.filter]. rewrite visible_ws by done. cbn [negb]. by rewrite IH. Qed.

Lemma decode_hex_blocks {KC : KeyCrypto} {KL : KeyCryptoLaws KC} b l :
  ascii_text l -> List.filter (fun c => negb (ws1 c)) l = hex_chars b -> decode_hex_string (of_chars l) = Ok b.
Proof.
  intros Ha Hf. unfold decode_hex_string. rewrite remove_whitespace_ascii, Hf by done. cbn zeta.
  assert (str_len (of_chars (hex_chars b)) mod 2 = 0) as ->.
  { unfold str_len, lenZ. rewrite chars_of_chars, length_hex_chars, Nat2Z.inj_mul, Z.mul_comm. apply Z_mod_mult. }
  cbn. by rewrite hex_decode_encode.
Qed.

Lemma decode_hex_field {KC : KeyCrypto} {KL : KeyCryptoLaws KC} b : decode_hex_string (of_chars (hex_chars b)) = Ok b.
Proof. pose proof (hex_visible b). apply decode_hex_blocks; [by apply visible_ascii|by apply filter_visible]. Qed.

(** The lines of encoded data. *)
Definition hex_lines (b : bytes) : list string := of_chars <$> chunks 64 (hex_chars b).

Lemma chunks_go_concat {A} fuel n (l : list A) : (0 < n)%nat -> (length l <= fuel)%nat -> concat (chunks_go fuel n l) = l.
Proof.
  intros Hn. revert l; induction fuel as [|fuel IH]; intros l Hl; [destruct l; cbn in *; [done|lia]|].
  destruct l as [|x l]; [done|]. cbn [chunks_go concat]. rewrite IH; [apply take_drop|].
  rewrite length_drop. cbn in *. lia.
Qed.

Lemma hex_lines_Forall (P : ascii -> Prop) b :
  Forall P (hex_chars b) -> Forall (fun s => Forall P (chars s) /\ s <> "") (hex_lines b).
Proof.
  unfold hex_lines, chunks. generalize (hex_chars b). intros l. generalize (length l). intros fuel.
  revert l; induction fuel as [|fuel IH]; intros l Hl; [constructor|].
  destruct l as [|c l]; [constructor|]. cbn [chunks_go fmap list_fmap]. constructor; [|by apply IH, Forall_drop].
  rewrite chars_of_chars. split; [by apply Forall_take|]. done.
Qed.

Lemma hex_lines_visible b : Forall (fun s => Forall visible (chars s) /\ s <> "") (hex_lines b).
Proof. apply hex_lines_Forall, hex_visible. Qed.

Lemma concat_filter ls :
  Forall (fun s => Forall visible (chars s)) ls ->
  ascii_text (chars (String.concat NL ls)) /\
  List.filter (fun c => negb (ws1 c)) (chars (String.concat NL ls)) = concat (chars <$> ls).
Proof.
  induction 1 as [|x ls Hx Hls IH]; [by split; [constructor|]|]. destruct ls as [|y ls].
  - cbn. rewrite app_nil_r. split; [by apply visible_ascii|by apply filter_visible].
  - rewrite concat_chars, !chars_app, NL_chars. destruct IH as [IH1 IH2]. split.
    + apply Forall_app. split; [by apply visible_ascii|]. by constructor.
    + rewrite !List.filter_app, IH2, filter_visible by done. done.
Qed.

Lemma decode_hex_lines {KC : KeyCrypto} {KL : KeyCryptoLaws KC} b :
  decode_key_data (String.concat NL (hex_lines b)) = Ok b.
Proof.
  unfold decode_key_data. destruct (concat_filter (hex_lines b)) as [Ha Hf].
  { eapply Forall_impl; [apply hex_lines_visible|]. by intros s [? _]. }
  rewrite <- (of_chars_chars (String.concat NL (hex_lines b))). apply decode_hex_blocks; [done|]. rewrite Hf.
  unfold hex_lines. rewrite <- list_fmap_compose, (list_fmap_ext _ id), list_fmap_id.
  - apply chunks_go_concat; lia.
  - intros _ l _. apply chars_of_chars.
Qed.

(** ** Headers and footers *)

Record delimiter (s : string) : Prop := {
  del_ascii : ascii_text (chars s);
  del_head : head (chars s) = Some "-"%char;
  del_last : last (chars s) = Some "-"%char;
}.

Lemma dash_visible : visible "-"%char.
Proof. by vm_compute. Qed.

Lemma delimiters : Forall delimiter
  [SIGNING_KEY_HEADER; SIGNING_KEY_FOOTER; ENCRYPTED_SIGNING_KEY_HEADER; ENCRYPTED_SIGNING_KEY_FOOTER;
   VERIFYING_KEY_HEADER; VERIFYING_KEY_FOOTER].
Proof. repeat constructor; try reflexivity; apply (bool_decide_unpack _); vm_compute; exact I. Qed.

Lemma strip_prefix_app p s : strip_prefix p (p +:+ s) = Some s.
Proof. by apply strip_prefix_Some. Qed.

Lemma strip_suffix_app p s : strip_suffix p (s +:+ p) = Some s.
Proof.
  unfold strip_suffix, ends_with. rewrite !chars_app, reverse_app.
  assert (prefixb (reverse (chars p)) (reverse (chars p) ++ reverse (chars s)) = true) as -> by (apply prefixb_spec; eauto).
  rewrite length_app, Nat.add_sub, take_app_length. by rewrite of_chars_chars.
Qed.

Definition enclosed (header footer data : string) : string := header +:+ NL +:+ data +:+ NL +:+ footer.

(** A body that trimming leaves alone. *)
Record body_text (s : string) : Prop := {
  bt_ascii : ascii_text (chars s);
  bt_head c : head (chars s) = Some c -> visible c;
  bt_last c : last (chars s) = Some c -> visible c;
  bt_nonempty : chars s <> [];
}.

Lemma head_app_ne {A} (l k : list A) : l <> [] -> head (l ++ k) = head l.
Proof. by destruct l. Qed.
Lemma last_app_ne {A} (l k : list A) : k <> [] -> last (l ++ k) = last k.
Proof. intros Hk. rewrite last_app. by destruct (last k) eqn:E; [|apply last_None in E]. Qed.

Lemma enclosed_body h f d : delimiter h -> delimiter f -> body_text d -> body_text (enclosed h f d).
Proof.
  intros Hh Hf Hd. unfold enclosed. assert (chars h <> []) as Hn by (intros E; pose proof (del_head _ Hh) as E1; by rewrite E in E1).
  assert (chars f <> []) as Hn' by (intros E; pose proof (del_head _ Hf) as E1; by rewrite E in E1).
  split; rewrite ?chars_app, ?NL_chars.
  - repeat (apply Forall_app; split); try apply Hh; try apply Hf; try apply Hd; by repeat constructor.
  - rewrite head_app_ne by done. rewrite (del_head _ Hh). intros c [= <-]. apply dash_visible.
  - rewrite !app_assoc, last_app_ne by done. rewrite (del_last _ Hf). intros c [= <-]. apply dash_visible.
  - by destruct (chars h).
Qed.

Lemma trim_newline s : body_text s -> trim (s +:+ NL) = s.
Proof.
  intros Hs. rewrite <- (of_chars_chars (s +:+ NL)), chars_app, NL_chars, <- (app_nil_l (chars s ++ _)).
  rewrite trim_pad; [apply of_chars_chars|done|by repeat constructor|apply Hs|apply Hs| |apply Hs].
  cbn [app]. apply Forall_app. split; [apply Hs|by repeat constructor].
Qed.

Lemma unwrap_enclosed h f d : body_text d -> unwrap_text h f (enclosed h f d) = Ok d.
Proof.
  intros Hd. unfold unwrap_text, enclosed. rewrite strip_prefix_app. cbn [mbind option_bind].
  assert (NL +:+ d +:+ NL +:+ f = (NL +:+ d +:+ NL) +:+ f) as ->.
  { apply (inj chars). rewrite !chars_app. by rewrite <- !app_assoc. }
  rewrite strip_suffix_app. cbn [ok_or fmap result_fmap]. f_equal.
  rewrite <- (of_chars_chars (NL +:+ d +:+ NL)), !chars_app, NL_chars.
  rewrite trim_pad; [apply of_chars_chars|by repeat constructor|by repeat constructor|apply Hd|apply Hd| |apply Hd].
  constructor; [by vm_compute|]. apply Forall_app. split; [apply Hd|by repeat constructor].
Qed.

(** ** Saved texts are read back *)

Section Facts.
Context {KC : KeyCrypto} {KL : KeyCryptoLaws KC}.

Lemma hex_lines_nonempty b : b <> [] -> hex_lines b <> [].
Proof.
  intros Hb E. pose proof (decode_hex_lines (KC := KC) b) as Hd. rewrite E in Hd.
  pose proof (decode_hex_lines (KC := KC) []) as Hd'. change (hex_lines []) with (@nil string) in Hd'. congruence.
Qed.

Lemma concat_body ls :
  Forall one_line ls -> (exists x, head ls = Some x /\ exists c, head (chars x) = Some c /\ visible c) ->
  (exists x, last ls = Some x /\ exists c, last (chars x) = Some c /\ visible c) -> body_text (String.concat NL ls).
Proof.
  intros Hls (x & Hx & c & Hc & Hv) (y & Hy & e & He & Hve).
  assert (forall ls, Forall one_line ls -> ascii_text (chars (String.concat NL ls))) as Ha.
  { clear. induction 1 as [|x ls Hx Hls IH]; [constructor|].
    assert (ascii_text (chars x)) by (eapply Forall_impl; [exact Hx|]; cbn; lia).
    destruct ls as [|y ls]; [done|]. rewrite concat_chars, !chars_app, NL_chars. apply Forall_app. split; [done|].
    by constructor. }
  assert (forall ls y, last ls = Some y -> chars y <> [] -> last (chars (String.concat NL ls)) = last (chars y)) as Hl.
  { clear. induction ls as [|x [|z ls] IH]; intros y Hy Hn; [done|by injection Hy as ->|].
    rewrite concat_chars, !chars_app, app_assoc, last_app_ne.
    - apply IH; [|done]. by rewrite last_cons_cons in Hy.
    - intros E. rewrite last_cons_cons in Hy. specialize (IH y Hy Hn). rewrite E in IH. cbn in IH.
      by destruct (last (chars y)) eqn:E2; [|apply last_None in E2]. }
  assert (chars y <> []) as Hyc by (by intros E; rewrite E in He).
  destruct ls as [|x' ls]; [done|]. injection Hx as ->.
  assert (head (chars (String.concat NL (x :: ls))) = Some c) as Hhead.
  { destruct ls as [|z ls]; [done|]. rewrite concat_chars, chars_app. destruct (chars x); [done|]. done. }
  split; [by apply Ha|intros c'; rewrite Hhead; by intros [= <-]| |intros E; by rewrite E in Hhead].
  intros c'. rewrite (Hl _ _ Hy Hyc), He. by intros [= <-].
Qed.

Lemma visible_line s : Forall visible (chars s) -> one_line s.
Proof. intros Hs. eapply Forall_impl; [exact Hs|]. intros c [? ?]. cbn. lia. Qed.

Lemma last_visible s : Forall visible (chars s) -> s <> "" -> exists c, last (chars s) = Some c /\ visible c.
Proof.
  intros Hs Hn. destruct (last (chars s)) as [c|] eqn:E.
  - exists c. split; [done|]. by apply (head_last_visible _ Hs).
  - apply last_None in E. exfalso. apply Hn, (inj chars). by rewrite E.
Qed.

Lemma plain_body b : b <> [] -> body_text (encode_key_data b).
Proof.
  intros Hb. pose proof (hex_lines_visible b) as Hv. pose proof (hex_lines_nonempty b Hb) as Hn.
  change (encode_key_data b) with (String.concat NL (hex_lines b)). rewrite Forall_forall in Hv. apply concat_body.
  - apply Forall_forall. intros s Hs. by apply visible_line, Hv.
  - destruct (hex_lines b) as [|x l]; [done|]. exists x. split; [done|]. destruct (Hv x) as [H1 H2]; [by left|].
    destruct (chars x) as [|c k] eqn:E; [exfalso; apply H2, (inj chars); by rewrite E|]. exists c. split; [done|].
    by inversion H1.
  - destruct (last (hex_lines b)) as [x|] eqn:E; [|by apply last_None in E]. exists x. split; [done|].
    apply last_visible; apply Hv; apply last_Some in E as [l' ->]; set_solver.
Qed.

Lemma plain_text_enclosed h f b : plain_text h f b = enclosed h f (encode_key_data b) +:+ NL.
Proof. unfold plain_text, enclosed. apply (inj chars). rewrite !chars_app. by rewrite <- !app_assoc. Qed.

Lemma plain_key_roundtrip b : lenZ b = 32 -> plain_key (encode_key_data b) = Ok b.
Proof.
  intros Hb. unfold plain_key. change (encode_key_data b) with (String.concat NL (hex_lines b)).
  rewrite decode_hex_lines. cbn [mbind result_bind]. unfold exactly. by rewrite Hb.
Qed.

(** ** The encrypted form *)

Definition encrypted_lines (l : SecurityLevel) (salt nonce : bytes) (first : string) (more : list string) : list string :=
  ["version: 1"; "security_level: " +:+ level_name l; "salt: " +:+ of_chars (hex_chars salt);
   "nonce: " +:+ of_chars (hex_chars nonce); "ciphertext: " +:+ first] ++ more.

Lemma concat_prefix p x ls : p +:+ String.concat NL (x :: ls) = String.concat NL ((p +:+ x) :: ls).
Proof.
  destruct ls as [|y ls]; [done|]. rewrite !concat_chars. apply (inj chars). rewrite !chars_app. by rewrite <- app_assoc.
Qed.

Lemma encrypted_text_enclosed l salt nonce c x ls :
  hex_lines c = x :: ls ->
  encrypted_text l salt nonce c =
  enclosed ENCRYPTED_SIGNING_KEY_HEADER ENCRYPTED_SIGNING_KEY_FOOTER
    (String.concat NL (encrypted_lines l salt nonce x ls)) +:+ NL.
Proof.
  intros Hc. unfold encrypted_text, enclosed, encrypted_lines. cbn [app]. rewrite !concat_chars, <- concat_prefix, <- Hc.
  change (encode_key_data c) with (String.concat NL (hex_lines c)). change (pretty CURRENT_VERSION) with "1".
  apply (inj chars). rewrite !chars_app. rewrite <- !app_assoc. reflexivity.
Qed.

Lemma encrypted_one_lines l salt nonce c x ls :
  hex_lines c = x :: ls -> Forall one_line (encrypted_lines l salt nonce x ls).
Proof.
  intros Hc. pose proof (hex_lines_visible c) as Hv. rewrite Hc in Hv.
  apply Forall_cons in Hv as [[Hx Hxn] Hls].
  assert (forall p b, one_line p -> one_line (p +:+ of_chars (hex_chars b))) as Hf.
  { intros p b Hp. unfold one_line. rewrite chars_app, chars_of_chars. apply Forall_app. split; [done|].
    eapply Forall_impl; [apply hex_visible|]. intros a [? ?]. cbn. lia. }
  assert (forall p, one_line p -> one_line (p +:+ x)) as Hfx.
  { intros p Hp. unfold one_line. rewrite chars_app. apply Forall_app. split; [done|]. by apply visible_line. }
  unfold encrypted_lines. apply Forall_app. split.
  - constructor; [by apply (bool_decide_unpack _); vm_compute|].
      constructor; [by destruct l; apply (bool_decide_unpack _); vm_compute|].
      constructor; [by apply Hf, (bool_decide_unpack _); vm_compute|].
      constructor; [by apply Hf, (bool_decide_unpack _); vm_compute|].
      constructor; [by apply Hfx, (bool_decide_unpack _); vm_compute|constructor].
  - eapply Forall_impl; [exact Hls|]. intros s [Hs _]. by apply visible_line.
Qed.

Lemma encrypted_body l salt nonce c x ls :
  hex_lines c = x :: ls -> body_text (String.concat NL (encrypted_lines l salt nonce x ls)).
Proof.
  intros Hc. apply concat_body; [by eapply encrypted_one_lines|..];
    pose proof (hex_lines_visible c) as Hv; rewrite Hc in Hv; apply Forall_cons in Hv as [[Hx Hxn] Hls].
  - exists "version: 1". split; [done|]. by exists "v"%char.
  - unfold encrypted_lines. destruct (last ls) as [y|] eqn:E.
    + exists y. rewrite last_app, E. split; [done|]. apply last_visible; apply last_Some in E as [l' ->];
        rewrite Forall_forall in Hls; apply Hls; set_solver.
    + apply last_None in E as ->. exists ("ciphertext: " +:+ x). split; [done|]. rewrite chars_app, last_app_ne.
      * by apply last_visible.
      * intros E. apply Hxn, (inj chars). by rewrite E.
Qed.

(** A line of ciphertext is none of the fields. *)
Lemma no_field p x :
  Forall (fun c => is_ascii_hexdigit c = true) (chars x) -> existsb (fun c => negb (is_ascii_hexdigit c)) (chars p) = true ->
  starts_with p x = false.
Proof.
  intros Hx (c & Hc & Hn%negb_true_iff)%existsb_exists. apply not_true_iff_false. intros [t ->]%starts_with_spec.
  rewrite chars_app in Hx. apply Forall_app in Hx as [Hp _]. rewrite Forall_forall in Hp.
  specialize (Hp c). rewrite <- list_elem_of_In in Hc. rewrite Hp in Hn by done. done.
Qed.

Lemma parse_ciphertext_line v l s n cs x :
  Forall (fun c => is_ascii_hexdigit c = true) (chars x) -> x <> "" ->
  parse_key_line (KC := KC) {| kf_version := v; kf_security_level := l; kf_salt := s; kf_nonce := n; kf_ciphertext_lines := cs |} x =
  Ok {| kf_version := v; kf_security_level := l; kf_salt := s; kf_nonce := n; kf_ciphertext_lines := cs ++ [x] |}.
Proof.
  intros Hx Hn. unfold parse_key_line. rewrite trim_visible.
  2: { eapply Forall_impl; [exact Hx|]. apply hexdigit_visible. }
  cbn zeta. unfold str_is_empty. rewrite bool_decide_eq_false_2 by done. unfold strip_prefix.
  rewrite !no_field by done. done.
Qed.

Lemma parse_ciphertext_lines v l s n cs ls :
  Forall (fun x => Forall (fun c => is_ascii_hexdigit c = true) (chars x) /\ x <> "") ls ->
  parse_key_lines (KC := KC) {| kf_version := v; kf_security_level := l; kf_salt := s; kf_nonce := n; kf_ciphertext_lines := cs |} ls =
  Ok {| kf_version := v; kf_security_level := l; kf_salt := s; kf_nonce := n; kf_ciphertext_lines := cs ++ ls |}.
Proof.
  intros Hls. revert cs. induction Hls as [|x ls [Hx Hn] _ IH]; intros cs; cbn [parse_key_lines]; [by rewrite app_nil_r|].
  rewrite parse_ciphertext_line by done. cbn [mbind result_bind]. rewrite IH. by rewrite <- app_assoc.
Qed.

(** A line with a name, a blank and a visible value. *)
Lemma trim_field p x :
  one_line p -> (exists c, head (chars p) = Some c /\ visible c) -> Forall visible (chars x) -> x <> "" ->
  trim (p +:+ x) = p +:+ x.
Proof.
  intros Hp (c & Hc & Hv) Hx Hn. destruct (last_visible x Hx Hn) as (e & He & Hve).
  assert (chars x <> []) as Hxn by (by intros E; rewrite E in He).
  rewrite <- (of_chars_chars (p +:+ x)) at 1. rewrite <- (app_nil_r (chars _)), <- (app_nil_l (_ ++ [])).
  rewrite trim_pad; [apply of_chars_chars|done|done| | | |]; rewrite ?app_nil_l, ?app_nil_r, ?chars_app.
  - rewrite head_app_ne by (by intros E; rewrite E in Hc). rewrite Hc. by intros ? [= <-].
  - rewrite last_app_ne by done. rewrite He. by intros ? [= <-].
  - apply Forall_app. split; [|by apply visible_ascii]. eapply Forall_impl; [exact Hp|]. cbn. lia.
  - by destruct (chars p).
Qed.

Lemma hex_text b : b <> [] -> Forall visible (chars (of_chars (hex_chars b))) /\ of_chars (hex_chars b) <> "".
Proof.
  intros Hb. rewrite chars_of_chars. split; [apply hex_visible|]. intros E. apply (f_equal chars) in E.
  rewrite chars_of_chars in E. apply (f_equal length) in E. rewrite length_hex_chars in E. by destruct b.
Qed.

Lemma parse_salt_line v l n cs b :
  b <> [] ->
  parse_key_line {| kf_version := v; kf_security_level := l; kf_salt := None; kf_nonce := n; kf_ciphertext_lines := cs |}
    ("salt: " +:+ of_chars (hex_chars b)) =
  Ok {| kf_version := v; kf_security_level := l; kf_salt := Some b; kf_nonce := n; kf_ciphertext_lines := cs |}.
Proof.
  intros Hb. destruct (hex_text b Hb) as [H1 H2]. unfold parse_key_line.
  rewrite trim_field; [|by apply (bool_decide_unpack _); vm_compute|by exists "s"%char|done|done]. cbn zeta.
  change (strip_prefix "salt:" ("salt: " +:+ of_chars (hex_chars b))) with
    (strip_prefix "salt:" ("salt:" +:+ (" " +:+ of_chars (hex_chars b)))).
  rewrite strip_prefix_app, trim_blank, decode_hex_field by done. reflexivity.
Qed.

Lemma parse_nonce_line v l s cs b :
  b <> [] ->
  parse_key_line {| kf_version := v; kf_security_level := l; kf_salt := s; kf_nonce := None; kf_ciphertext_lines := cs |}
    ("nonce: " +:+ of_chars (hex_chars b)) =
  Ok {| kf_version := v; kf_security_level := l; kf_salt := s; kf_nonce := Some b; kf_ciphertext_lines := cs |}.
Proof.
  intros Hb. destruct (hex_text b Hb) as [H1 H2]. unfold parse_key_line.
  rewrite trim_field; [|by apply (bool_decide_unpack _); vm_compute|by exists "n"%char|done|done]. cbn zeta.
  change (strip_prefix "nonce:" ("nonce: " +:+ of_chars (hex_chars b))) with
    (strip_prefix "nonce:" ("nonce:" +:+ (" " +:+ of_chars (hex_chars b)))).
  rewrite strip_prefix_app, trim_blank, decode_hex_field by done. reflexivity.
Qed.

Lemma parse_first_line v l s n cs x :
  Forall visible (chars x) -> x <> "" ->
  parse_key_line (KC := KC) {| kf_version := v; kf_security_level := l; kf_salt := s; kf_nonce := n; kf_ciphertext_lines := cs |}
    ("ciphertext: " +:+ x) =
  Ok {| kf_version := v; kf_security_level := l; kf_salt := s; kf_nonce := n; kf_ciphertext_lines := cs ++ [x] |}.
Proof.
  intros H1 H2. unfold parse_key_line.
  rewrite trim_field; [|by apply (bool_decide_unpack _); vm_compute|by exists "c"%char|done|done]. cbn zeta.
  change (strip_prefix "ciphertext:" ("ciphertext: " +:+ x)) with (strip_prefix "ciphertext:" ("ciphertext:" +:+ (" " +:+ x))).
  rewrite strip_prefix_app, trim_blank by done. reflexivity.
Qed.

Lemma parse_encrypted_lines l salt nonce c x ls :
  hex_lines c = x :: ls -> salt <> [] -> nonce <> [] ->
  parse_key_lines no_fields (encrypted_lines l salt nonce x ls) =
  Ok {| kf_version := Some 1; kf_security_level := Some l; kf_salt := Some salt; kf_nonce := Some nonce;
        kf_ciphertext_lines := x :: ls |}.
Proof.
  intros Hc Hs Hn. pose proof (hex_lines_Forall _ c (hex_chars_hexdigit c)) as Hh. rewrite Hc in Hh.
  apply Forall_cons in Hh as [[Hx Hxn] Hls].
  assert (Forall visible (chars x)) as Hxv by (eapply Forall_impl; [exact Hx|]; apply hexdigit_visible).
  unfold encrypted_lines. cbn [app parse_key_lines].
  assert (parse_key_line (KC := KC) no_fields "version: 1" = Ok {| kf_version := Some 1; kf_security_level := None;
    kf_salt := None; kf_nonce := None; kf_ciphertext_lines := [] |}) as -> by reflexivity. cbn [mbind result_bind].
  assert (parse_key_line (KC := KC) {| kf_version := Some 1; kf_security_level := None;
    kf_salt := None; kf_nonce := None; kf_ciphertext_lines := [] |} ("security_level: " +:+ level_name l) =
    Ok {| kf_version := Some 1; kf_security_level := Some l; kf_salt := None; kf_nonce := None; kf_ciphertext_lines := [] |})
    as -> by (by destruct l). cbn [mbind result_bind].
  rewrite parse_salt_line by done. cbn [mbind result_bind]. rewrite parse_nonce_line by done. cbn [mbind result_bind].
  rewrite parse_first_line by done. cbn [mbind result_bind]. by rewrite parse_ciphertext_lines.
Qed.

Lemma metadata_roundtrip l salt nonce c x ls :
  hex_lines c = x :: ls -> salt <> [] -> nonce <> [] ->
  parse_encrypted_key_metadata (String.concat NL (encrypted_lines l salt nonce x ls)) = Ok (1, l, salt, nonce, c).
Proof.
  intros Hc Hs Hn. unfold parse_encrypted_key_metadata. rewrite lines_concat.
  - rewrite (parse_encrypted_lines l salt nonce c) by done. cbn [mbind result_bind ok_or kf_version kf_security_level kf_salt
      kf_nonce kf_ciphertext_lines default]. rewrite <- Hc, decode_hex_lines. reflexivity.
  - by eapply encrypted_one_lines.
  - done.
  - pose proof (hex_lines_visible c) as Hv. rewrite Hc in Hv. unfold encrypted_lines. rewrite last_app.
    destruct (last ls) as [y|] eqn:E; [|done]. intros [= ->]. apply last_Some in E as [l' ->].
    rewrite Forall_forall in Hv. destruct (Hv "") as [_ ?]; [set_solver|done].
Qed.

Lemma starts_with_app p s : starts_with p (p +:+ s) = true.
Proof. apply starts_with_spec. eauto. Qed.

(** The text of an encrypted key: what a passphrase makes of it. *)
Lemma parse_encrypted_text l salt nonce c pass :
  lenZ salt = 16 -> lenZ nonce = 12 -> c <> [] ->
  parse_signing_key (encrypted_text l salt nonce c) pass =
  match pass with
  | None => Val (Err PassphraseRequired)
  | Some p => fbind (derive_key_from_passphrase p salt l) (fun k =>
                Val (d ← decrypt_with_key c k nonce; exactly 32 (InvalidKeyFileHexLength 32 (lenZ d)) d))
  end.
Proof.
  intros Hs Hn Hc. destruct (hex_lines c) as [|x ls] eqn:E; [by apply (hex_lines_nonempty c) in E|].
  pose proof delimiters as Hd. rewrite Forall_forall in Hd. pose proof (encrypted_body l salt nonce c x ls E) as Hb.
  rewrite (encrypted_text_enclosed _ _ _ _ _ _ E). unfold parse_signing_key.
  rewrite trim_newline by (apply enclosed_body; [apply Hd; set_solver|apply Hd; set_solver|done]). cbn zeta.
  unfold enclosed at 1. rewrite starts_with_app, unwrap_enclosed by done. unfold fbind at 1.
  assert (contains_str "version:" (String.concat NL (encrypted_lines l salt nonce x ls)) = true) as ->.
  { apply contains_str_spec. exists "". eexists. reflexivity. }
  unfold decrypt_key. rewrite (metadata_roundtrip l salt nonce c); [|done|by intros ->|by intros ->]. cbn [mbind result_bind].
  change (negb (1 =? CURRENT_VERSION)) with false. cbn iota. destruct pass as [p|]; [|done].
  cbn [ok_or mbind result_bind]. unfold exactly at 1 2. rewrite Hs, Hn. reflexivity.
Qed.

Lemma parse_plain_text key pass :
  lenZ key = 32 -> parse_signing_key (plain_text SIGNING_KEY_HEADER SIGNING_KEY_FOOTER key) pass = Val (Ok key).
Proof.
  intros Hk. pose proof delimiters as Hd. rewrite Forall_forall in Hd.
  assert (key <> []) as Hn by (by intros ->). pose proof (plain_body key Hn) as Hb.
  rewrite plain_text_enclosed. unfold parse_signing_key.
  rewrite trim_newline by (apply enclosed_body; [apply Hd; set_solver|apply Hd; set_solver|done]). cbn zeta.
  change (starts_with ENCRYPTED_SIGNING_KEY_HEADER (enclosed SIGNING_KEY_HEADER SIGNING_KEY_FOOTER (encode_key_data key)))
    with false. cbn iota.
  unfold enclosed at 1. rewrite starts_with_app, unwrap_enclosed by done. cbn [mbind result_bind].
  by rewrite plain_key_roundtrip.
Qed.

(** What [save_signing_key] writes loads again, and only with the passphrase. *)
Lemma signing_key_text_loads key pass l salt nonce text :
  lenZ key = 32 -> lenZ salt = 16 -> lenZ nonce = 12 ->
  signing_key_text key pass l salt nonce = Val (Ok text) ->
  parse_signing_key text pass = Val (Ok key) /\
  (pass <> None -> parse_signing_key text None = Val (Err PassphraseRequired)).
Proof.
  intros Hk Hs Hn. unfold signing_key_text. destruct pass as [p|].
  - destruct (derive_key_from_passphrase p salt l) as [[k|e]|] eqn:E; cbn [fbind]; [|done..].
    unfold encrypt_with_key. destruct (aead_encrypt k nonce key) as [c|] eqn:Ec; [|done]. intros [= <-].
    assert (c <> []) as Hc. { intros ->. apply aead_length in Ec. rewrite Hk in Ec. done. }
    rewrite !parse_encrypted_text by done. split; [|done]. rewrite E. cbn [fbind].
    unfold decrypt_with_key. rewrite (aead_roundtrip _ _ _ _ Ec). cbn [ok_or mbind result_bind]. unfold exactly.
    by rewrite Hk.
  - intros [= <-]. split; [by apply parse_plain_text|done].
Qed.

(** ** Files *)

Lemma ascii_utf8 s : ascii_text (chars s) -> is_utf8 s.
Proof.
  intros Hs. unfold is_utf8. apply utf8_valid_ascii.
  assert (byte_to_Z <$> as_bytes s = code <$> chars s) as ->.
  { clear. unfold as_bytes, String.list_byte_of_string. induction s as [|c s IH]; [done|].
    change (String.list_ascii_of_string (String c s)) with (c :: chars s). cbn [map fmap list_fmap].
    change (chars (String c s)) with (c :: chars s). cbn [fmap list_fmap]. f_equal; [|exact IH].
    by destruct c as [[] [] [] [] [] [] [] []]. }
  unfold ascii_text in Hs. apply Forall_fmap. exact Hs.
Qed.

Lemma newline_utf8 s : body_text s -> is_utf8 (s +:+ NL).
Proof.
  intros Hs. apply ascii_utf8. rewrite chars_app, NL_chars. apply Forall_app. split; [apply Hs|by repeat constructor].
Qed.

Lemma plain_text_utf8 h f key : delimiter h -> delimiter f -> key <> [] -> is_utf8 (plain_text h f key).
Proof. intros Hh Hf Hk. rewrite plain_text_enclosed. by apply newline_utf8, enclosed_body; [..|apply plain_body]. Qed.

Lemma signing_key_text_utf8 key pass l salt nonce text :
  lenZ key = 32 -> signing_key_text key pass l salt nonce = Val (Ok text) -> is_utf8 text.
Proof.
  intros Hk. pose proof delimiters as Hd. rewrite Forall_forall in Hd. unfold signing_key_text. destruct pass as [p|].
  - destruct (derive_key_from_passphrase p salt l) as [[k|e]|]; cbn [fbind]; [|done..].
    unfold encrypt_with_key. destruct (aead_encrypt k nonce key) as [c|] eqn:Ec; [|done]. intros [= <-].
    apply aead_length in Ec. destruct (hex_lines c) as [|x ls] eqn:E.
    { apply (hex_lines_nonempty c) in E; [done|]. intros ->. rewrite Hk in Ec. done. }
    rewrite (encrypted_text_enclosed _ _ _ _ _ _ E). apply newline_utf8, enclosed_body; [apply Hd; set_solver..|].
    by eapply encrypted_body.
  - intros [= <-]. apply plain_text_utf8; [apply Hd; set_solver..|]. by intros ->.
Qed.

(** The file is replaced as a whole or stays as it is. *)
Lemma save_text_atomic path content w :
  resolve path <> [] -> resolve (with_extension path "tmp") <> resolve path ->
  match save_text path content w with
  | (Ok _, w') => files w' !! resolve path = Some (File (as_bytes content))
  | (Err _, w') => files w' !! resolve path = files w !! resolve path
  end.
Proof.
  intros Hnil Hne. unfold save_text, on_path, ebind, io_map.
  set (temp := with_extension path "tmp") in *.
  destruct (write_cases temp (as_bytes content) w) as [w1 [[-> Hf1]|(e & -> & Hf1)]]; cbn [map_err]; [|by apply Hf1].
  assert (exists r w2, set_permissions temp w1 = (r, w2) /\ files w2 = files w1) as (r & w2 & -> & Hf2).
  { unfold set_permissions, stat. edestruct (syscall_cases (A := result io_error unit)) as [[_ ->]|(k & _ & ->)]; eauto. }
  destruct r as [[]|e]; cbn [map_err]; [|by rewrite Hf2, Hf1, lookup_insert_ne].
  destruct (rename_cases temp path w2) as [w3 [[-> (c & Hc & Hf3)]|(e & -> & Hf3)]]; cbn [map_err].
  - rewrite Hf3, lookup_insert_eq. f_equal. unfold node_at in Hc. case_bool_decide; [done|].
    rewrite Hf2, Hf1, lookup_insert_eq in Hc. congruence.
  - by rewrite Hf3, Hf2, Hf1, lookup_insert_ne.
Qed.

(** The file of a saved key in some later state that can be read. *)
Definition readable (path : string) (w w' : world) : Prop :=
  files w' !! resolve path = files w !! resolve path /\ faults w' (tick w') = None.

Lemma read_saved path text w w' :
  resolve path <> [] -> is_utf8 text -> files w !! resolve path = Some (File (as_bytes text)) -> readable path w w' ->
  (read_to_string path w').1 = Ok text.
Proof.
  intros Hnil Hu Hf [Hw Hq]. unfold read_to_string, io_map, read.
  destruct (syscall_cases (fun f => (fs_read f (resolve path), f)) (fun _ f => (Err IoFault, f)) w')
    as [[_ ->]|(k & Hk & _)]; [|congruence].
  cbn [fst]. unfold fs_read, node_at. rewrite bool_decide_eq_false_2, Hw, Hf by done. cbn [mbind result_bind].
  unfold decode_utf8. by rewrite from_utf8_as_bytes.
Qed.

(** Saving a signing key is atomic and loses nothing: when it reports success, the
    key that loads from the file - with the passphrase, if there was one - is the
    key that was saved, and an encrypted file is refused without a passphrase; when
    it fails or panics, whatever call failed, the previous file is still there
    unchanged. *)
Theorem signing_key_roundtrip key path pass l salt nonce w :
  lenZ key = 32 -> lenZ salt = 16 -> lenZ nonce = 12 ->
  resolve path <> [] -> resolve (with_extension path "tmp") <> resolve path ->
  match save_signing_key key path pass l salt nonce w with
  | (Val (Ok _), w') => forall w'', readable path w' w'' ->
      (load_signing_key path pass w'').1 = Val (Ok key) /\
      (pass <> None -> (load_signing_key path None w'').1 = Val (Err PassphraseRequired))
  | (_, w') => files w' !! resolve path = files w !! resolve path
  end.
Proof.
  intros Hk Hs Hn Hnil Hne. unfold save_signing_key.
  destruct (signing_key_text key pass l salt nonce) as [[text|e]|] eqn:E; [|done..].
  pose proof (save_text_atomic path text w Hnil Hne) as Hsave. unfold io_map.
  destruct (save_text path text w) as [[u|e] w1]; [|done]. intros w2 Hw2.
  destruct (signing_key_text_loads _ _ _ _ _ _ Hk Hs Hn E) as [H1 H2].
  pose proof (read_saved path text w1 w2 Hnil (signing_key_text_utf8 _ _ _ _ _ _ Hk E) Hsave Hw2) as Hread.
  unfold load_signing_key, io_map. destruct (read_to_string path w2) as [r w3]. cbn in Hread. subst r. by split.
Qed.

(** The same for verifying keys: a saved key that is a point of the curve loads as
    itself. *)
Theorem verifying_key_roundtrip key path w :
  lenZ key = 32 -> point_valid key = true ->
  resolve path <> [] -> resolve (with_extension path "tmp") <> resolve path ->
  match save_verifying_key key path w with
  | (Ok _, w') => forall w'', readable path w' w'' -> (load_verifying_key path w'').1 = Ok key
  | (Err _, w') => files w' !! resolve path = files w !! resolve path
  end.
Proof.
  intros Hk Hp Hnil Hne. unfold save_verifying_key. set (text := plain_text _ _ key).
  pose proof (save_text_atomic path text w Hnil Hne) as Hsave. pose proof delimiters as Hd. rewrite Forall_forall in Hd.
  assert (key <> []) as Hn by (by intros ->). pose proof (plain_body key Hn) as Hb.
  destruct (save_text path text w) as [[u|e] w1]; [|done]. intros w2 Hw2.
  assert (is_utf8 text) as Hu by (apply plain_text_utf8; [apply Hd; set_solver..|done]).
  pose proof (read_saved path text w1 w2 Hnil Hu Hsave Hw2) as Hread.
  unfold load_verifying_key, io_map. destruct (read_to_string path w2) as [r w3]. cbn in Hread. subst r. cbn [map_err fst].
  change (parse_verifying_key text = Ok key). unfold parse_verifying_key, text. rewrite plain_text_enclosed, trim_newline, unwrap_enclosed; [|done|].
  - cbn [mbind result_bind]. rewrite plain_key_roundtrip by done. cbn [mbind result_bind]. by rewrite Hp.
  - apply enclosed_body; [apply Hd; set_solver..|done].
Qed.
End Facts.
