(* ===== verification/Archive.v ===== *)
(** * Archive: exported projects as archives ([deltaship-publisher/src/archive.rs])

    Building, extracting and inspecting [.tar.gz] archives.  gzip, tar and the
    JSON form of the metadata are external: an archive is the sequence of entries
    its bytes decode to.  Paths are UTF-8 texts. *)

From S2P Require Import Prelude Text Version Validation RateLimit Fs Admin DbModels Sql System.

#[local] Open Scope Z_scope.
#[local] Open Scope io_scope.

Definition ARCHIVE_FORMAT_VERSION : string := "1.0".
Definition MAX_TOTAL_UNCOMPRESSED : Z := 4 * 1024 * 1024 * 1024.
Definition MAX_ENTRY_SIZE : Z := 1024 * 1024 * 1024.
Definition MAX_ENTRIES : Z := 100000.

Inductive ArchiveError :=
| AIo (e : io_error)
| InvalidArchive (text : string)
| MissingFile (text : string)
| AJson (text : string)
| ValidationFailed (text : string).

Record ArchiveMetadata := {
  am_format_version : string;
  am_exported_at : string;
  am_publisher_version : string;
  am_publisher_name : option string;
  am_includes_keys : bool;
  am_includes_binaries : bool;
  am_binary_count : Z;
  am_version_count : Z;
}.

Definition metadata_new (now publisher_version : string) (publisher_name : option string)
    (includes_keys includes_binaries : bool) (binary_count version_count : Z) : ArchiveMetadata :=
  {| am_format_version := ARCHIVE_FORMAT_VERSION; am_exported_at := now; am_publisher_version := publisher_version;
     am_publisher_name := publisher_name; am_includes_keys := includes_keys;
     am_includes_binaries := includes_binaries; am_binary_count := binary_count; am_version_count := version_count |}.

(** ** The entries of an archive *)

(** [tar::EntryType], as far as the code distinguishes. *)
Inductive entry_type := Regular | Directory | Symlink | HardLink | OtherType.

#[global] Instance entry_type_eq_dec : EqDecision entry_type.
Proof. solve_decision. Defined.

(** An entry: its path, its type and its declared size, when the header can be
    decoded, and the bytes reading it yields with the error met after them. *)
Record tar_entry := {
  te_path : result io_error string;
  te_type : entry_type;
  te_size : option Z;
  te_data : bytes * option io_error;
}.

Definition aio {A} (m : io (result io_error A)) : io (result ArchiveError A) := io_map (map_err AIo) m.
(** [let _ = ...]. *)
Definition ignore {A} (m : io (result io_error A)) : io (result ArchiveError unit) := io_map (fun _ => Ok tt) m.

(** ** Building *)

(** The builder with the entries appended so far; they reach the file when it is
    finished. *)
Record ArchiveBuilder := { ab_output : string; ab_entries : list tar_entry; ab_base_dir : string }.

Definition file_entry (path : string) (data : bytes) : tar_entry :=
  {| te_path := Ok path; te_type := Regular; te_size := Some (lenZ data); te_data := (data, None) |}.
Definition dir_entry (path : string) : tar_entry :=
  {| te_path := Ok path; te_type := Directory; te_size := Some 0; te_data := ([], None) |}.

Definition append_entry (e : tar_entry) (b : ArchiveBuilder) : ArchiveBuilder :=
  {| ab_output := ab_output b; ab_entries := ab_entries b ++ [e]; ab_base_dir := ab_base_dir b |}.

Section Build.
Context (tar_gz : list tar_entry -> bytes) (metadata_json : ArchiveMetadata -> result string string).

Definition builder_new (output_path : string) : io (result ArchiveError ArchiveBuilder) :=
  (aio (write output_path []) ;;?
   eret {| ab_output := output_path; ab_entries := []; ab_base_dir := "deltaship-export" |}).

Definition add_data (archive_path : string) (data : bytes) (b : ArchiveBuilder)
    : io (result ArchiveError ArchiveBuilder) :=
  eret (append_entry (file_entry archive_path data) b).

Definition add_metadata (metadata : ArchiveMetadata) (b : ArchiveBuilder) : io (result ArchiveError ArchiveBuilder) :=
  (json ←? elift (map_err AJson (metadata_json metadata));
   add_data (ab_base_dir b +:+ "/metadata.json") (as_bytes json) b).

Definition add_file (source_path archive_path : string) (b : ArchiveBuilder) : io (result ArchiveError ArchiveBuilder) :=
  (data ←? aio (read source_path);
   eret (append_entry (file_entry (ab_base_dir b +:+ "/" +:+ archive_path) data) b)).

Definition add_directory (archive_path : string) (b : ArchiveBuilder) : io (result ArchiveError ArchiveBuilder) :=
  eret (append_entry (dir_entry (ab_base_dir b +:+ "/" +:+ archive_path)) b).

Definition finish (b : ArchiveBuilder) : io (result ArchiveError unit) :=
  aio (write (ab_output b) (tar_gz (ab_entries b))).
End Build.

(** ** Paths of entries *)

(** [std::path::Component]; there are no prefixes on Unix. *)
Inductive component := RootDir | CurDir | ParentDir | Normal (c : string).

#[global] Instance component_eq_dec : EqDecision component.
Proof. solve_decision. Defined.

(** Repeated separators and dots inside the path are skipped. *)
Definition part_component (c : string) : option component :=
  if bool_decide (c = "") || bool_decide (c = ".") then None
  else if bool_decide (c = "..") then Some ParentDir
  else Some (Normal c).

(** [Path::components]: a dot counts only as the first component. *)
Definition path_components (p : string) : list component :=
  let parts := split_char "/"%char p in
  let first := if starts_with "/" p then [RootDir]
               else if bool_decide (head parts = Some ".") then [CurDir] else [] in
  first ++ omap part_component parts.

(** [Path::starts_with]. *)
Definition starts_with_path (p base : string) : bool :=
  bool_decide (path_components base `prefix_of` path_components p).

Definition is_ascii_control (u : list ascii) : bool :=
  match u with [c] => (code c <? 32) || (code c =? 127) | _ => false end.

Fixpoint check_chars (entry_path : string) (idx : Z) (us : list (list ascii)) : result ArchiveError unit :=
  match us with
  | [] => Ok tt
  | u :: us =>
      if bool_decide (u = [chr 0]) then
        Err (ValidationFailed ("Null byte detected in archive entry path at position " +:+ pretty idx +:+ ": " +:+
                               entry_path))
      else if is_ascii_control u then
        Err (ValidationFailed ("Control character (0x" +:+
               of_chars (hex_chars [byte_of_Z (match u with c :: _ => code c | [] => 0 end)]) +:+
               ") detected in archive entry path at position " +:+ pretty idx +:+ ": " +:+ entry_path))
      else check_chars entry_path (idx + 1) us
  end.

(** The first loop over the components. *)
Fixpoint check_components (entry_path : string) (cs : list component) : result ArchiveError unit :=
  match cs with
  | [] => Ok tt
  | ParentDir :: _ => Err (ValidationFailed ("Path traversal detected in archive entry: " +:+ entry_path))
  | RootDir :: _ => Err (ValidationFailed ("Absolute path in archive entry: " +:+ entry_path))
  | (CurDir | Normal _) :: cs => check_components entry_path cs
  end.

(** The second loop: the normalized path. *)
Fixpoint normalize_components (entry_path normalized : string) (cs : list component) : result ArchiveError string :=
  match cs with
  | [] => Ok normalized
  | Normal c :: cs => normalize_components entry_path (join normalized c) cs
  | CurDir :: cs => normalize_components entry_path normalized cs
  | ParentDir :: _ => Err (ValidationFailed ("Path traversal detected: " +:+ entry_path))
  | RootDir :: _ => Err (ValidationFailed ("Invalid path component in archive: " +:+ entry_path))
  end.

Definition validate_archive_entry_path (entry_path target_dir : string) : result ArchiveError unit :=
  _ ← check_chars entry_path 0 (utf8_chars (chars entry_path));
  _ ← check_components entry_path (path_components entry_path);
  let full_path := join target_dir entry_path in
  normalized ← normalize_components entry_path target_dir (path_components entry_path);
  if negb (starts_with_path normalized target_dir) then
    Err (ValidationFailed ("Archive entry would escape target directory: " +:+ entry_path +:+ " -> " +:+ full_path))
  else Ok tt.

(** ** Temporary directories *)

(** The nodes at and below [p], the innermost first. *)
Definition nodes_below (f : fs) (p : list string) : list (list string) :=
  sort_by_key (fun q => - lenZ q) (List.filter (fun q => bool_decide (p `prefix_of` q)) (map_to_list f).*1).
Definition delete_all (f : fs) (ps : list (list string)) : fs := foldr delete f ps.

(** [fs::remove_dir_all]: a fault leaves some of the nodes. *)
Definition remove_dir_all (p : string) : io (result io_error unit) :=
  syscall (fun f => match node_at f (resolve p) with
                    | Some Dir => (Ok tt, delete_all f (nodes_below f (resolve p)))
                    | Some (File _) => (Err IoNotADirectory, f)
                    | None => (Err IoNotFound, f)
                    end)
          (fun k f => (Err IoFault, match node_at f (resolve p) with
                                    | Some Dir => delete_all f (take k (nodes_below f (resolve p)))
                                    | _ => f
                                    end)).

(** [tempfile::tempdir], which finds the unused name [p]. *)
Definition create_dir (p : string) : io (result io_error unit) :=
  syscall (fun f => match node_at f (resolve p), node_at f (parent (resolve p)) with
                    | Some _, _ => (Err (IoOther "File exists"), f)
                    | None, Some Dir => (Ok tt, <[resolve p := Dir]> f)
                    | None, Some (File _) => (Err IoNotADirectory, f)
                    | None, None => (Err IoNotFound, f)
                    end)
          (fun _ f => (Err IoFault, f)).

(** The directory is removed when its handle is dropped on an early return. *)
Definition scoped_dir {E A} (dir : string) (body : io (result E A)) : io (result E A) := fun w =>
  match body w with
  | (Ok a, w') => (Ok a, w')
  | (Err e, w') => (Err e, (remove_dir_all dir w').2)
  end.

(** ** Extraction *)

(** [io::copy] from [entry.take(limit)] to a file that was just created. *)
Definition copy_limited (limit : Z) (path : string) (stream : bytes * option io_error) : io (result io_error Z) :=
  let '(data, err) := stream in
  let taken := if lenZ data <? limit then data else takeZ limit data in
  (append path taken ;;?
   match err with
   | Some e => if lenZ data <? limit then efail e else eret (lenZ taken)
   | None => eret (lenZ taken)
   end).

(** The extracted file must still be inside the target. *)
Definition recheck (full_path target_path entry_path : string) : io (result ArchiveError unit) :=
  (present ←? io_map Ok (exists_ full_path);
   if (present : bool) then
     canonical ←? aio (canonicalize full_path);
     canonical_target ←? aio (canonicalize target_path);
     if negb (starts_with_path canonical canonical_target) then
       ignore (remove_file full_path) ;;?
       efail (ValidationFailed ("Extracted file escaped target directory: " +:+ entry_path))
     else eret tt
   else eret tt).

(** A regular file: the new total. *)
Definition extract_file (target_path entry_path : string) (e : tar_entry) (total_written : Z)
    : io (result ArchiveError Z) :=
  let full_path := join target_path entry_path in
  let declared_size := default 0 (te_size e) in
  if MAX_ENTRY_SIZE <? declared_size then
    efail (ValidationFailed ("Archive entry exceeds per-entry size limit (" +:+ pretty declared_size +:+ " > " +:+
                             pretty MAX_ENTRY_SIZE +:+ "): " +:+ entry_path))
  else
    (match parent_path full_path with
     | Some parent => aio (create_dir_all parent)
     | None => eret tt
     end ;;?
     aio (write full_path []) ;;?
     written ←? aio (copy_limited (MAX_ENTRY_SIZE + 1) full_path (te_data e));
     if MAX_ENTRY_SIZE <? written then
       ignore (remove_file full_path) ;;?
       efail (ValidationFailed ("Archive entry exceeds per-entry size limit (" +:+ pretty MAX_ENTRY_SIZE +:+ "): " +:+
                                entry_path))
     else
       let total_written := Z.min (total_written + written) u64_max in
       if MAX_TOTAL_UNCOMPRESSED <? total_written then
         ignore (remove_file full_path) ;;?
         efail (ValidationFailed ("Archive exceeds total uncompressed size limit (" +:+
                                  pretty MAX_TOTAL_UNCOMPRESSED +:+ ")"))
       else
         recheck full_path target_path entry_path ;;?
         eret total_written).

Definition extract_entry (target_path : string) (e : tar_entry) (total_written : Z) : io (result ArchiveError Z) :=
  (entry_path ←? elift (map_err AIo (te_path e));
   if bool_decide (te_type e = Symlink) || bool_decide (te_type e = HardLink) then
     efail (ValidationFailed ("Symlinks/hardlinks not allowed in archive: " +:+ entry_path))
   else
     elift (validate_archive_entry_path entry_path target_path) ;;?
     match te_type e with
     | Directory => aio (create_dir_all (join target_path entry_path)) ;;? eret total_written
     | Regular => extract_file target_path entry_path e total_written
     | _ => eret total_written
     end).

Fixpoint extract_loop (target_path : string) (entries : list (result io_error tar_entry))
    (entry_count total_written : Z) : io (result ArchiveError Z) :=
  match entries with
  | [] => eret total_written
  | Err e :: _ => efail (AIo e)
  | Ok e :: entries =>
      let entry_count := entry_count + 1 in
      if MAX_ENTRIES <? entry_count then
        efail (ValidationFailed ("Archive contains too many entries (limit: " +:+ pretty MAX_ENTRIES +:+ ")"))
      else
        (total_written ←? extract_entry target_path e total_written;
         extract_loop target_path entries entry_count total_written)
  end.

Section Read.
(** The entries of the bytes of an archive, and the metadata of a text. *)
Context (entries_of : bytes -> result io_error (list (result io_error tar_entry))).
Context (metadata_of_json : string -> result string ArchiveMetadata).
Context {HI : HashIter}.

(** [target_path] is the directory [tempdir] creates. *)
Definition extract_archive (input_path target_path : string) : io (result ArchiveError string) :=
  (content ←? aio (read input_path);
   aio (create_dir target_path) ;;?
   scoped_dir target_path
     (entries ←? elift (map_err AIo (entries_of content));
      extract_loop target_path entries 0 0 ;;?
      eret target_path)).

(** [read_to_string] of an entry. *)
Definition entry_text (e : tar_entry) : result io_error string :=
  match te_data e with
  | (_, Some err) => Err err
  | (data, None) => decode_utf8 data
  end.

Fixpoint validate_loop (entries : list (result io_error tar_entry)) (metadata : option ArchiveMetadata) (has_db : bool)
    : result ArchiveError (option ArchiveMetadata * bool) :=
  match entries with
  | [] => Ok (metadata, has_db)
  | Err e :: _ => Err (AIo e)
  | Ok e :: entries =>
      path_str ← map_err AIo (te_path e);
      if ends_with "metadata.json" path_str then
        content ← map_err AIo (entry_text e);
        m ← map_err AJson (metadata_of_json content);
        validate_loop entries (Some m) has_db
      else if ends_with "publisher.db" path_str then validate_loop entries metadata true
      else validate_loop entries metadata has_db
  end.

Definition validate_archive (input_path : string) : io (result ArchiveError ArchiveMetadata) :=
  (content ←? aio (read input_path);
   entries ←? elift (map_err AIo (entries_of content));
   found ←? elift (validate_loop entries None false);
   let '(metadata, has_db) := found in
   metadata ←? elift (ok_or (MissingFile "metadata.json not found in archive") metadata);
   if negb has_db then efail (MissingFile "publisher.db not found in archive") else eret metadata).

Fixpoint find_loop (temp_dir : string) (entries : list (result io_error string))
    : io (result ArchiveError (option string)) :=
  match entries with
  | [] => eret None
  | Err e :: _ => efail (AIo e)
  | Ok name :: entries =>
      let path := join temp_dir name in
      (dir ←? io_map Ok (is_dir path);
       if dir && bool_decide (path_file_name path = Some "deltaship-export") then eret (Some path)
       else find_loop temp_dir entries)
  end.

Definition find_export_dir (temp_dir : string) : io (result ArchiveError string) :=
  (entries ←? aio (read_dir temp_dir);
   found ←? find_loop temp_dir entries;
   match found with
   | Some path => eret path
   | None =>
       present ←? io_map Ok (exists_ (join temp_dir "metadata.json"));
       if (present : bool) then eret temp_dir
       else efail (InvalidArchive "Could not find deltaship-export directory in archive")
   end).

Definition read_extracted_metadata (export_dir : string) : io (result ArchiveError ArchiveMetadata) :=
  (content ←? io_map (map_err (fun _ => MissingFile "metadata.json not found"))
                (read_to_string (join export_dir "metadata.json"));
   elift (map_err AJson (metadata_of_json content))).

Definition archive_has_file (export_dir relative_path : string) : io bool := exists_ (join export_dir relative_path).
End Read.
