(* ===== verification/ArchiveFacts.v ===== *)
(** * ArchiveFacts: extraction is confined and bounded, and gives back what was built

    Whatever an archive holds and whatever fails, extraction touches nothing
    outside its temporary directory and writes a bounded number of bytes; an
    archive of the builder extracts to the files it was built from. *)

From S2P Require Import Prelude Text Version Validation RateLimit Fs Storage StorageFacts Confinement Admin DbModels Sql System Archive.

#[local] Open Scope Z_scope.

(** ** Relative paths *)

Lemma split_char_app s t : split_char "/"%char (s +:+ "/" +:+ t) = split_char "/"%char s ++ split_char "/"%char t.
Proof.
  unfold split_char. rewrite !chars_app. change (chars "/") with ["/"%char]. cbn [app].
  by rewrite split_on_app_sep by (by apply bool_decide_eq_true).
Qed.

(** Joining a relative path follows its parts. *)
Lemma resolve_join_rel d p :
  starts_with "/" p = false -> resolve (join d p) = fold_left enter (split_char "/"%char p) (resolve d).
Proof.
  intros Hp. unfold join. rewrite Hp. unfold resolve.
  destruct (str_is_empty d || ends_with "/" d) eqn:E; [|by rewrite split_char_app, fold_left_app].
  apply orb_true_iff in E as [E|E].
  - unfold str_is_empty in E. by apply bool_decide_eq_true in E as ->.
  - unfold ends_with in E. apply prefixb_spec in E as [k Hk].
    apply (f_equal reverse) in Hk. rewrite reverse_involutive, reverse_app in Hk.
    assert (d = of_chars (reverse k) +:+ "/") as ->.
    { apply (inj chars). by rewrite Hk, chars_app, chars_of_chars. }
    change (fold_left enter (split_char "/"%char (of_chars (reverse k) +:+ "/")) []) with
      (resolve (of_chars (reverse k) +:+ "/")). rewrite resolve_trailing. unfold resolve.
    rewrite <- fold_left_app, <- split_char_app. do 2 f_equal. apply (inj chars). by rewrite !chars_app, <- app_assoc.
Qed.

(** The names on the way, when no part goes up. *)
Definition names (parts : list string) : list string :=
  List.filter (fun c => negb (bool_decide (c = "") || bool_decide (c = "."))) parts.

Lemma fold_enter parts st : ".." ∉ parts -> fold_left enter parts st = st ++ names parts.
Proof.
  revert st; induction parts as [|c parts IH]; intros st Hn; cbn; [by rewrite app_nil_r|].
  rewrite IH by set_solver. unfold enter.
  destruct (bool_decide (c = "") || bool_decide (c = ".")); cbn; [done|].
  rewrite bool_decide_eq_false_2 by set_solver. by rewrite <- app_assoc.
Qed.

(** A path the first checks let pass. *)
Definition safe_path (p : string) : Prop := starts_with "/" p = false /\ ".." ∉ split_char "/"%char p.

Lemma checked_path p t : validate_archive_entry_path p t = Ok tt -> safe_path p.
Proof.
  unfold validate_archive_entry_path. rewrite result_bind_Ok. intros (_ & _ & E).
  rewrite result_bind_Ok in E. destruct E as ([] & E & _).
  assert (Hc : forall cs, check_components p cs = Ok tt -> (RootDir ∉ cs) /\ (ParentDir ∉ cs)).
  { induction cs as [|[| | |c] cs IH]; cbn; try done; [split; apply not_elem_of_nil|..];
      intros [? ?]%IH; by split; apply not_elem_of_cons. }
  apply Hc in E as [Hr Hp]. unfold path_components in *. split.
  - destruct (starts_with "/" p); [|done]. exfalso. apply Hr. set_solver.
  - intros Hin. apply Hp, elem_of_app. right. apply list_elem_of_omap. exists "..". split; [done|]. by vm_compute.
Qed.

Lemma resolve_safe d p : safe_path p -> resolve (join d p) = resolve d ++ names (split_char "/"%char p).
Proof. intros [H1 H2]. by rewrite resolve_join_rel, fold_enter. Qed.

(** ** Parents *)

Lemma after_slash_Some l k : after_slash l = Some k -> exists n, l = n ++ "/"%char :: k /\ "/"%char ∉ n.
Proof.
  revert k; induction l as [|c l IH]; intros k; [done|]. cbn. case_bool_decide as Hc.
  - subst. intros [= ->]. exists []. split; [done|]. apply not_elem_of_nil.
  - intros (n & -> & Hn)%IH. exists (c :: n). split; [done|]. by apply not_elem_of_cons.
Qed.

Lemma trim_rev_up l :
  ".." ∈ split_char "/"%char (of_chars (reverse (trim_rev l))) -> ".." ∈ split_char "/"%char (of_chars (reverse l)).
Proof.
  assert (Hs : forall l c, split_char "/"%char (of_chars (reverse (c :: "/"%char :: l))) =
                 split_char "/"%char (of_chars (reverse l)) ++ split_char "/"%char (of_chars [c])).
  { intros k c. rewrite <- split_char_app. f_equal. rewrite !reverse_cons, !of_chars_app. apply (inj chars).
    by rewrite !chars_app, <- app_assoc. }
  induction l as [|c l IH]; [done|]. cbn [trim_rev].
  destruct (bool_decide_reflect (c = "/"%char)) as [->|_].
  - destruct l as [|d l]; [done|]. intros H%IH.
    assert (split_char "/"%char (of_chars (reverse ("/"%char :: d :: l))) =
            split_char "/"%char (of_chars (reverse (d :: l))) ++ [""]) as ->.
    { rewrite (reverse_cons (d :: l)), of_chars_app. change (of_chars ["/"%char]) with ("/" +:+ "").
      by rewrite split_char_app. }
    set_solver.
  - destruct (bool_decide_reflect (c = "."%char)) as [->|_]; [|done].
    destruct l as [|d l]; [done|]. destruct (bool_decide_reflect (d = "/"%char)) as [->|_]; [|done].
    intros H%IH. rewrite Hs.
    assert (split_char "/"%char (of_chars (reverse ("/"%char :: l))) =
            split_char "/"%char (of_chars (reverse l)) ++ [""]) as E.
    { rewrite (reverse_cons l), of_chars_app. change (of_chars ["/"%char]) with ("/" +:+ ""). by rewrite split_char_app. }
    rewrite E in H. set_solver.
Qed.

(** The parent of a path is on the way to it. *)
Lemma parent_path_prefix p q :
  ".." ∉ split_char "/"%char p -> parent_path p = Some q -> resolve q `prefix_of` resolve p.
Proof.
  intros Hup. rewrite <- (of_chars_chars p), <- (reverse_involutive (chars p)) in Hup.
  assert (Hr : resolve (of_chars (reverse (trim_rev (reverse (chars p))))) = resolve p).
  { by rewrite trim_rev_resolve, reverse_involutive, of_chars_chars. }
  unfold parent_path. cbn zeta. set (r := trim_rev (reverse (chars p))) in *.
  destruct (after_slash r) as [l|] eqn:E.
  - apply after_slash_Some in E as (n & E & Hn).
    assert (resolve (of_chars (reverse l)) `prefix_of` resolve p) as Hl.
    { rewrite <- Hr. clear Hr. assert (".." ∉ split_char "/"%char (of_chars (reverse r))) as Hr.
      { intros H. by apply Hup, trim_rev_up. }
      rewrite E, reverse_app, reverse_cons, <- app_assoc, !of_chars_app in Hr |- *. cbn [app] in Hr |- *.
      change (of_chars ["/"%char]) with "/" in *.
      rewrite split_char_sep in Hr by (by rewrite chars_of_chars, elem_of_reverse).
      unfold resolve at 2. rewrite split_char_sep by (by rewrite chars_of_chars, elem_of_reverse).
      rewrite fold_left_app. cbn [fold_left]. fold (resolve (of_chars (reverse l))). unfold enter.
      case_match; [done|]. rewrite bool_decide_eq_false_2 by set_solver. by apply prefix_app_r. }
    destruct l as [|c l]; [case_bool_decide; [done|]; intros [= <-]; apply prefix_nil|].
    intros Hq. assert (q = of_chars (reverse (trim_rev (c :: l)))) as -> by congruence. by rewrite trim_rev_resolve.
  - case_bool_decide; [done|]. intros [= <-]. apply prefix_nil.
Qed.

Lemma split_join_up d p :
  safe_path p -> ".." ∉ split_char "/"%char d -> ".." ∉ split_char "/"%char (join d p).
Proof.
  intros [Hp Hup] Hd. unfold join. rewrite Hp.
  destruct (str_is_empty d || ends_with "/" d) eqn:E; [|rewrite split_char_app; set_solver].
  apply orb_true_iff in E as [E|E].
  - unfold str_is_empty in E. by apply bool_decide_eq_true in E as ->.
  - unfold ends_with in E. apply prefixb_spec in E as [k Hk].
    apply (f_equal reverse) in Hk. rewrite reverse_involutive, reverse_app in Hk.
    assert (d = of_chars (reverse k) +:+ "/") as ->.
    { apply (inj chars). by rewrite Hk, chars_app, chars_of_chars. }
    change (of_chars (reverse k) +:+ "/") with (of_chars (reverse k) +:+ "/" +:+ "") in Hd.
    rewrite split_char_app in Hd.
    assert ((of_chars (reverse k) +:+ "/") +:+ p = of_chars (reverse k) +:+ "/" +:+ p) as ->.
    { apply (inj chars). by rewrite !chars_app, <- app_assoc. }
    rewrite split_char_app. set_solver.
Qed.

(** ** Confinement *)

Lemma delete_all_lookup f ps p : p ∉ ps -> delete_all f ps !! p = f !! p.
Proof.
  induction ps as [|q ps IH]; intros Hp; [done|]. cbn. rewrite lookup_delete_ne by set_solver. apply IH. set_solver.
Qed.

Lemma nodes_below_prefix f d p : p ∈ nodes_below f d -> d `prefix_of` p.
Proof.
  unfold nodes_below. rewrite sort_by_key_perm. rewrite list_elem_of_In, filter_In.
  by intros [_ ?%bool_decide_eq_true].
Qed.

(** The directory returned is the target. *)
Lemma extract_archive_Ok entries_of input target w d w' :
  extract_archive entries_of input target w = (Ok d, w') -> d = target.
Proof.
  unfold extract_archive, ebind at 1 2. destruct (aio (read input) w) as [[c|e] w1]; [|done].
  destruct (aio (create_dir target) w1) as [[[]|e] w2]; [|done]. unfold scoped_dir, ebind.
  destruct (elift _ w2) as [[es|e] w3]; [|done]. destruct (extract_loop _ _ _ _ w3) as [[t|e] w4]; [|done].
  by intros [= <- _].
Qed.

Section Confined.
Context (target : string).
Hypothesis Htarget : ".." ∉ split_char "/"%char target.
Abbreviation root := (resolve target).
Abbreviation R := (confined root).

Lemma confined_remove_dir_all : respects R (remove_dir_all target).
Proof.
  assert (Hd : forall f ps p, (forall q, q ∈ ps -> root `prefix_of` q) -> R p (f !! p) (delete_all f ps !! p)).
  { intros f ps p Hps. destruct (decide (p ∈ ps)) as [Hp|Hp]; [left; auto|]. by rewrite delete_all_lookup. }
  apply respects_syscall.
  - intros f p. case_match; [case_match|]; cbn; try reflexivity. apply Hd. intros q. apply nodes_below_prefix.
  - intros k f p. cbn. repeat case_match; try reflexivity. apply Hd.
    intros q Hq. eapply (nodes_below_prefix f). rewrite <- (take_drop k). apply elem_of_app. by left.
Qed.

Lemma confined_create_dir : respects R (create_dir target).
Proof.
  apply respects_syscall; [|intros; reflexivity]. intros f p. repeat case_match; cbn; try reflexivity.
  destruct (decide (p = root)) as [->|Hp]; [by left|]. by rewrite lookup_insert_ne.
Qed.

Lemma confined_scoped {E A} (m : io (result E A)) : respects R m -> respects R (scoped_dir target m).
Proof.
  intros Hm w. unfold scoped_dir. pose proof (Hm w) as H1. destruct (m w) as [[a|e] w'] eqn:E1; [done|].
  pose proof (confined_remove_dir_all w') as H2. destruct (remove_dir_all target w') as [r w2].
  apply (respects_trans R w w' (Err e, w2)); done.
Qed.

Lemma confined_below p : safe_path p -> root `prefix_of` resolve (join target p).
Proof. intros Hp. rewrite resolve_safe by done. by apply prefix_app_r. Qed.

Lemma confined_parent p q :
  safe_path p -> parent_path (join target p) = Some q -> respects R (create_dir_all q).
Proof.
  intros Hp Hq. apply respects_create_dir_all; [apply _|]. intros d Hd Hdq.
  apply (confined_may_create root (resolve (join target p))); [by apply confined_below|done|].
  etrans; [exact Hdq|]. apply parent_path_prefix; [by apply split_join_up|done].
Qed.

Lemma confined_extract_file p e total : safe_path p -> respects R (extract_file target p e total).
Proof.
  intros Hp. assert (Hf : free R (resolve (join target p))) by (by apply confined_free, confined_below).
  unfold extract_file, copy_limited, recheck, aio, ignore. cbn zeta. case_match; [auto with respects|].
  apply respects_ebind; [apply _| |intros _; destruct (te_data e); respects_tac].
  destruct (parent_path _) as [q|] eqn:Hq; [|auto with respects]. apply respects_io_map. by eapply confined_parent.
Qed.

Lemma confined_extract_entry e total : respects R (extract_entry target e total).
Proof.
  unfold extract_entry. destruct (te_path e) as [p|err]; cbn [map_err]; [|by apply respects_efail; apply _].
  change (ebind (elift (Ok p)) ?k) with (k p). cbn beta.
  case_match; [by apply respects_efail; apply _|].
  destruct (validate_archive_entry_path p target) as [[]|err] eqn:Hv; [|by apply respects_efail; apply _].
  apply checked_path in Hv. change (ebind (elift (Ok tt)) ?k) with (k tt). cbn beta.
  destruct (te_type e); try (by apply respects_eret; apply _); [by apply confined_extract_file|].
  apply respects_ebind; [apply _| |intros _; by apply respects_eret; apply _]. apply respects_io_map.
  apply respects_create_dir_all; [apply _|]. by apply confined_may_create, confined_below.
Qed.

Lemma confined_extract_loop entries n total : respects R (extract_loop target entries n total).
Proof.
  revert n total; induction entries as [|[e|err] entries IH]; intros n total; cbn [extract_loop];
    [by apply respects_eret; apply _| |by apply respects_efail; apply _].
  case_match; [by apply respects_efail; apply _|].
  apply respects_ebind; [apply _|apply confined_extract_entry|]. intros t. apply IH.
Qed.

Lemma confined_extract_archive entries_of input : respects R (extract_archive entries_of input target).
Proof.
  unfold extract_archive. apply respects_ebind; [apply _|apply respects_io_map; auto with respects|intros content].
  apply respects_ebind; [apply _|apply respects_io_map, confined_create_dir|intros _].
  apply confined_scoped, respects_ebind; [apply _|by apply respects_elift; apply _|intros entries].
  apply respects_ebind; [apply _|apply confined_extract_loop|intros t; by apply respects_eret; apply _].
Qed.

(** Extraction stays in its directory: whatever the archive holds (absolute
    paths, parent directories, links, control characters, lying sizes) and whatever
    calls fail, [extract_archive] changes nothing outside the temporary directory;
    at most a missing directory on the way to it is created. *)
Theorem extraction_confined entries_of input w p :
  R p (files w !! p) (files (extract_archive entries_of input target w).2 !! p).
Proof. apply (confined_extract_archive entries_of input w). Qed.
End Confined.

(** ** Sizes *)

(** What a node adds to the size of the tree below [d]. *)
Definition weight (d p : list string) (o : option node) : Z :=
  match o with
  | Some n => match strip_path d p with Some (_ :: _) => node_size n | _ => 0 end
  | None => 0
  end.

Lemma weight_nonneg d p o : 0 <= weight d p o.
Proof. unfold weight. repeat case_match; try lia. apply node_size_nonneg. Qed.

Lemma weight_file d p c : weight d p (Some (File c)) <= lenZ c.
Proof. unfold weight. pose proof (lenZ_nonneg c). repeat case_match; cbn; lia. Qed.

Lemma size_below_delete f d p : size_below f d = size_below (delete p f) d + weight d p (f !! p).
Proof.
  unfold size_below, weight. destruct (f !! p) as [n|] eqn:E; [|rewrite delete_id by done; lia].
  rewrite <- (sum_over_perm _ _ _ (map_to_list_delete f p n E)). cbn. lia.
Qed.

Lemma size_below_insert f d p n :
  size_below (<[p := n]> f) d = size_below f d - weight d p (f !! p) + weight d p (Some n).
Proof.
  rewrite (size_below_delete f d p), (size_below_delete (<[p := n]> f) d p), lookup_insert_eq, delete_insert_eq. lia.
Qed.

Lemma size_below_put f d p c : size_below (<[p := File c]> f) d <= size_below f d + lenZ c.
Proof.
  rewrite size_below_insert. pose proof (weight_nonneg d p (f !! p)). pose proof (weight_file d p c). lia.
Qed.

Section Sized.
Context (d : list string).
Abbreviation size w := (size_below (files w) d).

(** From a size that [P] allows the program returns a value with a size as [ok]
    says, or an error and at most [M] bytes. *)
Definition runs {E A} (M : Z) (P : Z -> Prop) (m : io (result E A)) (ok : A -> Z -> Prop) : Prop :=
  forall w, P (size w) -> match m w with (Ok a, w') => ok a (size w') | (Err _, w') => size w' <= M end.

Lemma runs_ebind {E A B} M P (m : io (result E A)) (k : A -> io (result E B)) mid ok :
  runs M P m mid -> (forall a, runs M (mid a) (k a) ok) -> runs M P (ebind m k) ok.
Proof.
  intros Hm Hk w Hw. specialize (Hm w Hw). unfold ebind. destruct (m w) as [[a|e] w']; [|done]. by apply Hk.
Qed.

Lemma runs_pre {E A} M (P P' : Z -> Prop) (m : io (result E A)) ok :
  runs M P m ok -> (forall z, P' z -> P z) -> runs M P' m ok.
Proof. intros Hm HP w Hw. by apply Hm, HP. Qed.

Lemma runs_map_err {E E' A} M P (m : io (result E A)) (g : E -> E') ok :
  runs M P m ok -> runs M P (io_map (map_err g) m) ok.
Proof. intros Hm w Hw. specialize (Hm w Hw). unfold io_map. by destruct (m w) as [[a|e] w']. Qed.

(** A call that adds at most [k] bytes. *)
Definition adds {A} (k : Z) (m : io A) : Prop := forall w, size (m w).2 <= size w + k.

Lemma adds_syscall {A} (k : Z) (run : fs -> A * fs) fault :
  (forall f, size_below (run f).2 d <= size_below f d + k) ->
  (forall n f, size_below (fault n f).2 d <= size_below f d + k) -> adds k (syscall run fault).
Proof. intros Hr Hf w. destruct (syscall_cases run fault w) as [[_ ->]|(n & _ & ->)]; cbn; auto. Qed.

Lemma runs_adds {E A} M b k (m : io (result E A)) :
  adds k m -> b + k <= M -> runs M (fun z => z <= b) m (fun _ z => z <= b + k).
Proof. intros Hm Hb w Hw. specialize (Hm w). destruct (m w) as [[a|e] w']; cbn in *; lia. Qed.

Lemma adds_put p c : forall f, size_below (commit tt f (fs_put f p c)).2 d <= size_below f d + lenZ c.
Proof.
  intros f. pose proof (lenZ_nonneg c). pose proof (size_below_put f d p c).
  unfold fs_put. repeat case_match; cbn; lia.
Qed.

Lemma adds_create p : adds 0 (write p []).
Proof.
  apply adds_syscall; [intros f; apply (adds_put (resolve p) [])|]. intros [|n] f; cbn; [lia|].
  rewrite take_nil. apply (adds_put (resolve p) []).
Qed.

Lemma adds_append p c : adds (lenZ c) (append p c).
Proof.
  assert (H : forall f k, lenZ k <= lenZ c -> size_below (commit tt f (fs_append f (resolve p) k)).2 d <= size_below f d + lenZ c).
  { intros f k Hk. pose proof (lenZ_nonneg c). unfold fs_append. destruct (node_at f (resolve p)) as [[|x]|] eqn:E; cbn; try lia.
    rewrite size_below_insert. unfold node_at in E. case_bool_decide; [done|]. rewrite E. unfold weight.
    repeat case_match; cbn; rewrite ?lenZ_app; lia. }
  apply adds_syscall; [intros f; by apply H|]. intros n f. cbn. apply H. unfold lenZ. rewrite length_take. lia.
Qed.

Lemma adds_remove p : adds 0 (remove_file p).
Proof.
  apply adds_syscall; [|intros; cbn; lia]. intros f. unfold fs_remove. repeat case_match; cbn; try lia.
  rewrite (size_below_delete f d (resolve p)). pose proof (weight_nonneg d (resolve p) (f !! resolve p)). lia.
Qed.

Lemma mkdirs_size f done todo : size_below (mkdirs f done todo).2 d <= size_below f d.
Proof.
  revert f done; induction todo as [|c todo IH]; intros f done; [cbn; lia|]. cbn [mkdirs].
  repeat case_match; try apply IH; cbn; try lia. etrans; [apply IH|]. rewrite size_below_insert.
  pose proof (weight_nonneg d (done ++ [c]) (f !! (done ++ [c]))).
  assert (weight d (done ++ [c]) (Some Dir) = 0) as -> by (unfold weight; by repeat case_match). lia.
Qed.

Lemma adds_create_dir_all p : adds 0 (create_dir_all p).
Proof.
  apply adds_syscall; [intros f; pose proof (mkdirs_size f [] (resolve p)); lia|].
  intros n f. cbn. pose proof (mkdirs_size f [] (take n (resolve p))). lia.
Qed.

Lemma adds_look {A} (run : fs -> A * fs) fault :
  (forall f, (run f).2 = f) -> (forall k f, (fault k f).2 = f) -> adds 0 (syscall run fault).
Proof. intros Hr Hf. apply adds_syscall; intros; rewrite ?Hr, ?Hf; lia. Qed.

Lemma adds_map {A B} k (g : A -> B) m : adds k m -> adds k (io_map g m).
Proof. intros Hm w. specialize (Hm w). unfold io_map. by destruct (m w). Qed.

(** ** Bounds of the extraction *)

Section Bounds.
Context (base : Z).
Abbreviation M := (base + MAX_TOTAL_UNCOMPRESSED + MAX_ENTRY_SIZE + 1).

Lemma runs_zero {E A} b (m : io (result E A)) :
  adds 0 m -> b <= M -> runs M (fun z => z <= b) m (fun _ z => z <= b).
Proof. intros Hm Hb w Hw. specialize (Hm w). destruct (m w) as [[a|e] w']; cbn in *; lia. Qed.

Lemma runs_fail {E A} b (e : E) ok : b <= M -> runs M (fun z => z <= b) (efail (A := A) e) ok.
Proof. intros Hb w Hw. cbn in *. lia. Qed.

Lemma runs_ret {E A} (P : Z -> Prop) (a : A) (ok : A -> Z -> Prop) :
  (forall z, P z -> ok a z) -> runs M P (eret (E := E) a) ok.
Proof. intros H w Hw. cbn. auto. Qed.

Lemma runs_copy total p stream :
  total <= MAX_TOTAL_UNCOMPRESSED ->
  runs M (fun z => z <= base + total) (copy_limited (MAX_ENTRY_SIZE + 1) p stream)
    (fun written z => z <= base + total + written /\ 0 <= written <= MAX_ENTRY_SIZE + 1).
Proof.
  intros Ht. destruct stream as [data err]. unfold copy_limited. cbn zeta.
  set (taken := if _ <? _ then data else _).
  assert (Hl : 0 <= lenZ taken <= MAX_ENTRY_SIZE + 1).
  { split; [apply lenZ_nonneg|]. subst taken. destruct (Z.ltb_spec (lenZ data) (MAX_ENTRY_SIZE + 1)); [lia|].
    rewrite lenZ_takeZ by (unfold MAX_ENTRY_SIZE; lia). lia. }
  clearbody taken. eapply runs_ebind; [apply (runs_adds M (base + total) (lenZ taken)); [apply adds_append|lia]|].
  intros ?. destruct err as [e|]; [case_match; [apply runs_fail; lia|]|]; apply runs_ret; lia.
Qed.

Lemma runs_discard {A} b p (e : ArchiveError) (ok : A -> Z -> Prop) :
  b <= M -> runs M (fun z => z <= b) (ebind (ignore (remove_file p)) (fun _ => efail e)) ok.
Proof.
  intros Hb. eapply runs_ebind; [apply runs_zero; [apply adds_map, adds_remove|done]|]. intros ?. by apply runs_fail.
Qed.

Lemma adds_canonicalize p : adds 0 (canonicalize p).
Proof. by apply adds_look. Qed.

Lemma runs_recheck b p t n : b <= M -> runs M (fun z => z <= b) (recheck p t n) (fun _ z => z <= b).
Proof.
  intros Hb. unfold recheck. eapply runs_ebind; [by apply runs_zero; [apply adds_map, adds_look|]|]. intros [|]; [|by apply runs_ret].
  do 2 (eapply runs_ebind; [apply runs_zero; [apply adds_map, adds_canonicalize|done]|intros ?]).
  case_match; [by apply runs_discard|by apply runs_ret].
Qed.

Abbreviation within total := (fun z => z <= base + total /\ 0 <= total <= MAX_TOTAL_UNCOMPRESSED).

Lemma runs_extract_file target p e total :
  0 <= total <= MAX_TOTAL_UNCOMPRESSED ->
  runs M (fun z => z <= base + total) (extract_file target p e total) (fun t => within t).
Proof.
  intros Ht. assert (Hb : base + total <= M) by (unfold MAX_ENTRY_SIZE; lia).
  unfold extract_file. cbn zeta. case_match; [by apply runs_fail|].
  eapply runs_ebind with (mid := fun _ z => z <= base + total).
  { destruct (parent_path _); [|by apply runs_ret]. apply runs_zero; [apply adds_map, adds_create_dir_all|done]. }
  intros ?. eapply runs_ebind; [apply runs_zero; [apply adds_map, adds_create|done]|].
  intros ?. eapply runs_ebind; [apply runs_map_err, runs_copy; lia|]. intros written.
  destruct (Z.ltb_spec MAX_ENTRY_SIZE written) as [Hw|Hw].
  { eapply runs_pre; [apply (runs_discard M); lia|]. cbn. lia. }
  assert (Hmin : forall z, z <= base + total + written /\ 0 <= written <= MAX_ENTRY_SIZE + 1 ->
            z <= base + Z.min (total + written) u64_max /\ 0 <= Z.min (total + written) u64_max).
  { intros z. unfold MAX_TOTAL_UNCOMPRESSED, MAX_ENTRY_SIZE, u64_max in *. lia. }
  destruct (Z.ltb_spec MAX_TOTAL_UNCOMPRESSED (Z.min (total + written) u64_max)) as [Hm|Hm].
  { eapply runs_pre; [apply (runs_discard M); lia|]. cbn. lia. }
  set (t' := Z.min (total + written) u64_max) in *. intros w Hz. apply Hmin in Hz as [Hz H0].
  revert w Hz. change (runs M (fun z => z <= base + t')
    (ebind (recheck (join target p) target p) (fun _ => eret t')) (fun t => within t)).
  eapply runs_ebind; [apply runs_recheck; unfold MAX_ENTRY_SIZE; lia|]. intros ?. apply runs_ret. lia.
Qed.

Lemma runs_extract_entry target e total :
  0 <= total <= MAX_TOTAL_UNCOMPRESSED ->
  runs M (fun z => z <= base + total) (extract_entry target e total) (fun t => within t).
Proof.
  intros Ht. assert (Hb : base + total <= M) by (unfold MAX_ENTRY_SIZE; lia).
  unfold extract_entry. destruct (te_path e) as [p|err]; cbn [map_err]; [|by apply runs_fail].
  change (ebind (elift (Ok p)) ?k) with (k p). cbn beta. case_match; [by apply runs_fail|].
  destruct (validate_archive_entry_path p target) as [[]|err]; [|by apply runs_fail].
  change (ebind (elift (Ok tt)) ?k) with (k tt). cbn beta.
  destruct (te_type e); try (apply runs_ret; lia); [by apply runs_extract_file|].
  eapply runs_ebind; [apply runs_zero; [apply adds_map, adds_create_dir_all|done]|]. intros ?. apply runs_ret. lia.
Qed.

Lemma runs_extract_loop target entries n total :
  0 <= total <= MAX_TOTAL_UNCOMPRESSED ->
  runs M (fun z => z <= base + total) (extract_loop target entries n total)
    (fun t z => within t z /\ (entries <> [] -> n + lenZ entries <= MAX_ENTRIES)).
Proof.
  revert n total; induction entries as [|[e|err] entries IH]; intros n total Ht; cbn [extract_loop];
    [apply runs_ret; intros; split; [lia|done]| |apply runs_fail; unfold MAX_ENTRY_SIZE; lia].
  cbn zeta. destruct (Z.ltb_spec MAX_ENTRIES (n + 1)) as [Hn|Hn]; [apply runs_fail; unfold MAX_ENTRY_SIZE; lia|].
  eapply runs_ebind; [by apply runs_extract_entry|]. intros t w [Hz Ht'].
  pose proof (IH (n + 1) t Ht' w Hz) as Hl. destruct (extract_loop _ _ _ _ w) as [[t2|e2] w']; [|done].
  destruct Hl as [Hl Hc]. split; [done|]. intros _. unfold lenZ in *. cbn [length].
  destruct entries; [cbn; lia|]. specialize (Hc ltac:(done)). lia.
Qed.
End Bounds.

Lemma adds_delete_all f ps : size_below (delete_all f ps) d <= size_below f d.
Proof.
  induction ps as [|p ps IH]; [cbn; lia|]. rewrite (size_below_delete (delete_all f ps) d p) in IH.
  change (delete_all f (p :: ps)) with (delete p (delete_all f ps)).
  pose proof (weight_nonneg d p (delete_all f ps !! p)). lia.
Qed.

Lemma adds_remove_dir_all p : adds 0 (remove_dir_all p).
Proof.
  apply adds_syscall; intros; repeat case_match; cbn; try lia; rewrite Z.add_0_r; apply adds_delete_all.
Qed.

Lemma adds_create_dir p : adds 0 (create_dir p).
Proof.
  apply adds_syscall; [|intros; cbn; lia]. intros f. repeat case_match; cbn; try lia. rewrite size_below_insert.
  pose proof (weight_nonneg d (resolve p) (f !! resolve p)).
  assert (weight d (resolve p) (Some Dir) = 0) as -> by (unfold weight; by repeat case_match). lia.
Qed.

(** A decompression bomb is contained: below any directory, the whole disk
    included, a successful extraction adds at most [MAX_TOTAL_UNCOMPRESSED] bytes
    and has read at most [MAX_ENTRIES] entries; an extraction that fails, at whatever
    call, has added at most one entry's limit and a byte more, even if the cleanup
    of its directory fails too. *)
Theorem extraction_bounded entries_of input target w :
  match extract_archive entries_of input target w with
  | (Ok _, w') => size_below (files w') d <= size_below (files w) d + MAX_TOTAL_UNCOMPRESSED /\
      exists content entries, fs_read (files w) (resolve input) = Ok content /\
        entries_of content = Ok entries /\ lenZ entries <= MAX_ENTRIES
  | (Err _, w') => size_below (files w') d <= size_below (files w) d + MAX_TOTAL_UNCOMPRESSED + MAX_ENTRY_SIZE + 1
  end.
Proof.
  assert (Hpos : 0 <= MAX_TOTAL_UNCOMPRESSED /\ 0 <= MAX_ENTRY_SIZE) by done.
  unfold extract_archive, ebind at 1, aio at 1, io_map.
  pose proof (adds_look (fun f => (fs_read f (resolve input), f)) (fun _ f => (Err IoFault, f)) ltac:(done) ltac:(done) w) as Hr.
  fold (read input) in Hr.
  destruct (read input w) as [[content|e] w1] eqn:Er; cbn [map_err snd] in *; [|lia].
  assert (fs_read (files w) (resolve input) = Ok content) as Hc.
  { unfold read in Er. destruct (syscall_cases (fun f => (fs_read f (resolve input), f)) (fun _ f => (Err IoFault, f)) w)
      as [[_ E]|(k & _ & E)]; rewrite E in Er; by injection Er. }
  unfold ebind at 1. pose proof (adds_create_dir target w1) as Hd. unfold aio, io_map.
  destruct (create_dir target w1) as [[[]|e] w2]; cbn [map_err snd] in *; [|lia].
  unfold scoped_dir, ebind at 1, elift. destruct (entries_of content) as [entries|e] eqn:Ee; cbn [map_err];
    [|pose proof (adds_remove_dir_all target w2); lia].
  unfold ebind. pose proof (runs_extract_loop (size_below (files w) d) target entries 0 0 ltac:(lia) w2 ltac:(cbn; lia)) as Hl.
  destruct (extract_loop target entries 0 0 w2) as [[t|e] w3]; cbn [eret].
  - destruct Hl as [[Hl Ht] Hn]. split; [lia|]. exists content, entries. split; [done|]. split; [done|].
    destruct entries; [done|]. specialize (Hn ltac:(done)). lia.
  - pose proof (adds_remove_dir_all target w3). lia.
Qed.
End Sized.

(** ** Paths of entries *)

Lemma part_component_plain c : plain c -> part_component c = Some (Normal c).
Proof.
  intros (H1 & H2 & H3 & _). unfold part_component. by rewrite !bool_decide_eq_false_2 by done.
Qed.

(** A path is empty, ends in a separator, or is joined with one. *)
Lemma join_cases d c :
  starts_with "/" c = false ->
  (d = "" /\ join d c = c) \/ (exists k, (d = k +:+ "/" \/ d = k) /\ d <> "" /\ join d c = k +:+ "/" +:+ c).
Proof.
  intros Hc. unfold join. rewrite Hc. unfold str_is_empty. case_bool_decide as Hd; [subst; by left|]. cbn [orb].
  destruct (ends_with "/" d) eqn:E; [|right; exists d; by eauto].
  right. unfold ends_with in E. apply prefixb_spec in E as [k Hk].
  apply (f_equal reverse) in Hk. rewrite reverse_involutive, reverse_app in Hk.
  assert (d = of_chars (reverse k) +:+ "/") as ->.
  { apply (inj chars). by rewrite Hk, chars_app, chars_of_chars. }
  exists (of_chars (reverse k)). split; [by left|]. split; [done|]. apply (inj chars). by rewrite !chars_app, <- app_assoc.
Qed.

Lemma starts_with_longer p d e : d <> "" -> str_len p = 1 -> starts_with p (d +:+ e) = starts_with p d.
Proof.
  intros Hd Hp. unfold starts_with, str_len, lenZ in *. rewrite chars_app.
  destruct (chars p) as [|x [|y l]] eqn:Ep; cbn in Hp; try lia.
  destruct (chars d) as [|c l] eqn:E; [by destruct Hd; apply (inj chars)|done].
Qed.

Lemma path_components_join d c :
  plain c -> path_components (join d c) = path_components d ++ [Normal c].
Proof.
  intros Hc. pose proof Hc as (H1 & H2 & _ & Hs). pose proof (not_starts_with_slash c Hs) as Hns.
  destruct (join_cases d c Hns) as [[-> ->]|(k & Hk & Hd & ->)].
  - unfold path_components. rewrite Hns, split_char_none by done. cbn [head omap list_omap].
    rewrite part_component_plain by done. rewrite bool_decide_eq_false_2 by (intros [= ?]; done). done.
  - assert (starts_with "/" (k +:+ "/" +:+ c) = starts_with "/" d) as E1.
    { destruct Hk as [->| ->].
      - destruct (decide (k = "")) as [->|]; [done|]. by rewrite !starts_with_longer.
      - by apply starts_with_longer. }
    assert (omap part_component (split_char "/"%char (k +:+ "/" +:+ c)) =
            omap part_component (split_char "/"%char d) ++ [Normal c]) as E2.
    { rewrite split_char_sep by done. rewrite omap_app. cbn [omap list_omap]. rewrite part_component_plain by done.
      f_equal. destruct Hk as [->| ->]; [|done]. change (k +:+ "/") with (k +:+ "/" +:+ "").
      rewrite split_char_sep by set_solver. rewrite omap_app. cbn. by rewrite app_nil_r. }
    assert (head (split_char "/"%char (k +:+ "/" +:+ c)) = head (split_char "/"%char d)) as E3.
    { rewrite split_char_sep by done.
      assert (exists x l, split_char "/"%char k = x :: l) as (x & l & E).
      { unfold split_char. generalize (@nil ascii) as acc. induction (chars k) as [|a l IH]; intros acc; cbn; [by eauto|].
        case_match; [by eauto|apply IH]. }
      rewrite E. destruct Hk as [->| ->]; [|by rewrite E]. change (k +:+ "/") with (k +:+ "/" +:+ "").
      rewrite split_char_sep by set_solver. by rewrite E. }
    unfold path_components. rewrite E1, E2, E3. by rewrite app_assoc.
Qed.

(** The parts of a path have no separator. *)
Lemma split_char_parts p c : c ∈ split_char "/"%char p -> "/"%char ∉ chars c.
Proof.
  unfold split_char. assert (forall l acc, "/"%char ∉ acc ->
    c ∈ split_on (fun x => bool_decide ("/"%char = x)) acc l -> "/"%char ∉ chars c) as H; [|apply H, not_elem_of_nil].
  induction l as [|a l IH]; intros acc Hacc; cbn.
  - intros ->%list_elem_of_singleton. by rewrite chars_of_chars, elem_of_reverse.
  - case_bool_decide as Ha.
    + intros [->|Hin]%elem_of_cons; [by rewrite chars_of_chars, elem_of_reverse|]. apply (IH []); [apply not_elem_of_nil|done].
    + apply IH. by apply not_elem_of_cons.
Qed.

Lemma part_plain p c : Normal c ∈ path_components p -> plain c.
Proof.
  unfold path_components. intros [H|H]%elem_of_app.
  - repeat case_match; set_solver.
  - apply list_elem_of_omap in H as (x & Hx & Hc). unfold part_component in Hc.
    destruct (bool_decide_reflect (x = "")), (bool_decide_reflect (x = ".")), (bool_decide_reflect (x = ".."));
      cbn in Hc; simplify_eq. split_and!; [done..|]. by eapply split_char_parts.
Qed.

Lemma normalize_safe p d cs :
  (forall c, c ∈ cs -> c = CurDir \/ exists n, c = Normal n /\ plain n) ->
  exists n, normalize_components p d cs = Ok n /\ path_components d `prefix_of` path_components n.
Proof.
  revert d; induction cs as [|c cs IH]; intros d Hcs; [by exists d|].
  destruct (Hcs c ltac:(set_solver)) as [->|(n & -> & Hn)]; cbn.
  - apply IH. set_solver.
  - destruct (IH (join d n)) as (m & Hm & Hp); [set_solver|]. exists m. split; [done|].
    rewrite path_components_join in Hp by done. etrans; [|exact Hp]. by apply prefix_app_r.
Qed.

Definition control_free (p : string) : Prop := Forall (fun u => is_ascii_control u = false) (utf8_chars (chars p)).

Lemma check_chars_iff p idx us :
  check_chars p idx us = Ok tt <-> Forall (fun u => is_ascii_control u = false) us.
Proof.
  revert idx; induction us as [|u us IH]; intros idx; cbn; [split; by constructor|].
  rewrite Forall_cons, <- (IH (idx + 1)). case_bool_decide as Hu.
  - subst. split; [done|]. by intros [? _].
  - destruct (is_ascii_control u); [split; [done|by intros [? _]]|]. by split; [|intros [_ ?]].
Qed.

Lemma safe_components p :
  safe_path p <-> (RootDir ∉ path_components p) /\ (ParentDir ∉ path_components p).
Proof.
  unfold safe_path, path_components. rewrite !not_elem_of_app.
  assert (forall l : list string, (RootDir ∉ omap part_component l) /\ (ParentDir ∉ omap part_component l <-> ".." ∉ l)) as H.
  { intros l. unfold part_component. split.
    - intros (x & _ & Hx)%list_elem_of_omap. repeat case_match; done.
    - split; intros Hn Hin; apply Hn.
      + apply list_elem_of_omap. by exists "..".
      + apply list_elem_of_omap in Hin as (x & Hin & Hx).
        destruct (bool_decide_reflect (x = "")), (bool_decide_reflect (x = ".")), (bool_decide_reflect (x = "..")); cbn in Hx;
          by simplify_eq. }
  destruct (H (split_char "/"%char p)) as [Hr Hp]. destruct (starts_with "/" p).
  - split; [by intros [? _]|]. set_solver.
  - rewrite Hp. case_bool_decide; set_solver.
Qed.

(** The paths an archive may hold: an entry's path is accepted exactly when it
    has no ASCII control character, is relative and never goes up, whatever the
    target directory is: the final check of the normalized path never fails. *)
Theorem entry_path_accepted p target :
  validate_archive_entry_path p target = Ok tt <-> control_free p /\ safe_path p.
Proof.
  split.
  - intros H. split; [|by eapply checked_path]. unfold validate_archive_entry_path in H. rewrite result_bind_Ok in H.
    destruct H as ([] & H & _). by apply check_chars_iff in H.
  - intros [Hc Hs]. unfold validate_archive_entry_path. rewrite (proj2 (check_chars_iff p 0 _) Hc). cbn [mbind result_bind].
    apply safe_components in Hs as [Hr Hp].
    assert (forall cs, (RootDir ∉ cs) -> (ParentDir ∉ cs) -> check_components p cs = Ok tt) as Hcc.
    { induction cs as [|[| | |c] cs IH]; intros; cbn; try done; set_solver. }
    rewrite Hcc by done. cbn [mbind result_bind]. cbn zeta.
    destruct (normalize_safe p target (path_components p)) as (n & -> & Hn).
    { intros [| | |c] Hin; [done|by left|done|]. right. exists c. split; [done|]. by eapply part_plain. }
    cbn [mbind result_bind]. unfold starts_with_path. by rewrite bool_decide_eq_true_2.
Qed.
