(* ===== verification/ArchiveRoundtrip.v ===== *)
(** * ArchiveRoundtrip: an archive extracts to what it was built from

    On a machine where no call fails, the files and directories added to a
    builder are, after extraction, below the temporary directory with their
    contents. *)

From S2P Require Import Prelude Text Version Validation RateLimit Fs Storage StorageFacts Confinement Admin DbModels Sql System Archive ArchiveFacts.

#[local] Open Scope Z_scope.

(** ** Paths made of names *)

Definition path_of (cs : list string) : string := String.concat "/" cs.

Lemma concat_cons c cs : cs <> [] -> String.concat "/" (c :: cs) = c +:+ "/" +:+ String.concat "/" cs.
Proof. by destruct cs. Qed.

Lemma split_path_of cs : cs <> [] -> Forall plain cs -> split_char "/"%char (path_of cs) = cs.
Proof.
  intros Hne Hp. unfold path_of. induction Hp as [|c cs Hc Hp IH]; [done|].
  destruct (decide (cs = [])) as [->|Hcs]; [cbn; apply split_char_none, Hc|].
  rewrite concat_cons by done. rewrite split_char_app, IH by done. by rewrite split_char_none by apply Hc.
Qed.

Lemma path_of_relative cs : Forall plain cs -> starts_with "/" (path_of cs) = false.
Proof.
  intros Hp. unfold path_of. destruct Hp as [|c cs Hc Hp]; [done|].
  destruct (decide (cs = [])) as [->|Hcs]; [apply not_starts_with_slash, Hc|].
  rewrite concat_cons by done. rewrite starts_with_longer; [apply not_starts_with_slash, Hc|apply Hc|done].
Qed.

Lemma path_of_safe cs : cs <> [] -> Forall plain cs -> safe_path (path_of cs).
Proof.
  intros Hne Hp. split; [by apply path_of_relative|]. rewrite split_path_of by done. intros Hin.
  rewrite Forall_forall in Hp. by destruct (Hp _ Hin) as (_ & _ & ? & _).
Qed.

Lemma names_plain cs : Forall plain cs -> names cs = cs.
Proof.
  induction 1 as [|c cs Hc Hp IH]; [done|]. unfold names in *. cbn. destruct Hc as (H1 & H2 & _).
  rewrite !bool_decide_eq_false_2 by done. cbn. by rewrite IH.
Qed.

Lemma resolve_path_of d cs : cs <> [] -> Forall plain cs -> resolve (join d (path_of cs)) = resolve d ++ cs.
Proof.
  intros Hne Hp. rewrite resolve_safe by (by apply path_of_safe). by rewrite split_path_of, names_plain.
Qed.

Lemma path_of_snoc cs n : cs <> [] -> path_of (cs ++ [n]) = path_of cs +:+ "/" +:+ n.
Proof.
  intros Hne. unfold path_of. induction cs as [|c cs IH]; [done|]. cbn [app].
  destruct (decide (cs = [])) as [->|Hcs]; [done|]. rewrite concat_cons by (by destruct cs).
  rewrite IH, (concat_cons c cs) by done. apply (inj chars). by rewrite !chars_app, <- !app_assoc.
Qed.

Lemma join_path_of_snoc d cs n :
  cs <> [] -> Forall plain cs -> join d (path_of (cs ++ [n])) = join d (path_of cs) +:+ "/" +:+ n.
Proof.
  intros Hne Hcs. rewrite path_of_snoc by done. pose proof (path_of_relative cs Hcs) as Hr. unfold join.
  assert (path_of cs <> "") as Hx.
  { intros E. pose proof (split_path_of cs Hne Hcs) as Hs. rewrite E in Hs. cbn in Hs. subst cs.
    rewrite Forall_singleton in Hcs. by destruct Hcs as [? _]. }
  rewrite starts_with_longer, Hr by done. case_match; apply (inj chars); by rewrite !chars_app, <- ?app_assoc.
Qed.

(** The parent and the last component of a path of names. *)
Lemma parent_path_of d cs n :
  Forall plain (cs ++ [n]) ->
  exists q, parent_path (join d (path_of (cs ++ [n]))) = Some q /\ resolve q = resolve d ++ cs.
Proof.
  intros [Hcs Hn]%Forall_app. rewrite Forall_singleton in Hn.
  destruct (decide (cs = [])) as [->|Hne].
  { rewrite app_nil_r. exact (parent_path_join d n Hn). }
  rewrite join_path_of_snoc by done.
  destruct (parent_path_sep (join d (path_of cs)) n Hn) as (q & Hq & Hr). exists q. split; [done|].
  by rewrite Hr, resolve_path_of.
Qed.

Lemma path_file_name_of d cs n : Forall plain (cs ++ [n]) -> path_file_name (join d (path_of (cs ++ [n]))) = Some n.
Proof.
  intros [Hcs Hn]%Forall_app. rewrite Forall_singleton in Hn.
  destruct (decide (cs = [])) as [->|Hne]; [exact (path_file_name_join d n Hn)|].
  rewrite join_path_of_snoc by done. by apply path_file_name_sep.
Qed.

(** Where paths lead consists of names. *)
Lemma resolve_plain p : Forall plain (resolve p).
Proof.
  unfold resolve. assert (forall parts st, Forall plain st -> (forall c, c ∈ parts -> "/"%char ∉ chars c) ->
    Forall plain (fold_left enter parts st)) as H.
  { induction parts as [|c parts IH]; intros st Hst Hp; [done|]. cbn. apply IH; [|set_solver]. unfold enter.
    destruct (bool_decide_reflect (c = "")), (bool_decide_reflect (c = ".")); cbn; try done.
    case_bool_decide.
    - destruct st as [|x l _] using rev_ind; [done|]. rewrite removelast_last. by apply Forall_app in Hst as [? _].
    - apply Forall_app. split; [done|]. rewrite Forall_singleton. split_and!; [done..|]. apply Hp. set_solver. }
  apply H; [done|]. intros c. apply split_char_parts.
Qed.

Lemma abs_path_components q : Forall plain q -> path_components (abs_path q) = RootDir :: (Normal <$> q).
Proof.
  intros Hq. unfold path_components, abs_path. rewrite (proj2 (starts_with_spec "/" ("/" +:+ String.concat "/" q))) by (by eexists). cbn [app]. f_equal.
  change ("/" +:+ String.concat "/" q) with ("" +:+ "/" +:+ path_of q). rewrite split_char_app.
  change (split_char "/"%char "") with [""]. cbn [app omap list_omap].
  change (part_component "") with (@None component). cbn match.
  destruct (decide (q = [])) as [->|Hne]; [done|]. rewrite split_path_of by done.
  induction Hq as [|c cs Hc Hp IH]; [done|]. cbn. rewrite part_component_plain by done. f_equal.
  destruct cs; [done|]. by apply IH.
Qed.

(** ** Calls that succeed *)

Lemma write_quiet p data w :
  quiet w -> resolve p <> [] -> node_at (files w) (parent (resolve p)) = Some Dir ->
  node_at (files w) (resolve p) <> Some Dir ->
  write p data w = (Ok tt, advance w (<[resolve p := File data]> (files w))).
Proof.
  intros Hq Hne Hpar Hnd. unfold write. rewrite syscall_quiet by done. unfold fs_put. rewrite Hpar.
  by destruct (node_at (files w) (resolve p)) as [[|]|].
Qed.

Lemma append_quiet p data c w :
  quiet w -> node_at (files w) (resolve p) = Some (File c) ->
  append p data w = (Ok tt, advance w (<[resolve p := File (c ++ data)]> (files w))).
Proof. intros Hq Hn. unfold append. rewrite syscall_quiet by done. unfold fs_append. by rewrite Hn. Qed.

Lemma canonicalize_quiet p w :
  quiet w -> is_Some (node_at (files w) (resolve p)) ->
  canonicalize p w = (Ok (abs_path (resolve p)), advance w (files w)).
Proof. intros Hq Hn. unfold canonicalize. rewrite syscall_quiet by done. by rewrite bool_decide_eq_true_2. Qed.

Lemma ebind_step {E A B} (m : io (result E A)) (k : A -> io (result E B)) w a w' :
  m w = (Ok a, w') -> ebind m k w = k a w'.
Proof. unfold ebind. by intros ->. Qed.

Lemma aio_step {A} (m : io (result io_error A)) w a w' : m w = (Ok a, w') -> aio m w = (Ok a, w').
Proof. unfold aio, io_map. by intros ->. Qed.

Section Extract.
Context (target : string).
Abbreviation T := (resolve target).

Lemma recheck_quiet cs w c :
  quiet w -> cs <> [] -> Forall plain cs -> node_at (files w) T = Some Dir ->
  node_at (files w) (T ++ cs) = Some (File c) ->
  exists w', recheck (join target (path_of cs)) target (path_of cs) w = (Ok tt, w') /\ quiet w' /\ files w' = files w.
Proof.
  intros Hq Hne Hp HT Hf. pose proof (resolve_path_of target cs Hne Hp) as Hr. unfold recheck.
  erewrite ebind_step by (unfold io_map; by rewrite exists_quiet). rewrite Hr, Hf, bool_decide_eq_true_2 by done.
  erewrite ebind_step; [|apply aio_step, canonicalize_quiet; [by apply quiet_advance|rewrite Hr; cbn; by rewrite Hf]].
  erewrite ebind_step; [|apply aio_step, canonicalize_quiet; [by do 2 apply quiet_advance|cbn; by rewrite HT]].
  unfold starts_with_path. rewrite Hr, !abs_path_components by apply resolve_plain || (apply Forall_app; split; [apply resolve_plain|done]).
  rewrite bool_decide_eq_true_2; [|rewrite fmap_app; by apply (prefix_app_r (RootDir :: (Normal <$> T)) (RootDir :: (Normal <$> T)))].
  cbn [negb]. eexists. split; [done|]. split; [by do 3 apply quiet_advance|done].
Qed.

(** What a step keeps: everything but [p], up to new directories on the way to [q]. *)
Definition grown (f f' : fs) (p q : list string) : Prop :=
  (forall x n, x <> p -> node_at f x = Some n -> node_at f' x = Some n) /\
  (forall x, x <> p -> node_at f' x = node_at f x \/ (x `prefix_of` q /\ node_at f' x = Some Dir)).

Lemma extract_file_quiet cs n data total w :
  quiet w -> Forall plain (cs ++ [n]) -> node_at (files w) T = Some Dir ->
  clear_way (files w) (T ++ cs) -> node_at (files w) (T ++ cs ++ [n]) <> Some Dir ->
  lenZ data <= MAX_ENTRY_SIZE -> 0 <= total -> total + lenZ data <= MAX_TOTAL_UNCOMPRESSED ->
  exists w', extract_file target (path_of (cs ++ [n])) (file_entry (path_of (cs ++ [n])) data) total w
             = (Ok (total + lenZ data), w') /\ quiet w' /\
    node_at (files w') (T ++ cs ++ [n]) = Some (File data) /\ grown (files w) (files w') (T ++ cs ++ [n]) (T ++ cs).
Proof.
  intros Hq Hp HT Hway Hnd Hl H0 Htot.
  assert (Hne : cs ++ [n] <> []) by (by destruct cs). pose proof (resolve_path_of target _ Hne Hp) as Hr.
  assert (HTne : T ++ cs ++ [n] <> []) by (intros [_ ?]%app_eq_nil; done).
  destruct (parent_path_of target cs n Hp) as (q & Hq1 & Hq2).
  unfold extract_file. cbn zeta. cbn [file_entry te_size te_data default from_option id].
  rewrite (proj2 (Z.ltb_ge MAX_ENTRY_SIZE (lenZ data))) by done. rewrite Hq1.
  destruct (create_dir_all_quiet q w Hq) as (w1 & E1 & Q1 & D1 & K1 & N1); [by rewrite Hq2|]. rewrite Hq2 in D1, N1.
  rewrite (ebind_step _ _ _ _ _ (aio_step _ _ _ _ E1)).
  assert (P1 : node_at (files w1) (parent (T ++ cs ++ [n])) = Some Dir).
  { unfold parent. rewrite app_assoc, removelast_last. by apply D1. }
  assert (Hn1 : node_at (files w1) (T ++ cs ++ [n]) <> Some Dir).
  { destruct (N1 (T ++ cs ++ [n])) as [->|[Hx _]]; [done|]. apply prefix_length in Hx. rewrite !length_app in Hx. cbn in Hx. lia. }
  rewrite (ebind_step _ _ _ _ _ (aio_step _ _ _ _ (write_quiet (join target (path_of (cs ++ [n]))) [] w1 Q1
    ltac:(by rewrite Hr) ltac:(by rewrite Hr) ltac:(by rewrite Hr)))). rewrite Hr.
  set (w2 := advance w1 _). assert (Q2 : quiet w2) by (by apply quiet_advance).
  assert (N2 : node_at (files w2) (T ++ cs ++ [n]) = Some (File [])).
  { subst w2. cbn. rewrite node_at_insert by done. by rewrite bool_decide_eq_true_2. }
  assert (E3 : copy_limited (MAX_ENTRY_SIZE + 1) (join target (path_of (cs ++ [n]))) (data, None) w2 =
               (Ok (lenZ data), advance w2 (<[T ++ cs ++ [n] := File data]> (files w2)))).
  { unfold copy_limited. rewrite (proj2 (Z.ltb_lt (lenZ data) (MAX_ENTRY_SIZE + 1))) by lia. cbn zeta.
    rewrite (ebind_step _ _ _ _ _ (append_quiet _ data [] w2 Q2 ltac:(by rewrite Hr))). by rewrite Hr. }
  rewrite (ebind_step _ _ _ _ _ (aio_step _ _ _ _ E3)). clear E3.
  set (w3 := advance w2 _). assert (Q3 : quiet w3) by (by apply quiet_advance).
  rewrite (proj2 (Z.ltb_ge MAX_ENTRY_SIZE (lenZ data))) by done.
  rewrite Z.min_l by (unfold MAX_TOTAL_UNCOMPRESSED, u64_max in *; lia).
  rewrite (proj2 (Z.ltb_ge MAX_TOTAL_UNCOMPRESSED (total + lenZ data))) by done.
  assert (N3 : forall x, node_at (files w3) x = if bool_decide (x = T ++ cs ++ [n]) then Some (File data) else node_at (files w1) x).
  { intros x. subst w3 w2. cbn. rewrite !node_at_insert by done. by case_bool_decide. }
  destruct (recheck_quiet (cs ++ [n]) w3 data Q3 Hne Hp) as (w4 & E4 & Q4 & F4).
  { rewrite N3, bool_decide_eq_false_2; [by apply K1|]. intros E%(f_equal length). rewrite !length_app in E. cbn in E. lia. }
  { by rewrite N3, bool_decide_eq_true_2. }
  rewrite (ebind_step _ _ _ _ _ E4). exists w4. split; [done|]. split; [done|]. rewrite F4.
  split; [by rewrite N3, bool_decide_eq_true_2|]. split.
  - intros x m Hx Hm. rewrite N3, bool_decide_eq_false_2 by done. by apply K1.
  - intros x Hx. rewrite N3, bool_decide_eq_false_2 by done. apply N1.
Qed.
End Extract.

(** ** Items of an archive *)

(** The names on the way to a file with its content, or to a directory. *)
Abbreviation item := (list string * option bytes)%type.

Definition entry_of (i : item) : tar_entry :=
  match i.2 with Some data => file_entry (path_of i.1) data | None => dir_entry (path_of i.1) end.

Definition item_size (i : item) : Z := match i.2 with Some data => lenZ data | None => 0 end.

Definition good_item (i : item) : Prop :=
  i.1 <> [] /\ Forall plain i.1 /\ control_free (path_of i.1) /\ item_size i <= MAX_ENTRY_SIZE.

(** Nothing is below a file, and no path has two contents. *)
Definition consistent (l : list item) : Prop :=
  forall p d q o, (p, Some d) ∈ l -> (q, o) ∈ l -> p `prefix_of` q -> (q, o) = (p, Some d).

(** The tree below [T] is that of the items. *)
Record extracted (T : list string) (l : list item) (f : fs) : Prop := {
  ex_target : node_at f T = Some Dir;
  ex_way : clear_way f T;
  ex_file p d : (p, Some d) ∈ l -> node_at f (T ++ p) = Some (File d);
  ex_dir p : (p, None) ∈ l -> node_at f (T ++ p) = Some Dir;
  ex_only_file p d : node_at f (T ++ p) = Some (File d) -> (p, Some d) ∈ l;
  ex_only_dir p : p <> [] -> node_at f (T ++ p) = Some Dir ->
    exists q o, (q, o) ∈ l /\ p `prefix_of` q /\ (o <> None -> p <> q);
}.

Section Items.
Context (target : string) (l : list item).
Hypothesis Hcons : consistent l.
Abbreviation T := (resolve target).

Lemma items_clear done f p o :
  done ⊆ l -> (p, o) ∈ l -> extracted T done f ->
  forall q, q `prefix_of` p -> (o <> None -> q <> p) -> clear_way f (T ++ q).
Proof.
  intros Hd Hin Hex q Hq Ho x c Hx Hf.
  destruct (prefix_weak_total T x (T ++ q)) as [[y ->]|Hx2]; [by apply prefix_app_r|done| |by apply (ex_way _ _ _ Hex x c)].
  apply prefix_app_inv in Hx. apply (ex_only_file _ _ _ Hex) in Hf. apply Hd in Hf.
  assert ((p, o) = (y, Some c)) as [= -> ->] by (eapply Hcons; [done..|by etrans]).
  apply (Ho ltac:(done)). apply (anti_symm prefix); done.
Qed.

Lemma grown_extracted done f f' p o q :
  done ⊆ l -> (p, o) ∈ l -> extracted T done f -> p <> [] ->
  node_at f' (T ++ p) = Some (match o with Some d => File d | None => Dir end) ->
  grown f f' (T ++ p) (T ++ q) -> q `prefix_of` p -> (o <> None -> q <> p) -> extracted T ((p, o) :: done) f'.
Proof.
  intros Hd Hin Hex Hp Hnode [Hk Hn] Hq Hqp.
  assert (HTp : forall x, T ++ x <> T ++ p -> x <> p) by (intros x Hx ->; done).
  assert (Hpre : forall x, x `prefix_of` T -> x <> T ++ p).
  { intros x Hx ->. apply prefix_length in Hx. rewrite length_app in Hx. destruct p; [done|cbn in Hx; lia]. }
  split.
  - apply Hk; [by apply Hpre|apply Hex].
  - intros x c Hx Hf. destruct (Hn x (Hpre x Hx)) as [E|[_ E]]; [|congruence].
    rewrite E in Hf. by apply (ex_way _ _ _ Hex x c).
  - intros x d [[= -> <-]|Hx]%elem_of_cons; [done|]. destruct (decide (x = p)) as [->|Hne].
    + assert ((p, o) = (p, Some d)) as [= ->]; [|done]. by eapply Hcons; [apply Hd, Hx|..].
    + apply Hk; [by intros ?%(inj (app T))|]. by apply Hex.
  - intros x [[= -> <-]|Hx]%elem_of_cons; [done|]. destruct (decide (x = p)) as [->|Hne].
    + destruct o as [d|]; [|done].
      assert ((p, None) = (p, Some d)) as [= ->]. by eapply Hcons; [exact Hin|apply Hd, Hx|].
    + apply Hk; [by intros ?%(inj (app T))|]. by apply Hex.
  - intros x d Hf. destruct (decide (x = p)) as [->|Hne]; [destruct o; rewrite Hnode in Hf; simplify_eq; by left|].
    right. destruct (Hn (T ++ x)) as [E|[_ E]]; [by intros ?%(inj (app T))| |congruence].
    rewrite E in Hf. by apply Hex.
  - intros x Hx Hf. destruct (decide (x = p)) as [->|Hne].
    + exists p, o. split; [by left|]. split; [done|]. destruct o; [congruence|done].
    + destruct (Hn (T ++ x)) as [E|[E _]]; [by intros ?%(inj (app T))| |].
      * rewrite E in Hf. destruct (ex_only_dir _ _ _ Hex x Hx Hf) as (q' & o' & ? & ?). exists q', o'. split; [by right|done].
      * apply prefix_app_inv in E. exists p, o. split; [by left|]. split; [by etrans|]. done.
Qed.

Lemma extract_item i done total w :
  quiet w -> i ∈ l -> done ⊆ l -> good_item i -> extracted T done (files w) ->
  0 <= total -> total + item_size i <= MAX_TOTAL_UNCOMPRESSED ->
  exists w', extract_entry target (entry_of i) total w = (Ok (total + item_size i), w') /\ quiet w' /\
    extracted T (i :: done) (files w').
Proof.
  destruct i as [p o]. unfold good_item, item_size. cbn [fst snd].
  intros Hq Hin Hd (Hne & Hp & Hc & Hs) Hex H0 Htot. unfold extract_entry.
  assert (Hv : validate_archive_entry_path (path_of p) target = Ok tt).
  { apply entry_path_accepted. split; [done|by apply path_of_safe]. }
  destruct o as [d|]; cbn [entry_of fst snd file_entry dir_entry te_path te_type map_err];
    rewrite (ebind_step (elift (Ok (path_of p))) _ w _ w eq_refl);
    rewrite !bool_decide_eq_false_2 by done; cbn [orb];
    rewrite (ebind_step _ _ w tt w) by (unfold elift; by rewrite Hv).
  - destruct p as [|n cs _] using rev_ind; [done|].
    destruct (extract_file_quiet target cs n d total w Hq Hp) as (w' & E & Q & N & G); try done.
    { apply Hex. }
    { eapply (items_clear done _ (cs ++ [n]) (Some d)); try done; [by apply prefix_app_r|].
      intros _ E%(f_equal length). rewrite length_app in E. cbn in E. lia. }
    { intros Hf. destruct (ex_only_dir _ _ _ Hex _ Hne Hf) as (q & o & Hq' & Hpre & Ho). apply Hd in Hq'.
      assert ((q, o) = (cs ++ [n], Some d)) as [= -> ->] by (by eapply Hcons). by apply Ho. }
    exists w'. split; [done|]. split; [done|].
    eapply (grown_extracted done _ _ _ _ cs); try done; [by apply prefix_app_r|].
    intros _ E2%(f_equal length). rewrite length_app in E2. cbn in E2. lia.
  - destruct (create_dir_all_quiet (join target (path_of p)) w Hq) as (w' & E & Q & D & K & N).
    { rewrite resolve_path_of by done. by eapply (items_clear done _ p None). }
    rewrite resolve_path_of in D, N by done.
    rewrite (ebind_step _ _ _ _ _ (aio_step _ _ _ _ E)). rewrite Z.add_0_r. exists w'. split; [done|]. split; [done|].
    eapply (grown_extracted done _ _ _ _ p); try done; [by apply D|]. split; [auto|]. intros x _. apply N.
Qed.

Lemma extract_items todo done count total w :
  quiet w -> todo ⊆ l -> done ⊆ l -> Forall good_item todo -> extracted T done (files w) ->
  0 <= total -> total + sum_over item_size todo <= MAX_TOTAL_UNCOMPRESSED -> 0 <= count -> count + lenZ todo <= MAX_ENTRIES ->
  exists t w', extract_loop target (Ok <$> (entry_of <$> todo)) count total w = (Ok t, w') /\ quiet w' /\
    extracted T (reverse todo ++ done) (files w').
Proof.
  revert done count total w; induction todo as [|i todo IH]; intros done count total w Hq Ht Hd Hg Hex H0 Htot Hc Hn.
  { exists total, w. done. }
  apply Forall_cons in Hg as [Hi Hg]. cbn [fmap list_fmap extract_loop].
  assert (Hsum : 0 <= sum_over item_size todo).
  { apply sum_over_nonneg. intros [p [d|]]; unfold item_size; cbn; [apply lenZ_nonneg|lia]. }
  assert (Hsz : 0 <= item_size i) by (destruct i as [p [d|]]; unfold item_size; cbn; [apply lenZ_nonneg|lia]).
  unfold lenZ in Hn. cbn in Htot, Hn.
  rewrite (proj2 (Z.ltb_ge MAX_ENTRIES (count + 1))) by lia.
  destruct (extract_item i done total w) as (w1 & E1 & Q1 & X1); try done; [apply Ht; by left|lia|].
  rewrite (ebind_step _ _ _ _ _ E1).
  destruct (IH (i :: done) (count + 1) (total + item_size i) w1) as (t & w' & E & Q & X); try done; try lia.
  { intros x Hx. apply Ht. by right. }
  { intros x [->|Hx]%elem_of_cons; [apply Ht; by left|by apply Hd]. }
  { unfold lenZ. lia. }
  exists t, w'. split; [done|]. split; [done|]. by rewrite reverse_cons, <- app_assoc.
Qed.
End Items.

(** ** Building *)

Lemma add_file_Ok src cs b w b' w' :
  cs <> [] -> add_file src (path_of cs) b w = (Ok b', w') ->
  exists data, fs_read (files w) (resolve src) = Ok data /\ files w' = files w /\
    b' = append_entry (entry_of (ab_base_dir b :: cs, Some data)) b.
Proof.
  intros Hcs. unfold add_file, ebind, aio, io_map, read.
  destruct (syscall_cases (fun f => (fs_read f (resolve src), f)) (fun _ f => (Err IoFault, f)) w) as [[_ ->]|(k & _ & ->)];
    cbn [fst snd map_err]; [|done].
  destruct (fs_read (files w) (resolve src)) as [data|e]; [|done]. cbn [map_err eret]. intros [= <- <-].
  exists data. split; [done|]. split; [done|]. unfold entry_of, path_of. cbn [fst snd]. by rewrite concat_cons.
Qed.

Lemma add_directory_Ok cs b w :
  cs <> [] -> add_directory (path_of cs) b w = (Ok (append_entry (entry_of (ab_base_dir b :: cs, None)) b), w).
Proof. intros Hcs. unfold add_directory, eret, entry_of, path_of. cbn [fst snd]. by rewrite concat_cons. Qed.

(** C36: An archive gives back what it was built from: when tar and gzip decode what
    they encode, no call fails and the limits are kept, extracting a finished
    archive into an unused directory leaves there exactly the files that were added,
    with their contents, and the added directories. *)
Theorem archive_roundtrip tar_gz entries_of target l b w w1 :
  (forall es, entries_of (tar_gz es) = Ok (Ok <$> es)) ->
  ab_entries b = entry_of <$> l -> Forall good_item l -> consistent l ->
  sum_over item_size l <= MAX_TOTAL_UNCOMPRESSED -> lenZ l <= MAX_ENTRIES ->
  finish tar_gz b w = (Ok tt, w1) -> quiet w1 ->
  node_at (files w1) (parent (resolve target)) = Some Dir -> clear_way (files w1) (parent (resolve target)) ->
  (forall x, node_at (files w1) (resolve target ++ x) = None) ->
  exists w2, extract_archive entries_of (ab_output b) target w1 = (Ok target, w2) /\
    (forall p d, node_at (files w2) (resolve target ++ p) = Some (File d) <-> (p, Some d) ∈ l) /\
    (forall p, (p, None) ∈ l -> node_at (files w2) (resolve target ++ p) = Some Dir).
Proof.
  intros Hlaw Hb Hg Hcons Hsum Hlen Hfin Hq Hpar Hway Hfree.
  assert (Hc : fs_read (files w1) (resolve (ab_output b)) = Ok (tar_gz (ab_entries b))).
  { unfold finish, aio, io_map in Hfin. destruct (write _ _ w) as [[[]|e] w'] eqn:E; [|done].
    injection Hfin as <-. by eapply write_read_back. }
  assert (HT : resolve target <> []) by (intros E; specialize (Hfree []); by rewrite E in Hfree).
  unfold extract_archive.
  rewrite (ebind_step _ _ w1 (tar_gz (ab_entries b)) (advance w1 (files w1)));
    [|apply aio_step; unfold read; rewrite syscall_quiet by done; by rewrite Hc].
  set (w2 := advance w1 (files w1)). assert (Q2 : quiet w2) by (by apply quiet_advance).
  assert (E2 : create_dir target w2 = (Ok tt, advance w2 (<[resolve target := Dir]> (files w2)))).
  { unfold create_dir. rewrite syscall_quiet by done. subst w2. cbn [advance files].
    specialize (Hfree []) as H0. rewrite app_nil_r in H0. by rewrite H0, Hpar. }
  rewrite (ebind_step _ _ _ _ _ (aio_step _ _ _ _ E2)). set (w3 := advance w2 _) in *.
  assert (Q3 : quiet w3) by (by apply quiet_advance).
  assert (N3 : forall x, node_at (files w3) x = if bool_decide (x = resolve target) then Some Dir else node_at (files w1) x).
  { intros x. subst w3 w2. cbn. by rewrite node_at_insert. }
  unfold scoped_dir. rewrite (ebind_step _ _ w3 (Ok <$> ab_entries b) w3) by (unfold elift; by rewrite Hlaw).
  destruct (extract_items target l Hcons l [] 0 0 w3) as (t & w4 & E4 & Q4 & X4); try done; try lia.
  { intros x Hx. by apply elem_of_nil in Hx. }
  { split.
    - by rewrite N3, bool_decide_eq_true_2.
    - intros x c Hx Hf. rewrite N3 in Hf. case_bool_decide as Hxt; [done|].
      apply (Hway x c); [|done]. revert HT Hx Hxt. destruct (resolve target) as [|n d _] using rev_ind; [done|].
      unfold parent. rewrite removelast_last. by intros _ [Hx|Hx]%prefix_of_snoc Hxt.
    - intros p d Hin. by apply elem_of_nil in Hin.
    - intros p Hin. by apply elem_of_nil in Hin.
    - intros p d Hf. rewrite N3 in Hf. case_bool_decide; [done|]. by rewrite Hfree in Hf.
    - intros p Hp Hf. rewrite N3, bool_decide_eq_false_2 in Hf; [by rewrite Hfree in Hf|].
      intros E%(f_equal length). rewrite length_app in E. destruct p; [done|cbn in E; lia]. }
  rewrite Hb. rewrite (ebind_step _ _ _ _ _ E4). exists w4. split; [done|]. rewrite app_nil_r in X4. split.
  - intros p d. split.
    + intros Hf. apply (ex_only_file _ _ _ X4) in Hf. by rewrite elem_of_reverse in Hf.
    + intros Hin. apply (ex_file _ _ _ X4). by rewrite elem_of_reverse.
  - intros p Hin. apply (ex_dir _ _ _ X4). by rewrite elem_of_reverse.
Qed.
