(* ===== verification/Walk.v ===== *)
(** * Walk: walking directories

    The walks of [walkdir], as an interface: a walk only reads, it yields names,
    and on a machine where no call fails it finds every file.  The instance walks
    with [read_dir], directories before what they hold. *)

From S2P Require Import Prelude Text Version Validation RateLimit Fs Storage StorageFacts Confinement Auth Admin DbModels Sql System Archive ArchiveFacts ArchiveRoundtrip.

#[local] Open Scope Z_scope.
#[local] Open Scope io_scope.

(** [WalkDir::new(root).into_iter().filter_map(|e| e.ok())]: the names on the way
    from the root to each entry. *)
Class WalkDir := walk_dir : string -> io (list (list string)).

Class WalkDirLaws (WD : WalkDir) : Prop := {
  walk_reads root w : faults (walk_dir root w).2 = faults w /\ (tick w <= tick (walk_dir root w).2)%nat /\
    files (walk_dir root w).2 = files w;
  walk_names root w rel : rel ∈ (walk_dir root w).1 -> Forall plain rel;
  walk_finds root w rel c :
    tree (files w) -> quiet w -> files w !! (resolve root ++ rel) = Some (File c) -> rel ∈ (walk_dir root w).1;
}.

(** [entry.path()]. *)
Definition entry_path (root : string) (rel : list string) : string :=
  match rel with [] => root | _ => join root (path_of rel) end.

Lemma resolve_entry root rel : Forall plain rel -> resolve (entry_path root rel) = resolve root ++ rel.
Proof. intros H. destruct rel; [by rewrite app_nil_r|]. by apply resolve_path_of. Qed.

Lemma respects_walk_dir {WD : WalkDir} {WL : WalkDirLaws WD} (R : list string -> option node -> option node -> Prop)
    `{HR : forall p, PreOrder (R p)} root : respects R (walk_dir root).
Proof. intros w. destruct (walk_reads root w) as (Hf & Ht & ->). split_and!; [done..|]. reflexivity. Qed.

(** ** A walk with [read_dir] *)

Section Walk.
Context {HI : HashIter} {HIL : HashIterLaws HI}.

Fixpoint walk_entries (rec : string -> list string -> io (list (list string))) (path : string) (rel : list string)
    (entries : list string) : io (list (list string)) :=
  match entries with
  | [] => mret []
  | name :: entries =>
      l ← rec (join path name) (rel ++ [name]);
      k ← walk_entries rec path rel entries;
      mret (l ++ k)
  end.

(** Directories hold names only. *)
Definition names_of (l : list string) : list string := List.filter (fun n => bool_decide (plain n)) l.

Fixpoint walk (fuel : nat) (path : string) (rel : list string) : io (list (list string)) :=
  match fuel with
  | O => mret []
  | S fuel =>
      dir ← is_dir path;
      if (dir : bool) then
        r ← read_dir path;
        below ← walk_entries (walk fuel) path rel (match r with Ok l => names_of (flatten l) | Err _ => [] end);
        mret (rel :: below)
      else mret [rel]
  end.

Definition fs_walk : WalkDir := fun path w => walk (S (depth (files w))) path [] w.

Lemma io_bind_run {A B} (m : io A) (g : A -> io B) w : (m ≫= g) w = (let '(a, w') := m w in g a w').
Proof. done. Qed.

(** What happens to the entries of a walk. *)
Lemma walk_entries_spec rec path rel (P : world -> Prop) (Q : list string -> Prop) names :
  (forall n w, n ∈ names -> P w -> P (rec (join path n) (rel ++ [n]) w).2 /\ Forall Q (rec (join path n) (rel ++ [n]) w).1) ->
  forall w, P w -> P (walk_entries rec path rel names w).2 /\ Forall Q (walk_entries rec path rel names w).1.
Proof.
  induction names as [|n names IH]; intros Hrec w Hw; [done|]. cbn [walk_entries]. unfold mbind, io_bind.
  destruct (Hrec n w) as [H1 H2]; [by left|done|]. destruct (rec _ _ w) as [l w1]. cbn in *.
  destruct (IH ltac:(intros; apply Hrec; [by right|done]) w1 H1) as [H3 H4].
  destruct (walk_entries _ _ _ _ w1) as [k w2]. cbn in *. split; [done|]. by apply Forall_app.
Qed.

(** The state of a walk through the tree [f] that started in [w0]. *)
Definition during (w0 w : world) : Prop :=
  faults w = faults w0 /\ (tick w0 <= tick w)%nat /\ files w = files w0.

Lemma during_syscall {A} (run : fs -> A * fs) fault w0 w :
  (forall f, (run f).2 = f) -> (forall k f, (fault k f).2 = f) -> during w0 w -> during w0 (syscall run fault w).2.
Proof.
  intros Hr Hk (H1 & H2 & H3). destruct (syscall_cases run fault w) as [[_ ->]|(k & _ & ->)]; cbn; rewrite ?Hr, ?Hk;
    split_and!; cbn; try done; lia.
Qed.

Lemma during_read_dir w0 w p : during w0 w -> during w0 (read_dir p w).2.
Proof. apply during_syscall; [done|by intros [|k] f]. Qed.
Lemma during_is_dir w0 w p : during w0 w -> during w0 (is_dir p w).2.
Proof. by apply during_syscall. Qed.

Lemma elem_of_names n l : n ∈ names_of l <-> n ∈ l /\ plain n.
Proof. unfold names_of. by rewrite list_elem_of_In, filter_In, <- list_elem_of_In, bool_decide_eq_true. Qed.

Lemma walk_spec w0 (Q : list string -> Prop) :
  (forall rel n, Q rel -> plain n -> Q (rel ++ [n])) ->
  forall fuel path rel w, Q rel -> during w0 w ->
  during w0 (walk fuel path rel w).2 /\ Forall Q (walk fuel path rel w).1.
Proof.
  intros HQ. induction fuel as [|fuel IH]; intros path rel w Hr Hw; [done|]. cbn [walk]. rewrite io_bind_run.
  pose proof (during_is_dir _ _ path Hw) as H1. destruct (is_dir path w) as [[|] w1]; cbn [snd] in H1; [|split; [done|by apply Forall_singleton]].
  rewrite io_bind_run. pose proof (during_read_dir _ _ path H1) as H2.
  destruct (read_dir path w1) as [r w2]. cbn [fst snd] in *.
  assert (Hn : forall n, n ∈ match r with Ok l => names_of (flatten l) | Err _ => [] end -> Q (rel ++ [n])).
  { intros n Hin. destruct r as [l|e]; [|by apply elem_of_nil in Hin]. apply elem_of_names in Hin as [_ Hin]. auto. }
  rewrite io_bind_run.
  destruct (walk_entries_spec (walk fuel) path rel (during w0) Q _
    ltac:(intros n w' Hin Hw'; apply IH; [by apply Hn|done]) w2 H2) as [H3 H4].
  destruct (walk_entries _ _ _ _ w2) as [below w3]. cbn in *. split; [done|]. by constructor.
Qed.

Lemma walk_during w0 fuel path rel w : during w0 w -> during w0 (walk fuel path rel w).2.
Proof. intros Hw. by apply (walk_spec w0 (fun _ => True)). Qed.

(** Nothing below a directory is missed. *)
Lemma walk_entries_finds rec path rel w0 x n names :
  n ∈ names -> (forall m w, during w0 w -> during w0 (rec (join path m) (rel ++ [m]) w).2) ->
  (forall w, during w0 w -> x ∈ (rec (join path n) (rel ++ [n]) w).1) ->
  forall w, during w0 w -> x ∈ (walk_entries rec path rel names w).1.
Proof.
  intros Hn Hd Hx. induction names as [|m names IH]; [by apply elem_of_nil in Hn|]. intros w Hw.
  cbn [walk_entries]. unfold mbind, io_bind. specialize (Hd m w Hw). specialize (Hx w Hw) as Hxm.
  destruct (rec (join path m) _ w) as [l w1] eqn:E. cbn [snd] in Hd.
  destruct (walk_entries _ _ _ _ w1) as [k w2] eqn:Ek. cbn. apply elem_of_app.
  apply elem_of_cons in Hn as [->|Hn].
  - left. by rewrite E in Hxm.
  - right. specialize (IH Hn w1 Hd). by rewrite Ek in IH.
Qed.

Lemma during_quiet w0 w : quiet w0 -> during w0 w -> quiet w.
Proof. intros Hq (E & _ & _) k. rewrite E. apply Hq. Qed.

Lemma quiet_is_dir w0 w path : quiet w0 -> node_at (files w0) (resolve path) = Some Dir -> during w0 w ->
  exists w', is_dir path w = (true, w') /\ during w0 w'.
Proof.
  intros Hq Hd Hw. pose proof (during_is_dir _ _ path Hw) as Hw'. exists (is_dir path w).2. split; [|done].
  unfold is_dir. rewrite syscall_quiet by (by eapply during_quiet). cbn. destruct Hw as (_ & _ & ->). by rewrite Hd.
Qed.

Lemma quiet_read_dir w0 w path : quiet w0 -> node_at (files w0) (resolve path) = Some Dir -> during w0 w ->
  exists w', read_dir path w = (Ok (List.map Ok (set_iter (children (files w0) (resolve path)))), w') /\ during w0 w'.
Proof.
  intros Hq Hd Hw. pose proof (during_read_dir _ _ path Hw) as Hw'. exists (read_dir path w).2. split; [|done].
  unfold read_dir. rewrite syscall_quiet by (by eapply during_quiet). cbn. destruct Hw as (_ & _ & ->).
  unfold fs_read_dir. by rewrite Hd.
Qed.

Lemma walk_all w0 c rest : tree (files w0) -> quiet w0 -> forall fuel path rel w, during w0 w ->
  (length rest < fuel)%nat -> files w0 !! (resolve path ++ rest) = Some (File c) -> rel ++ rest ∈ (walk fuel path rel w).1.
Proof.
  intros Ht Hq. induction rest as [|n rest IH]; intros [|fuel] path rel w Hw Hd Hc; cbn in Hd; try lia; cbn [walk].
  - rewrite app_nil_r in *. unfold mbind, io_bind. destruct (is_dir path w) as [[|] w1]; [|by left].
    destruct (read_dir path w1) as [r w2]. destruct (walk_entries _ _ _ _ w2) as [below w3]. by left.
  - assert (Hn : is_Some (files w0 !! (resolve path ++ [n]))) by (eapply tree_prefix; eauto).
    pose proof (Ht _ _ Hn) as [Hpl Hdir]. rewrite io_bind_run.
    destruct (quiet_is_dir w0 w path Hq Hdir Hw) as (w1 & -> & Hw1). rewrite io_bind_run.
    destruct (quiet_read_dir w0 w1 path Hq Hdir Hw1) as (w2 & -> & Hw2). rewrite flatten_Ok, io_bind_run.
    assert (Hin : rel ++ n :: rest ∈ (walk_entries (walk fuel) path rel (names_of (set_iter (children (files w0) (resolve path)))) w2).1).
    { apply (walk_entries_finds _ _ _ w0 _ n); [apply elem_of_names; split; [by apply elem_of_set_iter, elem_of_children|done]|..|done].
      - intros m v Hv. by apply walk_during.
      - intros v Hv. replace (rel ++ n :: rest) with ((rel ++ [n]) ++ rest) by (by rewrite <- app_assoc).
        apply IH; [done|lia|]. rewrite resolve_join_plain by done. by rewrite <- app_assoc. }
    destruct (walk_entries _ _ _ _ _) as [below w3]. cbn in *. by right.
Qed.

#[export] Instance fs_walk_laws : WalkDirLaws fs_walk.
Proof.
  split.
  - intros root w. apply walk_during. split_and!; done.
  - intros root w rel Hr.
    assert (Hs : Forall (Forall plain) (fs_walk root w).1).
    { apply (walk_spec w); [|constructor|split_and!; done]. intros r n Hp Hn. apply Forall_app. split; [done|].
      by apply Forall_singleton. }
    rewrite Forall_forall in Hs. by apply Hs.
  - intros root w rel c Ht Hq Hc. apply (walk_all w c rel Ht Hq (S (depth (files w))) root [] w); [split_and!; done| |done].
    apply depth_bound in Hc. rewrite length_app in Hc. lia.
Qed.
End Walk.
