(* ===== verification/Project.v ===== *)
(** * Project: the publisher's project ([deltaship-publisher/src/config.rs])

    Where a project keeps its files, its configuration keys, and what all the
    publisher's commands share: their errors, the machine they run on and their
    calls of the file system and the database. *)

From S2P Require Import Prelude Text Version Validation RateLimit Fs Crypto DbModels Sql System PublisherDb Archive.

#[local] Open Scope Z_scope.

Definition DELTASHIP_DIR : string := ".deltaship".
Definition KEYS_DIR : string := ".deltaship/keys".
Definition DB_FILE : string := ".deltaship/publisher.db".
Definition SIGNING_KEY_FILE : string := ".deltaship/keys/signing.key".
Definition PUBLIC_KEY_FILE : string := ".deltaship/keys/public.key".
Definition CONFIG_PUBLIC_KEY : string := "public_key".
Definition CONFIG_SERVER_URL : string := "server_url".
Definition CONFIG_PUBLISHER_NAME : string := "publisher_name".
Definition DEFAULT_SERVER_URL : string := "http://localhost:8080".

(** ** Configuration keys *)

Inductive ConfigKey := ServerUrl | PublisherName | PublicKey.

#[global] Instance ConfigKey_eq_dec : EqDecision ConfigKey.
Proof. solve_decision. Defined.

Definition ALL_CONFIG_KEYS : list ConfigKey := [ServerUrl; PublisherName; PublicKey].

Definition as_db_key (k : ConfigKey) : string :=
  match k with
  | ServerUrl => CONFIG_SERVER_URL
  | PublisherName => CONFIG_PUBLISHER_NAME
  | PublicKey => CONFIG_PUBLIC_KEY
  end.

Definition is_read_only (k : ConfigKey) : bool := bool_decide (k = PublicKey).

Definition key_to_string (k : ConfigKey) : string :=
  match k with ServerUrl => "server_url" | PublisherName => "publisher_name" | PublicKey => "public_key" end.

Definition key_from_str (s : string) : result string ConfigKey :=
  let l := to_lowercase s in
  if bool_decide (l = "server_url") then Ok ServerUrl
  else if bool_decide (l = "publisher_name") then Ok PublisherName
  else if bool_decide (l = "public_key") then Ok PublicKey
  else Err ("Unknown config key: '" +:+ s +:+ "'. Valid keys are: server_url, publisher_name, public_key").

Definition get_config_description (k : ConfigKey) : string :=
  match k with
  | ServerUrl => "URL of the Deltaship update server"
  | PublisherName => "Name of the publisher (used in metadata)"
  | PublicKey => "Public key for signature verification (read-only)"
  end.

Definition get_default_value (k : ConfigKey) : option string :=
  match k with ServerUrl => Some DEFAULT_SERVER_URL | PublisherName | PublicKey => None end.

(** What the code looks at of a parsed URL. *)
Record server_url_parts := {
  su_scheme : string;
  su_has_host : bool;
  su_username : string;
  su_has_password : bool;
}.

(** [url::Url::parse], with its error as text. *)
Definition validate_config_value (url_parse : string -> result string server_url_parts) (k : ConfigKey) (value : string)
    : result string unit :=
  match k with
  | ServerUrl =>
      parsed_url ← map_err (fun e => "Invalid URL format: " +:+ e) (url_parse value);
      if negb (bool_decide (su_scheme parsed_url = "http") || bool_decide (su_scheme parsed_url = "https")) then
        Err ("Server URL must use 'http' or 'https' scheme, got '" +:+ su_scheme parsed_url +:+ "'")
      else if negb (su_has_host parsed_url) then Err "Server URL must have a valid host"
      else if negb (str_is_empty (su_username parsed_url)) || su_has_password parsed_url then
        Err "Server URL should not contain embedded credentials"
      else Ok tt
  | PublisherName =>
      if str_is_empty value then Err "Publisher name cannot be empty"
      else if 100 <? str_len value then Err "Publisher name is too long (max 100 characters)"
      else Ok tt
  | PublicKey => Err "Public key is read-only and cannot be set directly"
  end.

(** ** What the commands share *)

(** [Box<dyn Error>]: a message or the error of a crate; also a panic. *)
Inductive publisher_error :=
| PMsg (text : string)
| PDb (e : DbError)
| PIo (e : io_error)
| PCrypto (e : CryptoError)
| PArchive (e : ArchiveError)
| PHttp (text : string)
| PPanic.

#[global] Instance publisher_panics : Panics publisher_error := {|
  is_panic := fun e => match e with PPanic => true | _ => false end; never_returns := fun _ => false |}.

Abbreviation psys := (sys publisher_tables publisher_error).

(** What the program observes: the database's clock, fresh identifiers and the
    monotonic clock in milliseconds.  They may depend on anything. *)
Record publisher_host := {
  ph_now : system publisher_tables -> string;
  ph_uuid : system publisher_tables -> string;
  ph_clock : system publisher_tables -> Z;
}.

Definition observe {A} (f : system publisher_tables -> A) : psys A := fun s => (Ok (f s), s).
Definition pdb {A} (m : db publisher_tables DbError A) : psys A :=
  of_db (fun c => let '(r, c') := m c in (map_err PDb r, c')).
(** [?] on an I/O error, and a match on one. *)
Definition pio {A} (m : io (result io_error A)) : psys A := of_io (io_map (map_err PIo) m).
Definition pio_try {A} (m : io (result io_error A)) : psys (result io_error A) := of_io (io_map Ok m).

(** [?] on an error of a database operation that also uses files, and of an archive. *)
Definition psys_db {A} (m : sys publisher_tables DbError A) : psys A := fun s =>
  let '(r, s') := m s in (map_err PDb r, s').
Definition archive_call {A} (m : io (result ArchiveError A)) : psys A := of_io (io_map (map_err PArchive) m).
Definition look {A} (m : io A) : psys A := of_io (io_map Ok m).
Definition crypto_call {A} (m : io (result CryptoError A)) : psys A := of_io (io_map (map_err PCrypto) m).

(** [PublisherDb::open]: the connection and its pragmas. *)
Definition open_db : psys unit :=
  pdb (fun c => let '(r, c') := query (fun _ => Ok tt) c in (map_err (fun _ => DbSqlx) r, c')).

Definition not_initialized : string := "Deltaship project not initialized. Run 'deltaship-publisher init' first.".
