(* ===== verification/Programs.v ===== *)
(** * Programs: specifications of the publisher's commands

    Triples for programs on files and the publisher's database, and a logic for
    the programs that only look: they change neither the tree nor the tables. *)

From S2P Require Import Prelude Text Version Core Validation Fs Crypto DbModels Sql System PublisherDb PublisherDbFacts Archive Walk Project.

#[local] Open Scope Z_scope.

(** ** Specifications of programs *)

Section Ends.
Context {T E : Type}.

(** From a state of [P] the program returns a value as [ok] says, or an error as
    [err] says. *)
Definition ends {A} (P : system T -> Prop) (m : sys T E A) (ok : A -> system T -> Prop)
    (err : E -> system T -> Prop) : Prop :=
  forall s, P s -> match m s with (Ok a, s') => ok a s' | (Err e, s') => err e s' end.

Lemma ends_bind {A B} P (m : sys T E A) (k : A -> sys T E B) mid ok err :
  ends P m mid err -> (forall a, ends (mid a) (k a) ok err) -> ends P (sbind m k) ok err.
Proof.
  intros Hm Hk s Hs. specialize (Hm s Hs). unfold sbind. destruct (m s) as [[a|e] s']; [|done]. by apply Hk.
Qed.

Lemma ends_pre {A} (P P' : system T -> Prop) (m : sys T E A) ok err :
  ends P m ok err -> (forall s, P' s -> P s) -> ends P' m ok err.
Proof. intros Hm HP s Hs. by apply Hm, HP. Qed.

Lemma ends_assume {A} (P : system T -> Prop) (Q : Prop) (m : sys T E A) ok err :
  (Q -> ends P m ok err) -> ends (fun s => P s /\ Q) m ok err.
Proof. intros Hm s [Hs HQ]. by apply Hm. Qed.

Lemma ends_ret {A} (P : system T -> Prop) (a : A) ok err :
  (forall s, P s -> ok a s) -> ends P (sret a) ok err.
Proof. done. Qed.
End Ends.

(** A statement as a step of the program, its errors passed on. *)
Definition on_db {T E E' A} (g : E -> E') (m : db T E A) : sys T E' A :=
  of_db (fun c => let '(r, c') := m c in (map_err g r, c')).

Lemma ends_db {T E E' A} (g : E -> E') (P : system T -> Prop) (m : db T E A) eok eerr ok err :
  effect m eok eerr -> (forall s, P s -> tx (sy_db s) = None) ->
  (forall s a c, P s -> tx c = None -> eok (disk (sy_db s)) a (disk c) -> ok a (with_db c s)) ->
  (forall s e c, P s -> tx c = None -> eerr (disk (sy_db s)) e (disk c) -> err (g e) (with_db c s)) ->
  ends P (on_db g m) ok err.
Proof.
  intros Hm Ht Ho He s Hs. destruct (Hm (sy_db s) (Ht s Hs)) as [H1 H2]. unfold on_db, of_db.
  destruct (m (sy_db s)) as [[a|e] c]; cbn in *; auto.
Qed.

Lemma ends_pdb {A} (P : system publisher_tables -> Prop) (m : db publisher_tables DbError A) eok eerr ok err :
  effect m eok eerr -> (forall s, P s -> tx (sy_db s) = None) ->
  (forall s a c, P s -> tx c = None -> eok (disk (sy_db s)) a (disk c) -> ok a (with_db c s)) ->
  (forall s e c, P s -> tx c = None -> eerr (disk (sy_db s)) e (disk c) -> err (PDb e) (with_db c s)) ->
  ends P (pdb m) ok err.
Proof. apply ends_db. Qed.

Lemma ends_observe {A B} P (f : system publisher_tables -> A) (k : A -> psys B) ok err :
  (forall a, ends P (k a) ok err) -> ends P (sbind (observe f) k) ok err.
Proof. intros Hk s Hs. by apply Hk. Qed.

(** Calls that leave the tree alone. *)
Definition reads {A} (m : io A) : Prop := forall w, files (m w).2 = files w.

Lemma reads_syscall {A} (run : fs -> A * fs) fault :
  (forall f, (run f).2 = f) -> (forall k f, (fault k f).2 = f) -> reads (syscall run fault).
Proof.
  intros Hr Hk w. destruct (syscall_cases run fault w) as [[_ ->]|(k & _ & ->)]; cbn; auto.
Qed.


(** ** Properties that calls keep *)

Lemma keeps_observe {A} P (g : system publisher_tables -> A) : keeps P (observe g).
Proof. by intros s Hs. Qed.
Lemma keeps_look {A} P `{Framed _ P} (m : io A) : keeps P (look m).
Proof. by apply keeps_io. Qed.
Lemma keeps_pio {A} P `{Framed _ P} (m : io (result io_error A)) : keeps P (pio m).
Proof. by apply keeps_io. Qed.
Lemma keeps_pio_try {A} P `{Framed _ P} (m : io (result io_error A)) : keeps P (pio_try m).
Proof. by apply keeps_io. Qed.
Lemma keeps_crypto_call {A} P `{Framed _ P} (m : io (result CryptoError A)) : keeps P (crypto_call m).
Proof. by apply keeps_io. Qed.
#[export] Hint Resolve keeps_observe keeps_look keeps_pio keeps_pio_try keeps_crypto_call : keeps.

(** ** Programs that look *)

(** The tree is [f], the tables are [t] and no transaction is open. *)
Definition at_rest {T : Type} (f : fs) (t : T) (s : system T) : Prop :=
  files (sy_fs s) = f /\ tx (sy_db s) = None /\ disk (sy_db s) = t.

(** Whatever fails, the program changes nothing; a value it returns is as [Q] says. *)
Definition looks {T E A : Type} (f : fs) (t : T) (m : sys T E A) (Q : A -> Prop) : Prop :=
  ends (at_rest f t) m (fun a s => at_rest f t s /\ Q a) (fun _ => at_rest f t).

Lemma looks_bind {T E A B} f t (m : sys T E A) (k : A -> sys T E B) Q Q' :
  looks f t m Q -> (forall a, Q a -> looks f t (k a) Q') -> looks f t (sbind m k) Q'.
Proof. intros Hm Hk. eapply ends_bind; [exact Hm|]. intros a. apply ends_assume, Hk. Qed.

Lemma looks_weaken {T E A} f t (m : sys T E A) (Q Q' : A -> Prop) :
  looks f t m Q -> (forall a, Q a -> Q' a) -> looks f t m Q'.
Proof. intros Hm HQ s Hs. specialize (Hm s Hs). destruct (m s) as [[a|e] s']; [|done]. destruct Hm; auto. Qed.

Lemma looks_ret {T E A} f (t : T) (a : A) (Q : A -> Prop) : Q a -> looks (E := E) f t (sret a) Q.
Proof. by intros Ha s Hs. Qed.
Lemma looks_fail {T E A} f (t : T) (e : E) (Q : A -> Prop) : looks f t (sfail e) Q.
Proof. by intros s Hs. Qed.
Lemma looks_result {T E A} f (t : T) (r : result E A) : looks f t (of_result r) (fun a => r = Ok a).
Proof. intros s Hs. unfold of_result. by destruct r. Qed.
Lemma looks_observe {A} f t (g : system publisher_tables -> A) : looks f t (observe g) (fun _ => True).
Proof. by intros s Hs. Qed.
Lemma looks_sleep {T E} f (t : T) ms : looks (E := E) f t (sleep ms) (fun _ => True).
Proof. by intros s Hs. Qed.

Lemma looks_db {T E E' A} (g : E -> E') f (t : T) (m : db T E A) (ok : T -> A -> T -> Prop) :
  effect m ok same -> (forall a t', ok t a t' -> t' = t) -> looks f t (on_db g m) (fun a => ok t a t).
Proof.
  intros Hm Hok. eapply ends_db; [exact Hm|by intros s (_ & ? & _)|..].
  - intros s a c (Hf & Ht & <-) Hc Ho. pose proof (Hok _ _ Ho) as Hd. split; [done|]. by rewrite Hd in Ho.
  - intros s e c (Hf & Ht & <-) Hc Ho. done.
Qed.

Lemma looks_pdb {A} f t (m : db publisher_tables DbError A) (ok : publisher_tables -> A -> publisher_tables -> Prop) :
  effect m ok same -> (forall a t', ok t a t' -> t' = t) -> looks f t (pdb m) (fun a => ok t a t).
Proof. apply looks_db. Qed.

Lemma looks_query {A} f t (g : publisher_tables -> result SqlxError A) name :
  looks f t (pdb (q (query (p_on name g)))) (fun a => g t = Ok a).
Proof. eapply looks_weaken; [eapply looks_pdb; [apply query_effect|]|]; cbn; naive_solver. Qed.

Lemma looks_open f t : looks f t open_db (fun _ => True).
Proof.
  unfold open_db. eapply looks_weaken with (Q := fun _ => t = t); [|done].
  eapply looks_pdb with (ok := fun t _ t' => t' = t); [|done]. intros c Hc.
  destruct (effect_query (fun _ : publisher_tables => Ok tt) c Hc) as [H1 H2].
  destruct (query _ c) as [[[]|e] c']; cbn in *; [by destruct H2|done].
Qed.

(** Calls that leave the tree alone; a value comes from a call on the tree. *)
Lemma looks_of_io {T E A} f (t : T) (m : io (result E A)) :
  reads m -> looks f t (of_io m) (fun a => exists w, files w = f /\ (m w).1 = Ok a).
Proof.
  intros Hm s (Hf & Ht). unfold of_io. specialize (Hm (sy_fs s)).
  destruct (m (sy_fs s)) as [[a|e] w] eqn:E1; cbn in *; [|by rewrite <- Hf, <- Hm].
  split; [by rewrite <- Hf, <- Hm|]. exists (sy_fs s). by rewrite E1.
Qed.

Lemma reads_io_map {A B} (g : A -> B) m : reads m -> reads (io_map g m).
Proof. intros Hm w. specialize (Hm w). unfold io_map. by destruct (m w). Qed.

Lemma looks_test {T E A} f (t : T) (m : io A) : reads m -> looks (E := E) f t (of_io (io_map Ok m)) (fun _ => True).
Proof. intros Hm. eapply looks_weaken; [by apply looks_of_io, reads_io_map|done]. Qed.
Lemma looks_look {A} f t (m : io A) : reads m -> looks f t (look m) (fun _ => True).
Proof. apply looks_test. Qed.

Lemma looks_walk {T E} {WD : WalkDir} {WL : WalkDirLaws WD} f (t : T) dir :
  looks (E := E) f t (of_io (io_map Ok (walk_dir dir))) (Forall (Forall plain)).
Proof.
  eapply looks_weaken; [apply looks_of_io, reads_io_map; intros w; apply walk_reads|]. intros l (w & _ & Hl).
  apply Forall_forall. intros rel Hr. unfold io_map in Hl. destruct (walk_dir dir w) as [l' w'] eqn:E0. injection Hl as <-.
  apply (walk_names dir w). by rewrite E0.
Qed.

Lemma reads_exists p : reads (exists_ p).
Proof. by apply reads_syscall. Qed.
Lemma reads_is_file p : reads (is_file p).
Proof. by apply reads_syscall. Qed.
Lemma reads_read p : reads (read p).
Proof. by apply reads_syscall. Qed.
Lemma reads_file_len p : reads (file_len p).
Proof. by apply reads_io_map, reads_read. Qed.

Lemma read_value p w d : (read p w).1 = Ok d -> fs_read (files w) (resolve p) = Ok d.
Proof.
  unfold read. destruct (syscall_cases (fun f => (fs_read f (resolve p), f)) (fun _ f => (Err IoFault, f)) w)
    as [[_ ->]|(k & _ & ->)]; by cbn.
Qed.

Lemma looks_read f t p : looks f t (pio (read p)) (fun d => fs_read f (resolve p) = Ok d).
Proof.
  eapply looks_weaken; [apply looks_of_io, reads_io_map, reads_read|]. intros d (w & <- & Hw). apply read_value.
  unfold io_map in Hw. destruct (read p w) as [[x|e] w'] eqn:E; cbn in *; by simplify_eq.
Qed.

(** A program that looks, before one that changes something. *)
Lemma looks_first {T E A B} f t (m : sys T E A) (k : A -> sys T E B) Q ok err :
  looks f t m Q -> (forall e s, at_rest f t s -> err e s) -> (forall a, Q a -> ends (at_rest f t) (k a) ok err) ->
  ends (at_rest f t) (sbind m k) ok err.
Proof.
  intros Hm He Hk s Hs. specialize (Hm s Hs). unfold sbind. destruct (m s) as [[a|e] s']; [|auto].
  destruct Hm as [H1 H2]. by apply (Hk a H2).
Qed.

Create HintDb looks.
#[export] Hint Resolve looks_ret looks_fail looks_result looks_observe looks_sleep looks_query looks_open looks_look looks_read
  reads_exists reads_is_file reads_read reads_file_len reads_io_map : looks.

(** The steps of a program that looks; what is known of the values goes into the context. *)
Ltac looks_step :=
  lazymatch goal with
  | |- looks _ _ (if ?b then _ else _) _ => destruct b eqn:?
  | |- looks _ _ (match ?x with _ => _ end) _ => destruct x eqn:?
  | |- looks _ _ (sbind _ _) _ => eapply looks_bind; [solve [eauto with looks]|intros ? ?; cbn beta in *]
  | |- looks _ _ (sfail _) _ => apply looks_fail
  | |- looks _ _ (sret _) _ => apply looks_ret
  end.

(** ** Programs that change the tree only as [R] allows *)

Section Roams.
Context (R : list string -> option node -> option node -> Prop) {HR : forall p, PreOrder (R p)}.

Definition at_rest_upto {T : Type} (f : fs) (I : T -> Prop) (s : system T) : Prop :=
  (forall p, R p (f !! p) (files (sy_fs s) !! p)) /\ tx (sy_db s) = None /\ I (disk (sy_db s)).

(** The tables stay as [I] says; a value is as [Q] says. *)
Definition roams {T E A : Type} (f : fs) (I : T -> Prop) (m : sys T E A) (Q : A -> Prop) : Prop :=
  ends (at_rest_upto f I) m (fun a s => at_rest_upto f I s /\ Q a) (fun _ => at_rest_upto f I).

Lemma roams_bind {T E A B} f I (m : sys T E A) (k : A -> sys T E B) Q Q' :
  roams f I m Q -> (forall a, Q a -> roams f I (k a) Q') -> roams f I (sbind m k) Q'.
Proof. intros Hm Hk. eapply ends_bind; [exact Hm|]. intros a. apply ends_assume, Hk. Qed.

Lemma roams_ret {T E A} f (I : T -> Prop) (a : A) (Q : A -> Prop) : Q a -> roams (E := E) f I (sret a) Q.
Proof. by intros Ha s Hs. Qed.
Lemma roams_fail {T E A} f (I : T -> Prop) (e : E) (Q : A -> Prop) : roams f I (sfail e) Q.
Proof. by intros s Hs. Qed.

(** A program that only looks may do so wherever the other has got to. *)
Lemma roams_looks {T E A} f (I : T -> Prop) (m : sys T E A) Q :
  (forall f' t, I t -> looks f' t m Q) -> roams f I m Q.
Proof.
  intros Hm s (Hf & Ht & Hd). specialize (Hm (files (sy_fs s)) _ Hd s (conj eq_refl (conj Ht eq_refl))).
  unfold at_rest_upto. destruct (m s) as [[a|e] s']; [destruct Hm as [(-> & ? & ->) ?]|destruct Hm as (-> & ? & ->)]; done.
Qed.

Lemma roams_io {T E A} f (I : T -> Prop) (m : io (result E A)) : respects R m -> roams f I (of_io m) (fun _ => True).
Proof.
  intros Hm s (Hf & Ht & Hd). specialize (Hm (sy_fs s)) as (_ & _ & Hm). unfold of_io.
  assert (H : forall p, R p (f !! p) (files (m (sy_fs s)).2 !! p)) by (intros p; etrans; [apply Hf|apply Hm]).
  destruct (m (sy_fs s)) as [[a|e] w]; cbn in *; done.
Qed.

Lemma roams_db {T E E' A} (g : E -> E') f (I : T -> Prop) (m : db T E A) ok :
  effect m ok same -> (forall t a t', I t -> ok t a t' -> I t') -> roams f I (on_db g m) (fun _ => True).
Proof.
  intros Hm Hok. eapply ends_db; [exact Hm|by intros s (_ & ? & _)|..].
  - intros s a c (Hf & Ht & Hd) Hc Ho. split; [|done]. split_and!; [done..|]. by eapply Hok.
  - intros s e c (Hf & Ht & Hd) Hc Ho. split_and!; [done..|]. cbn. by rewrite Ho.
Qed.

Lemma roams_pdb {A} f (I : publisher_tables -> Prop) (m : db publisher_tables DbError A) ok :
  effect m ok same -> (forall t a t', I t -> ok t a t' -> I t') -> roams f I (pdb m) (fun _ => True).
Proof. apply roams_db. Qed.

Lemma roams_attempt {T A} `{Panics E} f I (m : sys T E A) Q : roams f I m Q -> roams f I (attempt m) (fun _ => True).
Proof.
  intros Hm s Hs. specialize (Hm s Hs). unfold attempt. destruct (m s) as [[a|e] s']; [by destruct Hm|].
  by destruct (uncaught e).
Qed.

Lemma respects_remove p : (forall c, R (resolve p) (Some (File c)) None) -> respects R (remove_file p).
Proof.
  intros Hp. apply respects_syscall; [|reflexivity]. intros f q. unfold fs_remove, node_at.
  case_bool_decide; [reflexivity|]. destruct (f !! resolve p) as [[|c]|] eqn:E; try reflexivity. cbn.
  destruct (decide (q = resolve p)) as [->|Hne]; [by rewrite E, lookup_delete_eq|by rewrite lookup_delete_ne].
Qed.
End Roams.

(** Removing files that [orphan] holds of, and nothing else. *)
Definition drops (orphan : list string -> Prop) (p : list string) (o o' : option node) : Prop :=
  o = o' \/ orphan p /\ (exists c, o = Some (File c)) /\ o' = None.

#[global] Instance drops_preorder orphan p : PreOrder (drops orphan p).
Proof.
  split; [by left|]. intros o1 o2 o3 [<-|(H1 & H2 & ->)] H; [done|]. destruct H as [<-|(_ & (c & ?) & _)]; [by right|done].
Qed.

(** A program that keeps [I], before one after which only [J] is known. *)
Lemma roams_first {T E A B} R f (I J : T -> Prop) (m : sys T E A) (k : A -> sys T E B) Q ok :
  roams R f I m Q -> (forall t, I t -> J t) ->
  (forall a, Q a -> ends (at_rest_upto R f I) (k a) ok (fun _ => at_rest_upto R f J)) ->
  ends (at_rest_upto R f I) (sbind m k) ok (fun _ => at_rest_upto R f J).
Proof.
  intros Hm HIJ Hk s Hs. specialize (Hm s Hs). unfold sbind. destruct (m s) as [[a|e] s'].
  - destruct Hm as [H1 H2]. by apply (Hk a H2).
  - destruct Hm as (? & ? & ?). split_and!; auto.
Qed.

(** A statement and what is made of its answer. *)
Lemma exec_effect {A B} (g : publisher_tables -> result SqlxError (A * publisher_tables)) name (h : A -> B) :
  effect (dbind (q (exec (p_on name g))) (fun n => dret (h n))) (fun t _ t' => exists n, g t = Ok (n, t')) same.
Proof.
  intros c Hc. destruct (effect_q _ _ _ (effect_exec (p_on name g)) c Hc) as [H1 H2].
  unfold dbind. destruct (q _ c) as [[n|e] c']; cbn [fst snd] in *; [|split; [done|by destruct H2 as (? & _ & ?)]].
  split; [done|]. exists n. by eapply p_on_Ok.
Qed.

Lemma effect_id {T A} (m : db T DbError A) ok err : effect (dbind m dret) ok err -> effect m ok err.
Proof. intros H c Hc. specialize (H c Hc). unfold dbind in H. by destruct (m c) as [[a|e] c']. Qed.
