(* ===== verification/Manage.v ===== *)
(** * Manage: what is managed ([deltaship-client/src/commands/add.rs], [remove.rs], [cleanup.rs])

    Binaries are registered and forgotten, expired backups and incomplete
    downloads are cleaned up, old backups are pruned.  What is printed is left out;
    what it says is returned.  A walk is taken before the first removal, where the
    program walks on while it removes files it has met; file names are UTF-8. *)

From S2P Require Import Prelude Text Diff Version Core Validation Fs Crypto DbModels Sql ClientDb System.
From S2P Require Import ClientConfig Downloader InstallPath Patcher Rollback KeyFiles Archive Walk.

#[local] Open Scope Z_scope.

Definition DELTASHIP_TEMP_PREFIX : string := "deltaship-".
Definition DEFAULT_HISTORY_AGE_DAYS : Z := 90.

(** [x as i32] for a [u64] [x]. *)
Definition as_i32 (z : Z) : Z := let w := z mod 2 ^ 32 in if w <? 2 ^ 31 then w else w - 2 ^ 32.

(** ** Names *)

Definition validate_binary_name (name : string) : result client_error unit :=
  if str_is_empty name then Err (CMsg "Binary name cannot be empty")
  else if 64 <? str_len name then
    Err (CMsg ("Binary name too long: " +:+ pretty (str_len name) +:+ " characters (max 64)"))
  else if negb (all_chars (fun c => is_ascii_alphanumeric c || bool_decide (c = "-"%char) || bool_decide (c = "_"%char)) name) then
    Err (CMsg ("Invalid binary name: '" +:+ name +:+
      "'. Only alphanumeric characters, hyphens, and underscores are allowed."))
  else Ok tt.

(** The platform the client was built for. *)
Definition detect_platform (target_os target_arch : string) : string :=
  if bool_decide (target_os = "linux") && bool_decide (target_arch = "x86_64") then "linux-x86_64"
  else if bool_decide (target_os = "linux") && bool_decide (target_arch = "aarch64") then "linux-aarch64"
  else if bool_decide (target_os = "windows") && bool_decide (target_arch = "x86_64") then "windows-x86_64"
  else if bool_decide (target_os = "macos") && bool_decide (target_arch = "x86_64") then "macos-x86_64"
  else if bool_decide (target_os = "macos") && bool_decide (target_arch = "aarch64") then "macos-aarch64"
  else "unknown".

(** [PathBuf::push] of a component. *)
Definition component_text (c : component) : string :=
  match c with RootDir => "/" | CurDir => "." | ParentDir => ".." | Normal c => c end.

Section Manage.
Context {SO : SqlOrder} {ET : ErrorTexts} {KC : KeyCrypto} {H : Type} {SH : StreamHasher H bytes} (h : host).
#[local] Open Scope sys_scope.
Abbreviation csys := (sys client_tables client_error).

(** ** Adding *)

(** Every prefix of the path that exists must not be a symbolic link. *)
Fixpoint check_symlinks (current : string) (components : list component) : csys unit :=
  match components with
  | [] => sret tt
  | component :: components =>
      let current := join current (component_text component) in
      present ←! fs_test (exists_ current);
      if (present : bool) && h_is_symlink h current then
        sfail (CMsg ("Security error: path component '" +:+ current +:+ "' is a symlink."))
      else check_symlinks current components
  end.

(** [binary_path.canonicalize()]. *)
Definition real_path (path : string) : csys string :=
  p ←! fs_call (canonicalize path); sret (h_real_path h p).

Definition add_binary (target_os target_arch uuid : string) (name path public_key_file : string) : csys DbManagedBinary :=
  of_result (validate_binary_name name) ;;!
  present ←! fs_test (exists_ path);
  if negb present then sfail (CMsg ("Binary not found: " +:+ path))
  else
    public_key_bytes ←! hashed (load_verifying_key public_key_file);
    found ←! db_call (get_binary_by_name name);
    if bool_decide (is_Some found) then sfail (CMsg ("Binary '" +:+ name +:+ "' is already registered"))
    else
      hashed (hash_file (SH := SH) path) ;;!
      let platform := detect_platform target_os target_arch in
      let binary_id := uuid in
      if h_is_symlink h path then sfail (CMsg ("Security error: binary path '" +:+ path +:+ "' is a symlink."))
      else
        check_symlinks "" (path_components path) ;;!
        real_path path ;;!
        install_path ←! real_path path;
        registered ←! db_now h (fun now => register_binary now {|
          nm_binary_id := binary_id; nm_binary_name := name; nm_platform := platform; nm_install_path := install_path;
          nm_publisher_public_key := public_key_bytes |});
        log_audit_event (BinaryAdded (m_binary_name registered) (m_install_path registered)) ;;!
        sret registered.

(** ** Removing *)

(** The files of the backups; errors are only logged. *)
Fixpoint remove_backup_files (backups : list DbRollbackBackup) : csys unit :=
  match backups with
  | [] => sret tt
  | backup :: backups =>
      present ←! fs_test (exists_ (r_backup_path backup));
      (if (present : bool) then attempt (fs_call (remove_file (r_backup_path backup))) ;;! sret tt else sret tt) ;;!
      remove_backup_files backups
  end.

Definition remove_binary (name : string) : csys unit :=
  binary ←! find_binary name;
  backups ←! db_call (list_backups (m_binary_id binary));
  remove_backup_files backups ;;!
  db_call (delete_managed_binary (m_binary_id binary)) ;;!
  log_audit_event (BinaryRemoved (m_binary_name binary) (m_install_path binary)).
End Manage.

(** ** Cleaning up *)

Record CleanupResult := {
  cl_expired_backups : list (string * Z);
  cl_incomplete_downloads : list (string * Z);
  cl_old_history_entries : Z;
  cl_total_space : Z;
}.
Definition no_result : CleanupResult :=
  {| cl_expired_backups := []; cl_incomplete_downloads := []; cl_old_history_entries := 0; cl_total_space := 0 |}.

Definition has_temp_extension (filename : string) : bool :=
  ends_with ".tmp" filename || ends_with ".part" filename || ends_with ".download" filename.

Definition is_deltaship_temp_file (path deltaship_data_dir : string) : bool :=
  match path_file_name path with
  | None => false
  | Some filename =>
      let has_deltaship_prefix :=
        starts_with DELTASHIP_TEMP_PREFIX filename || starts_with ".partial_deltaship-" filename in
      has_temp_extension filename && (has_deltaship_prefix || starts_with_path path deltaship_data_dir)
  end.

Section Clean.
Context {SO : SqlOrder} {WD : WalkDir} (mode : profile) (h : host).
(** Dates of [chrono], as nanoseconds: [NaiveDateTime::parse_from_str] with
    ["%Y-%m-%d %H:%M:%S"], [Utc::now], and a date some days before another, which
    panics out of range; the database's [datetime('now', ...)]. *)
Context (parse_date : string -> option Z) (utc_now : nat -> Z) (days_before : Z -> Z -> option Z)
  (datetime : string -> option string).
#[local] Open Scope sys_scope.
Abbreviation csys := (sys client_tables client_error).

(** [+=] on [u64]. *)
Definition add_space (a b : Z) : csys Z :=
  match arith mode 64 (a + b) with Val z => sret z | Panic => sfail CPanic end.

(** Whether the file of a backup went. *)
Definition remove_backup_file (backup : DbRollbackBackup) : csys bool :=
  present ←! fs_test (exists_ (r_backup_path backup));
  if (present : bool) then
    removed ←! attempt (fs_call (remove_file (r_backup_path backup)));
    sret (match removed with Ok _ => true | Err _ => false end)
  else sret false.

(** A backup is deleted from the database first; [Err] when that fails. *)
Definition drop_backup (backup : DbRollbackBackup) : csys (result client_error bool) :=
  deleted ←! attempt (db_call (delete_backup (r_backup_id backup)));
  match deleted with
  | Err e => sret (Err e)
  | Ok _ => file_removed ←! remove_backup_file backup; sret (Ok file_removed)
  end.

Definition push_backup (path : string) (size total : Z) (result : CleanupResult) : CleanupResult :=
  {| cl_expired_backups := cl_expired_backups result ++ [(path, size)];
     cl_incomplete_downloads := cl_incomplete_downloads result;
     cl_old_history_entries := cl_old_history_entries result; cl_total_space := total |}.

(** The expired ones of the backups of one binary. *)
Fixpoint clean_backups (backups : list DbRollbackBackup) (result : CleanupResult) (dry_run : bool) : csys CleanupResult :=
  match backups with
  | [] => sret result
  | backup :: backups =>
      result ←! match r_expires_at backup ≫= parse_date with
                | Some expires =>
                    now ←! at_tick utc_now;
                    if expires <? now then
                      let size := r_backup_size_bytes backup mod 2 ^ 64 in
                      if dry_run then sret (push_backup (r_backup_path backup) size (cl_total_space result) result)
                      else
                        dropped ←! drop_backup backup;
                        match dropped with
                        | Err _ => sret result
                        | Ok file_removed =>
                            total ←! (if file_removed then add_space (cl_total_space result) size
                                      else sret (cl_total_space result));
                            sret (push_backup (r_backup_path backup) size total result)
                        end
                    else sret result
                | None => sret result
                end;
      clean_backups backups result dry_run
  end.

Fixpoint clean_binaries (binaries : list DbManagedBinary) (result : CleanupResult) (dry_run : bool) : csys CleanupResult :=
  match binaries with
  | [] => sret result
  | binary :: binaries =>
      backups ←! db_call (list_backups (m_binary_id binary));
      result ←! clean_backups backups result dry_run;
      clean_binaries binaries result dry_run
  end.

Definition cleanup_expired_backups (config : ClientConfig) (result : CleanupResult) (dry_run : bool) : csys CleanupResult :=
  present ←! fs_test (exists_ (backups_dir config));
  if negb present then sret result
  else
    binaries ←! db_call list_binaries;
    clean_binaries binaries result dry_run.

(** An entry of the walk through the downloads. *)
Definition clean_download (path data_dir : string) (result : CleanupResult) (dry_run : bool) : csys CleanupResult :=
  file ←! fs_test (is_file path);
  if negb file || negb (is_deltaship_temp_file path data_dir) then sret result
  else
    let filename := default "" (path_file_name path) in
    if has_temp_extension filename then
      found ←! attempt (fs_call (file_len path));
      let size := match found with Ok n => n | Err _ => 0 end in
      let push total := {|
        cl_expired_backups := cl_expired_backups result;
        cl_incomplete_downloads := cl_incomplete_downloads result ++ [(path, size)];
        cl_old_history_entries := cl_old_history_entries result; cl_total_space := total |} in
      if dry_run then sret (push (cl_total_space result))
      else
        removed ←! attempt (fs_call (remove_file path));
        match removed with
        | Ok _ => total ←! add_space (cl_total_space result) size; sret (push total)
        | Err _ => sret result
        end
    else sret result.

Fixpoint clean_downloads (root : string) (rels : list (list string)) (data_dir : string) (result : CleanupResult)
    (dry_run : bool) : csys CleanupResult :=
  match rels with
  | [] => sret result
  | rel :: rels =>
      result ←! clean_download (entry_path root rel) data_dir result dry_run;
      clean_downloads root rels data_dir result dry_run
  end.

Definition cleanup_incomplete_downloads (config : ClientConfig) (result : CleanupResult) (dry_run : bool)
    : csys CleanupResult :=
  present ←! fs_test (exists_ (downloads_dir config));
  if negb present then sret result
  else
    rels ←! of_io (io_map Ok (walk_dir (downloads_dir config)));
    clean_downloads (downloads_dir config) rels (data_dir config) result dry_run.

(** ** History *)

Definition old_update (cutoff : Z) (u : DbUpdateHistory) : bool :=
  match parse_date (u_started_at u) with Some started => started <? cutoff | None => false end.

Fixpoint count_history (cutoff : Z) (binaries : list DbManagedBinary) (count : Z) : csys Z :=
  match binaries with
  | [] => sret count
  | binary :: binaries =>
      updates ←! db_call (get_recent_updates (m_binary_id binary) 1000);
      count_history cutoff binaries (count + lenZ (List.filter (old_update cutoff) updates))
  end.

Definition cleanup_old_history (result : CleanupResult) (dry_run : bool) (max_age_days : Z) : csys CleanupResult :=
  binaries ←! db_call list_binaries;
  now ←! at_tick utc_now;
  cutoff ←! of_result (ok_or CPanic (days_before now (as_i64 max_age_days)));
  count ←! count_history cutoff binaries (cl_old_history_entries result);
  (if negb dry_run && (0 <? count) then
     db_call (delete_update_history datetime (as_i32 max_age_days)) ;;! sret tt
   else sret tt) ;;!
  sret {| cl_expired_backups := cl_expired_backups result; cl_incomplete_downloads := cl_incomplete_downloads result;
          cl_old_history_entries := count; cl_total_space := cl_total_space result |}.

(** The sums of the summary. *)
Fixpoint sum_sizes (total : Z) (l : list (string * Z)) : csys Z :=
  match l with [] => sret total | (_, size) :: l => total ←! add_space total size; sum_sizes total l end.

Definition run_cleanup (config : ClientConfig) (dry_run : bool) (max_age_days : option Z) : csys CleanupResult :=
  let max_age := default DEFAULT_HISTORY_AGE_DAYS max_age_days in
  result ←! cleanup_expired_backups config no_result dry_run;
  result ←! cleanup_incomplete_downloads config result dry_run;
  result ←! cleanup_old_history result dry_run max_age;
  sum_sizes 0 (cl_expired_backups result) ;;!
  sum_sizes 0 (cl_incomplete_downloads result) ;;!
  sret result.

(** ** Pruning backups *)

(** How many backups went and how much space. *)
Fixpoint prune_backups (backups : list DbRollbackBackup) (removed space : Z) (dry_run : bool) : csys (Z * Z) :=
  match backups with
  | [] => sret (removed, space)
  | backup :: backups =>
      let size := r_backup_size_bytes backup mod 2 ^ 64 in
      if dry_run then prune_backups backups (removed + 1) space dry_run
      else
        dropped ←! drop_backup backup;
        match dropped with
        | Err _ => prune_backups backups removed space dry_run
        | Ok file_removed =>
            space ←! (if file_removed then add_space space size else sret space);
            prune_backups backups (removed + 1) space dry_run
        end
  end.

Definition run_prune_backups (name : string) (keep : nat) (dry_run : bool) : csys (Z * Z) :=
  if (keep =? 0)%nat then sfail (CMsg "Cannot keep 0 backups. Use at least --keep 1.")
  else
    binary ←! find_binary name;
    backups ←! db_call (list_backups (m_binary_id binary));
    if (length backups <=? keep)%nat then sret (0, 0)
    else prune_backups (drop keep backups) 0 0 dry_run.
End Clean.
