(* ===== verification/ManageFacts.v ===== *)
(** * ManageFacts: what managing, cleaning and pruning change

    A cleanup takes only expired backups, incomplete downloads and old history; a
    prune keeps the newest backups; what is added can be looked up, and what is
    removed leaves the others alone. *)

From S2P Require Import Prelude Text Diff Version Core Validation Fs Crypto DbModels Sql ClientDb ClientDbFacts System.
From S2P Require Import ClientConfig Downloader InstallPath Patcher Rollback KeyFiles Archive ArchiveRoundtrip Walk Programs Manage.

#[local] Open Scope Z_scope.

(** ** The client's database in programs *)

Lemma looks_cquery {A} f t (g : client_tables -> result SqlxError A) name :
  looks f t (db_call (q (query (on name g)))) (fun a => g t = Ok a).
Proof.
  eapply looks_weaken; [apply (looks_db CDb) with (ok := fun t a t' => g t = Ok a /\ t' = t)|].
  - eapply effect_weaken; [apply effect_q, effect_query|..].
    + by intros t1 a t2 [H%on_Ok ->].
    + by intros t1 e t2 (? & _ & ->).
  - by intros a t' [_ ->].
  - by intros a [Ha _].
Qed.

(** A statement that must have found a row. *)
Lemma found_effect (f : client_tables -> result SqlxError (Z * client_tables)) name :
  (forall t n t', f t = Ok (n, t') -> n = 0 -> t' = t) ->
  effect (dbind (q (exec (on name f))) found_rows) (fun t _ t' => exists n, n <> 0 /\ f t = Ok (n, t')) same.
Proof.
  intros Hf c Hc. destruct (effect_q _ _ _ (effect_exec (on name f)) c Hc) as [H1 H2].
  unfold dbind. destruct (q _ c) as [[n|e] c']; cbn [fst snd] in *; [|split; [done|by destruct H2 as (? & _ & ?)]].
  apply on_Ok in H2. unfold found_rows. destruct (Z.eqb_spec n 0) as [->|Hn]; cbn; split; eauto.
Qed.

Lemma looks_find f t name :
  looks f t (find_binary name) (fun b => seek (has_binary_name name) (ct_managed t) = Some b).
Proof.
  unfold find_binary. eapply looks_bind; [apply looks_cquery|]. intros o [= <-].
  eapply looks_weaken; [apply looks_result|]. intros b Hb%ok_or_Ok. done.
Qed.

(** A key finds at most one row. *)
Lemma count_one id (l : list DbRollbackBackup) :
  NoDup (r_backup_id <$> l) -> count_rows (is_backup id) l <> 0 ->
  lenZ (delete_rows (is_backup id) l) + 1 = lenZ l.
Proof.
  unfold count_rows, delete_rows, lenZ, is_backup. induction l as [|r l IH]; [done|]. cbn. rewrite NoDup_cons. intros [Hr Hl].
  destruct (Z.eqb_spec (r_backup_id r) id) as [<-|Hne]; cbn; intros Hc.
  - rewrite filter_all; [lia|]. intros x Hx. apply negb_true_iff, Z.eqb_neq. intros E. apply Hr. rewrite <- E.
    by apply list_elem_of_fmap_2.
  - specialize (IH Hl Hc). lia.
Qed.

(** ** Backups and history that go *)

(** Some backups of [V] and some updates of [W] are gone. *)
Definition tidied (V : DbRollbackBackup -> Prop) (W : DbUpdateHistory -> Prop) (t t' : client_tables) : Prop :=
  exists p q,
    t' = with_history (List.filter q (ct_history t)) (ct_seq_history t)
           (with_backups (List.filter p (ct_backups t)) (ct_seq_backups t) t) /\
    (forall r, r ∈ ct_backups t -> p r = false -> V r) /\ (forall u, u ∈ ct_history t -> q u = false -> W u).

Lemma tidied_refl V W t : tidied V W t t.
Proof.
  exists (fun _ => true), (fun _ => true). rewrite !filter_all by done. by destruct t.
Qed.

Lemma tidied_backup (V : DbRollbackBackup -> Prop) W t t' r n t'' :
  NoDup (r_backup_id <$> ct_backups t) -> r ∈ ct_backups t -> V r -> tidied V W t t' ->
  delete_backups (fun _ => is_backup (r_backup_id r)) t' = Ok (n, t'') -> tidied V W t t''.
Proof.
  intros Hn Hr HV (p & q & -> & Hp & Hq) [= _ <-]. cbn. unfold delete_rows. rewrite filter_filter.
  exists (fun x => p x && negb (is_backup (r_backup_id r) x)), q. split; [done|]. split; [|done].
  intros x Hx [H|H%negb_false_iff]%andb_false_iff; [by apply Hp|]. apply Z.eqb_eq in H.
  assert (x = r) as -> by (by eapply (NoDup_key_eq r_backup_id)). done.
Qed.

Lemma tidied_history V (W : DbUpdateHistory -> Prop) old t t' seq :
  (forall u, old u = true -> W u) -> seq = ct_seq_history t' -> tidied V W t t' ->
  tidied V W t (with_history (delete_rows old (ct_history t')) seq t').
Proof.
  intros HW -> (p & q & -> & Hp & Hq). cbn. unfold delete_rows. rewrite filter_filter.
  exists p, (fun u => q u && negb (old u)). split; [done|]. split; [done|].
  intros u Hu [H|H%negb_false_iff]%andb_false_iff; [by apply Hq|]. by apply HW.
Qed.

Lemma tidied_backups V W t t' r : tidied V W t t' -> r ∈ ct_backups t' -> r ∈ ct_backups t.
Proof. intros (p & q & -> & _) H. cbn in H. by apply elem_of_filterb in H as [? _]. Qed.

(** The rows that are kept. *)
Lemma tidied_keeps (V : DbRollbackBackup -> Prop) W t t' r :
  tidied V W t t' -> r ∈ ct_backups t -> ~ V r -> r ∈ ct_backups t'.
Proof.
  intros (p & q & -> & Hp & _) Hr HV. cbn. apply elem_of_filterb. split; [done|].
  destruct (p r) eqn:E; [done|]. by destruct (HV (Hp r Hr E)).
Qed.

Section Clean.
Context {SV : Semver} {SO : SqlOrder} {SL : SqlOrderLaws SO} {WD : WalkDir} {WL : WalkDirLaws WD}.
Context (mode : profile).

Lemma elem_of_backups_desc id t r : r ∈ backups_desc id t <-> r ∈ ct_backups t /\ r_binary_id r = id.
Proof. unfold backups_desc, backup_of. by rewrite order_by_perm, elem_of_filterb, bool_decide_eq_true. Qed.

Lemma looks_space f t a b : looks f t (add_space mode a b) (fun _ => True).
Proof. unfold add_space. case_match; [by apply looks_ret|apply looks_fail]. Qed.

Lemma looks_tick {T E A} f (t : T) (g : nat -> A) : looks (E := E) f t (at_tick g) (fun a => exists k, a = g k).
Proof. intros s Hs. split; [done|]. cbn. eauto. Qed.

(** The files of the backups that may go. *)
Definition backup_file (V : DbRollbackBackup -> Prop) (t : client_tables) (p : list string) : Prop :=
  exists r, r ∈ ct_backups t /\ V r /\ p = resolve (r_backup_path r).

Section Run.
Context (V : DbRollbackBackup -> Prop) (W : DbUpdateHistory -> Prop) (gone : list string -> Prop) (f : fs) (t : client_tables).
Context (I : client_inv t) (Hgone : forall p, backup_file V t p -> gone p).
Abbreviation tidies := (roams (drops gone) f (tidied V W t)).

Lemma tidies_looks {A} (m : sys client_tables client_error A) Q : (forall f' t', looks f' t' m Q) -> tidies m Q.
Proof. intros Hm. apply roams_looks. auto. Qed.

Lemma roams_remove_at (J : client_tables -> Prop) p :
  gone (resolve p) -> roams (drops gone) f J (attempt (fs_call (remove_file p))) (fun _ => True).
Proof.
  intros Hp. eapply roams_attempt. apply roams_io; [apply _|]. apply respects_io_map, respects_remove; [apply _|].
  intros c. right. eauto.
Qed.

(** The state after [n] backups have gone. *)
Definition lost (n : Z) (t' : client_tables) : Prop := tidied V W t t' /\ lenZ (ct_backups t') + n = lenZ (ct_backups t).

Lemma lost_backup r n m t1 t2 :
  r ∈ ct_backups t -> V r -> lost n t1 -> m <> 0 -> delete_backups (fun _ => is_backup (r_backup_id r)) t1 = Ok (m, t2) ->
  lost (n + 1) t2.
Proof.
  intros Hr HV [Ht Hn] Hm Hd. split; [eapply tidied_backup; [apply I|done..]|]. destruct Ht as (p & q & -> & _).
  injection Hd as Hd <-. cbn in *. subst m. apply count_one in Hm; [lia|]. apply NoDup_filterb, I.
Qed.

Lemma roams_remove_file J r :
  r ∈ ct_backups t -> V r -> roams (drops gone) f J (remove_backup_file r) (fun _ => True).
Proof.
  intros Hr HV. unfold remove_backup_file.
  eapply roams_bind; [apply roams_looks; intros; apply looks_test, reads_exists|]. intros present _.
  destruct present; [|by apply roams_ret].
  eapply roams_bind; [apply roams_remove_at, Hgone; exists r; eauto|]. intros x _. by apply roams_ret.
Qed.

Lemma ends_drop r n :
  r ∈ ct_backups t -> V r ->
  ends (at_rest_upto (drops gone) f (lost n)) (drop_backup r)
    (fun x => at_rest_upto (drops gone) f (lost (match x with Ok _ => n + 1 | Err _ => n end)))
    (fun _ => at_rest_upto (drops gone) f (tidied V W t)).
Proof.
  intros Hr HV. unfold drop_backup.
  eapply ends_bind with (mid := fun x => at_rest_upto (drops gone) f (lost (match x with Ok _ => n + 1 | Err _ => n end))).
  - intros s (Hf & Ht & Hd). destruct (found_effect (delete_backups (fun _ => is_backup (r_backup_id r))) "rollback_backups"
      ltac:(intros [] m t' [= <- <-] Hm; unfold with_backups; cbn in *; by rewrite delete_rows_none) (sy_db s) Ht) as [H1 H2].
    unfold attempt, db_call, of_db, delete_backup. destruct (dbind _ _ (sy_db s)) as [[u|e] c]; cbn in *.
    + destruct H2 as (m & Hm & H2). split_and!; [done..|]. by eapply lost_backup.
    + split_and!; [done..|]. cbn. by rewrite H2.
  - intros [u|e]; [|by intros s Hs].
    eapply (roams_first _ _ _ _ _ _ (fun _ => True)); [by apply roams_remove_file|by intros t' [? _]|]. by intros b _ s Hs.
Qed.

Lemma tidies_drop r : r ∈ ct_backups t -> V r -> tidies (drop_backup r) (fun _ => True).
Proof.
  intros Hr HV s (Hf & Ht & Hd).
  pose proof (ends_drop r (lenZ (ct_backups t) - lenZ (ct_backups (disk (sy_db s)))) Hr HV s) as H.
  destruct (drop_backup r s) as [[x|e] s'].
  - destruct H as (? & ? & ? & _); [|done]. split_and!; [done..|]. split; [done|lia].
  - apply H. split_and!; [done..|]. split; [done|lia].
Qed.

(** Adding up the space, when a file went. *)
Lemma tidies_space (b : bool) total size : tidies (if b then add_space mode total size else sret total) (fun _ => True).
Proof. destruct b; [|by apply roams_ret]. apply tidies_looks. intros. apply looks_space. Qed.

Lemma tidies_list id : tidies (db_call (list_backups id)) (fun l => forall r, r ∈ l -> r ∈ ct_backups t).
Proof.
  apply roams_looks. intros f' t' Ht. eapply looks_weaken; [apply looks_cquery|]. intros l [= <-] r.
  intros [Hr _]%elem_of_backups_desc. by eapply tidied_backups.
Qed.

(** The number that is reported is the number of backups that have gone. *)
Lemma ends_prune_backups rs removed space :
  (forall r, r ∈ rs -> r ∈ ct_backups t /\ V r) ->
  ends (at_rest_upto (drops gone) f (lost removed)) (prune_backups mode rs removed space false)
    (fun x => at_rest_upto (drops gone) f (lost x.1)) (fun _ => at_rest_upto (drops gone) f (tidied V W t)).
Proof.
  revert removed space. induction rs as [|r rs IH]; intros removed space Hrs; cbn [prune_backups]; [by intros s Hs|].
  destruct (Hrs r) as [H1 H2]; [by left|]. eapply ends_bind; [by apply ends_drop|]. intros [b|e]; [|apply IH; set_solver].
  eapply (roams_first _ _ _ _ _ _ (fun _ => True)).
  - destruct b; [|by apply roams_ret]. apply roams_looks. intros. apply looks_space.
  - by intros t' [? _].
  - intros z _. apply IH. set_solver.
Qed.
End Run.

(** ** Pruning backups *)

(** The backups after the [keep] newest of the binaries of that name. *)
Definition surplus (name : string) (keep : nat) (t : client_tables) (r : DbRollbackBackup) : Prop :=
  exists b, b ∈ ct_managed t /\ m_binary_name b = name /\ r ∈ drop keep (backups_desc (m_binary_id b) t).

Lemma seek_spec name t b : seek (has_binary_name name) (ct_managed t) = Some b -> b ∈ ct_managed t /\ m_binary_name b = name.
Proof. intros [H1 H2%bool_decide_eq_true]%find_some. split; [by apply list_elem_of_In|done]. Qed.

Lemma newest_not_surplus name keep t b r :
  client_inv t -> r ∈ take keep (backups_desc (m_binary_id b) t) -> ~ surplus name keep t r.
Proof.
  intros I Hr (b' & _ & _ & Hd).
  assert (Hb : r_binary_id r = m_binary_id b).
  { apply elem_of_take in Hr as (i & Hi & _). apply list_elem_of_lookup_2, elem_of_backups_desc in Hi. by destruct Hi. }
  pose proof (drop_in _ _ _ Hd) as [_ Hb']%elem_of_backups_desc. rewrite <- Hb', Hb in Hd.
  assert (Hn : NoDup (backups_desc (m_binary_id b) t)).
  { apply (NoDup_fmap_1 r_backup_id). unfold backups_desc. rewrite order_by_perm. apply NoDup_filterb, I. }
  rewrite <- (take_drop keep (backups_desc _ t)) in Hn. apply NoDup_app in Hn as (_ & Hn & _). by apply (Hn r).
Qed.

Lemma ends_run_prune_backups name keep f t :
  client_inv t ->
  let R := drops (backup_file (surplus name keep t) t) in
  ends (at_rest f t) (run_prune_backups mode name keep false)
    (fun x => at_rest_upto R f (lost (surplus name keep t) (fun _ => False) t x.1))
    (fun _ => at_rest_upto R f (tidied (surplus name keep t) (fun _ => False) t)).
Proof.
  intros I R.
  assert (Hrest : forall s, at_rest f t s -> at_rest_upto R f (lost (surplus name keep t) (fun _ => False) t 0) s).
  { intros s (<- & ? & Hd). split_and!; [by left|done|]. rewrite Hd. split; [apply tidied_refl|lia]. }
  assert (Herr : forall s, at_rest f t s -> at_rest_upto R f (tidied (surplus name keep t) (fun _ => False) t) s).
  { intros s (? & ? & ? & ?)%Hrest. done. }
  unfold run_prune_backups. case_match; [by intros s Hs; apply Herr|].
  eapply looks_first; [apply looks_find|by intros; apply Herr|]. intros b [Hb Hbn]%seek_spec.
  eapply looks_first; [apply looks_cquery|by intros; apply Herr|]. intros l [= <-]. case_match; [by intros s Hs; apply Hrest|].
  eapply ends_pre; [|exact Hrest]. apply ends_prune_backups; [done|done|]. intros r Hr.
  split; [|by exists b]. by apply drop_in, elem_of_backups_desc in Hr as [? _].
Qed.

(** C27: Pruning backups keeps the records it was asked to keep: whatever calls
    fail, the newest [keep] backups of every binary, and all backups of binaries with
    another name, stay in the database, which loses nothing but backups after the
    newest [keep] of the named binary, as many as the command reports; only files
    those backups name are removed.  A kept backup may name such a file too, see
    [prune_takes_kept_backup]. *)
Theorem backup_prune_keeps_newest name keep s :
  tx (sy_db s) = None -> client_inv (disk (sy_db s)) ->
  let t := disk (sy_db s) in
  let '(result, s') := run_prune_backups mode name keep false s in
  (forall b r, r ∈ take keep (backups_desc (m_binary_id b) t) -> r ∈ ct_backups (disk (sy_db s'))) /\
  (forall b r, b ∈ ct_managed t -> m_binary_name b <> name -> r ∈ backups_desc (m_binary_id b) t ->
    r ∈ ct_backups (disk (sy_db s'))) /\
  tidied (surplus name keep t) (fun _ => False) t (disk (sy_db s')) /\
  (forall p, drops (backup_file (surplus name keep t) t) p (files (sy_fs s) !! p) (files (sy_fs s') !! p)) /\
  (forall removed space, result = Ok (removed, space) ->
    lenZ (ct_backups (disk (sy_db s'))) = lenZ (ct_backups t) - removed).
Proof.
  intros Ht I. cbn zeta. set (t := disk (sy_db s)). set (R := drops (backup_file (surplus name keep t) t)).
  pose proof (ends_run_prune_backups name keep (files (sy_fs s)) t I s ltac:(done)) as H. cbn zeta in H. fold R in H.
  destruct (run_prune_backups mode name keep false s) as [r s'].
  assert (H' : at_rest_upto R (files (sy_fs s)) (tidied (surplus name keep t) (fun _ => False) t) s').
  { destruct r; [|done]. by destruct H as (? & ? & ? & ?). }
  destruct H' as (Hf & _ & Htd). split_and!; [..|done|done|].
  - intros b r0 Hr. eapply tidied_keeps; [done| |by eapply newest_not_surplus].
    apply elem_of_take in Hr as (i & Hi & _). by apply list_elem_of_lookup_2, elem_of_backups_desc in Hi as [? _].
  - intros b r0 Hb Hn [Hr Hrb]%elem_of_backups_desc. eapply tidied_keeps; [done..|].
    intros (b' & Hb' & Hn' & Hd). apply drop_in, elem_of_backups_desc in Hd as [_ Hd]. apply Hn. rewrite <- Hn'. f_equal.
    eapply (NoDup_key_eq m_binary_id); [apply I|done|done|congruence].
  - intros removed space ->. destruct H as (_ & _ & _ & H). cbn in H. lia.
Qed.

(** ** Cleaning up *)

Context (parse_date : string -> option Z) (utc_now : nat -> Z) (days_before : Z -> Z -> option Z)
  (datetime : string -> option string).

(** A backup that has expired by the time [until]. *)
Definition expired_by (until : Z) (r : DbRollbackBackup) : Prop :=
  exists e x, r_expires_at r = Some x /\ parse_date x = Some e /\ e < until.

(** A file with the extension of an incomplete download below the downloads. *)
Definition incomplete (config : ClientConfig) (p : list string) : Prop :=
  exists dirs name, p = resolve (downloads_dir config) ++ dirs ++ [name] /\ has_temp_extension name = true.

(** An update older than the database's date for [days] days ago. *)
Definition history_before (days : Z) (u : DbUpdateHistory) : Prop :=
  exists cutoff, datetime ("-" +:+ pretty days +:+ " days") = Some cutoff /\ text_lt (u_started_at u) cutoff = true.

Definition disposable (config : ClientConfig) (until : Z) (t : client_tables) (p : list string) : Prop :=
  backup_file (expired_by until) t p \/ incomplete config p.

Lemma temp_file_incomplete config rel :
  Forall plain rel -> is_deltaship_temp_file (entry_path (downloads_dir config) rel) (data_dir config) = true ->
  incomplete config (resolve (entry_path (downloads_dir config) rel)).
Proof.
  intros Hp. rewrite resolve_entry by done. unfold is_deltaship_temp_file. destruct rel as [|n rel _] using rev_ind.
  - cbn [entry_path]. unfold downloads_dir. rewrite path_file_name_join by (by apply (bool_decide_unpack _)). done.
  - replace (entry_path (downloads_dir config) (rel ++ [n])) with (join (downloads_dir config) (path_of (rel ++ [n])))
      by (by destruct rel).
    rewrite path_file_name_of by done. intros [H _]%andb_true_iff. exists rel, n. done.
Qed.

Section CleanRun.
Context (config : ClientConfig) (until days : Z) (Huntil : forall k, utc_now k <= until) (f : fs) (t : client_tables) (I : client_inv t).
Abbreviation cleans := (roams (drops (disposable config until t)) f (tidied (expired_by until) (history_before days) t)).

Lemma cleans_looks {A} (m : sys client_tables client_error A) Q : (forall f' t', looks f' t' m Q) -> cleans m Q.
Proof. intros Hm. apply roams_looks. auto. Qed.

Lemma cleans_test m : reads m -> cleans (fs_test m) (fun _ => True).
Proof. intros Hm. apply cleans_looks. intros. by apply looks_test. Qed.

Lemma cleans_query {A} (g : client_tables -> result SqlxError A) name : cleans (db_call (q (query (on name g)))) (fun _ => True).
Proof. apply cleans_looks. intros. eapply looks_weaken; [apply looks_cquery|done]. Qed.

Lemma cleans_backups rs r0 :
  (forall r, r ∈ rs -> r ∈ ct_backups t) -> cleans (clean_backups mode parse_date utc_now rs r0 false) (fun _ => True).
Proof.
  revert r0. induction rs as [|r rs IH]; intros r0 Hrs; cbn [clean_backups]; [by apply roams_ret|].
  eapply (roams_bind _ _ _ _ _ (fun _ => True)); [|intros r1 _; apply IH; set_solver].
  destruct (r_expires_at r) as [x|] eqn:Hx; cbn [mbind option_bind]; [|by apply roams_ret].
  destruct (parse_date x) as [e|] eqn:He; [|by apply roams_ret].
  eapply roams_bind; [apply cleans_looks; intros; apply looks_tick|]. intros now [k ->].
  destruct (Z.ltb_spec e (utc_now k)) as [Hlt|_]; [|by apply roams_ret].
  eapply roams_bind; [apply tidies_drop; [done|by left|set_solver|]|].
  { exists e, x. split_and!; [done..|]. pose proof (Huntil k). lia. }
  intros [b|err] _; [|by apply roams_ret].
  eapply (roams_bind _ _ _ _ _ (fun _ => True)); [apply tidies_space|]. intros z _. by apply roams_ret.
Qed.

Lemma cleans_binaries bs r0 : cleans (clean_binaries mode parse_date utc_now bs r0 false) (fun _ => True).
Proof.
  revert r0. induction bs as [|b bs IH]; intros r0; cbn [clean_binaries]; [by apply roams_ret|].
  eapply roams_bind; [apply tidies_list|]. intros l Hl. eapply roams_bind; [by apply cleans_backups|]. intros r1 _. apply IH.
Qed.

Lemma cleans_expired r0 : cleans (cleanup_expired_backups mode parse_date utc_now config r0 false) (fun _ => True).
Proof.
  unfold cleanup_expired_backups. eapply roams_bind; [apply cleans_test, reads_exists|]. intros present _.
  destruct present; cbn [negb]; [|by apply roams_ret].
  eapply roams_bind; [apply cleans_query|]. intros bs _.
  apply cleans_binaries.
Qed.

Lemma cleans_download rel r0 :
  Forall plain rel -> cleans (clean_download mode (entry_path (downloads_dir config) rel) (data_dir config) r0 false) (fun _ => True).
Proof.
  intros Hp. unfold clean_download. eapply roams_bind; [apply cleans_test, reads_is_file|]. intros file _.
  destruct (negb file); cbn [orb]; [by apply roams_ret|].
  destruct (is_deltaship_temp_file _ _) eqn:Ht; cbn [negb]; [|by apply roams_ret].
  case_match; [|by apply roams_ret].
  eapply (roams_bind _ _ _ _ _ (fun _ => True)).
  { apply (roams_attempt _ _ _ _ (fun _ => True)), cleans_looks. intros.
    eapply looks_weaken; [apply looks_of_io, reads_io_map, reads_file_len|done]. }
  intros found _. cbn zeta. eapply roams_bind; [apply roams_remove_at; right; by apply temp_file_incomplete|].
  intros [u|e] _; [|by apply roams_ret].
  eapply (roams_bind _ _ _ _ _ (fun _ => True)); [apply cleans_looks; intros; apply looks_space|]. intros z _. by apply roams_ret.
Qed.

Lemma cleans_downloads rels r0 :
  Forall (Forall plain) rels -> cleans (clean_downloads mode (downloads_dir config) rels (data_dir config) r0 false) (fun _ => True).
Proof.
  intros Hr. revert r0. induction Hr as [|rel rels Hrel Hrels IH]; intros r0; cbn [clean_downloads]; [by apply roams_ret|].
  eapply roams_bind; [by apply cleans_download|]. intros r1 _. apply IH.
Qed.

Lemma cleans_incomplete r0 : cleans (cleanup_incomplete_downloads mode config r0 false) (fun _ => True).
Proof.
  unfold cleanup_incomplete_downloads. eapply roams_bind; [apply cleans_test, reads_exists|]. intros present _.
  destruct present; cbn [negb]; [|by apply roams_ret].
  eapply roams_bind; [apply cleans_looks; intros; apply looks_walk|]. intros rels Hr. by apply cleans_downloads.
Qed.

Lemma cleans_count cutoff bs n : cleans (count_history parse_date cutoff bs n) (fun _ => True).
Proof.
  revert n. induction bs as [|b bs IH]; intros n; cbn [count_history]; [by apply roams_ret|].
  eapply roams_bind; [apply cleans_query|]. intros l _. apply IH.
Qed.

Lemma cleans_history r0 max_age :
  days = as_i32 max_age -> cleans (cleanup_old_history parse_date utc_now days_before datetime r0 false max_age) (fun _ => True).
Proof.
  intros Hd. unfold cleanup_old_history. rewrite <- Hd. eapply roams_bind; [apply cleans_query|]. intros bs _.
  eapply roams_bind; [apply cleans_looks; intros; apply looks_tick|]. intros now _.
  eapply roams_bind; [apply cleans_looks; intros; apply looks_result|]. intros cutoff _.
  eapply roams_bind; [apply cleans_count|]. intros n _.
  eapply (roams_bind _ _ _ _ _ (fun _ => True)); [|intros u _; by apply roams_ret].
  case_match; [|by apply roams_ret]. eapply roams_bind; [|intros u _; by apply roams_ret].
  unfold delete_update_history. case_match; [apply cleans_looks; by intros f' t' s1 Hs|].
  eapply (roams_db (drops (disposable config until t)) CDb).
  - eapply effect_weaken; [apply effect_q, effect_exec|by intros t1 a t2 Hx%on_Ok; exact Hx|].
    by intros t1 e t2 (? & _ & ->).
  - cbn beta. intros t1 a t2 H1 [= _ <-]. eapply tidied_history; [|done|done]. intros u. unfold history_before.
    case_match; [|done]. eauto.
Qed.

Lemma cleans_sum total l : cleans (sum_sizes mode total l) (fun _ => True).
Proof.
  revert total. induction l as [|[x size] l IH]; intros total; cbn [sum_sizes]; [by apply roams_ret|].
  eapply roams_bind; [apply cleans_looks; intros; apply looks_space|]. intros z _. apply IH.
Qed.

Lemma cleans_run max_age_days :
  days = as_i32 (default DEFAULT_HISTORY_AGE_DAYS max_age_days) ->
  cleans (Manage.run_cleanup mode parse_date utc_now days_before datetime config false max_age_days) (fun _ => True).
Proof.
  intros Hd. unfold Manage.run_cleanup. cbn zeta. eapply roams_bind; [apply cleans_expired|]. intros r1 _.
  eapply roams_bind; [apply cleans_incomplete|]. intros r2 _. eapply roams_bind; [by apply cleans_history|]. intros r3 _.
  eapply roams_bind; [apply cleans_sum|]. intros z1 _. eapply roams_bind; [apply cleans_sum|]. intros z2 _. by apply roams_ret.
Qed.
End CleanRun.

(** C26: A cleanup of the client takes only what may go: whatever calls fail, and
    while the clock shows at most [until], the only backups that leave the database
    are those that have expired by then and the only updates those older than the
    age asked for; nothing else in the database changes.  The only files that go
    are files of such backups, and files below the downloads whose names end like
    those of incomplete downloads. *)
Theorem client_cleanup_safe config max_age_days until s :
  tx (sy_db s) = None -> client_inv (disk (sy_db s)) -> (forall k, utc_now k <= until) ->
  let t := disk (sy_db s) in
  let s' := (Manage.run_cleanup mode parse_date utc_now days_before datetime config false max_age_days s).2 in
  tidied (expired_by until) (history_before (as_i32 (default DEFAULT_HISTORY_AGE_DAYS max_age_days))) t (disk (sy_db s')) /\
  forall p, drops (disposable config until t) p (files (sy_fs s) !! p) (files (sy_fs s') !! p).
Proof.
  intros Ht I Hu. cbn zeta. set (t := disk (sy_db s)).
  pose proof (cleans_run config until _ Hu (files (sy_fs s)) t I max_age_days eq_refl s) as H.
  destruct (Manage.run_cleanup _ _ _ _ _ _ _ _ s) as [r s'].
  assert (Hs : at_rest_upto (drops (disposable config until t)) (files (sy_fs s))
    (tidied (expired_by until) (history_before (as_i32 (default DEFAULT_HISTORY_AGE_DAYS max_age_days))) t) s).
  { split_and!; [by left|done|apply tidied_refl]. }
  specialize (H Hs). destruct r; [destruct H as [(? & _ & ?) _]|destruct H as (? & _ & ?)]; done.
Qed.
End Clean.

(** ** Adding and removing *)

Section Manage.
Context {SV : Semver} {SO : SqlOrder} {SL : SqlOrderLaws SO} {ET : ErrorTexts} {KC : KeyCrypto} {H : Type} {SH : StreamHasher H bytes} (h : host).

(** A name of letters, digits, hyphens and underscores. *)
Definition safe_name (name : string) : Prop :=
  name <> "" /\ str_len name <= 64 /\ forall c, c ∈ chars name -> is_ascii_alphanumeric c = true \/ c = "-"%char \/ c = "_"%char.

Lemma validate_binary_name_Ok name : validate_binary_name name = Ok tt -> safe_name name.
Proof.
  unfold validate_binary_name. intros E. inv_ok. split_and!.
  - intros ->. done.
  - lia.
  - intros c Hc. match goal with E : negb _ = false |- _ => apply negb_false_iff in E; unfold all_chars in E;
      rewrite forallb_forall in E; specialize (E c (proj1 (list_elem_of_In _ _) Hc)) end.
    match goal with E : (_ || _ || _) = true |- _ => rewrite !orb_true_iff, !bool_decide_eq_true in E end. tauto.
Qed.

(** Such a name is one component of a path. *)
Lemma safe_name_plain name : safe_name name -> plain name.
Proof.
  intros (H1 & _ & H2). assert (Hc : forall c, c ∈ chars name -> c <> "/"%char /\ c <> "."%char).
  { intros c Hc. destruct (H2 c Hc) as [E|[E|E]]; [|by subst|by subst]. split; intros Hd; subst c; discriminate E. }
  split_and!; [done|..].
  - intros ->. destruct (Hc "."%char) as [_ ?]; [set_solver|done].
  - intros ->. destruct (Hc "."%char) as [_ ?]; [set_solver|done].
  - intros Hs. by destruct (Hc _ Hs).
Qed.

Lemma looks_symlinks f (t : client_tables) current cs : looks f t (check_symlinks h current cs) (fun _ => True).
Proof.
  revert current. induction cs as [|c cs IH]; intros current; cbn [check_symlinks]; [by apply looks_ret|].
  eapply looks_bind; [apply looks_test, reads_exists|]. intros present _. case_match; [apply looks_fail|apply IH].
Qed.

(** The absolute path, where the file exists. *)
Lemma reads_canonicalize p : reads (canonicalize p).
Proof. by apply reads_syscall. Qed.

Lemma looks_real_path f (t : client_tables) path :
  looks f t (real_path h path) (fun p => p = h_real_path h (abs_path (resolve path)) /\ is_Some (node_at f (resolve path))).
Proof.
  unfold real_path. eapply looks_bind; [apply looks_of_io, reads_io_map, reads_canonicalize|].
  intros p (w & <- & Hp). apply looks_ret. unfold io_map, canonicalize in Hp.
  destruct (syscall_cases (fun f => (if bool_decide (is_Some (node_at f (resolve path))) then Ok (abs_path (resolve path))
                     else Err IoNotFound, f)) (fun _ f => (Err IoFault, f)) w) as [[_ E]|(k & _ & E)];
    rewrite E in Hp; cbn in Hp; [|done]. case_bool_decide; cbn in Hp; [|done]. by simplify_eq.
Qed.

(** What a successful [add] has registered. *)
Definition registered_as (os arch uuid name path key_file : string) (f : fs) (row : DbManagedBinary) : Prop :=
  safe_name name /\ m_binary_id row = uuid /\ m_binary_name row = name /\ m_platform row = detect_platform os arch /\
  m_current_version_id row = None /\ h_is_symlink h path = false /\ is_Some (node_at f (resolve path)) /\
  m_install_path row = h_real_path h (abs_path (resolve path)) /\
  exists w, files w = f /\ (load_verifying_key key_file w).1 = Ok (m_publisher_public_key row).

Lemma looks_hashed {A} f (t : client_tables) (m : io (result CryptoError A)) :
  reads m -> looks f t (hashed m) (fun a => exists w, files w = f /\ (m w).1 = Ok a).
Proof.
  intros Hm. eapply looks_weaken; [by apply looks_of_io, reads_io_map|]. intros a (w & Hw & Ha). exists w. split; [done|].
  unfold io_map in Ha. destruct (m w) as [[x|e] w']; cbn in *; by simplify_eq.
Qed.

Lemma reads_read_to_string p : reads (read_to_string p).
Proof. by apply reads_io_map, reads_read. Qed.

Lemma ends_add os arch uuid name path key_file f t :
  ends (at_rest f t) (add_binary (SH := SH) h os arch uuid name path key_file)
    (fun row s' => at_rest f (with_managed (ct_managed t ++ [row]) t) s' /\ registered_as os arch uuid name path key_file f row /\
       seek (has_binary_name name) (ct_managed t) = None)
    (fun _ s' => at_rest f t s' \/ exists row, at_rest f (with_managed (ct_managed t ++ [row]) t) s').
Proof.
  assert (Herr : forall (e : client_error) s, at_rest f t s ->
    at_rest f t s \/ exists row, at_rest f (with_managed (ct_managed t ++ [row]) t) s) by auto.
  unfold add_binary. eapply looks_first; [apply looks_result|done|]. intros [] Hn%validate_binary_name_Ok.
  eapply looks_first; [apply looks_test, reads_exists|done|]. intros present _.
  destruct present; cbn [negb]; [|intros s Hs; by left].
  eapply looks_first; [apply looks_hashed, reads_io_map, reads_read_to_string|done|]. intros key Hkey.
  eapply looks_first; [apply looks_cquery|done|]. intros o [= <-]. case_bool_decide as Hs; [intros s Hs'; by left|].
  eapply looks_first; [apply looks_hashed; unfold hash_file, hash_file_generic; apply reads_io_map, reads_io_map, reads_read|done|].
  intros hash _. cbn zeta. destruct (h_is_symlink h path) eqn:Hl; [intros s Hs'; by left|].
  eapply looks_first; [apply looks_symlinks|done|]. intros u _.
  eapply looks_first; [apply looks_real_path|done|]. intros p0 _.
  eapply looks_first; [apply looks_real_path|done|]. intros p [-> Hp].
  unfold db_now. eapply ends_bind with (mid := fun row s' => at_rest f (with_managed (ct_managed t ++ [row]) t) s' /\
    registered_as os arch uuid name path key_file f row).
  - eapply looks_first; [apply looks_tick|done|]. intros now _.
    eapply (ends_db CDb); [apply register_effect|by intros s (_ & ? & _)|..].
    + intros s row c (Hf & _ & Hd) Hc [-> Hr]. split; [|by split_and!]. split_and!; [done..|]. cbn. by rewrite Hr, Hd.
    + intros s e c (Hf & _ & Hd) Hc [Hr|Hr]; [left|right; eexists]; split_and!; try done; cbn; by rewrite Hr, Hd.
  - intros row s [H1 H2]. cbn. split_and!; [done..|]. destruct (seek _ _); [|done]. destruct Hs. eauto.
Qed.

(** What [add] registers is what was asked for: on success the name is safe to
    use in paths and was free, the new row stands behind the old ones and is found
    by that name, it carries the key of the key file and the absolute path of an
    existing file that is no symbolic link; nothing else changes.  When [add]
    fails, whatever the reason, no file and no other row has changed. *)
Theorem added_binary os arch uuid name path key_file s :
  tx (sy_db s) = None ->
  let t := disk (sy_db s) in
  let '(r, s') := add_binary (SH := SH) h os arch uuid name path key_file s in
  files (sy_fs s') = files (sy_fs s) /\
  match r with
  | Ok row =>
      registered_as os arch uuid name path key_file (files (sy_fs s)) row /\ plain name /\
      seek (has_binary_name name) (ct_managed t) = None /\
      disk (sy_db s') = with_managed (ct_managed t ++ [row]) t /\
      seek (has_binary_name name) (ct_managed (disk (sy_db s'))) = Some row
  | Err _ => disk (sy_db s') = t \/ exists row, disk (sy_db s') = with_managed (ct_managed t ++ [row]) t
  end.
Proof.
  intros Ht. cbn zeta. pose proof (ends_add os arch uuid name path key_file (files (sy_fs s)) (disk (sy_db s)) s ltac:(done)) as H0.
  destruct (add_binary h os arch uuid name path key_file s) as [[row|e] s'].
  - destruct H0 as ((Hf & _ & Hd) & Hr & Hs). split; [done|]. split_and!; [done|apply safe_name_plain, Hr|done|done|].
    rewrite Hd. cbn. rewrite seek_app by done. cbn. unfold has_binary_name. rewrite bool_decide_eq_true_2; [done|apply Hr].
  - destruct H0 as [(? & _ & ?)|(row & ? & _ & ?)]; eauto.
Qed.

(** The rows of [b] are gone, all others are kept. *)
Record forgotten (b : DbManagedBinary) (t t' : client_tables) : Prop := {
  fg_managed : ct_managed t' = List.filter (fun x => negb (bool_decide (m_binary_id x = m_binary_id b))) (ct_managed t);
  fg_installed : ct_installed t' = List.filter (fun x => negb (bool_decide (i_binary_id x = m_binary_id b))) (ct_installed t);
  fg_history : ct_history t' = List.filter (fun x => negb (bool_decide (u_binary_id x = m_binary_id b))) (ct_history t);
  fg_backups : ct_backups t' = List.filter (fun x => negb (bool_decide (r_binary_id x = m_binary_id b))) (ct_backups t);
  fg_config : ct_config t' = ct_config t;
}.

(** The backups of the binary of a name. *)
Definition backup_of_name (name : string) (t : client_tables) (r : DbRollbackBackup) : Prop :=
  exists b, b ∈ ct_managed t /\ m_binary_name b = name /\ r_binary_id r = m_binary_id b.

Lemma roams_remove_files gone f (J : client_tables -> Prop) rs :
  (forall r, r ∈ rs -> gone (resolve (r_backup_path r))) -> roams (drops gone) f J (remove_backup_files rs) (fun _ => True).
Proof.
  induction rs as [|r rs IH]; intros Hr; cbn [remove_backup_files]; [by apply roams_ret|].
  eapply roams_bind; [apply roams_looks; intros; apply looks_test, reads_exists|]. intros present _.
  eapply (roams_bind _ _ _ _ _ (fun _ => True)); [|intros u _; apply IH; set_solver].
  destruct present; [|by apply roams_ret]. eapply roams_bind; [|intros u _; by apply roams_ret].
  apply roams_remove_at, Hr. by left.
Qed.

Lemma ends_remove name f t :
  let R := drops (backup_file (backup_of_name name t) t) in
  ends (at_rest_upto R f (eq t)) (remove_binary name)
    (fun _ => at_rest_upto R f (fun t' => exists b, b ∈ ct_managed t /\ m_binary_name b = name /\ forgotten b t t'))
    (fun _ => at_rest_upto R f (eq t)).
Proof.
  intros R. unfold remove_binary.
  eapply (roams_first _ _ _ _ _ _ (fun b => b ∈ ct_managed t /\ m_binary_name b = name));
    [apply roams_looks; intros f' t' <-; eapply looks_weaken; [apply looks_find|intros b Hb; by apply seek_spec]|done|].
  intros b [Hb Hn].
  eapply (roams_first _ _ _ _ _ _ (fun l => forall r, r ∈ l -> r ∈ ct_backups t /\ r_binary_id r = m_binary_id b)); [|done|].
  { apply roams_looks. intros f' t' <-. eapply looks_weaken; [apply looks_cquery|]. intros l [= <-] r. apply elem_of_backups_desc. }
  intros rs Hrs. eapply roams_first; [apply (roams_remove_files (backup_file (backup_of_name name t) t) f (eq t))|done|].
  { intros r [H1 H2]%Hrs. exists r. split_and!; [done| |done]. by exists b. }
  intros u _. eapply ends_bind with (mid := fun _ => at_rest_upto R f (fun t' => exists b, b ∈ ct_managed t /\ m_binary_name b = name /\ forgotten b t t')).
  - eapply (ends_db CDb); [apply found_effect|by intros s (_ & ? & _)|..].
    + intros t1 n t2 [= <- <-] ->. done.
    + intros s [] c (Hf & _ & <-) Hc (n & Hne & Hd). injection Hd as Hcount Hd. split_and!; [done..|]. exists b. split_and!; [done..|].
      cbn. rewrite <- Hd, Hcount. destruct (Z.eqb_spec n 0); [done|]. by split.
    + intros s e c (Hf & _ & Hd) Hc He. split_and!; [done..|]. cbn. rewrite Hd. symmetry. exact He.
  - intros [] s Hs. exact Hs.
Qed.

(** Removing a binary forgets it and only it: on success its rows have gone
    from every table, those of other binaries and the configuration are as before;
    when the command fails the database is as before.  Of the files only those of
    the binary's backups may have gone. *)
Theorem removed_binary name s :
  tx (sy_db s) = None ->
  let t := disk (sy_db s) in
  let '(r, s') := remove_binary name s in
  match r with
  | Ok _ => exists b, b ∈ ct_managed t /\ m_binary_name b = name /\ forgotten b t (disk (sy_db s'))
  | Err _ => disk (sy_db s') = t
  end /\
  forall p, drops (backup_file (backup_of_name name t) t) p (files (sy_fs s) !! p) (files (sy_fs s') !! p).
Proof.
  intros Ht. cbn zeta. pose proof (ends_remove name (files (sy_fs s)) (disk (sy_db s)) s) as H0. cbn zeta in H0.
  destruct (remove_binary name s) as [r s'].
  assert (Hs : at_rest_upto (drops (backup_file (backup_of_name name (disk (sy_db s))) (disk (sy_db s)))) (files (sy_fs s))
    (eq (disk (sy_db s))) s) by (split_and!; [by left|done|done]).
  specialize (H0 Hs). destruct r; destruct H0 as (H1 & _ & H2); done.
Qed.
End Manage.
