(* ===== verification/Sidecar.v ===== *)
(** * Sidecar: the updater process ([deltaship-client/src/bin/deltaship-updater.rs])

    An application ships this process and acts on its exit code.  What it prints
    is left out; that paths are UTF-8 goes without checking. *)

From S2P Require Import Prelude Text Diff Version Core Validation RateLimit Fs Crypto DbModels Sql ClientDb ClientDbFacts System.
From S2P Require Import ClientConfig Downloader Checker InstallPath Patcher PatcherFacts UpdateFacts Daemon DaemonFacts UpdateCommand UpdateCommandFacts KeyFiles Programs Manage.

#[local] Open Scope Z_scope.

Definition EXIT_UP_TO_DATE : Z := 0.
Definition EXIT_ERROR : Z := 1.
Definition EXIT_UPDATED : Z := 2.

Record Args := {
  arg_name : string;
  arg_install_path : string;
  arg_server_url : string;
  arg_public_key : string;
  arg_data_dir : option string;
  arg_check_only : bool;
}.

Definition validate_name (name : string) : result client_error unit :=
  if str_is_empty name then Err (CMsg "--name cannot be empty")
  else if 64 <? str_len name then Err (CMsg ("--name is too long (" +:+ pretty (str_len name) +:+ " chars, max 64)"))
  else if negb (all_chars (fun c => is_ascii_alphanumeric c || bool_decide (c = "-"%char) || bool_decide (c = "_"%char)) name) then
    Err (CMsg ("--name '" +:+ name +:+ "' is invalid: only alphanumeric characters, hyphens, and underscores are allowed"))
  else Ok tt.

Section Sidecar.
Context {SV : Semver} {SO : SqlOrder} {ET : ErrorTexts} {KC : KeyCrypto}.
Context {H : Type} {SH : StreamHasher H bytes} {H2 : Type} {SH2 : StreamHasher H2 bytes}.
Context (h : host).
Context (net : nat -> http_request -> result reqwest_error http_response).
Context (url_parse : string -> option url_parts) (status_text : Z -> string).
Context (decode_response : bytes -> result reqwest_error ServerUpdateResponse) (decode_text : bytes -> string).
Context (blake3 : bytes -> bytes) (valid_key : bytes -> bool) (verify_signature : bytes -> bytes -> bytes -> bool).
Context (blake3_from_hex : string -> option bytes).
Context (zstd_decoder_new : bytes -> result string (bytes * option string)).
(** [dirs::data_local_dir], the answer of [PRAGMA integrity_check], the platform,
    and the identifier of a new registration. *)
Context (local_dir : option string) (integrity target_os target_arch uuid : string).
#[local] Open Scope sys_scope.
Abbreviation csys := (sys client_tables client_error).

Definition sidecar_config (args : Args) : ClientConfig := {|
  server_url := arg_server_url args;
  check_interval_secs := check_interval_secs (ClientConfig.default_config local_dir);
  data_dir := default (join (default_data_dir local_dir) (arg_name args)) (arg_data_dir args);
  disk_check_mode := disk_check_mode (ClientConfig.default_config local_dir);
|}.

(** [ClientDb::open]: the connection and its pragmas. *)
Definition open_client : csys unit :=
  db_call (fun c => let '(r, c') := query (fun _ => Ok tt) c in (map_err (fun _ => DbSqlx) r, c')).

(** The registration, made on the first run. *)
Definition registration (args : Args) (public_key_bytes : bytes) : csys DbManagedBinary :=
  found ←! db_call (get_binary_by_name (arg_name args));
  match found with
  | Some existing => sret existing
  | None =>
      db_now h (fun now => register_binary now {|
        nm_binary_id := uuid; nm_binary_name := arg_name args; nm_platform := detect_platform target_os target_arch;
        nm_install_path := arg_install_path args; nm_publisher_public_key := public_key_bytes |})
  end.

(** Up to the answer of the server. *)
Definition prepare (args : Args) : csys (DbManagedBinary * option UpdateInfo) :=
  of_result (validate_name (arg_name args)) ;;!
  let config := sidecar_config args in
  fs_call (create_dir_all (data_dir config)) ;;!
  open_client ;;!
  db_now h (init integrity) ;;!
  public_key_bytes ←! hashed (load_verifying_key (arg_public_key args));
  binary ←! registration args public_key_bytes;
  update ←! check_for_updates net url_parse status_text decode_response decode_text config binary;
  sret (binary, update).

Definition run (args : Args) : csys Z :=
  prepared ←! prepare args;
  match prepared with
  | (_, None) => sret EXIT_UP_TO_DATE
  | (binary, Some update_info) =>
      if arg_check_only args then sret EXIT_UPDATED
      else
        apply_update (SH := SH) (SH2 := SH2) h net url_parse status_text blake3 valid_key verify_signature blake3_from_hex
          zstd_decoder_new (sidecar_config args) binary update_info ;;!
        sret EXIT_UPDATED
  end.

(** The exit code of the process. *)
Definition exit_code (args : Args) (s : system client_tables) : Z :=
  match (run args s).1 with Ok code => code | Err _ => EXIT_ERROR end.
End Sidecar.

(** ** What the exit code means *)

(** What exists stays. *)
Definition stays (p : list string) (o o' : option node) : Prop := is_Some o -> o' = o.
#[global] Instance stays_preorder p : PreOrder (stays p).
Proof. split; [by intros o|]. intros a b c H1 H2 Ha. specialize (H1 Ha). subst b. by apply H2. Qed.

Lemma keeps_ends {T E A} (P : system T -> Prop) (m : sys T E A) : keeps P m -> ends P m (fun _ => P) (fun _ => P).
Proof. intros Hm s Hs. specialize (Hm s Hs). by destruct (m s) as [[a|e] s']. Qed.

Section Facts.
Context {SV : Semver} {SL : SemverLaws SV} {SO : SqlOrder} {ET : ErrorTexts} {KC : KeyCrypto}.
Context {H : Type} {SH : StreamHasher H bytes} {H2 : Type} {SH2 : StreamHasher H2 bytes}.
Context (h : host).
Context (net : nat -> http_request -> result reqwest_error http_response).
Context (url_parse : string -> option url_parts) (status_text : Z -> string).
Context (decode_response : bytes -> result reqwest_error ServerUpdateResponse) (decode_text : bytes -> string).
Context (blake3 : bytes -> bytes) (valid_key : bytes -> bool) (verify_signature : bytes -> bytes -> bytes -> bool).
Context (blake3_from_hex : string -> option bytes).
Context (zstd_decoder_new : bytes -> result string (bytes * option string)).
Context (local_dir : option string) (integrity target_os target_arch uuid : string).
Abbreviation prep := (prepare h net url_parse status_text decode_response decode_text local_dir integrity target_os target_arch uuid).
Abbreviation runs := (run (SH := SH) (SH2 := SH2) h net url_parse status_text decode_response decode_text blake3 valid_key
  verify_signature blake3_from_hex zstd_decoder_new local_dir integrity target_os target_arch uuid).

Lemma respects_prepare args : sys_respects stays (prep args).
Proof.
  assert (Hc : forall p, may_create stays p) by (intros p d _ _ [? [=]]).
  unfold prepare, registration, open_client, load_verifying_key, read_to_string. cbn zeta.
  pose proof (respects_process_check net url_parse status_text decode_response decode_text stays).
  patcher_respects.
Qed.

Abbreviation sound := (fun s : system client_tables => consistent (sy_db s)).

Lemma sound_call {A} (m : db client_tables DbError A) : keeps_inv client_inv m -> keeps sound (db_call m).
Proof. intros Hm. apply keeps_call. intros c. by apply settled_keeps. Qed.

Lemma open_effect : effect (fun c : conn client_tables =>
    let '(r, c') := query (fun _ => Ok tt) c in (map_err (fun _ => DbSqlx) r, c')) (fun t _ t' => t' = t) same.
Proof.
  intros c Hc. destruct (effect_query (fun _ : client_tables => Ok tt) c Hc) as [H1 H3].
  destruct (query _ c) as [[[]|e] c']; cbn in *; [by destruct H3|done].
Qed.

Lemma preserves_open (I : client_tables -> Prop) : keeps_inv I (fun c : conn client_tables =>
    let '(r, c') := query (fun _ => Ok tt) c in (map_err (fun _ => DbSqlx) r, c')).
Proof. eapply effect_weaken; [apply open_effect|by intros ??? ->|by intros ??? ->]. Qed.

(** The registration is of the name that was asked for. *)
Lemma ends_registration args key :
  ends sound (registration h target_os target_arch uuid args key)
    (fun b s' => consistent (sy_db s') /\ m_binary_name b = arg_name args) (fun _ => sound).
Proof.
  unfold registration. eapply ends_bind with (mid := fun o s => consistent (sy_db s) /\
    (forall b, o = Some b -> m_binary_name b = arg_name args)).
  - intros s Hs. pose proof (sound_call (get_binary_by_name (arg_name args)) (preserves_query _ _) s Hs) as Hk.
    destruct (db_call _ s) as [[o|e] s'] eqn:E; cbn in Hk; [|done]. split; [done|]. intros b ->.
    apply db_call_Ok in E as (c & E & ->).
    apply (effect_Ok _ _ _ _ _ _ (effect_q _ _ _ (effect_query _)) (proj1 Hs)) in E as [_ [E _]].
    apply on_Ok in E. injection E as E. by apply seek_Some in E as [_ E%bool_decide_eq_true].
  - intros [b|]; [intros s [Hs Hb]; split; auto|]. intros s [Hs _].
    match goal with |- context [db_now h ?m] => assert (Hk : keeps sound (db_now h m)) end.
    { apply keeps_now. intros now c. apply settled_keeps, register_preserves. }
    specialize (Hk s Hs). destruct (db_now _ _ s) as [[b|e] s'] eqn:E; cbn in Hk; [|done]. split; [done|].
    apply db_now_Ok in E as (now & c & E & ->). by apply (effect_Ok _ _ _ _ _ _ (register_effect _ _) (proj1 Hs)) in E as (_ & -> & _).
Qed.

Lemma ends_prepare args :
  ends sound (prep args) (fun x s' => consistent (sy_db s') /\ m_binary_name x.1 = arg_name args) (fun _ => sound).
Proof.
  unfold prepare. cbn zeta.
  eapply ends_bind; [apply keeps_ends; auto with keeps|]. intros u1.
  eapply ends_bind; [apply keeps_ends, keeps_io; apply _|]. intros u2.
  eapply ends_bind; [apply keeps_ends, sound_call, preserves_open|intros u3].
  eapply ends_bind; [apply keeps_ends, keeps_now; intros now c; apply settled_keeps, init_preserves|]. intros u4.
  eapply ends_bind; [apply keeps_ends, keeps_io; apply _|]. intros key.
  eapply ends_bind; [apply ends_registration|]. intros b.
  apply ends_pre with (P := fun s => consistent (sy_db s) /\ m_binary_name b = arg_name args); [|done].
  apply ends_assume. intros Hb.
  eapply ends_bind; [apply keeps_ends, keeps_check; apply _|]. intros update s Hs. by split.
Qed.

(** The check of the sidecar asked the server about the binary. *)
Lemma prepare_asks args s b o s1 :
  prep args s = (Ok (b, o), s1) -> asked (sy_sent s) (check_url (sidecar_config local_dir args) b) (sy_sent s1).
Proof.
  unfold prepare. cbn zeta. set (config := sidecar_config local_dir args). intros E.
  assert (Hgrow : forall A (m : sys client_tables client_error A) s2 r s3, keeps (fun s => suffix (sy_sent s2) (sy_sent s)) m ->
    m s2 = (r, s3) -> suffix (sy_sent s2) (sy_sent s3)).
  { intros A m s2 r s3 Hm Em. specialize (Hm s2 (reflexivity _)). by rewrite Em in Hm. }
  assert (Hnow : forall A l (op : string -> db client_tables DbError A), keeps (fun s => suffix l (sy_sent s)) (db_now h op)).
  { intros A l op s2. by rewrite db_now_sent. }
  assert (Hcall : forall A l (op : db client_tables DbError A), keeps (fun s => suffix l (sy_sent s)) (db_call op)).
  { intros A l op s2. unfold db_call, of_db. by destruct (op (sy_db s2)) as [[x|e] c]. }
  apply sbind_Ok in E as (u1 & s2 & E1%Hgrow & E); [|auto with keeps].
  apply sbind_Ok in E as (u2 & s3 & E2%Hgrow & E); [|apply keeps_io; apply _].
  apply sbind_Ok in E as (u3 & s4 & E3%Hgrow & E); [|apply Hcall].
  apply sbind_Ok in E as (u4 & s5 & E4%Hgrow & E); [|apply Hnow].
  apply sbind_Ok in E as (u5 & s6 & E5%Hgrow & E); [|apply keeps_io; apply _].
  apply sbind_Ok in E as (u6 & s7 & E6%Hgrow & E); [|unfold registration; keeps_tac; first [apply Hcall|apply Hnow]].
  apply sbind_Ok in E as (u7 & s8 & E7 & E). injection E as -> -> ->.
  pose proof (check_sends net url_parse status_text decode_response decode_text config b s7) as Ha. rewrite E7 in Ha.
  eapply asked_before; [|exact Ha]. by repeat (etrans; [eassumption|]).
Qed.

(** What existed before is still there, unchanged. *)
Definition kept_files (s s' : system client_tables) : Prop := forall p, stays p (files (sy_fs s) !! p) (files (sy_fs s') !! p).

End Facts.
