(* ===== verification/ClientMain.v ===== *)
(** * ClientMain: the client's command line ([deltaship-client/src/main.rs], [commands/service.rs], [status.rs], [list.rs])

    What one run of the client does: the commands that need no database, the start
    (configuration, data directory, database), the update lock, the command or the
    loop.  What is printed is left out; what a report says is returned.  systemd's
    programs are parameters that may do anything to the files. *)

From S2P Require Import Prelude Text Diff Version Core Validation RateLimit Fs Crypto DbModels Sql ClientDb ClientDbFacts System.
From S2P Require Import ClientConfig Downloader Checker InstallPath Patcher PatcherFacts UpdateFacts Rollback Daemon DaemonFacts.
From S2P Require Import UpdateCommand UpdateCommandFacts KeyFiles Archive Walk Programs Manage ManageFacts Sidecar.

#[local] Open Scope Z_scope.

(** ** Arguments *)

Inductive ServiceAction :=
| Install (user : bool)
| Uninstall (user : bool)
| ServiceStatus (user : bool)
| Logs (user follow : bool).

(** The shell of [Completions] is given by its name. *)
Inductive Commands :=
| Add (name path public_key_file : string)
| Remove (name : string)
| List
| Status
| Rollback (name : string) (to_version : option string) (list : bool)
| Update (name : option string) (all force dry_run download_only allow_downgrade : bool)
| Cleanup (dry_run : bool) (max_age_days : option Z)
| PruneBackups (name : string) (keep : nat) (dry_run : bool)
| Version
| Completions (shell : string)
| Service (action : ServiceAction).

Record Cli := {
  cli_verbose : Z;
  cli_quiet : bool;
  cli_config : option string;
  cli_daemon : bool;
  cli_check_now : bool;
  cli_command : option Commands;
}.

(** [init_logging], unless the environment says otherwise. *)
Definition log_level (verbose : Z) (quiet : bool) : string :=
  if quiet then "error"
  else if verbose =? 0 then "warn"
  else if verbose =? 1 then "info"
  else if verbose =? 2 then "debug"
  else "trace".

Definition needs_lock (command : Commands) : bool :=
  match command with
  | Update _ _ _ _ _ _ | Rollback _ _ _ | Cleanup _ _ | PruneBackups _ _ _ => true
  | _ => false
  end.

Definition lock_busy : string :=
  "Another update operation is in progress (daemon or manual update). Please wait for it to complete or stop the daemon service first.".

(** ** The systemd service *)

Definition SERVICE_UNIT : string := "deltaship-client.service".

(** How a program ended: its exit code, none after a signal, and its error output. *)
Record process_output := { po_code : option Z; po_stderr : string }.
Definition po_success (o : process_output) : bool := bool_decide (po_code o = Some 0).

Section Service.
Context {T : Type}.
(** The variable [HOME], [current_exe] and the programs that are run. *)
Context (home current_exe : option string).
Context (command : string -> list string -> io (result io_error process_output)).
#[local] Open Scope sys_scope.

Definition get_binary_path : string := default "/usr/local/bin/deltaship-client" current_exe.

Definition generate_service_file (user_mode : bool) : string :=
  if user_mode then
"[Unit]
Description=Deltaship Client - Binary Update Daemon
After=network-online.target
Wants=network-online.target

[Service]
Type=simple
ExecStart=" +:+ get_binary_path +:+ " --daemon
Restart=on-failure
RestartSec=10

[Install]
WantedBy=default.target
"
  else
"[Unit]
Description=Deltaship Client - Binary Update Daemon
After=network-online.target
Wants=network-online.target

[Service]
Type=simple
ExecStart=" +:+ get_binary_path +:+ " --daemon
Restart=on-failure
RestartSec=10

# Security hardening
NoNewPrivileges=true
ProtectSystem=strict
ProtectHome=read-only
# P2 Issue 69: Default data directory for security hardening
# Edit this path if you need a custom data directory (see comments above)
ReadWritePaths=/var/lib/deltaship

[Install]
WantedBy=multi-user.target
".

Definition get_service_path (user_mode : bool) : sys T client_error string :=
  if user_mode then
    home ←! of_result (ok_or (CMsg "HOME environment variable not set") home);
    if negb (starts_with "/" home) then
      sfail (CMsg ("HOME environment variable must be an absolute path, got: " +:+ home))
    else
      present ←! fs_test (exists_ home);
      if negb present then sfail (CMsg ("HOME directory does not exist: " +:+ home))
      else sret (join (join (join (join home ".config") "systemd") "user") SERVICE_UNIT)
  else sret "/etc/systemd/system/deltaship-client.service".

Definition user_flag (user_mode : bool) : list string := if user_mode then ["--user"] else [].

Definition run_systemctl (args : list string) (user_mode : bool) : sys T client_error unit :=
  output ←! fs_call (command "systemctl" (user_flag user_mode ++ args));
  if po_success output then sret tt else sfail (CMsg ("systemctl failed: " +:+ po_stderr output)).

Definition install_service (user_mode : bool) : sys T client_error unit :=
  service_path ←! get_service_path user_mode;
  (if user_mode then
     match parent_path service_path with
     | Some parent => fs_call (create_dir_all parent)
     | None => sret tt
     end
   else sret tt) ;;!
  fs_call (write service_path (as_bytes (generate_service_file user_mode))) ;;!
  run_systemctl ["daemon-reload"] user_mode ;;!
  run_systemctl ["enable"; SERVICE_UNIT] user_mode ;;!
  run_systemctl ["start"; SERVICE_UNIT] user_mode.

Definition uninstall_service (user_mode : bool) : sys T client_error unit :=
  service_path ←! get_service_path user_mode;
  attempt (run_systemctl ["stop"; SERVICE_UNIT] user_mode) ;;!
  attempt (run_systemctl ["disable"; SERVICE_UNIT] user_mode) ;;!
  present ←! fs_test (exists_ service_path);
  (if (present : bool) then fs_call (remove_file service_path) else sret tt) ;;!
  run_systemctl ["daemon-reload"] user_mode.

(** Whether it says that the service is not installed. *)
Definition show_service_status (user_mode : bool) : sys T client_error bool :=
  status ←! fs_call (command "systemctl" (user_flag user_mode ++ ["status"; SERVICE_UNIT]));
  sret (negb (po_success status) && bool_decide (po_code status = Some 4)).

Definition show_service_logs (user_mode follow : bool) : sys T client_error unit :=
  status ←! fs_call (command "journalctl" (user_flag user_mode ++ ["-u"; SERVICE_UNIT] ++ (if follow then ["-f"] else [])));
  if negb (po_success status) then sfail (CMsg "Failed to retrieve logs") else sret tt.

Definition run_service (action : ServiceAction) : sys T client_error unit :=
  match action with
  | Install user => install_service user
  | Uninstall user => uninstall_service user
  | ServiceStatus user => show_service_status user ;;! sret tt
  | Logs user follow => show_service_logs user follow
  end.
End Service.

(** ** Reports *)

Inductive update_status :=
| UpdateAvailable (version : string) (forced : bool) (release_notes : option string)
| UpToDate
| CheckFailed (error : string)
| StatusUnknown.

(** [build_bandwidth_info], before the numbers are formatted: what was downloaded,
    what was saved of how much. *)
Inductive bandwidth_info :=
| SavedBandwidth (downloaded saved full : Z)
| FullDownload (downloaded : Z)
| DifferentialDownload (downloaded : Z)
| NoBandwidthInfo.

Definition build_bandwidth_info (m : profile) (u : DbUpdateHistory) : outcome bandwidth_info :=
  match u_actual_downloaded_bytes u, u_full_size_bytes u, u_diff_size_bytes u with
  | Some actual, Some full, Some _ =>
      if actual <? full then
        match sub_i64 m full actual with
        | Val saved => Val (SavedBandwidth actual saved full)
        | Panic => Panic
        end
      else Val NoBandwidthInfo
  | Some actual, _, None => Val (FullDownload actual)
  | Some actual, None, Some _ => Val (DifferentialDownload actual)
  | None, _, Some diff => Val (DifferentialDownload diff)
  | None, _, None => Val NoBandwidthInfo
  end.

Record update_line := {
  ul_from : string;
  ul_to : string;
  ul_status : string;
  ul_started_at : string;
  ul_bandwidth : bandwidth_info;
}.

Definition update_line_of (m : profile) (u : DbUpdateHistory) : outcome update_line :=
  match build_bandwidth_info m u with
  | Panic => Panic
  | Val info => Val {|
      ul_from := default "(none)" (u_from_version_string u);
      ul_to := u_to_version_string u;
      ul_status := match u_success u with Some true => "success" | Some false => "failed" | None => u_status u end;
      ul_started_at := u_started_at u;
      ul_bandwidth := info |}
  end.

Record binary_status := {
  bs_name : string;
  bs_current_version : string;
  bs_auto_update : bool;
  bs_status : update_status;
  bs_recent : list update_line;
}.

Record status_report := { sr_connected : bool; sr_binaries : list binary_status }.

Section Main.
Context {SV : Semver} {SO : SqlOrder} {ET : ErrorTexts} {KC : KeyCrypto} {WD : WalkDir}.
Context {H : Type} {SH : StreamHasher H bytes} {H2 : Type} {SH2 : StreamHasher H2 bytes}.
Context (m : profile) (h : host).
Context (net : nat -> http_request -> result reqwest_error http_response).
Context (url_parse : string -> option url_parts) (status_text : Z -> string).
Context (decode_response : bytes -> result reqwest_error ServerUpdateResponse) (decode_text : bytes -> string).
Context (blake3 : bytes -> bytes) (valid_key : bytes -> bool) (verify_signature : bytes -> bytes -> bytes -> bool).
Context (blake3_from_hex : string -> option bytes).
Context (zstd_decoder_new : bytes -> result string (bytes * option string)).
(** The parser of the configuration and its errors' texts, the directories of the
    user, the answer of [PRAGMA integrity_check], the platform, a fresh identifier. *)
Context (toml_parse : string -> option ClientConfig) (config_text : config_error -> string).
Context (local_dir config_dir : option string) (integrity target_os target_arch uuid : string).
(** Dates, as [Manage] uses them. *)
Context (parse_date : string -> option Z) (utc_now : nat -> Z) (days_before : Z -> Z -> option Z)
  (datetime : string -> option string).
Context (home current_exe : option string).
Context (command : string -> list string -> io (result io_error process_output)).
#[local] Open Scope sys_scope.
Abbreviation csys := (sys client_tables client_error).
Abbreviation check := (check_for_updates (T := client_tables) net url_parse status_text decode_response decode_text).

Definition list_managed : csys (list DbManagedBinary) := db_call list_binaries.

Definition status_of (config : ClientConfig) (server_ok : bool) (binary : DbManagedBinary) : csys update_status :=
  if server_ok then
    checked ←! attempt (check config binary);
    sret match checked with
         | Ok (Some update) => UpdateAvailable (version_to_string (ui_version update)) (ui_forced update) (ui_release_notes update)
         | Ok None => UpToDate
         | Err e => CheckFailed (error_to_string e)
         end
  else sret StatusUnknown.

Fixpoint update_lines (history : list DbUpdateHistory) : csys (list update_line) :=
  match history with
  | [] => sret []
  | update :: history =>
      match update_line_of m update with
      | Panic => sfail CPanic
      | Val line => rest ←! update_lines history; sret (line :: rest)
      end
  end.

Fixpoint binary_statuses (config : ClientConfig) (server_ok : bool) (binaries : list DbManagedBinary)
    : csys (list binary_status) :=
  match binaries with
  | [] => sret []
  | binary :: binaries =>
      status ←! status_of config server_ok binary;
      history ←! db_call (get_recent_updates (m_binary_id binary) 3);
      recent ←! update_lines history;
      rest ←! binary_statuses config server_ok binaries;
      sret ({| bs_name := m_binary_name binary;
               bs_current_version := default "(unknown)" (m_current_version_string binary);
               bs_auto_update := m_auto_update binary; bs_status := status; bs_recent := recent |} :: rest)
  end.

(** Nothing is asked of the server when nothing is managed. *)
Definition show_status (config : ClientConfig) : csys (option status_report) :=
  binaries ←! db_call list_binaries;
  if bool_decide (binaries = []) then sret None
  else
    server_ok ←! server_health_check net url_parse config;
    statuses ←! binary_statuses config server_ok binaries;
    sret (Some {| sr_connected := server_ok; sr_binaries := statuses |}).

(** [commands::rollback]. *)
Definition rollback (config : ClientConfig) (name : string) (to_version : option string) (list : bool) : csys unit :=
  if list then list_available_rollbacks name ;;! sret tt
  else perform_rollback (SH := SH) h valid_key verify_signature config name to_version.

(** ** A run *)

Definition load : option string -> csys ClientConfig := fun path =>
  of_io (io_map (map_err (fun e => CMsg (config_text e))) (load_config url_parse toml_parse local_dir config_dir path)).

(** The configuration, the data directory and the database. *)
Definition start (path : option string) : csys ClientConfig :=
  config ←! load path;
  fs_call (create_dir_all (data_dir config)) ;;!
  open_client ;;!
  db_now h (init integrity) ;;!
  sret config.

Definition take_lock (config : ClientConfig) (command : Commands) : csys unit :=
  if needs_lock command then
    locked ←! in_context "Failed to acquire update lock" (try_acquire_update_lock h config);
    if (locked : bool) then sret tt else sfail (CMsg lock_busy)
  else sret tt.

(** The commands that need no database are handled before. *)
Definition run_command (config : ClientConfig) (quiet_ : bool) (command : Commands) : csys unit :=
  match command with
  | Add name path public_key_file =>
      add_binary (SH := SH) h target_os target_arch uuid name path public_key_file ;;! sret tt
  | Remove name => remove_binary name
  | List => list_managed ;;! sret tt
  | Status => show_status config ;;! sret tt
  | Rollback name to_version list => rollback config name to_version list
  | Update name _ force dry_run download_only allow_downgrade =>
      update_run (SH := SH) (SH2 := SH2) h net url_parse status_text decode_response decode_text blake3 valid_key
        verify_signature blake3_from_hex zstd_decoder_new config name force dry_run download_only quiet_ allow_downgrade ;;!
      sret tt
  | Cleanup dry_run max_age_days =>
      run_cleanup m parse_date utc_now days_before datetime config dry_run max_age_days ;;! sret tt
  | PruneBackups name keep dry_run => run_prune_backups m name keep dry_run ;;! sret tt
  | Version | Completions _ | Service _ => sfail CPanic                            (* unreachable!() *)
  end.

(** Without a command: one check, the daemon for some turns, or the status. *)
Definition run_mode (turns : nat) (config : ClientConfig) (cli : Cli) : csys unit :=
  if cli_check_now cli then
    run_check_once (SH := SH) (SH2 := SH2) h net url_parse status_text decode_response decode_text blake3 valid_key
      verify_signature blake3_from_hex zstd_decoder_new config
  else if cli_daemon cli then
    run_daemon (SH := SH) (SH2 := SH2) m h net url_parse status_text decode_response decode_text blake3 valid_key
      verify_signature blake3_from_hex zstd_decoder_new turns config ;;! sret tt
  else show_status config ;;! sret tt.

Definition client_main (turns : nat) (cli : Cli) : csys unit :=
  match cli_command cli with
  | Some Version | Some (Completions _) => sret tt
  | Some (Service action) => run_service home current_exe command action
  | Some c =>
      config ←! start (cli_config cli);
      take_lock config c ;;!
      run_command config (cli_quiet cli) c
  | None =>
      config ←! start (cli_config cli);
      run_mode turns config cli
  end.
End Main.

(** ** The database stays consistent *)

Section Sound.
Context {SV : Semver} {SL : SemverLaws SV} {SO : SqlOrder} {ET : ErrorTexts} {KC : KeyCrypto} {WD : WalkDir}.
Abbreviation csys := (sys client_tables client_error).
Abbreviation sound := (fun s : system client_tables => consistent (sy_db s)).

Lemma sound_query {A} (f : client_tables -> result SqlxError A) : keeps sound (db_call (q (query f))).
Proof. apply sound_call, preserves_query. Qed.

(** Statements that the operations of [ClientDbFacts] are made of. *)
Lemma sound_op (o : client_op) : keeps sound (db_call (run_op o)).
Proof. apply sound_call, run_op_preserves. Qed.

Lemma sound_forget {A} (op : db client_tables DbError A) (o : client_op) :
  run_op o = forget op -> keeps sound (db_call op).
Proof. intros E. apply sound_call, keeps_forget. rewrite <- E. apply run_op_preserves. Qed.

Lemma sound_now {A} h (op : string -> db client_tables DbError A) :
  (forall now, keeps sound (db_call (op now))) -> keeps sound (db_now h op).
Proof. intros Ho. unfold db_now. apply keeps_bind; [auto with keeps|done]. Qed.

Lemma sound_backup now b v s p x n e : keeps sound (unwinding (create_backup now b v s p x n e)).
Proof.
  destruct (create_backup _ _ _ _ _ _ _ _) as [op|] eqn:E; cbn; [|auto with keeps].
  apply sound_call. by eapply create_backup_preserves.
Qed.

Lemma sound_in_context {A} t (p : csys A) : keeps sound p -> keeps sound (in_context t p).
Proof. apply keeps_in_context. Qed.
End Sound.

(** The statements, then the steps of a program. *)
Ltac sound_db :=
  first
    [ apply sound_query
    | apply sound_now; intros ?; sound_db
    | eapply (sound_op (OpInit _ _))
    | eapply (sound_op (OpSetConfig _ _ _))
    | eapply (sound_op (OpSetLastCheck _ _))
    | eapply (sound_op (OpDeleteManaged _))
    | eapply (sound_op (OpDeleteBackup _))
    | eapply (sound_op (OpUpdateCurrent _ _ _ _))
    | eapply (sound_forget _ (OpRegister _ _)); reflexivity
    | eapply (sound_forget _ (OpRollback _ _ _ _ _ _)); reflexivity
    | eapply (sound_forget _ (OpDeleteHistory _ _)); reflexivity
    | eapply (sound_forget _ (OpDeleteExpired _)); reflexivity
    | apply sound_backup ].

Ltac sound_tac :=
  repeat first
    [ progress patcher_keeps
    | lazymatch goal with
      | |- keeps _ (db_call _) => sound_db
      | |- keeps _ (db_now _ _) => sound_db
      | |- keeps _ (unwinding _) => sound_db
      end ].

Section Facts.
Context {SV : Semver} {SL : SemverLaws SV} {SO : SqlOrder} {ET : ErrorTexts} {KC : KeyCrypto} {WD : WalkDir}.
Context {H : Type} {SH : StreamHasher H bytes} {H2 : Type} {SH2 : StreamHasher H2 bytes}.
Context (m : profile) (h : host).
Context (net : nat -> http_request -> result reqwest_error http_response).
Context (url_parse : string -> option url_parts) (status_text : Z -> string).
Context (decode_response : bytes -> result reqwest_error ServerUpdateResponse) (decode_text : bytes -> string).
Context (blake3 : bytes -> bytes) (valid_key : bytes -> bool) (verify_signature : bytes -> bytes -> bytes -> bool).
Context (blake3_from_hex : string -> option bytes).
Context (zstd_decoder_new : bytes -> result string (bytes * option string)).
Context (toml_parse : string -> option ClientConfig) (config_text : config_error -> string).
Context (local_dir config_dir : option string) (integrity target_os target_arch uuid : string).
Context (parse_date : string -> option Z) (utc_now : nat -> Z) (days_before : Z -> Z -> option Z)
  (datetime : string -> option string).
Context (home current_exe : option string).
Context (command : string -> list string -> io (result io_error process_output)).
Abbreviation sound := (fun s : system client_tables => consistent (sy_db s)).

Lemma sound_find name : keeps sound (find_binary name).
Proof. unfold find_binary. sound_tac. Qed.

Lemma sound_symlinks cs current : keeps sound (check_symlinks h current cs).
Proof. revert current. induction cs as [|c cs IH]; intros current; cbn [check_symlinks]; sound_tac. Qed.

Lemma sound_add name path key_file : keeps sound (add_binary (SH := SH) h target_os target_arch uuid name path key_file).
Proof. pose proof sound_symlinks. unfold add_binary, real_path. sound_tac. Qed.

Lemma sound_remove name : keeps sound (remove_binary name).
Proof.
  pose proof (sound_find name).
  assert (Hr : forall bs, keeps sound (remove_backup_files bs)).
  { induction bs as [|b bs IH]; cbn [remove_backup_files]; sound_tac. }
  unfold remove_binary. sound_tac.
Qed.

Lemma sound_rollback config name to list : keeps sound (rollback (SH := SH) h valid_key verify_signature config name to list).
Proof.
  pose proof (sound_find name). pose proof (keeps_validate h sound).
  assert (He : forall bs, keeps sound (existing_backups bs)).
  { induction bs as [|b bs IH]; cbn [existing_backups]; sound_tac. }
  unfold rollback, list_available_rollbacks, perform_rollback, verify_backup, verify_backup_signature, load_key, pre_rollback_backup,
    restore_backup, restore_temp, restore_sidecar. sound_tac.
Qed.

Lemma sound_process config binary force dry only quiet_ down : keeps sound
  (process_binary_update (SH := SH) (SH2 := SH2) h net url_parse status_text decode_response decode_text blake3 valid_key
     verify_signature blake3_from_hex zstd_decoder_new config binary force dry only quiet_ down).
Proof.
  pose proof (keeps_check net url_parse status_text decode_response decode_text sound).
  pose proof (keeps_fetch_only (SH := SH) net url_parse status_text valid_key verify_signature sound).
  assert (Ha : forall update, keeps sound (apply_update (SH := SH) (SH2 := SH2) h net url_parse status_text blake3 valid_key
    verify_signature blake3_from_hex zstd_decoder_new config binary update)).
  { intros update. apply keeps_apply, settled_ops, inv_update_ops; apply _. }
  unfold process_binary_update. sound_tac.
Qed.

Lemma sound_update config name force dry only quiet_ down : keeps sound
  (update_run (SH := SH) (SH2 := SH2) h net url_parse status_text decode_response decode_text blake3 valid_key
     verify_signature blake3_from_hex zstd_decoder_new config name force dry only quiet_ down).
Proof.
  pose proof sound_process.
  assert (Hp : forall bs results, keeps sound
    (process_binaries (SH := SH) (SH2 := SH2) h net url_parse status_text decode_response decode_text blake3 valid_key
       verify_signature blake3_from_hex zstd_decoder_new config bs force dry only quiet_ down results)).
  { induction bs as [|b bs IH]; intros results; cbn [process_binaries]; sound_tac. }
  unfold update_run, perform_update. sound_tac.
Qed.

Lemma sound_space a b : keeps sound (add_space m a b).
Proof. unfold add_space. sound_tac. Qed.

Lemma sound_drop backup : keeps sound (drop_backup backup).
Proof. unfold drop_backup, remove_backup_file. sound_tac. Qed.

Lemma sound_cleanup config dry max_age : keeps sound
  (run_cleanup m parse_date utc_now days_before datetime config dry max_age).
Proof.
  pose proof sound_space. pose proof sound_drop.
  assert (Hb : forall bs r, keeps sound (clean_backups m parse_date utc_now bs r dry)).
  { induction bs as [|b bs IH]; intros r; cbn [clean_backups]; sound_tac. }
  assert (Hl : forall bs r, keeps sound (clean_binaries m parse_date utc_now bs r dry)).
  { induction bs as [|b bs IH]; intros r; cbn [clean_binaries]; sound_tac. }
  assert (Hd : forall root rels d r, keeps sound (clean_downloads m root rels d r dry)).
  { induction rels as [|x rels IH]; intros d r; cbn [clean_downloads]; unfold clean_download; sound_tac. }
  assert (Hh : forall cutoff bs n, keeps sound (count_history parse_date cutoff bs n)).
  { induction bs as [|b bs IH]; intros n; cbn [count_history]; sound_tac. }
  assert (Hs : forall l n, keeps sound (sum_sizes m n l)).
  { induction l as [|[x y] l IH]; intros n; cbn [sum_sizes]; sound_tac. }
  unfold run_cleanup, cleanup_expired_backups, cleanup_incomplete_downloads, cleanup_old_history. sound_tac.
Qed.

Lemma sound_prune name keep dry : keeps sound (run_prune_backups m name keep dry).
Proof.
  pose proof (sound_find name). pose proof sound_space. pose proof sound_drop.
  assert (Hp : forall bs n k, keeps sound (prune_backups m bs n k dry)).
  { induction bs as [|b bs IH]; intros n k; cbn [prune_backups]; sound_tac. }
  unfold run_prune_backups. sound_tac.
Qed.

Lemma sound_status config : keeps sound
  (show_status m net url_parse status_text decode_response decode_text config).
Proof.
  pose proof (keeps_check net url_parse status_text decode_response decode_text sound).
  assert (Hl : forall us, keeps sound (update_lines m us)).
  { induction us as [|u us IH]; cbn [update_lines]; sound_tac. }
  assert (Hb : forall ok bs, keeps sound
    (binary_statuses m net url_parse status_text decode_response decode_text config ok bs)).
  { induction bs as [|b bs IH]; cbn [binary_statuses]; unfold status_of; sound_tac. }
  unfold show_status, server_health_check. sound_tac.
Qed.

Lemma sound_service action : keeps sound (run_service home current_exe command action).
Proof.
  unfold run_service, install_service, uninstall_service, show_service_status, show_service_logs, run_systemctl, get_service_path.
  sound_tac.
Qed.

Lemma sound_lock config : keeps sound (open_update_lock config).
Proof. unfold open_update_lock. sound_tac. Qed.

Lemma sound_mode turns config cli : keeps sound
  (run_mode (SH := SH) (SH2 := SH2) m h net url_parse status_text decode_response decode_text blake3 valid_key
     verify_signature blake3_from_hex zstd_decoder_new turns config cli).
Proof.
  pose proof (sound_status config). pose proof (sound_lock config).
  pose proof (cycle_consistent (SH := SH) (SH2 := SH2) h net url_parse status_text decode_response decode_text blake3 valid_key
    verify_signature blake3_from_hex zstd_decoder_new config) as Hc.
  assert (Hd : forall n failures, keeps sound (daemon_loop (SH := SH) (SH2 := SH2) h net url_parse status_text decode_response
    decode_text blake3 valid_key verify_signature blake3_from_hex zstd_decoder_new n config failures)).
  { induction n as [|n IH]; intros failures; cbn [daemon_loop];
      unfold daemon_turn, cycle_failed, acquire_update_lock, lock_exclusive, save_failures, sleep_interval; sound_tac. }
  unfold run_mode, run_check_once, acquire_update_lock, lock_exclusive, run_daemon, acquire_daemon_lock, try_lock_exclusive, load_failures.
  sound_tac.
Qed.

Abbreviation run_ := (run_command (SH := SH) (SH2 := SH2) m h net url_parse status_text decode_response decode_text blake3 valid_key
  verify_signature blake3_from_hex zstd_decoder_new target_os target_arch uuid parse_date utc_now days_before datetime).
Abbreviation start_ := (start h url_parse toml_parse config_text local_dir config_dir integrity).
Abbreviation main_ := (client_main (SH := SH) (SH2 := SH2) m h net url_parse status_text decode_response decode_text blake3 valid_key
  verify_signature blake3_from_hex zstd_decoder_new toml_parse config_text local_dir config_dir integrity target_os target_arch uuid
  parse_date utc_now days_before datetime home current_exe command).

Lemma sound_command config quiet_ c : keeps sound (run_ config quiet_ c).
Proof.
  pose proof sound_add. pose proof sound_remove. pose proof (sound_status config). pose proof (sound_rollback config).
  pose proof (sound_update config). pose proof (sound_cleanup config). pose proof sound_prune.
  unfold run_command, list_managed. destruct c; sound_tac.
Qed.

Lemma sound_start path : keeps sound (start_ path).
Proof. unfold start, load, open_client. sound_tac. apply sound_call, preserves_open. Qed.

Lemma sound_main turns cli : keeps sound (main_ turns cli).
Proof.
  pose proof (sound_start (cli_config cli)). pose proof (sound_mode turns). pose proof sound_command. pose proof sound_service.
  pose proof sound_lock.
  unfold client_main, take_lock, try_acquire_update_lock, try_lock_exclusive. sound_tac.
Qed.

(** ** The update lock *)

(** Nothing that existed has changed, and the rows are what they were. *)
Definition nothing_changed (s s' : system client_tables) : Prop :=
  (forall p, stays p (files (sy_fs s) !! p) (files (sy_fs s') !! p)) /\
  tx (sy_db s') = None /\ same_rows (disk (sy_db s)) (disk (sy_db s')).

Lemma may_create_stays p : may_create stays p.
Proof. intros d _ _ [? [=]]. Qed.

Lemma roams_call {A} f (I : client_tables -> Prop) (op : db client_tables DbError A) ok :
  effect op ok same -> (forall t a t', I t -> ok t a t' -> I t') -> roams stays f I (db_call op) (fun _ => True).
Proof. apply (roams_db stays CDb). Qed.

Lemma roams_open f (I : client_tables -> Prop) : roams stays f I open_client (fun _ => True).
Proof.
  apply roams_call with (ok := fun t _ t' => t' = t); [apply open_effect|by intros t a t' Ht ->].
Qed.

Lemma roams_load f (I : client_tables -> Prop) path :
  roams stays f I (load url_parse toml_parse config_text local_dir config_dir path) (fun _ => True).
Proof.
  apply roams_looks. intros f' t _. eapply looks_weaken; [|done]. apply looks_of_io, reads_io_map.
  intros w. unfold load_config, ebind, io_map, elift, eret. pose proof (reads_exists (default (default_config_path config_dir) path) w) as H1.
  destruct (exists_ _ w) as [[] w1]; cbn [fst snd negb] in *.
  - pose proof (reads_read_to_string (default (default_config_path config_dir) path) w1) as H3.
    destruct (read_to_string _ w1) as [[content|e] w3]; cbn [fst snd map_err] in *; [|congruence].
    destruct (ok_or _ _) as [c|]; [|cbn; congruence]. destruct (validate_server_url _ _); cbn; congruence.
  - destruct (validate_server_url _ _); cbn; congruence.
Qed.
Lemma roams_start f t path : roams stays f (same_rows t) (start_ path) (fun _ => True).
Proof.
  unfold start. eapply roams_bind; [apply roams_load|intros config _].
  eapply roams_bind; [apply roams_io; [apply _|]|intros _ _].
  { apply respects_io_map, respects_create_dir_all; [apply _|]. intros p. apply may_create_stays. }
  eapply roams_bind; [apply roams_open|intros _ _]. eapply roams_bind; [|intros _ _; by apply roams_ret].
  unfold db_now. eapply roams_bind; [apply roams_looks; intros f' t' _; apply looks_tick|intros now _].
  eapply roams_call; [apply init_effect|]. intros t1 [] t2 H1 [->|H3]; [done|by etrans].
Qed.
Lemma roams_lock f (I : client_tables -> Prop) config : roams stays f I (try_acquire_update_lock h config) (fun _ => True).
Proof.
  unfold try_acquire_update_lock, open_update_lock.
  eapply roams_bind; [eapply roams_bind; [apply roams_io; [apply _|]|intros _ _; apply roams_io; [apply _|]]|intros _ _].
  - apply respects_io_map, respects_create_dir_all; [apply _|]. apply may_create_stays.
  - apply respects_io_map, respects_open_create; [apply _|]. by intros [? [=]].
  - eapply roams_bind; [eapply roams_attempt|intros r _; by apply roams_ret]. unfold try_lock_exclusive.
    eapply roams_bind; [apply roams_io; [apply _|]; apply respects_io_map, respects_lock; apply _|intros _ _].
    eapply roams_bind; [apply roams_looks; intros f' t' _; apply looks_tick|intros [|b] _]; [apply (roams_ret stays f I tt (fun _ => True)); done|].
    apply roams_fail.
Qed.

Lemma roams_changes_nothing {A} (p : sys client_tables client_error A) s (Q : A -> Prop) :
  roams stays (files (sy_fs s)) (same_rows (disk (sy_db s))) p Q -> tx (sy_db s) = None -> nothing_changed s (p s).2.
Proof.
  intros Hp Ht. specialize (Hp s (conj (fun _ => reflexivity _) (conj Ht (reflexivity _)))).
  destruct (p s) as [[a|e] s']; [exact (proj1 Hp)|exact Hp].
Qed.

(** The commands that change binaries, backups and their records. *)
Inductive exclusive : Commands -> Prop :=
| exclusive_update name all force dry_run download_only allow_downgrade :
    exclusive (Update name all force dry_run download_only allow_downgrade)
| exclusive_rollback name to_version list : exclusive (Rollback name to_version list)
| exclusive_cleanup dry_run max_age_days : exclusive (Cleanup dry_run max_age_days)
| exclusive_prune name keep dry_run : exclusive (PruneBackups name keep dry_run).

(** The lock is granted only while no other process has it. *)
Lemma try_lock_free config s0 s1 :
  try_acquire_update_lock (T := client_tables) h config s0 = (Ok true, s1) ->
  h_lock h (tick (sy_fs s1)) (join (data_dir config) UPDATE_LOCK_FILE) = LockFree.
Proof.
  unfold try_acquire_update_lock. intros (u & s2 & _ & E)%sbind_Ok. apply sbind_Ok in E as (r & s3 & E%attempt_Ok & E3).
  destruct r as [v|e]; [|done]. injection E3 as <-. apply sbind_Ok in E as (w & s4 & _ & E).
  apply sbind_Ok in E as (l & s5 & E5 & E). injection E5 as El <-. destruct l; [|done]. injection E as _ <-. exact El.
Qed.

(** C22: A run of [update], [rollback], [cleanup] or [prune-backups] either ends in an
    error and nothing that existed has changed, or it has taken the update lock
    first: nothing that existed has changed up to that point, and no other
    process had the lock then.  So while another process has it, these commands
    are refused. *)
Theorem update_lock_guards turns cli c s :
  cli_command cli = Some c -> exclusive c -> tx (sy_db s) = None ->
  let '(r, s') := main_ turns cli s in
  (exists e, r = Err e /\ nothing_changed s s') \/
  exists config s0 s1, start_ (cli_config cli) s = (Ok config, s0) /\ try_acquire_update_lock h config s0 = (Ok true, s1) /\
    h_lock h (tick (sy_fs s1)) (join (data_dir config) UPDATE_LOCK_FILE) = LockFree /\
    nothing_changed s s1 /\ run_ config (cli_quiet cli) c s1 = (r, s').
Proof.
  intros Hc Hx Ht. assert (Hn : needs_lock c = true) by (by destruct Hx).
  set (f := files (sy_fs s)). set (t := disk (sy_db s)).
  assert (E : main_ turns cli s = sbind (start_ (cli_config cli)) (fun config =>
    sbind (take_lock h config c) (fun _ => run_ config (cli_quiet cli) c)) s).
  { unfold client_main. rewrite Hc. by destruct c. }
  rewrite E. clear E. unfold sbind at 1. pose proof (roams_start f t (cli_config cli) s) as Hs.
  specialize (Hs (conj (fun _ _ => eq_refl) (conj Ht (reflexivity _)))).
  destruct (start_ (cli_config cli) s) as [[config|e] s0] eqn:E0; [destruct Hs as [Hs _]|left; eauto].
  unfold sbind, take_lock, in_context. rewrite Hn. unfold sbind. pose proof (roams_lock f (same_rows t) config s0 Hs) as Hl.
  destruct (try_acquire_update_lock h config s0) as [[[]|e] s1] eqn:E; cbn [map_err sret sfail]; [| |left; eauto].
  - destruct Hl as [Hl _]. unfold sret. destruct (run_ config (cli_quiet cli) c s1) as [r s'] eqn:Er. right.
    exists config, s0, s1. split_and!; try done. by eapply try_lock_free.
  - destruct Hl as [Hl _]. left. eauto.
Qed.
(** ** Reports and dry runs *)

(** A program that keeps what exists and the rows. *)
Lemma roams_of {A} f (I : client_tables -> Prop) (p : sys client_tables client_error A) :
  sys_respects stays p -> db_respects (settled I) p -> roams stays f I p (fun _ => True).
Proof.
  intros Hr Hk s (Hf & Hs). pose proof (Hr s) as [_ Hp]. pose proof (Hk s Hs) as [H1 H3].
  destruct (p s) as [[a|e] s']; cbn in *; unfold at_rest_upto; split_and!; try done; intros q0; etrans; eauto.
Qed.

Lemma settled_query {A} I (g : client_tables -> result SqlxError A) : db_respects (settled I) (db_call (q (query g))).
Proof. apply keeps_call. intros c. apply settled_keeps, preserves_query. Qed.

(** What only reads: a report, a list of backups, a dry run. *)
Definition only_reports (cli : Cli) : bool :=
  match cli_command cli with
  | Some List | Some Status | Some Version | Some (Completions _) => true
  | Some (Rollback _ _ list) => list
  | Some (Cleanup dry_run _) | Some (PruneBackups _ _ dry_run) => dry_run
  | Some _ => false
  | None => negb (cli_check_now cli) && negb (cli_daemon cli)
  end.

Ltac reading := 
  repeat first [progress patcher_respects | progress patcher_keeps | apply settled_query ].

Lemma respects_status config : sys_respects stays (show_status m net url_parse status_text decode_response decode_text config).
Proof.
  pose proof (respects_process_check net url_parse status_text decode_response decode_text stays).
  assert (Hl : forall us, sys_respects stays (update_lines m us)).
  { induction us as [|u us IH]; cbn [update_lines]; reading. }
  assert (Hb : forall ok bs, sys_respects stays
    (binary_statuses m net url_parse status_text decode_response decode_text config ok bs)).
  { induction bs as [|b bs IH]; cbn [binary_statuses]; unfold status_of; reading. }
  pose proof (respects_send (T := client_tables) net stays) as Hs. unfold show_status, server_health_check. reading; apply Hs.
Qed.

Lemma settled_status I config : db_respects (settled I) (show_status m net url_parse status_text decode_response decode_text config).
Proof.
  pose proof (keeps_check net url_parse status_text decode_response decode_text (fun s => settled I (sy_db s))).
  assert (Hl : forall us, db_respects (settled I) (update_lines m us)).
  { induction us as [|u us IH]; cbn [update_lines]; reading. }
  assert (Hb : forall ok bs, db_respects (settled I)
    (binary_statuses m net url_parse status_text decode_response decode_text config ok bs)).
  { induction bs as [|b bs IH]; cbn [binary_statuses]; unfold status_of; reading. }
  unfold show_status, server_health_check. reading.
Qed.
(** Both halves of a program that only reads. *)
Ltac reads_only := apply roams_of; [reading|reading].

Lemma roams_backups f I name : roams stays f I (list_available_rollbacks name) (fun _ => True).
Proof.
  assert (H1 : forall bs, sys_respects stays (existing_backups bs)).
  { induction bs as [|b bs IH]; cbn [existing_backups]; reading. }
  assert (H3 : forall bs, db_respects (settled I) (existing_backups bs)).
  { induction bs as [|b bs IH]; cbn [existing_backups]; reading. }
  unfold list_available_rollbacks, find_binary. reads_only.
Qed.

Lemma roams_prune_dry f I name keep : roams stays f I (run_prune_backups m name keep true) (fun _ => True).
Proof.
  assert (H1 : forall bs n k, sys_respects stays (prune_backups m bs n k true)).
  { induction bs as [|b bs IH]; intros n k; cbn [prune_backups]; reading. }
  assert (H3 : forall bs n k, db_respects (settled I) (prune_backups m bs n k true)).
  { induction bs as [|b bs IH]; intros n k; cbn [prune_backups]; reading. }
  unfold run_prune_backups, find_binary. reads_only.
Qed.
Lemma roams_downloads_dry f I {WL : WalkDirLaws WD} config r :
  roams stays f I (cleanup_incomplete_downloads m config r true) (fun _ => True).
Proof.
  unfold cleanup_incomplete_downloads. eapply roams_bind; [apply roams_of; [reading|reading]|intros present _].
  destruct present; cbn [negb]; [|by apply roams_ret].
  eapply roams_bind; [apply roams_looks; intros f' t' _; apply looks_walk|]. intros rels _.
  revert r. induction rels as [|rel rels IH]; intros r; cbn [clean_downloads]; [by apply roams_ret|].
  eapply roams_bind; [unfold clean_download; reads_only|intros r' _; apply IH].
Qed.

Lemma roams_cleanup_dry f I {WL : WalkDirLaws WD} config max_age :
  roams stays f I (run_cleanup m parse_date utc_now days_before datetime config true max_age) (fun _ => True).
Proof.
  assert (Hb : forall bs r, roams stays f I (clean_backups m parse_date utc_now bs r true) (fun _ => True)).
  { induction bs as [|b bs IH]; intros r; cbn [clean_backups]; [by apply roams_ret|].
    eapply roams_bind; [reads_only|intros r' _; apply IH]. }
  assert (Hl : forall bs r, roams stays f I (clean_binaries m parse_date utc_now bs r true) (fun _ => True)).
  { induction bs as [|b bs IH]; intros r; cbn [clean_binaries]; [by apply roams_ret|].
    eapply roams_bind; [reads_only|intros l _]. eapply roams_bind; [apply Hb|intros r' _; apply IH]. }
  assert (Hh : forall cutoff bs n, roams stays f I (count_history parse_date cutoff bs n) (fun _ => True)).
  { induction bs as [|b bs IH]; intros n; cbn [count_history]; [by apply roams_ret|].
    eapply roams_bind; [reads_only|intros l _; apply IH]. }
  assert (Hs : forall l n, roams stays f I (sum_sizes m n l) (fun _ => True)).
  { induction l as [|[x y] l IH]; intros n; cbn [sum_sizes]; [by apply roams_ret|].
    eapply roams_bind; [unfold add_space; reads_only|intros n' _; apply IH]. }
  unfold run_cleanup, cleanup_expired_backups. eapply roams_bind with (Q := fun _ => True).
  { eapply roams_bind; [reads_only|intros [] _; cbn [negb]; [|by apply roams_ret]].
    eapply roams_bind; [reads_only|intros bs _; apply Hl]. }
  intros r _. eapply roams_bind; [by apply roams_downloads_dry|intros r' _]. unfold cleanup_old_history.
  eapply roams_bind with (Q := fun _ => True).
  { eapply roams_bind; [reads_only|intros bs _]. eapply roams_bind; [reads_only|intros now _].
    eapply roams_bind; [reads_only|intros cutoff _]. eapply roams_bind; [apply Hh|intros n _]. cbn [negb andb]. reads_only. }
  intros r3 _. eapply roams_bind; [apply Hs|intros _ _]. eapply roams_bind; [apply Hs|intros _ _]. by apply roams_ret.
Qed.

Lemma roams_take_lock f I config c : roams stays f I (take_lock h config c) (fun _ => True).
Proof.
  unfold take_lock. destruct (needs_lock c); [|by apply roams_ret].
  eapply roams_bind with (Q := fun _ => True); [|intros [] _; [by apply roams_ret|by apply roams_fail]].
  intros s Hs. pose proof (roams_lock f I config s Hs) as Hl. unfold in_context.
  by destruct (try_acquire_update_lock h config s) as [[b|e] s'].
Qed.

(** Reports and dry runs - [list], [status], [rollback --list], and [cleanup] and
    [prune-backups] with [--dry-run] - change nothing that exists: a run creates the
    data directory, its lock file and the tables at most. *)
Theorem reports_change_nothing {WL : WalkDirLaws WD} turns cli s :
  only_reports cli = true -> tx (sy_db s) = None -> nothing_changed s (main_ turns cli s).2.
Proof.
  intros Hr Ht. apply roams_changes_nothing with (Q := fun _ => True); [|done].
  pose proof (roams_start (files (sy_fs s)) (disk (sy_db s)) (cli_config cli)) as Hs.
  generalize dependent (disk (sy_db s)). generalize (files (sy_fs s)). intros f t Hs.
  pose proof (fun config => roams_of f (same_rows t) _ (respects_status config) (settled_status _ config)) as Hst.
  unfold only_reports in Hr. unfold client_main. destruct (cli_command cli) as [c|].
  - destruct c; try discriminate Hr; subst; try (by apply roams_ret); (eapply roams_bind; [apply Hs|intros config _]);
      (eapply roams_bind; [apply roams_take_lock|intros _ _]); cbn [run_command]; unfold rollback; rewrite ?Hr.
    all: eapply roams_bind; [|intros ? _; by apply roams_ret].
    all: auto using roams_backups, roams_cleanup_dry, roams_prune_dry.
    unfold list_managed. reads_only.
  - eapply roams_bind; [apply Hs|intros config _]. apply andb_true_iff in Hr as [H1%negb_true_iff H3%negb_true_iff].
    unfold run_mode. rewrite H1, H3. eapply roams_bind; [apply Hst|intros ? _; by apply roams_ret].
Qed.
End Facts.

(** ** Runs over time *)

Section History.
Context {SV : Semver} {SL : SemverLaws SV} {SO : SqlOrder} {ET : ErrorTexts} {KC : KeyCrypto} {WD : WalkDir}.
Context {H : Type} {SH : StreamHasher H bytes} {H2 : Type} {SH2 : StreamHasher H2 bytes}.

(** A client from the day its database file is new: any runs, with any arguments,
    each on whatever machine, network and server it meets; between runs everything
    but the rows may change. *)
Inductive client_history : system client_tables -> Prop :=
| history_new s : disk (sy_db s) = empty_client -> tx (sy_db s) = None -> client_history s
| history_between s s' : client_history s -> disk (sy_db s') = disk (sy_db s) -> tx (sy_db s') = None -> client_history s'
| history_run m h net url_parse status_text decode_response decode_text blake3 valid_key verify_signature blake3_from_hex
    zstd_decoder_new toml_parse config_text local_dir config_dir integrity target_os target_arch uuid parse_date utc_now
    days_before datetime home current_exe command turns cli s :
    client_history s ->
    client_history (client_main (SH := SH) (SH2 := SH2) m h net url_parse status_text decode_response decode_text blake3
      valid_key verify_signature blake3_from_hex zstd_decoder_new toml_parse config_text local_dir config_dir integrity
      target_os target_arch uuid parse_date utc_now days_before datetime home current_exe command turns cli s).2.

(** C5: After any history of runs of the client - any commands with any arguments, the
    daemon for any number of turns, whatever servers answer, whatever calls of the
    file system and statements of the database fail - no transaction is open and the
    client's database is consistent: keys and names are unique, every installed
    version, history record and backup belongs to a managed binary, stored values are
    valid, and the current version of a binary is the one flagged as current. *)
Theorem client_history_consistent s : client_history s -> consistent (sy_db s).
Proof.
  induction 1 as [s Hd Ht|s s' _ [_ Hi] Hd Ht|* _ Hc].
  - split; [done|]. rewrite Hd. apply empty_client_inv.
  - split; [done|]. by rewrite Hd.
  - by apply sound_main.
Qed.
End History.

(** ** The service *)

Section ServiceFacts.
Context {T : Type} (home current_exe : option string).
Context (command : string -> list string -> io (result io_error process_output)).

(** Where the unit file is. *)
Definition unit_path (user_mode : bool) : string :=
  if user_mode then join (join (join (join (default "" home) ".config") "systemd") "user") SERVICE_UNIT
  else "/etc/systemd/system/deltaship-client.service".

Lemma unit_not_root user : resolve (unit_path user) <> [].
Proof.
  destruct user; [|by vm_compute]. cbn [unit_path]. rewrite resolve_join_plain by (by apply (bool_decide_unpack _); vm_compute).
  by intros [_ ?]%app_eq_nil.
Qed.

Lemma service_path_Ok user (s : system T) p s1 :
  get_service_path home user s = (Ok p, s1) -> p = unit_path user /\ files (sy_fs s1) = files (sy_fs s).
Proof.
  unfold get_service_path. destruct user; [|by intros [= <- <-]]. unfold unit_path. destruct home as [d|]; [|done]. cbn.
  unfold sbind, of_result. case_match; [done|]. unfold fs_test, of_io, io_map.
  pose proof (reads_exists d (sy_fs s)) as Hr. destruct (exists_ d (sy_fs s)) as [[] w]; [|done]. by intros [= <- <-].
Qed.

Context (user : bool).
Abbreviation U := (resolve (unit_path user)).
(** What systemctl does - reloading, links to the unit, starting and stopping it -
    leaves the unit file itself alone. *)
Context (Hcommand : forall program args, respects (PatcherFacts.keep [U]) (command program args)).

Lemma systemctl_respects args : sys_respects (T := T) (PatcherFacts.keep [U]) (run_systemctl command args user).
Proof. unfold run_systemctl, fs_call. pose proof Hcommand. sys_respects_tac. Qed.

Lemma systemctl_kept args (s : system T) :
  files (sy_fs (run_systemctl command args user s).2) !! U = files (sy_fs s) !! U.
Proof. apply (systemctl_respects args s). by constructor. Qed.
Lemma systemctl_quiet args (s : system T) : quiet (sy_fs s) -> quiet (sy_fs (run_systemctl command args user s).2).
Proof. apply quiet_kept with (R := PatcherFacts.keep [U]), systemctl_respects. Qed.

(** An installation that succeeds leaves the generated unit file. *)
Lemma installed_unit (s : system T) s' :
  install_service home current_exe command user s = (Ok tt, s') ->
  files (sy_fs s') !! U = Some (File (as_bytes (generate_service_file current_exe user))).
Proof.
  intros (p & s1 & Hp & E1)%sbind_Ok. apply service_path_Ok in Hp as [-> _].
  apply sbind_Ok in E1 as ([] & s3 & _ & E1). apply sbind_Ok in E1 as ([] & s4 & Hw & E1).
  apply sbind_Ok in E1 as ([] & s5 & H5 & E1). apply sbind_Ok in E1 as ([] & s6 & H6 & H7).
  pose proof (systemctl_kept ["daemon-reload"] s4) as K5. pose proof (systemctl_kept ["enable"; SERVICE_UNIT] s5) as K6.
  pose proof (systemctl_kept ["start"; SERVICE_UNIT] s6) as K7. rewrite H5 in K5. rewrite H6 in K6. rewrite H7 in K7.
  cbn in K5, K6, K7. rewrite K7, K6, K5. unfold fs_call, io_map in Hw. apply of_io_Ok in Hw as (w & Hw & ->). cbn.
  destruct (write _ _ (sy_fs s3)) as [[[]|e] w'] eqn:E; [|done]. injection Hw as <-.
  apply write_read_back in E. unfold fs_read, node_at in E.
  rewrite bool_decide_eq_false_2 in E by apply unit_not_root. destruct (files w' !! U) as [[]|]; congruence.
Qed.

(** On a machine whose calls work, an uninstallation that succeeds leaves no file. *)
Lemma uninstalled_unit (s : system T) s' :
  quiet (sy_fs s) -> uninstall_service home command user s = (Ok tt, s') -> files (sy_fs s') !! U = None.
Proof.
  intros Hq (p & s1 & Hp & E1)%sbind_Ok.
  assert (Hq1 : quiet (sy_fs s1)).
  { replace s1 with (get_service_path home user s).2 by (by rewrite Hp).
    eapply quiet_kept with (R := untouched); [|done]. unfold get_service_path, fs_test. sys_respects_tac. }
  apply service_path_Ok in Hp as [-> _].
  apply sbind_Ok in E1 as (r3 & s3 & H3 & E1). apply sbind_Ok in E1 as (r4 & s4 & H4 & E1).
  apply attempt_Ok in H3. apply attempt_Ok in H4.
  pose proof (systemctl_quiet ["stop"; SERVICE_UNIT] s1 Hq1) as Hq3. rewrite H3 in Hq3. cbn in Hq3.
  pose proof (systemctl_quiet ["disable"; SERVICE_UNIT] s3 Hq3) as Hq4. rewrite H4 in Hq4. cbn in Hq4.
  apply sbind_Ok in E1 as (b & s5 & H5 & E1). apply sbind_Ok in E1 as ([] & s6 & H6 & H7).
  pose proof (systemctl_kept ["daemon-reload"] s6) as K7. rewrite H7 in K7. cbn in K7. rewrite K7. clear K7 H7.
  unfold fs_test, of_io, io_map in H5. rewrite exists_quiet in H5 by done. injection H5 as <- <-.
  unfold node_at in H6. rewrite (bool_decide_eq_false_2 (U = [])) in H6 by apply unit_not_root.
  case_bool_decide as Hx.
  - unfold fs_call, of_io, io_map, remove_file in H6. cbn in H6. rewrite syscall_quiet in H6 by done. cbn in H6.
    unfold fs_remove, node_at in H6. rewrite bool_decide_eq_false_2 in H6 by apply unit_not_root.
    destruct (files (sy_fs s4) !! U) as [[]|]; try done. injection H6 as <-. cbn. apply lookup_delete_eq.
  - injection H6 as <-. cbn. by apply eq_None_not_Some.
Qed.
End ServiceFacts.
