(* ===== verification/DiffManager.v ===== *)
(** * DiffManager: generating diffs ([deltaship-publisher/src/diff_manager.rs])

    The manager that computes the diffs from earlier versions to a new one, with
    the job each of them has in the publisher's database.  Files are opened,
    locked and read by handle; the model reads them by path, since the manager
    itself changes neither of them in between.  Progress bars and log lines are
    left out. *)

From Stdlib Require Import QArith.
From S2P Require Import Prelude Text Diff Version Core Validation Fs Crypto DbModels Sql System PublisherDb Downloader Patcher.
From S2P Require Import Project.

#[local] Open Scope Z_scope.

(** ** Files of the diff engine ([deltaship-diff/src/generate.rs], [apply.rs], [compress.rs]) *)

Definition DEFAULT_COMPRESSION_LEVEL : Z := 3.

(** The ratio is the exact quotient the [f64] rounds. *)
Record DiffStats := {
  ds_old_size : Z;
  ds_new_size : Z;
  ds_diff_size : Z;
  ds_compression_ratio : Q;
}.

Definition compression_ratio (diff_size new_size : Z) : Q :=
  if 0 <? new_size then Qmake diff_size (Z.to_pos new_size) else 0%Q.

Section Files.
Context {ET : ErrorTexts}.
Context (bsdiff_diff : bytes -> bytes -> result string bytes).
Context (zstd_encode_all : bytes -> Z -> result string bytes).
#[local] Open Scope io_scope.

Definition compress_diff_with_level (diff : bytes) (level : Z) : result DiffError bytes :=
  map_err IoError (zstd_encode_all diff level).
Definition compress_diff (diff : bytes) : result DiffError bytes :=
  compress_diff_with_level diff DEFAULT_COMPRESSION_LEVEL.

(** [?] on an I/O error. *)
Definition diff_io {A} (m : io (result io_error A)) : io (result DiffError A) :=
  io_map (map_err (fun e => IoError (io_text e))) m.

Definition generate_diff_files (old_path new_path diff_path : string) : io (result DiffError DiffStats) :=
  (old ←? diff_io (read old_path);
   new ←? diff_io (read new_path);
   diff ←? elift (generate_diff bsdiff_diff old new);
   diff_io (write diff_path diff) ;;?
   eret {| ds_old_size := lenZ old; ds_new_size := lenZ new; ds_diff_size := lenZ diff;
           ds_compression_ratio := compression_ratio (lenZ diff) (lenZ new) |}).

Definition apply_patch_files (old_path patch_path new_path : string) : io (result DiffError unit) :=
  (old ←? diff_io (read old_path);
   patch ←? diff_io (read patch_path);
   new ←? elift (apply_patch old patch);
   diff_io (write new_path new) ;;?
   eret tt).
End Files.

(** What is relied on of zstd: frames start with the magic number and decode to
    what was encoded. *)
Definition codec_correct (zstd_encode_all : bytes -> Z -> result string bytes)
    (zstd_decoder_new : bytes -> result string (bytes * option string)) : Prop :=
  forall d level c, zstd_encode_all d level = Ok c -> zstd_decoder_new c = Ok (d, None) /\ take 4 c = zstd_magic.

(** ** The manager *)

Definition DEFAULT_DIFF_COUNT : Z := 3.
Definition DEFAULT_ALGORITHM : string := "bsdiff".
Definition MAX_LOCK_RETRIES : nat := 5.
Definition INITIAL_BACKOFF_MS : Z := 10.

Record DiffResult := {
  dr_from_version : string;
  dr_to_version : string;
  dr_diff_path : string;
  dr_diff_size : Z;
  dr_compression_ratio : Q;
  dr_computation_time_ms : Z;
  dr_job_id : string;
}.

Record DiffManager := {
  dm_diff_count : Z;
  dm_algorithm : string;
  dm_output_dir : string;
}.

Definition new_manager : DiffManager :=
  {| dm_diff_count := DEFAULT_DIFF_COUNT; dm_algorithm := DEFAULT_ALGORITHM;
     dm_output_dir := join DELTASHIP_DIR "diffs" |}.
Definition with_diff_count (count : Z) (m : DiffManager) : DiffManager :=
  {| dm_diff_count := count; dm_algorithm := dm_algorithm m; dm_output_dir := dm_output_dir m |}.
Definition with_output_dir (dir : string) (m : DiffManager) : DiffManager :=
  {| dm_diff_count := dm_diff_count m; dm_algorithm := dm_algorithm m; dm_output_dir := dir |}.

Section Manager.
Context {SO : SqlOrder} {SV : Semver} {ET : ErrorTexts}.
Context {H : Type} {SH : StreamHasher H bytes}.
Context (ph : publisher_host).
Context (bsdiff_diff : bytes -> bytes -> result string bytes).
Context (zstd_encode_all : bytes -> Z -> result string bytes).
Context (blake3 : bytes -> bytes).

#[local] Open Scope sys_scope.

(** Record the failure and return it. *)
Definition job_failed {A} (job_id err : string) : psys A :=
  now ←! observe (ph_now ph);
  pdb (set_diff_job_failed now job_id err) ;;!
  sfail (PMsg err).

Definition or_job_failed {A} (job_id : string) (text : io_error -> string) (m : io (result io_error A)) : psys A :=
  r ←! pio_try m;
  match r with
  | Ok a => sret a
  | Err e => job_failed job_id (text e)
  end.

(** One more attempt after each of the [left] pauses. *)
Fixpoint lock_loop (left : nat) : psys (result io_error unit) :=
  r ←! pio_try lock_file;
  match r, left with
  | Ok _, _ => sret (Ok tt)
  | Err _, S left' =>
      let retry_count := Z.of_nat (MAX_LOCK_RETRIES - left) in
      sleep (INITIAL_BACKOFF_MS * 2 ^ retry_count) ;;! lock_loop left'
  | Err e, O => sret (Err e)
  end.

Definition lock_input (job_id kind path : string) : psys unit :=
  r ←! lock_loop MAX_LOCK_RETRIES;
  match r with
  | Ok _ => sret tt
  | Err e =>
      job_failed job_id ("Failed to acquire read lock on " +:+ kind +:+ " file " +:+ path +:+ " after " +:+
                         pretty MAX_LOCK_RETRIES +:+ " retries: " +:+ io_text e)
  end.

Definition open_input (job_id kind path : string) : psys unit :=
  or_job_failed job_id (fun e => "Failed to open " +:+ kind +:+ " file " +:+ path +:+ ": " +:+ io_text e)
    (open_existing path).

Definition read_input (job_id kind path : string) : psys bytes :=
  or_job_failed job_id (fun e => "Failed to read " +:+ kind +:+ " file " +:+ path +:+ ": " +:+ io_text e)
    (read path).

(** A recorded hash must be the hash of what was read. *)
Definition verify_input (job_id kind path : string) (expected data : bytes) : psys unit :=
  if bool_decide (expected = []) then sret tt
  else if bool_decide (blake3 data = expected) then sret tt
  else job_failed job_id (kind +:+ " binary integrity check failed for " +:+ path +:+
         ": hash mismatch (expected " +:+ hash_to_hex expected +:+ ", got " +:+ hash_to_hex (blake3 data) +:+ ")").

Definition diff_or_failed {A} (job_id what : string) (r : result DiffError A) : psys A :=
  match r with
  | Ok a => sret a
  | Err e => job_failed job_id (what +:+ diff_text e)
  end.

(** Writing the diff, reading it back, and completing the job. *)
Definition store_diff (from_version to_version : DbVersion) (job_id diff_path : string) (start : Z)
    (new_data compressed_diff : bytes) : psys (option DiffResult) :=
  let expected_hash := blake3 compressed_diff in
  or_job_failed job_id (fun e => "Failed to write diff file " +:+ diff_path +:+ ": " +:+ io_text e)
    (write diff_path compressed_diff) ;;!
  stop ←! observe (ph_clock ph);
  let computation_time_ms := stop - start in
  let diff_size := lenZ compressed_diff in
  diff_hash ←! of_io (io_map (map_err PCrypto) (hash_file diff_path));
  if negb (bool_decide (diff_hash = expected_hash)) then
    now ←! observe (ph_now ph);
    let err := "Diff file write verification failed: hash mismatch. Expected " +:+ hash_to_hex expected_hash +:+
               ", got " +:+ hash_to_hex diff_hash in
    pdb (set_diff_job_failed now job_id err) ;;!
    pio_try (remove_file diff_path) ;;!
    sfail (PMsg err)
  else
    now ←! observe (ph_now ph);
    pdb (set_diff_job_completed now job_id diff_path (as_i64 diff_size) diff_hash (as_i64 computation_time_ms)) ;;!
    sret (Some {| dr_from_version := v_version_string from_version; dr_to_version := v_version_string to_version;
                  dr_diff_path := diff_path; dr_diff_size := diff_size;
                  dr_compression_ratio := compression_ratio diff_size (lenZ new_data);
                  dr_computation_time_ms := computation_time_ms; dr_job_id := job_id |}).

Definition diff_filename (from_version to_version : DbVersion) : string :=
  v_version_string from_version +:+ "-to-" +:+ v_version_string to_version +:+ ".patch".

(** A diff that is not smaller than the new binary is not kept. *)
Definition skip_diff (job_id : string) (compressed full : Z) : psys (option DiffResult) :=
  now ←! observe (ph_now ph);
  pdb (set_diff_job_failed now job_id
         ("Skipped: compressed delta (" +:+ pretty compressed +:+ " bytes) >= full binary (" +:+ pretty full +:+
          " bytes); client will use full binary download")) ;;!
  sret None.

Definition run_job (from_version to_version : DbVersion) (output_dir job_id : string) : psys (option DiffResult) :=
  let diff_path := join output_dir (diff_filename from_version to_version) in
  let old_path := v_file_path from_version in
  let new_path := v_file_path to_version in
  open_input job_id "source" old_path ;;!
  open_input job_id "target" new_path ;;!
  lock_input job_id "source" old_path ;;!
  lock_input job_id "target" new_path ;;!
  old_data ←! read_input job_id "source" old_path;
  new_data ←! read_input job_id "target" new_path;
  verify_input job_id "Source" old_path (v_file_hash_blake3 from_version) old_data ;;!
  verify_input job_id "Target" new_path (v_file_hash_blake3 to_version) new_data ;;!
  start ←! observe (ph_clock ph);
  diff_data ←! diff_or_failed job_id "Diff generation failed: " (generate_diff bsdiff_diff old_data new_data);
  compressed_diff ←! diff_or_failed job_id "Diff compression failed: " (compress_diff zstd_encode_all diff_data);
  if lenZ new_data <=? lenZ compressed_diff then skip_diff job_id (lenZ compressed_diff) (lenZ new_data)
  else store_diff from_version to_version job_id diff_path start new_data compressed_diff.

Definition generate_single_diff (m : DiffManager) (from_version to_version : DbVersion) (output_dir : string)
    : psys (option DiffResult) :=
  now ←! observe (ph_now ph);
  id ←! observe (ph_uuid ph);
  job ←! pdb (insert_diff_job now id
                {| nj_from_version_id := v_version_id from_version; nj_to_version_id := v_version_id to_version;
                   nj_diff_algorithm := dm_algorithm m |});
  now ←! observe (ph_now ph);
  pdb (set_diff_job_running now (j_job_id job)) ;;!
  run_job from_version to_version output_dir (j_job_id job).

(** One diff per version; failures are logged, skipped diffs too. *)
Fixpoint generate_all (m : DiffManager) (new_version : DbVersion) (dir : string) (previous : list DbVersion)
    (results : list DiffResult) : psys (list DiffResult) :=
  match previous with
  | [] => sret results
  | old_version :: previous =>
      r ←! attempt (generate_single_diff m old_version new_version dir);
      generate_all m new_version dir previous
        match r with
        | Ok (Some result) => results ++ [result]
        | Ok None | Err _ => results
        end
  end.

Definition generate_diff_for_version (m : DiffManager) (binary_name binary_id : string) (new_version : DbVersion)
    : psys (list DiffResult) :=
  versions ←! pdb (list_versions binary_id);
  let previous_versions :=
    takeZ (dm_diff_count m)
      (List.filter (fun v => negb (bool_decide (v_version_id v = v_version_id new_version))) versions) in
  if bool_decide (previous_versions = []) then sret []
  else
    let binary_diff_dir := join (dm_output_dir m) binary_name in
    pio (create_dir_all binary_diff_dir) ;;!
    generate_all m new_version binary_diff_dir previous_versions [].

Definition generate_diff_between (m : DiffManager) (binary_name platform from_version_str to_version_str : string)
    (output_path : option string) : psys (option DiffResult) :=
  binary ←! pdb (p_get_binary_by_name binary_name platform);
  binary ←! of_result (ok_or (PMsg ("Binary not found: " +:+ binary_name +:+ " (" +:+ platform +:+ ")")) binary);
  from_version ←! pdb (get_version_by_string (b_binary_id binary) from_version_str);
  from_version ←! of_result (ok_or (PMsg ("Version not found: " +:+ from_version_str)) from_version);
  to_version ←! pdb (get_version_by_string (b_binary_id binary) to_version_str);
  to_version ←! of_result (ok_or (PMsg ("Version not found: " +:+ to_version_str)) to_version);
  let output_dir := match output_path with Some p => p | None => join (dm_output_dir m) binary_name end in
  pio (create_dir_all output_dir) ;;!
  generate_single_diff m from_version to_version output_dir.

Definition get_pending_jobs : psys (list DbDiffJob) := pdb (list_diff_jobs_by_status Pending).

Definition get_diffs_for_version (version_id : string) : psys (list DbDiffJob) :=
  jobs ←! pdb (list_diff_jobs_by_status Completed);
  sret (List.filter (fun j => bool_decide (j_to_version_id j = version_id)) jobs).
End Manager.
