(* ===== verification/DiffManagerFacts.v ===== *)
(** * DiffManagerFacts: what a diff job leaves behind

    The outcome of every run of a job, on every path: what its row in the
    database says, and that the file of a completed job turns the old binary
    into the new one, up to the client that downloads it. *)

From S2P Require Import Prelude Text Diff Version Core Validation Fs Crypto DbModels Sql System PublisherDb.
From S2P Require Import PublisherDbFacts Programs ClientDb ClientConfig Downloader Checker InstallPath Patcher DiffManager Project.

#[local] Open Scope Z_scope.

(** ** Rows *)

Lemma seek_update_rows {A} (p : A -> bool) g l x :
  seek p l = Some x -> (forall y, p (g y) = p y) -> seek p (update_rows p g l) = Some (g x).
Proof.
  intros Hs Hp. induction l as [|y l IH]; [done|]. unfold seek, update_rows in *. cbn in *.
  destruct (p y) eqn:Hy; cbn; [rewrite Hp, Hy; by simplify_eq|]. rewrite Hy. auto.
Qed.

Definition job_row (id : string) (s : system publisher_tables) : option DbDiffJob :=
  seek (is_job id) (pt_jobs (disk (sy_db s))).

(** The job has the row [j], the tree is [f] and no transaction is open. *)
Definition at_job (f : fs) (id : string) (j : DbDiffJob) (s : system publisher_tables) : Prop :=
  files (sy_fs s) = f /\ tx (sy_db s) = None /\ job_row id s = Some j.

(** An error leaves the job failed with the error as its message, or, when a
    statement failed or the diff could not be read back, in the state it was in. *)
Definition given_up (id : string) (j : DbDiffJob) (e : publisher_error) (s : system publisher_tables) : Prop :=
  tx (sy_db s) = None /\
  match e with
  | PMsg msg => exists now, job_row id s = Some (fail_job now msg j)
  | PDb _ | PCrypto _ => job_row id s = Some j
  | PIo _ | PArchive _ | PHttp _ | PPanic => False
  end.

Lemma update_job_effect id g name :
  effect (dbind (q (exec (p_on name (update_job id g)))) found_rows)
    (fun t _ t' => t' = with_jobs (update_rows (is_job id) g (pt_jobs t)) t)
    (fun t _ t' => t' = t \/ count_rows (is_job id) (pt_jobs t) = 0).
Proof.
  intros c Hc. destruct (effect_q _ _ _ (effect_exec (p_on name (update_job id g))) c Hc) as [H1 H2].
  unfold dbind. destruct (q _ c) as [[n|e] c']; cbn [fst snd] in *; [|split; [done|left; naive_solver]].
  apply p_on_Ok in H2. injection H2 as <- H2. unfold found_rows. case_match eqn:Hn; cbn; (split; [done|]).
  - right. by apply Z.eqb_eq.
  - done.
Qed.

Lemma update_job_ends f id j g name err :
  (forall y, j_job_id (g y) = j_job_id y) ->
  (forall s, at_job f id j s -> forall e, err (PDb e) s) ->
  ends (at_job f id j) (pdb (dbind (q (exec (p_on name (update_job id g)))) found_rows))
    (fun _ => at_job f id (g j)) err.
Proof.
  intros Hg He. eapply ends_pdb; [apply update_job_effect|by intros s (_ & ? & _)|..].
  - intros s [] c (Hf & Ht & Hj) Hc Hd. split; [done|]. split; [done|]. unfold job_row in *. cbn. rewrite Hd. cbn.
    apply seek_update_rows; [done|]. intros y. unfold is_job. by rewrite Hg.
  - intros s e c (Hf & Ht & Hj) Hc Hd. apply He. split; [done|]. split; [done|]. unfold job_row in *. cbn.
    destruct Hd as [->|Hd]; [done|]. apply seek_Some in Hj. exfalso. apply (count_rows_pos (is_job id) (pt_jobs (disk (sy_db s)))); eauto.
Qed.

Section Facts.
Context {SO : SqlOrder} {SV : Semver} {ET : ErrorTexts}.
Context {H : Type} {SH : StreamHasher H bytes}.
Context (ph : publisher_host).
Context (bsdiff_diff : bytes -> bytes -> result string bytes).
Context (zstd_encode_all : bytes -> Z -> result string bytes).
Context (blake3 : bytes -> bytes).

Lemma job_failed_ends {A} f id j msg ok :
  ends (at_job f id j) (job_failed (A := A) ph id msg) ok (given_up id j).
Proof.
  apply ends_observe. intros now. unfold set_diff_job_failed. eapply ends_bind.
  - apply (update_job_ends f id j (fail_job now msg)); [done|]. by intros s (_ & ? & ?).
  - intros [] s (_ & Ht & Hj). split; [done|]. by exists now.
Qed.

Lemma or_job_failed_ends {A} f id j text (m : io (result io_error A)) :
  reads m ->
  ends (at_job f id j) (or_job_failed ph id text m)
    (fun a s => at_job f id j s /\ exists w, files w = f /\ (m w).1 = Ok a) (given_up id j).
Proof.
  intros Hm. eapply ends_bind with
    (mid := fun r s => at_job f id j s /\ exists w, files w = f /\ (m w).1 = r).
  - intros s (Hf & Hs). unfold pio_try, of_io, io_map. specialize (Hm (sy_fs s)).
    destruct (m (sy_fs s)) as [r w] eqn:E. split; [by split; [cbn in *; congruence|]|].
    exists (sy_fs s). by rewrite E.
  - intros [a|e]; [by apply ends_ret|]. eapply ends_pre; [apply job_failed_ends|]. by intros s [? _].
Qed.

Lemma lock_loop_ends left f id j :
  ends (at_job f id j) (lock_loop left) (fun _ => at_job f id j) (given_up id j).
Proof.
  assert (Hl : ends (at_job f id j) (pio_try lock_file) (fun _ => at_job f id j) (given_up id j)).
  { intros s (Hf & Hs). unfold pio_try, of_io, io_map.
    destruct (lock_file (sy_fs s)) as [r w] eqn:E. split; [|done]. cbn. rewrite <- Hf.
    change w with (r, w).2. rewrite <- E. by apply (reads_syscall (fun f => (Ok tt, f)) (fun _ f => (Err IoFault, f))). }
  induction left as [|left IH]; cbn [lock_loop]; (eapply ends_bind; [apply Hl|]); intros [a|e]; try by apply ends_ret.
  cbn zeta. intros s Hs. apply IH. exact Hs.
Qed.

Lemma lock_input_ends f id j kind path :
  ends (at_job f id j) (lock_input ph id kind path) (fun _ => at_job f id j) (given_up id j).
Proof.
  eapply ends_bind; [apply lock_loop_ends|]. intros [a|e]; [by apply ends_ret|apply job_failed_ends].
Qed.

Lemma read_input_ends f id j kind path :
  ends (at_job f id j) (read_input ph id kind path)
    (fun d s => at_job f id j s /\ fs_read f (resolve path) = Ok d) (given_up id j).
Proof.
  intros s Hs. assert (Hm : reads (read path)) by (apply reads_syscall; done).
  pose proof (or_job_failed_ends f id j (fun e => "Failed to read " +:+ kind +:+ " file " +:+ path +:+ ": " +:+ io_text e)
    _ Hm s Hs) as Ho. unfold read_input. destruct (or_job_failed _ _ _ _ s) as [[d|e] s']; [|done].
  destruct Ho as [Ho (w & <- & Hw)]. split; [done|]. unfold read in Hw.
  destruct (syscall_cases (fun f => (fs_read f (resolve path), f)) (fun _ f => (Err IoFault, f)) w)
    as [[_ E]|(k & _ & E)]; rewrite E in Hw; by cbn in Hw.
Qed.

Lemma open_input_ends f id j kind path :
  ends (at_job f id j) (open_input ph id kind path) (fun _ => at_job f id j) (given_up id j).
Proof.
  intros s Hs. unfold open_input. assert (Hm : reads (open_existing path)) by (apply reads_syscall; done).
  pose proof (or_job_failed_ends f id j (fun e => "Failed to open " +:+ kind +:+ " file " +:+ path +:+ ": " +:+ io_text e)
    _ Hm s Hs) as Ho. destruct (or_job_failed _ _ _ _ s) as [[d|e] s']; [by destruct Ho|done].
Qed.

Definition hash_recorded (expected data : bytes) : Prop := expected = [] \/ blake3 data = expected.

Lemma verify_input_ends f id j kind path expected data :
  ends (at_job f id j) (verify_input ph blake3 id kind path expected data)
    (fun _ s => at_job f id j s /\ hash_recorded expected data) (given_up id j).
Proof.
  unfold verify_input, hash_recorded. case_bool_decide; [apply ends_ret; by eauto|].
  case_bool_decide; [apply ends_ret; by eauto|apply job_failed_ends].
Qed.

Lemma diff_or_failed_ends {A} f id j what (r : result DiffError A) :
  ends (at_job f id j) (diff_or_failed ph id what r) (fun a s => at_job f id j s /\ r = Ok a) (given_up id j).
Proof. destruct r; [by apply ends_ret|apply job_failed_ends]. Qed.

(** ** Storing the diff *)

Lemma write_step_ends f id j text p d :
  ends (at_job f id j) (or_job_failed ph id text (write p d))
    (fun _ s => exists f', fs_read f' (resolve p) = Ok d /\ at_job f' id j s) (given_up id j).
Proof.
  eapply ends_bind with (mid := fun r s => exists f', (r = Ok tt -> fs_read f' (resolve p) = Ok d) /\ at_job f' id j s).
  - intros s (Hf & Hs). unfold pio_try, of_io, io_map. destruct (write p d (sy_fs s)) as [r w] eqn:E.
    exists (files w). split; [intros ->; by eapply write_read_back|done].
  - intros [[]|e] s (f' & Hr & Hs); [cbn; eauto|]. by eapply job_failed_ends.
Qed.

Lemma hash_file_same p w : files (hash_file p w).2 = files w.
Proof.
  unfold hash_file, hash_file_generic, io_map. assert (Hr : reads (read p)) by by apply reads_syscall.
  specialize (Hr w). by destruct (read p w).
Qed.

(** The diff is on disk and the job says so. *)
Definition diff_stored (id path : string) (j : DbDiffJob) (c : bytes) (d : DiffResult)
    (s : system publisher_tables) : Prop :=
  fs_read (files (sy_fs s)) (resolve path) = Ok c /\ tx (sy_db s) = None /\
  (exists now ms, job_row id s = Some (complete_job now path (as_i64 (lenZ c)) (blake3 c) ms j)) /\
  dr_job_id d = id /\ dr_diff_path d = path /\ dr_diff_size d = lenZ c /\ lenZ (blake3 c) = BLAKE3_HASH_SIZE.

Lemma complete_ends f id j now path c ms err :
  (forall s, at_job f id j s -> forall e, err (PDb e) s) ->
  ends (at_job f id j) (pdb (set_diff_job_completed now id path (as_i64 (lenZ c)) (blake3 c) ms))
    (fun _ s => at_job f id (complete_job now path (as_i64 (lenZ c)) (blake3 c) ms j) s /\
                lenZ (blake3 c) = BLAKE3_HASH_SIZE) err.
Proof.
  intros He s Hs. unfold set_diff_job_completed, pdb, of_db, dbind at 1, dlift.
  destruct (validate_hash_size _ _) as [[]|e] eqn:Hh; [|by apply He].
  apply validate_hash_size_Ok in Hh.
  pose proof (update_job_ends f id j (complete_job now path (as_i64 (lenZ c)) (blake3 c) ms) "diff_jobs" err
                ltac:(done) He s Hs) as Hu.
  unfold pdb, of_db in Hu. by destruct (dbind _ _ (sy_db s)) as [[[]|e] c'].
Qed.

Lemma store_diff_ends f from to id path j start new c :
  ends (at_job f id j) (store_diff ph blake3 from to id path start new c)
    (fun o s => exists d, o = Some d /\ diff_stored id path j c d s) (given_up id j).
Proof.
  unfold store_diff. eapply ends_bind; [apply write_step_ends|]. intros [] s (f' & Hread & Hs). revert s Hs.
  apply (ends_observe (at_job f' id j)). intros stop. cbn zeta.
  eapply ends_bind with (mid := fun _ => at_job f' id j).
  - intros s (Hf & Hs). unfold of_io, io_map. pose proof (hash_file_same path (sy_fs s)) as Hh.
    destruct (hash_file path (sy_fs s)) as [[h|e] w]; [split; [by etrans|done]|]. by destruct Hs.
  - intros h. case_bool_decide as Hh; cbn [negb].
    + subst h. apply ends_observe. intros now. eapply ends_bind.
      * apply complete_ends. by intros s (_ & ? & ?).
      * intros [] s ((Hf & Ht & Hj) & Hl). eexists. split; [done|]. unfold diff_stored. rewrite Hf. by eauto 9.
    + apply ends_observe. intros now. cbn zeta. eapply ends_bind.
      * apply (update_job_ends f' id j (fail_job now _)); [done|]. by intros s (_ & ? & ?).
      * intros [] s (_ & Ht & Hj). unfold sbind, pio_try, of_io, io_map. destruct (remove_file path (sy_fs s)).
        split; [done|]. by exists now.
Qed.

(** ** A whole job *)

(** What a completed job has computed: from the two binaries as they were when
    it started. *)
Definition computed (from to : DbVersion) (f : fs) (old new raw c : bytes) : Prop :=
  fs_read f (resolve (v_file_path from)) = Ok old /\ fs_read f (resolve (v_file_path to)) = Ok new /\
  hash_recorded (v_file_hash_blake3 from) old /\ hash_recorded (v_file_hash_blake3 to) new /\
  generate_diff bsdiff_diff old new = Ok raw /\ compress_diff zstd_encode_all raw = Ok c /\ lenZ c < lenZ new.

Definition job_done (from to : DbVersion) (f : fs) (path id : string) (j : DbDiffJob) (o : option DiffResult)
    (s : system publisher_tables) : Prop :=
  match o with
  | Some d => exists old new raw c, computed from to f old new raw c /\ diff_stored id path j c d s
  | None => tx (sy_db s) = None /\ files (sy_fs s) = f /\ exists now msg, job_row id s = Some (fail_job now msg j)
  end.

Lemma run_job_ends from to f dir id j :
  ends (at_job f id j) (run_job ph bsdiff_diff zstd_encode_all blake3 from to dir id)
    (job_done from to f (join dir (diff_filename from to)) id j) (given_up id j).
Proof.
  unfold run_job. cbn zeta.
  do 2 (eapply ends_bind; [apply open_input_ends|intros []]).
  do 2 (eapply ends_bind; [apply lock_input_ends|intros []]).
  eapply ends_bind; [apply read_input_ends|intros old; apply ends_assume; intros Ho].
  eapply ends_bind; [apply read_input_ends|intros new; apply ends_assume; intros Hn].
  do 2 (eapply ends_bind; [apply verify_input_ends|intros []; apply ends_assume; intros ?]).
  apply ends_observe. intros start.
  eapply ends_bind; [apply diff_or_failed_ends|intros raw; apply ends_assume; intros Hr].
  eapply ends_bind; [apply diff_or_failed_ends|intros c; apply ends_assume; intros Hc].
  destruct (Z.leb_spec (lenZ new) (lenZ c)) as [Hl|Hl].
  - apply ends_observe. intros now. eapply ends_bind.
    + apply (update_job_ends f id j (fail_job now _)); [done|]. by intros s (_ & ? & ?).
    + intros [] s (Hf & Ht & Hj). split; [done|]. eauto.
  - intros s Hs. pose proof (store_diff_ends f from to id (join dir (diff_filename from to)) j start new c s Hs) as Hd.
    destruct (store_diff _ _ _ _ _ _ _ _ _ s) as [[o|e] s']; [|done]. destruct Hd as (d & -> & Hd).
    exists old, new, raw, c. done.
Qed.

(** ** From the version pair to the outcome *)

Definition pair_key (m : DiffManager) (from to : DbVersion) : string * string * string :=
  (v_version_id from, v_version_id to, dm_algorithm m).

(** A row of the pair, with more to say about it. *)
Definition has_job (key : string * string * string) (Q : DbDiffJob -> Prop) (s : system publisher_tables) : Prop :=
  exists row, row ∈ pt_jobs (disk (sy_db s)) /\ job_key row = key /\ Q row.

Lemma job_row_has id j s (Q : DbDiffJob -> Prop) : job_row id s = Some j -> Q j -> has_job (job_key j) Q s.
Proof. intros [Hj _]%seek_Some HQ. by exists j. Qed.

Abbreviation unsettled := (fun row => j_status row = "pending" \/ j_status row = "running").

(** Before the job runs: only the database changes. *)
Definition not_started (key : string * string * string) (s0 : system publisher_tables) (e : publisher_error)
    (s : system publisher_tables) : Prop :=
  (exists d, e = PDb d) /\ (disk (sy_db s) = disk (sy_db s0) \/ has_job key unsettled s).

Lemma inserted_job now id nj t t' :
  job_inserted now id nj t t' ->
  new_job now id nj ∈ pt_jobs t' /\ seek (is_job id) (pt_jobs t') = Some (new_job now id nj).
Proof.
  intros [_ Hi]. unfold insert_job_row in Hi. rewrite result_bind_Ok in Hi. destruct Hi as ([] & H1%require_Ok & Hi).
  rewrite result_bind_Ok in Hi. destruct Hi as ([] & _ & Hi).
  rewrite result_bind_Ok in Hi. destruct Hi as ([] & _ & [= <-]). cbn. split; [set_solver|].
  apply negb_true_iff in H1. unfold seek. induction (pt_jobs t) as [|x l IH]; cbn in *.
  - unfold is_job. by rewrite bool_decide_eq_true_2.
  - apply orb_false_iff in H1 as [-> H1]. auto.
Qed.

Lemma insert_job_ends m from to now id s0 :
  tx (sy_db s0) = None ->
  ends (fun s => s = s0)
    (pdb (insert_diff_job now id {| nj_from_version_id := v_version_id from; nj_to_version_id := v_version_id to;
                                    nj_diff_algorithm := dm_algorithm m |}))
    (fun j s => at_job (files (sy_fs s0)) (j_job_id j) j s /\
       (exists now, j = new_job now (j_job_id j) {| nj_from_version_id := v_version_id from;
                       nj_to_version_id := v_version_id to; nj_diff_algorithm := dm_algorithm m |}))
    (not_started (pair_key m from to) s0).
Proof.
  intros Ht. set (nj := {| nj_from_version_id := _ |}).
  eapply ends_pdb; [apply (insert_diff_job_effect now id nj)|by intros s ->|..].
  - intros s a c -> Hc [Hi Hs]. destruct (inserted_job _ _ _ _ _ Hi) as [_ Hs']. rewrite Hs in Hs'. injection Hs' as ->.
    split; [by split; [done|]|]. by exists now.
  - intros s e c -> Hc [Hd|Hi]; (split; [by eexists|]); [by left|right].
    exists (new_job now id nj). split; [by eapply inserted_job|]. split; [done|by left].
Qed.

Lemma started_ends m from to dir s0 :
  tx (sy_db s0) = None ->
  ends (fun s => s = s0) (generate_single_diff ph bsdiff_diff zstd_encode_all blake3 m from to dir)
    (fun o s => exists id j, job_key j = pair_key m from to /\
       job_done from to (files (sy_fs s0)) (join dir (diff_filename from to)) id j o s)
    (fun e s => not_started (pair_key m from to) s0 e s \/
       exists id j, job_key j = pair_key m from to /\ j_status j = "running" /\ given_up id j e s).
Proof.
  intros Ht. apply ends_observe. intros now. apply ends_observe. intros id.
  eapply ends_bind.
  - intros s Hs. pose proof (insert_job_ends m from to now id s0 Ht s Hs) as Hi.
    destruct (pdb _ s) as [[j|e] s']; [exact Hi|by left].
  - intros j. apply ends_assume. intros [now' Hj]. apply ends_observe. intros now2.
    assert (Hk : job_key j = pair_key m from to) by (rewrite Hj; done).
    eapply ends_bind.
    + apply (update_job_ends (files (sy_fs s0)) (j_job_id j) j (start_job now2)); [done|].
      intros s (_ & Ht' & Hrow) e. left. split; [by eexists|]. right. rewrite <- Hk.
      eapply job_row_has; [done|]. left. by rewrite Hj.
    + intros [] s Hs. pose proof (run_job_ends from to (files (sy_fs s0)) dir (j_job_id j) _ s Hs) as Hr.
      destruct (run_job _ _ _ _ _ _ _ _ s) as [[o|e] s']; [by exists (j_job_id j), (start_job now2 j)|].
      right. by exists (j_job_id j), (start_job now2 j).
Qed.

(** C18: Every run of a diff job ends in a state its row tells: a diff is reported
    exactly when the job is completed, and then the file at the recorded path holds
    the compressed diff of the two binaries, smaller than the new one, with the
    recorded hash and size, and both binaries had their recorded hashes.  A skipped
    diff and every error with a message leave the job failed, with the message;
    only an error of the database, or of reading the diff back, can leave it
    pending or running. *)
Theorem diff_job_outcome m from to dir s :
  tx (sy_db s) = None ->
  let '(r, s') := generate_single_diff ph bsdiff_diff zstd_encode_all blake3 m from to dir s in
  match r with
  | Ok (Some d) => exists old new raw c,
      computed from to (files (sy_fs s)) old new raw c /\
      fs_read (files (sy_fs s')) (resolve (dr_diff_path d)) = Ok c /\ dr_diff_size d = lenZ c /\
      has_job (pair_key m from to) (fun row => j_status row = "completed" /\ j_job_id row = dr_job_id d /\
        j_diff_path row = Some (dr_diff_path d) /\ j_diff_hash_blake3 row = Some (blake3 c) /\
        j_diff_size_bytes row = Some (as_i64 (lenZ c))) s'
  | Ok None => files (sy_fs s') = files (sy_fs s) /\
      has_job (pair_key m from to) (fun row => j_status row = "failed") s'
  | Err (PMsg msg) =>
      has_job (pair_key m from to) (fun row => j_status row = "failed" /\ j_error_message row = Some msg) s'
  | Err (PCrypto _) => has_job (pair_key m from to) (fun row => j_status row = "running") s'
  | Err (PDb _) => disk (sy_db s') = disk (sy_db s) \/ has_job (pair_key m from to) unsettled s'
  | Err (PIo _) | Err (PArchive _) | Err (PHttp _) | Err PPanic => False
  end.
Proof.
  intros Ht. pose proof (started_ends m from to dir s Ht s eq_refl) as Hr.
  destruct (generate_single_diff _ _ _ _ _ _ _ _ s) as [[[d|]|e] s'].
  - destruct Hr as (id & j & Hk & old & new & raw & c & Hc & Hf & _ & (now & ms & Hj) & Hid & Hp & Hsz & _).
    exists old, new, raw, c. split; [done|]. rewrite Hp. split; [done|]. split; [done|]. rewrite <- Hk.
    apply (job_row_has _ _ _ _ Hj). apply seek_Some in Hj as [_ Hj%bool_decide_eq_true]. cbn in Hj |- *.
    by rewrite Hj, Hid.
  - destruct Hr as (id & j & Hk & _ & Hf & now & msg & Hj). split; [done|]. rewrite <- Hk.
    by apply (job_row_has _ _ _ _ Hj).
  - destruct Hr as [[[d ->] Hr]|(id & j & Hk & Hs & _ & Hg)]; [done|]. rewrite <- Hk.
    destruct e; [destruct Hg as [now Hg]|right|done| |done|done|done]; (eapply (job_row_has _ _ _ _ Hg)); cbn; auto.
Qed.

(** A pair of versions is diffed once: when a job of the pair exists, whatever
    became of it, another run fails with an error of the database and changes
    neither the tables nor a file, so a failed or skipped diff is only tried again
    after its job was deleted. *)
Theorem pair_diffed_once m from to dir s :
  tx (sy_db s) = None -> has_job (pair_key m from to) (fun _ => True) s ->
  exists e s', generate_single_diff ph bsdiff_diff zstd_encode_all blake3 m from to dir s = (Err (PDb e), s') /\
    disk (sy_db s') = disk (sy_db s) /\ sy_fs s' = sy_fs s.
Proof.
  intros Ht (row & Hrow & Hk & _). unfold generate_single_diff, sbind at 1 2. cbn [observe].
  set (nj := {| nj_from_version_id := _ |}).
  assert (Hno : forall now id t', ~ job_inserted now id nj (disk (sy_db s)) t').
  { intros now id t' [_ Hi]. unfold insert_job_row in Hi.
    rewrite result_bind_Ok in Hi. destruct Hi as ([] & _ & Hi).
    rewrite result_bind_Ok in Hi. destruct Hi as ([] & H2%require_Ok & _).
    apply negb_true_iff, not_true_iff_false in H2. apply H2, existsb_exists. exists row.
    split; [by apply list_elem_of_In|]. by apply bool_decide_eq_true. }
  unfold sbind, pdb, of_db.
  destruct (insert_diff_job_effect (ph_now ph s) (ph_uuid ph s) nj (sy_db s) Ht) as [_ Hi].
  destruct (insert_diff_job _ _ _ _) as [[j|e] c']; cbn [fst snd] in Hi.
  - destruct Hi as [Hi _]. by apply Hno in Hi.
  - exists e. eexists. split; [done|]. destruct Hi as [Hi|Hi]; [done|by apply Hno in Hi].
Qed.
End Facts.

(** ** To the client *)

Section Client.
Context {SV : Semver} {ET : ErrorTexts}.
Context {H : Type} {SH : StreamHasher H bytes}.
Context (blake3 : bytes -> bytes) {HL : HasherLaw SH blake3}.
Context (zstd_decoder_new : bytes -> result string (bytes * option string)).

Lemma fs_call_quiet {T : Type} {A} (run : fs -> result io_error A * fs) fault (s : system T) a f :
  quiet (sy_fs s) -> run (files (sy_fs s)) = (Ok a, f) ->
  fs_call (syscall run fault) s = (Ok a, with_fs (advance (sy_fs s) f) s).
Proof. intros Hq Hr. unfold fs_call, of_io, io_map. rewrite syscall_quiet by done. by rewrite Hr. Qed.

Lemma sys_read_quiet {T : Type} p (s : system T) c :
  quiet (sy_fs s) -> fs_read (files (sy_fs s)) (resolve p) = Ok c ->
  fs_call (read p) s = (Ok c, with_fs (advance (sy_fs s) (files (sy_fs s))) s).
Proof. intros Hq Hr. apply fs_call_quiet; [done|]. by rewrite Hr. Qed.

Lemma hashed_quiet p (s : system client_tables) c :
  quiet (sy_fs s) -> fs_read (files (sy_fs s)) (resolve p) = Ok c ->
  hashed (hash_file p) s = (Ok (blake3 c), with_fs (advance (sy_fs s) (files (sy_fs s))) s).
Proof.
  intros Hq Hr. unfold hashed, of_io, hash_file, hash_file_generic, io_map, read.
  rewrite syscall_quiet by done. cbn [fst snd]. rewrite Hr.
  destruct (hash_loop_spec (S (length c)) hasher_new c 0) as (chunks & calls & -> & Hcat & _); [lia|].
  cbn. by rewrite (hasher_chunks chunks), Hcat.
Qed.

(** The client's part: the downloaded diff takes the installed binary to [new]. *)
Lemma patch_current_quiet config binary update s old c raw new :
  quiet (sy_fs s) ->
  fs_read (files (sy_fs s)) (resolve (m_install_path binary)) = Ok old ->
  fs_read (files (sy_fs s)) (resolve (diff_path config binary update)) = Ok c ->
  ui_diff_checksum update = Some (hash_to_hex (blake3 c)) -> lenZ (blake3 c) = 32 ->
  take 4 c = zstd_magic -> decompress_diff zstd_decoder_new c = Ok raw -> apply_patch old raw = Ok new ->
  (patch_current zstd_decoder_new config binary update s).1 = Ok new.
Proof.
  intros Hq Ho Hc Hsum Hl Hm Hd Ha. unfold patch_current. cbn zeta. rewrite Hsum. cbn [ok_or].
  rewrite (sbind_step (of_result _) _ s _ s eq_refl).
  rewrite (sbind_step (of_result _) _ s (blake3 c) s);
    [|unfold of_result; by rewrite (proj1 (hash_hex_roundtrip (blake3 c) Hl))].
  erewrite sbind_step by by apply hashed_quiet.
  unfold hash_ct_eq. rewrite bool_decide_eq_true_2 by done. cbn [negb].
  erewrite sbind_step by by apply sys_read_quiet. erewrite sbind_step by by apply sys_read_quiet.
  rewrite (sbind_step _ _ _ _ _ (attempt_fs_call _ _)).
  rewrite bool_decide_eq_true_2 by done. rewrite Hd. unfold sbind, of_result. cbn [map_err]. by rewrite Ha.
Qed.

Lemma decompress_encoded zstd_encode_all raw c :
  codec_correct zstd_encode_all zstd_decoder_new -> compress_diff zstd_encode_all raw = Ok c ->
  lenZ raw <= MAX_DECOMPRESSED_SIZE -> decompress_diff zstd_decoder_new c = Ok raw /\ take 4 c = zstd_magic.
Proof.
  unfold compress_diff, compress_diff_with_level. intros Hz (Hdec & Hm)%map_err_Ok%Hz Hl. split; [|done].
  unfold decompress_diff. rewrite (decompress_diff_bounded_spec _ _ _ raw None Hdec) by (unfold MAX_DECOMPRESSED_SIZE; lia).
  by rewrite (proj2 (Z.ltb_ge MAX_DECOMPRESSED_SIZE (lenZ raw))).
Qed.

(** C17: From the publisher's files to the client's memory: when the diff of a
    completed job has reached a client that runs the old binary, with the hash of
    the job as its checksum, and no call of the file system fails there, the
    client's patcher rebuilds exactly the new binary, provided the raw diff stays
    within the limit of the decompression. *)
Theorem completed_diff_updates_client {SO : SqlOrder} ph bsdiff_diff zstd_encode_all m from to dir s d s'
    old new config binary update (t : system client_tables) :
  generator_correct bsdiff_diff -> codec_correct zstd_encode_all zstd_decoder_new ->
  tx (sy_db s) = None ->
  generate_single_diff ph bsdiff_diff zstd_encode_all blake3 m from to dir s = (Ok (Some d), s') ->
  fs_read (files (sy_fs s)) (resolve (v_file_path from)) = Ok old ->
  fs_read (files (sy_fs s)) (resolve (v_file_path to)) = Ok new ->
  lenZ old <= 2 ^ 61 -> lenZ new <= MAX_OUTPUT_SIZE ->
  (forall raw, generate_diff bsdiff_diff old new = Ok raw -> lenZ raw <= MAX_DECOMPRESSED_SIZE) ->
  quiet (sy_fs t) ->
  fs_read (files (sy_fs t)) (resolve (m_install_path binary)) = Ok old ->
  fs_read (files (sy_fs t)) (resolve (diff_path config binary update)) =
    fs_read (files (sy_fs s')) (resolve (dr_diff_path d)) ->
  ui_diff_checksum update = hash_to_hex <$> (job_row (dr_job_id d) s' ≫= j_diff_hash_blake3) ->
  (patch_current zstd_decoder_new config binary update t).1 = Ok new.
Proof.
  intros Hgen Hz Ht Hrun Ho Hn Hlo Hln Hraw Hq Hinst Hdiff Hsum.
  pose proof (started_ends ph bsdiff_diff zstd_encode_all blake3 m from to dir s Ht s eq_refl) as Hr. rewrite Hrun in Hr.
  destruct Hr as (id & j & _ & old' & new' & raw & c & (Ho' & Hn' & _ & _ & Hg & Hcomp & _) & Hf & _ &
                  (now & ms & Hj) & Hid & Hp & _ & Hl).
  rewrite Ho in Ho'. rewrite Hn in Hn'. simplify_eq.
  destruct (decompress_encoded _ _ _ Hz Hcomp (Hraw _ Hg)) as [Hdec Hmagic].
  pose proof (generated_diff_applies _ _ _ Hgen Hlo Hln) as Ha. rewrite Hg in Ha.
  eapply patch_current_quiet; try done; [by rewrite Hdiff, Hp|].
  by rewrite Hsum, Hj.
Qed.
End Client.
