(* ===== verification/Export.v ===== *)
(** * Export: writing a project to an archive ([deltaship-publisher/src/commands/export.rs])

    The command that packs the database, the keys and, on demand, the binaries
    and diffs of a project.  What is printed, and what is left of the output when
    the export fails, are left out. *)

From S2P Require Import Prelude Text Version Validation RateLimit Fs DbModels Sql System PublisherDb Archive Project.

#[local] Open Scope Z_scope.
#[local] Open Scope sys_scope.

Section ExportCommand.
Context {SO : SqlOrder}.
Context (tar_gz : list tar_entry -> bytes) (metadata_json : ArchiveMetadata -> result string string).
Context (rfc3339_now : system publisher_tables -> string) (CARGO_PKG_VERSION : string).

(** A call on the builder. *)
Definition on_builder (m : ArchiveBuilder -> io (result ArchiveError ArchiveBuilder)) (b : ArchiveBuilder)
    : psys ArchiveBuilder := archive_call (m b).

Fixpoint count_versions (binaries : list DbBinary) (version_count : Z) : psys Z :=
  match binaries with
  | [] => sret version_count
  | binary :: binaries =>
      versions ←! pdb (list_versions (b_binary_id binary));
      count_versions binaries (version_count + lenZ versions)
  end.

(** The versions of one binary; files that are gone are skipped. *)
Fixpoint export_versions (binary : DbBinary) (versions : list DbVersion) (b : ArchiveBuilder) : psys ArchiveBuilder :=
  match versions with
  | [] => sret b
  | version :: versions =>
      present ←! look (exists_ (v_file_path version));
      if negb present then export_versions binary versions b
      else
        let dir := "binaries/" +:+ b_binary_name binary +:+ "/" +:+ v_version_string version in
        b ←! on_builder (add_directory dir) b;
        b ←! on_builder (add_file (v_file_path version) (dir +:+ "/" +:+ b_platform binary)) b;
        export_versions binary versions b
  end.

Fixpoint export_each_binary (binaries : list DbBinary) (b : ArchiveBuilder) : psys ArchiveBuilder :=
  match binaries with
  | [] => sret b
  | binary :: binaries =>
      versions ←! pdb (list_versions (b_binary_id binary));
      b ←! export_versions binary versions b;
      export_each_binary binaries b
  end.

Definition export_binaries (b : ArchiveBuilder) : psys ArchiveBuilder :=
  binaries ←! pdb p_list_binaries;
  if bool_decide (length binaries = 0%nat) then sret b
  else
    b ←! on_builder (add_directory "binaries") b;
    export_each_binary binaries b.

(** One completed job with a path. *)
Definition export_diff (job : DbDiffJob) (diff_path : string) (b : ArchiveBuilder) : psys ArchiveBuilder :=
  present ←! look (exists_ diff_path);
  if negb present then sret b
  else
    from_version ←! pdb (get_version (j_from_version_id job));
    to_version ←! pdb (get_version (j_to_version_id job));
    match from_version, to_version with
    | Some from_v, Some to_v =>
        binary ←! pdb (p_get_binary (v_binary_id from_v));
        match binary with
        | None => sret b
        | Some binary =>
            b ←! on_builder (add_directory ("diffs/" +:+ b_binary_name binary)) b;
            on_builder (add_file diff_path
              ("diffs/" +:+ b_binary_name binary +:+ "/" +:+ v_version_string from_v +:+ "-to-" +:+
               v_version_string to_v +:+ "-" +:+ b_platform binary)) b
        end
    | _, _ => sret b
    end.

Fixpoint export_each_diff (jobs : list DbDiffJob) (b : ArchiveBuilder) : psys ArchiveBuilder :=
  match jobs with
  | [] => sret b
  | job :: jobs =>
      b ←! match j_diff_path job with Some diff_path => export_diff job diff_path b | None => sret b end;
      export_each_diff jobs b
  end.

Definition export_diffs (b : ArchiveBuilder) : psys ArchiveBuilder :=
  completed_jobs ←! pdb (list_diff_jobs_by_status Completed);
  if bool_decide (length completed_jobs = 0%nat) then sret b
  else
    b ←! on_builder (add_directory "diffs") b;
    export_each_diff completed_jobs b.

(** A key file that exists. *)
Definition export_key (path archive_path : string) (b : ArchiveBuilder) : psys ArchiveBuilder :=
  present ←! look (exists_ path);
  if (present : bool) then on_builder (add_file path archive_path) b else sret b.

Definition export_output (output : string) : string :=
  if ends_with ".tar.gz" output || ends_with ".tgz" output then output else output +:+ ".tar.gz".

(** What goes into the archive. *)
Definition export_entries (include_keys include_binaries : bool) (metadata : ArchiveMetadata) (b : ArchiveBuilder)
    : psys ArchiveBuilder :=
  b ←! on_builder (add_metadata metadata_json metadata) b;
  b ←! on_builder (add_file DB_FILE "publisher.db") b;
  b ←! on_builder (add_directory "keys") b;
  b ←! export_key PUBLIC_KEY_FILE "keys/public.key" b;
  b ←! (if include_keys then export_key SIGNING_KEY_FILE "keys/signing.key" b else sret b);
  if include_binaries then
    b ←! export_binaries b;
    export_diffs b
  else sret b.

Definition export_run (output : string) (include_keys include_binaries : bool) (format : string) : psys unit :=
  present ←! look (exists_ DB_FILE);
  if negb present then sfail (PMsg not_initialized)
  else if negb (bool_decide (format = "tar")) then
    sfail (PMsg ("Unsupported export format '" +:+ format +:+ "'. Only 'tar' (tar.gz) is supported."))
  else
    let output_path := export_output output in
    open_db ;;!
    binaries ←! pdb p_list_binaries;
    version_count ←! count_versions binaries 0;
    publisher_name ←! pdb (p_get_config (as_db_key PublisherName));
    now ←! observe rfc3339_now;
    let metadata := metadata_new now CARGO_PKG_VERSION publisher_name include_keys include_binaries
                      (lenZ binaries) version_count in
    b ←! archive_call (builder_new output_path);
    b ←! export_entries include_keys include_binaries metadata b;
    archive_call (finish tar_gz b) ;;!
    pio (stat output_path).
End ExportCommand.
