(* ===== verification/Import.v ===== *)
(** * Import: unpacking an archive into a project ([deltaship-publisher/src/commands/import.rs])

    The command that extracts an archive and copies or merges it into the
    project.  The database in the archive is the tables its file decodes to
    ([db_of_bytes]); after the file was copied the project's tables are those.
    The tree has no symbolic links: the extraction creates none.  What is printed
    is left out. *)

From S2P Require Import Prelude Text Version Core Validation RateLimit Fs Admin DbModels Sql System PublisherDb Downloader Archive ArchiveRoundtrip Walk Project.

#[local] Open Scope Z_scope.
#[local] Open Scope sys_scope.

Section ImportCommand.
Context {SO : SqlOrder} {SV : Semver} {ET : ErrorTexts} {HI : HashIter} {WD : WalkDir}.
Context (ph : publisher_host).
Context (entries_of : bytes -> result io_error (list (result io_error tar_entry))).
Context (metadata_of_json : string -> result string ArchiveMetadata).
Context (db_of_bytes : bytes -> result DbError publisher_tables).

(** ** The database *)

Definition imported_binary_file (binary_name version_string platform : string) : string :=
  join (join (join (join DELTASHIP_DIR "binaries") binary_name) version_string) platform.

(** A statement on the other database; it meets the next failure of the schedule. *)
Definition on_source {A} (t : publisher_tables) (m : db publisher_tables DbError A) : psys A := fun s =>
  let '(r, c) := m (Conn t None (sched (sy_db s))) in
  (map_err PDb r, with_db (Conn (disk (sy_db s)) (tx (sy_db s)) (sched c)) s).

(** [iter().map(..).find(|p| p.is_file())]. *)
Fixpoint first_file (paths : list string) : psys (option string) :=
  match paths with
  | [] => sret None
  | p :: paths =>
      file ←! look (is_file p);
      if (file : bool) then sret (Some p) else first_file paths
  end.

Definition merge_version (binary : DbBinary) (new_binary_id : string) (version : DbVersion) : psys unit :=
  let imported := imported_binary_file (b_binary_name binary) (v_version_string version) (b_platform binary) in
  file ←! look (is_file imported);
  let file_path := if (file : bool) then imported else v_file_path version in
  now ←! observe (ph_now ph);
  id ←! observe (ph_uuid ph);
  new_version ←! pdb (insert_version now id
    {| nv_binary_id := new_binary_id; nv_version_string := v_version_string version; nv_file_path := file_path;
       nv_file_size_bytes := v_file_size_bytes version; nv_file_hash_blake3 := v_file_hash_blake3 version;
       nv_file_hash_sha256 := v_file_hash_sha256 version |});
  match v_signature_ed25519 version, v_signature_timestamp version with
  | Some sig, Some ts => pdb (set_version_signature (v_version_id new_version) sig ts)
  | _, _ => sret tt
  end.

Fixpoint merge_versions (binary : DbBinary) (new_binary_id : string) (versions : list DbVersion) : psys unit :=
  match versions with
  | [] => sret tt
  | v :: versions => merge_version binary new_binary_id v ;;! merge_versions binary new_binary_id versions
  end.

(** A binary of the source; one that exists is skipped. *)
Definition merge_binary (source : publisher_tables) (binary : DbBinary) : psys unit :=
  existing ←! pdb (p_get_binary_by_name (b_binary_name binary) (b_platform binary));
  match existing with
  | Some _ => sret tt
  | None =>
      versions ←! on_source source (list_versions (b_binary_id binary));
      found ←! first_file ((fun v => imported_binary_file (b_binary_name binary) (v_version_string v) (b_platform binary))
                           <$> versions);
      now ←! observe (ph_now ph);
      id ←! observe (ph_uuid ph);
      new_binary ←! psys_db (insert_binary now id
        {| nb_binary_name := b_binary_name binary; nb_platform := b_platform binary;
           nb_binary_path := default (b_binary_path binary) found; nb_description := b_description binary |});
      merge_versions binary (b_binary_id new_binary) versions
  end.

Fixpoint merge_binaries (source : publisher_tables) (binaries : list DbBinary) : psys unit :=
  match binaries with
  | [] => sret tt
  | b :: binaries => merge_binary source b ;;! merge_binaries source binaries
  end.

Definition open_source (path : string) : psys publisher_tables :=
  content ←! of_io (io_map (map_err (fun _ => PDb DbSqlx)) (read path));
  of_result (map_err PDb (db_of_bytes content)).

Definition merge_databases (source_path : string) : psys unit :=
  source ←! open_source source_path;
  open_db ;;!
  source_binaries ←! on_source source p_list_binaries;
  merge_binaries source source_binaries.

(** The tables of the project are those its file holds; without a database there
    are none. *)
Definition tables_at (f : fs) : publisher_tables :=
  match fs_read f (resolve DB_FILE) with
  | Ok c => match db_of_bytes c with Ok t => t | Err _ => empty_publisher end
  | Err _ => empty_publisher
  end.

(** A call that replaces or removes the file. *)
Definition reload {A} (m : psys A) : psys A := fun s =>
  let '(r, s') := m s in
  (r, with_db (Conn (tables_at (files (sy_fs s'))) None (sched (sy_db s'))) s').

Definition import_database (export_dir : string) (merge : bool) : psys unit :=
  let source_db := join export_dir "publisher.db" in
  present ←! look (exists_ source_db);
  if negb present then sfail (PMsg "Archive is missing publisher.db")
  else
    merging ←! (if merge then look (exists_ DB_FILE) else sret false);
    if (merging : bool) then merge_databases source_db
    else
      reload (pio (copy source_db DB_FILE)).

(** ** Files *)

Definition set_owner_only_permissions (path : string) : psys unit := pio (set_permissions path).

Definition import_key (source target : string) (merge restrict : bool) : psys unit :=
  present ←! look (exists_ source);
  if negb present then sret tt
  else
    keep ←! (if merge then look (exists_ target) else sret false);
    if (keep : bool) then sret tt
    else
      pio (copy source target) ;;!
      if restrict then set_owner_only_permissions target else sret tt.

Definition import_keys (export_dir : string) (metadata : ArchiveMetadata) (merge : bool) : psys unit :=
  let keys_dir := join export_dir "keys" in
  import_key (join keys_dir "public.key") PUBLIC_KEY_FILE merge false ;;!
  if am_includes_keys metadata then import_key (join keys_dir "signing.key") SIGNING_KEY_FILE merge true else sret tt.

Definition validate_safe_path (path base_dir : string) : psys unit :=
  if bool_decide (ParentDir ∈ path_components path) then
    sfail (PMsg ("Security error: path traversal detected in archive: " +:+ path))
  else
    canonical_base ←! of_io (io_map (map_err (fun e => PMsg ("Failed to canonicalize base directory " +:+ base_dir +:+ ": " +:+ io_text e)))
                               (canonicalize base_dir));
    canonical_path ←! of_io (io_map (map_err (fun e => PMsg ("Failed to canonicalize path " +:+ path +:+ ": " +:+ io_text e)))
                               (canonicalize path));
    if negb (starts_with_path canonical_path canonical_base) then
      sfail (PMsg ("Security error: path escapes target directory: " +:+ canonical_path +:+ " is not within " +:+
                   canonical_base))
    else sret tt.

(** The second loop only builds a path that is dropped. *)
Definition validate_target_path (rel_path : string) : result publisher_error unit :=
  if bool_decide (ParentDir ∈ path_components rel_path) then
    Err (PMsg ("Security error: path traversal detected: " +:+ rel_path))
  else if bool_decide (RootDir ∈ path_components rel_path) then
    Err (PMsg ("Security error: absolute path in archive: " +:+ rel_path))
  else Ok tt.

(** The file at [rel] below the source. *)
Definition import_file (source target : string) (merge : bool) (rel : list string) : psys unit :=
  let rel_path := path_of rel in
  let path := entry_path source rel in
  file ←! look (is_file path);
  if negb file then sret tt
  else
    validate_safe_path path source ;;!
    of_result (validate_target_path rel_path) ;;!
    let target_path := join target rel_path in
    keep ←! (if merge then look (exists_ target_path) else sret false);
    if (keep : bool) then sret tt
    else
      match parent_path target_path with Some parent => pio (create_dir_all parent) | None => sret tt end ;;!
      pio (copy path target_path).

Fixpoint import_each (source target : string) (merge : bool) (rels : list (list string)) : psys unit :=
  match rels with
  | [] => sret tt
  | rel :: rels => import_file source target merge rel ;;! import_each source target merge rels
  end.

(** The bodies of [import_binaries] and [import_diffs]. *)
Definition import_tree (kind export_dir : string) (merge : bool) : psys unit :=
  let source := join export_dir kind in
  present ←! look (exists_ source);
  if negb present then sret tt
  else
    let target := join DELTASHIP_DIR kind in
    there ←! look (exists_ target);
    (if negb there then pio (create_dir_all target) else sret tt) ;;!
    rels ←! look (walk_dir source);
    import_each source target merge rels.

Definition import_binaries : string -> bool -> psys unit := import_tree "binaries".
Definition import_diffs : string -> bool -> psys unit := import_tree "diffs".

(** ** The command *)

Fixpoint query_versions (binaries : list DbBinary) : psys unit :=
  match binaries with
  | [] => sret tt
  | b :: binaries => pdb (list_versions (b_binary_id b)) ;;! query_versions binaries
  end.

Definition verify_import : psys unit :=
  present ←! look (exists_ DB_FILE);
  if negb present then sfail (PMsg "Database not found after import")
  else
    open_db ;;!
    binaries ←! pdb p_list_binaries;
    query_versions binaries ;;!
    look (exists_ PUBLIC_KEY_FILE) ;;!
    look (exists_ SIGNING_KEY_FILE) ;;!
    sret tt.

(** After the archive was accepted. *)
Definition import_project (export_dir : string) (metadata : ArchiveMetadata) (merge overwrite project_exists : bool)
    : psys unit :=
  (if overwrite && project_exists then reload (pio (remove_dir_all DELTASHIP_DIR)) else sret tt) ;;!
  there ←! look (exists_ DELTASHIP_DIR);
  (if negb there then pio (create_dir_all DELTASHIP_DIR) else sret tt) ;;!
  keys_there ←! look (exists_ KEYS_DIR);
  (if negb keys_there then pio (create_dir_all KEYS_DIR) else sret tt) ;;!
  (if am_includes_binaries metadata then import_binaries export_dir merge ;;! import_diffs export_dir merge else sret tt) ;;!
  import_database export_dir merge ;;!
  import_keys export_dir metadata merge ;;!
  verify_import.

(** The temporary directory is removed when the command returns. *)
Definition with_temp_dir {A} (dir : string) (body : psys A) : psys A := fun s =>
  let '(r, s') := body s in (r, with_fs (remove_dir_all dir (sy_fs s')).2 s').

(** [temp_dir] is the directory the extraction creates. *)
Definition import_run (temp_dir input : string) (merge overwrite : bool) : psys unit :=
  present ←! look (exists_ input);
  if negb present then sfail (PMsg ("Archive not found: " +:+ input))
  else if merge && overwrite then sfail (PMsg "Cannot use both --merge and --overwrite. Choose one.")
  else
    project_exists ←! look (exists_ DELTASHIP_DIR);
    if project_exists && negb merge && negb overwrite then
      sfail (PMsg "Deltaship project already exists. Use --merge to add new entries or --overwrite to replace.")
    else
      dir ←! archive_call (extract_archive entries_of input temp_dir);
      with_temp_dir dir
        (export_dir ←! archive_call (find_export_dir dir);
         metadata ←! archive_call (read_extracted_metadata metadata_of_json export_dir);
         import_project export_dir metadata merge overwrite project_exists).
End ImportCommand.
