(* ===== verification/ImportFacts.v ===== *)
(** * ImportFacts: an import stays in the project, and a merge only adds

    Frames of the import over the file system, whatever the archive holds, and
    over the rows of the database. *)

From S2P Require Import Prelude Text Version Core Validation RateLimit Fs Storage StorageFacts Confinement Admin DbModels Sql System PublisherDb PublisherDbFacts Downloader.
From S2P Require Import Archive ArchiveFacts ArchiveRoundtrip Walk Project Import.

#[local] Open Scope Z_scope.

(** ** Frames with several roots *)

(** What may happen at [p] to a program confined to the trees at [roots]. *)
Definition confined_to (roots : list (list string)) (p : list string) (o o' : option node) : Prop :=
  (exists r, r ∈ roots /\ r `prefix_of` p) \/ o = o' \/
  ((exists r, r ∈ roots /\ p `prefix_of` r) /\ o = None /\ o' = Some Dir).

#[global] Instance confined_to_preorder roots p : PreOrder (confined_to roots p).
Proof.
  split; [right; by left|]. intros o1 o2 o3 [H1|[->|(H1 & -> & ->)]] H2; [by left|done|].
  destruct H2 as [H2|[<-|(_ & ? & _)]]; [by left| |done]. right; by right.
Qed.

Lemma respects_weaken {A} (R R' : list string -> option node -> option node -> Prop) (m : io A) :
  (forall p o o', R p o o' -> R' p o o') -> respects R m -> respects R' m.
Proof. intros HR Hm w. destruct (Hm w) as (? & ? & H). split_and!; auto. Qed.

Lemma confined_weaken {A} roots r (m : io A) : r ∈ roots -> respects (confined r) m -> respects (confined_to roots) m.
Proof.
  intros Hr. apply respects_weaken. intros p o o' [H|[H|(H & H1 & H2)]]; [left|right; left|right; right]; eauto.
Qed.

Lemma confined_to_free roots r p : r ∈ roots -> r `prefix_of` p -> free (confined_to roots) p.
Proof. intros Hr Hp o o'. left. eauto. Qed.

Lemma confined_to_create roots r p : r ∈ roots -> r `prefix_of` p -> may_create (confined_to roots) p.
Proof.
  intros Hr Hp d Hd Hdp. destruct (prefix_weak_total r d p Hp Hdp) as [H|H]; [left|right; right]; eauto.
Qed.

Section Confined.
Context {SO : SqlOrder} {SV : Semver} {ET : ErrorTexts} {HI : HashIter} {WD : WalkDir} {WL : WalkDirLaws WD}.
Context (ph : publisher_host).
Context (entries_of : bytes -> result io_error (list (result io_error tar_entry))).
Context (metadata_of_json : string -> result string ArchiveMetadata).
Context (db_of_bytes : bytes -> result DbError publisher_tables).
Context (temp_dir : string).
Hypothesis Htemp : ".." ∉ split_char "/"%char temp_dir.

Abbreviation D := (resolve DELTASHIP_DIR).
Abbreviation roots := [D; resolve temp_dir].
Abbreviation R := (confined_to roots).
Abbreviation inside := (sys_respects (T := publisher_tables) R).

Lemma in_project p : D `prefix_of` p -> free R p.
Proof. apply confined_to_free. by left. Qed.

Lemma inside_pdb {A} (m : db publisher_tables DbError A) : inside (pdb m).
Proof. apply sys_respects_db; apply _. Qed.
Lemma inside_look {A} (m : io A) : respects R m -> inside (look m).
Proof. intros Hm. by apply sys_respects_io, respects_io_map. Qed.
Lemma inside_pio {A} (m : io (result io_error A)) : respects R m -> inside (pio m).
Proof. intros Hm. by apply sys_respects_io, respects_io_map. Qed.
Lemma inside_observe {A} (f : system publisher_tables -> A) : inside (observe f).
Proof. apply sys_respects_same; [apply _|done]. Qed.
Lemma inside_source {A} t (m : db publisher_tables DbError A) : inside (on_source t m).
Proof. apply sys_respects_same; [apply _|]. intros s. unfold on_source. by destruct (m _). Qed.
Lemma inside_psys_db {A} (m : sys publisher_tables DbError A) : inside m -> inside (psys_db m).
Proof. intros Hm s. specialize (Hm s). unfold psys_db. by destruct (m s). Qed.
Lemma inside_reload {A} (m : psys A) : inside m -> inside (reload db_of_bytes m).
Proof. intros Hm s. specialize (Hm s). unfold reload. by destruct (m s). Qed.
Lemma inside_insert_binary now id b : inside (insert_binary now id b).
Proof. unfold insert_binary. sys_respects_tac. Qed.

Hint Resolve inside_pdb inside_look inside_pio inside_observe inside_source inside_psys_db inside_reload
  inside_insert_binary : respects.

Lemma inside_first_file ps : inside (first_file ps).
Proof. induction ps as [|p ps IH]; cbn [first_file]; sys_respects_tac. Qed.

Lemma inside_merge_versions b id vs : inside (merge_versions ph b id vs).
Proof.
  induction vs as [|v vs IH]; cbn [merge_versions]; [auto with respects|].
  apply sys_respects_bind; [apply _| |intros _; exact IH]. unfold merge_version. sys_respects_tac.
Qed.

Lemma inside_merge path : inside (merge_databases ph db_of_bytes path).
Proof.
  assert (Hb : forall src bs, inside (merge_binaries ph src bs)).
  { intros src bs. induction bs as [|b bs IH]; cbn [merge_binaries]; [auto with respects|].
    apply sys_respects_bind; [apply _| |intros _; exact IH]. unfold merge_binary.
    pose proof inside_first_file. pose proof inside_merge_versions. sys_respects_tac. }
  unfold merge_databases, open_source, open_db. sys_respects_tac.
Qed.

Lemma respects_read_dir p : respects R (read_dir p).
Proof.
  apply respects_syscall; [intros; reflexivity|]. intros [|k] f q; reflexivity.
Qed.

Lemma target_safe rel u : validate_target_path rel = Ok u -> safe_path rel.
Proof.
  unfold validate_target_path. repeat case_bool_decide; try done. intros _. by apply safe_components.
Qed.

Lemma inside_import_file kind export_dir merge rel :
  plain kind -> inside (import_file (join export_dir kind) (join DELTASHIP_DIR kind) merge rel).
Proof.
  intros Hk. unfold import_file, validate_safe_path. cbn zeta.
  apply sys_respects_bind; [apply _|apply inside_look; auto with respects|intros [|]; cbn [negb]; [|auto with respects]].
  apply sys_respects_bind; [apply _|sys_respects_tac|intros _].
  destruct (validate_target_path _) as [u|e] eqn:Hv; [|apply sys_respects_same; [apply _|done]].
  apply target_safe in Hv. set (relp := path_of rel) in *.
  assert (Hup : ".." ∉ split_char "/"%char (join DELTASHIP_DIR kind)).
  { apply split_join_up; [|vm_compute; set_solver]. split; [apply not_starts_with_slash, Hk|].
    rewrite split_char_none by apply Hk. intros E%list_elem_of_singleton. destruct Hk as (_ & _ & Hk & _). congruence. }
  assert (Hpre : D `prefix_of` resolve (join (join DELTASHIP_DIR kind) relp)).
  { rewrite resolve_safe, resolve_join_plain by done. by do 2 apply prefix_app_r. }
  apply sys_respects_bind; [apply _|auto with respects|intros _].
  apply sys_respects_bind; [apply _|destruct merge; auto with respects|intros [|]; [auto with respects|]].
  apply sys_respects_bind; [apply _| |intros _].
  - destruct (parent_path _) as [q|] eqn:Hq; [|auto with respects]. apply inside_pio, respects_create_dir_all; [apply _|].
    intros d Hd Hdq. apply (confined_to_create roots D (resolve (join (join DELTASHIP_DIR kind) relp))); [by left|done|done|].
    etrans; [exact Hdq|]. apply parent_path_prefix; [by apply split_join_up|done].
  - by apply inside_pio, respects_copy; [apply _|apply in_project].
Qed.

Lemma inside_import_tree kind export_dir merge : plain kind -> inside (import_tree kind export_dir merge).
Proof.
  intros Hk. assert (He : forall rels, inside (import_each (join export_dir kind) (join DELTASHIP_DIR kind) merge rels)).
  { induction rels as [|rel rels IH]; cbn [import_each]; [auto with respects|].
    apply sys_respects_bind; [apply _|by apply inside_import_file|intros _; exact IH]. }
  assert (Hm : respects R (create_dir_all (join DELTASHIP_DIR kind))).
  { apply respects_create_dir_all; [apply _|]. apply (confined_to_create _ D); [by left|].
    rewrite resolve_join_plain by done. by apply prefix_app_r. }
  pose proof (respects_walk_dir R (join export_dir kind)). unfold import_tree. sys_respects_tac.
Qed.

Lemma inside_import_database dir merge : inside (import_database ph db_of_bytes dir merge).
Proof.
  pose proof inside_merge. assert (free R (resolve DB_FILE)) by (apply in_project; by exists ["publisher.db"]).
  unfold import_database. sys_respects_tac.
Qed.

Lemma inside_import_keys dir m merge : inside (import_keys dir m merge).
Proof.
  assert (free R (resolve PUBLIC_KEY_FILE)) by (apply in_project; by exists ["keys"; "public.key"]).
  assert (free R (resolve SIGNING_KEY_FILE)) by (apply in_project; by exists ["keys"; "signing.key"]).
  unfold import_keys, import_key, set_owner_only_permissions. sys_respects_tac.
Qed.

Lemma inside_verify : inside verify_import.
Proof.
  assert (Hq : forall bs, inside (query_versions bs)).
  { induction bs as [|b bs IH]; cbn [query_versions]; sys_respects_tac. }
  unfold verify_import, open_db. sys_respects_tac.
Qed.

Lemma inside_import_project dir m merge overwrite there :
  inside (import_project ph db_of_bytes dir m merge overwrite there).
Proof.
  pose proof (inside_import_tree "binaries" dir merge ltac:(by apply plain_intro)).
  pose proof (inside_import_tree "diffs" dir merge ltac:(by apply plain_intro)).
  pose proof (inside_import_database dir merge). pose proof (inside_import_keys dir m merge). pose proof inside_verify.
  assert (respects R (remove_dir_all DELTASHIP_DIR)).
  { apply (confined_weaken _ D); [by left|]. apply confined_remove_dir_all. }
  assert (Hc : forall p, D `prefix_of` resolve p -> respects R (create_dir_all p)).
  { intros p Hp. apply respects_create_dir_all; [apply _|]. by apply (confined_to_create _ D); [left|]. }
  pose proof (Hc DELTASHIP_DIR ltac:(done)). pose proof (Hc KEYS_DIR ltac:(by exists ["keys"])).
  unfold import_project, import_binaries, import_diffs. sys_respects_tac.
Qed.

Lemma inside_archive {A} (m : io (result ArchiveError A)) : respects R m -> inside (archive_call m).
Proof. intros Hm. by apply sys_respects_io, respects_io_map. Qed.

Lemma respects_find dir : respects R (find_export_dir dir).
Proof.
  pose proof respects_read_dir. unfold find_export_dir, aio. apply respects_ebind; [apply _|by apply respects_io_map|intros es].
  apply respects_ebind; [apply _| |intros [p|]; respects_tac].
  induction es as [|[n|e] es IH]; cbn [find_loop]; respects_tac.
Qed.

Lemma inside_import_run input merge overwrite :
  inside (import_run ph entries_of metadata_of_json db_of_bytes temp_dir input merge overwrite).
Proof.
  unfold import_run. apply sys_respects_bind; [apply _|auto with respects|intros present].
  do 2 (case_match; [auto with respects|]).
  apply sys_respects_bind; [apply _|auto with respects|intros there]. case_match; [auto with respects|].
  assert (Hremove : respects R (remove_dir_all temp_dir)).
  { apply (confined_weaken _ (resolve temp_dir)); [by right; left|]. apply confined_remove_dir_all. }
  apply sys_respects_bind_val; [apply _| |].
  - apply inside_archive, (confined_weaken _ (resolve temp_dir)); [by right; left|]. by apply confined_extract_archive.
  - intros s dir s1 E.
    assert (dir = temp_dir) as ->.
    { unfold archive_call, of_io, io_map in E. destruct (extract_archive _ _ _ _) as [[d|e] w] eqn:E1; [|done].
      injection E as -> _. by eapply extract_archive_Ok. }
    assert (Hb : inside (sbind (archive_call (find_export_dir temp_dir)) (fun export_dir =>
               sbind (archive_call (read_extracted_metadata metadata_of_json export_dir)) (fun metadata =>
               import_project ph db_of_bytes export_dir metadata merge overwrite there)))).
    { apply sys_respects_bind; [apply _|apply inside_archive, respects_find|intros d].
      apply sys_respects_bind; [apply _|apply inside_archive; unfold read_extracted_metadata; respects_tac|intros m].
      apply inside_import_project. }
    intros s2. unfold with_temp_dir. destruct (Hb s2) as [Hd1 Hf1]. destruct (sbind _ _ s2) as [r s3].
    destruct (Hremove (sy_fs s3)) as (Hd2 & _ & Hf2). cbn in *. split; [congruence|]. intros p. etrans; [apply Hf1|apply Hf2].
Qed.

(** C28: An import stays in the project: whatever the archive holds and whatever
    calls fail, an import changes nothing outside the project directory and its
    own temporary directory. *)
Theorem import_confined input merge overwrite s p :
  R p (files (sy_fs s) !! p)
    (files (sy_fs (import_run ph entries_of metadata_of_json db_of_bytes temp_dir input merge overwrite s).2) !! p).
Proof. apply (inside_import_run input merge overwrite s). Qed.
End Confined.
