(* ===== verification/ApiClient.v ===== *)
(** * ApiClient: uploads to the server ([deltaship-publisher/src/api_client.rs])

    The HTTP client of the publisher with its retries.  What the network answers
    to a request is a parameter; errors are their texts. *)

From S2P Require Import Prelude Text Version Validation RateLimit Fs Crypto DbModels Sql System PublisherDb ClientConfig Downloader Archive Project.

#[local] Open Scope Z_scope.
#[local] Open Scope sys_scope.

Record PublishRequest := {
  pq_app_name : string;
  pq_version : string;
  pq_platform : string;
  pq_binary_data : bytes;
  pq_signature : bytes;
  pq_checksum : bytes;
}.

Record PublishResponse := {
  ps_success : bool;
  ps_version_id : option string;
  ps_message : string;
}.

Record PublishDiffRequest := {
  dq_app_name : string;
  dq_from_version : string;
  dq_to_version : string;
  dq_platform : string;
  dq_diff_data : bytes;
  dq_checksum : bytes;
}.

Record PublishDiffResponse := {
  ds_success : bool;
  ds_diff_id : option string;
  ds_message : string;
}.

(** The client and the setting of the connection it was built with. *)
Record ApiClient := {
  ac_base_url : string;
  ac_api_key : option string;
  ac_https_only : bool;
  ac_max_retries : nat;
  ac_initial_backoff_ms : Z;
}.

Definition api_client_new (base_url : string) (api_key : option string) : ApiClient :=
  {| ac_base_url := base_url; ac_api_key := api_key; ac_https_only := negb (starts_with "http://" base_url);
     ac_max_retries := 3; ac_initial_backoff_ms := 1000 |}.

(** [reqwest::StatusCode::is_server_error]. *)
Definition is_server_error (status : Z) : bool := (500 <=? status) && (status <? 600).

Definition is_retryable_error (status : Z) : bool :=
  is_server_error status || (status =? 429) || (status =? 408).

(** A multipart form, field by field; a file part has a file name. *)
Record form_field := { ff_name : string; ff_file_name : option string; ff_data : bytes }.
Definition text_field (name value : string) : form_field :=
  {| ff_name := name; ff_file_name := None; ff_data := as_bytes value |}.
Definition file_field (name file_name : string) (data : bytes) : form_field :=
  {| ff_name := name; ff_file_name := Some file_name; ff_data := data |}.

(** A [POST] with a form and the [X-API-Key] header. *)
Record upload := {
  up_url : string;
  up_https_only : bool;
  up_api_key : option string;
  up_form : list form_field;
}.

Record answer := { an_status : Z; an_body : result string bytes }.

(** [hex_encode]: two digits per byte. *)
Definition hex_encode : bytes -> string := hash_to_hex.

Definition version_upload (c : ApiClient) (request : PublishRequest) : upload := {|
  up_url := trim_end_matches "/"%char (ac_base_url c) +:+ "/api/v1/apps/" +:+ pq_app_name request +:+
            "/versions/" +:+ pq_version request;
  up_https_only := ac_https_only c;
  up_api_key := ac_api_key c;
  up_form := [ text_field "platform" (pq_platform request);
               text_field "signature" (hex_encode (pq_signature request));
               text_field "checksum" (hex_encode (pq_checksum request));
               file_field "binary" (pq_app_name request +:+ "-" +:+ pq_version request) (pq_binary_data request) ];
|}.

Definition diff_upload (c : ApiClient) (request : PublishDiffRequest) : upload := {|
  up_url := trim_end_matches "/"%char (ac_base_url c) +:+ "/api/v1/apps/" +:+ dq_app_name request +:+
            "/diffs/" +:+ dq_from_version request +:+ "/to/" +:+ dq_to_version request;
  up_https_only := ac_https_only c;
  up_api_key := ac_api_key c;
  up_form := [ text_field "platform" (dq_platform request);
               text_field "checksum" (hex_encode (dq_checksum request));
               file_field "diff" (dq_app_name request +:+ "-" +:+ dq_from_version request +:+ "-to-" +:+
                                  dq_to_version request +:+ ".patch") (dq_diff_data request) ];
|}.

Abbreviation api := (sys publisher_tables string).

Section Client.
Context (net : nat -> upload -> result string answer).
Context (status_text : Z -> string) (decode_text : bytes -> string).
Context (publish_response_of : bytes -> result string PublishResponse).
Context (diff_response_of : bytes -> result string PublishDiffResponse).

Definition post (u : upload) : api (result string answer) := fun s =>
  (Ok (net (sy_requests s) u), Sys (sy_fs s) (sy_db s) (up_url u :: sy_sent s) (sy_slept s) (sy_audit s)).

(** The loop: [remaining] attempts remain and [attempt] were made. *)
Fixpoint retry_loop (c : ApiClient) (u : upload) (remaining : nat) (attempt : Z) (last_error : option string) : api answer :=
  match remaining with
  | O => sfail (default "Max retries exceeded" last_error)
  | S remaining =>
      r ←! post u;
      match r with
      | Ok response =>
          if is_success (an_status response) || negb (is_retryable_error (an_status response)) then sret response
          else match remaining with
               | O => sret response
               | S _ =>
                   sleep (ac_initial_backoff_ms c * 2 ^ attempt) ;;!
                   retry_loop c u remaining (attempt + 1) last_error
               end
      | Err e =>
          match remaining with
          | O => sfail e
          | S _ =>
              sleep (ac_initial_backoff_ms c * 2 ^ attempt) ;;!
              retry_loop c u remaining (attempt + 1) (Some e)
          end
      end
  end.

Definition execute_with_retry (c : ApiClient) (u : upload) : api answer := retry_loop c u (ac_max_retries c) 0 None.

(** The status and the body of the answer. *)
Definition read_answer {A} (decode : bytes -> result string A) (response : answer) : api A :=
  if negb (is_success (an_status response)) then
    let body := match an_body response with Ok b => decode_text b | Err _ => "" end in
    sfail ("Server returned " +:+ status_text (an_status response) +:+ ": " +:+ body)
  else of_result (body ← an_body response; decode body).

Definition publish_version (c : ApiClient) (request : PublishRequest) : api PublishResponse :=
  response ←! execute_with_retry c (version_upload c request);
  read_answer publish_response_of response.

Definition publish_diff (c : ApiClient) (request : PublishDiffRequest) : api PublishDiffResponse :=
  response ←! execute_with_retry c (diff_upload c request);
  read_answer diff_response_of response.
End Client.
