(* ===== verification/Server.v ===== *)
(** * Server: the whole server ([deltaship-server/src/main.rs], [routes/health.rs] and the routers)

    Which requests reach which handler, and through which layers: public routes
    pass their rate limiter; protected routes are authenticated first and then pass
    theirs.  The route tables are those of the five routers.

    Axum is not part of the program: which route of a table a request gets to is a
    parameter, the class [Router], with the documented rule of its paths as the laws
    [RouterLaws]: a literal segment matches itself, a [{name}] captures one segment
    that is not empty.  What the extractors read from captures, query and body is an
    argument, and a rejection of theirs is an answer of its own.  Requests that match
    no route never get to a handler.  Cross-origin headers and tracing change neither
    state nor answer. *)

From S2P Require Import Prelude Text Version Core Validation RateLimit Fs Catalog Storage Auth Crypto Serving Admin Publish.

#[local] Open Scope Z_scope.
#[local] Open Scope io_scope.

(** ** Routes *)

Inductive verb := VGet | VPost | VPut | VDelete.
#[global] Instance verb_eq_dec : EqDecision verb.
Proof. solve_decision. Defined.

(** The groups of routes with a limiter of their own. *)
Inductive group := Health | Updates | Downloads | Publishing | Administration.
#[global] Instance group_eq_dec : EqDecision group.
Proof. solve_decision. Defined.

Inductive handler :=
| HealthCheck | CheckUpdate | DownloadBinary | DownloadDiff | DownloadSignature
| PublishVersion | ActivateVersion | UpdateRollout | GetRollout | UploadDiff
| ListApps | GetAppDetails | ListVersions | DeleteVersion | GetStats.
#[global] Instance handler_eq_dec : EqDecision handler.
Proof. solve_decision. Defined.

Record route := { ro_pattern : string; ro_verb : verb; ro_handler : handler }.

Definition health_router : list route :=
  [ {| ro_pattern := "/health"; ro_verb := VGet; ro_handler := HealthCheck |} ].

Definition update_router : list route :=
  [ {| ro_pattern := "/api/v1/apps/{app_name}/check-update"; ro_verb := VGet; ro_handler := CheckUpdate |} ].

Definition download_router : list route :=
  [ {| ro_pattern := "/api/v1/apps/{app_name}/versions/{version}/binary"; ro_verb := VGet; ro_handler := DownloadBinary |};
    {| ro_pattern := "/api/v1/apps/{app_name}/diffs/{diff_spec}"; ro_verb := VGet; ro_handler := DownloadDiff |};
    {| ro_pattern := "/api/v1/apps/{app_name}/versions/{version}/signature"; ro_verb := VGet;
       ro_handler := DownloadSignature |} ].

Definition publish_router : list route :=
  [ {| ro_pattern := "/api/v1/apps/{app_name}/versions/{version}"; ro_verb := VPost; ro_handler := PublishVersion |};
    {| ro_pattern := "/api/v1/apps/{app_name}/versions/{version}/activate"; ro_verb := VPut;
       ro_handler := ActivateVersion |};
    {| ro_pattern := "/api/v1/apps/{app_name}/versions/{version}/rollout"; ro_verb := VPut; ro_handler := UpdateRollout |};
    {| ro_pattern := "/api/v1/apps/{app_name}/versions/{version}/rollout"; ro_verb := VGet; ro_handler := GetRollout |};
    {| ro_pattern := "/api/v1/apps/{app_name}/diffs/{from_version}/to/{to_version}"; ro_verb := VPost;
       ro_handler := UploadDiff |} ].

Definition admin_router : list route :=
  [ {| ro_pattern := "/api/v1/admin/apps"; ro_verb := VGet; ro_handler := ListApps |};
    {| ro_pattern := "/api/v1/admin/apps/{app_name}"; ro_verb := VGet; ro_handler := GetAppDetails |};
    {| ro_pattern := "/api/v1/admin/apps/{app_name}/versions"; ro_verb := VGet; ro_handler := ListVersions |};
    {| ro_pattern := "/api/v1/admin/apps/{app_name}/versions/{version}"; ro_verb := VDelete; ro_handler := DeleteVersion |};
    {| ro_pattern := "/api/v1/admin/stats"; ro_verb := VGet; ro_handler := GetStats |} ].

(** [public_routes] and [protected_routes], merged. *)
Definition app_routes : list (group * route) :=
  (pair Health <$> health_router) ++ (pair Updates <$> update_router) ++ (pair Downloads <$> download_router) ++
  (pair Publishing <$> publish_router) ++ (pair Administration <$> admin_router).

Definition protected (g : group) : bool :=
  match g with Publishing | Administration => true | Health | Updates | Downloads => false end.

(** The limiter of a group. *)
Definition limiter (g : group) : RateConfig :=
  match g with
  | Updates => {| max_requests := 100; window_duration := from_secs 60 |}
  | Publishing => {| max_requests := 10; window_duration := from_secs 60 |}
  | Administration => {| max_requests := 30; window_duration := from_secs 60 |}
  | Health => {| max_requests := 60; window_duration := from_secs 60 |}
  | Downloads => {| max_requests := 200; window_duration := from_secs 60 |}
  end.

Definition segments (path : string) : list string := split_char "/"%char path.
Definition is_capture (segment : string) : bool := starts_with "{" segment && ends_with "}" segment.

(** The router of axum: the route of a table that a request gets to, with the
    segments it captured. *)
Class Router := route_to : list (group * route) -> verb -> string -> option (group * handler * list string).

(** A path, in segments, matches a pattern with these captures. *)
Inductive path_matches : list string -> list string -> list string -> Prop :=
| MatchesEnd : path_matches [] [] []
| MatchesLiteral p pattern path caps :
    is_capture p = false -> path_matches pattern path caps -> path_matches (p :: pattern) (p :: path) caps
| MatchesCapture p s pattern path caps :
    is_capture p = true -> s <> "" -> path_matches pattern path caps ->
    path_matches (p :: pattern) (s :: path) (s :: caps).

Definition route_matches (r : route) (path : string) (caps : list string) : Prop :=
  path_matches (segments (ro_pattern r)) (segments path) caps.

(** Patterns of this form only: every segment is a literal without the characters
    that mean something in a pattern, or a capture of one segment. *)
Definition simple_segment (p : string) : bool :=
  let text := if is_capture p then reverse (tail (reverse (tail (chars p)))) else chars p in
  forallb (fun c => negb (bool_decide (c ∈ chars "{}*:"))) text.
Definition simple_routes (table : list (group * route)) : bool :=
  forallb (fun gr => forallb simple_segment (segments (ro_pattern gr.2))) table.

(** What axum documents of such tables: a request gets to a route only with its
    method and a path that matches; and when no other pattern of the table matches
    the path, and no other route has this pattern and method, it does. *)
Class RouterLaws (RT : Router) := {
  router_sound table v path g h caps :
    simple_routes table = true -> route_to table v path = Some (g, h, caps) ->
    exists r, (g, r) ∈ table /\ ro_verb r = v /\ ro_handler r = h /\ route_matches r path caps;
  router_complete table g r path caps :
    simple_routes table = true -> (g, r) ∈ table -> route_matches r path caps ->
    (forall gr caps', gr ∈ table -> route_matches gr.2 path caps' -> ro_pattern gr.2 = ro_pattern r) ->
    (forall gr, gr ∈ table -> ro_pattern gr.2 = ro_pattern r -> ro_verb gr.2 = ro_verb r -> gr = (g, r)) ->
    route_to table (ro_verb r) path = Some (g, ro_handler r, caps);
}.

Definition dispatch {RT : Router} (v : verb) (path : string) : option (group * handler * list string) :=
  route_to app_routes v path.

(** ** Requests and answers *)

(** A request: what the layers read of it, what the extractors read of query and
    body ([None] when they reject it), and what the clocks and the generator of
    random numbers return meanwhile. *)
Record Request := {
  sr_addr : string;
  sr_headers : Headers;
  sr_verb : verb;
  sr_path : string;
  sr_update_query : option UpdateCheckQuery;
  sr_platform : option string;
  sr_percentage : option Z;
  sr_parts : option (list part);
  sr_auth_times : Z * Z;
  sr_limit_time : Z;
  sr_now : string;
  sr_uptime : Z;
  sr_entropy : Z -> bytes * N;
}.

Record HealthResponse := { hr_status : string; hr_version : string }.
Definition health_check : HealthResponse := {| hr_status := "ok"; hr_version := "0.2.0" |}.

Inductive handled {SV : Semver} :=
| Rejected                                   (** by an extractor *)
| HealthIs (r : HealthResponse)
| UpdateIs (r : result (StatusCode * string) UpdateCheckResponse)
| FileIs (r : result (StatusCode * string) FileResponse)
| PublishIs (r : result (StatusCode * PublishResponse) PublishResponse)
| RolloutIs (r : result (StatusCode * RolloutResponse) RolloutResponse)
| AppsAre (r : result (StatusCode * string) (list AppListItem))
| AppIs (r : result (StatusCode * string) AppDetails)
| VersionsAre (r : result (StatusCode * string) (list VersionListItem))
| DeletedIs (r : result (StatusCode * string) DeleteVersionResponse)
| StatsAre (r : ServerStats).

Inductive response {SV : Semver} :=
| Panicked                                   (** the mutex of the failures is poisoned *)
| Refused (s : StatusCode)                   (** by a layer *)
| Handled (r : handled).

(** The store, the failures of authentication, and the entries of the limiters. *)
Record server := { sv_world : world; sv_auth : AuthFailureLimiter; sv_limits : group -> rl_map }.

Definition set_world (w : world) (s : server) : server :=
  {| sv_world := w; sv_auth := sv_auth s; sv_limits := sv_limits s |}.
Definition set_auth (a : AuthFailureLimiter) (s : server) : server :=
  {| sv_world := sv_world s; sv_auth := a; sv_limits := sv_limits s |}.
Definition set_limit (g : group) (m : rl_map) (s : server) : server :=
  {| sv_world := sv_world s; sv_auth := sv_auth s;
     sv_limits := fun g' => if bool_decide (g' = g) then m else sv_limits s g' |}.

Section Server.
Context {RT : Router} {SV : Semver} {HI : HashIter}.
Context {SC : Serde AppCatalog} {SM : Serde VersionManifest} {SR : Serde RolloutConfig}.
Context (blake3 : bytes -> bytes) (verify_signature : bytes -> bytes -> bytes -> bool).
Context (hex_decode base64_decode : string -> option bytes).
Context (phc_valid : string -> bool) (verify_password : bytes -> string -> bool).
(** Percent-decoding of a segment, [None] when the result is not UTF-8. *)
Context (path_decode : string -> option string).
Context (pr : profile).

(** A handler on extracted arguments. *)
Definition with_args {A} (args : option A) (f : A -> io handled) : io handled :=
  match args with Some a => f a | None => mret Rejected end.

(** [Path], decoded. *)
Definition decoded (caps : list string) : option (list string) := mapM path_decode caps.

Definition handle (st : AppState) (h : handler) (caps : list string) (publisher : option Publisher) (rq : Request)
    : io handled :=
  let data_dir := st_data_dir st in
  with_args (decoded caps) (fun path =>
    match h, path with
    | HealthCheck, [] => mret (HealthIs health_check)
    | CheckUpdate, [app_name] =>
        with_args (sr_update_query rq) (fun q => io_map UpdateIs (check_update blake3 data_dir app_name q))
    | DownloadBinary, [app_name; version] =>
        with_args (sr_platform rq) (fun p => io_map FileIs (download_binary blake3 data_dir app_name version p))
    | DownloadDiff, [app_name; diff_spec] =>
        with_args (sr_platform rq) (fun p => io_map FileIs (download_diff blake3 data_dir app_name diff_spec p))
    | DownloadSignature, [app_name; version] => io_map FileIs (download_signature blake3 data_dir app_name version)
    | PublishVersion, [app_name; version] =>
        with_args publisher (fun p => with_args (sr_parts rq) (fun parts =>
          io_map PublishIs (publish_version blake3 verify_signature hex_decode base64_decode (sr_entropy rq)
                              data_dir app_name version p parts)))
    | ActivateVersion, [app_name; version] =>
        with_args publisher (fun p => io_map PublishIs (activate_version data_dir app_name version p))
    | UpdateRollout, [app_name; version] =>
        with_args publisher (fun p => with_args (sr_percentage rq) (fun percentage =>
          io_map RolloutIs (update_rollout data_dir app_name version p percentage (sr_now rq))))
    | GetRollout, [app_name; version] => io_map RolloutIs (get_rollout data_dir app_name version)
    | UploadDiff, [app_name; from_version; to_version] =>
        with_args publisher (fun p => with_args (sr_parts rq) (fun parts =>
          io_map PublishIs (upload_diff blake3 (sr_entropy rq) data_dir app_name from_version to_version p parts)))
    | ListApps, [] => io_map AppsAre (admin_list_apps data_dir)
    | GetAppDetails, [app_name] => io_map AppIs (admin_get_app_details data_dir app_name)
    | ListVersions, [app_name] => io_map VersionsAre (admin_list_versions data_dir app_name)
    | DeleteVersion, [app_name; version] =>
        with_args publisher (fun p => io_map DeletedIs (admin_delete_version data_dir app_name version p))
    | GetStats, [] => io_map StatsAre (get_stats data_dir (sr_uptime rq))
    | _, _ => mret Rejected
    end).

(** [rate_limit_middleware] around the handler. *)
Definition rate_limit_middleware (st : AppState) (g : group) (rq : Request) (next : io handled) (s : server)
    : response * server :=
  let ip := client_ip (sr_addr rq) (h_forwarded_for (sr_headers rq)) (trust_proxy st) in
  let '(allowed, m) := RateLimiter.check_rate_limit (limiter g) ip (sr_limit_time rq) (sv_limits s g) in
  let s := set_limit g m s in
  if allowed then let '(r, w) := next (sv_world s) in (Handled r, set_world w s)
  else (Refused TOO_MANY_REQUESTS, s).

(** A request that matches a route. *)
Definition serve_route (st : AppState) (g : group) (h : handler) (caps : list string) (rq : Request) (s : server)
    : response * server :=
  if protected g then
    let '(a, lim) := require_api_key phc_valid verify_password pr st (sr_addr rq) (sr_headers rq)
                       (sr_auth_times rq).1 (sr_auth_times rq).2 (sv_auth s) in
    let s := set_auth lim s in
    match a with
    | Panic => (Panicked, s)
    | Val (Err e) => (Refused e, s)
    | Val (Ok publisher) => rate_limit_middleware st g rq (handle st h caps (Some publisher) rq) s
    end
  else rate_limit_middleware st g rq (handle st h caps None rq) s.

(** [None] for a request of no route. *)
Definition serve (st : AppState) (rq : Request) (s : server) : option (response * server) :=
  match dispatch (sr_verb rq) (sr_path rq) with
  | Some (g, h, caps) => Some (serve_route st g h caps rq s)
  | None => None
  end.

(** ** Sessions *)

(** What happens to a running server: requests, and passes of the background
    tasks of [spawn_cleanup_task]. *)
Inductive event :=
| Arrives (rq : Request)
| Sweeps (g : group) (now : Z)
| SweepsFailures (now : Z).

Definition step (st : AppState) (e : event) (s : server) : list (Request * response) * server :=
  match e with
  | Arrives rq => match serve st rq s with Some (r, s') => ([(rq, r)], s') | None => ([], s) end
  | Sweeps g now => ([], set_limit g (RateLimiter.cleanup_task (limiter g) (sv_limits s g) now) s)
  | SweepsFailures now => ([], set_auth (AuthLimiter.cleanup_task now (sv_auth s)) s)
  end.

(** The requests of a session with their answers. *)
Fixpoint session (st : AppState) (es : list event) (s : server) : list (Request * response) * server :=
  match es with
  | [] => ([], s)
  | e :: es => let '(l, s1) := step st e s in let '(l', s2) := session st es s1 in (l ++ l', s2)
  end.
End Server.

(** ** Starting *)

Inductive Commands := CmdVersion | CmdCompletions | CmdHashKey (key : option string).

Record Cli := {
  cli_command : option Commands;
  cli_host : string;
  cli_port : N;
  cli_data_dir : string;
  cli_generate_api_key : bool;
  cli_trust_proxy : bool;
}.

Inductive main_error := MainIo (e : io_error) | MainText (s : string).

(** What the process does: a report, a line that is printed, or serving. *)
Inductive action :=
| Reports
| Prints (text : string)
| Listens (st : AppState) (origins : option (list string)) (addr : string).

(** [{:02x}] of every byte; [random] are the bytes of the generator. *)
Definition generate_api_key (random : bytes) : string := of_chars (hex_chars random).

Definition trusts_proxy (flag : bool) (var : option string) : bool :=
  flag || match var with Some v => bool_decide (v ∈ ["1"; "true"; "yes"]) | None => false end.

(** The limiters of a new server are empty. *)
Definition new_server (w : world) : server := {| sv_world := w; sv_auth := limiter_new; sv_limits := fun _ => ∅ |}.

Section Main.
Context (hex_decode : string -> option bytes) (phc_valid : string -> bool).
(** Argon2 with a new salt; the first line of the standard input; what parses as a
    header value and as a socket address; binding to an address. *)
Context (hash_api_key : string -> result string string) (stdin_line : option (result string string)).
Context (header_value : string -> bool) (parse_addr : string -> result string string) (bind : string -> result string unit).

Definition hash_key (key : option string) : result main_error string :=
  plaintext ← match key with
              | Some k => Ok k
              | None => line ← ok_or (MainText "No input provided") stdin_line;
                        trim <$> map_err MainText line
              end;
  map_err (fun e => MainText ("Hashing failed: " +:+ e)) (hash_api_key plaintext).

(** The allowed origins, [None] for all. *)
Definition cors_origins (var : option string) : option (list string) :=
  match var with
  | Some origins =>
      if str_is_empty origins then None
      else match List.filter header_value (trim <$> split_char ","%char origins) with
           | [] => None
           | allowed => Some allowed
           end
  | None => None
  end.

Definition ensure_dir (path : string) : io (result main_error unit) :=
  b ← exists_ path;
  if (b : bool) then eret tt else io_map (map_err MainIo) (create_dir_all path).

(** [proxy_var] and [cors_var] are the variables [DELTASHIP_TRUST_PROXY] and
    [DELTASHIP_CORS_ORIGINS]. *)
Definition start (cli : Cli) (proxy_var cors_var : option string) : io (result main_error action) :=
  ensure_dir (cli_data_dir cli) ;;?
  ensure_dir (join (cli_data_dir cli) "apps") ;;?
  st ←? io_map Ok (with_options hex_decode phc_valid (cli_data_dir cli) (trusts_proxy (cli_trust_proxy cli) proxy_var));
  addr ←? elift (map_err MainText (parse_addr (cli_host cli +:+ ":" +:+ pretty (cli_port cli))));
  elift (map_err MainText (bind addr)) ;;?
  eret (Listens st (cors_origins cors_var) addr).

Definition main (cli : Cli) (random : bytes) (proxy_var cors_var : option string) : io (result main_error action) :=
  match cli_command cli with
  | Some CmdVersion | Some CmdCompletions => eret Reports
  | Some (CmdHashKey key) => hash ←? elift (hash_key key); eret (Prints hash)
  | None =>
      if cli_generate_api_key cli then eret (Prints (generate_api_key random))
      else start cli proxy_var cors_var
  end.
End Main.
