(* ===== verification/ServerFacts.v ===== *)
(** * ServerFacts: what the whole server guarantees

    The store changes only for publishers, and only in the directory of an
    application their key is for; a session bounds what each address gets; the
    addresses that clients and publishers ask for are those of the intended routes. *)

From S2P Require Import Prelude Text DbModels System ClientConfig Downloader Checker KeyFiles KeyFacts ArchiveFacts ArchiveRoundtrip ApiClient.
From S2P Require Import Version Core Validation RateLimit Fs Catalog Storage StorageFacts Confinement.
From S2P Require Import Auth Crypto Serving Admin Publish PublishFacts Server.

#[local] Open Scope Z_scope.
#[local] Open Scope io_scope.

(** ** Handlers that only read *)

Section Reading.
Context {SV : Semver} {HI : HashIter}.
Context {SC : Serde AppCatalog} {SM : Serde VersionManifest} {SR : Serde RolloutConfig}.
Context (blake3 : bytes -> bytes).
Context (R : list string -> option node -> option node -> Prop) {HR : forall p, PreOrder (R p)}.

Lemma reads_json_opt {A} {SA : Serde A} p : respects R (read_json_opt (A := A) p).
Proof. unfold read_json_opt. respects_tac. Qed.

Lemma reads_read_dir p : respects R (read_dir p).
Proof. apply respects_syscall; [|intros [|k]]; intros f q; cbn; unfold with_entries; by repeat case_match. Qed.

Lemma reads_metadata p : respects R (symlink_metadata p).
Proof. by apply respects_syscall. Qed.
#[local] Hint Resolve reads_json_opt reads_read_dir reads_metadata : respects.

Lemma reads_json {A} {SA : Serde A} p : respects R (read_json (A := A) p).
Proof. unfold read_json. respects_tac. Qed.

Lemma reads_dirs path names : respects R (dirs_of path names).
Proof. induction names; cbn [dirs_of]; respects_tac. Qed.
#[local] Hint Resolve reads_json reads_dirs : respects.

Lemma reads_count path : respects R (count_dirs path).
Proof. unfold count_dirs. respects_tac. Qed.

Lemma reads_size_loop rec path names size :
  (forall p, respects R (rec p)) -> respects R (size_loop rec path names size).
Proof. intros Hrec. revert size; induction names; intros size; cbn [size_loop]; respects_tac. Qed.

Lemma reads_dir_size fuel path : respects R (dir_size fuel path).
Proof.
  revert path; induction fuel as [|fuel IH]; intros path; cbn [dir_size]; respects_tac. by apply reads_size_loop.
Qed.

(** The fuel is that of the tree at the start. *)
Lemma reads_calculate path : respects R (calculate_dir_size path).
Proof. intros w. apply reads_dir_size. Qed.
Lemma reads_app_size path : respects R (calculate_app_size path).
Proof. intros w. apply reads_dir_size. Qed.
#[local] Hint Resolve reads_count reads_calculate reads_app_size : respects.

Lemma reads_stats data_dir uptime : respects R (get_stats data_dir uptime).
Proof.
  assert (Hv : forall d names n, respects R (count_versions_loop d names n)).
  { intros d names. induction names; intros n; cbn [count_versions_loop]; respects_tac. }
  unfold get_stats, count_apps, count_versions, calculate_storage_usage. respects_tac.
Qed.

Lemma reads_list_apps data_dir : respects R (admin_list_apps data_dir).
Proof.
  assert (Hl : forall d entries, respects R (list_apps_loop d entries)).
  { intros d entries. induction entries as [|[] entries IH]; cbn [list_apps_loop]; unfold app_summary; respects_tac. }
  unfold admin_list_apps, list_apps. respects_tac.
Qed.

Lemma reads_app_details data_dir app : respects R (admin_get_app_details data_dir app).
Proof. unfold admin_get_app_details, get_app_info. respects_tac. Qed.

Lemma reads_list_versions data_dir app : respects R (admin_list_versions data_dir app).
Proof.
  assert (Hl : forall c d entries, respects R (list_versions_loop c d entries)).
  { intros c d entries. induction entries as [|[] entries IH]; cbn [list_versions_loop];
      unfold version_item, manifest_summary, shown_rollout; respects_tac. }
  unfold admin_list_versions, list_versions. respects_tac.
Qed.

Lemma reads_manifest data_dir app version : respects R (get_version_manifest data_dir app version).
Proof. unfold get_version_manifest. respects_tac. Qed.
Lemma reads_rollout_config data_dir app version : respects R (get_rollout_config data_dir app version).
Proof. unfold get_rollout_config. respects_tac. Qed.
Lemma reads_serve_file path expected : respects R (serve_file blake3 path expected).
Proof. unfold serve_file, stream_file. respects_tac. Qed.
#[local] Hint Resolve reads_manifest reads_rollout_config reads_serve_file : respects.

Lemma reads_check_update data_dir app q : respects R (check_update blake3 data_dir app q).
Proof. unfold check_update, get_app_catalog. respects_tac. Qed.
Lemma reads_download_binary data_dir app version p : respects R (download_binary blake3 data_dir app version p).
Proof. unfold download_binary. respects_tac. Qed.
Lemma reads_download_diff data_dir app spec p : respects R (download_diff blake3 data_dir app spec p).
Proof. unfold download_diff. respects_tac. Qed.
Lemma reads_download_signature data_dir app version : respects R (download_signature blake3 data_dir app version).
Proof. unfold download_signature. respects_tac. Qed.
Lemma reads_get_rollout data_dir app version : respects R (get_rollout data_dir app version).
Proof. unfold get_rollout. respects_tac. Qed.
End Reading.

(** ** Handlers that write *)

(** A frame with what is known of the value passed on. *)
Lemma respects_ebind_post R `{forall p, PreOrder (R p)} {E A B} (Q : A -> Prop) (m : io (result E A))
    (f : A -> io (result E B)) :
  respects R m -> (forall w a w', m w = (Ok a, w') -> Q a) -> (forall a, Q a -> respects R (f a)) ->
  respects R (ebind m f).
Proof.
  intros Hm HQ Hf w. specialize (Hm w). unfold ebind. destruct (m w) as [[a|e] w1] eqn:E1; [|done].
  apply (respects_trans R w w1); [done|]. apply Hf. by eapply HQ.
Qed.

Section Writing.
Context {SV : Semver} {HI : HashIter}.
Context {SC : Serde AppCatalog} {SM : Serde VersionManifest} {SR : Serde RolloutConfig}.
Context (blake3 : bytes -> bytes) (verify_signature : bytes -> bytes -> bytes -> bool).
Context (hex_decode base64_decode : string -> option bytes) (entropy : Z -> bytes * N).
Context (data_dir app : string).
Abbreviation root := (resolve (app_dir data_dir app)).

Ltac confined_tac :=
  repeat (cbn zeta;
    lazymatch goal with
    | |- respects _ (if ?b then _ else _) => destruct b
    | |- respects _ (match ?x with _ => _ end) => destruct x
    | |- respects _ (ebind _ _) => apply respects_ebind; [apply _| |intros ?]
    | |- respects _ (or_internal _) => apply respects_or_internal; [apply _|]
    | |- respects _ (io_map _ _) => apply respects_io_map
    | |- respects _ _ => solve [auto with confined respects]
    end).

Lemma staged_under dir path : root `prefix_of` resolve dir -> staged dir path -> root `prefix_of` resolve path.
Proof. intros Hd (n & _ & _ & ->)%staged_resolve. by apply prefix_app_r. Qed.

(** The staged file of a diff. *)
Lemma collect_diff_staged dir parts count f w f' w' d :
  (forall d, df_diff f = Some d -> staged dir (sf_temp_path d)) ->
  collect_diff_fields blake3 entropy dir parts count f w = (Ok f', w') ->
  df_diff f' = Some d -> staged dir (sf_temp_path d).
Proof.
  revert count f w; induction parts as [|[name chunks broken|] parts IH]; intros count f w Hf;
    cbn [collect_diff_fields]; [|cbv zeta; destruct (_ <? _); [done|]|done].
  { intros [= <- <-]. apply Hf. }
  intros H. peel H. refine (IH _ a _ _ H). clear H IH.
  repeat case_bool_decide; simplify_eq; repeat (peel E); try (case_bool_decide; [|done]); injection E as <- <-;
    cbn [df_diff]; try done.
  intros d' [= <-]. apply stream_field_Ok in E0 as (? & _); [done|set_solver|done].
Qed.

(** A validation that the rest of a handler relies on. *)
Lemma respects_checked R `{forall p, PreOrder (R p)} {E E' A B} (f : E -> E') (r : result E A) (k : A -> io (result E' B)) :
  (forall a, r = Ok a -> respects R (k a)) -> respects R (ebind (elift (map_err f r)) k).
Proof.
  intros Hk. apply respects_ebind_post with (Q := fun a => r = Ok a); [apply _|auto with respects|by intros ??? [? _]%map_err_inv|done].
Qed.

Lemma confined_publish version p parts :
  respects (confined root)
    (publish_version blake3 verify_signature hex_decode base64_decode entropy data_dir app version p parts).
Proof.
  unfold publish_version. apply respects_checked; [apply _|intros [] Hn].
  apply respects_checked; [apply _|intros [] Hv]. apply respects_checked; [apply _|intros v _].
  destruct (can_publish p app); cbn [negb]; [|auto with respects].
  pose proof (under_validated data_dir app version Hv) as Hu.
  apply respects_ebind_post with (Q := fun d => d = version_dir data_dir app version); [apply _| |by intros ??? ?%or_internal_inv%ensure_version_dir_inv|].
  { apply respects_or_internal; [apply _|auto with confined]. }
  intros ? ->. assert (Hst : forall path, staged (version_dir data_dir app version) path -> free (confined root) (resolve path)).
  { intros path Hp. by eapply confined_free, staged_under. }
  apply respects_ebind_post with (Q := fun f => forall b, f_binary f = Some b -> staged (version_dir data_dir app version) (sf_temp_path b)); [apply _| | |].
  { apply frame_collect; [apply _|by apply confined_may_create|done]. }
  { intros w f w' Hf b Hb. eapply (collect_fields_Ok _ _ _ _ _ _ []) in Hf as [Hf _ _ _]; [|by split].
    by destruct (Hf _ Hb) as (_ & _ & ? & _). }
  intros f Hf.
  apply respects_ebind_post with (Q := fun b => staged (version_dir data_dir app version) (sf_temp_path b)); [apply _|auto with respects| |].
  { intros w b w' [Hb%ok_or_Ok _]%elift_inv. by apply Hf. }
  intros b Hb. destruct (check_form _ _ _ _ _) as [[[platform sig] checksum]|e]; [|by apply (frame_cleanup _ _ Hst)].
  assert (Hp : root `prefix_of` resolve (sf_temp_path b)) by (by eapply staged_under).
  unfold store_publication. confined_tac. by apply (frame_cleanup _ _ Hst).
Qed.

Lemma confined_activate version p : respects (confined root) (activate_version data_dir app version p).
Proof.
  unfold activate_version. apply respects_checked; [apply _|intros [] Hn].
  destruct (can_publish p app); cbn [negb]; [|auto with respects].
  apply respects_checked; [apply _|intros [] Hv]. confined_tac.
Qed.

Lemma confined_rollout version p percentage now :
  respects (confined root) (update_rollout data_dir app version p percentage now).
Proof.
  unfold update_rollout. apply respects_checked; [apply _|intros [] Hn].
  destruct (can_publish p app); cbn [negb]; [|auto with respects].
  apply respects_checked; [apply _|intros [] Hv]. pose proof (reads_manifest (confined root)). confined_tac.
Qed.

Lemma confined_delete version p : respects (confined root) (admin_delete_version data_dir app version p).
Proof.
  unfold admin_delete_version. apply respects_checked; [apply _|intros [] Hn].
  destruct (can_publish p app); cbn [negb]; [|auto with respects].
  apply respects_checked; [apply _|intros [] Hv]. confined_tac.
Qed.

Lemma confined_upload_diff version' version p parts :
  respects (confined root) (upload_diff blake3 entropy data_dir app version' version p parts).
Proof.
  unfold upload_diff. apply respects_checked; [apply _|intros [] Hn].
  destruct (can_publish p app); cbn [negb]; [|auto with respects].
  apply respects_checked; [apply _|intros [] Hv']. apply respects_checked; [apply _|intros [] Hv].
  do 2 (apply respects_checked; [apply _|intros ? _]).
  apply respects_ebind; [apply _|apply respects_or_internal; [apply _|auto with confined]|intros _].
  assert (Hd : root `prefix_of` resolve (diffs_dir data_dir app)) by (by apply under_app, plain_intro).
  assert (Hst : forall path, staged (diffs_dir data_dir app) path -> free (confined root) (resolve path)).
  { intros path Hp. by eapply confined_free, staged_under. }
  apply respects_ebind_post with (Q := fun f => forall d, df_diff f = Some d -> staged (diffs_dir data_dir app) (sf_temp_path d)); [apply _| | |].
  { apply (frame_collect_diff blake3 hex_decode base64_decode entropy); [apply _|by apply confined_may_create|done]. }
  { intros w f w' Hf d Hfd. by eapply collect_diff_staged; [|exact Hf|]. }
  intros f Hf.
  apply respects_ebind_post with (Q := fun d => staged (diffs_dir data_dir app) (sf_temp_path d)); [apply _|auto with respects| |].
  { intros w d w' [Hfd%ok_or_Ok _]%elift_inv. by apply Hf. }
  intros d Hsd. destruct (check_diff_form d f) as [[platform checksum]|e]; [|by apply (frame_cleanup _ _ Hst)].
  assert (Hp : root `prefix_of` resolve (sf_temp_path d)) by (by eapply staged_under).
  unfold store_diff. confined_tac. by apply (frame_cleanup _ _ Hst).
Qed.
End Writing.

(** ** Who changes the store *)

(** From [f] to [f'] only the application changed, with a key that is for it. *)
Definition publishes (data_dir : string) (p : Publisher) (app : string) (f f' : fs) : Prop :=
  can_publish p app = true /\ validate_name app = Ok tt /\
  forall q, confined (resolve (app_dir data_dir app)) q (f !! q) (f' !! q).

Lemma unchanged {A} (m : io A) w : respects (fun _ => eq) m -> files (m w).2 = files w.
Proof. intros Hm. destruct (Hm w) as (_ & _ & HR). apply map_eq. intros q. symmetry. apply HR. Qed.

(** A handler that validates the name, then asks whether the key is for it. *)
Lemma publishes_or_not {E A} data_dir p app (m : io (result E A)) w :
  (forall e, validate_name app = Err e -> (m w).2 = w) -> (can_publish p app = false -> (m w).2 = w) ->
  respects (confined (resolve (app_dir data_dir app))) m ->
  files (m w).2 = files w \/ publishes data_dir p app (files w) (files (m w).2).
Proof.
  intros Hv Hp Hm. destruct (validate_name app) as [[]|e] eqn:En; [|left; by rewrite (Hv e eq_refl)].
  destruct (can_publish p app) eqn:Ep; [|left; by rewrite Hp]. right. split_and!; [done..|].
  destruct (Hm w) as (_ & _ & HR). apply HR.
Qed.

Lemma turned_down_same {A B} (r : result (StatusCode * B) A * world) w : turned_down r w -> r.2 = w.
Proof. by intros (s & m & -> & _). Qed.

Section Effect.
Context {RT : Router} {SV : Semver} {HI : HashIter}.
Context {SC : Serde AppCatalog} {SM : Serde VersionManifest} {SR : Serde RolloutConfig}.
Context (blake3 : bytes -> bytes) (verify_signature : bytes -> bytes -> bytes -> bool).
Context (hex_decode base64_decode : string -> option bytes) (path_decode : string -> option string).

Abbreviation handles := (handle blake3 verify_signature hex_decode base64_decode path_decode).

Lemma io_map_effect {A B} (f : A -> B) (m : io A) w : (io_map f m w).2 = (m w).2.
Proof. unfold io_map. by destruct (m w). Qed.

Lemma handle_effect st h caps po rq w :
  let w' := (handles st h caps po rq w).2 in
  files w' = files w \/
  exists p app rest, po = Some p /\ decoded path_decode caps = Some (app :: rest) /\
    publishes (st_data_dir st) p app (files w) (files w').
Proof.
  cbv zeta. unfold handle, with_args. set (path := decoded path_decode caps). clearbody path.
  assert (Hread : forall A (g : A -> handled) (m : io A), respects (fun _ => eq) m -> files (io_map g m w).2 = files w).
  { intros A g m Hm. rewrite io_map_effect. by apply unchanged. }
  assert (Hwrite : forall A (g : A -> handled) (m : io A) p app rest,
    po = Some p -> Some (app :: rest) = path -> files (m w).2 = files w \/ publishes (st_data_dir st) p app (files w) (files (m w).2) ->
    files (io_map g m w).2 = files w \/ exists p app rest, po = Some p /\ path = Some (app :: rest) /\
      publishes (st_data_dir st) p app (files w) (files (io_map g m w).2)).
  { intros A g m p app rest Hp Hc. rewrite io_map_effect. naive_solver. }
  destruct h, path as [[|app [|x [|y [|? ?]]]]|]; try (by left); repeat (case_match; [|by left]);
    first [left; apply Hread; (apply reads_check_update || apply reads_download_binary || apply reads_download_diff ||
             apply reads_download_signature || apply reads_get_rollout || apply reads_list_apps ||
             apply reads_app_details || apply reads_list_versions || apply reads_stats); apply _
          |eapply Hwrite; [done|done|]; apply publishes_or_not].
  all: try (intros e He; unfold publish_version, activate_version, update_rollout, upload_diff, admin_delete_version; by rewrite He).
  all: try (intros Hp; apply turned_down_same;
    by apply (out_of_scope_turned_down blake3 verify_signature hex_decode base64_decode (sr_entropy rq) _ _
                ltac:(first [exact y|exact x]) x p ltac:(first [assumption|exact []]) ltac:(first [assumption|exact 0]) (sr_now rq))).
  - apply confined_publish.
  - apply confined_activate.
  - apply confined_rollout.
  - apply (confined_upload_diff blake3 hex_decode base64_decode).
  - apply confined_delete.
Qed.
Context (phc_valid : string -> bool) (verify_password : bytes -> string -> bool) {HIL : HashIterLaws HI} (pr : profile).

Abbreviation serves := (serve blake3 verify_signature hex_decode base64_decode phc_valid verify_password path_decode pr).

Lemma middleware_effect st g rq (next : io handled) s :
  let s' := (rate_limit_middleware st g rq next s).2 in
  sv_auth s' = sv_auth s /\
  (sv_world s' = sv_world s \/ sv_world s' = (next (sv_world s)).2).
Proof.
  unfold rate_limit_middleware. destruct (RateLimiter.check_rate_limit _ _ _ _) as [[] m]; cbn; [|auto].
  destruct (next (sv_world s)); cbn; auto.
Qed.

(** The key of a request grants an identity. *)
Definition grants (st : AppState) (rq : Request) (p : Publisher) : Prop :=
  exists k hash, h_api_key (sr_headers rq) = Some k /\ publishers st !! hash = Some p /\
    starts_with "$argon2id$" hash = true /\ phc_valid hash = true /\ verify_password (as_bytes k) hash = true.

Lemma serve_effect data_dir trust w0 rq s r s' :
  let st := (with_options hex_decode phc_valid data_dir trust w0).1 in
  serves st rq s = Some (r, s') ->
  files (sv_world s') = files (sv_world s) \/
  exists g h caps p app rest,
    dispatch (sr_verb rq) (sr_path rq) = Some (g, h, caps) /\ protected g = true /\
    decoded path_decode caps = Some (app :: rest) /\
    AuthLimiter.is_blocked (client_ip (sr_addr rq) (h_forwarded_for (sr_headers rq)) trust) (sr_auth_times rq).1 (sv_auth s) = Val false /\
    grants st rq p /\ publishes data_dir p app (files (sv_world s)) (files (sv_world s')).
Proof.
  intros st. assert (Hd : st_data_dir st = data_dir).
  { unfold st, with_options, mbind, io_bind. by destruct (load_api_keys _ _ _ w0). }
  unfold serve. destruct (dispatch _ _) as [[[g h] caps]|]; [|done]. intros [= Hs]. unfold serve_route in Hs.
  destruct (protected g) eqn:Hg.
  - destruct (require_api_key _ _ _ _ _ _ _ _ _) as [a lim] eqn:Ea. destruct a as [[p|e]|]; [|by left; injection Hs as _ <-..].
    destruct (middleware_effect st g rq (handles st h caps (Some p) rq) (set_auth lim s)) as [_ Hw]. rewrite Hs in Hw.
    cbn in Hw. destruct Hw as [-> | ->]; [by left|].
    destruct (handle_effect st h caps (Some p) rq (sv_world s)) as [?|(p' & app & rest & [= <-] & Hc & Hp)]; [by left|right].
    apply (require_api_key_Ok hex_decode phc_valid verify_password data_dir trust w0) in Ea as [Hb Hk].
    rewrite Hd in Hp. by exists g, h, caps, p, app, rest.
  - destruct (middleware_effect st g rq (handles st h caps None rq) s) as [_ Hw]. rewrite Hs in Hw.
    cbn in Hw. destruct Hw as [-> | ->]; [by left|].
    by destruct (handle_effect st h caps None rq (sv_world s)) as [?|(p & ? & ? & ? & _)]; [left|].
Qed.

(** C3: Who changes the store: whatever request the server serves, and whatever
    calls fail meanwhile, the files stay as they are, unless the request is for a
    protected route, its address is not locked out, its key verifies against a
    stored hash whose identity may publish the application named in the path; then
    only the directory of that application changes, missing ancestors apart. *)
Theorem only_publishers_change_store data_dir trust w0 rq s r s' :
  let st := (with_options hex_decode phc_valid data_dir trust w0).1 in
  serves st rq s = Some (r, s') ->
  files (sv_world s') = files (sv_world s) \/
  exists g h caps p app rest,
    dispatch (sr_verb rq) (sr_path rq) = Some (g, h, caps) /\ protected g = true /\
    decoded path_decode caps = Some (app :: rest) /\
    AuthLimiter.is_blocked (client_ip (sr_addr rq) (h_forwarded_for (sr_headers rq)) trust) (sr_auth_times rq).1 (sv_auth s) = Val false /\
    grants st rq p /\ publishes data_dir p app (files (sv_world s)) (files (sv_world s')).
Proof. apply serve_effect. Qed.

(** ** Applications do not touch each other *)

Lemma app_root data_dir app :
  validate_name app = Ok tt -> app <> "." -> resolve (app_dir data_dir app) = resolve data_dir ++ ["apps"; app].
Proof.
  intros [Hp| ->]%validated_name Hne; [|done]. unfold app_dir.
  rewrite resolve_join_plain by done. rewrite resolve_join_plain by (by apply plain_intro). by rewrite <- app_assoc.
Qed.

Lemma other_app data_dir app app' q o o' :
  validate_name app = Ok tt -> app <> "." -> validate_name app' = Ok tt -> app' <> "." -> app <> app' ->
  resolve (app_dir data_dir app) `prefix_of` q -> confined (resolve (app_dir data_dir app')) q o o' -> o = o'.
Proof.
  intros Hn Hd Hn' Hd' Hne. rewrite !app_root by done.
  intros [k ->] [[k' Hk]|[->|(Hk & _)]]; [exfalso|done|exfalso].
  - rewrite <- !app_assoc in Hk. apply app_inv_head in Hk. by injection Hk as ?.
  - destruct Hk as [k' Hk]. rewrite <- !app_assoc in Hk. apply app_inv_head in Hk. by injection Hk as ?.
Qed.

Abbreviation sessions := (session blake3 verify_signature hex_decode base64_decode phc_valid verify_password path_decode pr).

(** None of the requests carries a key that is for the application, nor one that is
    for ["."], a valid name whose directory is that of all applications. *)
Definition outsiders (st : AppState) (app : string) (es : list event) : Prop :=
  Forall (fun e => match e with
                   | Arrives rq => forall p, grants st rq p -> can_publish p app = false /\ can_publish p "." = false
                   | _ => True
                   end) es.

(** Outsiders leave an application alone. *)
Lemma session_isolated data_dir trust w0 app es s :
  let st := (with_options hex_decode phc_valid data_dir trust w0).1 in
  validate_name app = Ok tt -> app <> "." -> outsiders st app es ->
  forall q, resolve (app_dir data_dir app) `prefix_of` q ->
    files (sv_world (sessions st es s).2) !! q = files (sv_world s) !! q.
Proof.
  intros st Hn Hd Hout q Hq. revert s. induction Hout as [|e es He Hout IH]; intros s; cbn [session]; [done|].
  enough (Hstep : files (sv_world (step blake3 verify_signature hex_decode base64_decode phc_valid verify_password
                                     path_decode pr st e s).2) !! q = files (sv_world s) !! q).
  { destruct (step _ _ _ _ _ _ _ _ st e s) as [l s1]. specialize (IH s1). destruct (session _ _ _ _ _ _ _ _ st es s1) as [l' s2].
    cbn in *. congruence. }
  destruct e as [rq|g now|now]; cbn [step]; [|done..].
  destruct (serves st rq s) as [[r s']|] eqn:Es; [|done]. cbn [snd].
  apply serve_effect in Es as [->|(g & h & caps & p & app' & rest & _ & _ & _ & _ & Hg & Hc & Hn' & HR)]; [done|].
  destruct (He p Hg) as [H1 H2]. symmetry. eapply (other_app data_dir app app'); try done; congruence.
Qed.

(** C9: Applications are isolated: however long a session is, whatever its requests
    are and whatever calls fail, when no request carries a key for an application,
    nor one for ["."], everything in the directory of that application is as it was
    before.  The application is not ["."] itself, whose directory is that of all
    applications, see [dot_is_an_application]. *)
Theorem applications_isolated data_dir trust w0 app es s :
  let st := (with_options hex_decode phc_valid data_dir trust w0).1 in
  validate_name app = Ok tt -> app <> "." -> outsiders st app es ->
  forall q, resolve (app_dir data_dir app) `prefix_of` q ->
    files (sv_world (sessions st es s).2) !! q = files (sv_world s) !! q.
Proof. apply session_isolated. Qed.

(** ** Publishing and downloading over the wire *)

(** Outsiders do not get at what was stored. *)
Lemma session_keeps data_dir trust w0 app es s q n :
  let st := (with_options hex_decode phc_valid data_dir trust w0).1 in
  validate_name app = Ok tt -> app <> "." -> outsiders st app es ->
  resolve (app_dir data_dir app) `prefix_of` q -> files (sv_world s) !! q = Some n ->
  files (sv_world (sessions st es s).2) !! q = Some n.
Proof. intros st Hn Hd Ho Hq Hf. rewrite <- Hf. by apply session_isolated with app. Qed.

(** What the server answered came from the handler. *)
Lemma handled_by st rq s g h caps r s' :
  dispatch (sr_verb rq) (sr_path rq) = Some (g, h, caps) -> serves st rq s = Some (Handled r, s') ->
  exists po, (protected g = false -> po = None) /\ handles st h caps po rq (sv_world s) = (r, sv_world s').
Proof.
  intros Hd. unfold serve, serve_route, rate_limit_middleware. rewrite Hd. intros [= Hs]. destruct (protected g).
  - destruct (require_api_key _ _ _ _ _ _ _ _ _) as [[[p|e]|] lim]; [|done..]. exists (Some p). split; [done|].
    destruct (RateLimiter.check_rate_limit _ _ _ _) as [[] m]; [|done]. cbn in Hs.
    destruct (handle _ _ _ _ _ _ _ _ _ _ _) as [r' w]. by injection Hs as -> <-.
  - exists None. split; [done|].
    destruct (RateLimiter.check_rate_limit _ _ _ _) as [[] m]; [|done]. cbn in Hs.
    destruct (handle _ _ _ _ _ _ _ _ _ _ _) as [r' w]. by injection Hs as -> <-.
Qed.

Lemma publication_handled st caps po rq w r w' app version :
  decoded path_decode caps = Some [app; version] ->
  handles st PublishVersion caps po rq w = (PublishIs (Ok r), w') ->
  exists p parts, sr_parts rq = Some parts /\
    publish_version blake3 verify_signature hex_decode base64_decode (sr_entropy rq) (st_data_dir st) app version p parts w = (Ok r, w').
Proof.
  intros Hc. unfold handle, with_args. rewrite Hc. destruct po as [p|]; [|done]. destruct (sr_parts rq) as [parts|]; [|done].
  unfold io_map. destruct (publish_version _ _ _ _ _ _ _ _ _ _ w) as [r' w1] eqn:E. intros [= -> ->]. eauto.
Qed.

Lemma download_served st rq s caps app version platform :
  dispatch (sr_verb rq) (sr_path rq) = Some (Downloads, DownloadBinary, caps) ->
  decoded path_decode caps = Some [app; version] -> sr_platform rq = Some platform ->
  exists s', serves st rq s = Some (Refused TOO_MANY_REQUESTS, s') \/
    serves st rq s = Some (Handled (FileIs (download_binary blake3 (st_data_dir st) app version platform (sv_world s)).1), s').
Proof.
  intros Hd Hc Hp. unfold serve. rewrite Hd. unfold serve_route, rate_limit_middleware. cbn [protected].
  destruct (RateLimiter.check_rate_limit _ _ _ _) as [[] m]; [|by eexists; left]. cbn [set_limit sv_world].
  unfold handle, with_args. rewrite Hc, Hp. unfold io_map.
  destruct (download_binary _ _ _ _ _ _) as [x w1]. cbn. by eexists; right.
Qed.

End Effect.

(** ** What an address gets *)

Definition is_handled {SV : Semver} (r : response) : bool := match r with Handled _ => true | _ => false end.

(** The group of the route of a request. *)
Definition group_of {RT : Router} (rq : Request) : option group := (fun x => x.1.1) <$> dispatch (sr_verb rq) (sr_path rq).

(** When an event concerns the limiter of a group. *)
Definition limit_time {RT : Router} (g : group) (e : event) : option Z :=
  match e with
  | Arrives rq => if bool_decide (group_of rq = Some g) then Some (sr_limit_time rq) else None
  | Sweeps g' now => if bool_decide (g' = g) then Some now else None
  | SweepsFailures _ => None
  end.

Section Rates.
Context {RT : Router} {SV : Semver} {HI : HashIter}.
Context {SC : Serde AppCatalog} {SM : Serde VersionManifest} {SR : Serde RolloutConfig}.
Context (blake3 : bytes -> bytes) (verify_signature : bytes -> bytes -> bytes -> bool).
Context (hex_decode base64_decode : string -> option bytes) (path_decode : string -> option string).
Context (phc_valid : string -> bool) (verify_password : bytes -> string -> bool) (pr : profile).
Context (st : AppState) (g : group) (ip : string).
Abbreviation steps := (step blake3 verify_signature hex_decode base64_decode phc_valid verify_password path_decode pr st).
Abbreviation sessions := (session blake3 verify_signature hex_decode base64_decode phc_valid verify_password path_decode pr st).

(** Requests of the address to the group that got to a handler, in [t0, t1). *)
Definition got (t0 t1 : Z) (l : list (Request * response)) : Z :=
  lenZ (filter (fun x => group_of x.1 = Some g /\
                         client_ip (sr_addr x.1) (h_forwarded_for (sr_headers x.1)) (trust_proxy st) = ip /\
                         is_handled x.2 = true /\ t0 <= sr_limit_time x.1 < t1) l).

(** The limiter of the group never has to evict an address. *)
Fixpoint never_full (es : list event) (s : server) : Prop :=
  match es with
  | [] => True
  | e :: es => map_len (sv_limits s g) < MAX_ENTRIES /\ never_full es (steps e s).2
  end.

Lemma got_app t0 t1 l l' : got t0 t1 (l ++ l') = got t0 t1 l + got t0 t1 l'.
Proof. unfold got. by rewrite filter_app, lenZ_app. Qed.

Lemma middleware_limits g' rq next s :
  let c := RateLimiter.check_rate_limit (limiter g') (client_ip (sr_addr rq) (h_forwarded_for (sr_headers rq)) (trust_proxy st))
             (sr_limit_time rq) (sv_limits s g') in
  let x := rate_limit_middleware st g' rq next s in
  is_handled x.1 = c.1 /\ sv_limits x.2 g' = c.2 /\ forall g'', g'' <> g' -> sv_limits x.2 g'' = sv_limits s g''.
Proof.
  cbv zeta. unfold rate_limit_middleware. destruct (RateLimiter.check_rate_limit _ _ _ _) as [[] m]; cbn.
  - destruct (next (sv_world s)) as [r w]. cbn. rewrite bool_decide_eq_true_2 by done. split_and!; [done..|].
    intros g'' Hne. by rewrite bool_decide_eq_false_2.
  - rewrite bool_decide_eq_true_2 by done. split_and!; [done..|]. intros g'' Hne. by rewrite bool_decide_eq_false_2.
Qed.

Lemma got_one t0 t1 rq r :
  got t0 t1 [(rq, r)] =
  RateLimit.accepted ip t0 t1 (if bool_decide (group_of rq = Some g)
    then [{| d_ip := client_ip (sr_addr rq) (h_forwarded_for (sr_headers rq)) (trust_proxy st);
             d_time := sr_limit_time rq; d_allowed := is_handled r |}] else []).
Proof.
  unfold got, RateLimit.accepted. case_bool_decide as Hg.
  - rewrite !filter_cons. cbn. repeat case_decide; naive_solver.
  - rewrite filter_cons_False by naive_solver. done.
Qed.

(** For the limiter a step from [s] to [x] is at most one event. *)
Definition one_event (t0 t1 : Z) (e : event) (s : server) (x : list (Request * response) * server) : Prop :=
  exists evs, (evs = [] \/ exists ev, evs = [ev] /\ limit_time g e = Some (event_time ev)) /\
    (rl_run (limiter g) (sv_limits s g) evs).2 = sv_limits x.2 g /\
    got t0 t1 x.1 = RateLimit.accepted ip t0 t1 (rl_run (limiter g) (sv_limits s g) evs).1.

Lemma limited_event t0 t1 rq g' next s s1 :
  group_of rq = Some g' -> sv_limits s1 = sv_limits s ->
  let x := rate_limit_middleware st g' rq next s1 in one_event t0 t1 (Arrives rq) s ([(rq, x.1)], x.2).
Proof.
  intros Hg Hs1. destruct (middleware_limits g' rq next s1) as (H1 & H2 & H3). rewrite Hs1 in *. cbv zeta.
  destruct (decide (g' = g)) as [->|Hne].
  - exists [CheckEv (client_ip (sr_addr rq) (h_forwarded_for (sr_headers rq)) (trust_proxy st)) (sr_limit_time rq)].
    split; [right; eexists; split; [done|]; cbn; by rewrite bool_decide_eq_true_2|].
    cbn [fst snd]. rewrite got_one, bool_decide_eq_true_2, H1, H2 by done. cbn.
    by destruct (RateLimiter.check_rate_limit _ _ _ _).
  - exists []. split; [by left|]. cbn [fst snd]. rewrite H3, got_one, bool_decide_eq_false_2 by congruence. done.
Qed.

Lemma refused_event t0 t1 rq r s s1 :
  sv_limits s1 = sv_limits s -> is_handled r = false -> one_event t0 t1 (Arrives rq) s ([(rq, r)], s1).
Proof.
  intros Hs1 Hr. exists []. split; [by left|]. cbn. rewrite Hs1. split; [done|].
  unfold got. rewrite filter_cons_False; [done|]. cbn. rewrite Hr. naive_solver.
Qed.

Lemma step_limits t0 t1 e s : one_event t0 t1 e s (steps e s).
Proof.
  destruct e as [rq|g' now|now]; cbn [step].
  - unfold serve. destruct (dispatch (sr_verb rq) (sr_path rq)) as [[[g' h] caps]|] eqn:Ed; [|exists []; cbn; auto].
    assert (Hg : group_of rq = Some g') by (unfold group_of; by rewrite Ed). unfold serve_route.
    destruct (protected g').
    + destruct (require_api_key _ _ _ _ _ _ _ _ _) as [[[p|e]|] lim]; [|by apply refused_event..].
      match goal with |- context [rate_limit_middleware st g' rq ?next ?s1] =>
        pose proof (limited_event t0 t1 rq g' next s s1 Hg eq_refl) as H0 end.
      by destruct (rate_limit_middleware _ _ _ _ _).
    + match goal with |- context [rate_limit_middleware st g' rq ?next ?s1] =>
        pose proof (limited_event t0 t1 rq g' next s s1 Hg eq_refl) as H0 end.
      by destruct (rate_limit_middleware _ _ _ _ _).
  - destruct (decide (g' = g)) as [->|Hne].
    + exists [SweepEv now]. cbn. rewrite !bool_decide_eq_true_2 by done. eauto 10.
    + exists []. cbn. rewrite (bool_decide_eq_false_2 (g = g')) by done. auto.
  - exists []. cbn. auto.
Qed.

Lemma session_limits t0 t1 tc es s :
  Sorted Z.le (tc :: omap (limit_time g) es) -> never_full es s ->
  exists evs, times_from tc evs /\ no_eviction (limiter g) (sv_limits s g) evs /\
    got t0 t1 (sessions es s).1 = RateLimit.accepted ip t0 t1 (rl_run (limiter g) (sv_limits s g) evs).1.
Proof.
  revert tc s; induction es as [|e es IH]; intros tc s Hs Hf.
  { exists []. cbn. repeat split. constructor; constructor. }
  destruct Hf as [Hroom Hf]. cbn [session].
  destruct (step_limits t0 t1 e s) as (evs & Hevs & Hm & Hgot). destruct (steps e s) as [l s1]. cbn [fst snd] in *.
  destruct Hevs as [->|(ev & -> & Ht)].
  - cbn in Hm, Hgot. destruct (IH tc s1) as (evs & H1 & H2 & H3); [|done|].
    { cbn [omap list_omap] in Hs. destruct (limit_time g e) as [t|]; [|done].
      apply Sorted_inv in Hs as [Hs Hh]. inversion Hh; subst. apply Sorted_inv in Hs as [Hs Hh2].
      constructor; [done|]. inversion Hh2; subst; constructor. lia. }
    rewrite <- Hm in *. destruct (sessions es s1) as [l' s2]. exists evs. cbn in *. rewrite got_app, Hgot, H3. auto.
  - cbn [omap list_omap] in Hs. rewrite Ht in Hs. apply Sorted_inv in Hs as [Hs Hh]. inversion Hh; subst.
    destruct (IH (event_time ev) s1) as (evs & H1' & H2 & H3); [done|done|].
    cbn [rl_run] in Hm, Hgot. destruct (rl_step (limiter g) (sv_limits s g) ev) as [ds m1] eqn:Er. cbn in Hm, Hgot. subst m1.
    exists (ev :: evs). rewrite times_from_cons. destruct (sessions es s1) as [l' s2]. cbn [fst] in *.
    split; [done|]. split.
    { cbn [no_eviction]. rewrite Er. split; [|done]. destruct ev; [by right|done]. }
    cbn [rl_run]. rewrite Er. destruct (rl_run _ _ evs) as [ds' m2]. cbn [fst] in *.
    rewrite got_app, H3, Hgot, app_nil_r. unfold RateLimit.accepted. by rewrite filter_app, lenZ_app.
Qed.

(** C29: What an address gets of a new server: in any session, sweeps of the
    limiters and failed authentications included, whose limiter of the group never
    overflows, at most twice the limit of a group of routes gets to the handlers in
    any minute for one address: 120 health checks, 200 update checks, 400 downloads,
    20 publications and 60 administrative requests. *)
Theorem requests_bounded w t tc es :
  Sorted Z.le (tc :: omap (limit_time g) es) -> never_full es (new_server w) ->
  got t (t + from_secs 60) (sessions es (new_server w)).1 <= 2 * max_requests (limiter g).
Proof.
  intros Hs Hf. destruct (session_limits t (t + from_secs 60) tc es (new_server w) Hs Hf) as (evs & H1 & H2 & ->).
  replace (from_secs 60) with (window_duration (limiter g)) by (by destruct g).
  apply (run_any_window (limiter g) ltac:(by destruct g) ip t tc); [done|done|exact H2].
Qed.
End Rates.

(** ** Routes *)

(** Some path matches both patterns. *)
Fixpoint clash (p q : list string) : bool :=
  match p, q with
  | [], [] => true
  | a :: p, b :: q => (is_capture a || is_capture b || bool_decide (a = b)) && clash p q
  | _, _ => false
  end.

Lemma matches_clash p q path a b : path_matches p path a -> path_matches q path b -> clash p q = true.
Proof.
  intros Hp. revert q b; induction Hp as [|x p path caps Hx Hp IH|x s p path caps Hx Hs Hp IH]; intros q b Hq;
    inversion Hq; subst; [done|..]; apply andb_true_iff; (split; [|by eapply IH]); rewrite ?Hx; try done.
  - by rewrite bool_decide_eq_true_2, orb_true_r.
  - match goal with H : is_capture ?y = true |- _ => by rewrite H end.
Qed.

(** Routes with different patterns have no path in common, routes with the same
    pattern have different methods. *)
Definition apart (r r' : group * route) : bool :=
  if bool_decide (ro_pattern r.2 = ro_pattern r'.2) then negb (bool_decide (ro_verb r.2 = ro_verb r'.2))
  else negb (clash (segments (ro_pattern r.2)) (segments (ro_pattern r'.2))).

Fixpoint all_apart (l : list (group * route)) : bool :=
  match l with [] => true | r :: l => forallb (apart r) l && forallb (fun r' => apart r' r) l && all_apart l end.

Lemma app_routes_apart : all_apart app_routes = true.
Proof. vm_compute. reflexivity. Qed.
Lemma app_routes_simple : simple_routes app_routes = true.
Proof. vm_compute. reflexivity. Qed.

Lemma all_apart_elem l r r' : all_apart l = true -> r ∈ l -> r' ∈ l -> r = r' \/ apart r r' = true.
Proof.
  induction l as [|x l IH]; cbn; [by intros _ ?%not_elem_of_nil|].
  rewrite !andb_true_iff, !forallb_forall. intros [[H1 H2] Hl] [->|Hr]%elem_of_cons [->|Hr']%elem_of_cons.
  - by left.
  - right. by apply H1, list_elem_of_In.
  - right. by apply H2, list_elem_of_In.
  - by apply IH.
Qed.

(** The routes are unambiguous: routes of the server that match the same path have
    the same pattern, and those with the same pattern and method are the same, so
    the order in which the routers are merged does not matter. *)
Theorem routes_unambiguous r r' path caps caps' :
  r ∈ app_routes -> r' ∈ app_routes ->
  (route_matches r.2 path caps -> route_matches r'.2 path caps' -> ro_pattern r.2 = ro_pattern r'.2) /\
  (ro_pattern r.2 = ro_pattern r'.2 -> ro_verb r.2 = ro_verb r'.2 -> r = r').
Proof.
  intros Hr Hr'. destruct (all_apart_elem _ _ _ app_routes_apart Hr Hr') as [->|Ha]; [done|]. unfold apart in Ha.
  case_bool_decide as Hp; split; [done| |..|done].
  - intros _ Hv. by rewrite bool_decide_eq_true_2 in Ha.
  - intros H1 H2. by rewrite (matches_clash _ _ _ _ _ H1 H2) in Ha.
Qed.

Section Routes.
Context {RT : Router} {RTL : RouterLaws RT}.

(** The route of a path is the one whose pattern it matches. *)
Lemma dispatch_route g r path caps :
  (g, r) ∈ app_routes -> route_matches r path caps -> dispatch (ro_verb r) path = Some (g, ro_handler r, caps).
Proof.
  intros Hin Hc. apply router_complete; [apply app_routes_simple|done|done|..].
  - intros gr caps' Hgr Hm. by apply (routes_unambiguous gr (g, r) path caps' caps).
  - intros gr Hgr. by apply (routes_unambiguous gr (g, r) path caps caps).
Qed.

(** A path that matches no pattern has no route. *)
Lemma dispatch_nothing v path :
  (forall gr caps, gr ∈ app_routes -> ~ route_matches gr.2 path caps) -> dispatch v path = None.
Proof.
  intros Hno. destruct (dispatch v path) as [[[g h] caps]|] eqn:E; [exfalso|done].
  destruct (router_sound app_routes v path g h caps app_routes_simple E) as (r & Hin & _ & _ & Hm). by apply (Hno _ _ Hin Hm).
Qed.
End Routes.

(** ** Addresses *)

Lemma segments_concat segs :
  segs <> [] -> Forall (fun s => "/"%char ∉ chars s) segs -> segments (String.concat "/" segs) = segs.
Proof.
  unfold segments. intros Hne Hs. induction Hs as [|c cs Hc Hs IH]; [done|].
  destruct (decide (cs = [])) as [->|Hcs]; [cbn; by apply split_char_none|].
  rewrite concat_cons by done. rewrite split_char_app, IH by done. by rewrite split_char_none.
Qed.

(** Segments a route captures as they are. *)
Definition segment_text (s : string) : Prop := s <> "" /\ ("/"%char ∉ chars s) /\ ("%"%char ∉ chars s).

Lemma acceptable_segment cls s :
  cls "/"%char = false -> cls "%"%char = false -> acceptable cls s -> segment_text s.
Proof.
  intros H1 H2 (Hne & _ & Hc & _). rewrite Forall_forall in Hc.
  split; [done|split]; intros Hin%Hc; congruence.
Qed.

Lemma valid_name_segment s : validate_name s = Ok tt -> segment_text s.
Proof. intros H%validate_name_iff. by apply (acceptable_segment name_char). Qed.
Lemma valid_version_segment s : validate_version s = Ok tt -> segment_text s.
Proof. intros H%validate_version_iff. by apply (acceptable_segment version_str_char). Qed.

Lemma diff_spec_segment a b : segment_text a -> segment_text b -> segment_text (a +:+ "-to-" +:+ b).
Proof.
  intros (Ha & Ha1 & Ha2) (Hb & Hb1 & Hb2). split; [|split; rewrite !chars_app, !not_elem_of_app; set_solver].
  intros He. apply (f_equal chars) in He. rewrite !chars_app in He. by destruct (chars a).
Qed.

(** Names of the server need no encoding. *)
Lemma url_encode_valid s : validate_name s = Ok tt -> url_encode_path_segment s = s.
Proof.
  intros (_ & _ & Hc & _)%validate_name_iff. unfold url_encode_path_segment.
  rewrite <- (of_chars_chars s) at 2. f_equal. induction Hc as [|c l Hc Hl IH]; [done|]. cbn.
  assert (unreserved c = true) as ->; [|cbn; by rewrite IH].
  revert Hc. unfold name_char, unreserved. rewrite !orb_true_iff, !bool_decide_eq_true. set_solver.
Qed.

Section Addresses.
Context {RT : Router} {RTL : RouterLaws RT} (path_decode : string -> option string).

(** A path gets to a handler with these arguments. *)
Definition routed (v : verb) (path : string) (g : group) (h : handler) (args : list string) : Prop :=
  exists caps, dispatch v path = Some (g, h, caps) /\ decoded path_decode caps = Some args.

(** Segments without escapes are decoded to themselves. *)
Context (Hdecode : forall s, "%"%char ∉ chars s -> path_decode s = Some s).

Lemma decoded_segments caps : Forall segment_text caps -> decoded path_decode caps = Some caps.
Proof.
  unfold decoded. induction 1 as [|s caps (_ & _ & Hs) Hc IH]; [done|]. cbn. rewrite Hdecode by done. cbn. by rewrite IH.
Qed.

(** Which route a path made of literals and segments has. *)
Lemma routed_by n g r segs caps :
  app_routes !! n = Some (g, r) -> Forall segment_text caps -> Forall (fun s => "/"%char ∉ chars s) segs -> segs <> [] ->
  path_matches (segments (ro_pattern r)) segs caps ->
  routed (ro_verb r) (String.concat "/" segs) g (ro_handler r) caps.
Proof.
  intros Hn Hc Hs Hne Hm. exists caps. split; [|by apply decoded_segments].
  apply dispatch_route; [by eapply list_elem_of_lookup_2|]. unfold route_matches. by rewrite segments_concat.
Qed.

Ltac route_tac n segs :=
  refine (routed_by n _ _ segs _ eq_refl _ _ _ _);
    [repeat (constructor; [by (assumption || apply diff_spec_segment)|]); constructor
    |repeat (constructor; [first [apply diff_spec_segment; assumption|by (match goal with H : segment_text ?x |- _ ∉ chars ?x => apply H end)|set_solver]|]); constructor
    |done
    |match goal with |- path_matches ?p _ _ => let q := eval vm_compute in p in change p with q end;
     repeat first [apply MatchesLiteral; [reflexivity|]
                  |apply MatchesCapture; [reflexivity|first [match goal with H : segment_text ?x |- ?x <> _ => apply H end|by apply diff_spec_segment]|]];
     constructor].

Lemma check_update_routed app :
  segment_text app ->
  routed VGet ("/api/v1/apps/" +:+ app +:+ "/check-update") Updates CheckUpdate [app].
Proof. intros. route_tac 1%nat [""; "api"; "v1"; "apps"; app; "check-update"]. Qed.

Lemma binary_routed app version :
  segment_text app -> segment_text version ->
  routed VGet ("/api/v1/apps/" +:+ app +:+ "/versions/" +:+ version +:+ "/binary") Downloads DownloadBinary [app; version].
Proof. intros. route_tac 2%nat [""; "api"; "v1"; "apps"; app; "versions"; version; "binary"]. Qed.

Lemma signature_routed app version :
  segment_text app -> segment_text version ->
  routed VGet ("/api/v1/apps/" +:+ app +:+ "/versions/" +:+ version +:+ "/signature") Downloads DownloadSignature [app; version].
Proof. intros. route_tac 4%nat [""; "api"; "v1"; "apps"; app; "versions"; version; "signature"]. Qed.

Lemma diff_routed app version from :
  segment_text app -> segment_text version -> segment_text from ->
  routed VGet ("/api/v1/apps/" +:+ app +:+ "/diffs/" +:+ from +:+ "-to-" +:+ version) Downloads DownloadDiff
    [app; from +:+ "-to-" +:+ version].
Proof. intros. route_tac 3%nat [""; "api"; "v1"; "apps"; app; "diffs"; from +:+ "-to-" +:+ version]. Qed.

Lemma publish_routed app version :
  segment_text app -> segment_text version ->
  routed VPost ("/api/v1/apps/" +:+ app +:+ "/versions/" +:+ version) Publishing PublishVersion [app; version].
Proof. intros. route_tac 5%nat [""; "api"; "v1"; "apps"; app; "versions"; version]. Qed.

Lemma upload_diff_routed app version from :
  segment_text app -> segment_text version -> segment_text from ->
  routed VPost ("/api/v1/apps/" +:+ app +:+ "/diffs/" +:+ from +:+ "/to/" +:+ version) Publishing UploadDiff
    [app; from; version].
Proof. intros. route_tac 9%nat [""; "api"; "v1"; "apps"; app; "diffs"; from; "to"; version]. Qed.
End Addresses.

Section Agreement.
Context {RT : Router} {RTL : RouterLaws RT} {SV : Semver} (path_decode : string -> option string).

Lemma offer_urls app current latest info platform manifest rollout device :
  let base := "/api/v1/apps/" +:+ app in
  let r := offer app current latest info platform manifest rollout device in
  full_binary_url r = Some (base +:+ "/versions/" +:+ version_to_string latest +:+ "/binary?platform=" +:+ platform_as_str platform) /\
  signature_url r = Some (base +:+ "/versions/" +:+ version_to_string latest +:+ "/signature") /\
  forall u, diff_url r = Some u ->
    u = base +:+ "/diffs/" +:+ version_to_string current +:+ "-to-" +:+ version_to_string latest +:+ "?platform=" +:+ platform_as_str platform.
Proof.
  cbv zeta. unfold offer, opt_with. repeat case_match; cbn; split_and!; try done; by intros u [= <-].
Qed.

(** The versions of a diff specification that does not hide a separator. *)
Lemma split_diff_spec from version :
  contains_str "-to-" (from +:+ "-to") = false -> contains_str "-to-" version = false ->
  split_str "-to-" (from +:+ "-to-" +:+ version) = [from; version].
Proof.
  unfold contains_str, split_str. intros Hf Hv. rewrite chars_app in Hf. rewrite !chars_app.
  change (chars "-to-") with (chars "-to" ++ ["-"%char]) in *. rewrite split_pat_first by done.
  rewrite split_pat_none by done. cbn. by rewrite !of_chars_chars.
Qed.

(** C14: Clients, publishers and server agree on addresses: with valid names the
    check of a client, the uploads of a publisher and the three addresses an offer
    names are those of the intended routes, and the handlers get back exactly the
    names that went into them.  The address of a diff is one segment, from which
    the handler splits the two versions: it gets them back when the separator
    [-to-] is neither in the version updated to nor, followed by [-to], in the one
    updated from; see [diff_of_separator_version] for the others. *)
Theorem addresses_routed app version from :
  (forall s, "%"%char ∉ chars s -> path_decode s = Some s) ->
  validate_name app = Ok tt -> validate_version version = Ok tt -> validate_version from = Ok tt ->
  (forall config b, m_binary_name b = app -> exists path,
     check_url config b = trim_end_matches "/"%char (server_url config) +:+ path /\
     routed path_decode VGet path Updates CheckUpdate [app]) /\
  (forall c rq, pq_app_name rq = app -> pq_version rq = version -> exists path,
     up_url (version_upload c rq) = trim_end_matches "/"%char (ac_base_url c) +:+ path /\
     routed path_decode VPost path Publishing PublishVersion [app; version]) /\
  (forall c rq, dq_app_name rq = app -> dq_from_version rq = from -> dq_to_version rq = version -> exists path,
     up_url (diff_upload c rq) = trim_end_matches "/"%char (ac_base_url c) +:+ path /\
     routed path_decode VPost path Publishing UploadDiff [app; from; version]) /\
  (forall current latest info platform manifest rollout device,
     version_to_string latest = version -> version_to_string current = from ->
     let r := offer app current latest info platform manifest rollout device in
     let query := "?platform=" +:+ platform_as_str platform in
     (exists path, full_binary_url r = Some (path +:+ query) /\
        routed path_decode VGet path Downloads DownloadBinary [app; version]) /\
     (exists path, signature_url r = Some path /\ routed path_decode VGet path Downloads DownloadSignature [app; version]) /\
     (forall u, diff_url r = Some u -> exists path, u = path +:+ query /\
        routed path_decode VGet path Downloads DownloadDiff [app; from +:+ "-to-" +:+ version])) /\
  (contains_str "-to-" (from +:+ "-to") = false -> contains_str "-to-" version = false ->
     split_str "-to-" (from +:+ "-to-" +:+ version) = [from; version]).
Proof.
  intros Hd Ha Hv Hf. pose proof (valid_name_segment _ Ha). pose proof (valid_version_segment _ Hv).
  pose proof (valid_version_segment _ Hf).
  assert (Hassoc : forall a b c : string, (a +:+ b) +:+ c = a +:+ b +:+ c).
  { intros a b c. apply (inj chars). by rewrite !chars_app, app_assoc. }
  split_and!.
  - intros config b <-. unfold check_url. rewrite url_encode_valid by done.
    eexists. split; [reflexivity|by apply check_update_routed].
  - intros c rq <- <-. cbn. eexists. split; [reflexivity|by apply publish_routed].
  - intros c rq <- <- <-. cbn. eexists. split; [reflexivity|by apply upload_diff_routed].
  - intros current latest info platform manifest rollout device <- <-. cbv zeta.
    destruct (offer_urls app current latest info platform manifest rollout device) as (-> & -> & Hu). split_and!.
    + eexists. split; [|by apply binary_routed]. by rewrite !Hassoc.
    + eexists. split; [|by apply signature_routed]. by rewrite !Hassoc.
    + intros u ->%Hu. eexists. split; [|by apply diff_routed]. by rewrite !Hassoc.
  - apply split_diff_spec.
Qed.
End Agreement.

(** ** Two addresses that miss *)

(** The probe of the client asks for an address the server has no route for:
    against a server that answers paths without a route with an error, the health
    check of the client always reports the server as unreachable, although the
    server has a route for health checks. *)
Theorem health_probe_misses {RT : Router} {RTL : RouterLaws RT} {T} (net : nat -> http_request -> result reqwest_error http_response)
    (url_parse : string -> option url_parts) config (s : system T) :
  (forall n rq path resp, rq_url rq = trim_end_matches "/"%char (server_url config) +:+ path ->
     dispatch VGet path = None -> net n rq = Ok resp -> is_success (rs_status resp) = false) ->
  dispatch VGet "/health" = Some (Health, HealthCheck, []) /\
  (server_health_check net url_parse config s).1 = Ok false.
Proof.
  intros Hnet. split.
  { apply (dispatch_route Health {| ro_pattern := "/health"; ro_verb := VGet; ro_handler := HealthCheck |});
      [by left|]. by repeat constructor. }
  assert (Hnone : dispatch VGet "/api/v1/health" = None).
  { apply dispatch_nothing. intros gr caps Hin Hm.
    assert (Hself : path_matches (segments "/api/v1/health") (segments "/api/v1/health") []) by (by repeat constructor).
    assert (Hall : forallb (fun gr => negb (clash (segments (ro_pattern gr.2)) (segments "/api/v1/health"))) app_routes = true)
      by (vm_compute; reflexivity).
    rewrite forallb_forall in Hall. apply list_elem_of_In, Hall in Hin.
    by rewrite (matches_clash _ _ _ _ _ Hm Hself) in Hin. }
  unfold server_health_check, sbind, attempt, send, sret.
  match goal with |- context [net ?n ?rq] => specialize (Hnet n rq "/api/v1/health"); destruct (net n rq) as [resp|e] end; [|done].
  cbn. f_equal. by apply Hnet.
Qed.

(** The address of a diff from a version that contains the separator reaches the
    handler, which turns it down: it splits the specification at every separator. *)
Theorem diff_of_separator_version {SV : Semver} {SM : Serde VersionManifest} blake3 data_dir app platform p w :
  validate_name app = Ok tt -> platform_from_str platform = Ok p ->
  validate_version "1.0.0-to-1" = Ok tt /\
  download_diff blake3 data_dir app ("1.0.0-to-1" +:+ "-to-" +:+ "2.0.0") platform w = (Err invalid_request, w).
Proof.
  intros Ha Hp. split; [vm_compute; reflexivity|]. unfold download_diff. rewrite Ha, Hp.
  change (split_str "-to-" ("1.0.0-to-1" +:+ "-to-" +:+ "2.0.0")) with ["1.0.0"; "1"; "2.0.0"]. reflexivity.
Qed.

(** ** Keys made by the server *)

Lemma lines_one s : Forall visible (chars s) -> s <> "" -> lines (s +:+ NL) = [s].
Proof.
  intros Hs Hne.
  assert (Hsplit : forall acc l, Forall visible l ->
    split_on (fun c => code c =? 10) acc (l ++ chars NL) = [of_chars (reverse acc ++ l); ""]).
  { intros acc l Hl. revert acc. induction Hl as [|c l [Hc _] Hl IH]; intros acc; cbn [app split_on].
    - by rewrite app_nil_r.
    - destruct (Z.eqb_spec (code c) 10); [lia|]. rewrite IH. by rewrite reverse_cons, <- app_assoc. }
  unfold lines. rewrite chars_app, Hsplit by done. cbn. rewrite of_chars_chars. f_equal.
  unfold strip_cr. destruct (reverse (chars s)) as [|c r] eqn:Er; [done|].
  destruct (Z.eqb_spec (code c) 13); [exfalso|done]. apply Forall_reverse in Hs. rewrite Er in Hs.
  apply Forall_cons in Hs as [[Hc _] _]. lia.
Qed.

Lemma splitn2_visible s : Forall visible (chars s) -> splitn2_whitespace s = (s, None).
Proof.
  intros Hs. unfold splitn2_whitespace. rewrite utf8_chars_text by (by apply visible_ascii).
  assert (H0 : forall acc, splitn2_ws acc ((fun c => [c]) <$> chars s) = (of_chars (acc ++ chars s), None)).
  { induction Hs as [|c l Hc Hl IH]; intros acc; cbn [fmap list_fmap splitn2_ws]; [by rewrite app_nil_r|].
    change (is_whitespace [c]) with (ws1 c). rewrite (visible_ws _ Hc), IH. by rewrite <- app_assoc. }
  rewrite H0. cbn. by rewrite of_chars_chars.
Qed.

Section Keys.
Context {HI : HashIter} {HIL : HashIterLaws HI}.
Context (hex_decode : string -> option bytes) (phc_valid : string -> bool) (verify_password : bytes -> string -> bool).
Context (hash_api_key : string -> result string string) (stdin_line : option (result string string)).
Context (header_value : string -> bool) (parse_addr : string -> result string string) (bind : string -> result string unit).
(** Argon2id: its PHC strings name it, are printable, parse, and verify the password
    they were made from. *)
Context (Hargon2 : forall k h, hash_api_key k = Ok h ->
  starts_with "$argon2id$" h = true /\ Forall visible (chars h) /\ phc_valid h = true /\
  verify_password (as_bytes k) h = true).

Lemma one_key_file h :
  starts_with "$argon2id$" h = true -> Forall visible (chars h) -> phc_valid h = true ->
  parse_api_keys hex_decode phc_valid (h +:+ NL) = {[ h := Auth.admin ]}.
Proof.
  intros Hs Hv Hp. assert (h <> "") as Hne by (by intros ->). unfold parse_api_keys. rewrite lines_one by done. cbn [foldl].
  unfold parse_key_line. rewrite (trim_visible h Hv). unfold str_is_empty at 1. rewrite bool_decide_eq_false_2 by done. cbn [orb].
  assert (starts_with "#" h = false) as ->.
  { apply starts_with_spec in Hs as [t ->]. by destruct t. }
  rewrite (splitn2_visible h Hv), (trim_visible h Hv), Hs, Hp. cbn. by rewrite insert_empty.
Qed.

(** A key the server makes gets in: when the hash that [hash-key] prints for a
    key is the key file, a server started on it lets every request with that key
    from an address that is not locked out pass as administrator. *)
Theorem hashed_key_admits cli key random pv cv w h w1 data_dir trust w2 pr addr xff now now' lim :
  cli_command cli = Some (CmdHashKey (Some key)) ->
  main hex_decode phc_valid hash_api_key stdin_line header_value parse_addr bind cli random pv cv w = (Ok (Prints h), w1) ->
  quiet w2 -> files w2 !! resolve (join data_dir "api_keys.txt") = Some (File (as_bytes (h +:+ NL))) ->
  AuthLimiter.is_blocked (client_ip addr xff trust) now lim = Val false ->
  exists lim', require_api_key phc_valid verify_password pr (with_options hex_decode phc_valid data_dir trust w2).1 addr
                 {| h_forwarded_for := xff; h_api_key := Some key |} now now' lim = (Val (Ok Auth.admin), lim').
Proof.
  intros Hcli Hmain Hq Hf Hb. unfold main in Hmain. rewrite Hcli in Hmain.
  destruct (hash_api_key key) as [h'|e] eqn:Eh; unfold hash_key in Hmain; cbn in Hmain; rewrite Eh in Hmain; [|done].
  injection Hmain as -> <-. destruct (Hargon2 _ _ Eh) as (Hs & Hv & Hp & Hver).
  assert (Hn : node_at (files w2) (resolve (join data_dir "api_keys.txt")) = Some (File (as_bytes (h +:+ NL)))).
  { apply node_at_lookup; [|done]. by apply resolve_in, plain_intro. }
  assert (Hst : (with_options hex_decode phc_valid data_dir trust w2).1 =
    {| st_data_dir := data_dir; api_keys := {[ h ]}; publishers := {[ h := Auth.admin ]}; trust_proxy := trust |}).
  { unfold with_options, load_api_keys, mbind, io_bind. rewrite exists_quiet, Hn, bool_decide_eq_true_2 by done.
    rewrite (read_to_string_quiet _ _ (h +:+ NL)); [|by apply quiet_advance|done|].
    - cbn. rewrite one_key_file by done. by rewrite dom_singleton_L.
    - apply ascii_utf8. rewrite chars_app. apply Forall_app. split; [by apply visible_ascii|by repeat constructor]. }
  rewrite Hst. unfold require_api_key. cbn [h_forwarded_for h_api_key trust_proxy]. rewrite Hb. cbn [mbind option_bind api_keys].
  destruct (verify_api_key_spec phc_valid verify_password key {[ h ]}) as [Hsound Hcomplete].
  destruct (Hcomplete h) as [h' Hk]; [set_solver|by rewrite Hp|]. rewrite Hk.
  destruct (Hsound h' Hk) as [->%elem_of_singleton _]. cbn. rewrite lookup_singleton_eq. cbn.
  unfold AuthLimiter.is_blocked in Hb. unfold AuthLimiter.record_success. destruct (poisoned lim); [done|].
  destruct (entries lim !! _); eauto.
Qed.

(** A generated key is the hexadecimal text of the random bytes. *)
Lemma generated_key_text random :
  length random = 32%nat -> str_len (generate_api_key random) = 64 /\
  Forall (fun c => is_ascii_hexdigit c = true) (chars (generate_api_key random)) /\
  hash_from_hex (generate_api_key random) = Ok random.
Proof. intros Hl. destruct (hash_hex_roundtrip random) as (H1 & H2 & H3 & _); [unfold lenZ; lia|]. done. Qed.
End Keys.
