(* ===== verification/PublishCommand.v ===== *)
(** * PublishCommand: publishing a version ([deltaship-publisher/src/commands/publish.rs])

    The command that uploads a signed version and its diffs.  The line read from
    the terminal is an argument; help texts after the first sentence of an error,
    what is printed and progress bars are left out. *)

From S2P Require Import Prelude Text Diff Version Core Validation RateLimit Fs Crypto DbModels Sql System PublisherDb ClientConfig Downloader DiffManager Archive Project ApiClient.

#[local] Open Scope Z_scope.
#[local] Open Scope sys_scope.

Definition dquote : string := String (chr 34) EmptyString.
(** [{:?}] of a path and of bytes. *)
Definition path_debug (p : string) : string := dquote +:+ p +:+ dquote.
Definition bytes_debug (b : bytes) : string := "[" +:+ String.concat ", " (pretty <$> (byte_to_Z <$> b)) +:+ "]".

Definition new_line : string := String (chr 10) EmptyString.

Definition failed_diffs (failures : list string) : string :=
  "Binary uploaded successfully, but " +:+ pretty (length failures) +:+ " diff upload(s) failed:" +:+ new_line +:+ "  - " +:+
  String.concat (new_line +:+ "  - ") failures +:+ new_line +:+ new_line +:+
  "Version not marked as published. Fix the issues and re-run publish.".

Section PublishCommand.
Context {SO : SqlOrder} {ET : ErrorTexts}.
Context (ph : publisher_host).
Context (blake3 : bytes -> bytes).
Context (net : nat -> upload -> result string answer).
Context (status_text : Z -> string) (decode_text : bytes -> string).
Context (publish_response_of : bytes -> result string PublishResponse).
Context (diff_response_of : bytes -> result string PublishDiffResponse).
Context (stdin : result io_error string).   (** the line the user types *)

(** [?] on an error of the API client. *)
Definition api_call {A} (m : api A) : psys A := fun s => let '(r, s') := m s in (map_err PHttp r, s').
(** A match on one. *)
Definition api_try {A} (m : api A) : psys (result string A) := fun s => let '(r, s') := m s in (Ok r, s').

(** [with_context]. *)
Definition in_context {A} (text : string) (m : psys A) : psys A := fun s =>
  let '(r, s') := m s in (map_err (fun _ => PMsg text) r, s').

(** The server, and the confirmation for another one than the default. *)
Definition choose_server (server_url : option string) : psys string :=
  match server_url with
  | Some url => sret url
  | None => url ←! pdb (p_get_config CONFIG_SERVER_URL); sret (default DEFAULT_SERVER_URL url)
  end.

Definition confirm_server (base_url : string) (yes : bool) : psys unit :=
  if bool_decide (base_url = DEFAULT_SERVER_URL) then sret tt
  else if negb (starts_with "http://" base_url) && negb (starts_with "https://" base_url) then
    sfail (PMsg ("Invalid server URL: '" +:+ base_url +:+ "'. Must start with http:// or https://"))
  else if yes then sret tt
  else
    line ←! of_result (map_err PIo stdin);
    if bool_decide (trim line = "YES") then sret tt
    else sfail (PMsg "Publish cancelled. Server URL not confirmed.").

(** The file of the version, when its size is the recorded one. *)
Definition read_release (db_version : DbVersion) : psys bytes :=
  present ←! look (exists_ (v_file_path db_version));
  if negb present then sfail (PMsg ("Binary file not found at: " +:+ v_file_path db_version))
  else
    binary_data ←! in_context ("Failed to read binary file from " +:+ path_debug (v_file_path db_version))
                    (pio (read (v_file_path db_version)));
    if v_file_size_bytes db_version <? 0 then
      sfail (PMsg ("Invalid file size in database: " +:+ pretty (v_file_size_bytes db_version) +:+ " (negative value)"))
    else if negb (lenZ binary_data =? v_file_size_bytes db_version) then
      sfail (PMsg ("File size mismatch. Expected " +:+ pretty (v_file_size_bytes db_version) +:+ " bytes, found " +:+
                   pretty (lenZ binary_data) +:+ " bytes. The file may have been modified."))
    else sret binary_data.

Definition diff_request (name version platform : string) (from_version : DbVersion) (diff_data checksum : bytes)
    : PublishDiffRequest :=
  {| dq_app_name := name; dq_from_version := v_version_string from_version; dq_to_version := version;
     dq_platform := platform; dq_diff_data := diff_data; dq_checksum := checksum |}.

(** One diff: nothing, or why it failed. *)
Definition upload_diff (client : ApiClient) (name version platform : string) (job : DbDiffJob) : psys (option string) :=
  match j_diff_path job with
  | None => sret None
  | Some diff_path =>
      present ←! look (exists_ diff_path);
      if negb present then sret (Some ("Diff file not found: " +:+ diff_path))
      else
        found ←! pdb (get_version (j_from_version_id job));
        match found with
        | None => sret (Some ("Source version not found for diff job " +:+ j_job_id job))
        | Some from_version =>
            diff_data ←! pio (read diff_path);
            let checksum := default [] (j_diff_hash_blake3 job) in
            let what := v_version_string from_version +:+ " -> " +:+ version in
            if negb (bool_decide (blake3 diff_data = checksum)) then
              sret (Some ("Diff checksum mismatch for " +:+ what +:+ ": computed " +:+ bytes_debug (blake3 diff_data) +:+
                          ", expected " +:+ bytes_debug checksum))
            else
              r ←! api_try (publish_diff net status_text decode_text diff_response_of client
                              (diff_request name version platform from_version diff_data checksum));
              sret match r with
                   | Ok resp => if ds_success resp then None
                                else Some ("Failed to upload diff " +:+ what +:+ ": " +:+ ds_message resp)
                   | Err e => Some ("Failed to upload diff " +:+ what +:+ ": " +:+ e)
                   end
        end
  end.

Fixpoint upload_diffs (client : ApiClient) (name version platform : string) (diffs : list DbDiffJob)
    (diff_failures : list string) : psys (list string) :=
  match diffs with
  | [] => sret diff_failures
  | job :: diffs =>
      failure ←! upload_diff client name version platform job;
      upload_diffs client name version platform diffs
        match failure with Some msg => diff_failures ++ [msg] | None => diff_failures end
  end.

Definition publish_request (name version : string) (binary : DbBinary) (db_version : DbVersion)
    (binary_data signature : bytes) : PublishRequest :=
  {| pq_app_name := name; pq_version := version; pq_platform := b_platform binary; pq_binary_data := binary_data;
     pq_signature := signature; pq_checksum := v_file_hash_blake3 db_version |}.

(** The uploads: the binary, then the diffs to the version. *)
Definition upload_release (client : ApiClient) (name version : string) (binary : DbBinary) (db_version : DbVersion)
    (binary_data signature : bytes) : psys unit :=
  response ←! api_call (publish_version net status_text decode_text publish_response_of client
                          (publish_request name version binary db_version binary_data signature));
  if negb (ps_success response) then sfail (PMsg ("Publish failed: " +:+ ps_message response))
  else
    diffs ←! get_diffs_for_version (v_version_id db_version);
    diff_failures ←! upload_diffs client name version (b_platform binary) diffs [];
    if bool_decide (length diff_failures = 0%nat) then sret tt else sfail (PMsg (failed_diffs diff_failures)).

Definition publish_run (name version : string) (server_url api_key : option string) (yes : bool) : psys unit :=
  present ←! look (exists_ DB_FILE);
  if negb present then sfail (PMsg "Deltaship project not initialized.")
  else
    in_context ("Failed to open database at " +:+ path_debug DB_FILE) open_db ;;!
    binaries ←! pdb p_list_binaries;
    binary ←! of_result (ok_or (PMsg ("Binary '" +:+ name +:+ "' not found in database."))
                           (seek (fun b => bool_decide (b_binary_name b = name)) binaries));
    found ←! pdb (get_version_by_string (b_binary_id binary) version);
    db_version ←! of_result (ok_or (PMsg ("Version " +:+ version +:+ " not found for binary '" +:+ name +:+ "'.")) found);
    signature ←! of_result (ok_or (PMsg ("Version " +:+ version +:+ " is not signed yet.")) (v_signature_ed25519 db_version));
    base_url ←! choose_server server_url;
    confirm_server base_url yes ;;!
    binary_data ←! read_release db_version;
    upload_release (api_client_new base_url api_key) name version binary db_version binary_data signature ;;!
    now ←! observe (ph_now ph);
    pdb (set_version_published now (v_version_id db_version)).
End PublishCommand.
