(* ===== verification/PublishCommandFacts.v ===== *)
(** * PublishCommandFacts: what a publication has uploaded

    A version is marked as published only after the server accepted its binary
    and its diffs; what is uploaded passes the checks of the server. *)

From S2P Require Import Prelude Text Diff Version Core Validation RateLimit Fs Crypto DbModels Sql System PublisherDb PublisherDbFacts ClientConfig Downloader DiffManager Archive Project Programs ApiClient PublishCommand.

#[local] Open Scope Z_scope.

(** ** Rows of versions *)

Lemma update_version_effect id g name :
  effect (dbind (q (exec (p_on name (update_version id g)))) found_rows)
    (fun t _ t' => t' = with_versions (update_rows (has_version_id id) g (pt_versions t)) t /\
       exists v, v ∈ pt_versions t /\ v_version_id v = id) same.
Proof.
  intros c Hc. destruct (effect_q _ _ _ (effect_exec (p_on name (update_version id g))) c Hc) as [H1 H2].
  unfold dbind. destruct (q _ c) as [[n|e] c']; cbn [fst snd] in *; [|split; [done|by destruct H2 as (? & _ & ?)]].
  apply p_on_Ok in H2. unfold update_version in H2. apply result_bind_Ok in H2 as ([] & _ & [= <- H2]).
  unfold found_rows. case_match eqn:Hn; cbn; (split; [done|]).
  - apply Z.eqb_eq in Hn. unfold same. rewrite <- H2. rewrite update_rows_none by done. by destruct (disk c).
  - split; [done|]. apply Z.eqb_neq, count_rows_pos in Hn as (v & ? & ?%bool_decide_eq_true). eauto.
Qed.

Section Facts.
Context {SO : SqlOrder} {SL : SqlOrderLaws SO} {ET : ErrorTexts}.
Context (ph : publisher_host).
Context (blake3 : bytes -> bytes).
Context (net : nat -> upload -> result string answer).
Context (status_text : Z -> string) (decode_text : bytes -> string).
Context (publish_response_of : bytes -> result string PublishResponse).
Context (diff_response_of : bytes -> result string PublishDiffResponse).
Context (stdin : result io_error string).

(** ** Requests *)

(** The network once answered the upload with a success and [a]. *)
Definition answered {A} (decode : bytes -> result string A) (u : upload) (a : A) : Prop :=
  exists k response b, net k u = Ok response /\ is_success (an_status response) = true /\
    an_body response = Ok b /\ decode b = Ok a.

Lemma looks_post f t u : looks f t (post net u) (fun r => exists k, r = net k u).
Proof. intros s (Hf & Ht & Hd). split; [done|]. by exists (sy_requests s). Qed.

Lemma looks_retry f t c u remaining attempt last :
  looks f t (retry_loop net c u remaining attempt last) (fun a => exists k, net k u = Ok a).
Proof.
  revert attempt last. induction remaining as [|n IH]; intros attempt last; cbn [retry_loop]; [apply looks_fail|].
  eapply looks_bind; [apply looks_post|]. intros r [k Hr].
  destruct r as [response|e].
  - looks_step; [apply looks_ret; eauto|]. destruct n; [apply looks_ret; eauto|].
    eapply looks_bind; [apply looks_sleep|]. intros _ _. apply IH.
  - destruct n; [apply looks_fail|]. eapply looks_bind; [apply looks_sleep|]. intros _ _. apply IH.
Qed.

Lemma looks_answer {A} f t (decode : bytes -> result string A) response u k :
  net k u = Ok response ->
  looks f t (read_answer status_text decode_text decode response) (answered decode u).
Proof.
  intros Hk. unfold read_answer. destruct (is_success (an_status response)) eqn:Hs; cbn [negb]; [|apply looks_fail].
  eapply looks_weaken; [apply looks_result|]. intros a Ha. apply result_bind_Ok in Ha as (b & Hb & Ha).
  exists k, response, b. done.
Qed.

Lemma looks_publish_version f t c request :
  looks f t (publish_version net status_text decode_text publish_response_of c request)
    (answered publish_response_of (version_upload c request)).
Proof. eapply looks_bind; [apply looks_retry|]. intros a [k Hk]. by eapply looks_answer. Qed.

Lemma looks_publish_diff f t c request :
  looks f t (publish_diff net status_text decode_text diff_response_of c request)
    (answered diff_response_of (diff_upload c request)).
Proof. eapply looks_bind; [apply looks_retry|]. intros a [k Hk]. by eapply looks_answer. Qed.

Lemma looks_api_call {A} f t (m : api A) Q : looks f t m Q -> looks f t (api_call m) Q.
Proof. intros Hm s Hs. specialize (Hm s Hs). unfold api_call. by destruct (m s) as [[a|e] s']. Qed.

Lemma looks_api_try {A} f t (m : api A) (Q : A -> Prop) :
  looks f t m Q -> looks f t (api_try m) (fun r => forall a, r = Ok a -> Q a).
Proof.
  intros Hm s Hs. specialize (Hm s Hs). unfold api_try.
  destruct (m s) as [[a|e] s']; [destruct Hm; split; [done|]; by intros ? [= <-]|done].
Qed.

Lemma looks_context {A} f t text (m : psys A) Q : looks f t m Q -> looks f t (in_context text m) Q.
Proof. intros Hm s Hs. specialize (Hm s Hs). unfold in_context. by destruct (m s) as [[a|e] s']. Qed.

Hint Resolve looks_context looks_api_call looks_api_try looks_publish_version looks_publish_diff : looks.

(** ** Diffs *)

(** The diff of the job was uploaded, with the contents the job recorded. *)
Definition diff_uploaded (f : fs) (t : publisher_tables) (c : ApiClient) (name version platform : string)
    (job : DbDiffJob) : Prop :=
  forall path, j_diff_path job = Some path -> exists from data response,
    seek (has_version_id (j_from_version_id job)) (pt_versions t) = Some from /\ fs_read f (resolve path) = Ok data /\
    blake3 data = default [] (j_diff_hash_blake3 job) /\
    answered diff_response_of (diff_upload c (diff_request name version platform from data (blake3 data))) response /\
    ds_success response = true.

Lemma looks_upload_diff f t c name version platform job :
  looks f t (upload_diff blake3 net status_text decode_text diff_response_of c name version platform job)
    (fun r => r = None -> diff_uploaded f t c name version platform job).
Proof.
  unfold upload_diff. destruct (j_diff_path job) as [path|] eqn:Hp; [|apply looks_ret; intros _ ? ?; congruence].
  looks_step. looks_step; [by apply looks_ret|]. looks_step. looks_step; [|by apply looks_ret].
  looks_step. cbn zeta. destruct (bool_decide_reflect (blake3 a1 = default [] (j_diff_hash_blake3 job))) as [Hb|];
    cbn [negb]; [|by apply looks_ret].
  looks_step. apply looks_ret. intros Hr path' Hp'. rewrite Hp in Hp'. injection Hp' as <-. rewrite <- Hb in *. destruct a2 as [response|]; [|done].
  exists d, a1, response. split_and!; [naive_solver|naive_solver|done|naive_solver|by destruct (ds_success response)].
Qed.

Lemma looks_upload_diffs f t c name version platform diffs failures :
  looks f t (upload_diffs blake3 net status_text decode_text diff_response_of c name version platform diffs failures)
    (fun l => l = [] -> failures = [] /\ Forall (diff_uploaded f t c name version platform) diffs).
Proof.
  revert failures. induction diffs as [|job diffs IH]; intros failures; cbn [upload_diffs]; [by apply looks_ret|].
  eapply looks_bind; [apply looks_upload_diff|]. intros r Hr. eapply looks_weaken; [apply IH|]. intros l Hl E.
  destruct (Hl E) as [Hf Hd]. destruct r as [msg|]; [by destruct failures|]. auto.
Qed.

Lemma looks_diffs_for_version f t id :
  looks f t (get_diffs_for_version id)
    (fun l => forall j, j ∈ l <-> j ∈ pt_jobs t /\ j_status j = job_status_as_str Completed /\ j_to_version_id j = id).
Proof.
  eapply looks_bind; [apply looks_query|]. intros jobs [= <-]. apply looks_ret. intros j.
  rewrite list_elem_of_In, filter_In, <- list_elem_of_In, bool_decide_eq_true, order_by_perm.
  rewrite list_elem_of_In, filter_In, <- list_elem_of_In, bool_decide_eq_true. tauto.
Qed.

Lemma looks_choose_server f t url : looks f t (choose_server url) (fun _ => True).
Proof. unfold choose_server. looks_step; [by apply looks_ret|]. looks_step. by apply looks_ret. Qed.

Lemma looks_confirm_server f t url yes : looks f t (confirm_server stdin url yes) (fun _ => True).
Proof.
  unfold confirm_server. do 3 (looks_step; try (by apply looks_ret); try apply looks_fail).
  looks_step. looks_step; [by apply looks_ret|apply looks_fail].
Qed.

Lemma looks_read_release f t v :
  looks f t (read_release v) (fun d => fs_read f (resolve (v_file_path v)) = Ok d /\ lenZ d = v_file_size_bytes v).
Proof.
  unfold read_release. looks_step. looks_step; [apply looks_fail|]. looks_step. looks_step; [apply looks_fail|].
  destruct (Z.eqb_spec (lenZ a0) (v_file_size_bytes v)); cbn [negb]; [by apply looks_ret|apply looks_fail].
Qed.

(** ** The command *)

(** A signed version of a binary of that name, with its file as its row says. *)
Record release (f : fs) (t : publisher_tables) (name version : string) (binary : DbBinary) (v : DbVersion)
    (sig data : bytes) : Prop := {
  rl_binary : binary ∈ pt_binaries t;
  rl_name : b_binary_name binary = name;
  rl_version : v ∈ pt_versions t;
  rl_of_binary : v_binary_id v = b_binary_id binary;
  rl_string : v_version_string v = version;
  rl_signature : v_signature_ed25519 v = Some sig;
  rl_file : fs_read f (resolve (v_file_path v)) = Ok data;
  rl_size : lenZ data = v_file_size_bytes v;
}.

(** The server confirmed the binary and every completed diff to the version. *)
Definition uploaded (f : fs) (t : publisher_tables) (c : ApiClient) (name version : string) (binary : DbBinary)
    (v : DbVersion) (sig data : bytes) : Prop :=
  (exists response, answered publish_response_of
     (version_upload c (publish_request name version binary v data sig)) response /\ ps_success response = true) /\
  forall job, job ∈ pt_jobs t -> j_status job = job_status_as_str Completed -> j_to_version_id job = v_version_id v ->
    diff_uploaded f t c name version (b_platform binary) job.

Lemma looks_upload_release f t c name version binary v data sig :
  looks f t (upload_release blake3 net status_text decode_text publish_response_of diff_response_of c name version
               binary v data sig) (fun _ => uploaded f t c name version binary v sig data).
Proof.
  unfold upload_release. eapply looks_bind; [apply looks_api_call, looks_publish_version|]. intros response Hr.
  destruct (ps_success response) eqn:Hs; cbn [negb]; [|apply looks_fail].
  eapply looks_bind; [apply looks_diffs_for_version|]. intros diffs Hd.
  eapply looks_bind; [apply looks_upload_diffs|]. intros l Hl. case_bool_decide as Hn; [|apply looks_fail].
  apply nil_length_inv in Hn. destruct (Hl Hn) as [_ Hf]. apply looks_ret. split; [eauto|].
  intros job Hj H1 H2. rewrite Forall_forall in Hf. apply Hf, Hd. done.
Qed.

Lemma publish_run_ends name version server_url api_key yes f t :
  ends (at_rest f t)
    (publish_run ph blake3 net status_text decode_text publish_response_of diff_response_of stdin name version server_url
       api_key yes)
    (fun _ s => exists binary v sig data url now, release f t name version binary v sig data /\
       uploaded f t (api_client_new url api_key) name version binary v sig data /\
       at_rest f (with_versions (update_rows (has_version_id (v_version_id v)) (mark_published (Some now)) (pt_versions t)) t) s)
    (fun _ => at_rest f t).
Proof.
  unfold publish_run. eapply ends_bind; [apply looks_look, reads_exists|]. intros present. apply ends_assume. intros _.
  destruct (negb present); [by intros s Hs|].
  eapply ends_bind; [apply looks_context, looks_open|]. intros []. apply ends_assume. intros _.
  eapply ends_bind; [apply looks_query|]. intros binaries. apply ends_assume. intros [= <-].
  eapply ends_bind; [apply looks_result|]. intros binary. apply ends_assume. intros Hb%ok_or_Ok%seek_Some.
  destruct Hb as [Hb Hn%bool_decide_eq_true]. rewrite order_by_perm in Hb.
  eapply ends_bind; [apply looks_query|]. intros found. apply ends_assume. intros [= <-].
  eapply ends_bind; [apply looks_result|]. intros v. apply ends_assume. intros Hv%ok_or_Ok%seek_Some.
  destruct Hv as [Hv Hk]. rewrite andb_true_iff, !bool_decide_eq_true in Hk. destruct Hk as [Hvb Hvs].
  eapply ends_bind; [apply looks_result|]. intros sig. apply ends_assume. intros Hsig%ok_or_Ok.
  eapply ends_bind; [apply looks_choose_server|]. intros url. apply ends_assume. intros _.
  eapply ends_bind; [apply looks_confirm_server|]. intros []. apply ends_assume. intros _.
  eapply ends_bind; [apply looks_read_release|]. intros data. apply ends_assume. intros [Hf Hl].
  eapply ends_bind; [apply looks_upload_release|]. intros []. apply ends_assume. intros Hu.
  apply ends_observe. intros now. unfold set_version_published.
  eapply ends_pdb; [apply update_version_effect|by intros s (_ & ? & _)|..].
  - intros s [] c (Hfs & Ht & <-) Hc [Hd _]. exists binary, v, sig, data, url, now.
    split; [by split|]. split; [done|]. by split_and!.
  - intros s e c (Hfs & Ht & <-) Hc Hd. by split_and!.
Qed.

(** C16: Published means uploaded: the command marks a version as published only
    after the server confirmed the binary, read from the recorded file with the
    recorded size and sent with the recorded signature and hash, and every
    completed diff to the version, each with the hash its job recorded; it then
    changes nothing but the mark.  When it fails, whatever fails, neither a file
    nor a row has changed. *)
Theorem published_means_uploaded name version server_url api_key yes s :
  tx (sy_db s) = None ->
  let f := files (sy_fs s) in
  let t := disk (sy_db s) in
  match publish_run ph blake3 net status_text decode_text publish_response_of diff_response_of stdin name version
          server_url api_key yes s with
  | (Ok _, s') => exists binary v sig data url now, release f t name version binary v sig data /\
      uploaded f t (api_client_new url api_key) name version binary v sig data /\ files (sy_fs s') = f /\
      disk (sy_db s') =
        with_versions (update_rows (has_version_id (v_version_id v)) (mark_published (Some now)) (pt_versions t)) t
  | (Err _, s') => files (sy_fs s') = f /\ disk (sy_db s') = t
  end.
Proof.
  intros Ht. pose proof (publish_run_ends name version server_url api_key yes _ _ s (conj eq_refl (conj Ht eq_refl))) as H.
  cbn zeta. destruct (publish_run _ _ _ _ _ _ _ _ _ _ _ _ _ s) as [[a|e] s'].
  - destruct H as (binary & v & sig & data & url & now & H1 & H2 & H3 & _ & H4).
    exists binary, v, sig, data, url, now. by split_and!.
  - by destruct H as (? & _ & ?).
Qed.
End Facts.
