(* ===== verification/Release.v ===== *)
(** * Release: registering and signing versions

    [deltaship-publisher/src/commands/register.rs], [sign.rs] and [diff.rs].  The
    passphrase typed at the prompt is an argument, Ed25519 a parameter; what is
    printed, help texts after the first sentence of an error and progress bars
    are left out. *)

From S2P Require Import Prelude Text Diff Version Core Validation Fs Crypto DbModels Sql System PublisherDb Downloader KeyFiles DiffManager Archive Project.

#[local] Open Scope Z_scope.
#[local] Open Scope sys_scope.

Section Release.
Context {SO : SqlOrder} {SV : Semver} {ET : ErrorTexts} {KC : KeyCrypto}.
Context {H : Type} {SH : StreamHasher H bytes}.        (** BLAKE3 *)
Context {H' : Type} (SH' : StreamHasher H' bytes).     (** SHA-256 *)
Context (ph : publisher_host) (rfc3339_now : system publisher_tables -> string).
Context (bsdiff_diff : bytes -> bytes -> result string bytes).
Context (zstd_encode_all : bytes -> Z -> result string bytes).
Context (blake3 : bytes -> bytes) (ed25519_sign : bytes -> bytes -> bytes).
Context (prompt : result io_error string).

(** ** Registering *)

Definition get_or_create_binary (name platform file : string) (description : option string) : psys DbBinary :=
  existing ←! pdb (p_get_binary_by_name name platform);
  match existing with
  | Some b => sret b
  | None =>
      now ←! observe (ph_now ph);
      id ←! observe (ph_uuid ph);
      psys_db (insert_binary now id
        {| nb_binary_name := name; nb_platform := platform; nb_binary_path := file; nb_description := description |})
  end.

Definition register_version (name version file platform : string) (binary : DbBinary) : psys DbVersion :=
  existing ←! pdb (get_version_by_string (b_binary_id binary) version);
  match existing with
  | Some _ => sfail (PMsg ("Version " +:+ version +:+ " already registered for " +:+ name +:+ " (" +:+ platform +:+ ")."))
  | None =>
      file_size ←! pio (file_len file);
      blake3_hash ←! crypto_call (hash_file (SH := SH) file);
      sha256_hash ←! crypto_call (hash_file (SH := SH') file);
      now ←! observe (ph_now ph);
      id ←! observe (ph_uuid ph);
      pdb (insert_version now id
        {| nv_binary_id := b_binary_id binary; nv_version_string := version; nv_file_path := file;
           nv_file_size_bytes := as_i64 file_size; nv_file_hash_blake3 := blake3_hash; nv_file_hash_sha256 := sha256_hash |})
  end.

Definition register_run (name version file platform : string) (description : option string) (no_diff : bool)
    : psys unit :=
  present ←! look (exists_ DB_FILE);
  if negb present then sfail (PMsg "Deltaship project not initialized.")
  else
    there ←! look (exists_ file);
    if negb there then sfail (PMsg ("Binary file not found: " +:+ file))
    else
      match sv_parse version, platform_from_str platform with
      | Err _, _ => sfail (PMsg ("Invalid version '" +:+ version +:+ "': Not valid semantic versioning."))
      | _, Err _ => sfail (PMsg ("Invalid platform '" +:+ platform +:+ "': Not a recognized platform identifier."))
      | Ok _, Ok _ =>
          open_db ;;!
          binary ←! get_or_create_binary name platform file description;
          db_version ←! register_version name version file platform binary;
          if no_diff then sret tt
          else
            generate_diff_for_version (SH := SH) ph bsdiff_diff zstd_encode_all blake3 new_manager name (b_binary_id binary) db_version ;;!
            sret tt
      end.

(** ** Signing *)

Definition find_version (version_id name version : option string) : psys DbVersion :=
  match version_id, name, version with
  | Some vid, _, _ =>
      found ←! pdb (get_version vid);
      of_result (ok_or (PMsg ("Version not found: " +:+ vid)) found)
  | None, Some n, Some v =>
      binaries ←! pdb p_list_binaries;
      binary ←! of_result (ok_or (PMsg ("Binary not found: " +:+ n))
                             (seek (fun b => bool_decide (b_binary_name b = n)) binaries));
      found ←! pdb (get_version_by_string (b_binary_id binary) v);
      of_result (ok_or (PMsg ("Version " +:+ v +:+ " not found for binary " +:+ n)) found)
  | _, _, _ => sfail (PMsg "Must provide either --version-id or both --name and --version")
  end.

(** An empty passphrase is none. *)
Definition passphrase_opt (passphrase : string) : option string :=
  if str_is_empty passphrase then None else Some passphrase.

Definition load_key (key_path : string) (passphrase : string) : psys bytes :=
  r ←! look (load_signing_key key_path (passphrase_opt passphrase));
  match r with
  | Val (Ok key) => sret key
  | Val (Err e) => sfail (PMsg ("Failed to load signing key: " +:+ crypto_text e +:+
                                ". If the key is encrypted, verify your passphrase is correct."))
  | Panic => sfail PPanic
  end.

Definition sign_run (version_id name version key_file passphrase_arg : option string) : psys unit :=
  present ←! look (exists_ DB_FILE);
  if negb present then sfail (PMsg not_initialized)
  else
    open_db ;;!
    db_version ←! find_version version_id name version;
    let key_path := default SIGNING_KEY_FILE key_file in
    there ←! look (exists_ key_path);
    if negb there then
      sfail (PMsg ("Signing key not found at " +:+ key_path +:+ ". Generate one with 'deltaship-publisher keygen'."))
    else
      passphrase ←! match passphrase_arg with Some p => sret p | None => of_result (map_err PIo prompt) end;
      signing_key ←! load_key key_path passphrase;
      timestamp ←! observe rfc3339_now;
      let message := signing_payload (v_file_hash_blake3 db_version) (v_version_string db_version) in
      pdb (set_version_signature (v_version_id db_version) (ed25519_sign signing_key message) timestamp) ;;!
      binary ←! pdb (p_get_binary (v_binary_id db_version));
      of_result (ok_or (PMsg "Binary not found") binary) ;;!
      sret tt.

(** ** Diffs *)

Definition diff_run (name platform from_version to_version : string) (output : option string)
    : psys (option DiffResult) :=
  present ←! look (exists_ DB_FILE);
  if negb present then sfail (PMsg not_initialized)
  else
    open_db ;;!
    generate_diff_between (SH := SH) ph bsdiff_diff zstd_encode_all blake3 new_manager name platform from_version to_version output.

(** The jobs the listing shows, each with the versions it names. *)
Fixpoint listed_jobs (name : option string) (jobs : list DbDiffJob) (shown : list (DbDiffJob * string * string))
    : psys (list (DbDiffJob * string * string)) :=
  match jobs with
  | [] => sret shown
  | job :: jobs =>
      from_version ←! pdb (get_version (j_from_version_id job));
      to_version ←! pdb (get_version (j_to_version_id job));
      other ←! match name, from_version with
               | Some filter_name, Some ver =>
                   binary ←! pdb (p_get_binary (v_binary_id ver));
                   sret match binary with
                        | Some b => negb (bool_decide (b_binary_name b = filter_name))
                        | None => false
                        end
               | _, _ => sret false
               end;
      listed_jobs name jobs
        (if (other : bool) then shown
         else shown ++ [(job, default "?" (v_version_string <$> from_version), default "?" (v_version_string <$> to_version))])
  end.

Definition diff_list_run (name status : option string) : psys (list (DbDiffJob * string * string)) :=
  present ←! look (exists_ DB_FILE);
  if negb present then sfail (PMsg not_initialized)
  else
    open_db ;;!
    status_filter ←! match status with
                     | None => sret Completed
                     | Some s => of_result (ok_or (PMsg ("Invalid status '" +:+ s +:+
                                   "'. Valid values: pending, running, completed, failed")) (ok (job_status_from_str s)))
                     end;
    jobs ←! pdb (list_diff_jobs_by_status status_filter);
    listed_jobs name jobs [].
End Release.
