(* ===== verification/ReleaseFacts.v ===== *)
(** * ReleaseFacts: what registering and signing record

    A registered version has the hashes and the size of its file; signing adds the
    signature of its payload and nothing else. *)

From S2P Require Import Prelude Text Diff Version Core Validation Fs Crypto DbModels Sql System PublisherDb PublisherDbFacts Downloader KeyFiles DiffManager Archive Project Programs DiffManagerFacts Release PublishCommandFacts.

#[local] Open Scope Z_scope.

(** ** Rows *)

Definition with_row (v : DbVersion) (t : publisher_tables) : publisher_tables := with_versions (pt_versions t ++ [v]) t.

Lemma insert_version_effect `{Semver} now id version :
  effect (insert_version now id version)
    (fun t v t' => (exists n, normalize_version_string (nv_version_string version) = Ok n /\ v = new_version now id n version) /\
       t' = with_row v t)
    (fun t _ t' => t' = t \/ exists v, t' = with_row v t).
Proof.
  unfold insert_version. eapply effect_weaken.
  - do 2 (eapply effect_bind; [apply effect_lift|intros ?]). eapply effect_bind; [apply effect_lift|intros n].
    eapply effect_bind; [apply effect_q, effect_exec|intros ?]. apply reread_effect.
  - intros t v t' ([] & ? & [_ ->] & [] & ? & [_ ->] & n & ? & [Hn ->] & [] & t1 & Hi%p_on_Ok & -> & [= Hs]).
    unfold insert_version_row in Hi. apply result_bind_Ok in Hi as ([] & _ & Hi).
    apply result_bind_Ok in Hi as ([] & Hid%require_Ok & Hi). apply result_bind_Ok in Hi as ([] & _ & Hi).
    apply result_bind_Ok in Hi as ([] & _ & [= <-]). cbn in Hs, Hid.
    assert (v = new_version now id n version) as ->; [|eauto].
    unfold seek in Hs. apply find_some in Hs as [Hin Hv]. rewrite <- list_elem_of_In in Hin.
    apply elem_of_app in Hin as [Hin|Hin%list_elem_of_singleton]; [|done].
    apply negb_true_iff in Hid. rewrite (proj2 (existsb_exists _ _)) in Hid; [done|].
    exists v. by rewrite <- list_elem_of_In.
  - cbn. intros t e t' He. unfold same in He.
    destruct He as [[_ ->]|([] & ? & [_ ->] & [[_ ->]|([] & ? & [_ ->] & [[_ ->]|(n & ? & [_ ->] & He)])])];
      [by left..|]. destruct He as [(? & _ & ->)|([] & t1 & Hi%p_on_Ok & ->)]; [by left|right].
    unfold insert_version_row in Hi. do 4 (apply result_bind_Ok in Hi as ([] & _ & Hi)). injection Hi as <-. eauto.
Qed.

(** ** Signing *)

Section Sign.
Context {SO : SqlOrder} {SL : SqlOrderLaws SO} {ET : ErrorTexts} {KC : KeyCrypto}.
Context (rfc3339_now : system publisher_tables -> string) (ed25519_sign : bytes -> bytes -> bytes).
Context (prompt : result io_error string).

(** The version that the arguments of the command name. *)
Definition chosen (version_id name version : option string) (t : publisher_tables) (v : DbVersion) : Prop :=
  v ∈ pt_versions t /\
  match version_id with
  | Some vid => v_version_id v = vid
  | None => version = Some (v_version_string v) /\
      exists b, b ∈ pt_binaries t /\ name = Some (b_binary_name b) /\ v_binary_id v = b_binary_id b
  end.

Lemma looks_find_version f t version_id name version :
  looks f t (find_version version_id name version) (chosen version_id name version t).
Proof.
  unfold find_version. destruct version_id as [vid|].
  - looks_step. eapply looks_weaken; [apply looks_result|]. intros v Hv%ok_or_Ok. subst a. injection H as Hs.
    apply seek_Some in Hs as [? ?%bool_decide_eq_true]. done.
  - destruct name as [n|]; [|apply looks_fail]. destruct version as [vs|]; [|apply looks_fail].
    looks_step. looks_step. apply ok_or_Ok in H0. injection H as <-. apply seek_Some in H0 as [Hb Hn%bool_decide_eq_true].
    rewrite order_by_perm in Hb. looks_step. eapply looks_weaken; [apply looks_result|]. intros v Hv%ok_or_Ok. subst a.
    injection H as Hs. apply seek_Some in Hs as [Hv Hk]. rewrite andb_true_iff, !bool_decide_eq_true in Hk.
    destruct Hk as [Hk <-]. split; [done|]. split; [done|]. exists a0. by subst n.
Qed.

Lemma reads_load_key p pass : reads (load_signing_key p pass).
Proof. by apply reads_io_map, reads_io_map, reads_read. Qed.

(** A key the file gives with the passphrase. *)
Definition loaded (f : fs) (key_file passphrase_arg : option string) (key : bytes) : Prop :=
  exists w pass, files w = f /\ (passphrase_arg = Some pass \/ passphrase_arg = None /\ prompt = Ok pass) /\
    (load_signing_key (default SIGNING_KEY_FILE key_file) (passphrase_opt pass) w).1 = Val (Ok key).

Lemma looks_load_key f t p pass :
  looks f t (load_key p pass)
    (fun key => exists w, files w = f /\ (load_signing_key p (passphrase_opt pass) w).1 = Val (Ok key)).
Proof.
  unfold load_key. eapply looks_bind; [apply looks_of_io, reads_io_map, reads_load_key|]. intros r (w & Hw & Hr).
  unfold io_map in Hr. destruct r as [[key|e]|]; [|apply looks_fail..]. apply looks_ret. exists w. split; [done|].
  destruct (load_signing_key p _ w) as [x w']. cbn in *. by simplify_eq.
Qed.

Definition signed_tables (v : DbVersion) (key : bytes) (timestamp : string) (t : publisher_tables) : publisher_tables :=
  with_versions (update_rows (has_version_id (v_version_id v))
    (sign_version (ed25519_sign key (signing_payload (v_file_hash_blake3 v) (v_version_string v))) timestamp) (pt_versions t)) t.

Lemma sign_run_ends version_id name version key_file passphrase_arg f t :
  ends (at_rest f t) (sign_run rfc3339_now ed25519_sign prompt version_id name version key_file passphrase_arg)
    (fun _ s => exists v key ts, chosen version_id name version t v /\ loaded f key_file passphrase_arg key /\
       at_rest f (signed_tables v key ts t) s)
    (fun _ s => at_rest f t s \/ exists v key ts, chosen version_id name version t v /\
       loaded f key_file passphrase_arg key /\ at_rest f (signed_tables v key ts t) s).
Proof.
  assert (Herr : forall A (m : psys A) Q, looks f t m Q ->
    ends (at_rest f t) m (fun a s => at_rest f t s /\ Q a) (fun _ s => at_rest f t s \/ exists v key ts,
      chosen version_id name version t v /\ loaded f key_file passphrase_arg key /\ at_rest f (signed_tables v key ts t) s)).
  { intros A m Q Hm s Hs. specialize (Hm s Hs). destruct (m s) as [[a|e] s']; auto. }
  unfold sign_run. eapply ends_bind; [apply Herr, looks_look, reads_exists|]. intros present. apply ends_assume. intros _.
  destruct (negb present); [intros s Hs; by left|].
  eapply ends_bind; [apply Herr, looks_open|]. intros []. apply ends_assume. intros _.
  eapply ends_bind; [apply Herr, looks_find_version|]. intros v. apply ends_assume. intros Hv. cbn zeta.
  eapply ends_bind; [apply Herr, looks_look, reads_exists|]. intros there. apply ends_assume. intros _.
  destruct (negb there); [intros s Hs; by left|].
  eapply ends_bind; [apply (Herr _ _ (fun pass => passphrase_arg = Some pass \/ passphrase_arg = None /\ prompt = Ok pass))|].
  { destruct passphrase_arg; [apply looks_ret; by left|]. eapply looks_weaken; [apply looks_result|].
    intros pass Hp%map_err_Ok. by right. }
  intros pass. apply ends_assume. intros Hpass. eapply ends_bind; [apply Herr, looks_load_key|].
  intros key. apply ends_assume. intros (w & Hw & Hkey). apply ends_observe. intros ts.
  assert (Hl : loaded f key_file passphrase_arg key) by (exists w, pass; done).
  unfold set_version_signature. eapply ends_bind with (mid := fun _ => at_rest f (signed_tables v key ts t)).
  - eapply ends_pdb; [apply update_version_effect|by intros s (_ & ? & _)|..].
    + intros s [] c (Hf & Ht & <-) Hc [Hd _]. by split_and!.
    + intros s e c (Hf & Ht & <-) Hc Hd. left. by split_and!.
  - intros []. assert (Hlast : forall A (m : psys A) Q, looks f (signed_tables v key ts t) m Q ->
      ends (at_rest f (signed_tables v key ts t)) m (fun a s => at_rest f (signed_tables v key ts t) s /\ Q a)
        (fun _ s => at_rest f t s \/ exists v key ts, chosen version_id name version t v /\
           loaded f key_file passphrase_arg key /\ at_rest f (signed_tables v key ts t) s)).
    { intros A m Q Hm s Hs. specialize (Hm s Hs). destruct (m s) as [[a|e] s']; [done|right]. by exists v, key, ts. }
    eapply ends_bind; [apply Hlast, looks_query|]. intros b. apply ends_assume. intros _.
    eapply ends_bind; [apply Hlast, looks_result|]. intros b'. apply ends_assume. intros _. apply ends_ret.
    intros s Hs. by exists v, key, ts.
Qed.
End Sign.

(** ** Registering *)

(** The versions and binaries are [vs] and [bs]. *)
Definition has_rows (vs : list DbVersion) (bs : list DbBinary) (s : system publisher_tables) : Prop :=
  tx (sy_db s) = None /\ pt_versions (disk (sy_db s)) = vs /\ pt_binaries (disk (sy_db s)) = bs.

#[global] Instance has_rows_framed vs bs : Framed (has_rows vs bs).
Proof. by split. Qed.

Lemma has_rows_pdb {A} vs bs (m : db publisher_tables DbError A) ok err :
  effect m ok err -> (forall t a t', ok t a t' -> pt_versions t' = pt_versions t /\ pt_binaries t' = pt_binaries t) ->
  (forall t e t', err t e t' -> pt_versions t' = pt_versions t /\ pt_binaries t' = pt_binaries t) ->
  keeps (has_rows vs bs) (pdb m).
Proof.
  intros Hm Hok Herr s (Ht & Hv & Hb). destruct (Hm (sy_db s) Ht) as [H1 H2]. unfold pdb, of_db.
  destruct (m (sy_db s)) as [[a|e] c]; cbn in *; [apply Hok in H2 as [??]|apply Herr in H2 as [??]];
    split_and!; cbn; congruence.
Qed.

Lemma has_rows_query {A} vs bs (g : publisher_tables -> result SqlxError A) name :
  keeps (has_rows vs bs) (pdb (q (query (p_on name g)))).
Proof. eapply has_rows_pdb; [apply query_effect|by intros ??? [_ ->]|by intros ??? ->]. Qed.

Lemma has_rows_update_job vs bs id g name :
  keeps (has_rows vs bs) (pdb (dbind (q (exec (p_on name (update_job id g)))) found_rows)).
Proof.
  intros s (Ht & Hv & Hb). destruct (effect_q _ _ _ (effect_exec (p_on name (update_job id g))) (sy_db s) Ht) as [H1 H2].
  unfold pdb, of_db, dbind. destruct (q _ (sy_db s)) as [[n|e] c]; cbn in *.
  - apply p_on_Ok in H2. injection H2 as _ H2.
    assert (Hc : (found_rows n c).2 = c) by (unfold found_rows; by case_match).
    destruct (found_rows n c) as [r c']. cbn in Hc |- *. subst c'. unfold has_rows. cbn. rewrite <- H2.
    split; [done|]. by destruct (disk (sy_db s)).
  - destruct H2 as (? & _ & H2). unfold has_rows. cbn. by rewrite H2.
Qed.

Lemma has_rows_check {A B} vs bs (r : result DbError A) (m : db publisher_tables DbError B) :
  keeps (has_rows vs bs) (pdb m) -> keeps (has_rows vs bs) (pdb (dbind (dlift r) (fun _ => m))).
Proof. intros Hm s Hs. destruct r; [by apply Hm|done]. Qed.

Section Register.
Context {SO : SqlOrder} {SV : Semver} {ET : ErrorTexts}.
Context {H : Type} {SH : StreamHasher H bytes}.
Context (ph : publisher_host).
Context (bsdiff_diff : bytes -> bytes -> result string bytes).
Context (zstd_encode_all : bytes -> Z -> result string bytes).
Context (blake3 : bytes -> bytes).

Lemma job_inserted_rows now id job t t' :
  job_inserted now id job t t' -> pt_versions t' = pt_versions t /\ pt_binaries t' = pt_binaries t.
Proof.
  intros [_ Hi]. unfold insert_job_row in Hi. repeat (apply result_bind_Ok in Hi as ([] & _ & Hi)). by injection Hi as <-.
Qed.

Lemma diffs_keep_rows vs bs m name id v :
  keeps (has_rows vs bs) (generate_diff_for_version ph bsdiff_diff zstd_encode_all blake3 m name id v).
Proof.
  pose proof (@has_rows_query) as Hq. pose proof has_rows_update_job as Hu. pose proof (@has_rows_check) as Hc.
  assert (Hf : forall A id msg, keeps (has_rows vs bs) (job_failed (A := A) ph id msg)).
  { intros A i msg. unfold job_failed, set_diff_job_failed. keeps_tac. }
  assert (Ho : forall A id text (x : io (result io_error A)), keeps (has_rows vs bs) (or_job_failed ph id text x)).
  { intros. unfold or_job_failed. keeps_tac. }
  assert (Hl : forall n, keeps (has_rows vs bs) (lock_loop n)).
  { induction n; cbn [lock_loop]; keeps_tac. }
  assert (Hd : forall A id what (r : result DiffError A), keeps (has_rows vs bs) (diff_or_failed ph id what r)).
  { intros. unfold diff_or_failed. keeps_tac. }
  assert (Hs : forall a b dir, keeps (has_rows vs bs) (generate_single_diff ph bsdiff_diff zstd_encode_all blake3 m a b dir)).
  { intros a b dir. unfold generate_single_diff, set_diff_job_running.
    apply keeps_bind; [by intros s|intros now]. apply keeps_bind; [by intros s|intros i]. apply keeps_bind; [|intros job].
    - eapply has_rows_pdb; [apply insert_diff_job_effect|intros ??? [Hi _]; by eapply job_inserted_rows|].
      intros ??? [->|Hi]; [done|by eapply job_inserted_rows].
    - unfold run_job, open_input, lock_input, read_input, verify_input, store_diff, skip_diff, set_diff_job_failed,
        set_diff_job_completed.
      keeps_tac. }
  assert (Ha : forall l results, keeps (has_rows vs bs) (generate_all ph bsdiff_diff zstd_encode_all blake3 m v
    (join (dm_output_dir m) name) l results)).
  { induction l as [|a l IH]; intros results; cbn [generate_all]; keeps_tac. }
  unfold generate_diff_for_version, list_versions. keeps_tac.
Qed.

Lemma ends_of_db {E A} (P : system publisher_tables -> Prop) (m : db publisher_tables E A) eok eerr ok err :
  effect m eok eerr -> (forall s, P s -> tx (sy_db s) = None) ->
  (forall s a c, P s -> tx c = None -> eok (disk (sy_db s)) a (disk c) -> ok a (with_db c s)) ->
  (forall s e c, P s -> tx c = None -> eerr (disk (sy_db s)) e (disk c) -> err e (with_db c s)) ->
  ends P (of_db m) ok err.
Proof.
  intros Hm Ht Ho He s Hs. destruct (Hm (sy_db s) (Ht s Hs)) as [H1 H2]. unfold of_db.
  destruct (m (sy_db s)) as [[a|e] c]; cbn in *; auto.
Qed.

(** The tables but for the binaries; what a failure may leave. *)
Definition same_versions (f : fs) (t : publisher_tables) (s : system publisher_tables) : Prop :=
  exists t', at_rest f t' s /\ pt_versions t' = pt_versions t.

Lemma looks_same_versions {E A} f t (m : sys publisher_tables E A) Q :
  looks f t m Q -> ends (at_rest f t) m (fun a s => at_rest f t s /\ Q a) (fun _ => same_versions f t).
Proof. intros Hm s Hs. specialize (Hm s Hs). destruct (m s) as [[a|e] s']; [done|]. by exists t. Qed.

Lemma insert_binary_ends f t now id nb :
  ends (at_rest f t) (insert_binary now id nb)
    (fun b s => (exists path, b = new_binary now id path nb) /\ at_rest f (with_binaries (pt_binaries t ++ [b]) t) s)
    (fun _ => same_versions f t).
Proof.
  unfold insert_binary. eapply ends_bind; [apply looks_same_versions, looks_result|]. intros []. apply ends_assume. intros _.
  eapply ends_bind; [apply looks_same_versions, looks_of_io; auto with looks|]. intros found. apply ends_assume. intros _.
  destruct (negb found); [intros s Hs; by exists t|].
  eapply ends_bind; [apply looks_same_versions, looks_of_io, reads_io_map; by apply reads_syscall|]. intros path.
  apply ends_assume. intros _.
  eapply ends_bind; [apply looks_same_versions, looks_of_io; auto with looks|]. intros file. apply ends_assume. intros _.
  destruct (negb file); [intros s Hs; by exists t|].
  eapply ends_bind; [apply looks_same_versions, looks_of_io, reads_io_map; by apply reads_syscall|]. intros [].
  apply ends_assume. intros _. set (row := new_binary now id path nb).
  eapply ends_bind with (mid := fun _ s => at_rest f (with_binaries (pt_binaries t ++ [row]) t) s /\
    existsb (is_binary id) (pt_binaries t) = false).
  - eapply ends_of_db; [apply effect_q, effect_exec|by intros s (_ & ? & _)|..].
    + intros s [] c (Hf & Ht & <-) Hc Hd%p_on_Ok. unfold insert_binary_row in Hd.
      apply result_bind_Ok in Hd as ([] & Hn%require_Ok%negb_true_iff & Hd). apply result_bind_Ok in Hd as ([] & _ & [= Hd]).
      split; [|done]. by split_and!.
    + intros s e c (Hf & Ht & <-) Hc (? & _ & Hd). exists (disk (sy_db s)). by split_and!.
  - intros []. apply ends_assume. intros Hn.
    assert (Hlate : forall s, at_rest f (with_binaries (pt_binaries t ++ [row]) t) s -> same_versions f t s)
      by (intros s Hs; by eexists).
    eapply ends_bind with (mid := fun o s => at_rest f (with_binaries (pt_binaries t ++ [row]) t) s /\
      (forall b, o = Some b -> b = row)).
    + eapply ends_of_db; [apply query_effect|by intros s (_ & ? & _)|..].
      * intros s o c (Hf & Ht & Hd) Hc [[= Ho] He]. split; [split_and!; cbn in *; congruence|]. intros b ->.
        rewrite Hd in Ho. cbn in Ho. unfold seek in Ho. apply find_some in Ho as [Hin Hb]. rewrite <- list_elem_of_In in Hin.
        apply elem_of_app in Hin as [Hin|Hin%list_elem_of_singleton]; [|done].
        rewrite (proj2 (existsb_exists _ _)) in Hn; [done|]. exists b. by rewrite <- list_elem_of_In.
      * intros s e c (Hf & Ht & Hd) Hc He. apply Hlate. split_and!; cbn in *; congruence.
    + intros o. apply ends_assume. intros Ho s Hs. destruct o as [b|]; cbn; [|by apply Hlate].
      rewrite (Ho b eq_refl). split; [by exists path|done].
Qed.

Lemma hash_file_value {H0} {SH0 : StreamHasher H0 bytes} digest {HL : HasherLaw SH0 digest} p w h :
  (hash_file (SH := SH0) p w).1 = Ok h -> exists data, fs_read (files w) (resolve p) = Ok data /\ h = digest data.
Proof.
  unfold hash_file, hash_file_generic, io_map. pose proof (read_value p w) as Hr.
  destruct (read p w) as [[data|e] w']; [|done]. intros Hh. exists data. split; [by apply Hr|].
  destruct (hash_loop_spec (S (length data)) (hasher_new (StreamHasher := SH0)) data 0 ltac:(lia)) as (chunks & calls & E & Hc & _).
  cbn [fst] in Hh. rewrite E in Hh. cbn in Hh. injection Hh as <-. by rewrite <- Hc, hasher_chunks.
Qed.

Context {H' : Type} (SH' : StreamHasher H' bytes) (sha256 : bytes -> bytes).
Context {HL : HasherLaw SH blake3} {HL' : HasherLaw SH' sha256} {VL : SemverLaws SV}.

(** The row of a new version of the file [data] at [file]. *)
Record registered (file version : string) (data : bytes) (v : DbVersion) : Prop := {
  rg_path : v_file_path v = file;
  rg_string : v_version_string v = version;
  rg_size : v_file_size_bytes v = as_i64 (lenZ data);
  rg_blake3 : v_file_hash_blake3 v = blake3 data;
  rg_sha256 : v_file_hash_sha256 v = sha256 data;
  rg_unsigned : v_signature_ed25519 v = None;
  rg_unpublished : v_is_published v = false;
}.

Lemma looks_len f t p : looks f t (pio (file_len p)) (fun n => exists d, fs_read f (resolve p) = Ok d /\ n = lenZ d).
Proof.
  eapply looks_weaken; [apply looks_of_io, reads_io_map, reads_file_len|]. intros n (w & <- & Hw).
  pose proof (read_value p w) as Hr. unfold file_len, io_map in Hw. destruct (read p w) as [[d|e] w']; cbn in *; [|done].
  injection Hw as <-. eauto.
Qed.

Lemma looks_hash {H0} (SH0 : StreamHasher H0 bytes) digest {HL0 : HasherLaw SH0 digest} f t p :
  looks f t (crypto_call (hash_file (SH := SH0) p)) (fun h => exists d, fs_read f (resolve p) = Ok d /\ h = digest d).
Proof.
  eapply looks_weaken; [apply looks_of_io, reads_io_map|].
  - intros w. unfold hash_file, hash_file_generic, io_map. pose proof (reads_read p w). by destruct (read p w).
  - intros h (w & <- & Hw). apply (hash_file_value (SH0 := SH0) digest (HL := HL0)). unfold io_map in Hw.
    destruct (hash_file p w) as [[x|e] w']; cbn in *; by simplify_eq.
Qed.

Lemma register_version_ends f t name version file platform binary sv :
  sv_parse version = Ok sv ->
  ends (at_rest f t) (register_version (SH := SH) SH' ph name version file platform binary)
    (fun v s => (exists data, fs_read f (resolve file) = Ok data /\ registered file version data v) /\
       v_binary_id v = b_binary_id binary /\ at_rest f (with_row v t) s)
    (fun _ s => at_rest f t s \/ exists v, at_rest f (with_row v t) s).
Proof.
  intros Hsv. assert (Herr : forall A (m : psys A) Q, looks f t m Q -> ends (at_rest f t) m (fun a s => at_rest f t s /\ Q a)
    (fun _ s => at_rest f t s \/ exists v, at_rest f (with_row v t) s)).
  { intros A m Q Hm s Hs. specialize (Hm s Hs). destruct (m s) as [[a|e] s']; auto. }
  unfold register_version. eapply ends_bind; [apply Herr, looks_query|]. intros existing. apply ends_assume. intros _.
  destruct existing; [intros s Hs; by left|].
  eapply ends_bind; [apply Herr, looks_len|]. intros n. apply ends_assume. intros (data & Hf & ->).
  eapply ends_bind; [exact (Herr _ _ _ (looks_hash SH blake3 f t file))|]. intros h. apply ends_assume. intros (d & Hf' & ->).
  rewrite Hf in Hf'. injection Hf' as <-.
  eapply ends_bind; [exact (Herr _ _ _ (looks_hash SH' sha256 f t file))|]. intros h. apply ends_assume. intros (d & Hf' & ->).
  rewrite Hf in Hf'. injection Hf' as <-.
  apply ends_observe. intros now. apply ends_observe. intros id.
  eapply ends_pdb; [apply insert_version_effect|by intros s (_ & ? & _)|..].
  - intros s v c (Hfs & Ht & <-) Hc [(n & Hn & ->) Hd]. split; [|by split_and!]. exists data. split; [done|].
    assert (n = version) as ->; [|by split].
    revert Hn. cbn [nv_version_string]. unfold normalize_version_string.
    rewrite (parsed_trim _ _ Hsv), (parsed_strip_v _ _ Hsv), (proj2 (parsed_solid _ _ Hsv)). cbn [negb].
    case_match; [done|]. rewrite Hsv. cbn [map_err mbind result_bind]. case_match; [done|]. congruence.
  - intros s e c (Hfs & Ht & <-) Hc [Hd|[v Hd]]; [left|right; exists v]; by split_and!.
Qed.

Lemma get_or_create_ends f t name platform file description :
  ends (at_rest f t) (get_or_create_binary ph name platform file description)
    (fun b s => b_binary_name b = name /\ b_platform b = platform /\
       exists t', at_rest f t' s /\ pt_versions t' = pt_versions t /\ b ∈ pt_binaries t')
    (fun _ => same_versions f t).
Proof.
  unfold get_or_create_binary. eapply ends_bind; [apply looks_same_versions, looks_query|]. intros o. apply ends_assume.
  intros [= Ho]. destruct o as [b|].
  - apply seek_Some in Ho as [Hb Hk]. rewrite andb_true_iff, !bool_decide_eq_true in Hk. destruct Hk.
    apply ends_ret. intros s Hs. split; [done|]. split; [done|]. by exists t.
  - apply ends_observe. intros now. apply ends_observe. intros id s Hs.
    pose proof (insert_binary_ends f t now id {| nb_binary_name := name; nb_platform := platform; nb_binary_path := file;
      nb_description := description |} s Hs) as Hi. unfold psys_db. destruct (insert_binary _ _ _ s) as [[b|e] s']; [|done].
    destruct Hi as [[path ->] Hi]. split; [done|]. split; [done|]. eexists. split; [exact Hi|]. split; [done|].
    cbn. apply elem_of_app. right. by left.
Qed.

(** What a registration ends in, from a tree [f] and tables [t]. *)
Definition registration (f : fs) (t : publisher_tables) (name version file platform : string)
    (s' : system publisher_tables) : Prop :=
  tx (sy_db s') = None /\ exists data v b sv pl, fs_read f (resolve file) = Ok data /\ registered file version data v /\
    pt_versions (disk (sy_db s')) = pt_versions t ++ [v] /\
    b ∈ pt_binaries (disk (sy_db s')) /\ v_binary_id v = b_binary_id b /\ b_binary_name b = name /\ b_platform b = platform /\
    sv_parse version = Ok sv /\ platform_from_str platform = Ok pl.

Definition registration_failed (t : publisher_tables) (s' : system publisher_tables) : Prop :=
  pt_versions (disk (sy_db s')) = pt_versions t \/ exists v, pt_versions (disk (sy_db s')) = pt_versions t ++ [v].

Lemma register_run_ends f t name version file platform description no_diff :
  ends (at_rest f t)
    (register_run (SH := SH) SH' ph bsdiff_diff zstd_encode_all blake3 name version file platform description no_diff)
    (fun _ => registration f t name version file platform) (fun _ => registration_failed t).
Proof.
  assert (Herr : forall A (m : psys A) Q, looks f t m Q -> ends (at_rest f t) m (fun a s => at_rest f t s /\ Q a)
    (fun _ => registration_failed t)).
  { intros A m Q Hm s Hs. specialize (Hm s Hs). destruct (m s) as [[a|e] s']; [done|]. left. by destruct Hm as (_ & _ & ->). }
  unfold register_run. eapply ends_bind; [apply Herr, looks_look, reads_exists|]. intros present. apply ends_assume. intros _.
  destruct (negb present); [intros s (_ & _ & <-); by left|].
  eapply ends_bind; [apply Herr, looks_look, reads_exists|]. intros there. apply ends_assume. intros _.
  destruct (negb there); [intros s (_ & _ & <-); by left|].
  destruct (sv_parse version) as [sv|] eqn:Hsv; [|intros s (_ & _ & <-); by left].
  destruct (platform_from_str platform) as [pl|] eqn:Hpl; [|intros s (_ & _ & <-); by left].
  eapply ends_bind; [apply Herr, looks_open|]. intros []. apply ends_assume. intros _ s Hs.
  pose proof (get_or_create_ends f t name platform file description s Hs) as Hb. unfold sbind at 1.
  destruct (get_or_create_binary _ _ _ _ _ s) as [[b|e] s1]; [|destruct Hb as (t' & (_ & _ & Hd) & ?); left; congruence].
  destruct Hb as (Hn & Hp & t1 & Hs1 & Hv1 & Hb). unfold registration, registration_failed. rewrite <- Hv1.
  pose proof (register_version_ends f t1 name version file platform b sv Hsv s1 Hs1) as Hr. unfold sbind at 1.
  destruct (register_version _ _ _ _ _ _ _ s1) as [[v|e] s2];
    [|destruct Hr as [(_ & _ & ->)|[v (_ & _ & ->)]]; [by left|right; by exists v]].
  destruct Hr as ((data & Hf & Hg) & Hvb & (_ & Ht2 & Hd2)). destruct no_diff.
  - cbn. split; [done|]. exists data, v, b, sv, pl. rewrite Hd2. by split_and!.
  - pose proof (diffs_keep_rows (pt_versions (disk (sy_db s2))) (pt_binaries (disk (sy_db s2))) new_manager name
      (b_binary_id b) v s2 (conj Ht2 (conj eq_refl eq_refl))) as (Hk & Hk1 & Hk2). unfold sbind.
    destruct (generate_diff_for_version _ _ _ _ _ _ _ _ s2) as [[l|e] s3]; cbn in Hk, Hk1, Hk2 |- *; rewrite Hk1, Hd2.
    + split; [done|]. exists data, v, b, sv, pl. rewrite Hk2, Hd2. by split_and!.
    + right. by exists v.
Qed.

(** Registering records the file: after a successful registration the only new
    version is one of the binary of that name and platform with the path, the
    size, the BLAKE3 and the SHA-256 of the file as it was, unsigned and
    unpublished, whatever became of the diffs; a registration that fails has at
    most added a version, and changed no other. *)
Theorem registered_version_recorded name version file platform description no_diff s :
  tx (sy_db s) = None ->
  match register_run (SH := SH) SH' ph bsdiff_diff zstd_encode_all blake3 name version file platform description no_diff s with
  | (Ok _, s') => exists data v b, fs_read (files (sy_fs s)) (resolve file) = Ok data /\ registered file version data v /\
      pt_versions (disk (sy_db s')) = pt_versions (disk (sy_db s)) ++ [v] /\
      b ∈ pt_binaries (disk (sy_db s')) /\ v_binary_id v = b_binary_id b /\ b_binary_name b = name /\ b_platform b = platform
  | (Err _, s') => pt_versions (disk (sy_db s')) = pt_versions (disk (sy_db s)) \/
      exists v, pt_versions (disk (sy_db s')) = pt_versions (disk (sy_db s)) ++ [v]
  end.
Proof.
  intros Ht. pose proof (register_run_ends _ _ name version file platform description no_diff s
    (conj eq_refl (conj Ht eq_refl))) as Hr.
  destruct (register_run _ _ _ _ _ _ _ _ _ _ _ s) as [[u|e] s']; [|done].
  destruct Hr as (_ & data & v & b & sv & pl & H1 & H2 & H3 & H4 & H5 & H6 & H7 & _). exists data, v, b. by split_and!.
Qed.
End Register.
