(* ===== verification/UploadFacts.v ===== *)
(** * UploadFacts: the server does not turn down what the publisher sends

    The form of [ApiClient.version_upload], delivered in any chunks to
    [Publish.publish_version]: with a matching hash and signature no check of the
    server refuses it. *)

From S2P Require Import Prelude Text Diff Version Core Validation RateLimit Fs Catalog Storage StorageFacts Auth Crypto Serving.
From S2P Require Import Publish PublishFacts DbModels Sql System PublisherDb PublisherDbFacts ClientConfig Downloader KeyFiles KeyFacts DiffManager Archive Project.
From S2P Require Import Programs ApiClient PublishCommand PublishCommandFacts Release ReleaseFacts.

#[local] Open Scope Z_scope.

(** The parts the server sees of a form: each field in any chunks. *)
Definition delivered (fields : list form_field) (parts : list part) : Prop :=
  Forall2 (fun x p => exists chunks, p = Part (ff_name x) chunks false /\ concat chunks = ff_data x) fields parts.

(** Whatever fails, the program returns a value as [Q] says or a server error. *)
Definition never_rejects {A} (m : io (reply A)) (Q : A -> Prop) : Prop :=
  forall w, match m w with (Ok a, _) => Q a | (Err e, _) => e.1 = INTERNAL_SERVER_ERROR end.

Lemma never_rejects_bind {A B} (m : io (reply A)) (k : A -> io (reply B)) Q Q' :
  never_rejects m Q -> (forall a, Q a -> never_rejects (k a) Q') -> never_rejects (ebind m k) Q'.
Proof.
  intros Hm Hk w. specialize (Hm w). unfold ebind. destruct (m w) as [[a|e] w']; [by apply Hk|done].
Qed.

Lemma never_rejects_ret {A} (a : A) (Q : A -> Prop) : Q a -> never_rejects (eret a) Q.
Proof. by intros Ha w. Qed.

Lemma never_rejects_internal {E A} (m : io (result E A)) : never_rejects (or_internal m) (fun _ => True).
Proof. intros w. unfold or_internal, io_map. by destruct (m w) as [[a|e] w']. Qed.

Lemma never_rejects_io {A} (m : io A) : never_rejects (io_map Ok m) (fun _ => True).
Proof. intros w. unfold io_map. by destruct (m w). Qed.

Lemma never_rejects_lift {A} (r : reply A) a (Q : A -> Prop) : r = Ok a -> Q a -> never_rejects (elift r) Q.
Proof. intros -> Ha w. done. Qed.

Lemma never_rejects_cleanup {A} p (Q : A -> Prop) : never_rejects (cleanup_fail p internal_error) Q.
Proof. intros w. unfold cleanup_fail, mbind, io_bind. by destruct (remove_file p w). Qed.

(** ** Fields *)

Lemma stream_chunks_accepted temp max name total chunks :
  0 <= total -> max < u64_max -> total + lenZ (concat chunks) <= max ->
  never_rejects (stream_chunks temp max name total chunks false) (fun _ => True).
Proof.
  revert total. induction chunks as [|chunk chunks IH]; intros total Ht Hm Hl; cbn [stream_chunks]; [by apply never_rejects_ret|].
  cbn [concat] in Hl. rewrite lenZ_app in Hl. pose proof (lenZ_nonneg chunk). pose proof (lenZ_nonneg (concat chunks)).
  assert (saturating_add_u64 total (lenZ chunk) = total + lenZ chunk) as -> by (unfold saturating_add_u64; lia).
  cbn zeta. destruct (Z.ltb_spec max (total + lenZ chunk)); [lia|].
  intros w. unfold mbind, io_bind. destruct (append temp chunk w) as [[a|e] w1]; [|apply never_rejects_cleanup].
  apply IH; lia.
Qed.

Section Accepted.
Context {SV : Semver} {SC : Serde AppCatalog} {SM : Serde VersionManifest}.
Context (blake3 : bytes -> bytes) (verify_signature : bytes -> bytes -> bytes -> bool).
Context (hex_decode base64_decode : string -> option bytes) (entropy : Z -> bytes * N).

Lemma stream_field_accepted chunks dir max name n :
  max < u64_max -> lenZ (concat chunks) <= max ->
  never_rejects (stream_field_to_temp blake3 entropy chunks false dir max name n)
    (fun s => sf_hash s = blake3 (concat chunks)).
Proof.
  intros Hm Hl. unfold stream_field_to_temp. eapply never_rejects_bind; [apply never_rejects_internal|intros _ _]. cbn zeta.
  eapply never_rejects_bind; [apply never_rejects_internal|intros _ _].
  eapply never_rejects_bind; [apply stream_chunks_accepted; lia|intros total _].
  eapply never_rejects_bind; [apply never_rejects_io|]. intros [u|e] _; [by apply never_rejects_ret|].
  apply never_rejects_cleanup.
Qed.

Lemma text_field_accepted chunks max name text :
  concat chunks = as_bytes text -> str_len text <= max -> is_utf8 text ->
  read_field_text_limited chunks false max name = Ok text.
Proof.
  intros Hc Hl Hu. unfold read_field_text_limited, read_field_bytes_limited. rewrite Hc. cbn zeta.
  assert (lenZ (as_bytes text) = str_len text) as -> by (unfold str_len, lenZ; by rewrite length_as_bytes).
  destruct (Z.ltb_spec max (str_len text)); [lia|]. cbn [mbind result_bind]. by rewrite from_utf8_as_bytes.
Qed.

(** ** Hexadecimal texts *)

Lemma hash_visible b : Forall visible (chars (hash_to_hex b)).
Proof.
  unfold hash_to_hex. rewrite chars_of_chars. eapply Forall_impl; [apply hex_chars_hexdigit|]. apply hexdigit_visible.
Qed.

Lemma hex_utf8 b : is_utf8 (hash_to_hex b).
Proof. apply ascii_utf8, visible_ascii, hash_visible. Qed.

Lemma hex_digits b : all_chars is_ascii_hexdigit (hash_to_hex b) = true.
Proof. apply all_chars_Forall. unfold hash_to_hex. rewrite chars_of_chars. apply hex_chars_hexdigit. Qed.

Lemma hex_len b : str_len (hash_to_hex b) = 2 * lenZ b.
Proof. unfold str_len, hash_to_hex, lenZ. rewrite chars_of_chars, length_hex_chars. lia. Qed.

Lemma signature_decoded b :
  (forall b, hex_decode (hash_to_hex b) = Some b) -> decode_signature hex_decode base64_decode (hash_to_hex b) = Some b.
Proof. intros Hh. unfold decode_signature. rewrite trim_visible by apply hash_visible. by rewrite hex_digits. Qed.

(** ** The form *)

(** What the collected form of an upload says. *)
Definition form_of (request : PublishRequest) (f : form) : Prop :=
  (exists b, f_binary f = Some b /\ sf_hash b = blake3 (pq_binary_data request)) /\
  f_platform f = Some (pq_platform request) /\ f_signature f = Some (pq_signature request) /\
  f_checksum f = Some (hash_to_hex (pq_checksum request)).

(** A request the server has no reason to turn down. *)
Record acceptable (p : Publisher) (request : PublishRequest) : Prop := {
  ab_name : validate_name (pq_app_name request) = Ok tt;
  ab_version : validate_version (pq_version request) = Ok tt;
  ab_parsed : exists v, version_from_str (pq_version request) = Ok v;
  ab_scope : can_publish p (pq_app_name request) = true;
  ab_platform : exists pl, platform_from_str (pq_platform request) = Ok pl;
  ab_platform_text : is_utf8 (pq_platform request) /\ str_len (pq_platform request) <= MAX_TEXT_FIELD_SIZE;
  ab_binary : lenZ (pq_binary_data request) <= MAX_BINARY_FIELD_SIZE;
  ab_checksum : pq_checksum request = blake3 (pq_binary_data request);
  ab_checksum_len : lenZ (pq_checksum request) = 32;
  ab_signature_len : lenZ (pq_signature request) = 64;
  ab_signature : forall pk, pubkey p = Some pk ->
    verify_signature pk (signing_payload (pq_checksum request) (pq_version request)) (pq_signature request) = true;
}.

Abbreviation collect := (collect_fields blake3 hex_decode base64_decode entropy).

(** One part after the other. *)
Lemma collect_text dir name chunks parts n f text (set : string -> form -> form) Q :
  (name, set) ∈ [("platform", set_platform); ("checksum", set_checksum)] ->
  n + 1 <= MAX_MULTIPART_FIELDS -> concat chunks = as_bytes text -> str_len text <= MAX_TEXT_FIELD_SIZE -> is_utf8 text ->
  never_rejects (collect dir parts (n + 1) (set text f)) Q ->
  never_rejects (collect dir (Part name chunks false :: parts) n f) Q.
Proof.
  intros Hs Hn Hc Hl Hu Hk. cbn [collect_fields]. destruct (Z.ltb_spec MAX_MULTIPART_FIELDS (n + 1)); [lia|].
  eapply (never_rejects_bind _ _ (eq (set text f))); [|by intros ? <-].
  rewrite !elem_of_cons, elem_of_nil in Hs. destruct Hs as [[= -> ->]|[[= -> ->]|[]]];
    repeat (rewrite (bool_decide_eq_false_2 (_ = _)) by done); rewrite (bool_decide_eq_true_2 (_ = _)) by done;
    (eapply (never_rejects_bind _ _ (eq text));
      [by eapply never_rejects_lift; [apply text_field_accepted|]|intros ? <-; by apply never_rejects_ret]).
Qed.

Lemma collect_signature dir chunks parts n f sig Q :
  (forall b, hex_decode (hash_to_hex b) = Some b) ->
  n + 1 <= MAX_MULTIPART_FIELDS -> concat chunks = as_bytes (hash_to_hex sig) -> 2 * lenZ sig <= MAX_SIGNATURE_FIELD_SIZE ->
  never_rejects (collect dir parts (n + 1) (set_signature sig f)) Q ->
  never_rejects (collect dir (Part "signature" chunks false :: parts) n f) Q.
Proof.
  intros Hh Hn Hc Hl Hk. cbn [collect_fields]. destruct (Z.ltb_spec MAX_MULTIPART_FIELDS (n + 1)); [lia|].
  eapply (never_rejects_bind _ _ (eq (set_signature sig f))); [|by intros ? <-].
  do 2 rewrite (bool_decide_eq_false_2 (_ = _)) by done. rewrite (bool_decide_eq_true_2 (_ = _)) by done.
  eapply (never_rejects_bind _ _ (eq (hash_to_hex sig))).
  - eapply never_rejects_lift; [|done]. apply text_field_accepted; [done|by rewrite hex_len|apply hex_utf8].
  - intros ? <-. eapply (never_rejects_bind _ _ (eq sig)); [|intros ? <-; by apply never_rejects_ret].
    eapply never_rejects_lift; [|done]. by rewrite signature_decoded.
Qed.

Lemma collect_binary dir chunks parts n f Q :
  n + 1 <= MAX_MULTIPART_FIELDS -> lenZ (concat chunks) <= MAX_BINARY_FIELD_SIZE ->
  (forall b, sf_hash b = blake3 (concat chunks) -> never_rejects (collect dir parts (n + 1) (set_binary b f)) Q) ->
  never_rejects (collect dir (Part "binary" chunks false :: parts) n f) Q.
Proof.
  intros Hn Hl Hk. cbn [collect_fields]. destruct (Z.ltb_spec MAX_MULTIPART_FIELDS (n + 1)); [lia|].
  rewrite (bool_decide_eq_true_2 (_ = _)) by done.
  eapply (never_rejects_bind _ _ (fun f' => exists b, f' = set_binary b f /\ sf_hash b = blake3 (concat chunks)));
    [|intros ? (b & -> & Hb); by apply Hk].
  eapply never_rejects_bind; [by apply stream_field_accepted|]. intros b Hb. apply never_rejects_ret. eauto.
Qed.

Lemma collect_upload c request parts dir p :
  (forall b, hex_decode (hash_to_hex b) = Some b) -> acceptable p request ->
  delivered (up_form (version_upload c request)) parts ->
  never_rejects (collect dir parts 0 empty_form) (form_of request).
Proof.
  intros Hh Ha Hd. unfold delivered, version_upload in Hd. cbn [up_form] in Hd.
  apply Forall2_cons_inv_l in Hd as (? & l1 & (c1 & -> & H1) & Hd & ->).
  apply Forall2_cons_inv_l in Hd as (? & l2 & (c2 & -> & H2) & Hd & ->).
  apply Forall2_cons_inv_l in Hd as (? & l3 & (c3 & -> & H3) & Hd & ->).
  apply Forall2_cons_inv_l in Hd as (? & l4 & (c4 & -> & H4) & Hd & ->).
  apply Forall2_nil_inv_l in Hd as ->. cbn [ff_name ff_data text_field file_field] in *.
  destruct (ab_platform_text _ _ Ha) as [Hu Hl].
  eapply collect_text with (set := set_platform); [by left|done|exact H1|done..|].
  eapply collect_signature; [done|done|exact H2|by rewrite (ab_signature_len _ _ Ha)|].
  eapply collect_text with (set := set_checksum); [by right; left|done|exact H3|..];
    [unfold hex_encode; by rewrite hex_len, (ab_checksum_len _ _ Ha)|apply hex_utf8|].
  apply collect_binary; [done|rewrite H4; apply Ha|]. intros b Hb. apply never_rejects_ret. rewrite H4 in Hb.
  split; [by exists b|done].
Qed.

Lemma check_upload p request f b :
  acceptable p request -> form_of request f -> f_binary f = Some b ->
  exists pl, check_form verify_signature p (pq_version request) b f =
    Ok (pl, pq_signature request, hash_to_hex (pq_checksum request)).
Proof.
  intros Ha ((b' & Hb' & Hh) & Hp & Hs & Hc) Hb. rewrite Hb in Hb'. injection Hb' as <-.
  destruct (ab_platform _ _ Ha) as [pl Hpl]. exists pl. unfold check_form. rewrite Hp. cbn [ok_or mbind result_bind].
  rewrite Hpl. cbn [map_err mbind result_bind]. rewrite Hs. cbn [ok_or mbind result_bind].
  rewrite (bool_decide_eq_true_2 (lenZ _ = _)) by apply Ha. cbn [mbind result_bind]. rewrite Hc. cbn [ok_or mbind result_bind].
  rewrite hex_digits. rewrite (bool_decide_eq_true_2 (str_len _ = 64)) by (by rewrite hex_len, (ab_checksum_len _ _ Ha)).
  cbn [andb mbind result_bind]. rewrite Hh, <- (ab_checksum _ _ Ha), bool_decide_eq_true_2 by done. cbn [mbind result_bind].
  destruct (pubkey p) as [pk|] eqn:Hk; [|done]. by rewrite (ab_signature _ _ Ha pk Hk).
Qed.

Lemma store_accepted data_dir app version v b pl sig checksum notes :
  never_rejects (store_publication data_dir app version v b pl sig checksum notes) (fun r => pr_success r = true).
Proof.
  unfold store_publication. eapply never_rejects_bind; [apply never_rejects_io|]. intros [u|e] _;
    [|apply never_rejects_cleanup]. do 3 (eapply never_rejects_bind; [apply never_rejects_internal|intros _ _]).
  by apply never_rejects_ret.
Qed.

Lemma server_takes data_dir p c request parts :
  (forall b, hex_decode (hash_to_hex b) = Some b) -> acceptable p request ->
  delivered (up_form (version_upload c request)) parts ->
  never_rejects (Publish.publish_version blake3 verify_signature hex_decode base64_decode entropy data_dir
    (pq_app_name request) (pq_version request) p parts) (fun r => pr_success r = true).
Proof.
  intros Hh Ha Hd. destruct (ab_parsed _ _ Ha) as [v Hv]. unfold Publish.publish_version.
  rewrite (ab_name _ _ Ha), (ab_version _ _ Ha), Hv, (ab_scope _ _ Ha). cbn [map_err negb].
  do 2 (eapply (never_rejects_bind _ _ (fun _ => True)); [by eapply never_rejects_lift|intros _ _]).
  eapply (never_rejects_bind _ _ (eq v)); [by eapply never_rejects_lift|intros ? <-].
  eapply never_rejects_bind; [apply never_rejects_internal|intros dir _].
  eapply never_rejects_bind; [by eapply collect_upload|intros f Hf].
  pose proof Hf as [(b & Hb & _) _]. rewrite Hb.
  eapply (never_rejects_bind _ _ (eq b)); [by eapply never_rejects_lift|intros ? <-].
  destruct (check_upload p request f b Ha Hf Hb) as [pl ->]. apply store_accepted.
Qed.

(** The server does not turn down what the publisher sends: when the hash of
    the request is that of its binary, the signature verifies with the key the
    server knows, and names and sizes are within the rules, then the form the
    client builds, delivered in any chunks and whatever calls fail at the server,
    is stored and answered with success, or answered with a server error that the
    client retries; it is never rejected. *)
Theorem upload_never_rejected data_dir p c request parts :
  (forall b, hex_decode (hash_to_hex b) = Some b) -> acceptable p request ->
  delivered (up_form (version_upload c request)) parts ->
  never_rejects (Publish.publish_version blake3 verify_signature hex_decode base64_decode entropy data_dir
    (pq_app_name request) (pq_version request) p parts) (fun r => pr_success r = true).
Proof. apply server_takes. Qed.
End Accepted.

(** ** From a registration to the server *)

Section Pipeline.
Context {SO : SqlOrder} {SL : SqlOrderLaws SO} {SV : Semver} {VL : SemverLaws SV} {ET : ErrorTexts} {KC : KeyCrypto}.
Context {SC : Serde AppCatalog} {SM : Serde VersionManifest}.
Context (blake3 sha256 : bytes -> bytes).
Context {H : Type} (SH : StreamHasher H bytes) {HL : HasherLaw SH blake3}.
Context {H' : Type} (SH' : StreamHasher H' bytes) {HL' : HasherLaw SH' sha256}.
Context (ph : publisher_host) (rfc3339_now : system publisher_tables -> string).
Context (bsdiff_diff : bytes -> bytes -> result string bytes).
Context (zstd_encode_all : bytes -> Z -> result string bytes).
Context (ed25519_sign : bytes -> bytes -> bytes) (verify_signature : bytes -> bytes -> bytes -> bool).
Context (hex_decode base64_decode : string -> option bytes) (entropy : Z -> bytes * N).
Context (prompt : result io_error string).

(** What the server knows of the key that signs. *)
Definition key_known (p : Publisher) (key : bytes) : Prop :=
  (forall m, lenZ (ed25519_sign key m) = 64) /\
  forall pk m, pubkey p = Some pk -> verify_signature pk m (ed25519_sign key m) = true.

(** Part of [publisher_inv]. *)
Definition unique_ids (t : publisher_tables) : Prop :=
  NoDup (v_version_id <$> pt_versions t) /\ NoDup (b_binary_id <$> pt_binaries t).

(** The version a registration adds, after it was signed. *)
Lemma signed_release f t name version file platform key_file pass s1 s2 v binary v' sig data :
  registration blake3 sha256 f t name version file platform s1 -> unique_ids (disk (sy_db s1)) ->
  last (pt_versions (disk (sy_db s1))) = Some v ->
  sign_run rfc3339_now ed25519_sign prompt (Some (v_version_id v)) None None key_file pass s1 = (Ok tt, s2) ->
  release (files (sy_fs s2)) (disk (sy_db s2)) name version binary v' sig data -> v_version_id v' = v_version_id v ->
  fs_read f (resolve file) = Ok data ->
  exists key, loaded prompt (files (sy_fs s1)) key_file pass key /\
    sig = ed25519_sign key (signing_payload (blake3 data) version) /\ v_file_hash_blake3 v' = blake3 data /\
    b_platform binary = platform.
Proof.
  intros (Ht & d & v0 & b & sv & pl & Hf & Hg & Hvs & Hb & Hvb & Hbn & Hbp & _) I Hl Hs Hr Hid Hd.
  rewrite Hd in Hf. injection Hf as <-. rewrite Hvs, last_snoc in Hl. injection Hl as ->.
  pose proof (sign_run_ends rfc3339_now ed25519_sign prompt (Some (v_version_id v)) None None key_file pass _ _ s1
    (conj eq_refl (conj Ht eq_refl))) as Hsr. rewrite Hs in Hsr.
  destruct Hsr as (v1 & key & ts & [Hv1 Hv1id] & Hk & (_ & _ & Hd2)).
  assert (Hin : v ∈ pt_versions (disk (sy_db s1))) by (rewrite Hvs; apply elem_of_app; right; by left).
  assert (v1 = v) as -> by (by eapply (NoDup_key_eq v_version_id); [apply I|..]).
  exists key. split; [done|]. pose proof (rl_version _ _ _ _ _ _ _ _ Hr) as Hv'. rewrite Hd2 in Hv'. cbn [pt_versions with_versions signed_tables] in Hv'.
  apply elem_of_update_rows in Hv' as (v2 & Hv2 & Hv'). assert (Hv2id : v_version_id v2 = v_version_id v).
  { rewrite <- Hid, Hv'. by case_match. }
  assert (v2 = v) as -> by (by eapply (NoDup_key_eq v_version_id); [apply I|..]).
  unfold has_version_id in Hv'. rewrite bool_decide_eq_true_2 in Hv' by done.
  pose proof (rl_signature _ _ _ _ _ _ _ _ Hr) as Hsig. rewrite Hv' in Hsig |- *. injection Hsig as <-. cbn.
  rewrite (rg_blake3 _ _ _ _ _ _ Hg), (rg_string _ _ _ _ _ _ Hg). split; [done|]. split; [done|].
  pose proof (rl_binary _ _ _ _ _ _ _ _ Hr) as Hbin. rewrite Hd2 in Hbin. cbn in Hbin.
  rewrite <- Hbp. f_equal. eapply (NoDup_key_eq b_binary_id); [apply I|done..|].
  pose proof (rl_of_binary _ _ _ _ _ _ _ _ Hr) as Hob. rewrite Hv' in Hob. cbn in Hob. congruence.
Qed.

(** C15: From a file to an accepted release: when a file was registered and the new
    version signed, both with success, and the file was not changed since, then
    whatever [publish] uploads for that version is, delivered in any chunks, stored
    or answered with a server error, and never rejected: hash, signature, platform
    and version pass all checks.  The server must know the key of the publisher for
    this application, allow its name and version string, and the file must be
    within the 512 MB of an upload: [register] checks neither name nor size. *)
Theorem registered_signed_accepted name version file platform description no_diff key_file pass s s1 s2 v binary v' sig data
    p c parts data_dir :
  tx (sy_db s) = None ->
  register_run (SH := SH) SH' ph bsdiff_diff zstd_encode_all blake3 name version file platform description no_diff s = (Ok tt, s1) ->
  unique_ids (disk (sy_db s1)) -> last (pt_versions (disk (sy_db s1))) = Some v ->
  sign_run rfc3339_now ed25519_sign prompt (Some (v_version_id v)) None None key_file pass s1 = (Ok tt, s2) ->
  release (files (sy_fs s2)) (disk (sy_db s2)) name version binary v' sig data -> v_version_id v' = v_version_id v ->
  fs_read (files (sy_fs s)) (resolve file) = Ok data ->
  (forall key, loaded prompt (files (sy_fs s1)) key_file pass key -> key_known p key) ->
  (forall d, lenZ (blake3 d) = 32) -> (forall b, hex_decode (hash_to_hex b) = Some b) ->
  validate_name name = Ok tt -> validate_version version = Ok tt -> can_publish p name = true ->
  is_utf8 platform -> str_len platform <= MAX_TEXT_FIELD_SIZE -> lenZ data <= MAX_BINARY_FIELD_SIZE ->
  delivered (up_form (version_upload c (publish_request name version binary v' data sig))) parts ->
  never_rejects (Publish.publish_version blake3 verify_signature hex_decode base64_decode entropy data_dir name version p parts)
    (fun r => pr_success r = true).
Proof.
  intros Ht Hreg I Hl Hs Hr Hid Hf Hk Hb32 Hhex Hname Hver Hscope Hu Hlen Hdata Hd.
  pose proof (register_run_ends ph bsdiff_diff zstd_encode_all blake3 SH' sha256 _ _ name version file platform description
    no_diff s (conj eq_refl (conj Ht eq_refl))) as Hg. rewrite Hreg in Hg.
  destruct (signed_release _ _ name version file platform key_file pass s1 s2 v binary v' sig data Hg I Hl Hs Hr Hid Hf)
    as (key & Hkey & -> & Hh & Hp).
  destruct Hg as (_ & _ & _ & _ & sv & pl & _ & _ & _ & _ & _ & _ & _ & Hsv & Hpl).
  destruct (Hk key Hkey) as [Hsl Hsig].
  set (request := publish_request name version binary v' data _) in *.
  apply (server_takes blake3 verify_signature hex_decode base64_decode entropy data_dir p c request parts Hhex); [|done].
  split; cbn [request publish_request pq_app_name pq_version pq_platform pq_binary_data pq_checksum pq_signature];
    rewrite ?Hh, ?Hp; try done.
  - exists sv. unfold version_from_str. by rewrite Hsv.
  - by exists pl.
  - intros pk Hpk. by apply Hsig.
Qed.
End Pipeline.
