(* ===== verification/Verify.v ===== *)
(** * Verify: checking registered versions ([deltaship-publisher/src/commands/verify.rs])

    The command that compares the files of registered versions with their rows
    and their signatures, and updates the rows with [--fix].  Times are in
    nanoseconds; the size of a file is kept as a number, where the command prints
    it; what is printed is the result. *)

From S2P Require Import Prelude Text Version Core Validation Fs Crypto DbModels Sql System PublisherDb PublisherDbFacts Archive Project.
From S2P Require Import Programs.

#[local] Open Scope Z_scope.
#[local] Open Scope sys_scope.

Record VersionVerifyResult := {
  vr_version_id : string;
  vr_version_string : string;
  vr_binary_name : string;
  vr_platform : string;
  vr_file_exists : bool;
  vr_file_size : option Z;
  vr_blake3_matches : option bool;
  vr_sha256_matches : option bool;
  vr_is_signed : bool;
  vr_signature_valid : option bool;
  vr_signature_timestamp : option string;
  vr_timestamp_reasonable : option bool;
  vr_passed : bool;
  vr_warnings : list string;
  vr_errors : list string;
}.

Record VerifySummary := { su_total : Z; su_passed : Z; su_failed : Z; su_warnings : Z }.

(** The result under construction. *)
Definition start_result (version : DbVersion) (binary_name platform : string) : VersionVerifyResult := {|
  vr_version_id := v_version_id version; vr_version_string := v_version_string version;
  vr_binary_name := binary_name; vr_platform := platform; vr_file_exists := false; vr_file_size := None;
  vr_blake3_matches := None; vr_sha256_matches := None; vr_is_signed := bool_decide (is_Some (v_signature_ed25519 version));
  vr_signature_valid := None; vr_signature_timestamp := v_signature_timestamp version; vr_timestamp_reasonable := None;
  vr_passed := true; vr_warnings := []; vr_errors := [] |}.

Definition found_file (size : Z) (r : VersionVerifyResult) : VersionVerifyResult := {|
  vr_version_id := vr_version_id r; vr_version_string := vr_version_string r;
  vr_binary_name := vr_binary_name r; vr_platform := vr_platform r; vr_file_exists := true; vr_file_size := Some size;
  vr_blake3_matches := vr_blake3_matches r; vr_sha256_matches := vr_sha256_matches r; vr_is_signed := vr_is_signed r;
  vr_signature_valid := vr_signature_valid r; vr_signature_timestamp := vr_signature_timestamp r;
  vr_timestamp_reasonable := vr_timestamp_reasonable r; vr_passed := vr_passed r; vr_warnings := vr_warnings r;
  vr_errors := vr_errors r |}.

(** The answers that checks set. *)
Inductive check := Blake3Check | Sha256Check | SignatureCheck | TimestampCheck.
Definition set_check (c : check) (b : bool) (r : VersionVerifyResult) : VersionVerifyResult := {|
  vr_version_id := vr_version_id r; vr_version_string := vr_version_string r;
  vr_binary_name := vr_binary_name r; vr_platform := vr_platform r; vr_file_exists := vr_file_exists r;
  vr_file_size := vr_file_size r;
  vr_blake3_matches := match c with Blake3Check => Some b | _ => vr_blake3_matches r end;
  vr_sha256_matches := match c with Sha256Check => Some b | _ => vr_sha256_matches r end;
  vr_is_signed := vr_is_signed r;
  vr_signature_valid := match c with SignatureCheck => Some b | _ => vr_signature_valid r end;
  vr_signature_timestamp := vr_signature_timestamp r;
  vr_timestamp_reasonable := match c with TimestampCheck => Some b | _ => vr_timestamp_reasonable r end;
  vr_passed := vr_passed r; vr_warnings := vr_warnings r; vr_errors := vr_errors r |}.

Definition warn (text : string) (r : VersionVerifyResult) : VersionVerifyResult := {|
  vr_version_id := vr_version_id r; vr_version_string := vr_version_string r;
  vr_binary_name := vr_binary_name r; vr_platform := vr_platform r; vr_file_exists := vr_file_exists r;
  vr_file_size := vr_file_size r; vr_blake3_matches := vr_blake3_matches r; vr_sha256_matches := vr_sha256_matches r;
  vr_is_signed := vr_is_signed r; vr_signature_valid := vr_signature_valid r;
  vr_signature_timestamp := vr_signature_timestamp r; vr_timestamp_reasonable := vr_timestamp_reasonable r;
  vr_passed := vr_passed r; vr_warnings := vr_warnings r ++ [text]; vr_errors := vr_errors r |}.

(** An error: the version has not passed. *)
Definition flunk (text : string) (r : VersionVerifyResult) : VersionVerifyResult := {|
  vr_version_id := vr_version_id r; vr_version_string := vr_version_string r;
  vr_binary_name := vr_binary_name r; vr_platform := vr_platform r; vr_file_exists := vr_file_exists r;
  vr_file_size := vr_file_size r; vr_blake3_matches := vr_blake3_matches r; vr_sha256_matches := vr_sha256_matches r;
  vr_is_signed := vr_is_signed r; vr_signature_valid := vr_signature_valid r;
  vr_signature_timestamp := vr_signature_timestamp r; vr_timestamp_reasonable := vr_timestamp_reasonable r;
  vr_passed := false; vr_warnings := vr_warnings r; vr_errors := vr_errors r ++ [text] |}.

(** [try_into] a fixed-size array. *)
Definition array_of (n : Z) (b : bytes) : option bytes := if bool_decide (lenZ b = n) then Some b else None.

(** [hex_decode]: pairs of digits; slicing inside a character panics. *)
Fixpoint hex_pairs (l : list ascii) : outcome (result string bytes) :=
  match l with
  | [] => Val (Ok [])
  | c :: d :: l' =>
      if is_continuation c || match l' with e :: _ => is_continuation e | [] => false end then Panic
      else match u8_from_str_radix16 [c; d] with
           | None => Val (Err "invalid digit found in string")
           | Some z => match hex_pairs l' with
                       | Val (Ok b) => Val (Ok (byte_of_Z z :: b))
                       | r => r
                       end
           end
  | [_] => Val (Ok [])
  end.

Definition hex_decode (s : string) : outcome (result string bytes) :=
  if negb (str_len s mod 2 =? 0) then Val (Err "Invalid hex string length") else hex_pairs (chars s).

Definition HOUR : Z := 3600 * 1000000000.
Definition DAY : Z := 24 * HOUR.

Section Verify.
Context {SO : SqlOrder}.
Context (blake3 sha256 : bytes -> bytes).
Context (valid_key : bytes -> bool) (verify_signature : bytes -> bytes -> bytes -> bool).
Context (parse_from_rfc3339 : string -> option Z) (utc_now : system publisher_tables -> Z).
Context (stdin : result io_error string).

(** Check 2 and 3: a hash that is wrong is an error, or the reason to update the row. *)
Definition check_blake3 (version : DbVersion) (data : bytes) (size : Z) (fix_ : bool) (r : VersionVerifyResult)
    : psys VersionVerifyResult :=
  stored ←! of_result (ok_or (PMsg "Invalid stored Blake3 hash length") (array_of 32 (v_file_hash_blake3 version)));
  if bool_decide (blake3 data = stored) then sret (set_check Blake3Check true r)
  else if fix_ then
    pdb (update_version_hashes (v_version_id version) (blake3 data) (sha256 data) (as_i64 size)) ;;!
    sret (warn "Blake3 hash mismatch - FIXED" (set_check Blake3Check false r))
  else sret (flunk "Blake3 hash mismatch" (set_check Blake3Check false r)).

Definition check_sha256 (version : DbVersion) (data : bytes) (size : Z) (fix_ : bool) (r : VersionVerifyResult)
    : psys VersionVerifyResult :=
  stored ←! of_result (ok_or (PMsg "Invalid stored SHA256 hash length") (array_of 32 (v_file_hash_sha256 version)));
  if bool_decide (sha256 data = stored) then sret (set_check Sha256Check true r)
  else if fix_ then
    (if bool_decide (vr_blake3_matches r = Some true) then
       pdb (update_version_hashes (v_version_id version) (v_file_hash_blake3 version) (sha256 data) (as_i64 size))
     else sret tt) ;;!
    sret (warn "SHA256 hash mismatch - FIXED" (set_check Sha256Check false r))
  else sret (flunk "SHA256 hash mismatch" (set_check Sha256Check false r)).

(** Check 4: the signature of what the file holds. *)
Definition check_signature (version : DbVersion) (data : bytes) (public_key : option bytes) (r : VersionVerifyResult)
    : psys VersionVerifyResult :=
  match v_signature_ed25519 version, public_key with
  | None, _ => sret (warn "Not signed" r)
  | Some _, None => sret (warn "Cannot verify signature: no public key configured" r)
  | Some sig_bytes, Some pk =>
      let message := signing_payload (blake3 data) (v_version_string version) in
      signature ←! of_result (ok_or (PMsg "Invalid signature length") (array_of 64 sig_bytes));
      if verify_signature pk message signature then sret (set_check SignatureCheck true r)
      else sret (flunk "Signature verification failed" (set_check SignatureCheck false r))
  end.

(** Check 5. *)
Definition check_timestamp (version : DbVersion) (r : VersionVerifyResult) : psys VersionVerifyResult :=
  match v_signature_timestamp version with
  | None => sret r
  | Some timestamp_str =>
      match parse_from_rfc3339 timestamp_str with
      | None => sret (warn "Invalid signature timestamp format" (set_check TimestampCheck false r))
      | Some timestamp =>
          now ←! observe utc_now;
          if now + HOUR <? timestamp then
            sret (flunk "Signature timestamp is in the future" (set_check TimestampCheck false r))
          else if timestamp <? now - 3650 * DAY then
            sret (warn "Signature timestamp is very old (>10 years)" (set_check TimestampCheck false r))
          else sret (set_check TimestampCheck true r)
      end
  end.

Definition verify_version (version : DbVersion) (binary_name platform : string) (public_key : option bytes) (fix_ : bool)
    : psys VersionVerifyResult :=
  let result := start_result version binary_name platform in
  present ←! look (exists_ (v_file_path version));
  if negb present then sret (flunk ("Binary file not found: " +:+ v_file_path version) result)
  else
    file_size ←! pio (file_len (v_file_path version));
    file_data ←! pio (read (v_file_path version));
    r ←! check_blake3 version file_data file_size fix_ (found_file file_size result);
    r ←! check_sha256 version file_data file_size fix_ r;
    r ←! check_signature version file_data public_key r;
    check_timestamp version r.

Definition load_public_key : psys (option bytes) :=
  stored ←! pdb (p_get_config (as_db_key PublicKey));
  match stored with
  | None => sret None
  | Some pk_hex =>
      if str_is_empty pk_hex then sret None
      else match hex_decode pk_hex with
           | Panic => sfail PPanic
           | Val (Err e) => sfail (PMsg e)
           | Val (Ok pk_bytes) =>
               pk ←! of_result (ok_or (PMsg "Invalid public key length") (array_of 32 pk_bytes));
               if valid_key pk then sret (Some pk) else sfail (PCrypto InvalidVerifyingKey)
           end
  end.

(** The versions of the matching binaries, or the one that was asked for. *)
Fixpoint versions_to_verify (binaries : list DbBinary) (version : option string) (found : list (DbVersion * string * string))
    : psys (list (DbVersion * string * string)) :=
  match binaries with
  | [] => sret found
  | binary :: binaries =>
      versions ←! pdb (list_versions (b_binary_id binary));
      let wanted := match version with
                    | Some ver_filter => List.filter (fun v => bool_decide (v_version_string v = ver_filter)) versions
                    | None => versions
                    end in
      versions_to_verify binaries version
        (found ++ ((fun v => (v, b_binary_name binary, b_platform binary)) <$> wanted))
  end.

Fixpoint verify_each (versions : list (DbVersion * string * string)) (public_key : option bytes) (fix_ : bool)
    (results : list VersionVerifyResult) : psys (list VersionVerifyResult) :=
  match versions with
  | [] => sret results
  | (v, binary_name, platform) :: versions =>
      result ←! verify_version v binary_name platform public_key fix_;
      verify_each versions public_key fix_ (results ++ [result])
  end.

Definition summarize (results : list VersionVerifyResult) : VerifySummary := {|
  su_total := lenZ results;
  su_passed := lenZ (List.filter (fun r => vr_passed r && bool_decide (length (vr_warnings r) = 0%nat)) results);
  su_failed := lenZ (List.filter (fun r => negb (vr_passed r)) results);
  su_warnings := lenZ (List.filter (fun r => vr_passed r && negb (bool_decide (length (vr_warnings r) = 0%nat))) results) |}.

Definition verify_run (name : string) (version : option string) (fix_ json : bool)
    : psys (list VersionVerifyResult * VerifySummary) :=
  present ←! look (exists_ DB_FILE);
  if negb present then sfail (PMsg not_initialized)
  else
    open_db ;;!
    confirmed ←! (if fix_ && negb json then
                    line ←! of_result (map_err PIo stdin);
                    sret (bool_decide (trim line = "YES"))
                  else sret true);
    if negb confirmed then sfail (PMsg "Fix operation cancelled. No changes were made.")
    else
      binaries ←! pdb p_list_binaries;
      let matching := List.filter (fun b => bool_decide (b_binary_name b = name)) binaries in
      if bool_decide (length matching = 0%nat) then sfail (PMsg ("No binary found with name '" +:+ name +:+ "'"))
      else
        public_key ←! load_public_key;
        versions ←! versions_to_verify matching version [];
        if bool_decide (length versions = 0%nat) then
          sfail (PMsg match version with
                      | Some ver => "Version " +:+ ver +:+ " not found for binary '" +:+ name +:+ "'"
                      | None => "No versions found for binary '" +:+ name +:+ "'"
                      end)
        else
          results ←! verify_each versions public_key fix_ [];
          let summary := summarize results in
          if 0 <? su_failed summary then sfail (PMsg (pretty (su_failed summary) +:+ " verification(s) failed"))
          else sret (results, summary).
End Verify.

(** * What a verification guarantees *)

Section Facts.
Context {SO : SqlOrder} {SL : SqlOrderLaws SO}.
Context (blake3 sha256 : bytes -> bytes).
Context (valid_key : bytes -> bool) (verify_signature : bytes -> bytes -> bytes -> bool).
Context (parse_from_rfc3339 : string -> option Z) (utc_now : system publisher_tables -> Z).
Context (stdin : result io_error string).

(** The file of the version is what its row says, and what was signed. *)
Definition authentic (f : fs) (public_key : option bytes) (v : DbVersion) : Prop :=
  exists data, fs_read f (resolve (v_file_path v)) = Ok data /\ blake3 data = v_file_hash_blake3 v /\
    sha256 data = v_file_hash_sha256 v /\
    forall sig pk, v_signature_ed25519 v = Some sig -> public_key = Some pk ->
      verify_signature pk (signing_payload (blake3 data) (v_version_string v)) sig = true.

Lemma array_of_Some n b a : array_of n b = Some a -> a = b /\ lenZ b = n.
Proof. unfold array_of. case_bool_decide; [|done]. by intros [= <-]. Qed.

(** A check passes only what passed before, and what it checks. *)
Lemma looks_check_blake3 f t v data size r :
  looks f t (check_blake3 blake3 sha256 v data size false r)
    (fun r' => vr_passed r' = true -> vr_passed r = true /\ blake3 data = v_file_hash_blake3 v).
Proof.
  unfold check_blake3. eapply looks_bind; [apply looks_result|]. intros a [-> _]%ok_or_Ok%array_of_Some.
  case_bool_decide; by apply looks_ret.
Qed.

Lemma looks_check_sha256 f t v data size r :
  looks f t (check_sha256 sha256 v data size false r)
    (fun r' => vr_passed r' = true -> vr_passed r = true /\ sha256 data = v_file_hash_sha256 v).
Proof.
  unfold check_sha256. eapply looks_bind; [apply looks_result|]. intros a [-> _]%ok_or_Ok%array_of_Some.
  case_bool_decide; by apply looks_ret.
Qed.

Lemma looks_check_signature f t v data pk r :
  looks f t (check_signature blake3 verify_signature v data pk r)
    (fun r' => vr_passed r' = true -> vr_passed r = true /\
       forall sig k, v_signature_ed25519 v = Some sig -> pk = Some k ->
         verify_signature k (signing_payload (blake3 data) (v_version_string v)) sig = true).
Proof.
  unfold check_signature. destruct (v_signature_ed25519 v) as [sig|]; [|by apply looks_ret].
  destruct pk as [k|]; [|by apply looks_ret]. cbn zeta. eapply looks_bind; [apply looks_result|].
  intros a [-> _]%ok_or_Ok%array_of_Some. destruct (verify_signature _ _ _) eqn:E; apply looks_ret; [|done].
  intros Hr. split; [done|]. by intros ? ? [= <-] [= <-].
Qed.

Lemma looks_check_timestamp f t v r :
  looks f t (check_timestamp parse_from_rfc3339 utc_now v r) (fun r' => vr_passed r' = true -> vr_passed r = true).
Proof.
  unfold check_timestamp. destruct (v_signature_timestamp v) as [ts|]; [|by apply looks_ret].
  destruct (parse_from_rfc3339 ts) as [z|]; [|by apply looks_ret]. eapply looks_bind; [apply looks_observe|].
  intros now _. repeat case_match; by apply looks_ret.
Qed.

Lemma looks_verify_version f t v name platform pk :
  looks f t (verify_version blake3 sha256 verify_signature parse_from_rfc3339 utc_now v name platform pk false)
    (fun r => vr_passed r = true -> authentic f pk v).
Proof.
  unfold verify_version. cbn zeta. looks_step. looks_step; [by apply looks_ret|].
  eapply looks_bind; [eapply looks_of_io, reads_io_map, reads_file_len|]. intros size _.
  eapply looks_bind; [apply looks_read|]. intros data Hd.
  eapply looks_bind; [apply looks_check_blake3|]. intros r1 H1.
  eapply looks_bind; [apply looks_check_sha256|]. intros r2 H2.
  eapply looks_bind; [apply looks_check_signature|]. intros r3 H3.
  eapply looks_weaken; [apply looks_check_timestamp|]. intros r4 H4 Hp.
  destruct (H3 (H4 Hp)) as [Hp3 Hs]. destruct (H2 Hp3) as [Hp2 Hh2]. destruct (H1 Hp2) as [_ Hh1]. by exists data.
Qed.

Lemma looks_verify_each f t versions pk results :
  looks f t (verify_each blake3 sha256 verify_signature parse_from_rfc3339 utc_now versions pk false results)
    (fun l => Forall (fun r => vr_passed r = true) l ->
       Forall (fun r => vr_passed r = true) results /\ Forall (fun x => authentic f pk x.1.1) versions).
Proof.
  revert results. induction versions as [|[[v name] platform] versions IH]; intros results; cbn [verify_each];
    [by apply looks_ret|].
  eapply looks_bind; [apply looks_verify_version|]. intros r Hr. eapply looks_weaken; [apply IH|]. intros l Hl Hp.
  destruct (Hl Hp) as [H1 H2]. apply Forall_app in H1 as [H1 H3]. rewrite Forall_singleton in H3. split; [done|]. apply Forall_cons. split; [apply Hr, H3|exact H2].
Qed.

Lemma looks_versions f t binaries version found :
  looks f t (versions_to_verify binaries version found)
    (fun l => (forall x, x ∈ found -> x ∈ l) /\ forall b v, b ∈ binaries -> v ∈ pt_versions t -> v_binary_id v = b_binary_id b ->
       (forall w, version = Some w -> v_version_string v = w) -> (v, b_binary_name b, b_platform b) ∈ l).
Proof.
  revert found. induction binaries as [|b binaries IH]; intros found; cbn [versions_to_verify].
  - apply looks_ret. split; [done|]. intros b v H. by apply elem_of_nil in H.
  - eapply looks_bind; [apply looks_query|]. intros vs [= <-]. cbn zeta. eapply looks_weaken; [apply IH|].
    intros l [Hf Hl]. split; [intros x Hx; apply Hf, elem_of_app; by left|].
    intros b' v Hb Hv Hvb Hw. apply elem_of_cons in Hb as [->|Hb]; [|by apply Hl].
    apply Hf, elem_of_app. right. apply list_elem_of_fmap. exists v. split; [done|].
    assert (Hin : v ∈ versions_desc (b_binary_id b) t).
    { unfold versions_desc. rewrite order_by_perm, list_elem_of_In, filter_In, <- list_elem_of_In, bool_decide_eq_true. done. }
    destruct version as [w|]; [|done]. rewrite list_elem_of_In, filter_In, <- list_elem_of_In, bool_decide_eq_true. auto.
Qed.

(** The public key the configuration names. *)
Definition configured_key (t : publisher_tables) (pk : option bytes) : Prop :=
  match fst ∘ fst <$> pt_config t !! as_db_key PublicKey with
  | None | Some EmptyString => pk = None
  | Some text => exists k, pk = Some k /\ hex_decode text = Val (Ok k) /\ lenZ k = 32 /\ valid_key k = true
  end.

Lemma looks_public_key f t : looks f t (load_public_key valid_key) (configured_key t).
Proof.
  unfold load_public_key. eapply looks_bind; [apply looks_query|]. intros stored [= Hs]. unfold configured_key. cbn in Hs |- *.
  destruct (pt_config t !! CONFIG_PUBLIC_KEY) as [[[text secret] now]|]; cbn in Hs |- *; subst stored; [|by apply looks_ret].
  unfold str_is_empty. case_bool_decide as Ht; [subst; by apply looks_ret|].
  destruct (hex_decode text) as [[b|e]|] eqn:Hh; [|apply looks_fail..].
  eapply looks_bind; [apply looks_result|]. intros k [-> Hk]%ok_or_Ok%array_of_Some.
  destruct (valid_key b) eqn:Hv; [|apply looks_fail]. apply looks_ret. destruct text; [done|]. exists b. done.
Qed.

Lemma none_failed results : (0 <? su_failed (summarize results)) = false -> Forall (fun r => vr_passed r = true) results.
Proof.
  unfold summarize. cbn [su_failed]. intros H%Z.ltb_ge. apply Forall_forall. intros r Hr.
  destruct (vr_passed r) eqn:E; [done|]. exfalso.
  assert (Hin : r ∈ List.filter (fun r => negb (vr_passed r)) results)
    by (rewrite list_elem_of_In, filter_In, <- list_elem_of_In, E; done).
  apply list_elem_of_split in Hin as (l1 & l2 & Hl). rewrite Hl in H. rewrite lenZ_app in H.
  pose proof (lenZ_nonneg l1). pose proof (lenZ_nonneg l2). unfold lenZ in *. cbn in *. lia.
Qed.

(** C19: A passed verification is no empty word: when [verify] without [--fix]
    reports success, every version of every binary of that name, or the one that
    was asked for, has a file with both recorded hashes, and when it is signed and
    a public key is configured, the signature is one of that file and version.
    Whatever happens, the command changes neither files nor rows. *)
Theorem verified_means_authentic name version json s :
  tx (sy_db s) = None ->
  let '(r, s') := verify_run blake3 sha256 valid_key verify_signature parse_from_rfc3339 utc_now stdin name version false json s in
  files (sy_fs s') = files (sy_fs s) /\ disk (sy_db s') = disk (sy_db s) /\
  forall a, r = Ok a -> exists pk, configured_key (disk (sy_db s)) pk /\
    forall b v, b ∈ pt_binaries (disk (sy_db s)) -> b_binary_name b = name ->
      v ∈ pt_versions (disk (sy_db s)) -> v_binary_id v = b_binary_id b ->
      (forall w, version = Some w -> v_version_string v = w) -> authentic (files (sy_fs s)) pk v.
Proof.
  intros Ht. set (f := files (sy_fs s)). set (t := disk (sy_db s)).
  assert (Hl : looks f t (verify_run blake3 sha256 valid_key verify_signature parse_from_rfc3339 utc_now stdin name version false json)
    (fun _ => exists pk, configured_key t pk /\ forall b v, b ∈ pt_binaries t -> b_binary_name b = name ->
      v ∈ pt_versions t -> v_binary_id v = b_binary_id b ->
      (forall w, version = Some w -> v_version_string v = w) -> authentic f pk v)).
  { clearbody f t. unfold verify_run. cbn [andb]. looks_step. looks_step; [apply looks_fail|]. looks_step.
    eapply looks_bind; [apply (looks_ret _ _ true (eq true)); done|]. intros ? <-. cbn [negb].
    eapply looks_bind; [apply looks_query|]. intros bs [= <-]. cbn zeta. case_bool_decide; [apply looks_fail|].
    eapply looks_bind; [apply looks_public_key|]. intros pk Hpk.
    eapply looks_bind; [apply looks_versions|]. intros vs [_ Hvs]. case_bool_decide; [apply looks_fail|].
    eapply looks_bind; [apply looks_verify_each|]. intros results Hr. destruct (0 <? _) eqn:Hn; [apply looks_fail|].
    apply none_failed in Hn. destruct (Hr Hn) as [_ Ha]. rewrite Forall_forall in Ha. apply looks_ret. exists pk.
    split; [done|]. intros b v Hb Hbn Hv Hvb Hw. apply (Ha (v, b_binary_name b, b_platform b)). apply Hvs; [|done..].
    rewrite list_elem_of_In, filter_In, <- list_elem_of_In, bool_decide_eq_true, order_by_perm. done. }
  specialize (Hl s (conj eq_refl (conj Ht eq_refl))). destruct (verify_run _ _ _ _ _ _ _ _ _ _ _ s) as [[a|e] s'].
  - destruct Hl as [(? & _ & ?) Hl]. split_and!; [done..|]. by intros _ _.
  - destruct Hl as (? & _ & ?). split_and!; [done..|]. by intros ? [=].
Qed.
End Facts.
