(* ===== verification/Cleanup.v ===== *)
(** * Cleanup: the cleanup and prune commands ([deltaship-publisher/src/commands/cleanup.rs])

    What is printed is left out; the figures of the summaries are the results.
    A walk is taken before the first removal, where the program walks on while it
    removes files it has met. *)

From S2P Require Import Prelude Text Version Core Validation Fs DbModels Sql System PublisherDb Archive Walk Project.

#[local] Open Scope Z_scope.
#[local] Open Scope sys_scope.

Definition DEFAULT_DIFF_AGE_DAYS : Z := 90.

Record CleanupResult := {
  cr_orphaned_diffs : list (string * Z);
  cr_orphaned_binaries : list (string * Z);
  cr_failed_jobs_cleaned : Z;
  cr_total_space : Z;
}.
Definition empty_result : CleanupResult :=
  {| cr_orphaned_diffs := []; cr_orphaned_binaries := []; cr_failed_jobs_cleaned := 0; cr_total_space := 0 |}.

(** The totals of the prune command. *)
Record PruneTotals := { pn_versions_removed : Z; pn_space_recovered : Z; pn_diffs_removed : Z }.

Section Cleanup.
Context {SO : SqlOrder} {WD : WalkDir}.
Context (mode : profile).

(** [+=] on [u64]. *)
Definition add_u64 (a b : Z) : psys Z :=
  match arith mode 64 (a + b) with Val z => sret z | Panic => sfail PPanic end.

(** [fs::metadata(path).map(|m| m.len()).unwrap_or(0)]. *)
Definition size_or_zero (path : string) : psys Z :=
  r ←! pio_try (file_len path);
  sret match r with Ok n => n | Err _ => 0 end.

(** ** Orphans *)

Definition record_orphan (file_type path : string) (size : Z) (result : CleanupResult) : psys CleanupResult :=
  total ←! add_u64 (cr_total_space result) size;
  sret (if bool_decide (file_type = "diff") then
          {| cr_orphaned_diffs := cr_orphaned_diffs result ++ [(path, size)];
             cr_orphaned_binaries := cr_orphaned_binaries result;
             cr_failed_jobs_cleaned := cr_failed_jobs_cleaned result; cr_total_space := total |}
        else
          {| cr_orphaned_diffs := cr_orphaned_diffs result;
             cr_orphaned_binaries := cr_orphaned_binaries result ++ [(path, size)];
             cr_failed_jobs_cleaned := cr_failed_jobs_cleaned result; cr_total_space := total |}).

(** One entry of the walk. *)
Definition visit_entry (path : string) (known_paths : gset string) (dry_run : bool) (file_type : string)
    (result : CleanupResult) : psys CleanupResult :=
  file ←! look (is_file path);
  if negb file || bool_decide (path ∈ known_paths) then sret result
  else
    size ←! size_or_zero path;
    if dry_run then record_orphan file_type path size result
    else
      removed ←! pio_try (remove_file path);
      match removed with
      | Ok _ => record_orphan file_type path size result
      | Err _ => sret result
      end.

Fixpoint visit_entries (dir : string) (rels : list (list string)) (known_paths : gset string) (dry_run : bool)
    (file_type : string) (result : CleanupResult) : psys CleanupResult :=
  match rels with
  | [] => sret result
  | rel :: rels =>
      result ←! visit_entry (entry_path dir rel) known_paths dry_run file_type result;
      visit_entries dir rels known_paths dry_run file_type result
  end.

Definition walk_directory_for_orphans (dir : string) (known_paths : gset string) (result : CleanupResult) (dry_run : bool)
    (file_type : string) : psys CleanupResult :=
  there ←! look (exists_ dir);
  if negb there then sret result
  else
    rels ←! look (walk_dir dir);
    visit_entries dir rels known_paths dry_run file_type result.

Definition find_orphaned_diffs (result : CleanupResult) (dry_run : bool) : psys CleanupResult :=
  let diffs_dir := join DELTASHIP_DIR "diffs" in
  there ←! look (exists_ diffs_dir);
  if negb there then sret result
  else
    completed_jobs ←! pdb (list_diff_jobs_by_status Completed);
    let known_paths := list_to_set (omap j_diff_path completed_jobs) in
    walk_directory_for_orphans diffs_dir known_paths result dry_run "diff".

(** The paths of the versions of the binaries. *)
Fixpoint version_paths (binaries : list DbBinary) (known_paths : gset string) : psys (gset string) :=
  match binaries with
  | [] => sret known_paths
  | binary :: binaries =>
      versions ←! pdb (list_versions (b_binary_id binary));
      version_paths binaries (known_paths ∪ list_to_set (v_file_path <$> versions))
  end.

Definition find_orphaned_binaries (result : CleanupResult) (dry_run : bool) : psys CleanupResult :=
  let binaries_dir := join DELTASHIP_DIR "binaries" in
  there ←! look (exists_ binaries_dir);
  if negb there then sret result
  else
    binaries ←! pdb p_list_binaries;
    known_paths ←! version_paths binaries ∅;
    walk_directory_for_orphans binaries_dir known_paths result dry_run "binary".

(** ** Failed jobs *)

Definition count_job (result : CleanupResult) : CleanupResult :=
  {| cr_orphaned_diffs := cr_orphaned_diffs result; cr_orphaned_binaries := cr_orphaned_binaries result;
     cr_failed_jobs_cleaned := cr_failed_jobs_cleaned result + 1; cr_total_space := cr_total_space result |}.

Fixpoint clean_jobs (jobs : list DbDiffJob) (result : CleanupResult) (dry_run : bool) : psys CleanupResult :=
  match jobs with
  | [] => sret result
  | job :: jobs =>
      if dry_run then clean_jobs jobs (count_job result) dry_run
      else
        deleted ←! attempt (pdb (delete_diff_job (j_job_id job)));
        clean_jobs jobs (match deleted with Ok _ => count_job result | Err _ => result end) dry_run
  end.

Definition cleanup_failed_jobs (result : CleanupResult) (dry_run : bool) : psys CleanupResult :=
  failed_jobs ←! pdb (list_diff_jobs_by_status Failed);
  if bool_decide (length failed_jobs = 0%nat) then sret result
  else clean_jobs failed_jobs result dry_run.

Definition run_cleanup (dry_run : bool) (max_age_days : option Z) : psys CleanupResult :=
  present ←! look (exists_ DB_FILE);
  if negb present then sfail (PMsg not_initialized)
  else
    open_db ;;!
    let _max_age := default DEFAULT_DIFF_AGE_DAYS max_age_days in
    result ←! find_orphaned_diffs empty_result dry_run;
    result ←! find_orphaned_binaries result dry_run;
    cleanup_failed_jobs result dry_run.

(** ** Pruning *)

(** The file of a version, when files are to be deleted. *)
Definition prune_file (version : DbVersion) (file_size : Z) (dry_run : bool) (totals : PruneTotals) : psys PruneTotals :=
  there ←! look (exists_ (v_file_path version));
  if negb there || dry_run then sret totals
  else
    removed ←! pio_try (remove_file (v_file_path version));
    match removed with
    | Ok _ =>
        space ←! add_u64 (pn_space_recovered totals) file_size;
        sret {| pn_versions_removed := pn_versions_removed totals; pn_space_recovered := space;
                pn_diffs_removed := pn_diffs_removed totals |}
    | Err _ => sret totals
    end.

Definition prune_diff (diff_path : string) (dry_run : bool) (totals : PruneTotals) : psys PruneTotals :=
  there ←! look (exists_ diff_path);
  if negb there then sret totals
  else
    diff_size ←! size_or_zero diff_path;
    if dry_run then sret totals
    else
      removed ←! pio_try (remove_file diff_path);
      match removed with
      | Ok _ =>
          space ←! add_u64 (pn_space_recovered totals) diff_size;
          sret {| pn_versions_removed := pn_versions_removed totals; pn_space_recovered := space;
                  pn_diffs_removed := pn_diffs_removed totals + 1 |}
      | Err _ => sret totals
      end.

(** The diffs from or to the version. *)
Fixpoint prune_diffs (jobs : list DbDiffJob) (version_id : string) (dry_run : bool) (totals : PruneTotals) : psys PruneTotals :=
  match jobs with
  | [] => sret totals
  | job :: jobs =>
      totals ←! (if bool_decide (j_from_version_id job = version_id) || bool_decide (j_to_version_id job = version_id) then
                   match j_diff_path job with
                   | Some diff_path => prune_diff diff_path dry_run totals
                   | None => sret totals
                   end
                 else sret totals);
      prune_diffs jobs version_id dry_run totals
  end.

(** The records, errors of the database being only printed. *)
Definition delete_records (version_id : string) : psys unit :=
  attempt (pdb (delete_diff_jobs_for_version version_id)) ;;!
  attempt (pdb (delete_version version_id)) ;;!
  sret tt.

Definition prune_version (version : DbVersion) (delete_files dry_run : bool) (totals : PruneTotals) : psys PruneTotals :=
  let file_size := Z.max (v_file_size_bytes version) 0 in
  totals ←! (if delete_files then
               totals ←! prune_file version file_size dry_run totals;
               completed_jobs ←! pdb (list_diff_jobs_by_status Completed);
               prune_diffs completed_jobs (v_version_id version) dry_run totals
             else sret totals);
  (if dry_run then sret tt else delete_records (v_version_id version)) ;;!
  sret {| pn_versions_removed := pn_versions_removed totals + 1; pn_space_recovered := pn_space_recovered totals;
          pn_diffs_removed := pn_diffs_removed totals |}.

Fixpoint prune_versions (versions : list DbVersion) (delete_files dry_run : bool) (totals : PruneTotals) : psys PruneTotals :=
  match versions with
  | [] => sret totals
  | version :: versions =>
      totals ←! prune_version version delete_files dry_run totals;
      prune_versions versions delete_files dry_run totals
  end.

Fixpoint prune_binaries (binaries : list DbBinary) (keep : nat) (delete_files dry_run : bool) (totals : PruneTotals)
    : psys PruneTotals :=
  match binaries with
  | [] => sret totals
  | binary :: binaries =>
      versions ←! pdb (list_versions (b_binary_id binary));
      totals ←! (if (length versions <=? keep)%nat then sret totals
                 else prune_versions (drop keep versions) delete_files dry_run totals);
      prune_binaries binaries keep delete_files dry_run totals
  end.

Definition run_prune (name : string) (keep : nat) (delete_files dry_run : bool) : psys PruneTotals :=
  present ←! look (exists_ DB_FILE);
  if negb present then sfail (PMsg not_initialized)
  else if (keep =? 0)%nat then sfail (PMsg "Cannot keep 0 versions. Use at least --keep 1.")
  else
    open_db ;;!
    binaries ←! pdb p_list_binaries;
    let matching_binaries := List.filter (fun b => bool_decide (b_binary_name b = name)) binaries in
    if bool_decide (length matching_binaries = 0%nat) then sfail (PMsg ("No binary found with name '" +:+ name +:+ "'"))
    else prune_binaries matching_binaries keep delete_files dry_run
           {| pn_versions_removed := 0; pn_space_recovered := 0; pn_diffs_removed := 0 |}.
End Cleanup.
