(* ===== verification/CleanupFacts.v ===== *)
(** * CleanupFacts: what cleaning and pruning take away

    Dry runs change nothing, a cleanup removes only files the database does not
    name and failed jobs, and a prune keeps the newest versions. *)

From S2P Require Import Prelude Text Version Core Validation Fs DbModels Sql System PublisherDb PublisherDbFacts Archive ArchiveRoundtrip Walk Project Programs Cleanup.

#[local] Open Scope Z_scope.

Section Cleanup.
Context {SO : SqlOrder} {SL : SqlOrderLaws SO} {SV : Semver} {WD : WalkDir} {WL : WalkDirLaws WD}.
Context (mode : profile).

Lemma looks_add f t a b : looks f t (add_u64 mode a b) (fun _ => True).
Proof. unfold add_u64. case_match; [by apply looks_ret|apply looks_fail]. Qed.

Lemma looks_size f t p : looks f t (size_or_zero p) (fun _ => True).
Proof.
  unfold size_or_zero. eapply looks_bind; [eapply looks_of_io, reads_io_map, reads_file_len|]. intros r _. by apply looks_ret.
Qed.

Lemma looks_record f t ty p n r : looks f t (record_orphan mode ty p n r) (fun _ => True).
Proof. unfold record_orphan. eapply looks_bind; [apply looks_add|]. intros a _. by apply looks_ret. Qed.

(** ** Orphans *)

(** A position of the directory whose path is not known. *)
Definition unknown (dir : string) (known : string -> Prop) (p : list string) : Prop :=
  exists rel, p = resolve dir ++ rel /\ Forall plain rel /\ ~ known (entry_path dir rel).

Lemma roams_visit orphan f I dir rels known ty r :
  Forall (Forall plain) rels -> (forall p, unknown dir (fun x => x ∈ known) p -> orphan p) ->
  roams (drops orphan) f I (visit_entries mode dir rels known false ty r) (fun _ => True).
Proof.
  intros Hr Ho. revert r. induction Hr as [|rel rels Hrel Hrels IH]; intros r; cbn [visit_entries]; [by apply roams_ret|].
  eapply (roams_bind _ _ _ _ _ (fun _ => True)); [|intros r' _; apply IH]. unfold visit_entry.
  eapply roams_bind; [apply roams_looks; intros f' t' Ht'; apply looks_look, reads_is_file|]. intros file _.
  destruct (negb file); cbn [orb]; [by apply roams_ret|]. case_bool_decide as Hk; [by apply roams_ret|].
  eapply roams_bind; [apply roams_looks; intros f' t' Ht'; apply looks_size|]. intros size _.
  eapply roams_bind; [apply roams_io; [apply _|]|].
  - apply respects_io_map, respects_remove; [apply _|]. intros c. right. split; [|by eauto]. apply Ho. exists rel.
    by rewrite resolve_entry.
  - intros [u|e] _; [apply roams_looks; intros f' t' Ht'; apply looks_record|by apply roams_ret].
Qed.

Lemma roams_walk_orphans orphan f I dir known ty r :
  (forall p, unknown dir (fun x => x ∈ known) p -> orphan p) ->
  roams (drops orphan) f I (walk_directory_for_orphans mode dir known r false ty) (fun _ => True).
Proof.
  intros Ho. unfold walk_directory_for_orphans.
  eapply roams_bind; [apply roams_looks; intros f' t' Ht'; apply looks_look, reads_exists|]. intros there _.
  destruct there; cbn [negb]; [|by apply roams_ret].
  eapply roams_bind; [apply roams_looks; intros f' t' Ht'; apply looks_walk|]. intros rels Hr. by apply roams_visit.
Qed.

(** The files the tables name. *)
Definition diff_named (t : publisher_tables) (path : string) : Prop :=
  exists j, j ∈ pt_jobs t /\ j_status j = job_status_as_str Completed /\ j_diff_path j = Some path.
Definition version_named (t : publisher_tables) (path : string) : Prop :=
  exists b v, b ∈ pt_binaries t /\ v ∈ pt_versions t /\ v_binary_id v = b_binary_id b /\ v_file_path v = path.

Definition diffs_dir : string := join DELTASHIP_DIR "diffs".
Definition binaries_dir : string := join DELTASHIP_DIR "binaries".

(** What a cleanup may take. *)
Definition orphaned (t : publisher_tables) (p : list string) : Prop :=
  unknown diffs_dir (diff_named t) p \/ unknown binaries_dir (version_named t) p.

Lemma unknown_mono dir (k k' : string -> Prop) p : (forall x, k x -> k' x) -> unknown dir k' p -> unknown dir k p.
Proof. intros Hk (rel & Hp & Hr & Hn). exists rel. split_and!; auto. Qed.

Lemma roams_diffs f t r : roams (drops (orphaned t)) f (eq t) (find_orphaned_diffs mode r false) (fun _ => True).
Proof.
  unfold find_orphaned_diffs. eapply roams_bind; [apply roams_looks; intros f' t' Ht'; apply looks_look, reads_exists|].
  intros there _. destruct there; cbn [negb]; [|by apply roams_ret].
  eapply roams_bind; [apply roams_looks; intros f' t' Ht'; rewrite <- Ht'; apply looks_query|]. intros jobs [= <-].
  apply roams_walk_orphans. intros p Hp. left. eapply unknown_mono; [|exact Hp]. cbn beta. intros x (j & Hj & Hs & Hd).
  apply elem_of_list_to_set, list_elem_of_omap. exists j. split; [|done].
  rewrite order_by_perm, list_elem_of_In, filter_In, <- list_elem_of_In, bool_decide_eq_true. done.
Qed.

Lemma looks_version_paths f t bs known :
  looks f t (version_paths bs known) (fun k => known ⊆ k /\
    forall b v, b ∈ bs -> v ∈ pt_versions t -> v_binary_id v = b_binary_id b -> v_file_path v ∈ k).
Proof.
  revert known. induction bs as [|b bs IH]; intros known; cbn [version_paths].
  - apply looks_ret. split; [done|]. intros b v H. by apply elem_of_nil in H.
  - eapply looks_bind; [apply looks_query|]. intros vs [= <-]. eapply looks_weaken; [apply IH|].
    intros k [Hk Hv]. split; [set_solver|]. intros b' v [->|Hb]%elem_of_cons Hin He; [|by eapply Hv].
    apply Hk, elem_of_union. right. apply elem_of_list_to_set, list_elem_of_fmap. exists v. split; [done|].
    unfold versions_desc. rewrite order_by_perm, list_elem_of_In, filter_In, <- list_elem_of_In, bool_decide_eq_true. done.
Qed.

Lemma roams_binaries f t r : roams (drops (orphaned t)) f (eq t) (find_orphaned_binaries mode r false) (fun _ => True).
Proof.
  unfold find_orphaned_binaries. eapply roams_bind; [apply roams_looks; intros f' t' Ht'; apply looks_look, reads_exists|].
  intros there _. destruct there; cbn [negb]; [|by apply roams_ret].
  eapply roams_bind; [apply roams_looks; intros f' t' Ht'; rewrite <- Ht'; apply looks_query|]. intros bs [= <-].
  eapply roams_bind; [apply roams_looks; intros f' t' Ht'; rewrite <- Ht'; apply looks_version_paths|]. intros known [_ Hk].
  apply roams_walk_orphans. intros p Hp. right. eapply unknown_mono; [|exact Hp]. cbn beta. intros x (b & v & Hb & Hv & He & <-).
  eapply Hk; [|done|done]. by rewrite order_by_perm.
Qed.

(** ** The cleanup *)

(** Failed jobs may go, the rest of the tables stays. *)
Definition cleaned (t t' : publisher_tables) : Prop :=
  exists p, t' = with_jobs (List.filter p (pt_jobs t)) t /\
    forall j, j ∈ pt_jobs t -> p j = false -> j_status j = job_status_as_str Failed.

Lemma cleaned_delete t t' j :
  publisher_inv t -> j ∈ pt_jobs t -> j_status j = job_status_as_str Failed -> cleaned t t' ->
  cleaned t (with_jobs (delete_rows (is_job (j_job_id j)) (pt_jobs t')) t').
Proof.
  intros I Hj Hs (p & -> & Hp). exists (fun x => p x && negb (is_job (j_job_id j) x)). cbn. split.
  - unfold delete_rows. by rewrite filter_filter.
  - intros x Hx [H|H%negb_false_iff%bool_decide_eq_true]%andb_false_iff; [by apply Hp|].
    assert (x = j) as -> by (eapply (NoDup_key_eq j_job_id); [apply I|done..]). done.
Qed.

Lemma roams_clean_jobs R `{forall p, PreOrder (R p)} f t jobs r :
  publisher_inv t -> (forall j, j ∈ jobs -> j ∈ pt_jobs t /\ j_status j = job_status_as_str Failed) ->
  roams R f (cleaned t) (clean_jobs jobs r false) (fun _ => True).
Proof.
  intros I. revert r. induction jobs as [|j jobs IH]; intros r Hj; cbn [clean_jobs]; [by apply roams_ret|].
  eapply roams_bind; [eapply roams_attempt, roams_pdb; [apply exec_effect|]|intros d _; apply IH; set_solver].
  intros t1 a t2 Ht1 (n & [= _ <-]). destruct (Hj j); [by left|]. by apply cleaned_delete.
Qed.

Lemma roams_failed_jobs R `{forall p, PreOrder (R p)} f t r :
  publisher_inv t -> roams R f (cleaned t) (cleanup_failed_jobs r false) (fun _ => True).
Proof.
  intros I. unfold cleanup_failed_jobs.
  eapply (roams_bind _ _ _ _ _ (fun l => forall j, j ∈ l -> j ∈ pt_jobs t /\ j_status j = job_status_as_str Failed)).
  - apply roams_looks. intros f' t' (p & -> & Hp). eapply looks_weaken; [apply looks_query|]. intros l [= <-] j.
    rewrite order_by_perm, list_elem_of_In, filter_In, <- list_elem_of_In, bool_decide_eq_true. cbn.
    rewrite list_elem_of_In, filter_In, <- list_elem_of_In. naive_solver.
  - intros l Hl. case_bool_decide; [by apply roams_ret|]. by apply roams_clean_jobs.
Qed.

Lemma cleaned_refl t : cleaned t t.
Proof.
  exists (fun _ => true). split; [|done]. assert (List.filter (fun _ => true) (pt_jobs t) = pt_jobs t) as ->.
  { induction (pt_jobs t) as [|j l IH]; [done|]. cbn. by rewrite IH. }
  by destruct t.
Qed.

(** C25: A cleanup takes nothing that is in use: whatever calls fail, it removes
    only files below [.deltaship/diffs] that no completed job names and files
    below [.deltaship/binaries] that no version names, and from the tables only
    failed jobs. *)
Theorem cleanup_takes_only_orphans max_age s :
  tx (sy_db s) = None -> publisher_inv (disk (sy_db s)) ->
  let s' := (run_cleanup mode false max_age s).2 in
  (forall p, drops (orphaned (disk (sy_db s))) p (files (sy_fs s) !! p) (files (sy_fs s') !! p)) /\
  cleaned (disk (sy_db s)) (disk (sy_db s')).
Proof.
  intros Ht I. set (f := files (sy_fs s)). set (t := disk (sy_db s)).
  assert (Hc : forall t1, t = t1 -> cleaned t t1) by (intros ? <-; apply cleaned_refl).
  assert (H : ends (at_rest_upto (drops (orphaned t)) f (eq t)) (run_cleanup mode false max_age)
    (fun _ => at_rest_upto (drops (orphaned t)) f (cleaned t)) (fun _ => at_rest_upto (drops (orphaned t)) f (cleaned t))).
  { unfold run_cleanup. eapply roams_first; [apply roams_looks; intros f' t' _; apply looks_look, reads_exists|exact Hc|].
    intros present _. destruct present; cbn [negb]; [|intros s1 (H1 & H2 & H3); split_and!; auto].
    eapply roams_first; [apply roams_looks; intros f' t' _; apply looks_open|exact Hc|]. intros u _. cbn zeta.
    eapply roams_first; [apply roams_diffs|exact Hc|]. intros r _.
    eapply roams_first; [apply roams_binaries|exact Hc|]. intros r' _ s1 (H1 & H2 & H3).
    pose proof (roams_failed_jobs (drops (orphaned t)) f t r' I s1) as H.
    destruct (cleanup_failed_jobs r' false s1) as [[a|e] s2]; apply H; split_and!; auto. }
  specialize (H s). destruct (run_cleanup mode false max_age s) as [[a|e] s']; destruct H as (H1 & _ & H2); try done;
    (split_and!; [intros p; by left|done|done]).
Qed.
End Cleanup.

(** * Pruning *)

Section Prune.
Context {SO : SqlOrder} {SL : SqlOrderLaws SO} {SV : Semver}.
Context (mode : profile).

(** ** The tables while a prune runs *)

(** Of the versions of [bs], those after the [keep] newest. *)
Definition victim (keep : nat) (bs : list DbBinary) (t : publisher_tables) (v : DbVersion) : Prop :=
  exists b, b ∈ bs /\ v ∈ drop keep (versions_desc (b_binary_id b) t).

Definition victim_id (keep : nat) (bs : list DbBinary) (t : publisher_tables) (id : string) : Prop :=
  exists v, victim keep bs t v /\ v_version_id v = id.

(** Versions with an id of [V] may be gone, and jobs from or to one. *)
Record pruned (V : string -> Prop) (t t' : publisher_tables) : Prop := {
  pr_versions : exists gone : gset string, (forall id, id ∈ gone -> V id) /\
    pt_versions t' = List.filter (fun v => bool_decide (v_version_id v ∉ gone)) (pt_versions t);
  pr_binaries : pt_binaries t' = pt_binaries t;
  pr_config : pt_config t' = pt_config t;
  pr_jobs : exists p, pt_jobs t' = List.filter p (pt_jobs t) /\
    forall j, j ∈ pt_jobs t -> p j = false -> V (j_from_version_id j) \/ V (j_to_version_id j);
}.

Lemma pruned_refl V t : pruned V t t.
Proof.
  split; [|done|done|].
  - exists ∅. split; [set_solver|]. symmetry. apply filter_all. intros v _. apply bool_decide_eq_true. set_solver.
  - exists (fun _ => true). split; [|done]. symmetry. by apply filter_all.
Qed.

Lemma pruned_mono (V V' : string -> Prop) t t' : (forall id, V id -> V' id) -> pruned V t t' -> pruned V' t t'.
Proof.
  intros HV [(gone & H1 & H2) H3 H4 (p & H5 & H6)]. split; [|done|done|].
  - exists gone. auto.
  - exists p. split; [done|]. intros j Hj Hp. destruct (H6 j Hj Hp); auto.
Qed.

Lemma touches_V (V : string -> Prop) id j : V id -> touches id j = true -> V (j_from_version_id j) \/ V (j_to_version_id j).
Proof.
  intros HV [H|H]%orb_true_iff; apply bool_decide_eq_true in H; rewrite H; auto.
Qed.

Lemma pruned_jobs V t t' id :
  V id -> pruned V t t' -> pruned V t (with_jobs (delete_rows (touches id) (pt_jobs t')) t').
Proof.
  intros HV [H1 H2 H3 (p & H4 & H5)]. split; [done..|]. exists (fun j => p j && negb (touches id j)). cbn.
  rewrite H4. unfold delete_rows. rewrite filter_filter. split; [done|].
  intros j Hj [H|H%negb_false_iff]%andb_false_iff; [by apply H5|by eapply touches_V].
Qed.

Lemma pruned_version V t t' id :
  V id -> pruned V t t' -> pruned V t (with_versions (delete_rows (has_version_id id) (pt_versions t')) t').
Proof.
  intros HV [(gone & H1 & H2) H3 H4 H5]. split; [|done..]. exists (gone ∪ {[id]}). split; [set_solver|]. cbn.
  rewrite H2. unfold delete_rows. rewrite filter_filter. apply filter_ext. intros v. unfold has_version_id.
  apply eq_true_iff_eq. rewrite andb_true_iff, negb_true_iff, bool_decide_eq_false, !bool_decide_eq_true. set_solver.
Qed.

Lemma elem_of_versions_desc id t v : v ∈ versions_desc id t <-> v ∈ pt_versions t /\ v_binary_id v = id.
Proof. unfold versions_desc. by rewrite order_by_perm, list_elem_of_In, filter_In, <- list_elem_of_In, bool_decide_eq_true. Qed.

(** The versions of a binary whose turn has not come. *)
Lemma pruned_unseen keep bs t t' b :
  publisher_inv t -> b_binary_id b ∉ b_binary_id <$> bs -> pruned (victim_id keep bs t) t t' ->
  versions_desc (b_binary_id b) t' = versions_desc (b_binary_id b) t.
Proof.
  intros I Hb [(gone & H1 & H2) _ _ _]. unfold versions_desc. rewrite H2, filter_filter. f_equal.
  apply filter_ext_in. intros v Hv%list_elem_of_In. case_bool_decide as Hg; [done|]. case_bool_decide as He; [|done].
  exfalso. destruct (H1 (v_version_id v)) as (v0 & (b0 & Hb0 & Hv0) & Hid); [by destruct (decide (v_version_id v ∈ gone))|].
  apply drop_in, elem_of_versions_desc in Hv0 as [Hv0 Hbid].
  assert (v0 = v) as -> by (eapply (NoDup_key_eq v_version_id); [apply I|done..]).
  apply Hb. rewrite <- He, Hbid. by apply list_elem_of_fmap_2.
Qed.

(** ** The files *)

(** The files of the versions that go and of their diffs, when files are to go. *)
Definition prunable (delete_files : bool) (victims : DbVersion -> Prop) (t : publisher_tables) (p : list string) : Prop :=
  delete_files = true /\ exists v, victims v /\
    (p = resolve (v_file_path v) \/
     exists j x, j ∈ pt_jobs t /\ touches (v_version_id v) j = true /\ j_diff_path j = Some x /\ p = resolve x).

Section Run.
Context (delete_files : bool) (victims : DbVersion -> Prop) (f : fs) (t : publisher_tables) (V : string -> Prop).
Abbreviation prunes := (roams (drops (prunable delete_files victims t)) f (pruned V t)).

Lemma prunes_remove p : prunable delete_files victims t (resolve p) -> prunes (pio_try (remove_file p)) (fun _ => True).
Proof.
  intros Hp. apply roams_io; [apply _|]. apply respects_io_map, respects_remove; [apply _|]. intros c. right. eauto.
Qed.

Lemma prunes_looks {A} (m : psys A) Q : (forall f' t', looks f' t' m Q) -> prunes m Q.
Proof. intros Hm. apply roams_looks. auto. Qed.

Lemma prunes_file v size totals :
  delete_files = true -> victims v -> prunes (prune_file mode v size false totals) (fun _ => True).
Proof.
  intros Hd Hv. unfold prune_file. eapply roams_bind; [apply prunes_looks; intros; apply looks_look, reads_exists|].
  intros there _. destruct there; cbn [negb orb]; [|by apply roams_ret].
  eapply roams_bind; [apply prunes_remove; split; eauto|]. intros [u|e] _; [|by apply roams_ret].
  eapply roams_bind; [apply prunes_looks; intros; apply looks_add|]. intros n _. by apply roams_ret.
Qed.

Lemma prunes_diffs v jobs totals :
  delete_files = true -> victims v -> (forall j, j ∈ jobs -> j ∈ pt_jobs t) ->
  prunes (prune_diffs mode jobs (v_version_id v) false totals) (fun _ => True).
Proof.
  intros Hd Hv. revert totals. induction jobs as [|j jobs IH]; intros totals Hj; cbn [prune_diffs]; [by apply roams_ret|].
  eapply (roams_bind _ _ _ _ _ (fun _ => True)); [|intros tt' _; apply IH; set_solver].
  destruct (_ || _) eqn:Ht; [|by apply roams_ret]. destruct (j_diff_path j) as [x|] eqn:Hx; [|by apply roams_ret].
  unfold prune_diff. eapply roams_bind; [apply prunes_looks; intros; apply looks_look, reads_exists|].
  intros there _. destruct there; cbn [negb]; [|by apply roams_ret].
  eapply roams_bind; [apply prunes_looks; intros; apply looks_size|]. intros n _.
  eapply roams_bind; [apply prunes_remove; split; [done|]; exists v; split; [done|]; right; exists j, x; split_and!; set_solver|].
  intros [u|e] _; [|by apply roams_ret].
  eapply roams_bind; [apply prunes_looks; intros; apply looks_add|]. intros m _. by apply roams_ret.
Qed.

Lemma prunes_records id : V id -> prunes (delete_records id) (fun _ => True).
Proof.
  intros HV. unfold delete_records.
  eapply roams_bind; [eapply roams_attempt, roams_pdb; [apply effect_id, exec_effect|]|].
  { intros t1 a t2 H1 (n & [= _ <-]). by apply pruned_jobs. }
  intros r _. eapply roams_bind; [eapply roams_attempt, roams_pdb; [apply exec_effect|]|intros r' _; by apply roams_ret].
  intros t1 a t2 H1 (n & [= _ <-]). case_match; [done|].
  apply (pruned_version V t (with_jobs _ t1)); [done|by apply pruned_jobs].
Qed.

Lemma prunes_versions vs totals :
  (forall v, v ∈ vs -> victims v /\ V (v_version_id v)) ->
  prunes (prune_versions mode vs delete_files false totals) (fun _ => True).
Proof.
  revert totals. induction vs as [|v vs IH]; intros totals Hv; cbn [prune_versions]; [by apply roams_ret|].
  destruct (Hv v) as [Hv1 Hv2]; [by left|].
  eapply (roams_bind _ _ _ _ _ (fun _ => True)); [|intros tt' _; apply IH; set_solver]. unfold prune_version. cbn zeta.
  eapply (roams_bind _ _ _ _ _ (fun _ => True)).
  - destruct delete_files eqn:Hd; [|by apply roams_ret]. rewrite <- Hd.
    eapply roams_bind; [by apply prunes_file|]. intros totals1 _.
    eapply (roams_bind _ _ _ _ _ (fun l => forall j, j ∈ l -> j ∈ pt_jobs t)); [|intros l Hl; by apply prunes_diffs].
    apply roams_looks. intros f' t' [_ _ _ (p & Hp & _)]. eapply looks_weaken; [apply looks_query|]. intros l [= <-] j.
    rewrite order_by_perm, list_elem_of_In, filter_In, <- list_elem_of_In. intros [Hj _]. rewrite Hp in Hj.
    rewrite list_elem_of_In, filter_In, <- list_elem_of_In in Hj. by destruct Hj.
  - intros totals1 _. eapply roams_bind; [by apply prunes_records|]. intros u _. by apply roams_ret.
Qed.
End Run.

Lemma ends_prune_binaries delete_files keep (all : list DbBinary) f t bs bs0 totals :
  publisher_inv t -> bs0 ++ bs = all -> NoDup (b_binary_id <$> all) ->
  let R := drops (prunable delete_files (victim keep all t) t) in
  ends (at_rest_upto R f (pruned (victim_id keep bs0 t) t)) (prune_binaries mode bs keep delete_files false totals)
    (fun _ => at_rest_upto R f (pruned (victim_id keep all t) t)) (fun _ => at_rest_upto R f (pruned (victim_id keep all t) t)).
Proof.
  intros I Hall Hnd R. revert bs0 totals Hall. induction bs as [|b bs IH]; intros bs0 totals Hall; cbn [prune_binaries].
  { rewrite app_nil_r in Hall. subst bs0. by intros s Hs. }
  assert (Hmono : forall l t', l ⊆ all -> pruned (victim_id keep l t) t t' -> pruned (victim_id keep all t) t t').
  { intros l t' Hl. apply pruned_mono. intros id (v & (b' & Hb' & Hv) & Hid). exists v. split; [|done]. exists b'. auto. }
  assert (Hb : b ∈ all) by (subst; set_solver).
  eapply (roams_first _ _ _ _ _ _ (fun vs => vs = versions_desc (b_binary_id b) t)).
  { apply roams_looks. intros f' t' Ht'. eapply looks_weaken; [apply looks_query|]. intros vs [= <-].
    eapply pruned_unseen; [done| |done]. subst all. rewrite fmap_app, fmap_cons in Hnd. apply NoDup_app in Hnd as (_ & Hnd & _).
    intros Hin. by eapply Hnd; [|left]. }
  { intros t'. apply Hmono. subst. set_solver. }
  intros vs ->.
  assert (Hroam : roams R f (pruned (victim_id keep (bs0 ++ [b]) t) t)
    (if (length (versions_desc (b_binary_id b) t) <=? keep)%nat then sret totals
     else prune_versions mode (drop keep (versions_desc (b_binary_id b) t)) delete_files false totals) (fun _ => True)).
  { case_match; [by apply roams_ret|]. apply prunes_versions. intros v Hv. split; [exists b; done|].
    exists v. split; [|done]. exists b. split; [set_solver|done]. }
  eapply ends_pre; [eapply roams_first; [exact Hroam|intros t'; apply Hmono; subst; set_solver|]|].
  - intros totals1 _. apply IH. by rewrite <- app_assoc.
  - intros s (H1 & H2 & H3). split_and!; [done..|]. eapply pruned_mono; [|exact H3].
    intros id (v & (b' & Hb' & Hv) & Hid). exists v. split; [|done]. exists b'. split; [set_solver|done].
Qed.

(** The binaries of a name, as the command meets them. *)
Definition named_binaries (name : string) (t : publisher_tables) : list DbBinary :=
  List.filter (fun b => bool_decide (b_binary_name b = name)) (order_by Asc b_binary_name (pt_binaries t)).

Lemma named_binaries_NoDup name t : publisher_inv t -> NoDup (b_binary_id <$> named_binaries name t).
Proof. intros I. apply NoDup_filterb. rewrite order_by_perm. apply I. Qed.

(** The newest versions are no victims. *)
Lemma newest_not_victim keep name t b v :
  publisher_inv t -> v ∈ take keep (versions_desc (b_binary_id b) t) -> ~ victim_id keep (named_binaries name t) t (v_version_id v).
Proof.
  intros I Hv (v' & (b' & Hb' & Hv') & Hid).
  assert (Hin : v ∈ versions_desc (b_binary_id b) t).
  { rewrite <- (take_drop keep (versions_desc _ t)). apply elem_of_app. by left. }
  pose proof (drop_in _ _ _ Hv') as Hin'. apply elem_of_versions_desc in Hin' as [Hvt' Hb2'].
  apply elem_of_versions_desc in Hin as [Hvt Hb2].
  assert (v' = v) as -> by (eapply (NoDup_key_eq v_version_id); [apply I|done..]).
  rewrite <- Hb2', Hb2 in Hv'.
  assert (Hnd : NoDup (versions_desc (b_binary_id b) t)).
  { apply (NoDup_fmap_1 v_version_id). unfold versions_desc. rewrite order_by_perm. apply NoDup_filterb, I. }
  rewrite <- (take_drop keep (versions_desc _ t)) in Hnd. apply NoDup_app in Hnd as (_ & Hnd & _). by apply (Hnd v).
Qed.

Lemma ends_run_prune name keep delete_files f t :
  publisher_inv t ->
  let all := named_binaries name t in
  let after (_ : _) := at_rest_upto (drops (prunable delete_files (victim keep all t) t)) f (pruned (victim_id keep all t) t) in
  ends (at_rest_upto (drops (prunable delete_files (victim keep all t) t)) f (eq t))
    (run_prune mode name keep delete_files false) (fun _ => after tt) (fun _ => after tt).
Proof.
  intros I all after. assert (Hp : forall t', t = t' -> pruned (victim_id keep all t) t t') by (intros ? <-; apply pruned_refl).
  assert (Hfail : forall e : publisher_error, ends (at_rest_upto (drops (prunable delete_files (victim keep all t) t)) f (eq t))
    (sfail (A := PruneTotals) e) (fun _ => after tt) (fun _ => after tt)).
  { intros e s1 (H1 & H2 & H3). split_and!; auto. }
  unfold run_prune. eapply roams_first; [apply roams_looks; intros f' t' _; apply looks_look, reads_exists|exact Hp|].
  intros present _. destruct present; cbn [negb]; [|apply Hfail]. case_match; [apply Hfail|].
  eapply roams_first; [apply roams_looks; intros f' t' _; apply looks_open|exact Hp|]. intros u _.
  eapply roams_first; [apply roams_looks; intros f' t' <-; apply looks_query|exact Hp|]. intros bs [= <-]. cbn zeta.
  case_bool_decide; [apply Hfail|].
  eapply ends_pre; [apply (ends_prune_binaries delete_files keep all f t all []); [done|done|by apply named_binaries_NoDup]|].
  intros s1 (H1 & H2 & H3). split_and!; [done..|]. rewrite <- H3. apply pruned_refl.
Qed.

(** C24: A prune keeps the records it was asked to keep: whatever calls fail, the
    newest [keep] versions of every binary, and all versions of binaries with
    another name, stay in the tables with the diff jobs between them; no binary
    goes, and only with [--delete-files] files go, each named as the file or a diff
    of a version after the newest [keep].  Such a file may be that of a kept
    version too, see [prune_takes_kept_file]. *)
Theorem prune_keeps_newest name keep delete_files s :
  tx (sy_db s) = None -> publisher_inv (disk (sy_db s)) ->
  let t := disk (sy_db s) in
  let s' := (run_prune mode name keep delete_files false s).2 in
  (forall b v, v ∈ take keep (versions_desc (b_binary_id b) t) -> v ∈ pt_versions (disk (sy_db s'))) /\
  (forall b v, b ∈ pt_binaries t -> b_binary_name b <> name -> v ∈ versions_desc (b_binary_id b) t -> v ∈ pt_versions (disk (sy_db s'))) /\
  pruned (victim_id keep (named_binaries name t) t) t (disk (sy_db s')) /\
  forall p, drops (prunable delete_files (victim keep (named_binaries name t) t) t) p (files (sy_fs s) !! p) (files (sy_fs s') !! p).
Proof.
  intros Ht I. cbn zeta. set (t := disk (sy_db s)). set (f := files (sy_fs s)). set (all := named_binaries name t).
  set (R := drops (prunable delete_files (victim keep all t) t)).
  pose proof (ends_run_prune name keep delete_files f t I s) as H. cbn zeta in H. fold all in H. fold R in H.
  destruct (run_prune mode name keep delete_files false s) as [r s'].
  assert (H' : at_rest_upto R f (pruned (victim_id keep all t) t) s').
  { destruct r; apply H; (split_and!; [intros p; by left|done|done]). }
  destruct H' as (H1 & _ & H2). cbn [snd]. pose proof (pr_versions _ _ _ H2) as (gone & Hg & Hvs).
  assert (Hkeep : forall v, v ∈ pt_versions t -> ~ victim_id keep all t (v_version_id v) -> v ∈ pt_versions (disk (sy_db s'))).
  { intros v Hv Hn. rewrite Hvs, list_elem_of_In, filter_In, <- list_elem_of_In, bool_decide_eq_true. auto. }
  split_and!; [..|done|exact H1].
  - intros b v Hv. apply Hkeep; [|by eapply newest_not_victim]. apply (elem_of_versions_desc (b_binary_id b)).
    rewrite <- (take_drop keep (versions_desc _ t)). apply elem_of_app. by left.
  - intros b v Hb Hn [Hv Hvb]%elem_of_versions_desc. apply Hkeep; [done|]. intros (v' & (b' & Hb' & Hv') & Hid).
    apply drop_in, elem_of_versions_desc in Hv' as [Hv' Hvb'].
    assert (v' = v) as -> by (eapply (NoDup_key_eq v_version_id); [apply I|done..]).
    unfold all, named_binaries in Hb'. rewrite list_elem_of_In, filter_In, <- list_elem_of_In, bool_decide_eq_true, order_by_perm in Hb'.
    destruct Hb' as [Hb' Hbn]. apply Hn. rewrite <- Hbn. f_equal.
    eapply (NoDup_key_eq b_binary_id); [apply I|done|done|congruence].
Qed.
End Prune.

(** ** Dry runs *)

Section DryRun.
Context {SO : SqlOrder} {SL : SqlOrderLaws SO} {WD : WalkDir} {WL : WalkDirLaws WD}.
Context (mode : profile) (f : fs) (t : publisher_tables).

Abbreviation harmless m := (looks f t m (fun _ => True)).

(** ** Cleanups *)

Lemma harmless_visit dir rels known ty r : harmless (visit_entries mode dir rels known true ty r).
Proof.
  revert r. induction rels as [|rel rels IH]; intros r; cbn [visit_entries]; [by apply looks_ret|].
  eapply (looks_bind _ _ _ _ (fun _ => True)); [|intros r' _; apply IH]. unfold visit_entry. looks_step.
  looks_step; [by apply looks_ret|]. eapply looks_bind; [apply looks_size|]. intros n _. apply looks_record.
Qed.

Lemma harmless_walk dir known ty r : harmless (walk_directory_for_orphans mode dir known r true ty).
Proof.
  unfold walk_directory_for_orphans. looks_step. looks_step; [by apply looks_ret|].
  eapply looks_bind; [apply looks_walk|]. intros rels _. apply harmless_visit.
Qed.

Lemma harmless_orphans r : harmless (find_orphaned_diffs mode r true) /\ harmless (find_orphaned_binaries mode r true).
Proof.
  split; [unfold find_orphaned_diffs|unfold find_orphaned_binaries]; cbn zeta;
    (looks_step; looks_step; [by apply looks_ret|]); (eapply looks_bind; [apply looks_query|]; intros rows _).
  - apply harmless_walk.
  - eapply looks_bind; [apply looks_version_paths|]. intros known _. apply harmless_walk.
Qed.

Lemma harmless_jobs r : harmless (cleanup_failed_jobs r true).
Proof.
  unfold cleanup_failed_jobs. eapply looks_bind; [apply looks_query|]. intros jobs _. looks_step; [by apply looks_ret|].
  clear. revert r. induction jobs as [|j jobs IH]; intros r; cbn [clean_jobs]; [by apply looks_ret|apply IH].
Qed.

Lemma harmless_cleanup max_age : harmless (run_cleanup mode true max_age).
Proof.
  unfold run_cleanup. looks_step. looks_step; [apply looks_fail|]. looks_step. cbn zeta.
  eapply looks_bind; [apply harmless_orphans|]. intros r _. eapply looks_bind; [apply harmless_orphans|]. intros r' _.
  apply harmless_jobs.
Qed.

(** ** Prunes *)

Lemma harmless_prune_diffs jobs id totals : harmless (prune_diffs mode jobs id true totals).
Proof.
  revert totals. induction jobs as [|j jobs IH]; intros totals; cbn [prune_diffs]; [by apply looks_ret|].
  eapply (looks_bind _ _ _ _ (fun _ => True)); [|intros r' _; apply IH]. looks_step; [|by apply looks_ret].
  looks_step; [|by apply looks_ret]. unfold prune_diff. looks_step. looks_step; [by apply looks_ret|].
  eapply looks_bind; [apply looks_size|]. intros n _. by apply looks_ret.
Qed.

Lemma harmless_prune_versions vs delete_files totals : harmless (prune_versions mode vs delete_files true totals).
Proof.
  revert totals. induction vs as [|v vs IH]; intros totals; cbn [prune_versions]; [by apply looks_ret|].
  eapply (looks_bind _ _ _ _ (fun _ => True)); [|intros r' _; apply IH]. unfold prune_version. cbn zeta.
  eapply (looks_bind _ _ _ _ (fun _ => True)); [|intros r _; eapply (looks_bind _ _ _ _ (fun _ => True)); [by apply looks_ret|intros u _; by apply looks_ret]].
  looks_step; [|by apply looks_ret]. eapply (looks_bind _ _ _ _ (fun _ => True)).
  - unfold prune_file. looks_step. rewrite orb_true_r. by apply looks_ret.
  - intros r _. eapply looks_bind; [apply looks_query|]. intros jobs _. apply harmless_prune_diffs.
Qed.

Lemma harmless_prune name keep delete_files : harmless (run_prune mode name keep delete_files true).
Proof.
  unfold run_prune. looks_step. looks_step; [apply looks_fail|]. looks_step; [apply looks_fail|]. looks_step.
  eapply looks_bind; [apply looks_query|]. intros bs _. cbn zeta. looks_step; [apply looks_fail|].
  generalize (Build_PruneTotals 0 0 0). generalize (List.filter (fun b => bool_decide (b_binary_name b = name)) bs).
  intros l. induction l as [|b l IH]; intros totals; cbn [prune_binaries]; [by apply looks_ret|].
  eapply looks_bind; [apply looks_query|]. intros vs _. eapply (looks_bind _ _ _ _ (fun _ => True)); [|intros r _; apply IH].
  looks_step; [by apply looks_ret|apply harmless_prune_versions].
Qed.
End DryRun.

(** A dry run is dry: whatever calls fail, [cleanup --dry-run] and
    [prune --dry-run], with or without [--delete-files], leave every file and
    every row as it is. *)
Theorem dry_runs_change_nothing {SO : SqlOrder} {SL : SqlOrderLaws SO} {WD : WalkDir} {WL : WalkDirLaws WD} mode max_age name keep
    delete_files s :
  tx (sy_db s) = None ->
  at_rest (files (sy_fs s)) (disk (sy_db s)) (run_cleanup mode true max_age s).2 /\
  at_rest (files (sy_fs s)) (disk (sy_db s)) (run_prune mode name keep delete_files true s).2.
Proof.
  intros Ht. assert (Hs : at_rest (files (sy_fs s)) (disk (sy_db s)) s) by done. split.
  - pose proof (harmless_cleanup mode _ _ max_age s Hs) as H. by destruct (run_cleanup _ _ _ s) as [[a|e] s']; [destruct H|].
  - pose proof (harmless_prune mode _ _ name keep delete_files s Hs) as H. by destruct (run_prune _ _ _ _ _ s) as [[a|e] s']; [destruct H|].
Qed.
