(* ===== verification/Setup.v ===== *)
(** * Setup: new projects and keys ([deltaship-publisher/src/commands/init.rs], [keygen.rs])

    The generated key, the salt and the nonce are arguments, as are the answers at
    the prompts, in their order; the public half of a key is a parameter.  What is
    printed is left out. *)

From S2P Require Import Prelude Text Version Core Validation Fs Crypto DbModels Sql System PublisherDb KeyFiles Archive Project.
From S2P Require Import Release.

#[local] Open Scope Z_scope.
#[local] Open Scope sys_scope.

Definition UNENCRYPTED : string := "UNENCRYPTED".

Definition COMMON_WEAK_PASSWORDS : list string :=
  [ "password"; "Password1"; "qwertyuiop"; "123456789012"; "passwordpassword"; "letmein12345"; "admin1234567";
    "welcome12345"; "monkey123456"; "dragon123456" ].

(** The first weak pattern in the passphrase, in whatever case. *)
Definition weak_pattern (passphrase : string) : option string :=
  seek (fun weak => contains_str (to_lowercase weak) (to_lowercase passphrase)) COMMON_WEAK_PASSWORDS.

Section Setup.
Context {KC : KeyCrypto}.
Context (ph : publisher_host) (integrity : string).
Context (verifying_key : bytes -> bytes).
Context (prompts : nat -> result io_error string).
Context (signing_key salt nonce : bytes).

Definition prompt_password (n : nat) : psys string := of_result (map_err PIo (prompts n)).

(** [prompt_passphrase], which both files have. *)
Definition prompt_passphrase : psys string :=
  passphrase ←! prompt_password 0;
  if str_is_empty passphrase then
    sfail (PMsg "Empty passphrase not allowed. Type 'UNENCRYPTED' to save without encryption.")
  else if bool_decide (passphrase = UNENCRYPTED) then
    confirm ←! prompt_password 1;
    if negb (bool_decide (confirm = UNENCRYPTED)) then
      sfail (PMsg "Unencrypted confirmation failed. Key generation cancelled.")
    else sret ""
  else if str_len passphrase <? 12 then
    sfail (PMsg "Passphrase too short. Minimum 12 characters required for security.")
  else
    match weak_pattern passphrase with
    | Some weak =>
        sfail (PMsg ("Passphrase contains common weak pattern '" +:+ weak +:+ "'. Please choose a more secure passphrase."))
    | None =>
        confirm ←! prompt_password 1;
        if negb (bool_decide (passphrase = confirm)) then sfail (PMsg "Passphrases do not match.")
        else sret passphrase
    end.

(** Saving both halves of the key. *)
Definition save_signing (path : string) (passphrase : option string) : psys unit :=
  r ←! look (save_signing_key signing_key path passphrase LevelStandard salt nonce);
  match r with
  | Val r => of_result (map_err PCrypto r)
  | Panic => sfail PPanic
  end.

Definition save_keys (keys_path passphrase : string) : psys unit :=
  save_signing (join keys_path "signing.key") (passphrase_opt passphrase) ;;!
  crypto_call (save_verifying_key (verifying_key signing_key) (join keys_path "public.key")).

(** [PublisherDb::open] where there is no database yet. *)
Definition create_db : psys unit := pio (open_create DB_FILE) ;;! open_db.

Definition init_run (passphrase_arg : option string) : psys unit :=
  present ←! look (exists_ DELTASHIP_DIR);
  if (present : bool) then
    sfail (PMsg "Deltaship project already initialized in this directory. Remove .deltaship/ to reinitialize.")
  else
    pio (create_dir_all DELTASHIP_DIR) ;;!
    pio (create_dir_all KEYS_DIR) ;;!
    passphrase ←! match passphrase_arg with
                  | Some p => sret (if bool_decide (p = UNENCRYPTED) then "" else p)
                  | None => prompt_passphrase
                  end;
    save_keys KEYS_DIR passphrase ;;!
    create_db ;;!
    now ←! observe (ph_now ph);
    pdb (p_init integrity now) ;;!
    later ←! observe (ph_now ph);
    pdb (p_set_config later CONFIG_PUBLIC_KEY (hash_to_hex (verifying_key signing_key))).

Definition keygen_run (output_dir passphrase : option string) : psys unit :=
  let keys_path := default KEYS_DIR output_dir in
  there ←! look (exists_ keys_path);
  (if negb there then pio (create_dir_all keys_path) else sret tt) ;;!
  let signing_key_path := join keys_path "signing.key" in
  taken ←! look (exists_ signing_key_path);
  if (taken : bool) then
    sfail (PMsg ("Signing key already exists at " +:+ signing_key_path +:+ ". Remove it first to generate a new keypair."))
  else
    passphrase ←! match passphrase with Some p => sret p | None => prompt_passphrase end;
    save_keys keys_path passphrase.
End Setup.

(** ** The config command ([deltaship-publisher/src/commands/config.rs]) *)

(** A value that is stored, the default, or none. *)
Inductive shown := Stored (value : string) | Default (value : string) | NotSet.

Definition or_default (k : ConfigKey) (value : option string) : shown :=
  match value with
  | Some v => Stored v
  | None => match get_default_value k with Some d => Default d | None => NotSet end
  end.

(** [&v[..16]] of a public key; slicing inside a character panics. *)
Definition display_value (k : ConfigKey) (v : string) : outcome string :=
  if bool_decide (k = PublicKey) && (16 <? str_len v) then
    if match chars v !! 16%nat with Some c => is_continuation c | None => false end then Panic
    else Val (of_chars (take 16 (chars v)) +:+ "...")
  else Val v.

Section Config.
Context (ph : publisher_host).
Context (url_parse : string -> result string server_url_parts).
Context (stdin : result io_error string).

Definition get_value (k : ConfigKey) : psys (option string) := pdb (p_get_config (as_db_key k)).

Fixpoint show_all (keys : list ConfigKey) : psys (list (ConfigKey * shown)) :=
  match keys with
  | [] => sret []
  | k :: keys =>
      value ←! get_value k;
      line ←! match value with
              | Some v => match display_value k v with Val d => sret (Stored d) | Panic => sfail PPanic end
              | None => sret (or_default k None)
              end;
      lines ←! show_all keys;
      sret ((k, line) :: lines)
  end.

Definition config_get (key : option string) : psys (list (ConfigKey * shown)) :=
  present ←! look (exists_ DB_FILE);
  if negb present then sfail (PMsg not_initialized)
  else
    open_db ;;!
    match key with
    | Some key_str =>
        config_key ←! of_result (map_err PMsg (key_from_str key_str));
        value ←! get_value config_key;
        sret [(config_key, or_default config_key value)]
    | None => show_all ALL_CONFIG_KEYS
    end.

Definition set_value (k : ConfigKey) (value : string) : psys unit :=
  now ←! observe (ph_now ph);
  pdb (p_set_config now (as_db_key k) value).

Definition config_set (key value : string) : psys unit :=
  present ←! look (exists_ DB_FILE);
  if negb present then sfail (PMsg not_initialized)
  else
    config_key ←! of_result (map_err PMsg (key_from_str key));
    if is_read_only config_key then
      sfail (PMsg ("Cannot set '" +:+ key_to_string config_key +:+ "': this configuration is read-only."))
    else
      of_result (map_err PMsg (validate_config_value url_parse config_key value)) ;;!
      open_db ;;!
      set_value config_key value.

(** The status of the keys, also without a project. *)
Fixpoint list_keys (db : bool) (keys : list ConfigKey) : psys (list (ConfigKey * string * shown * bool)) :=
  match keys with
  | [] => sret []
  | k :: keys =>
      value ←! (if db then get_value k else sret None);
      lines ←! list_keys db keys;
      sret ((k, get_config_description k, or_default k value, is_read_only k) :: lines)
  end.

Definition config_list : psys (list (ConfigKey * string * shown * bool)) :=
  present ←! look (exists_ DB_FILE);
  (if (present : bool) then open_db else sret tt) ;;!
  list_keys present ALL_CONFIG_KEYS.

(** A key without a default is set to the empty text. *)
Definition reset_key (k : ConfigKey) : psys unit := set_value k (default "" (get_default_value k)).

Fixpoint reset_keys (keys : list ConfigKey) : psys unit :=
  match keys with
  | [] => sret tt
  | k :: keys => (if is_read_only k then sret tt else reset_key k) ;;! reset_keys keys
  end.

Definition config_reset (key : option string) : psys unit :=
  present ←! look (exists_ DB_FILE);
  if negb present then sfail (PMsg not_initialized)
  else
    open_db ;;!
    match key with
    | Some key_str =>
        config_key ←! of_result (map_err PMsg (key_from_str key_str));
        if is_read_only config_key then
          sfail (PMsg ("Cannot reset '" +:+ key_to_string config_key +:+ "': this configuration is read-only."))
        else reset_key config_key
    | None =>
        input ←! of_result (map_err PIo stdin);
        if negb (bool_decide (to_lowercase (trim input) = "y")) then sret tt
        else reset_keys ALL_CONFIG_KEYS
    end.
End Config.
