(* ===== verification/SetupFacts.v ===== *)
(** * SetupFacts: a new project can sign, and keys are not overwritten *)

From S2P Require Import Prelude Text Version Core Validation Fs Confinement Crypto DbModels Sql System PublisherDb PublisherDbFacts Patcher.
From S2P Require Import PatcherFacts UpdateFacts KeyFiles KeyFacts Archive Project Programs Release Verify Setup.

#[local] Open Scope Z_scope.

(** ** Public keys in the configuration *)

Lemma digit_not_continuation c : is_ascii_hexdigit c = true -> is_continuation c = false.
Proof. intros [H _]%code_hexdigit. unfold is_continuation. destruct (Z.leb_spec 128 (code c)); [lia|done]. Qed.

Lemma hex_pairs_chars b : hex_pairs (hex_chars b) = Val (Ok b).
Proof.
  induction b as [|x b IH]; [done|]. rewrite hex_chars_cons.
  pose proof (parse_hex_byte x []) as Hx. destruct (hex_byte_digits x) as (c & d & E & _ & _ & Hc & Hd & _). rewrite E in *.
  cbn [app hex_pairs parse_hex_pairs] in *. rewrite digit_not_continuation by done. cbn [orb].
  assert (match hex_chars b with e :: _ => is_continuation e | [] => false end = false) as ->.
  { pose proof (hex_chars_hexdigit b) as H. destruct H; [done|]. by apply digit_not_continuation. }
  unfold parse_hex_pair in Hx. rewrite utf8_valid_ascii in Hx by (repeat constructor; by apply code_hexdigit).
  destruct (u8_from_str_radix16 [c; d]) as [v|]; [|done]. injection Hx as ->. by rewrite IH.
Qed.

Lemma hex_decode_encode b : hex_decode (hash_to_hex b) = Val (Ok b).
Proof.
  unfold hex_decode, hash_to_hex. rewrite chars_of_chars, hex_pairs_chars. unfold str_len, lenZ.
  rewrite chars_of_chars, length_hex_chars.
  replace (Z.of_nat (2 * length b)) with (Z.of_nat (length b) * 2) by lia. by rewrite Z.mod_mul.
Qed.

Section Facts.
Context {KC : KeyCrypto} {KL : KeyCryptoLaws KC} `{SVL : SemverLaws}.
Context (ph : publisher_host) (integrity : string).
Context (verifying_key : bytes -> bytes) (valid_key : bytes -> bool).
Context (prompts : nat -> result io_error string).
Context (signing_key salt nonce : bytes).

(** ** Passphrases *)

(** A passphrase that was typed twice and is not weak, or none, asked for twice. *)
Definition typed (passphrase : string) : Prop :=
  passphrase = "" /\ prompts 0 = Ok UNENCRYPTED /\ prompts 1 = Ok UNENCRYPTED \/
  prompts 0 = Ok passphrase /\ prompts 1 = Ok passphrase /\ passphrase <> UNENCRYPTED /\ 12 <= str_len passphrase /\
  forall weak, weak ∈ COMMON_WEAK_PASSWORDS -> contains_str (to_lowercase weak) (to_lowercase passphrase) = false.

Lemma prompted n (s : system publisher_tables) p s' : prompt_password prompts n s = (Ok p, s') -> prompts n = Ok p /\ s' = s.
Proof. unfold prompt_password, of_result. destruct (prompts n); [|done]. by intros [= -> ->]. Qed.

Lemma prompt_passphrase_Ok (s : system publisher_tables) p s' : prompt_passphrase prompts s = (Ok p, s') -> typed p /\ s' = s.
Proof.
  unfold prompt_passphrase. intros (p0 & s1 & [H0 ->]%prompted & E)%sbind_Ok.
  destruct (str_is_empty p0); [done|]. case_bool_decide as Hu.
  - apply sbind_Ok in E as (p1 & s2 & [H1 ->]%prompted & E). case_bool_decide; [|done]. injection E as <- <-.
    split; [|done]. left. by subst.
  - destruct (Z.ltb_spec (str_len p0) 12); [done|]. destruct (weak_pattern p0) eqn:Hw; [done|].
    apply sbind_Ok in E as (p1 & s2 & [H1 ->]%prompted & E). case_bool_decide; [|done]. injection E as <- <-. subst p1.
    split; [|done]. right. split_and!; try done. intros weak Hin. unfold weak_pattern in Hw.
    by eapply seek_None in Hw.
Qed.

(** ** Keys on disk *)

Abbreviation K := (resolve SIGNING_KEY_FILE).

(** The signing key is in its file. *)
Definition key_saved (passphrase : string) (s : system publisher_tables) : Prop :=
  exists text, signing_key_text signing_key (passphrase_opt passphrase) LevelStandard salt nonce = Val (Ok text) /\
    files (sy_fs s) !! K = Some (File (as_bytes text)).

Lemma save_signing_saves passphrase s u s' :
  save_signing signing_key salt nonce SIGNING_KEY_FILE (passphrase_opt passphrase) s = (Ok u, s') ->
  key_saved passphrase s' /\ sy_db s' = sy_db s.
Proof.
  unfold save_signing, key_saved, save_signing_key. intros (r & s1 & E1 & E2)%sbind_Ok.
  apply of_io_Ok in E1 as (w & E1 & ->). unfold io_map in E1.
  destruct (signing_key_text _ _ _ _ _) as [[text|e]|] eqn:Ht; cbn in E1;
    [|injection E1 as <- <-; done..].
  pose proof (save_text_atomic SIGNING_KEY_FILE text (sy_fs s)) as Hs.
  destruct (save_text SIGNING_KEY_FILE text (sy_fs s)) as [r1 w1]. injection E1 as <- <-. destruct r1 as [[]|e]; [|done].
  injection E2 as _ <-. split; [|done]. exists text. split; [done|]. apply Hs; by vm_compute.
Qed.

Lemma keeps_public passphrase key s r s' :
  key_saved passphrase s -> crypto_call (save_verifying_key key (join KEYS_DIR "public.key")) s = (r, s') ->
  key_saved passphrase s' /\ sy_db s' = sy_db s.
Proof.
  intros (text & Ht & Hf) E.
  assert (Hr : sys_respects (T := publisher_tables) (keep_some [K]) (crypto_call (save_verifying_key key (join KEYS_DIR "public.key")))).
  { apply sys_respects_io, respects_io_map. unfold save_verifying_key, save_text, on_path.
    assert (H1 : free (keep_some [K]) (resolve (join KEYS_DIR "public.key")))
      by (apply free_keep_some; rewrite list_elem_of_singleton; by vm_compute).
    assert (H2 : free (keep_some [K]) (resolve (with_extension (join KEYS_DIR "public.key") "tmp")))
      by (apply free_keep_some; rewrite list_elem_of_singleton; by vm_compute).
    respects_tac. }
  split.
  - exists text. split; [done|]. replace s' with ((crypto_call (save_verifying_key key (join KEYS_DIR "public.key"))) s).2 by (by rewrite E).
    apply (kept_some [K]); [done|by left|done].
  - unfold crypto_call, of_io in E. destruct (io_map _ _ _) as [r1 w1]. by injection E as _ <-.
Qed.

Lemma keeps_create passphrase s u s' :
  key_saved passphrase s -> tx (sy_db s) = None -> create_db s = (Ok u, s') -> key_saved passphrase s' /\ tx (sy_db s') = None.
Proof.
  intros (text & Ht & Hf) Htx (u1 & s1 & E1 & E2)%sbind_Ok.
  assert (Hr : sys_respects (T := publisher_tables) (keep_some [K]) (pio (open_create DB_FILE))).
  { apply sys_respects_io, respects_io_map, respects_open_create; [apply _|]. intros Hin [? ?]. done. }
  assert (H1 : files (sy_fs s1) !! K = Some (File (as_bytes text))).
  { replace s1 with (pio (open_create DB_FILE) s).2 by (by rewrite E1). apply (kept_some [K]); [done|by left|done]. }
  assert (Htx1 : tx (sy_db s1) = None).
  { unfold pio in E1. by apply of_io_Ok in E1 as (w & _ & ->). }
  pose proof (looks_open (files (sy_fs s1)) (disk (sy_db s1)) s1 (conj eq_refl (conj Htx1 eq_refl))) as Hl. rewrite E2 in Hl.
  destruct Hl as [(Hf2 & Ht2 & _) _]. split; [|done]. exists text. by rewrite Hf2.
Qed.

(** The passphrase of a project: an argument, with a word for none, or typed. *)
Definition chosen (passphrase_arg : option string) (passphrase : string) : Prop :=
  match passphrase_arg with
  | Some p => passphrase = if bool_decide (p = UNENCRYPTED) then "" else p
  | None => typed passphrase
  end.

(** What [init] leaves behind. *)
Lemma init_leaves passphrase_arg s u s' :
  tx (sy_db s) = None -> init_run ph integrity verifying_key prompts signing_key salt nonce passphrase_arg s = (Ok u, s') ->
  exists passphrase secret now, chosen passphrase_arg passphrase /\ key_saved passphrase s' /\ tx (sy_db s') = None /\
    pt_config (disk (sy_db s')) !! CONFIG_PUBLIC_KEY = Some (hash_to_hex (verifying_key signing_key), secret, now).
Proof.
  intros Ht (present & s1 & E1 & E)%sbind_Ok. apply of_io_Ok in E1 as (w1 & _ & ->). destruct present; [done|].
  apply sbind_Ok in E as (u2 & s2 & E2 & E). apply of_io_Ok in E2 as (w2 & _ & ->).
  apply sbind_Ok in E as (u3 & s3 & E3 & E). apply of_io_Ok in E3 as (w3 & _ & ->).
  apply sbind_Ok in E as (passphrase & s4 & E4 & E).
  assert (Hp : chosen passphrase_arg passphrase /\ tx (sy_db s4) = None).
  { destruct passphrase_arg as [p|]; [by injection E4 as <- <-|].
    by apply prompt_passphrase_Ok in E4 as [? ->]. }
  clear E4. destruct Hp as [Hp Ht4].
  apply sbind_Ok in E as (u5 & s5 & E5 & E). apply sbind_Ok in E5 as (u5' & s5' & E5' & E5).
  change (join KEYS_DIR "signing.key") with SIGNING_KEY_FILE in E5'.
  apply save_signing_saves in E5' as [Hk Hd5']. eapply keeps_public in E5 as [Hk5 Hd5]; [|exact Hk].
  apply sbind_Ok in E as (u6 & s6 & E6 & E). eapply keeps_create in E6 as [Hk6 Ht6]; [|exact Hk5|by rewrite Hd5, Hd5'].
  apply sbind_Ok in E as (now & s7 & E7 & E). injection E7 as _ <-.
  apply sbind_Ok in E as (u8 & s8 & E8 & E). unfold pdb in E8. apply of_db_Ok in E8 as (c8 & E8 & ->).
  pose proof (run_publisher_op_preserves (POpInit integrity now) (sy_db s6) Ht6) as [Ht8 _]. cbn [run_publisher_op] in Ht8.
  destruct (p_init integrity now (sy_db s6)) as [r8 c8'] eqn:Ei. cbn [snd] in Ht8. injection E8 as _ <-.
  apply sbind_Ok in E as (later & s9 & E9 & E). injection E9 as _ <-. unfold pdb in E. apply of_db_Ok in E as (c10 & E & ->).
  pose proof (effect_q _ _ _ (effect_exec (p_on "publisher_config" (fun t =>
    Ok (tt, p_with_config (<[CONFIG_PUBLIC_KEY := (hash_to_hex (verifying_key signing_key),
      match pt_config t !! CONFIG_PUBLIC_KEY with Some (_, s, _) => s | None => false end, later)]> (pt_config t)) t)))) c8' Ht8) as [Ht10 He].
  unfold p_set_config in E. cbn [sy_db with_db] in E. destruct (q _ c8') as [[u10|e10] c10'] eqn:E10; [|done]. injection E as _ <-.
  cbn [fst snd] in He, Ht10. apply p_on_Ok in He. injection He as _ He. eexists passphrase, _, later.
  split_and!; [done|exact Hk6|exact Ht10|]. cbn [sy_db with_db]. rewrite <- He. cbn. apply lookup_insert_eq.
Qed.

(** C20: A project that was initialized can sign and verify: after a successful
    [init], with the passphrase from the command line or one that was typed
    twice and holds none of the weak patterns, the signing key loads from its
    file with that passphrase, only with it when there is one, and the public half
    is the key that [verify] reads from the configuration. *)
Theorem initialized_project passphrase_arg s u s' :
  lenZ signing_key = 32 -> lenZ salt = 16 -> lenZ nonce = 12 ->
  lenZ (verifying_key signing_key) = 32 -> valid_key (verifying_key signing_key) = true ->
  tx (sy_db s) = None -> init_run ph integrity verifying_key prompts signing_key salt nonce passphrase_arg s = (Ok u, s') ->
  exists passphrase, chosen passphrase_arg passphrase /\
    (forall w, readable SIGNING_KEY_FILE (sy_fs s') w ->
       (load_signing_key SIGNING_KEY_FILE (passphrase_opt passphrase) w).1 = Val (Ok signing_key) /\
       (passphrase <> "" -> (load_signing_key SIGNING_KEY_FILE None w).1 = Val (Err PassphraseRequired))) /\
    configured_key valid_key (disk (sy_db s')) (Some (verifying_key signing_key)).
Proof.
  intros Hk Hs Hn Hv Hvalid Ht E. apply init_leaves in E as (passphrase & secret & now & Hp & (text & Htext & Hf) & _ & Hc); [|done].
  exists passphrase. split_and!; [done|..].
  - intros w Hw. destruct (signing_key_text_loads _ _ _ _ _ _ Hk Hs Hn Htext) as [H1 H2].
    pose proof (read_saved SIGNING_KEY_FILE text (sy_fs s') w ltac:(by vm_compute) (signing_key_text_utf8 _ _ _ _ _ _ Hk Htext) Hf Hw) as Hread.
    unfold load_signing_key, io_map. destruct (read_to_string SIGNING_KEY_FILE w) as [r w3]. cbn in Hread. subst r.
    split; [done|]. intros Hne. apply H2. unfold passphrase_opt, str_is_empty. by rewrite bool_decide_eq_false_2.
  - unfold configured_key. cbn [as_db_key]. rewrite Hc. cbn.
    destruct (hash_to_hex (verifying_key signing_key)) eqn:Eh.
    + exfalso. unfold hash_to_hex in Eh. apply (f_equal chars) in Eh. rewrite chars_of_chars in Eh.
      apply (f_equal length) in Eh. rewrite length_hex_chars in Eh. cbn in Eh. unfold lenZ in Hv. lia.
    + rewrite <- Eh. exists (verifying_key signing_key). split_and!; try done. apply hex_decode_encode.
Qed.

(** ** Nothing is overwritten *)

(** What exists stays. *)
Definition grows (_ : list string) (o o' : option node) : Prop := is_Some o -> o' = o.

#[local] Instance grows_preorder p : PreOrder (grows p).
Proof. split; [by intros ? ?|]. intros a b c H1 H2 Ha. specialize (H1 Ha). subst b. by apply H2. Qed.

Lemma quiet_exists p (s : system publisher_tables) :
  quiet (sy_fs s) -> look (exists_ p) s =
    (Ok (bool_decide (is_Some (node_at (files (sy_fs s)) (resolve p)))), with_fs (advance (sy_fs s) (files (sy_fs s))) s).
Proof. intros Hq. unfold look, of_io, io_map, exists_. by rewrite syscall_quiet. Qed.

(** Keys are not overwritten: when no call fails, [init] in a project and
    [keygen] where there is a signing key fail and leave everything that exists
    as it is, the tables included. *)
Theorem keys_not_overwritten passphrase_arg output_dir s :
  quiet (sy_fs s) ->
  let kept {A} (r : result publisher_error A * system publisher_tables) :=
    (exists e, r.1 = Err e) /\ sy_db r.2 = sy_db s /\ forall p, grows p (files (sy_fs s) !! p) (files (sy_fs r.2) !! p) in
  (is_Some (node_at (files (sy_fs s)) (resolve DELTASHIP_DIR)) ->
   kept (init_run ph integrity verifying_key prompts signing_key salt nonce passphrase_arg s)) /\
  (is_Some (files (sy_fs s) !! resolve (join (default KEYS_DIR output_dir) "signing.key")) ->
   kept (keygen_run verifying_key prompts signing_key salt nonce output_dir passphrase_arg s)).
Proof.
  intros Hq kept. split.
  - intros Hd. unfold init_run, sbind at 1. rewrite quiet_exists by done. rewrite bool_decide_eq_true_2 by done.
    split_and!; [by eexists|done|]. by intros p ?.
  - intros Hk. set (keys := default KEYS_DIR output_dir) in *. unfold keygen_run. fold keys. cbn zeta.
    unfold sbind at 1. rewrite quiet_exists by done. set (s1 := with_fs _ s).
    assert (Hm : sys_respects (T := publisher_tables) grows
      (if negb (bool_decide (is_Some (node_at (files (sy_fs s)) (resolve keys)))) then pio (create_dir_all keys) else sret tt)).
    { assert (respects grows (create_dir_all keys)).
      { apply respects_create_dir_all; [apply _|]. intros d _ _ [? ?]. done. }
      case_match; [by apply sys_respects_io, respects_io_map|apply sys_respects_ret; apply _]. }
    destruct (Hm s1) as [Hf1 Hg1]. unfold sbind at 1.
    assert (Hdb : sy_db ((if negb (bool_decide (is_Some (node_at (files (sy_fs s)) (resolve keys)))) then pio (create_dir_all keys)
      else sret tt) s1).2 = sy_db s).
    { case_match; [|done]. unfold pio, of_io. by destruct (io_map _ _ _). }
    destruct ((if negb _ then pio (create_dir_all keys) else sret tt) s1) as [[u|e] s2]; cbn [snd] in *;
      [|split_and!; [by eexists|done|done]].
    assert (Hq2 : quiet (sy_fs s2)) by (intros n; rewrite Hf1; apply Hq).
    assert (Hk2 : is_Some (node_at (files (sy_fs s2)) (resolve (join keys "signing.key")))).
    { unfold node_at. destruct (bool_decide (resolve _ = [])); [by exists Dir|]. pose proof (Hg1 _ Hk) as H2. cbn in H2. by rewrite H2. }
    unfold sbind at 1. rewrite quiet_exists by done. rewrite bool_decide_eq_true_2 by done.
    split_and!; [by eexists|done|done].
Qed.
End Facts.

(** ** The config command *)

Section Facts.
Context (ph : publisher_host).
Context (url_parse : string -> result string server_url_parts).
Context (stdin : result io_error string).

(** Only the configuration differs, and its public key does not. *)
Definition same_key (t t' : publisher_tables) : Prop :=
  (exists c, t' = p_with_config c t) /\ pt_config t' !! CONFIG_PUBLIC_KEY = pt_config t !! CONFIG_PUBLIC_KEY.

Lemma same_key_refl t : same_key t t.
Proof. split; [|done]. exists (pt_config t). by destruct t. Qed.

Lemma set_config_effect now key value :
  effect (p_set_config now key value)
    (fun t _ t' => exists secret, t' = p_with_config (<[key := (value, secret, now)]> (pt_config t)) t) same.
Proof.
  eapply effect_weaken; [apply effect_id, exec_effect|..]; [|done]. intros t u t' (n & [= _ <-]). eauto.
Qed.

Abbreviation untouched := (fun (_ : list string) (o o' : option node) => o = o').

Lemma roams_set f t k value :
  is_read_only k = false -> roams untouched f (same_key t) (set_value ph k value) (fun _ => True).
Proof.
  intros Hk. unfold set_value. eapply roams_bind; [apply roams_looks; intros; apply looks_observe|]. intros now _.
  eapply roams_pdb; [apply set_config_effect|]. intros t1 u t2 [(c & ->) Hc] (secret & ->). split; [by eexists|].
  cbn in Hc |- *. rewrite lookup_insert_ne; [done|]. destruct k; by vm_compute in Hk |- *.
Qed.

Lemma roams_config_set f t key value : roams untouched f (same_key t) (config_set ph url_parse key value) (fun _ => True).
Proof.
  unfold config_set. eapply roams_bind; [apply roams_looks; intros; apply looks_look, reads_exists|]. intros present _.
  case_match; [apply roams_fail|]. eapply roams_bind; [apply roams_looks; intros; apply looks_result|]. intros k _.
  destruct (is_read_only k) eqn:Hk; [apply roams_fail|].
  eapply roams_bind; [apply roams_looks; intros; apply looks_result|]. intros u _.
  eapply roams_bind; [apply roams_looks; intros; apply looks_open|]. intros u' _. by apply roams_set.
Qed.

Lemma roams_reset_keys f t keys : roams untouched f (same_key t) (reset_keys ph keys) (fun _ => True).
Proof.
  induction keys as [|k keys IH]; cbn [reset_keys]; [by apply roams_ret|].
  eapply (roams_bind _ _ _ _ _ (fun _ => True)); [|intros u _; apply IH].
  destruct (is_read_only k) eqn:Hk; [by apply roams_ret|]. by apply roams_set.
Qed.

Lemma roams_config_reset f t key : roams untouched f (same_key t) (config_reset ph stdin key) (fun _ => True).
Proof.
  unfold config_reset. eapply roams_bind; [apply roams_looks; intros; apply looks_look, reads_exists|]. intros present _.
  case_match; [apply roams_fail|]. eapply roams_bind; [apply roams_looks; intros; apply looks_open|]. intros u _.
  destruct key as [key|].
  - eapply roams_bind; [apply roams_looks; intros; apply looks_result|]. intros k _.
    destruct (is_read_only k) eqn:Hk; [apply roams_fail|]. by apply roams_set.
  - eapply roams_bind; [apply roams_looks; intros; apply looks_result|]. intros input _.
    case_match; [by apply roams_ret|apply roams_reset_keys].
Qed.

Lemma roams_state {A} f t (m : psys A) Q s :
  roams untouched f (same_key t) m Q -> files (sy_fs s) = f -> tx (sy_db s) = None -> disk (sy_db s) = t ->
  files (sy_fs (m s).2) = f /\ same_key t (disk (sy_db (m s).2)).
Proof.
  intros Hm Hf Ht Hd. specialize (Hm s). destruct (m s) as [[a|e] s']; cbn [snd].
  - destruct Hm as [(H1 & _ & H2) _]; [split_and!; [by subst|done|rewrite Hd; apply same_key_refl]|].
    split; [|done]. apply map_eq. intros p. by rewrite H1.
  - destruct Hm as (H1 & _ & H2); [split_and!; [by subst|done|rewrite Hd; apply same_key_refl]|].
    split; [|done]. apply map_eq. intros p. by rewrite H1.
Qed.

(** The key that verifies signatures is fixed when the project is made:
    whatever is given to [config set] and [config reset], and whatever calls
    fail, they change no file, no row but those of the configuration, and never
    the public key. *)
Theorem public_key_fixed key value which s :
  tx (sy_db s) = None ->
  let after s' := files (sy_fs s') = files (sy_fs s) /\ same_key (disk (sy_db s)) (disk (sy_db s')) in
  after (config_set ph url_parse key value s).2 /\ after (config_reset ph stdin which s).2.
Proof.
  intros Ht. split; (eapply roams_state; [..|done]); [apply roams_config_set|done|done|apply roams_config_reset|done|done].
Qed.

(** What [config set] stores. *)
Definition stored_value (k : ConfigKey) (value : string) (t t' : publisher_tables) : Prop :=
  exists secret now, t' = p_with_config (<[as_db_key k := (value, secret, now)]> (pt_config t)) t.

Lemma ends_config_set f t key value :
  ends (at_rest f t) (config_set ph url_parse key value)
    (fun _ s' => exists k, key_from_str key = Ok k /\ is_read_only k = false /\ validate_config_value url_parse k value = Ok tt /\
       stored_value k value t (disk (sy_db s')) /\ tx (sy_db s') = None) (fun _ s' => disk (sy_db s') = t).
Proof.
  assert (He : forall (e : publisher_error) s, at_rest f t s -> disk (sy_db s) = t) by (by intros e s (_ & _ & ?)).
  unfold config_set. eapply looks_first; [apply looks_look, reads_exists|done|]. intros present _.
  case_match; [by intros s1 (_ & _ & ?)|]. eapply looks_first; [apply looks_result|done|]. intros k Hk.
  destruct (is_read_only k) eqn:Hr; [by intros s1 (_ & _ & ?)|].
  eapply looks_first; [apply looks_result|done|]. intros u Hv. eapply looks_first; [apply looks_open|done|]. intros u' _.
  unfold set_value. eapply looks_first; [apply looks_observe|done|]. intros now _.
  eapply ends_pdb; [apply set_config_effect|by intros s1 (_ & ? & _)|..].
  - intros s1 a c (_ & _ & <-) Hc (secret & Hd). exists k. destruct (key_from_str key) as [k'|]; [|done]. injection Hk as <-.
    destruct (validate_config_value _ _ _) as [[]|]; [|done]. split_and!; try done. by exists secret, now.
  - by intros s1 e c (_ & _ & <-) Hc Hd.
Qed.

Lemma looks_config_get f t key k :
  key_from_str key = Ok k ->
  looks f t (config_get (Some key)) (fun l => l = [(k, or_default k (fst ∘ fst <$> pt_config t !! as_db_key k))]).
Proof.
  intros Hk. unfold config_get. looks_step. looks_step; [apply looks_fail|]. looks_step.
  eapply looks_bind; [apply looks_result|]. intros k2 Hk2. rewrite Hk in Hk2. injection Hk2 as <-.
  eapply looks_bind; [apply looks_query|]. intros v [= <-]. by apply looks_ret.
Qed.

(** Setting a value stores what it accepts and nothing else: it succeeds only
    for a key that exists and is not read-only and a value that is valid for it,
    and then [config get] shows that value for any spelling of the key; when it
    fails the configuration is as before. *)
Theorem config_set_get key value s :
  tx (sy_db s) = None ->
  match config_set ph url_parse key value s with
  | (Ok _, s') => exists k, key_from_str key = Ok k /\ is_read_only k = false /\ validate_config_value url_parse k value = Ok tt /\
      stored_value k value (disk (sy_db s)) (disk (sy_db s')) /\
      forall key' l, key_from_str key' = Ok k -> (config_get (Some key') s').1 = Ok l -> l = [(k, Stored value)]
  | (Err _, s') => disk (sy_db s') = disk (sy_db s)
  end.
Proof.
  intros Ht. pose proof (ends_config_set (files (sy_fs s)) (disk (sy_db s)) key value s (conj eq_refl (conj Ht eq_refl))) as H.
  destruct (config_set _ _ _ _ s) as [[u|e] s']; [|done].
  destruct H as (k & Hk & Hr & Hv & Hs & Ht'). exists k. split_and!; try done.
  intros key' l Hk' Hl.
  pose proof (looks_config_get (files (sy_fs s')) (disk (sy_db s')) key' k Hk' s' (conj eq_refl (conj Ht' eq_refl))) as Hg.
  destruct (config_get _ s') as [[l'|] s2]; [|done]. injection Hl as ->. destruct Hg as [_ ->].
  destruct Hs as (secret & now & ->). cbn. by rewrite lookup_insert_eq.
Qed.
End Facts.
