(* ===== verification/PublisherMain.v ===== *)
(** * PublisherMain: the publisher's command line ([deltaship-publisher/src/main.rs], [commands/list.rs], [info.rs], [stats.rs])

    The reports are returned before their numbers are formatted; percentages, which
    are floating-point numbers, are left out.  They read only, and on a consistent
    database their totals are those of the tables.  Then the whole tool: its
    commands, and that any history of runs leaves a consistent database. *)

From S2P Require Import Admin.
From S2P Require Import Prelude Text Version Core Validation RateLimit Fs Crypto DbModels Sql System PublisherDb PublisherDbFacts.
From S2P Require Import Downloader Archive ArchiveRoundtrip Walk Project Programs KeyFiles DiffManager Export Import ApiClient.
From S2P Require Import PublishCommand Release Verify Cleanup Setup.

#[local] Open Scope Z_scope.

(** ** Listing *)

Record VersionOutput := {
  vo_version_id : string;
  vo_version : string;
  vo_file_path : string;
  vo_size_bytes : Z;
  vo_hash_blake3 : string;
  vo_signed : bool;
  vo_signature_timestamp : option string;
  vo_created_at : string;
}.

Record BinaryOutput := {
  bo_binary_id : string;
  bo_name : string;
  bo_platform : string;
  bo_description : option string;
  bo_versions : list VersionOutput;
}.

Definition is_signed (v : DbVersion) : bool := bool_decide (is_Some (v_signature_ed25519 v)).

Definition version_output (v : DbVersion) : VersionOutput := {|
  vo_version_id := v_version_id v; vo_version := v_version_string v; vo_file_path := v_file_path v;
  vo_size_bytes := v_file_size_bytes v; vo_hash_blake3 := hash_to_hex (v_file_hash_blake3 v); vo_signed := is_signed v;
  vo_signature_timestamp := v_signature_timestamp v; vo_created_at := v_created_at v |}.

Definition binary_output (b : DbBinary) (versions : list DbVersion) : BinaryOutput := {|
  bo_binary_id := b_binary_id b; bo_name := b_binary_name b; bo_platform := b_platform b;
  bo_description := b_description b; bo_versions := version_output <$> versions |}.

(** The filter of [--name]. *)
Definition named (name : option string) (binaries : list DbBinary) : list DbBinary :=
  match name with
  | Some filter_name => List.filter (fun b => bool_decide (b_binary_name b = filter_name)) binaries
  | None => binaries
  end.

(** The table shows the first 19 bytes of a date; a shorter one is a panic. *)
Definition printable (b : BinaryOutput) : bool :=
  forallb (fun v => match slice (vo_created_at v) 0 19 with Val _ => true | Panic => false end) (bo_versions b).

(** ** Fingerprints *)

Definition ascii_upper (c : ascii) : ascii :=
  if (97 <=? code c) && (code c <=? 122) then chr (code c - 32) else c.

(** [compute_fingerprint]; the text of a key is ASCII. *)
Definition compute_fingerprint (public_key_hex : string) : outcome string :=
  match (if 16 <=? str_len public_key_hex then slice public_key_hex 0 16 else Val public_key_hex) with
  | Val short =>
      Val (of_chars (ascii_upper <$> chars (String.concat ":" (of_chars <$> chunks 4 (chars short)))))
  | Panic => Panic
  end.

(** ** Bandwidth *)

(** Arithmetic on [i64]. *)
Definition i64_result (m : profile) (z : Z) : outcome Z :=
  if (i64_min <=? z) && (z <=? i64_max) then Val z
  else match m with Debug => Panic | Release => Val (as_i64 (z mod 2 ^ 64)) end.

Record saving := { sg_from : string; sg_to : string; sg_full : Z; sg_diff : Z }.

Record binary_stats := {
  bt_name : string;
  bt_versions : Z;
  bt_binary_size : Z;
  bt_diff_size : Z;
  bt_savings : list saving;
}.

Record stats_report := {
  so_binaries : list binary_stats;
  so_binary_size : Z;
  so_diff_size : Z;
  so_potential_savings : Z;
}.

(** The map from version ids, built in the order of creation: the last one counts. *)
Definition version_info (versions : list DbVersion) (id : string) : option (string * Z) :=
  (fun v => (v_version_string v, v_file_size_bytes v)) <$>
    seek (fun v => bool_decide (v_version_id v = id)) (reverse versions).

Section Commands.
Context {SO : SqlOrder} (m : profile).
#[local] Open Scope sys_scope.

Fixpoint outputs (binaries : list DbBinary) : psys (list BinaryOutput) :=
  match binaries with
  | [] => sret []
  | binary :: binaries =>
      versions ←! pdb (list_versions (b_binary_id binary));
      rest ←! outputs binaries;
      sret (binary_output binary versions :: rest)
  end.

Definition list_run (name : option string) (json : bool) : psys (list BinaryOutput) :=
  present ←! look (exists_ DB_FILE);
  if negb present then sfail (PMsg not_initialized)
  else
    open_db ;;!
    binaries ←! pdb p_list_binaries;
    let binaries := named name binaries in
    if bool_decide (binaries = []) then
      match name with
      | Some name => sfail (PMsg ("No binary found with name '" +:+ name +:+ "'"))
      | None => sret []
      end
    else
      output ←! outputs binaries;
      if json || forallb printable output then sret output else sfail PPanic.

(** What [info] tells about the project. *)
Record project_info := {
  in_server_url : string;
  in_publisher_name : option string;
  in_fingerprint : option string;
  in_binaries : Z;
  in_versions : Z;
  in_signed : Z;
  in_published : Z;
}.

Fixpoint version_counts (binaries : list DbBinary) (version_count signed_count published_count : Z) : psys (Z * Z * Z) :=
  match binaries with
  | [] => sret (version_count, signed_count, published_count)
  | binary :: binaries =>
      versions ←! pdb (list_versions (b_binary_id binary));
      version_counts binaries (version_count + lenZ versions)
        (signed_count + lenZ (List.filter is_signed versions))
        (published_count + lenZ (List.filter v_is_published versions))
  end.

Definition info_run : psys project_info :=
  present ←! look (exists_ DB_FILE);
  if negb present then sfail (PMsg not_initialized)
  else
    open_db ;;!
    url ←! pdb (p_get_config (as_db_key ServerUrl));
    publisher ←! pdb (p_get_config (as_db_key PublisherName));
    public_key ←! pdb (p_get_config (as_db_key PublicKey));
    fingerprint ←! match public_key with
                   | Some key => match compute_fingerprint key with Val f => sret (Some f) | Panic => sfail PPanic end
                   | None => sret None
                   end;
    binaries ←! pdb p_list_binaries;
    counts ←! version_counts binaries 0 0 0;
    let '(version_count, signed_count, published_count) := counts in
    sret {| in_server_url := default DEFAULT_SERVER_URL url;
            in_publisher_name := match publisher with
                                 | Some name => if str_is_empty name then None else Some name
                                 | None => None
                                 end;
            in_fingerprint := fingerprint; in_binaries := lenZ binaries; in_versions := version_count;
            in_signed := signed_count; in_published := published_count |}.

Definition add_i64 (a b : Z) : psys Z :=
  match i64_result m (a + b) with Val z => sret z | Panic => sfail PPanic end.

(** [iter().sum::<i64>()]. *)
Fixpoint sum_i64 (total : Z) (l : list Z) : psys Z :=
  match l with [] => sret total | x :: l => total ←! add_i64 total x; sum_i64 total l end.

(** The loop over the diffs: what is saved, and in all. *)
Fixpoint savings_of (sorted_versions : list DbVersion) (diffs : list DbDiffJob) (binary_savings : Z) (found : list saving)
    : psys (Z * list saving) :=
  match diffs with
  | [] => sret (binary_savings, found)
  | diff :: diffs =>
      match version_info sorted_versions (j_from_version_id diff), version_info sorted_versions (j_to_version_id diff),
            j_diff_size_bytes diff with
      | Some from_info, Some to_info, Some diff_size =>
          saved ←! add_i64 to_info.2 (- diff_size);
          binary_savings ←! add_i64 binary_savings saved;
          savings_of sorted_versions diffs binary_savings
            (found ++ [{| sg_from := from_info.1; sg_to := to_info.1; sg_full := to_info.2; sg_diff := diff_size |}])
      | _, _, _ => savings_of sorted_versions diffs binary_savings found
      end
  end.

Definition binary_diffs (versions : list DbVersion) (completed : list DbDiffJob) : list DbDiffJob :=
  List.filter (fun d => bool_decide (j_from_version_id d ∈ v_version_id <$> versions) &&
                        bool_decide (j_to_version_id d ∈ v_version_id <$> versions)) completed.

Fixpoint stats_of (binaries : list DbBinary) (so : stats_report) : psys stats_report :=
  match binaries with
  | [] => sret so
  | binary :: binaries =>
      versions ←! pdb (list_versions (b_binary_id binary));
      if bool_decide (versions = []) then stats_of binaries so
      else
        total_binary_size ←! sum_i64 0 (v_file_size_bytes <$> versions);
        overall_binary_size ←! add_i64 (so_binary_size so) total_binary_size;
        completed_diffs ←! pdb (list_diff_jobs_by_status Completed);
        let diffs := binary_diffs versions completed_diffs in
        total_diff_size ←! sum_i64 0 (omap j_diff_size_bytes diffs);
        overall_diff_size ←! add_i64 (so_diff_size so) total_diff_size;
        '(binary_savings, found) ←! savings_of (sort_by (fun a b => String.compare (v_created_at a) (v_created_at b)) versions) diffs 0 [];
        overall_potential_savings ←! (if bool_decide (found = []) then sret (so_potential_savings so)
                                      else add_i64 (so_potential_savings so) binary_savings);
        stats_of binaries {|
          so_binaries := so_binaries so ++ [{|
            bt_name := b_binary_name binary; bt_versions := lenZ versions; bt_binary_size := total_binary_size;
            bt_diff_size := total_diff_size; bt_savings := found |}];
          so_binary_size := overall_binary_size; so_diff_size := overall_diff_size;
          so_potential_savings := overall_potential_savings |}
  end.

Definition no_stats : stats_report :=
  {| so_binaries := []; so_binary_size := 0; so_diff_size := 0; so_potential_savings := 0 |}.

Definition stats_run (name : option string) : psys stats_report :=
  present ←! look (exists_ DB_FILE);
  if negb present then sfail (PMsg not_initialized)
  else
    open_db ;;!
    binaries ←! pdb p_list_binaries;
    if bool_decide (binaries = []) then sret no_stats
    else
      let binaries := named name binaries in
      if bool_decide (binaries = []) then
        match name with
        | Some name => sfail (PMsg ("No binary found with name: " +:+ name))
        | None => sret no_stats
        end
      else stats_of binaries no_stats.
End Commands.

(** ** Sums over groups *)

Fixpoint sum_by {A} (g : A -> Z) (l : list A) : Z := match l with [] => 0 | a :: l => g a + sum_by g l end.

Lemma sum_by_perm {A} (g : A -> Z) l l' : l ≡ₚ l' -> sum_by g l = sum_by g l'.
Proof. induction 1; cbn; lia. Qed.

Lemma sum_by_ext {A} (g g' : A -> Z) l : (forall a, a ∈ l -> g a = g' a) -> sum_by g l = sum_by g' l.
Proof. induction l as [|a l IH]; intros E; [done|]. cbn. rewrite E, IH by set_solver. done. Qed.

Lemma sum_by_fmap {A} (g : A -> Z) l : sum_by id (g <$> l) = sum_by g l.
Proof. induction l; cbn; congruence. Qed.

Lemma sum_by_plus {A} (g g' : A -> Z) l : sum_by (fun a => g a + g' a) l = sum_by g l + sum_by g' l.
Proof. induction l; cbn; lia. Qed.

Lemma lenZ_sum {A} (l : list A) : lenZ l = sum_by (fun _ => 1) l.
Proof. induction l as [|a l IH]; [done|]. cbn. rewrite <- IH. unfold lenZ. cbn. lia. Qed.

Lemma filter_sum {A} (p : A -> bool) l : lenZ (List.filter p l) = sum_by (fun a => if p a then 1 else 0) l.
Proof. induction l as [|a l IH]; [done|]. cbn. rewrite <- IH. destruct (p a); unfold lenZ; cbn; lia. Qed.

Lemma sum_at {K} `{EqDecision K} (k : K) x ks :
  NoDup ks -> k ∈ ks -> sum_by (fun k' => if bool_decide (k = k') then x else 0) ks = x.
Proof.
  induction 1 as [|k' ks Hk _ IH]; [by intros ?%elem_of_nil|]. cbn. case_bool_decide as E.
  - intros _. subst k'. rewrite (sum_by_ext _ (fun _ => 0)).
    + clear. induction ks as [|k' ks IH]; [cbn; lia|exact IH].
    + intros a Ha. rewrite bool_decide_eq_false_2; [done|]. by intros ->.
  - intros [?|?]%elem_of_cons; [done|]. by rewrite IH.
Qed.

(** A sum over the groups of a list is the sum over the list. *)
Lemma sum_groups {A K} `{EqDecision K} (key : A -> K) (g : A -> Z) ks l :
  NoDup ks -> (forall a, a ∈ l -> key a ∈ ks) ->
  sum_by (fun k => sum_by g (List.filter (fun a => bool_decide (key a = k)) l)) ks = sum_by g l.
Proof.
  intros Hks. induction l as [|a l IH]; intros Hl; cbn.
  - clear. induction ks as [|k' ks IH]; [done|exact IH].
  - rewrite (sum_by_ext _ (fun k => (if bool_decide (key a = k) then g a else 0) +
      sum_by g (List.filter (fun a => bool_decide (key a = k)) l))) by (intros k _; by case_bool_decide).
    rewrite sum_by_plus, sum_at, IH by set_solver. done.
Qed.

(** ** The reports *)

Section Facts.
Context {SO : SqlOrder} {SL : SqlOrderLaws SO} {SV : Semver} (m : profile).

Lemma looks_outputs f t bs : looks f t (outputs bs) (fun out => out = (fun b => binary_output b (versions_desc (b_binary_id b) t)) <$> bs).
Proof.
  induction bs as [|b bs IH]; cbn [outputs]; [by apply looks_ret|].
  eapply looks_bind; [apply looks_query|intros vs [= <-]]. eapply looks_bind; [apply IH|intros rest ->]. by apply looks_ret.
Qed.

(** A sum over the versions of the listed binaries, one after the other. *)
Definition over_binaries (g : DbVersion -> Z) (bs : list DbBinary) (t : publisher_tables) : Z :=
  sum_by (fun b => sum_by g (versions_desc (b_binary_id b) t)) bs.

Lemma over_all_binaries g t : publisher_inv t ->
  over_binaries g (order_by Asc b_binary_name (pt_binaries t)) t = sum_by g (pt_versions t).
Proof.
  intros I. unfold over_binaries. rewrite (sum_by_perm _ _ _ (order_by_perm _ _ _)).
  rewrite <- (sum_groups v_binary_id g (b_binary_id <$> pt_binaries t) (pt_versions t)); [|apply I|intros v Hv; by apply (pinv_version _ I)].
  generalize (pt_binaries t) as bs. intros bs. induction bs as [|b bs IH]; cbn; [done|]. rewrite IH. f_equal.
  apply sum_by_perm. unfold versions_desc. by rewrite order_by_perm.
Qed.

Lemma looks_counts f t bs a b c : looks f t (version_counts bs a b c) (fun r => r =
  (a + over_binaries (fun _ => 1) bs t, b + over_binaries (fun v => if is_signed v then 1 else 0) bs t,
   c + over_binaries (fun v => if v_is_published v then 1 else 0) bs t)).
Proof.
  revert a b c. induction bs as [|x bs IH]; intros a b c; cbn [version_counts].
  - apply looks_ret. unfold over_binaries. cbn. by rewrite !Z.add_0_r.
  - eapply looks_bind; [apply looks_query|intros vs [= <-]]. eapply looks_weaken; [apply IH|]. intros r ->. cbn.
    rewrite !filter_sum, lenZ_sum. unfold over_binaries. cbn. rewrite !Z.add_assoc. done.
Qed.
(** The commands start alike; a report says what it says and changes nothing. *)
Lemma looks_opened {A} f t (k : psys A) Q : looks f t k Q ->
  looks f t (present ←! look (exists_ DB_FILE); if negb present then sfail (PMsg not_initialized) else open_db ;;! k)%sys Q.
Proof.
  intros Hk. eapply looks_bind; [apply looks_look, reads_exists|intros [] _; cbn [negb]; [|apply looks_fail]].
  eapply looks_bind; [apply looks_open|done].
Qed.

Lemma looks_report {A} (p : psys A) (Q : A -> Prop) s :
  tx (sy_db s) = None -> looks (files (sy_fs s)) (disk (sy_db s)) p Q ->
  let '(r, s') := p s in
  files (sy_fs s') = files (sy_fs s) /\ disk (sy_db s') = disk (sy_db s) /\ forall a, r = Ok a -> Q a.
Proof.
  intros Ht Hp. specialize (Hp s (conj eq_refl (conj Ht eq_refl))).
  destruct (p s) as [[a|e] s']; [destruct Hp as [(? & _ & ?) Ho]|destruct Hp as (? & _ & ?)];
    (split; [done|]; split; [done|]); intros a' Ha; congruence.
Qed.

(** The list of a project shows every binary, with all its versions, newest first. *)
Theorem list_complete json s :
  tx (sy_db s) = None ->
  let '(r, s') := list_run None json s in
  files (sy_fs s') = files (sy_fs s) /\ disk (sy_db s') = disk (sy_db s) /\
  forall out, r = Ok out -> out =
    (fun b => binary_output b (versions_desc (b_binary_id b) (disk (sy_db s)))) <$> order_by Asc b_binary_name (pt_binaries (disk (sy_db s))).
Proof.
  intros Ht. apply looks_report; [done|]. apply looks_opened.
  eapply looks_bind; [apply looks_query|intros bs [= <-]]. cbn [named].
  case_bool_decide as E; [apply looks_ret; by rewrite E|]. eapply looks_bind; [apply looks_outputs|intros out ->].
  case_match; [by apply looks_ret|apply looks_fail].
Qed.
(** On a consistent database [info] counts every binary and every version once. *)
Theorem info_counts s :
  tx (sy_db s) = None -> publisher_inv (disk (sy_db s)) ->
  let '(r, s') := info_run s in
  files (sy_fs s') = files (sy_fs s) /\ disk (sy_db s') = disk (sy_db s) /\
  forall i, r = Ok i ->
    in_binaries i = lenZ (pt_binaries (disk (sy_db s))) /\ in_versions i = lenZ (pt_versions (disk (sy_db s))) /\
    in_signed i = lenZ (List.filter is_signed (pt_versions (disk (sy_db s)))) /\
    in_published i = lenZ (List.filter v_is_published (pt_versions (disk (sy_db s)))).
Proof.
  intros Ht I. apply looks_report; [done|]. generalize dependent (disk (sy_db s)). intros t I. apply looks_opened.
  do 3 (eapply looks_bind; [apply looks_query|intros ? _]).
  eapply looks_bind with (Q := fun _ => True); [repeat case_match; by (apply looks_ret || apply looks_fail)|intros fp _].
  eapply looks_bind; [apply looks_query|intros bs [= <-]]. eapply looks_bind; [apply looks_counts|intros r ->].
  apply looks_ret. cbn. rewrite !over_all_binaries, <- !filter_sum, <- lenZ_sum by done. split; [|done].
  unfold lenZ. by rewrite order_by_perm.
Qed.

(** ** Sums that may overflow *)

(** [x] is the sum [z]: in a release build up to overflow, in a debug build exactly. *)
Definition sums_to (x z : Z) : Prop := x mod 2 ^ 64 = z mod 2 ^ 64 /\ (m = Debug -> x = z).

Lemma looks_add_i64 f t a b : looks f t (add_i64 m a b) (fun x => sums_to x (a + b)).
Proof.
  unfold add_i64, i64_result. destruct (_ && _); [by apply looks_ret|]. unfold sums_to. destruct m; [apply looks_fail|].
  apply looks_ret. split; [|done]. unfold as_i64. case_match; [by rewrite Z.mod_mod|].
  rewrite Zminus_mod, Z_mod_same_full, Z.sub_0_r, !Z.mod_mod by done. done.
Qed.

Lemma sums_trans a b x y : sums_to a x -> sums_to b (a + y) -> sums_to b (x + y).
Proof.
  intros [H1 H2] [H3 H4]. split; [|intros E; rewrite H4, H2 by done; done].
  rewrite H3, Z.add_mod, H1, <- Z.add_mod by done. done.
Qed.

Lemma sums_add a b x y z : sums_to x (0 + y) -> sums_to b (a + x) -> y = z -> sums_to b (a + z).
Proof.
  intros [H1 H2] [H3 H4] <-. split; [|intros E; rewrite H4, H2 by done; done].
  rewrite H3, Z.add_mod, H1, <- Z.add_mod by done. done.
Qed.

Lemma looks_sum_i64 f t total l : looks f t (sum_i64 m total l) (fun x => sums_to x (total + sum_by id l)).
Proof.
  revert total. induction l as [|y l IH]; intros total; cbn [sum_i64].
  - apply looks_ret. cbn [sum_by]. rewrite Z.add_0_r. by split.
  - eapply looks_bind; [apply looks_add_i64|intros a Ha]. eapply looks_weaken; [apply IH|]. intros x Hx. cbn.
    rewrite Z.add_assoc. exact (sums_trans _ _ _ _ Ha Hx).
Qed.
Lemma looks_savings f t vs ds total found : looks f t (savings_of m vs ds total found) (fun _ => True).
Proof.
  revert total found. induction ds as [|d ds IH]; intros total found; cbn [savings_of]; [by apply looks_ret|].
  repeat case_match; auto. do 2 (eapply looks_bind; [apply looks_add_i64|intros ? _]). apply IH.
Qed.

Definition completed_jobs (t : publisher_tables) : list DbDiffJob :=
  order_by Asc j_created_at (List.filter (fun j => bool_decide (j_status j = job_status_as_str Completed)) (pt_jobs t)).
Definition diff_sizes (ds : list DbDiffJob) : Z := sum_by id (omap j_diff_size_bytes ds).

Lemma no_diffs ds : diff_sizes (binary_diffs [] ds) = 0.
Proof.
  unfold diff_sizes, binary_diffs. induction ds as [|d ds IH]; [done|]. cbn [fmap list_fmap List.filter].
  rewrite bool_decide_eq_false_2 by apply not_elem_of_nil. exact IH.
Qed.

Lemma looks_stats_of f t bs so : looks f t (stats_of m bs so) (fun r =>
  sums_to (so_binary_size r) (so_binary_size so + over_binaries v_file_size_bytes bs t) /\
  sums_to (so_diff_size r) (so_diff_size so +
    sum_by (fun b => diff_sizes (binary_diffs (versions_desc (b_binary_id b) t) (completed_jobs t))) bs)).
Proof.
  revert so. induction bs as [|b bs IH]; intros so; cbn [stats_of].
  - apply looks_ret. unfold over_binaries. cbn [sum_by]. rewrite !Z.add_0_r. by repeat split.
  - eapply looks_bind; [apply looks_query|intros vs [= <-]]. case_bool_decide as E.
    { eapply looks_weaken; [apply IH|]. intros r. unfold over_binaries. cbn [sum_by]. rewrite E. cbn [sum_by].
      by rewrite no_diffs. }
    eapply looks_bind; [apply looks_sum_i64|intros x Hx]. eapply looks_bind; [apply looks_add_i64|intros y Hy].
    eapply looks_bind; [apply looks_query|intros ds [= <-]]. eapply looks_bind; [apply looks_sum_i64|intros z Hz].
    eapply looks_bind; [apply looks_add_i64|intros w Hw]. eapply looks_bind; [apply looks_savings|intros [u found] _].
    eapply looks_bind with (Q := fun _ => True).
    { case_match; [by apply looks_ret|]. eapply looks_weaken; [apply looks_add_i64|done]. }
    intros p _. eapply looks_weaken; [apply IH|]. cbn [so_binary_size so_diff_size]. intros r [H1 H2].
    unfold over_binaries. cbn [sum_by]. rewrite !Z.add_assoc. split.
    + eapply sums_trans; [|exact H1]. eapply sums_add; [exact Hx|exact Hy|]. apply sum_by_fmap.
    + eapply sums_trans; [|exact H2]. eapply sums_add; [exact Hz|exact Hw|done].
Qed.
(** The binary a diff belongs to. *)
Definition job_binary (t : publisher_tables) (j : DbDiffJob) : option string :=
  v_binary_id <$> seek (fun v => bool_decide (v_version_id v = j_from_version_id j)) (pt_versions t).

Lemma elem_of_ids x b t : x ∈ v_version_id <$> versions_desc b t <->
  exists v, v ∈ pt_versions t /\ v_binary_id v = b /\ v_version_id v = x.
Proof.
  rewrite list_elem_of_fmap. unfold versions_desc. setoid_rewrite order_by_perm. setoid_rewrite list_elem_of_In at 1.
  setoid_rewrite filter_In. setoid_rewrite <- list_elem_of_In. setoid_rewrite bool_decide_eq_true. naive_solver.
Qed.

Lemma version_by_id t v v' : publisher_inv t -> v ∈ pt_versions t -> v' ∈ pt_versions t ->
  v_version_id v = v_version_id v' -> v = v'.
Proof. intros I Hv Hv' E. eapply (NoDup_key_eq v_version_id); [apply I|done..]. Qed.

Lemma job_binary_spec t j v : publisher_inv t -> v ∈ pt_versions t -> v_version_id v = j_from_version_id j ->
  job_binary t j = Some (v_binary_id v).
Proof.
  intros I Hv E. unfold job_binary. destruct (seek _ _) as [v'|] eqn:Es.
  - apply seek_Some in Es as [Hv' E'%bool_decide_eq_true]. cbn. f_equal. f_equal. eapply version_by_id; [done..|congruence].
  - exfalso. pose proof (proj1 (seek_None _ _) Es v Hv) as Hf. cbn beta in Hf. by rewrite bool_decide_eq_true_2 in Hf.
Qed.

Lemma binary_diffs_of t b ds : publisher_inv t -> (forall j, j ∈ ds -> j ∈ pt_jobs t) ->
  binary_diffs (versions_desc b t) ds = List.filter (fun j => bool_decide (job_binary t j = Some b)) ds.
Proof.
  intros I. unfold binary_diffs. induction ds as [|j ds IH]; intros Hd; [done|]. cbn [List.filter]. rewrite IH by set_solver.
  destruct (pinv_job_ends _ I j) as (v & v' & Hv & Hv' & E & E' & Eb); [set_solver|].
  rewrite (job_binary_spec t j v I Hv E).
  replace (bool_decide (j_from_version_id j ∈ _) && bool_decide (j_to_version_id j ∈ _)) with (bool_decide (Some (v_binary_id v) = Some b)); [done|].
  rewrite <- bool_decide_and. apply bool_decide_ext. rewrite !elem_of_ids. split.
  - intros [= <-]. split; [by exists v|by exists v'].
  - intros [(u & Hu & <- & Eu) _]. do 2 f_equal. symmetry. eapply version_by_id; [done..|congruence].
Qed.

Lemma diff_sizes_sum ds : diff_sizes ds = sum_by (fun j => default 0 (j_diff_size_bytes j)) ds.
Proof. unfold diff_sizes. induction ds as [|j ds IH]; [done|]. cbn. destruct (j_diff_size_bytes j); cbn; by rewrite IH. Qed.

Lemma diffs_of_all t : publisher_inv t ->
  sum_by (fun b => diff_sizes (binary_diffs (versions_desc (b_binary_id b) t) (completed_jobs t)))
    (order_by Asc b_binary_name (pt_binaries t)) = diff_sizes (completed_jobs t).
Proof.
  intros I. rewrite (sum_by_perm _ _ _ (order_by_perm _ _ _)), (diff_sizes_sum (completed_jobs t)).
  assert (Hj : forall j, j ∈ completed_jobs t -> j ∈ pt_jobs t).
  { intros j. unfold completed_jobs. rewrite order_by_perm, list_elem_of_In, filter_In, <- list_elem_of_In. tauto. }
  rewrite <- (sum_groups (job_binary t) _ (Some <$> (b_binary_id <$> pt_binaries t))).
  - generalize (pt_binaries t) as bs. intros bs. induction bs as [|b bs IH]; cbn; [done|].
    by rewrite IH, binary_diffs_of, diff_sizes_sum.
  - apply NoDup_fmap_2; [apply _|apply I].
  - intros j Hin. destruct (pinv_job_ends _ I j (Hj j Hin)) as (v & _ & Hv & _ & E & _).
    rewrite (job_binary_spec t j v I Hv E). apply list_elem_of_fmap_2, (pinv_version _ I v Hv).
Qed.

(** On a consistent database the totals of [stats] are those of the tables: every
    version and every completed diff counts once - exactly with overflow checks, and
    up to overflow without. *)
Theorem stats_totals s :
  tx (sy_db s) = None -> publisher_inv (disk (sy_db s)) ->
  let '(r, s') := stats_run m None s in
  files (sy_fs s') = files (sy_fs s) /\ disk (sy_db s') = disk (sy_db s) /\
  forall so, r = Ok so ->
    sums_to (so_binary_size so) (sum_by v_file_size_bytes (pt_versions (disk (sy_db s)))) /\
    sums_to (so_diff_size so) (diff_sizes (completed_jobs (disk (sy_db s)))).
Proof.
  intros Ht I. apply looks_report; [done|]. generalize dependent (disk (sy_db s)). intros t I. apply looks_opened.
  eapply looks_bind; [apply looks_query|intros bs [= <-]]. rewrite <- (over_all_binaries _ t I), <- (diffs_of_all t I). cbn [named].
  case_bool_decide as E; [apply looks_ret; rewrite E; by repeat split|]. apply looks_stats_of.
Qed.
End Facts.

(** ** The command line *)

Inductive ConfigAction :=
| ConfigGet (key : option string)
| ConfigSet (key value : string)
| ConfigList
| ConfigReset (key : option string).

(** The shell of [Completions] is given by its name. *)
Inductive Commands :=
| Init (passphrase : option string)
| Keygen (output_dir passphrase : option string)
| Register (name version file platform : string) (description : option string) (no_diff : bool)
| Sign (version_id name version key_file passphrase : option string)
| List (name : option string) (json : bool)
| Publish (name version : string) (server_url api_key : option string) (yes : bool)
| Diff (name from_version to_version platform : string) (output : option string)
| DiffList (name status : option string)
| Config (action : ConfigAction)
| Info
| Cleanup (dry_run : bool) (max_age_days : option Z)
| Prune (name : string) (keep : nat) (delete_files dry_run : bool)
| Verify (name : string) (version : option string) (fix_ json : bool)
| Export (output : string) (include_keys include_binaries : bool) (format : string)
| Import (input : string) (merge overwrite : bool)
| Version
| Completions (shell : string)
| Stats (name : option string).

(** What a run meets: its build, the machine and the user, and the other crates. *)
Record surroundings := {
  sr_mode : profile;
  sr_host : publisher_host;
  sr_integrity : string;
  sr_rfc3339_now : system publisher_tables -> string;
  sr_utc_now : system publisher_tables -> Z;
  sr_parse_rfc3339 : string -> option Z;
  sr_prompts : nat -> result io_error string;
  sr_stdin : result io_error string;
  sr_signing_key : bytes;
  sr_salt : bytes;
  sr_nonce : bytes;
  sr_temp_dir : string;
  sr_url_parse : string -> result string server_url_parts;
  sr_net : nat -> upload -> result string answer;
  sr_status_text : Z -> string;
  sr_decode_text : bytes -> string;
  sr_publish_response : bytes -> result string PublishResponse;
  sr_diff_response : bytes -> result string PublishDiffResponse;
  sr_verifying_key : bytes -> bytes;
  sr_sign : bytes -> bytes -> bytes;
  sr_valid_key : bytes -> bool;
  sr_verify_signature : bytes -> bytes -> bytes -> bool;
  sr_blake3 : bytes -> bytes;
  sr_sha256 : bytes -> bytes;
  sr_bsdiff : bytes -> bytes -> result string bytes;
  sr_zstd : bytes -> Z -> result string bytes;
  sr_tar_gz : list tar_entry -> bytes;
  sr_untar : bytes -> result io_error (list (result io_error tar_entry));
  sr_metadata_json : ArchiveMetadata -> result string string;
  sr_metadata_of_json : string -> result string ArchiveMetadata;
  sr_version : string;
  sr_db_of_bytes : bytes -> result DbError publisher_tables;
}.

Section Main.
Context {SO : SqlOrder} {SV : Semver} {ET : ErrorTexts} {KC : KeyCrypto} {HI : HashIter} {WD : WalkDir}.
Context {H : Type} {SH : StreamHasher H bytes} {H2 : Type} (SH2 : StreamHasher H2 bytes).
#[local] Open Scope sys_scope.

Definition run_config (x : surroundings) (action : ConfigAction) : psys unit :=
  match action with
  | ConfigGet key => config_get key ;;! sret tt
  | ConfigSet key value => config_set (sr_host x) (sr_url_parse x) key value
  | ConfigList => config_list ;;! sret tt
  | ConfigReset key => config_reset (sr_host x) (sr_stdin x) key
  end.

Definition publisher_main (x : surroundings) (command : Commands) : psys unit :=
  match command with
  | Init passphrase =>
      init_run (sr_host x) (sr_integrity x) (sr_verifying_key x) (sr_prompts x) (sr_signing_key x) (sr_salt x) (sr_nonce x) passphrase
  | Keygen output_dir passphrase =>
      keygen_run (sr_verifying_key x) (sr_prompts x) (sr_signing_key x) (sr_salt x) (sr_nonce x) output_dir passphrase
  | Register name version file platform description no_diff =>
      register_run (SH := SH) SH2 (sr_host x) (sr_bsdiff x) (sr_zstd x) (sr_blake3 x) name version file platform description no_diff
  | Sign version_id name version key_file passphrase =>
      sign_run (sr_rfc3339_now x) (sr_sign x) (sr_prompts x 0%nat) version_id name version key_file passphrase
  | List name json => list_run name json ;;! sret tt
  | Publish name version server_url api_key yes =>
      publish_run (sr_host x) (sr_blake3 x) (sr_net x) (sr_status_text x) (sr_decode_text x) (sr_publish_response x)
        (sr_diff_response x) (sr_stdin x) name version server_url api_key yes
  | Diff name from_version to_version platform output =>
      diff_run (SH := SH) (sr_host x) (sr_bsdiff x) (sr_zstd x) (sr_blake3 x) name platform from_version to_version output ;;! sret tt
  | DiffList name status => diff_list_run name status ;;! sret tt
  | Config action => run_config x action
  | Info => info_run ;;! sret tt
  | Cleanup dry_run max_age_days => run_cleanup (sr_mode x) dry_run max_age_days ;;! sret tt
  | Prune name keep delete_files dry_run => run_prune (sr_mode x) name keep delete_files dry_run ;;! sret tt
  | Verify name version fix_ json =>
      verify_run (sr_blake3 x) (sr_sha256 x) (sr_valid_key x) (sr_verify_signature x) (sr_parse_rfc3339 x) (sr_utc_now x)
        (sr_stdin x) name version fix_ json ;;! sret tt
  | Export output include_keys include_binaries format =>
      export_run (sr_tar_gz x) (sr_metadata_json x) (sr_rfc3339_now x) (sr_version x) output include_keys include_binaries format
  | Import input merge overwrite =>
      import_run (sr_host x) (sr_untar x) (sr_metadata_of_json x) (sr_db_of_bytes x) (sr_temp_dir x) input merge overwrite
  | Version | Completions _ => sret tt
  | Stats name => stats_run (sr_mode x) name ;;! sret tt
  end.

(** The process ends with 1 after an error and with 101 after a panic. *)
Definition publisher_exit (x : surroundings) (command : Commands) (s : system publisher_tables) : Z :=
  match (publisher_main x command s).1 with Ok _ => 0 | Err PPanic => 101 | Err _ => 1 end.
End Main.

(** ** The database stays consistent *)

(** Outside a transaction, with tables that satisfy the invariant. *)
Definition p_consistent `{SV : Semver} (c : conn publisher_tables) : Prop := tx c = None /\ publisher_inv (disk c).

Section Sound.
Context {SV : Semver} {SL : SemverLaws SV} {SO : SqlOrder}.
Abbreviation sound := (fun s : system publisher_tables => p_consistent (sy_db s)).

Lemma p_settled {A} (op : db publisher_tables DbError A) c : keeps_inv publisher_inv op -> p_consistent c -> p_consistent (op c).2.
Proof. intros Ho [Ht Hi]. destruct (Ho c Ht) as [H1 H3]. split; [done|]. destruct (op c) as [[a|e] c']; cbn in *; auto. Qed.

Lemma p_sound_db {A} (op : db publisher_tables DbError A) : keeps_inv publisher_inv op -> keeps sound (pdb op).
Proof. intros Ho s Hs. pose proof (p_settled op _ Ho Hs) as Hc. unfold pdb, of_db. by destruct (op (sy_db s)). Qed.

Lemma p_sound_query {A} (g : publisher_tables -> result SqlxError A) : keeps sound (pdb (q (query g))).
Proof. apply p_sound_db, preserves_query. Qed.

Lemma p_sound_op (o : publisher_op) : keeps sound (pdb (run_publisher_op o)).
Proof. apply p_sound_db, run_publisher_op_preserves. Qed.

Lemma p_forget {A} (op : db publisher_tables DbError A) : keeps_inv publisher_inv (forget op) -> keeps_inv publisher_inv op.
Proof. intros Hm c Hc. specialize (Hm c Hc). unfold forget, dbind in Hm. by destruct (op c) as [[a|e] c']. Qed.

Lemma p_sound_forget {A} (op : db publisher_tables DbError A) (o : publisher_op) :
  run_publisher_op o = forget op -> keeps sound (pdb op).
Proof. intros E. apply p_sound_db, p_forget. rewrite <- E. apply run_publisher_op_preserves. Qed.

Lemma p_sound_open : keeps sound open_db.
Proof.
  apply p_sound_db. intros c Hc. destruct (effect_query (fun _ : publisher_tables => Ok tt) c Hc) as [H1 H3].
  destruct (query _ c) as [[[]|e] c']; cbn in *; [by destruct H3 as [_ ->]|by rewrite H3].
Qed.

Lemma p_sound_binary now id b : keeps sound (psys_db (insert_binary now id b)).
Proof.
  intros s [Ht Hi]. destruct (insert_binary_preserves now id b s Ht) as [H1 H3]. unfold psys_db.
  destruct (insert_binary now id b s) as [[a|e] s']; cbn in *; split; auto.
Qed.

Lemma p_sound_io {A E} (m0 : io (result E A)) (g : E -> publisher_error) : keeps sound (of_io (io_map (map_err g) m0)).
Proof. apply keeps_io. apply _. Qed.

(** A statement on another database only takes its turn in the schedule. *)
Lemma p_sound_source {A} t (op : db publisher_tables DbError A) : keeps sound (on_source t op).
Proof. intros s Hs. unfold on_source. by destruct (op _). Qed.
End Sound.

Ltac p_sound_db_tac :=
  first
    [ apply p_sound_open
    | apply p_sound_query
    | apply p_sound_binary
    | apply p_sound_source
    | eapply (p_sound_op (POpInit _ _))
    | eapply (p_sound_op (POpSetConfig _ _ _))
    | eapply (p_sound_op (POpSign _ _ _))
    | eapply (p_sound_op (POpPublish _ _))
    | eapply (p_sound_op (POpRehash _ _ _ _))
    | eapply (p_sound_op (POpRunning _ _))
    | eapply (p_sound_op (POpCompleted _ _ _ _ _ _))
    | eapply (p_sound_op (POpFailed _ _ _))
    | eapply (p_sound_forget _ (POpInsertVersion _ _ _)); reflexivity
    | eapply (p_sound_forget _ (POpInsertJob _ _ _)); reflexivity
    | eapply (p_sound_forget _ (POpDeleteJob _)); reflexivity
    | eapply (p_sound_forget _ (POpDeleteVersion _)); reflexivity
    | eapply (p_sound_forget _ (POpDeleteJobs _)); reflexivity ].

Ltac p_sound :=
  repeat first
    [ progress keeps_tac
    | progress unfold pio, pio_try, look, crypto_call, archive_call
    | lazymatch goal with
      | |- keeps _ (pdb _) => p_sound_db_tac
      | |- keeps _ (psys_db _) => p_sound_db_tac
      | |- keeps _ (on_source _ _) => p_sound_db_tac
      | |- keeps _ open_db => p_sound_db_tac
      end ].

Section Facts.
Context {SV : Semver} {SL : SemverLaws SV} {SO : SqlOrder} {ET : ErrorTexts} {KC : KeyCrypto} {HI : HashIter} {WD : WalkDir}.
Context {H : Type} {SH : StreamHasher H bytes} {H2 : Type} (SH2 : StreamHasher H2 bytes) (x : surroundings).
Abbreviation sound := (fun s : system publisher_tables => p_consistent (sy_db s)).

Lemma p_sound_setup passphrase : keeps sound
  (init_run (sr_host x) (sr_integrity x) (sr_verifying_key x) (sr_prompts x) (sr_signing_key x) (sr_salt x) (sr_nonce x) passphrase).
Proof. unfold init_run, save_keys, save_signing, create_db, prompt_passphrase, prompt_password. p_sound. Qed.

Lemma p_sound_keygen dir passphrase : keeps sound
  (keygen_run (sr_verifying_key x) (sr_prompts x) (sr_signing_key x) (sr_salt x) (sr_nonce x) dir passphrase).
Proof. unfold keygen_run, save_keys, save_signing, prompt_passphrase, prompt_password. p_sound. Qed.

Lemma p_sound_config action : keeps sound (run_config x action).
Proof.
  assert (Hr : forall ks, keeps sound (reset_keys (sr_host x) ks)).
  { induction ks as [|k ks IH]; cbn [reset_keys]; unfold reset_key, set_value; p_sound. }
  assert (Hl : forall b ks, keeps sound (list_keys b ks)).
  { induction ks as [|k ks IH]; cbn [list_keys]; unfold get_value; p_sound. }
  assert (Hs : forall ks, keeps sound (show_all ks)).
  { induction ks as [|k ks IH]; cbn [show_all]; unfold get_value; p_sound. }
  unfold run_config, config_get, config_set, config_list, config_reset, reset_key, set_value, get_value. p_sound.
Qed.

Abbreviation single := (generate_single_diff (SH := SH) (sr_host x) (sr_bsdiff x) (sr_zstd x) (sr_blake3 x)).

Lemma p_sound_job m a b dir : keeps sound (single m a b dir).
Proof.
  assert (Hf : forall A id msg, keeps sound (job_failed (A := A) (sr_host x) id msg)).
  { intros A id msg. unfold job_failed. p_sound. }
  assert (Hl : forall n, keeps sound (lock_loop n)).
  { induction n; cbn [lock_loop]; p_sound. }
  unfold generate_single_diff, run_job, store_diff, open_input, read_input, lock_input, verify_input, diff_or_failed, skip_diff, or_job_failed.
  p_sound.
Qed.

Lemma p_sound_register name version file platform description no_diff : keeps sound
  (register_run (SH := SH) SH2 (sr_host x) (sr_bsdiff x) (sr_zstd x) (sr_blake3 x) name version file platform description no_diff).
Proof.
  pose proof p_sound_job.
  assert (Ha : forall m v dir vs rs, keeps sound
    (generate_all (SH := SH) (sr_host x) (sr_bsdiff x) (sr_zstd x) (sr_blake3 x) m v dir vs rs)).
  { intros m v dir. induction vs as [|a vs IH]; intros rs; cbn [generate_all]; p_sound. }
  unfold register_run, get_or_create_binary, register_version, generate_diff_for_version. p_sound.
Qed.

Lemma p_sound_sign id name version key_file passphrase : keeps sound
  (sign_run (sr_rfc3339_now x) (sr_sign x) (sr_prompts x 0%nat) id name version key_file passphrase).
Proof. unfold sign_run, find_version, load_key. p_sound. Qed.

Lemma p_sound_diff name platform from to output : keeps sound
  (diff_run (SH := SH) (sr_host x) (sr_bsdiff x) (sr_zstd x) (sr_blake3 x) name platform from to output).
Proof. pose proof p_sound_job. unfold diff_run, generate_diff_between. p_sound. Qed.

Lemma p_sound_diff_list name status : keeps sound (diff_list_run name status).
Proof.
  assert (Hl : forall js shown, keeps sound (listed_jobs name js shown)).
  { induction js as [|j js IH]; intros shown; cbn [listed_jobs]; p_sound. }
  unfold diff_list_run. p_sound.
Qed.

Lemma p_sound_reports : (forall name json, keeps sound (list_run name json)) /\ keeps sound info_run /\
  forall name, keeps sound (stats_run (sr_mode x) name).
Proof.
  assert (Ho : forall bs, keeps sound (outputs bs)).
  { induction bs as [|b bs IH]; cbn [outputs]; p_sound. }
  assert (Hv : forall bs a b c, keeps sound (version_counts bs a b c)).
  { induction bs as [|b0 bs IH]; intros a b c; cbn [version_counts]; p_sound. }
  assert (Ha : forall a b, keeps sound (add_i64 (sr_mode x) a b)) by (intros a b; unfold add_i64; p_sound).
  assert (Hm : forall l n, keeps sound (sum_i64 (sr_mode x) n l)).
  { induction l as [|y l IH]; intros n; cbn [sum_i64]; p_sound. }
  assert (Hg : forall vs ds n found, keeps sound (savings_of (sr_mode x) vs ds n found)).
  { intros vs. induction ds as [|d ds IH]; intros n found; cbn [savings_of]; p_sound. }
  assert (Ht : forall bs so, keeps sound (stats_of (sr_mode x) bs so)).
  { induction bs as [|b bs IH]; intros so; cbn [stats_of]; p_sound. }
  split_and!; [intros name json; unfold list_run|unfold info_run|intros name; unfold stats_run]; p_sound.
Qed.

Lemma p_sound_cleanup dry max_age : keeps sound (run_cleanup (sr_mode x) dry max_age).
Proof.
  assert (Ha : forall a b, keeps sound (add_u64 (sr_mode x) a b)) by (intros a b; unfold add_u64; p_sound).
  assert (Hv : forall dir rels known ty r, keeps sound (visit_entries (sr_mode x) dir rels known dry ty r)).
  { intros dir. induction rels as [|rel rels IH]; intros known ty r; cbn [visit_entries];
      unfold visit_entry, record_orphan, size_or_zero; p_sound. }
  assert (Hp : forall bs known, keeps sound (version_paths bs known)).
  { induction bs as [|b bs IH]; intros known; cbn [version_paths]; p_sound. }
  assert (Hj : forall js r, keeps sound (clean_jobs js r dry)).
  { induction js as [|j js IH]; intros r; cbn [clean_jobs]; p_sound. }
  unfold run_cleanup, find_orphaned_diffs, find_orphaned_binaries, cleanup_failed_jobs, walk_directory_for_orphans. p_sound.
Qed.

Lemma p_sound_prune name keep del dry : keeps sound (run_prune (sr_mode x) name keep del dry).
Proof.
  assert (Ha : forall a b, keeps sound (add_u64 (sr_mode x) a b)) by (intros a b; unfold add_u64; p_sound).
  assert (Hd : forall js id t, keeps sound (prune_diffs (sr_mode x) js id dry t)).
  { induction js as [|j js IH]; intros id t; cbn [prune_diffs]; unfold prune_diff, size_or_zero; p_sound. }
  assert (Hv : forall vs t, keeps sound (prune_versions (sr_mode x) vs del dry t)).
  { induction vs as [|v vs IH]; intros t; cbn [prune_versions]; unfold prune_version, prune_file, delete_records; p_sound. }
  assert (Hb : forall bs t, keeps sound (prune_binaries (sr_mode x) bs keep del dry t)).
  { induction bs as [|b bs IH]; intros t; cbn [prune_binaries]; p_sound. }
  unfold run_prune. p_sound.
Qed.

Lemma p_sound_verify name version fix_ json : keeps sound
  (verify_run (sr_blake3 x) (sr_sha256 x) (sr_valid_key x) (sr_verify_signature x) (sr_parse_rfc3339 x) (sr_utc_now x)
     (sr_stdin x) name version fix_ json).
Proof.
  assert (Hv : forall bs found, keeps sound (versions_to_verify bs version found)).
  { induction bs as [|b bs IH]; intros found; cbn [versions_to_verify]; p_sound. }
  assert (He : forall vs key rs, keeps sound (verify_each (sr_blake3 x) (sr_sha256 x) (sr_verify_signature x)
    (sr_parse_rfc3339 x) (sr_utc_now x) vs key fix_ rs)).
  { induction vs as [|[[v n] pl] vs IH]; intros key rs; cbn [verify_each];
      unfold verify_version, check_blake3, check_sha256, check_signature, check_timestamp; p_sound. }
  unfold verify_run, load_public_key. p_sound.
Qed.

(** Requests and contexts. *)
Lemma p_sound_api {A} (p : api A) : (forall s, sy_db (p s).2 = sy_db s) -> keeps sound (api_call p) /\ keeps sound (api_try p).
Proof.
  intros Hp. split; intros s Hs; specialize (Hp s); unfold api_call, api_try; destruct (p s) as [r s']; cbn in *; by rewrite Hp.
Qed.

Lemma p_sound_context {A} t (p : psys A) : keeps sound p -> keeps sound (PublishCommand.in_context t p).
Proof. intros Hp s Hs. specialize (Hp s Hs). unfold PublishCommand.in_context. by destruct (p s). Qed.

Lemma retry_keeps_db c u n k e s : sy_db (retry_loop (sr_net x) c u n k e s).2 = sy_db s.
Proof.
  revert k e s. induction n as [|n IH]; intros k e s; cbn [retry_loop]; [done|]. unfold sbind, post.
  destruct (sr_net x (sy_requests s) u) as [a|e']; [case_match; [done|]|]; destruct n; try done; unfold sleep; by rewrite IH.
Qed.

Lemma p_sound_publish name version url key yes : keeps sound
  (publish_run (sr_host x) (sr_blake3 x) (sr_net x) (sr_status_text x) (sr_decode_text x) (sr_publish_response x)
     (sr_diff_response x) (sr_stdin x) name version url key yes).
Proof.
  assert (Ha : forall A c u (k : answer -> api A), (forall a s, sy_db (k a s).2 = sy_db s) ->
    forall s, sy_db (sbind (execute_with_retry (sr_net x) c u) k s).2 = sy_db s).
  { intros A c u k Hk s. unfold sbind, execute_with_retry. pose proof (retry_keeps_db c u (ac_max_retries c) 0 None s) as Hr.
    destruct (retry_loop _ _ _ _ _ _ s) as [[a|e] s']; cbn in *; [by rewrite Hk|done]. }
  assert (Hr : forall A (d : bytes -> result string A) a s, sy_db (read_answer (sr_status_text x) (sr_decode_text x) d a s).2 = sy_db s).
  { intros A d a s. unfold read_answer. by case_match. }
  assert (Hu : forall c n v pl ds fs, keeps sound (upload_diffs (sr_blake3 x) (sr_net x) (sr_status_text x) (sr_decode_text x)
    (sr_diff_response x) c n v pl ds fs)).
  { intros c n v pl. induction ds as [|d ds IH]; intros fs; cbn [upload_diffs]; unfold upload_diff; p_sound.
    apply p_sound_api, Ha, Hr. }
  unfold publish_run, choose_server, confirm_server, read_release, upload_release, get_diffs_for_version.
  p_sound; try (apply p_sound_context); p_sound. apply p_sound_api, Ha, Hr.
Qed.

Lemma p_sound_export output keys binaries format : keeps sound
  (export_run (sr_tar_gz x) (sr_metadata_json x) (sr_rfc3339_now x) (sr_version x) output keys binaries format).
Proof.
  assert (Hc : forall bs n, keeps sound (Export.count_versions bs n)).
  { induction bs as [|b bs IH]; intros n; cbn [Export.count_versions]; p_sound. }
  assert (Hv : forall b vs a, keeps sound (export_versions b vs a)).
  { intros b. induction vs as [|v vs IH]; intros a; cbn [export_versions]; unfold on_builder; p_sound. }
  assert (Hb : forall bs a, keeps sound (export_each_binary bs a)).
  { induction bs as [|b bs IH]; intros a; cbn [export_each_binary]; p_sound. }
  assert (Hd : forall js a, keeps sound (export_each_diff js a)).
  { induction js as [|j js IH]; intros a; cbn [export_each_diff]; unfold export_diff, on_builder; p_sound. }
  unfold export_run, export_entries, export_key, export_binaries, export_diffs, on_builder. p_sound.
Qed.

(** ** Imports *)

(** The databases that can be read are consistent: they were written by publishers. *)
Definition sound_files : Prop := forall content t, sr_db_of_bytes x content = Ok t -> publisher_inv t.
Context (Hfiles : sound_files).

Lemma p_sound_reload {A} (p : psys A) : keeps sound (reload (sr_db_of_bytes x) p).
Proof.
  intros s _. unfold reload. destruct (p s) as [r s']. split; [done|]. cbn. unfold tables_at.
  destruct (fs_read _ _) as [c|]; [|apply empty_publisher_inv].
  destruct (sr_db_of_bytes x c) as [t|] eqn:E; [by eapply Hfiles|apply empty_publisher_inv].
Qed.

Lemma p_sound_temp {A} dir (p : psys A) : keeps sound p -> keeps sound (with_temp_dir dir p).
Proof. intros Hp s Hs. specialize (Hp s Hs). unfold with_temp_dir. by destruct (p s). Qed.

Lemma p_sound_import input merge overwrite : keeps sound
  (import_run (sr_host x) (sr_untar x) (sr_metadata_of_json x) (sr_db_of_bytes x) (sr_temp_dir x) input merge overwrite).
Proof.
  assert (Hf : forall l, keeps sound (first_file l)).
  { induction l as [|y l IH]; cbn [first_file]; p_sound. }
  assert (Hv : forall b id vs, keeps sound (merge_versions (sr_host x) b id vs)).
  { intros b id. induction vs as [|v vs IH]; cbn [merge_versions]; unfold merge_version; p_sound. }
  assert (Hb : forall t bs, keeps sound (merge_binaries (sr_host x) t bs)).
  { intros t. induction bs as [|b bs IH]; cbn [merge_binaries]; unfold merge_binary; p_sound. }
  assert (He : forall src dst rels, keeps sound (import_each src dst merge rels)).
  { intros src dst. induction rels as [|rel rels IH]; cbn [import_each]; unfold import_file, validate_safe_path; p_sound. }
  assert (Hq : forall bs, keeps sound (query_versions bs)).
  { induction bs as [|b bs IH]; cbn [query_versions]; p_sound. }
  pose proof (@p_sound_reload). unfold import_run. p_sound. apply p_sound_temp.
  unfold import_project, import_database, import_keys, import_key, set_owner_only_permissions, import_binaries, import_diffs, import_tree,
    merge_databases, open_source, verify_import. p_sound.
Qed.
End Facts.

Lemma p_sound_main {SV : Semver} {SL : SemverLaws SV} {SO : SqlOrder} {ET : ErrorTexts} {KC : KeyCrypto} {HI : HashIter} {WD : WalkDir}
    {H : Type} {SH : StreamHasher H bytes} {H2 : Type} (SH2 : StreamHasher H2 bytes) (x : surroundings) command :
  (forall input merge overwrite, command = Import input merge overwrite -> sound_files x) ->
  keeps (fun s => p_consistent (sy_db s)) (publisher_main (SH := SH) SH2 x command).
Proof.
  intros Hi. pose proof (p_sound_reports x) as (H1 & H3 & H4).
  pose proof (p_sound_setup x). pose proof (p_sound_keygen x). pose proof (p_sound_config x).
  pose proof (p_sound_register (SH := SH) SH2 x). pose proof (p_sound_sign x). pose proof (p_sound_diff (SH := SH) x).
  pose proof p_sound_diff_list. pose proof (p_sound_cleanup x). pose proof (p_sound_prune x). pose proof (p_sound_verify x).
  pose proof (p_sound_publish x). pose proof (p_sound_export x).
  unfold publisher_main. destruct command; p_sound. apply p_sound_import. by eapply Hi.
Qed.

(** ** Runs over time *)

Section History.
Context {SV : Semver} {SL : SemverLaws SV} {SO : SqlOrder} {ET : ErrorTexts} {KC : KeyCrypto} {HI : HashIter} {WD : WalkDir}.
Context {H : Type} {SH : StreamHasher H bytes} {H2 : Type} (SH2 : StreamHasher H2 bytes).

(** A project from the day its database is new: any commands, each in whatever
    surroundings it meets, imports of databases that other publishers wrote
    included; between runs everything but the rows may change. *)
Inductive publisher_history : system publisher_tables -> Prop :=
| project_new s : disk (sy_db s) = empty_publisher -> tx (sy_db s) = None -> publisher_history s
| project_between s s' :
    publisher_history s -> disk (sy_db s') = disk (sy_db s) -> tx (sy_db s') = None -> publisher_history s'
| project_run x command s :
    (forall input merge overwrite, command = Import input merge overwrite -> sound_files x) ->
    publisher_history s -> publisher_history (publisher_main (SH := SH) SH2 x command s).2.

(** C33: After any history of runs of the publisher's tool - any commands in any
    surroundings, whatever calls and statements fail, imports of databases that other
    publishers wrote included - no transaction is open and the rows of the database
    are well formed: keys are unique, versions belong to binaries and diffs to
    versions of one binary, platforms, hashes, version strings and states are valid. *)
Theorem publisher_history_consistent s : publisher_history s -> p_consistent (sy_db s).
Proof.
  induction 1 as [s Hd Ht|s s' _ [_ Hi] Hd Ht|x command s Hi _ Hc].
  - split; [done|]. rewrite Hd. apply empty_publisher_inv.
  - split; [done|]. by rewrite Hd.
  - by apply p_sound_main.
Qed.
End History.
