(* ===== verification/PublisherScenarios.v ===== *)
(** * PublisherScenarios: a concrete publisher

    A working tree, a database and a compressor on which the theorems about the
    publisher's tools run, and scenarios with a surprising outcome. *)

From Stdlib Require Import QArith.
From S2P Require Import Prelude Text Diff Version SemverRef Core Validation RateLimit Fs Crypto DbModels Sql ClientDb ClientDbFacts System ClientConfig Downloader Checker InstallPath Patcher.
From S2P Require Import Storage Instances Auth Publish Scenarios PublisherDb PublisherDbFacts DbScenarios ClientScenarios DiffManager Project DiffManagerFacts.

#[local] Open Scope Z_scope.
#[local] Existing Instance toy_texts.
#[local] Existing Instance toy_hasher.
#[local] Existing Instance toy_hasher_law.

(** ** Stand-ins *)

(** A compressor with one word in its dictionary. *)
Definition toy_encode (word d : bytes) (level : Z) : result string bytes :=
  Ok (zstd_magic ++ (if bool_decide (d = word) then [byte_of_Z 1] else byte_of_Z 0 :: d)).
Definition toy_decoder (word c : bytes) : result string (bytes * option string) :=
  match drop 4 c with
  | b :: d => Ok (if bool_decide (b = byte_of_Z 1) then word else d, None)
  | [] => Err "unexpected end of file"
  end.

Lemma toy_codec_correct word : codec_correct (toy_encode word) (toy_decoder word).
Proof.
  intros d level c [= <-]. split; [|done]. unfold toy_decoder, zstd_magic. cbn [app drop].
  case_bool_decide as E; [by subst|done].
Qed.

Definition quiet_host : publisher_host :=
  {| ph_now _ := "2024-05-03 08:00:00"; ph_uuid s := "job-" +:+ pretty (tick (sy_fs s)); ph_clock s := Z.of_nat (tick (sy_fs s)) |}.

(** ** Two versions of a tool *)

Definition tool_v1 : bytes := as_bytes "tool, version one".
Definition tool_v2 : bytes := as_bytes "tool, version two".
Definition tool_diff : bytes := encode_patch (delta_patch tool_v1 tool_v2).

Definition built (id v path : string) (data : bytes) : DbVersion :=
  new_version "t" id v {| nv_binary_id := "b1"; nv_version_string := v; nv_file_path := path;
    nv_file_size_bytes := lenZ data; nv_file_hash_blake3 := toy_digest data; nv_file_hash_sha256 := toy_digest data |}.
Definition row_v1 : DbVersion := built "v1" "1.0.0" "/build/tool1" tool_v1.
Definition row_v2 : DbVersion := built "v2" "1.1.0" "/build/tool2" tool_v2.

Definition tool_tables : publisher_tables := {|
  pt_created := {["versions"; "diff_jobs"; "binaries"]}; pt_schema_version := [1]; pt_config := ∅;
  pt_binaries := [new_binary "t" "b1" "/build/tool1" new_app]; pt_versions := [row_v1; row_v2]; pt_jobs := [] |}.

Definition build_tree : fs :=
  {[ ["build"] := Dir; ["build"; "tool1"] := File tool_v1; ["build"; "tool2"] := File tool_v2; ["out"] := Dir ]}.

Definition publisher_at (faults : nat -> option nat) : system publisher_tables :=
  Sys {| files := build_tree; faults := faults; tick := 0 |} (undisturbed tool_tables) [] [] [].
Definition publisher_start : system publisher_tables := publisher_at (fun _ => None).

Abbreviation make_diff := (generate_single_diff (SH := toy_hasher) quiet_host simple_diff (toy_encode tool_diff) toy_digest
  new_manager row_v1 row_v2 "/out").

Definition made : DiffResult :=
  match (make_diff publisher_start).1 with
  | Ok (Some d) => d
  | _ => {| dr_from_version := ""; dr_to_version := ""; dr_diff_path := ""; dr_diff_size := 0;
            dr_compression_ratio := 0%Q; dr_computation_time_ms := 0; dr_job_id := "" |}
  end.

Definition after_diff : system publisher_tables := (make_diff publisher_start).2.

Lemma diff_made : make_diff publisher_start = (Ok (Some made), after_diff).
Proof. exact (pair_fst (make_diff publisher_start) (Ok (Some made)) ltac:(vm_compute; reflexivity)). Qed.

Example diff_made_small : dr_diff_size made = 5 /\ dr_diff_path made = "/out/1.0.0-to-1.1.0.patch" /\
  j_status <$> pt_jobs (disk (sy_db after_diff)) = ["completed"].
Proof. vm_compute. split_and!; reflexivity. Qed.

(** A lock that is taken for good. *)
Definition locked_out : system publisher_tables :=
  publisher_at (fun n => if (2 <=? n)%nat && (n <=? 7)%nat then Some 0%nat else None).

Lemma diff_job_outcome_witness :
  has_job (pair_key new_manager row_v1 row_v2)
    (fun row => j_status row = "failed" /\ j_error_message row =
       Some "Failed to acquire read lock on source file /build/tool1 after 5 retries: io")
    (make_diff locked_out).2 /\
  sy_slept (make_diff locked_out).2 = [160; 80; 40; 20; 10].
Proof.
  pose proof (diff_job_outcome (SH := toy_hasher) quiet_host simple_diff (toy_encode tool_diff) toy_digest new_manager
                row_v1 row_v2 "/out" locked_out eq_refl) as H.
  assert ((make_diff locked_out).1 =
          Err (PMsg "Failed to acquire read lock on source file /build/tool1 after 5 retries: io")) as E1
    by (vm_compute; reflexivity).
  pose proof (pair_fst (make_diff locked_out) _ E1) as E.
  rewrite E in H. split; [exact H|]. vm_compute. reflexivity.
Defined.

Lemma pair_diffed_once_witness :
  exists e s', make_diff after_diff = (Err (PDb e), s') /\
    disk (sy_db s') = disk (sy_db after_diff) /\ sy_fs s' = sy_fs after_diff.
Proof.
  apply (pair_diffed_once (SH := toy_hasher) quiet_host simple_diff (toy_encode tool_diff) toy_digest new_manager row_v1 row_v2
           "/out" after_diff); [vm_compute; reflexivity|].
  eexists. split; [vm_compute; left|]. split; [vm_compute; reflexivity|exact I].
Defined.

(** The client of the other scenarios, with the first version installed and the
    diff downloaded. *)
Definition diff_update : UpdateInfo := {|
  ui_version := ui_version the_update; ui_version_id := "v2"; ui_diff_url := Some "https://up/diff";
  ui_diff_checksum := hash_to_hex <$> (job_row (dr_job_id made) after_diff ≫= j_diff_hash_blake3);
  ui_diff_size := Some 5; ui_full_binary_url := ui_full_binary_url the_update;
  ui_full_binary_size := ui_full_binary_size the_update; ui_checksum := ui_checksum the_update;
  ui_signature_url := ui_signature_url the_update; ui_forced := false; ui_release_notes := None |}.

Definition patched_client : system client_tables :=
  Sys {| files := <[resolve (diff_path toy_config first_row diff_update) :=
                    File (zstd_magic ++ [byte_of_Z 1])]>
                  (<[["opt"; "app"; "tool"] := File tool_v1]> client_disk);
         faults := fun _ => None; tick := 0 |} client_conn [] [] [].

Lemma completed_diff_updates_client_witness :
  (patch_current (SH := toy_hasher) (toy_decoder tool_diff) toy_config first_row diff_update patched_client).1 = Ok tool_v2.
Proof.
  apply (completed_diff_updates_client (SH := toy_hasher) toy_digest (toy_decoder tool_diff) quiet_host simple_diff
    (toy_encode tool_diff) new_manager row_v1 row_v2 "/out" publisher_start made after_diff tool_v1 tool_v2);
    [exact simple_diff_correct|apply toy_codec_correct|reflexivity|exact diff_made|vm_compute; reflexivity|
     vm_compute; reflexivity|vm_compute; congruence|vm_compute; congruence| |done|vm_compute; reflexivity|
     vm_compute; reflexivity|vm_compute; reflexivity].
  intros raw Hr. vm_compute in Hr. injection Hr as <-. vm_compute. congruence.
Defined.
