(* ===== verification/ArchiveScenarios.v ===== *)
(** * ArchiveScenarios: concrete archives

    A tar and gzip encoding that satisfies the law asked of the libraries, an
    archive that is built and unpacked, a hostile one, and an import that loses
    the project it was to replace. *)

From S2P Require Import Prelude Text Diff Version SemverRef Core Validation RateLimit Fs Storage StorageFacts Confinement Instances Admin Publish Scenarios DbModels Sql System PublisherDb PublisherDbFacts DbScenarios Downloader ClientScenarios.
From S2P Require Import Archive ArchiveFacts ArchiveRoundtrip Walk Project Import ImportFacts DiffManager DiffManagerFacts PublisherScenarios.

#[local] Open Scope Z_scope.
#[local] Existing Instance toy_texts.
#[local] Existing Instance fs_walk.

(** ** An encoding of archives *)

#[local] Instance io_error_eq_dec : EqDecision io_error.
Proof. solve_decision. Defined.
#[local] Instance io_error_countable : Countable io_error.
Proof.
  refine (inj_countable'
    (fun e => match e with
     | IoNotFound => (0, "") | IoNotADirectory => (1, "") | IoIsADirectory => (2, "")
     | IoInvalidData => (3, "") | IoFault => (4, "") | IoOther m => (5, m) end)
    (fun '(n, m) => if Z.eqb n 0 then IoNotFound else if Z.eqb n 1 then IoNotADirectory else
       if Z.eqb n 2 then IoIsADirectory else if Z.eqb n 3 then IoInvalidData else
       if Z.eqb n 4 then IoFault else IoOther m) _).
  by intros [].
Defined.
#[local] Instance entry_type_countable : Countable entry_type.
Proof.
  refine (inj_countable'
    (fun t => match t with Regular => 0 | Directory => 1 | Symlink => 2 | HardLink => 3 | OtherType => 4 end)
    (fun n => if Z.eqb n 0 then Regular else if Z.eqb n 1 then Directory else if Z.eqb n 2 then Symlink else
       if Z.eqb n 3 then HardLink else OtherType) _).
  by intros [].
Defined.
#[local] Instance byte_eq_dec' : EqDecision Byte.byte := Byte.byte_eq_dec.
#[local] Instance byte_countable' : Countable Byte.byte.
Proof.
  refine (inj_countable Byte.to_N Byte.of_N _). intros b. apply Byte.of_to_N.
Defined.
#[local] Instance result_eq_dec `{EqDecision E, EqDecision A} : EqDecision (result E A).
Proof. solve_decision. Defined.
#[local] Instance tar_entry_eq_dec : EqDecision tar_entry.
Proof. solve_decision. Defined.
#[local] Instance tar_entry_countable : Countable tar_entry.
Proof.
  refine (inj_countable'
    (fun e => (match te_path e with Ok p => inl p | Err x => inr x end, te_type e, te_size e, te_data e))
    (fun '(p, t, s, d) => {| te_path := match p with inl p => Ok p | inr x => Err x end; te_type := t; te_size := s; te_data := d |}) _).
  by intros [[]].
Defined.

Definition toy_tar_gz (es : list tar_entry) : bytes := as_bytes (bits (encode es)).
Definition toy_decode (content : bytes) : option (list tar_entry) :=
  match from_utf8 content with
  | Some t => match of_bits t with Some p => decode p | None => None end
  | None => None
  end.
Definition toy_entries (content : bytes) : result io_error (list (result io_error tar_entry)) :=
  match toy_decode content with
  | Some es => Ok (Ok <$> es)
  | None => Err IoInvalidData
  end.

Lemma toy_tar_gz_law es : toy_entries (toy_tar_gz es) = Ok (Ok <$> es).
Proof.
  unfold toy_entries, toy_decode, toy_tar_gz. rewrite from_utf8_as_bytes by apply bits_utf8.
  by rewrite of_bits_bits, decode_encode.
Qed.

(** ** A round trip *)

Definition packed : list item :=
  [ (["deltaship-export"], None);
    (["deltaship-export"; "metadata.json"], Some (as_bytes "{}"));
    (["deltaship-export"; "keys"; "public.key"], Some (as_bytes "k")) ].

Definition packing : ArchiveBuilder := {| ab_output := "out.tgz"; ab_base_dir := "deltaship-export"; ab_entries := entry_of <$> packed |}.
Definition empty_disk : world := {| files := {[ ["tmp"] := Dir ]}; faults := fun _ => None; tick := 0 |}.
Definition packed_disk : world := (finish toy_tar_gz packing empty_disk).2.

Lemma node_at_None_below (f : fs) d :
  bool_decide (map_Forall (fun p _ => negb (bool_decide (d `prefix_of` p)) = true) f) = true -> d <> [] ->
  forall x, node_at f (d ++ x) = None.
Proof.
  intros H%bool_decide_eq_true Hd x. unfold node_at. case_bool_decide as E; [by apply app_eq_nil in E as [-> _]|].
  apply eq_None_not_Some. intros [n Hn]. specialize (H _ _ Hn). cbn in H.
  rewrite bool_decide_eq_true_2 in H by (by exists x). done.
Qed.

Lemma good_items l :
  bool_decide (Forall (fun i : item => i.1 <> [] /\ Forall plain i.1 /\
    Forall (fun u => is_ascii_control u = false) (utf8_chars (chars (path_of i.1))) /\
    item_size i <= MAX_ENTRY_SIZE) l) = true -> Forall good_item l.
Proof. by intros H%bool_decide_eq_true. Qed.

Lemma archive_roundtrip_witness : exists w2,
  extract_archive toy_entries "out.tgz" "/tmp/x" packed_disk = (Ok "/tmp/x", w2) /\
  (forall p d, node_at (files w2) (["tmp"; "x"] ++ p) = Some (File d) <-> (p, Some d) ∈ packed) /\
  (forall p, (p, None) ∈ packed -> node_at (files w2) (["tmp"; "x"] ++ p) = Some Dir).
Proof.
  apply (archive_roundtrip toy_tar_gz toy_entries "/tmp/x" packed packing empty_disk packed_disk).
  - exact toy_tar_gz_law.
  - reflexivity.
  - apply good_items. vm_compute. reflexivity.
  - intros p d q o Hp Hq. unfold packed in *.
    rewrite !elem_of_cons, elem_of_nil in Hp, Hq. destruct_or!; simplify_eq; try done; intros [k Hk]; done.
  - vm_compute. congruence.
  - vm_compute. congruence.
  - exact (pair_fst (finish toy_tar_gz packing empty_disk) (Ok tt) ltac:(vm_compute; reflexivity)).
  - intros n. reflexivity.
  - vm_compute. reflexivity.
  - intros d c [k Hk]. destruct d as [|a [|b d]]; vm_compute in Hk |- *; simplify_eq; done.
  - apply node_at_None_below; [vm_compute; reflexivity|done].
Defined.

(** ** A hostile archive *)

Definition hostile : list tar_entry :=
  [ file_entry "deltaship-export/metadata.json" (as_bytes "{}"); file_entry "../../etc/passwd" (as_bytes "mallory") ].

Definition victim : world :=
  {| files := {[ ["tmp"] := Dir; ["etc"] := Dir; ["etc"; "passwd"] := File (as_bytes "root");
                 ["evil.tgz"] := File (toy_tar_gz hostile) ]}; faults := fun _ => None; tick := 0 |}.

Lemma extraction_confined_witness :
  confined ["tmp"; "x"] ["etc"; "passwd"] (Some (File (as_bytes "root")))
    (files (extract_archive toy_entries "/evil.tgz" "/tmp/x" victim).2 !! ["etc"; "passwd"]) /\
  (extract_archive toy_entries "/evil.tgz" "/tmp/x" victim).1 =
    Err (ValidationFailed "Path traversal detected in archive entry: ../../etc/passwd").
Proof.
  split; [|vm_compute; reflexivity].
  apply (extraction_confined "/tmp/x" ltac:(vm_compute; set_solver) toy_entries "/evil.tgz" victim ["etc"; "passwd"]).
Defined.

(** ** Imports *)

Definition toy_metadata (text : string) : result string ArchiveMetadata :=
  Ok (metadata_new "t" "0.1.0" None false true 0 0).
Definition toy_db (content : bytes) : result DbError publisher_tables :=
  if bool_decide (content = as_bytes "db") then Ok tool_tables else Err DbSqlx.

Definition project_tree : fs :=
  {[ ["tmp"] := Dir; [".deltaship"] := Dir; [".deltaship"; "publisher.db"] := File (as_bytes "db");
     [".deltaship"; "keys"] := Dir; [".deltaship"; "keys"; "signing.key"] := File (as_bytes "secret") ]}.
Definition project_with (archive : list tar_entry) : system publisher_tables :=
  Sys {| files := <[["in.tgz"] := File (toy_tar_gz archive)]> project_tree; faults := fun _ => None; tick := 0 |}
    (undisturbed tool_tables) [] [] [].

Abbreviation toy_import := (import_run (SO := sort_order) quiet_host toy_entries toy_metadata toy_db "/tmp/x" "in.tgz").

Lemma import_confined_witness :
  confined_to [[".deltaship"]; ["tmp"; "x"]] ["tmp"] (Some Dir)
    (files (sy_fs (toy_import true false (project_with hostile)).2) !! ["tmp"]).
Proof.
  apply (import_confined (SO := sort_order) quiet_host toy_entries toy_metadata toy_db "/tmp/x"
           ltac:(vm_compute; set_solver) "in.tgz" true false (project_with hostile) ["tmp"]).
Defined.

(** An archive with its metadata and nothing else. *)
Definition hollow : list tar_entry := [file_entry "deltaship-export/metadata.json" (as_bytes "{}")].

(** An overwriting import of an archive without a database has removed the project,
    its signing key included, before it finds the database missing. *)
Example overwrite_destroys_project :
  let '(r, s) := toy_import false true (project_with hollow) in
  r = Err (PMsg "Archive is missing publisher.db") /\
  files (sy_fs s) !! [".deltaship"; "keys"; "signing.key"] = None /\
  files (sy_fs s) !! [".deltaship"; "publisher.db"] = None /\
  pt_binaries (disk (sy_db s)) = [].
Proof. vm_compute. split_and!; reflexivity. Qed.
