(* ===== verification/SetupScenarios.v ===== *)
(** * SetupScenarios: key files, and a project that is made and configured

    A toy cipher and key derivation that satisfy [KeyCryptoLaws], and what is
    saved and loaded with them. *)

From S2P Require Import Prelude Text Version SemverRef Core Validation RateLimit Fs Crypto Scenarios DbModels Sql System PublisherDb.
From S2P Require Import PublisherDbFacts DbScenarios KeyFiles KeyFacts Archive Project Programs Release Verify Setup SetupFacts.
From S2P Require Import PublisherScenarios.

#[local] Open Scope Z_scope.

(** ** Key files with concrete functions *)

(** The tag of the toy cipher, which does not hide its text. *)
Definition toy_tag (k n : bytes) : bytes := take 16 (toy_digest (k ++ n)).

Definition toy_decrypt (k n c : bytes) : option bytes :=
  let d := take (length c - 16) c in
  if bool_decide (c = d ++ toy_tag k n) then Some d else None.

Definition hex_crate (s : string) : result string bytes :=
  map_err (fun _ => "Invalid character 'z' at position 2") (parse_hex_pairs (chars s)).

#[local] Instance toy_key_crypto : KeyCrypto := {|
  params_valid _ := true;
  encode_b64 _ := Ok "c2FsdA";
  argon2id p pass salt := Ok (Some (toy_digest pass));
  aead_encrypt k n d := Some (d ++ toy_tag k n);
  aead_decrypt := toy_decrypt;
  KeyFiles.hex_decode := hex_crate;
  point_valid b := lenZ b =? 32;
|}.

Lemma length_toy_tag k n : length (toy_tag k n) = 16%nat.
Proof. unfold toy_tag, toy_digest. by rewrite length_take, length_le_split. Qed.

#[local] Instance toy_key_laws : KeyCryptoLaws toy_key_crypto.
Proof.
  split; cbn [aead_encrypt aead_decrypt KeyFiles.hex_decode toy_key_crypto].
  - intros k n d c [= <-]. unfold toy_decrypt. rewrite length_app, length_toy_tag, Nat.add_sub, take_app_length. cbn zeta.
    by rewrite bool_decide_eq_true_2.
  - intros k n d c [= <-]. rewrite lenZ_app. unfold lenZ at 2. by rewrite length_toy_tag.
  - intros b. unfold hex_crate. rewrite chars_of_chars.
    by rewrite parse_hex_chars.
Qed.

Definition a_key : bytes := le_split 32 123456789.
Definition key_home : world := {| files := {[ ["keys"] := Dir ]}; faults := fun _ => None; tick := 0 |}.

Abbreviation save_demo pass := (save_signing_key a_key "/keys/app.key" pass LevelHigh (le_split 16 7) (le_split 12 8) key_home).

Lemma signing_key_roundtrip_witness :
  (load_signing_key "/keys/app.key" (Some "secret") (save_demo (Some "secret")).2).1 = Val (Ok a_key) /\
  (load_signing_key "/keys/app.key" None (save_demo (Some "secret")).2).1 = Val (Err PassphraseRequired).
Proof.
  pose proof (signing_key_roundtrip a_key "/keys/app.key" (Some "secret") LevelHigh (le_split 16 7) (le_split 12 8) key_home)
    as H.
  destruct (save_demo (Some "secret")) as [[[u|e]|] w'] eqn:E.
  - destruct (H ltac:(reflexivity) ltac:(reflexivity) ltac:(reflexivity) ltac:(discriminate) ltac:(discriminate) w') as [H1 H2].
    + split; [reflexivity|]. assert (faults w' = fun _ => None) as ->; [|reflexivity].
      change w' with (Val (Ok (E := CryptoError) u), w').2. rewrite <- E. vm_compute. reflexivity.
    + split; [exact H1|]. apply H2. discriminate.
  - exfalso. assert ((save_demo (Some "secret")).1 = Val (Ok tt)) as Hd by (vm_compute; reflexivity). rewrite E in Hd. discriminate Hd.
  - exfalso. assert ((save_demo (Some "secret")).1 = Val (Ok tt)) as Hd by (vm_compute; reflexivity). rewrite E in Hd. discriminate Hd.
Defined.

Lemma verifying_key_roundtrip_witness :
  (load_verifying_key "/keys/app.pub" (save_verifying_key a_key "/keys/app.pub" key_home).2).1 = Ok a_key.
Proof.
  pose proof (verifying_key_roundtrip a_key "/keys/app.pub" key_home ltac:(reflexivity) ltac:(reflexivity)
    ltac:(discriminate) ltac:(discriminate)) as H.
  destruct (save_verifying_key a_key "/keys/app.pub" key_home) as [[u|e] w'] eqn:E.
  - apply (H w'). split; [reflexivity|]. assert (faults w' = fun _ => None) as ->; [|reflexivity].
    change w' with (Ok (E := CryptoError) u, w').2. rewrite <- E. vm_compute. reflexivity.
  - exfalso. assert ((save_verifying_key a_key "/keys/app.pub" key_home).1 = Ok tt) as Hd by (vm_compute; reflexivity).
    rewrite E in Hd. discriminate Hd.
Defined.

(** Another passphrase does not decrypt. *)
Example wrong_passphrase :
  (load_signing_key "/keys/app.key" (Some "guess") (save_demo (Some "secret")).2).1 = Val (Err AeadDecryptionFailure).
Proof. vm_compute. reflexivity. Qed.

(** The error for the character [z] at position 2 names a zero at position 0. *)
Example hex_error_names_first_character : decode_hex_string "00zz" = Err (InvalidKeyFileHexChar ["0"%char] 0).
Proof. vm_compute. reflexivity. Qed.

(** Both keys of a pair are written through the same temporary file. *)
Example shared_temporary_file :
  with_extension "/keys/app.key" "tmp" = with_extension "/keys/app.pub" "tmp".
Proof. vm_compute. reflexivity. Qed.

(** ** A new project *)

#[local] Existing Instance toy_key_crypto.
#[local] Existing Instance toy_key_laws.

Definition a_salt : bytes := le_split 16 7.
Definition a_nonce : bytes := le_split 12 9.

Definition nowhere : system publisher_tables :=
  Sys {| files := ∅; faults := fun _ => None; tick := 0 |} (undisturbed empty_publisher) [] [] [].

Abbreviation do_init arg typed := (init_run quiet_host "ok" (fun k => k) typed a_key a_salt a_nonce arg).
Definition no_terminal (_ : nat) : result io_error string := Err IoFault.

Definition made_project : system publisher_tables := (do_init (Some "correct horse battery") no_terminal nowhere).2.

Lemma init_done : do_init (Some "correct horse battery") no_terminal nowhere = (Ok tt, made_project).
Proof.
  assert (E : (do_init (Some "correct horse battery") no_terminal nowhere).1 = Ok tt) by (vm_compute; reflexivity).
  unfold made_project. by apply pair_fst.
Qed.

Lemma initialized_project_witness : exists passphrase, passphrase = "correct horse battery" /\
  (load_signing_key SIGNING_KEY_FILE (passphrase_opt passphrase) (sy_fs made_project)).1 = Val (Ok a_key) /\
  configured_key (fun _ => true) (disk (sy_db made_project)) (Some a_key).
Proof.
  destruct (initialized_project (KC := toy_key_crypto) quiet_host "ok" (fun k => k) (fun _ => true) no_terminal a_key a_salt a_nonce
    (Some "correct horse battery") nowhere tt made_project eq_refl eq_refl eq_refl eq_refl eq_refl eq_refl init_done) as (p & Hp & Hl & Hc). cbn beta in Hc, Hl.
  exists p. split; [exact Hp|]. split; [|exact Hc].
  assert (E : faults (sy_fs made_project) (tick (sy_fs made_project)) = None) by (vm_compute; reflexivity).
  exact (proj1 (Hl (sy_fs made_project) (conj eq_refl E))).
Defined.

(** Passphrases at the prompt. *)
Definition twice (p : string) (_ : nat) : result io_error string := Ok p.

Example passphrases_typed :
  (do_init None (twice "short") nowhere).1 = Err (PMsg "Passphrase too short. Minimum 12 characters required for security.") /\
  (do_init None (twice "My-PassWord-2024") nowhere).1 =
    Err (PMsg "Passphrase contains common weak pattern 'password'. Please choose a more secure passphrase.") /\
  (do_init None (twice "UNENCRYPTED") nowhere).1 = Ok tt /\ (do_init None (twice "correct horse battery") nowhere).1 = Ok tt.
Proof. vm_compute. split_and!; reflexivity. Qed.

Lemma keys_not_overwritten_witness :
  (exists e, (do_init None no_terminal made_project).1 = Err e) /\
  files (sy_fs (keygen_run (fun k => k) no_terminal a_key a_salt a_nonce None (Some "") made_project).2) !! resolve SIGNING_KEY_FILE =
    files (sy_fs made_project) !! resolve SIGNING_KEY_FILE.
Proof.
  assert (Hq : quiet (sy_fs made_project)) by (intros n; vm_compute; reflexivity).
  assert (Hk : is_Some (files (sy_fs made_project) !! resolve SIGNING_KEY_FILE)) by (vm_compute; eexists; reflexivity).
  split.
  - apply (keys_not_overwritten (KC := toy_key_crypto) quiet_host "ok" (fun k => k) no_terminal a_key a_salt a_nonce None None made_project Hq).
    vm_compute. eexists. reflexivity.
  - destruct (keys_not_overwritten (KC := toy_key_crypto) quiet_host "ok" (fun k => k) no_terminal a_key a_salt a_nonce (Some "") None made_project Hq)
      as [_ H]. apply (H Hk). exact Hk.
Defined.

(** ** Configuration *)

Definition toy_url (s : string) : result string server_url_parts :=
  Ok {| su_scheme := if starts_with "https://" s then "https" else "ftp"; su_has_host := true; su_username := ""; su_has_password := false |}.

Definition configured : system publisher_tables := (config_set quiet_host toy_url "Server_URL" "https://up.example" made_project).2.

Lemma config_set_get_witness : (config_get (Some "SERVER_URL") configured).1 = Ok [(ServerUrl, Stored "https://up.example")].
Proof.
  pose proof (config_set_get quiet_host toy_url "Server_URL" "https://up.example" made_project eq_refl) as H.
  assert (E : (config_set quiet_host toy_url "Server_URL" "https://up.example" made_project).1 = Ok tt) by (vm_compute; reflexivity).
  apply pair_fst in E. rewrite E in H. destruct H as (k & Hk & _ & _ & _ & Hg).
  assert (El : exists l, (config_get (Some "SERVER_URL") configured).1 = Ok l) by (vm_compute; eexists; reflexivity).
  destruct El as [l El]. vm_compute in Hk. injection Hk as <-. rewrite El. f_equal. apply (Hg "SERVER_URL"); [vm_compute; reflexivity|exact El].
Defined.

Lemma public_key_fixed_witness :
  pt_config (disk (sy_db (config_reset quiet_host (Ok "y") None configured).2)) !! CONFIG_PUBLIC_KEY =
  pt_config (disk (sy_db configured)) !! CONFIG_PUBLIC_KEY.
Proof.
  destruct (public_key_fixed quiet_host toy_url (Ok "y") "public_key" "00" None configured eq_refl) as [_ [_ [_ H]]]. exact H.
Defined.

Example public_key_read_only : (config_set quiet_host toy_url "public_key" "00" made_project).1 =
  Err (PMsg "Cannot set 'public_key': this configuration is read-only.").
Proof. vm_compute. reflexivity. Qed.
