(* ===== verification/ManageScenarios.v ===== *)
(** * ManageScenarios: a client that is cleaned, pruned and put in order *)

From S2P Require Import Prelude Text Diff Version SemverRef Core Validation RateLimit Fs Storage Instances Auth Crypto Publish.
From S2P Require Import Scenarios DbModels Sql ClientDb ClientDbFacts System DbScenarios ClientConfig Downloader Checker InstallPath Patcher PatcherFacts UpdateFacts.
From S2P Require Import Rollback Daemon UpdateCommand ClientScenarios KeyFiles Archive ArchiveRoundtrip Walk Programs Manage ManageFacts Sidecar ClientMain SetupScenarios.

#[local] Open Scope Z_scope.
#[local] Existing Instance toy_texts.
#[local] Existing Instance toy_hasher.
#[local] Existing Instance toy_hasher_law.
#[local] Existing Instance toy_key_crypto.
#[local] Existing Instance fs_walk.

(** ** Backups *)

(** A host on which time passes. *)
Definition ticking : host := {|
  h_is_symlink _ := false; h_real_path p := p; h_uid _ := 1000; h_euid := 1000; h_memory _ := 10 ^ 9;
  h_disks := [("/", 10 ^ 9)]; h_identity _ _ := (1, 1); h_clock n := Z.of_nat n; h_unix_time n := 1714550400;
  h_now n := "2024-05-02 08:" +:+ pretty (1000 + Z.of_nat n); h_expiry _ := "2024-06-01 08:00:00"; h_temp _ := ".tmp1"; h_pid := 77; h_lock _ _ := LockFree |}.

Definition third_tool : bytes := as_bytes "tool, third version".

(** The server offers what it has then: the second version, later the third. *)
Definition offer_of (version : string) (content : bytes) : ServerUpdateResponse :=
  {| su_base := {| update_available := true; target_version := Some (version_of version); diff_url := None; diff_checksum := None;
       diff_size := None; full_binary_url := Some "/tool"; full_binary_size := Some (lenZ content);
       checksum := Some (hash_to_hex (toy_digest content)); signature_url := Some "/tool.sig"; release_notes := None;
       forced := false; rollout_percentage := None; in_rollout := None |};
     su_version_id := Some ("v-" +:+ version) |}.

Abbreviation update_to version content := (perform_update (SH := toy_hasher) (SH2 := toy_hasher) ticking (serve content (sign version content))
  toy_parse toy_status (fun _ => Ok (offer_of version content)) (fun _ => "") toy_digest any_key toy_verify toy_hex_decode no_zstd toy_config
  None false false false true false).

(** An update, its rollback, and the update to the third version. *)
Definition second : system client_tables := (update_to "2.0.0" new_tool client_start).2.
Definition back_again : system client_tables := (perform_rollback (SH := toy_hasher) ticking any_key toy_verify toy_config "tool" None second).2.
Definition third : system client_tables := (update_to "3.0.0" third_tool back_again).2.

Example third_backups :
  at_tool third = Some (File third_tool) /\
  (fun r => (r_version_string r, r_backup_path r)) <$> backups_desc "b1" (disk (sy_db third)) =
    [("1.0.0", "/home/ds/backups/tool_1.0.0.backup"); ("2.0.0", "/home/ds/backups/tool_2.0.0_pre_rollback.backup");
     ("1.0.0", "/home/ds/backups/tool_1.0.0.backup")].
Proof. vm_compute. split; reflexivity. Qed.

(** Pruning can take the file of a backup it keeps: a backup is named after its
    version, so the first version is backed up twice under one name; the prune that
    drops the older record removes the file of the newest, and the rollback to it
    fails. *)
Theorem prune_takes_kept_backup :
  let '(r, s') := run_prune_backups Release "tool" 2 false third in
  r = Ok (1, lenZ old_tool) /\
  (fun r => (r_version_string r, r_backup_path r)) <$> backups_desc "b1" (disk (sy_db s')) =
    [("1.0.0", "/home/ds/backups/tool_1.0.0.backup"); ("2.0.0", "/home/ds/backups/tool_2.0.0_pre_rollback.backup")] /\
  files (sy_fs s') !! resolve "/home/ds/backups/tool_1.0.0.backup" = None /\
  (perform_rollback (SH := toy_hasher) ticking any_key toy_verify toy_config "tool" None s').1 =
    Err (CMsg "Backup file not found: /home/ds/backups/tool_1.0.0.backup. The backup may have been deleted.").
Proof. vm_compute. split_and!; reflexivity. Qed.

(** ** Cleaning and pruning *)

(** Dates as numbers of digits, for the one format the cleanup reads. *)
Definition toy_date (s : string) : option Z :=
  if str_len s =? 19 then parse_unsigned u64_max (of_chars (List.filter is_ascii_digit (chars s))) else None.
Definition toy_now (_ : nat) : Z := 20240502080000.
Definition toy_days_before (now days : Z) : option Z := Some (now - days * 1000000).
Definition toy_datetime (_ : string) : option string := Some "2024-02-02 08:00:00".

Definition messy_disk : fs :=
  {[ ["home"] := Dir; ["home"; "ds"] := Dir; ["home"; "ds"; "backups"] := Dir; ["home"; "ds"; "downloads"] := Dir;
     ["home"; "ds"; "downloads"; "app_1.1.0"] := File [byte_of_Z 1]; ["home"; "ds"; "downloads"; "app.part"] := File [byte_of_Z 2];
     ["bk"] := Dir; ["bk"; "1"] := File [byte_of_Z 3]; ["bk"; "2"] := File [byte_of_Z 4]; ["bk"; "3"] := File [byte_of_Z 5] ]}.

Definition messy : system client_tables := Sys {| files := messy_disk; faults := fun _ => None; tick := 0 |} calm [] [] [].

Abbreviation tidy := (run_cleanup Release toy_date toy_now toy_days_before toy_datetime toy_config false None).

(** The backup that expired goes, that with another format of its expiry stays. *)
Example tidied_up :
  r_backup_path <$> ct_backups (disk (sy_db (tidy messy).2)) = ["/bk/1"; "/bk/2"] /\
  files (sy_fs (tidy messy).2) !! ["bk"; "3"] = None /\
  files (sy_fs (tidy messy).2) !! ["home"; "ds"; "downloads"; "app.part"] = None /\
  files (sy_fs (tidy messy).2) !! ["home"; "ds"; "downloads"; "app_1.1.0"] = Some (File [byte_of_Z 1]).
Proof. vm_compute. split_and!; reflexivity. Qed.

Lemma client_cleanup_safe_witness :
  tidied (expired_by toy_date 20240502080000) (history_before toy_datetime (as_i32 (default DEFAULT_HISTORY_AGE_DAYS None)))
    (disk (sy_db messy)) (disk (sy_db (tidy messy).2)) /\
  forall p, drops (disposable toy_date toy_config 20240502080000 (disk (sy_db messy))) p (files (sy_fs messy) !! p)
    (files (sy_fs (tidy messy).2) !! p).
Proof.
  apply (client_cleanup_safe Release toy_date toy_now toy_days_before toy_datetime toy_config None 20240502080000 messy
    (proj1 calm_facts) (proj2 calm_facts)). intros k. apply Z.le_refl.
Defined.

Lemma backup_prune_keeps_newest_witness :
  lenZ (ct_backups (disk (sy_db (run_prune_backups Release "app" 1 false messy).2))) = 1 /\
  forall r, r ∈ take 1 (backups_desc "b1" (disk calm)) ->
    r ∈ ct_backups (disk (sy_db (run_prune_backups Release "app" 1 false messy).2)).
Proof.
  pose proof (backup_prune_keeps_newest Release "app" 1 messy (proj1 calm_facts) (proj2 calm_facts)) as H. cbn zeta in H.
  assert (E : (run_prune_backups Release "app" 1 false messy).1 = Ok (2, 11)) by (vm_compute; reflexivity).
  destruct (run_prune_backups Release "app" 1 false messy) as [x s']. cbn [fst snd] in *. destruct H as (H1 & _ & _ & _ & H2).
  split; [rewrite (H2 2 11 E); vm_compute; reflexivity|].
  intros r Hr. apply (H1 (new_managed "t" app_row) r Hr).
Defined.

(** ** Adding and removing *)

(** A key as it is stored. *)
Definition key_text_of (key : bytes) : bytes :=
  match fs_read (files (save_verifying_key key "/keys/app.pub" key_home).2) ["keys"; "app.pub"] with Ok b => b | Err _ => [] end.
Definition key_text : bytes := key_text_of a_key.

Definition add_disk : fs :=
  {[ ["opt"] := Dir; ["opt"; "tools"] := Dir; ["opt"; "tools"; "extra"] := File [byte_of_Z 1]; ["keys"] := Dir;
     ["keys"; "app.pub"] := File key_text ]}.
Definition fresh : system client_tables := Sys {| files := add_disk; faults := fun _ => None; tick := 0 |} calm [] [] [].

Abbreviation add name path := (add_binary (SH := toy_hasher) ticking "linux" "x86_64" "b-77" name path "/keys/app.pub").

Example adding :
  (m_install_path <$> (add "extra" "/opt/./tools/extra" fresh).1) = Ok "/opt/tools/extra" /\
  (add "ext/ra" "/opt/tools/extra" fresh).1 =
    Err (CMsg "Invalid binary name: 'ext/ra'. Only alphanumeric characters, hyphens, and underscores are allowed.") /\
  (add "app" "/opt/tools/extra" fresh).1 = Err (CMsg "Binary 'app' is already registered") /\
  (add "extra" "/opt/tools/other" fresh).1 = Err (CMsg "Binary not found: /opt/tools/other").
Proof. vm_compute. split_and!; reflexivity. Qed.

Definition added : system client_tables := (add "extra" "/opt/tools/extra" fresh).2.

Lemma added_binary_witness : exists row,
  seek (has_binary_name "extra") (ct_managed (disk (sy_db added))) = Some row /\ m_install_path row = "/opt/tools/extra" /\
  files (sy_fs added) = add_disk.
Proof.
  pose proof (added_binary (SH := toy_hasher) ticking "linux" "x86_64" "b-77" "extra" "/opt/tools/extra" "/keys/app.pub" fresh (proj1 calm_facts)) as H.
  cbn zeta in H. assert (E : exists row, (add "extra" "/opt/tools/extra" fresh).1 = Ok row) by (vm_compute; eexists; reflexivity).
  destruct E as [row E]. apply pair_fst in E. rewrite E in H. destruct H as (Hf & Hr & _ & _ & _ & Hs). exists row.
  split; [exact Hs|]. split; [|exact Hf]. destruct Hr as (_ & _ & _ & _ & _ & _ & _ & Hp & _). rewrite Hp. vm_compute. reflexivity.
Defined.

Lemma removed_binary_witness : exists b, m_binary_name b = "app" /\ forgotten b (disk (sy_db messy)) (disk (sy_db (remove_binary "app" messy).2)).
Proof.
  pose proof (removed_binary "app" messy (proj1 calm_facts)) as H. cbn zeta in H.
  assert (E : (remove_binary "app" messy).1 = Ok tt) by (vm_compute; reflexivity). apply pair_fst in E. rewrite E in H.
  destruct H as [(b & _ & Hb & Hg) _]. exists b. split; [exact Hb|exact Hg].
Defined.

(** ** The sidecar *)

Definition sidecar_args (check_only : bool) : Args := {|
  arg_name := "tool"; arg_install_path := "/opt/app/tool"; arg_server_url := "https://up"; arg_public_key := "/keys/app.pub";
  arg_data_dir := Some "/home/ds"; arg_check_only := check_only |}.

(** The application is there, with the key of its publisher; there is no database yet. *)
Definition app_disk : fs := <[["keys"] := Dir]> (<[["keys"; "app.pub"] := File (key_text_of (replicate 32 (byte_of_Z 97)))]> client_disk).
Definition first_run : system client_tables :=
  Sys {| files := app_disk; faults := fun _ => None; tick := 0 |} (undisturbed empty_client) [] [] [].

Abbreviation sidecar net decode := (run (SH := toy_hasher) (SH2 := toy_hasher) toy_host net toy_parse toy_status decode (fun _ => "") toy_digest
  any_key toy_verify toy_hex_decode no_zstd None "ok" "linux" "x86_64" "b-1").

Example sidecar_runs :
  (sidecar good_server toy_decode (sidecar_args true) first_run).1 = Ok EXIT_UPDATED /\
  at_tool (sidecar good_server toy_decode (sidecar_args true) first_run).2 = Some (File old_tool) /\
  (sidecar good_server toy_decode (sidecar_args false) first_run).1 = Ok EXIT_UPDATED /\
  at_tool (sidecar good_server toy_decode (sidecar_args false) first_run).2 = Some (File new_tool).
Proof. vm_compute. split_and!; reflexivity. Qed.

Lemma first_run_consistent : UpdateFacts.consistent (sy_db first_run).
Proof. split; [reflexivity|apply empty_client_inv]. Qed.

Abbreviation sidecar_code net decode := (exit_code (SH := toy_hasher) (SH2 := toy_hasher) toy_host net toy_parse toy_status decode (fun _ => "")
  toy_digest any_key toy_verify toy_hex_decode no_zstd None "ok" "linux" "x86_64" "b-1").


(** The sidecar goes back to an older version when the server says so: with the
    second version installed and a server that offers the first one, signed by the
    publisher, [update] refuses and the sidecar installs it. *)
Definition newer_setup : list client_op :=
  [OpInit "ok" "2024-05-01 08:00:00"; OpRegister "2024-05-01 08:00:01" tool_row;
   OpRecordInstalled "2024-05-01 08:00:02" "b1" "v-2" "2.0.0" (toy_digest new_tool) (toy_digest new_tool) (lenZ new_tool);
   OpUpdateCurrent "2024-05-01 08:00:03" "b1" "v-2" "2.0.0"].

Definition newer : system client_tables :=
  Sys {| files := <[["opt"; "app"; "tool"] := File new_tool]> (<[["opt"; "app"; "tool.sig"] := File (sign "2.0.0" new_tool)]> app_disk);
         faults := fun _ => None; tick := 0 |} (run_client newer_setup (undisturbed empty_client)) [] [] [].

Definition stale_offer (_ : bytes) : result reqwest_error ServerUpdateResponse := Ok (offer_of "1.0.0" old_tool).

Theorem sidecar_downgrades :
  (perform_update (SH := toy_hasher) (SH2 := toy_hasher) toy_host (serve old_tool (sign "1.0.0" old_tool)) toy_parse toy_status stale_offer
     (fun _ => "") toy_digest any_key toy_verify toy_hex_decode no_zstd toy_config None false false false true false newer).1 =
    Ok [UpdateFailed] /\
  let '(r, s') := sidecar (serve old_tool (sign "1.0.0" old_tool)) stale_offer (sidecar_args false) newer in
  r = Ok EXIT_UPDATED /\ at_tool s' = Some (File old_tool) /\
  m_current_version_string <$> ct_managed (disk (sy_db s')) = [Some "1.0.0"].
Proof. vm_compute. split_and!; reflexivity. Qed.

(** ** Whole runs *)

Definition config_file (text : string) : option ClientConfig := if bool_decide (text = "toy") then Some toy_config else None.
Definition done_well : process_output := {| po_code := Some 0; po_stderr := "" |}.

Definition secure_url (_ : string) : option url_parts := Some {| url_scheme := "https"; url_host := Some "up" |}.

Abbreviation client_on host := (client_main (SH := toy_hasher) (SH2 := toy_hasher) Release host good_server secure_url toy_status toy_decode
  (fun _ => "") toy_digest any_key toy_verify toy_hex_decode no_zstd config_file (fun _ => "bad configuration") None None "ok" "linux" "x86_64"
  "b-1" toy_date toy_now toy_days_before toy_datetime (Some "/home") (Some "/usr/bin/deltaship-client")
  (fun _ _ => syscall (fun f => (Ok done_well, f)) (fun _ f => (Err IoFault, f)))).
Abbreviation client := (client_on toy_host).

Definition with_args (command : option Commands) : Cli := {|
  cli_verbose := 0; cli_quiet := true; cli_config := Some "/home/client.toml"; cli_daemon := false; cli_check_now := false;
  cli_command := command |}.

(** A new machine with the application, its publisher's key and a configuration. *)
Definition machine : system client_tables :=
  Sys {| files := <[["home"; "client.toml"] := File (as_bytes "toy")]> app_disk; faults := fun _ => None; tick := 0 |}
    (undisturbed empty_client) [] [] [].

Definition adding_tool : Cli := with_args (Some (Add "tool" "/opt/app/tool" "/keys/app.pub")).
Definition updating : Cli := with_args (Some (Update None true false false false false)).

Definition added_run : system client_tables := (client 0 adding_tool machine).2.
Definition updated_run : system client_tables := (client 0 updating added_run).2.

Example whole_runs :
  (client 0 adding_tool machine).1 = Ok tt /\ m_binary_name <$> ct_managed (disk (sy_db added_run)) = ["tool"] /\
  (client 0 updating added_run).1 = Ok tt /\ at_tool updated_run = Some (File new_tool) /\
  m_current_version_string <$> ct_managed (disk (sy_db updated_run)) = [Some "2.0.0"] /\
  ct_managed (disk (sy_db (client 0 (with_args (Some (Remove "tool"))) updated_run).2)) = [].
Proof. vm_compute. split_and!; reflexivity. Qed.

(** The first update after [add] cannot be rolled back: the version that was there
    is not known, so its backup is written but not recorded. *)
Theorem first_update_not_undone :
  files (sy_fs updated_run) !! ["home"; "ds"; "backups"; "tool_unknown.backup"] = Some (File old_tool) /\
  ct_backups (disk (sy_db updated_run)) = [] /\
  (client 0 (with_args (Some (Rollback "tool" None false))) updated_run).1 = Err (CMsg "No backups available for 'tool'").
Proof. vm_compute. split_and!; reflexivity. Qed.

Lemma machine_new : client_history (SH := toy_hasher) (SH2 := toy_hasher) machine.
Proof. by constructor. Qed.

Lemma client_history_consistent_witness : UpdateFacts.consistent (sy_db updated_run) /\ at_tool updated_run = Some (File new_tool).
Proof.
  split; [|vm_compute; reflexivity]. apply (client_history_consistent (SH := toy_hasher) (SH2 := toy_hasher)).
  apply history_run, history_run, machine_new.
Defined.

(** The daemon holds the update lock, for now. *)
Definition contended_host : host := {|
  h_is_symlink _ := false; h_real_path p := p; h_uid _ := 1000; h_euid := 1000; h_memory _ := 10 ^ 9;
  h_disks := [("/", 10 ^ 9)]; h_identity _ _ := (1, 1); h_clock n := Z.of_nat n; h_unix_time n := 1714550400;
  h_now _ := "2024-05-02 08:00:00"; h_expiry _ := "2024-06-01 08:00:00"; h_temp _ := ".tmp1"; h_pid := 77;
  h_lock _ _ := LockHeld true |}.
Definition cleaning : Cli := with_args (Some (Cleanup false None)).

Lemma update_lock_guards_witness :
  (client_on contended_host 0 cleaning updated_run).1 = Err (CMsg lock_busy) /\
  nothing_changed updated_run (client_on contended_host 0 cleaning updated_run).2.
Proof.
  split; [vm_compute; reflexivity|].
  assert (tx (sy_db updated_run) = None) as Ht by (vm_compute; reflexivity).
  pose proof (update_lock_guards (SH := toy_hasher) (SH2 := toy_hasher) Release contended_host good_server secure_url toy_status toy_decode
    (fun _ => "") toy_digest any_key toy_verify toy_hex_decode no_zstd config_file (fun _ => "bad configuration") None None "ok" "linux" "x86_64"
    "b-1" toy_date toy_now toy_days_before toy_datetime (Some "/home") (Some "/usr/bin/deltaship-client")
    (fun _ _ => syscall (fun f => (Ok done_well, f)) (fun _ f => (Err IoFault, f)))
    0 cleaning (Cleanup false None) updated_run eq_refl (exclusive_cleanup false None) Ht) as Hl.
  destruct (client_on contended_host 0 cleaning updated_run) as [r s'].
  destruct Hl as [(e & _ & Hl)|(config & s0 & s1 & _ & _ & Hf & _)]; [exact Hl|]. cbn [h_lock contended_host] in Hf. discriminate Hf.
Defined.

(** A unit for the system lets the daemon write below /var/lib/deltaship only, and
    starts it without a configuration file; the data directory it then takes is
    elsewhere. *)
Theorem service_data_dir :
  In "ReadWritePaths=/var/lib/deltaship" (split_char "010"%char (generate_service_file None false)) /\
  In "ExecStart=/usr/local/bin/deltaship-client --daemon" (split_char "010"%char (generate_service_file None false)) /\
  starts_with_path (data_dir (ClientConfig.default_config (Some "/root/.local/share"))) "/var/lib/deltaship" = false.
Proof. vm_compute. split_and!; [tauto|tauto|reflexivity]. Qed.
