(* ===== verification/ReleaseScenarios.v ===== *)
(** * ReleaseScenarios: a release from the file to the server

    A project in which a file is registered, signed and published, on which the
    theorems about the publisher's commands run. *)

From S2P Require Import Prelude Text Diff Version SemverRef Core Validation RateLimit Fs Catalog Storage Instances Auth Crypto.
From S2P Require Import Serving Admin Publish PublishFacts Scenarios DbModels Sql System PublisherDb PublisherDbFacts DbScenarios ClientConfig Downloader ClientScenarios.
From S2P Require Import KeyFiles KeyFacts DiffManager Archive ArchiveRoundtrip Walk Project Programs ApiClient PublishCommand PublishCommandFacts Release ReleaseFacts.
From S2P Require Import UploadFacts Verify Cleanup CleanupFacts Setup PublisherMain PublisherScenarios SetupScenarios.

#[local] Open Scope Z_scope.
#[local] Existing Instance toy_texts.
#[local] Existing Instance toy_hasher.
#[local] Existing Instance toy_hasher_law.
#[local] Existing Instance toy_key_crypto.

(** ** The project *)

Definition toy_sign (key m : bytes) : bytes := key ++ toy_digest m.

Definition key_text : string := plain_text SIGNING_KEY_HEADER SIGNING_KEY_FOOTER a_key.

Definition new_project_tree : fs :=
  {[ [".deltaship"] := Dir; [".deltaship"; "publisher.db"] := File []; [".deltaship"; "keys"] := Dir;
     [".deltaship"; "keys"; "signing.key"] := File (as_bytes key_text);
     ["build"] := Dir; ["build"; "tool1"] := File tool_v1 ]}.

Definition new_tables : publisher_tables := {|
  pt_created := {["versions"; "diff_jobs"; "binaries"; "publisher_config"]}; pt_schema_version := [1]; pt_config := ∅;
  pt_binaries := []; pt_versions := []; pt_jobs := [] |}.

Definition new_project : system publisher_tables :=
  Sys {| files := new_project_tree; faults := fun _ => None; tick := 0 |} (undisturbed new_tables) [] [] [].

Abbreviation do_register := (register_run (SH := toy_hasher) toy_hasher quiet_host simple_diff (toy_encode tool_diff) toy_digest
  "tool" "1.0.0" "/build/tool1" "linux-x86_64" None false).

Definition after_register : system publisher_tables := (do_register new_project).2.
Definition registered_row : DbVersion := default row_v1 (last (pt_versions (disk (sy_db after_register)))).

Lemma register_done : do_register new_project = (Ok tt, after_register).
Proof.
  assert (E : (do_register new_project).1 = Ok tt) by (vm_compute; reflexivity).
  unfold after_register. by apply pair_fst.
Qed.

Abbreviation do_sign := (sign_run (fun _ => "2024-05-03T08:00:00Z") toy_sign (Err IoFault) (Some (v_version_id registered_row)) None None None (Some "")).
Definition after_sign : system publisher_tables := (do_sign after_register).2.

Lemma sign_done : do_sign after_register = (Ok tt, after_sign).
Proof.
  assert (E : (do_sign after_register).1 = Ok tt) by (vm_compute; reflexivity).
  unfold after_sign. by apply pair_fst.
Qed.

Lemma registered_version_recorded_witness : exists v,
  pt_versions (disk (sy_db after_register)) = [v] /\ v_file_hash_blake3 v = toy_digest tool_v1.
Proof.
  pose proof (registered_version_recorded quiet_host simple_diff (toy_encode tool_diff) toy_digest toy_hasher toy_digest
    "tool" "1.0.0" "/build/tool1" "linux-x86_64" None false new_project eq_refl) as H.
  rewrite register_done in H. destruct H as (data & v & b & Hf & Hg & Hv & _). exists v. split; [exact Hv|].
  rewrite (rg_blake3 _ _ _ _ _ _ Hg). assert (fs_read (files (sy_fs new_project)) (resolve "/build/tool1") = Ok tool_v1) as E
    by (vm_compute; reflexivity). rewrite E in Hf. by injection Hf as <-.
Defined.

(** ** Publishing *)

(** A server that answers with success the second time. *)
Definition flaky_net (n : nat) (u : ApiClient.upload) : result string answer :=
  Ok {| an_status := if bool_decide (n = 0)%nat then 503 else 200; an_body := Ok (as_bytes "ok") |}.
Definition all_good (b : bytes) : result string ApiClient.PublishResponse :=
  Ok {| ps_success := true; ps_version_id := None; ps_message := "stored" |}.
Definition all_good_diff (b : bytes) : result string PublishDiffResponse :=
  Ok {| ds_success := true; ds_diff_id := None; ds_message := "stored" |}.

Abbreviation do_publish net := (publish_run (SO := sort_order) quiet_host toy_digest net (fun z => pretty z) (fun _ => "") all_good
  all_good_diff (Err IoFault) "tool" "1.0.0" (Some "https://up.example") None true).

Example published_after_retry : (do_publish flaky_net after_sign).1 = Ok tt /\
  sy_slept (do_publish flaky_net after_sign).2 = [1000] /\ sy_requests (do_publish flaky_net after_sign).2 = 2%nat /\
  v_is_published <$> pt_versions (disk (sy_db (do_publish flaky_net after_sign).2)) = [true].
Proof. vm_compute. split_and!; reflexivity. Qed.

(** An error of the network leaves the version as it was. *)
Lemma published_means_uploaded_witness :
  disk (sy_db (do_publish (fun _ _ => Err "unreachable") after_sign).2) = disk (sy_db after_sign).
Proof.
  pose proof (published_means_uploaded (SO := sort_order) quiet_host toy_digest (fun _ _ => Err "unreachable") (fun z => pretty z)
    (fun _ => "") all_good all_good_diff (Err IoFault) "tool" "1.0.0" (Some "https://up.example") None true after_sign
    ltac:(vm_compute; reflexivity)) as H. cbn zeta in H.
  assert (E : (do_publish (fun _ _ => Err "unreachable") after_sign).1 = Err (PHttp "unreachable")) by (vm_compute; reflexivity).
  destruct (do_publish _ after_sign) as [r s']. cbn [fst] in E. subst r. apply H.
Defined.

(** ** The whole way *)

Definition carol : Publisher := {| owner := "carol"; allowed_apps := Some {["tool"]}; pubkey := Some a_key |}.

Definition tool_binary : DbBinary := default (new_binary "" "" "" new_app) (last (pt_binaries (disk (sy_db after_sign)))).
Definition tool_row : DbVersion := default row_v1 (last (pt_versions (disk (sy_db after_sign)))).
Definition tool_signature : bytes := toy_sign a_key (signing_payload (toy_digest tool_v1) "1.0.0").

(** The parts of the upload, the binary in two chunks. *)
Definition tool_parts : list part :=
  [ Part "platform" [as_bytes "linux-x86_64"] false; Part "signature" [as_bytes (hash_to_hex tool_signature)] false;
    Part "checksum" [as_bytes (hash_to_hex (toy_digest tool_v1))] false; Part "binary" [take 4 tool_v1; drop 4 tool_v1] false ].

Lemma loaded_key_known key :
  loaded (KC := toy_key_crypto) (Err IoFault) (files (sy_fs after_register)) None (Some "") key -> key_known toy_sign toy_verify carol key.
Proof.
  intros (w & pass & Hw & [[= <-]|[[=] _]] & Hk).
  assert (key = a_key) as ->.
  { unfold load_signing_key, io_map in Hk. destruct (read_to_string _ w) as [r w'] eqn:Hr. cbn [fst] in Hk.
    assert (r = Ok key_text \/ exists e, r = Err e) as [->|[e ->]].
    { unfold read_to_string, io_map in Hr. pose proof (read_value (default SIGNING_KEY_FILE None) w) as Hv.
      destruct (read _ w) as [[d|e] w1]; [|injection Hr as <- _; eauto]. left. specialize (Hv d eq_refl). rewrite Hw in Hv.
      vm_compute in Hv. injection Hv as <-. vm_compute in Hr. injection Hr as <- _. vm_compute. reflexivity. }
    - vm_compute in Hk. injection Hk as <-. vm_compute. reflexivity.
    - done. }
  split.
  - intros m. unfold toy_sign, toy_digest, lenZ. rewrite length_app, length_le_split. vm_compute. reflexivity.
  - intros pk m [= <-]. unfold toy_verify, toy_sign. by apply bool_decide_eq_true_2.
Qed.

Lemma registered_signed_accepted_witness :
  never_rejects (Publish.publish_version toy_digest toy_verify toy_hex_decode toy_base64 toy_entropy "/srv" "tool" "1.0.0"
    carol tool_parts) (fun r => pr_success r = true).
Proof.
  apply (registered_signed_accepted (SO := sort_order) (KC := toy_key_crypto) toy_digest toy_digest toy_hasher toy_hasher quiet_host
    (fun _ => "2024-05-03T08:00:00Z") simple_diff (toy_encode tool_diff) toy_sign toy_verify toy_hex_decode toy_base64 toy_entropy
    (Err IoFault) "tool" "1.0.0" "/build/tool1" "linux-x86_64" None false None (Some "") new_project after_register after_sign
    registered_row tool_binary tool_row tool_signature tool_v1 carol (api_client_new "https://up.example" None)).
  - reflexivity.
  - exact register_done.
  - split; apply (bool_decide_eq_true_1 _); vm_compute; reflexivity.
  - vm_compute. reflexivity.
  - exact sign_done.
  - split; try (vm_compute; reflexivity); vm_compute; left.
  - vm_compute. reflexivity.
  - vm_compute. reflexivity.
  - exact loaded_key_known.
  - intros d. unfold toy_digest, lenZ. by rewrite length_le_split.
  - intros b. unfold toy_hex_decode, hash_to_hex. rewrite chars_of_chars.
    by rewrite parse_hex_chars.
  - vm_compute. reflexivity.
  - vm_compute. reflexivity.
  - vm_compute. reflexivity.
  - vm_compute. reflexivity.
  - vm_compute. congruence.
  - vm_compute. congruence.
  - repeat constructor; eexists; (split; [reflexivity|]); vm_compute; reflexivity.
Defined.

(** ** Verification *)

(** The signed project, with the public key in its configuration. *)
Definition with_public_key : system publisher_tables :=
  let t := disk (sy_db after_sign) in
  with_db (undisturbed {| pt_created := pt_created t; pt_schema_version := pt_schema_version t;
    pt_config := {[ CONFIG_PUBLIC_KEY := (hash_to_hex a_key, false, "2024-05-03T08:00:00Z") ]};
    pt_binaries := pt_binaries t; pt_versions := pt_versions t; pt_jobs := pt_jobs t |}) after_sign.

Abbreviation do_verify := (verify_run (SO := sort_order) toy_digest toy_digest (fun k => bool_decide (length k = 32%nat)) toy_verify
  (fun _ => Some 5) (fun _ => 5) (Err IoFault) "tool" None false true).

(** The signature of the version is checked against the file. *)
Lemma verified_means_authentic_witness : exists pk, pk = Some a_key /\
  authentic toy_digest toy_digest toy_verify (files (sy_fs with_public_key)) pk tool_row.
Proof.
  pose proof (verified_means_authentic (SO := sort_order) toy_digest toy_digest (fun k => bool_decide (length k = 32%nat)) toy_verify
    (fun _ => Some 5) (fun _ => 5) (Err IoFault) "tool" None true with_public_key eq_refl) as H.
  assert (E : (exists a, (do_verify with_public_key).1 = Ok a)) by (vm_compute; eexists; reflexivity).
  destruct E as [a E]. destruct (do_verify with_public_key) as [r s']. cbn [fst] in E. subst r.
  destruct H as (_ & _ & H). destruct (H a eq_refl) as (pk & Hk & Hv). exists pk. split.
  - assert (C : fst ∘ fst <$> pt_config (disk (sy_db with_public_key)) !! as_db_key PublicKey = Some (hash_to_hex a_key))
      by (vm_compute; reflexivity).
    unfold configured_key in Hk. rewrite C in Hk. vm_compute in Hk. destruct Hk as (k & -> & [= <-] & _). reflexivity.
  - apply (Hv tool_binary tool_row); [vm_compute; left|vm_compute; reflexivity|vm_compute; left|vm_compute; reflexivity|].
    intros w [=].
Defined.

(** A changed file is noticed. *)
Example tampering_noticed :
  (do_verify (with_fs {| files := <[ ["build"; "tool1"] := File tool_v2 ]> (files (sy_fs with_public_key));
     faults := fun _ => None; tick := 0 |} with_public_key)).1 = Err (PMsg "1 verification(s) failed").
Proof. vm_compute. reflexivity. Qed.

(** ** Cleaning up *)

#[local] Existing Instance fs_walk.

(** Two versions registered from one path, as a build leaves them, and a diff
    that failed. *)
Definition busy_day : list publisher_op := publisher_day ++ [POpFailed "2024-05-01 08:00:07" "j1" "no space"].
Definition busy_tables : publisher_tables := disk (run_publisher busy_day (undisturbed empty_publisher)).

Lemma busy_inv : publisher_inv busy_tables.
Proof.
  assert (publisher_reachable (run_publisher busy_day (undisturbed empty_publisher))) as H
    by (apply run_publisher_reachable; constructor).
  apply (reachable_consistent _ H).
Qed.

Definition busy_tree : fs :=
  {[ [".deltaship"] := Dir; [".deltaship"; "publisher.db"] := File []; [".deltaship"; "diffs"] := Dir;
     [".deltaship"; "diffs"; "left.patch"] := File [byte_of_Z 1; byte_of_Z 2];
     ["build"] := Dir; ["build"; "app"] := File [byte_of_Z 1] ]}.

Definition busy : system publisher_tables :=
  Sys {| files := busy_tree; faults := fun _ => None; tick := 0 |} (undisturbed busy_tables) [] [] [].

(** The left over diff and the failed job go, the binary stays. *)
Lemma cleanup_takes_only_orphans_witness :
  files (sy_fs (run_cleanup Release false None busy).2) !! ["build"; "app"] = Some (File [byte_of_Z 1]) /\
  files (sy_fs (run_cleanup Release false None busy).2) !! [".deltaship"; "diffs"; "left.patch"] = None /\
  pt_jobs (disk (sy_db (run_cleanup Release false None busy).2)) = [].
Proof.
  destruct (cleanup_takes_only_orphans Release None busy eq_refl busy_inv) as [H _].
  split_and!; [|vm_compute; reflexivity..].
  destruct (H ["build"; "app"]) as [<-|(Ho & _ & _)]; [vm_compute; reflexivity|]. exfalso.
  destruct Ho as [(rel & E & _)|(rel & E & _)]; vm_compute in E; discriminate.
Defined.

(** Of two versions one is kept. *)
Lemma prune_keeps_newest_witness :
  v_version_string <$> pt_versions (disk (sy_db (run_prune Release "app" 1 false false busy).2)) = ["1.1.0"] /\
  forall v, v ∈ take 1 (versions_desc "b1" busy_tables) -> v ∈ pt_versions (disk (sy_db (run_prune Release "app" 1 false false busy).2)).
Proof.
  destruct (prune_keeps_newest Release "app" 1 false busy eq_refl busy_inv) as [H _].
  split; [vm_compute; reflexivity|]. intros v Hv. apply (H (new_binary "t" "b1" "/build/app" new_app) v Hv).
Defined.

Lemma dry_runs_change_nothing_witness :
  files (sy_fs (run_cleanup Release true None busy).2) = busy_tree /\ disk (sy_db (run_prune Release "app" 1 true true busy).2) = busy_tables.
Proof.
  destruct (dry_runs_change_nothing Release None "app" 1%nat true busy eq_refl) as [(H1 & _ & _) (_ & _ & H2)].
  split; [rewrite H1|rewrite H2]; reflexivity.
Defined.

(** Pruning with [--delete-files] can take the file of a version it keeps:
    two versions were registered from the same path; after [prune --keep 1
    --delete-files] the newer one is still recorded and its file is gone. *)
Theorem prune_takes_kept_file :
  let s' := (run_prune Release "app" 1 true false busy).2 in
  (v_version_string <$> pt_versions (disk (sy_db s'))) = ["1.1.0"] /\
  (v_file_path <$> pt_versions (disk (sy_db s'))) = ["/build/app"] /\
  files (sy_fs s') !! ["build"; "app"] = None.
Proof. vm_compute. split_and!; reflexivity. Qed.

(** ** Whole runs *)

Definition a_desk : surroundings := {|
  sr_mode := Debug; sr_host := quiet_host; sr_integrity := "ok"; sr_rfc3339_now _ := "2024-05-03T08:00:00Z"; sr_utc_now _ := 0;
  sr_parse_rfc3339 _ := Some 0; sr_prompts := no_terminal; sr_stdin := Err IoFault; sr_signing_key := a_key; sr_salt := a_salt;
  sr_nonce := a_nonce; sr_temp_dir := "/tmp/x"; sr_url_parse := toy_url; sr_net := flaky_net; sr_status_text z := pretty z;
  sr_decode_text _ := ""; sr_publish_response := all_good; sr_diff_response := all_good_diff; sr_verifying_key k := k;
  sr_sign := toy_sign; sr_valid_key _ := true; sr_verify_signature := toy_verify; sr_blake3 := toy_digest; sr_sha256 := toy_digest;
  sr_bsdiff := simple_diff; sr_zstd := toy_encode tool_diff; sr_tar_gz _ := []; sr_untar _ := Ok []; sr_metadata_json _ := Err "";
  sr_metadata_of_json _ := Err ""; sr_version := "1.0.0"; sr_db_of_bytes _ := Err DbSqlx |}.

Abbreviation at_desk := (publisher_main (SO := sort_order) (SH := toy_hasher) toy_hasher a_desk).

(** A directory with a build and no project yet. *)
Definition fresh_desk : system publisher_tables :=
  Sys {| files := {[ ["build"] := Dir; ["build"; "tool1"] := File tool_v1 ]}; faults := fun _ => None; tick := 0 |}
    (undisturbed empty_publisher) [] [] [].

Definition the_release : list Commands :=
  [Init (Some "correct horse battery"); Register "tool" "1.0.0" "/build/tool1" "linux-x86_64" None false;
   Sign None (Some "tool") (Some "1.0.0") None (Some "correct horse battery");
   Publish "tool" "1.0.0" (Some "https://up.example") None true; Info; Stats None].

Definition released : system publisher_tables := fold_left (fun s c => (at_desk c s).2) the_release fresh_desk.

(** Every command succeeds, and the version is published. *)
Example release_runs :
  (fold_left (fun '(ok, s) c => (ok && (publisher_exit (SO := sort_order) (SH := toy_hasher) toy_hasher a_desk c s =? 0), (at_desk c s).2))
     the_release (true, fresh_desk)).1 = true /\
  (fun v => (v_version_string v, v_is_published v)) <$> pt_versions (disk (sy_db released)) = [("1.0.0", true)].
Proof. vm_compute. split; reflexivity. Qed.

Lemma publisher_history_consistent_witness : p_consistent (sy_db released) /\
  lenZ (pt_versions (disk (sy_db released))) = 1.
Proof.
  split; [|vm_compute; reflexivity]. apply (publisher_history_consistent (SO := sort_order) (SH := toy_hasher) toy_hasher).
  unfold released, the_release. cbn [fold_left].
  do 6 (apply project_run; [discriminate|]). apply project_new; reflexivity.
Defined.
