(* ===== verification/ServerScenarios.v ===== *)
(** * ServerScenarios: the server at work

    A server with a key file, requests over the wire from publication to download,
    and applications of the theorems on the server. *)

From S2P Require Import Prelude Text DbModels System ClientConfig Downloader Checker KeyFiles KeyFacts ApiClient.
From S2P Require Import Version SemverRef Core Validation RateLimit Fs Catalog Storage Instances Auth Crypto Serving Admin Publish PublishFacts.
From S2P Require Import Scenarios Server ServerFacts.

#[local] Open Scope Z_scope.

(** ** A router *)

(** The captures of a path that matches a pattern. *)
Fixpoint captures (pattern path : list string) : option (list string) :=
  match pattern, path with
  | [], [] => Some []
  | p :: pattern, s :: path =>
      if is_capture p then (if bool_decide (s = "") then None else cons s <$> captures pattern path)
      else if bool_decide (p = s) then captures pattern path else None
  | _, _ => None
  end.

Lemma captures_spec pattern path caps : captures pattern path = Some caps <-> path_matches pattern path caps.
Proof.
  split.
  - revert path caps; induction pattern as [|p pattern IH]; intros [|s path] caps; cbn; try done; [intros [= <-]; constructor|].
    destruct (is_capture p) eqn:Ep; case_bool_decide; try done.
    + intros (l & Hl & ->)%fmap_Some. constructor; auto.
    + subst. intros Hl. constructor; auto.
  - induction 1 as [|p pattern path caps Hp _ IH|p s pattern path caps Hp Hs _ IH]; cbn; [done|..]; rewrite Hp.
    + by rewrite bool_decide_eq_true_2.
    + by rewrite bool_decide_eq_false_2, IH.
Qed.

Definition route_match (v : verb) (path : string) (gr : group * route) : option (group * handler * list string) :=
  if bool_decide (ro_verb gr.2 = v) then
    pair (gr.1, ro_handler gr.2) <$> captures (segments (ro_pattern gr.2)) (segments path)
  else None.

Lemma route_match_Some v path gr g h caps :
  route_match v path gr = Some (g, h, caps) <->
  gr.1 = g /\ ro_verb gr.2 = v /\ ro_handler gr.2 = h /\ route_matches gr.2 path caps.
Proof.
  unfold route_match, route_matches. rewrite <- captures_spec. case_bool_decide; [|naive_solver].
  rewrite fmap_Some. naive_solver.
Qed.

(** The first route that matches: a router that has the laws. *)
Definition first_match : Router := fun table v path => head (omap (route_match v path) table).
#[local] Existing Instance first_match.

#[local] Instance first_match_laws : RouterLaws first_match.
Proof.
  split.
  - intros table v path g h caps _ Hr.
    assert (Hin : (g, h, caps) ∈ omap (route_match v path) table).
    { unfold route_to, first_match in Hr. destruct (omap _ _); [done|]. injection Hr as ->. left. }
    apply list_elem_of_omap in Hin as ([g' r] & Hin & (<- & <- & <- & Hm)%route_match_Some). by exists r.
  - intros table g r path caps _ Hin Hm Hone Huniq. unfold route_to, first_match.
    assert (Hall : forall x, x ∈ omap (route_match (ro_verb r) path) table -> x = (g, ro_handler r, caps)).
    { intros [[g' h'] caps'] (gr & Hgr & Hx)%list_elem_of_omap. apply route_match_Some in Hx as (<- & Hv & <- & Hm').
      assert (gr = (g, r)) as -> by (apply Huniq; [done|by eapply Hone|done]). unfold route_matches in Hm, Hm'.
      cbn in Hm'. apply captures_spec in Hm. apply captures_spec in Hm'. cbn. congruence. }
    assert (Hx : (g, ro_handler r, caps) ∈ omap (route_match (ro_verb r) path) table).
    { apply list_elem_of_omap. exists (g, r). split; [done|]. by apply route_match_Some. }
    destruct (omap _ table) as [|x l]; [by apply not_elem_of_nil in Hx|]. cbn. by rewrite (Hall x) by left.
Qed.

(** ** A server with two publishers *)

(** The hash of a key is the key behind the prefix. *)
Definition plain_phc (h : string) : bool := true.
Definition plain_password (k : bytes) (h : string) : bool := bool_decide (as_bytes h = as_bytes "$argon2id$" ++ k).
Definition plain_hash (k : string) : result string string :=
  if forallb (fun c => (33 <=? code c) && (code c <? 127)) (chars k) then Ok ("$argon2id$" +:+ k) else Err "not printable".
Definition plain_decode (s : string) : option string := if bool_decide ("%"%char ∈ chars s) then None else Some s.

Definition key_lines : string :=
  "$argon2id$wonderland owner=alice apps=app pubkey=" +:+ hash_to_hex (replicate 32 (byte_of_Z 97)) +:+ NL +:+
  "$argon2id$builder owner=bob apps=tool" +:+ NL.

Definition srv_world : world :=
  {| files := {[ ["srv"] := Dir; ["srv"; "api_keys.txt"] := File (as_bytes key_lines) ]}; faults := no_faults; tick := 0 |}.

Definition cli : Cli :=
  {| cli_command := None; cli_host := "127.0.0.1"; cli_port := 8080%N; cli_data_dir := "/srv";
     cli_generate_api_key := false; cli_trust_proxy := false |}.

Abbreviation run_main := (main toy_hex_decode plain_phc plain_hash None (fun _ => true) Ok (fun _ => Ok tt)).
Abbreviation state := (with_options toy_hex_decode plain_phc "/srv" false srv_world).1.
Abbreviation serve_toy := (serve toy_digest toy_verify toy_hex_decode toy_base64 plain_phc plain_password plain_decode Release state).
Abbreviation session_toy := (session toy_digest toy_verify toy_hex_decode toy_base64 plain_phc plain_password plain_decode Release state).

(** The command line, from [main] to the state. *)
Example started :
  let out := run_main cli [] (Some "no") (Some "https://example.com, https://www.example.com") srv_world in
  match out.1 with
  | Ok (Listens st origins addr) =>
      size (publishers st) = 2%nat /\ trust_proxy st = false /\ addr = "127.0.0.1:8080" /\
      origins = Some ["https://example.com"; "https://www.example.com"]
  | _ => False
  end /\ files out.2 !! ["srv"; "apps"] = Some Dir.
Proof. vm_compute. repeat split. Qed.

(** A request from an address, with a key or without. *)
Definition request (v : verb) (path : string) (key : option string) (parts : option (list part)) (now : Z) : Request :=
  {| sr_addr := "192.0.2.7"; sr_headers := {| h_forwarded_for := None; h_api_key := key |}; sr_verb := v; sr_path := path;
     sr_update_query := Some (query "0.9.0"); sr_platform := Some "linux-x86_64"; sr_percentage := Some 10; sr_parts := parts;
     sr_auth_times := (now, now); sr_limit_time := now; sr_now := ""; sr_uptime := 0; sr_entropy := toy_entropy |}.

Definition publication : Request :=
  request VPost "/api/v1/apps/app/versions/1.0.0" (Some "wonderland") (Some (upload "1.0.0" "linux-x86_64" "hello")) 1.
Definition check_it : Request := request VGet "/api/v1/apps/app/check-update" None None 2.
Definition fetch_it : Request := request VGet "/api/v1/apps/app/versions/1.0.0/binary" None None 3.
(** Bob's key is for another application. *)
Definition intrusion : Request :=
  request VPost "/api/v1/apps/app/versions/2.0.0" (Some "builder") (Some (upload "2.0.0" "linux-x86_64" "evil")) 4.

Definition published_server : server :=
  match serve_toy publication (new_server srv_world) with Some (_, s) => s | None => new_server srv_world end.

(** From publication to download. *)
Example over_the_wire :
  match session_toy [Arrives publication; Arrives intrusion; Sweeps Publishing 4; Arrives check_it; Arrives fetch_it]
          (new_server srv_world) with
  | ([(_, Handled (PublishIs (Ok r))); (_, Handled (PublishIs (Err (FORBIDDEN, _)))); (_, Handled (UpdateIs (Ok u)));
      (_, Handled (FileIs (Ok f)))], s) =>
      full_binary_url u = Some "/api/v1/apps/app/versions/1.0.0/binary?platform=linux-x86_64" /\
      body f = as_bytes "hello"
  | _ => False
  end.
Proof. vm_compute. repeat split. Qed.

(** ** Applications of the theorems *)

Definition is_some {A} (o : option A) : bool := match o with Some _ => true | None => false end.

Lemma only_publishers_change_store_witness :
  exists r s', serve_toy publication (new_server srv_world) = Some (r, s') /\
    (files (sv_world s') = files srv_world \/
     exists p app, grants plain_phc plain_password state publication p /\ publishes "/srv" p app (files srv_world) (files (sv_world s'))).
Proof.
  assert (Hs : is_some (serve_toy publication (new_server srv_world)) = true) by (vm_compute; reflexivity).
  destruct (serve_toy publication (new_server srv_world)) as [[r s']|] eqn:E; [clear Hs|discriminate Hs].
  exists r, s'. split; [reflexivity|].
  destruct (only_publishers_change_store toy_digest toy_verify toy_hex_decode toy_base64 plain_decode plain_phc plain_password
    Release "/srv" false srv_world publication (new_server srv_world) r s' E)
    as [H|(g & h & caps & p & app & rest & _ & _ & _ & _ & Hg & Hp)]; [left; exact H|].
  right. exists p, app. split; [exact Hg|exact Hp].
Defined.

(** What the keys of the two requests grant. *)
Lemma nobody p : ~ grants plain_phc plain_password state check_it p.
Proof. intros (k & h & Hk & _). discriminate Hk. Qed.

Lemma only_bob p : grants plain_phc plain_password state intrusion p -> allowed_apps p = Some {["tool"]}.
Proof.
  intros (k & h & Hk & Hp & _ & _ & Hv). injection Hk as <-. apply bool_decide_eq_true in Hv.
  assert (h = "$argon2id$builder") as ->.
  { apply (inj as_bytes). rewrite Hv. vm_compute. reflexivity. }
  assert (E : publishers state !! "$argon2id$builder" = Some {| owner := "bob"; allowed_apps := Some {["tool"]}; pubkey := None |})
    by (vm_compute; reflexivity).
  rewrite E in Hp. by injection Hp as <-.
Qed.

Lemma two_outsiders : outsiders plain_phc plain_password state "app" [Arrives check_it; Arrives intrusion].
Proof.
  constructor; [intros p Hg; by apply nobody in Hg|constructor; [|constructor]].
  intros p Hg. apply only_bob in Hg. unfold can_publish. rewrite Hg. split; vm_compute; reflexivity.
Qed.

Lemma applications_isolated_witness :
  let q := resolve (catalog_path "/srv" "app") in
  files (sv_world (session_toy [Arrives check_it; Arrives intrusion] published_server).2) !! q =
  files (sv_world published_server) !! q.
Proof.
  apply (applications_isolated toy_digest toy_verify toy_hex_decode toy_base64 plain_decode plain_phc plain_password
    Release "/srv" false srv_world "app" [Arrives check_it; Arrives intrusion] published_server).
  - vm_compute. reflexivity.
  - discriminate.
  - apply two_outsiders.
  - exists ["catalog.json"]. vm_compute. reflexivity.
Defined.

Lemma requests_bounded_witness :
  got state Updates "192.0.2.7" 0 (from_secs 60) (session_toy [Arrives check_it; Sweeps Updates 2; Arrives check_it] (new_server srv_world)).1 <= 200.
Proof.
  apply (requests_bounded toy_digest toy_verify toy_hex_decode toy_base64 plain_decode plain_phc plain_password Release state
    Updates "192.0.2.7" srv_world 0 0 [Arrives check_it; Sweeps Updates 2; Arrives check_it]).
  - match goal with |- Sorted _ (_ :: ?l) => change l with [2; 2; 2] end.
    repeat constructor; lia.
  - repeat split; vm_compute; reflexivity.
Defined.

Lemma addresses_routed_witness :
  routed plain_decode VPost "/api/v1/apps/app/versions/1.0.0" Publishing PublishVersion ["app"; "1.0.0"] /\
  split_str "-to-" "0.9.0-to-1.0.0" = ["0.9.0"; "1.0.0"].
Proof.
  destruct (addresses_routed plain_decode "app" "1.0.0" "0.9.0") as (_ & Hp & _ & _ & Hd).
  - intros s Hs. unfold plain_decode. by rewrite bool_decide_eq_false_2.
  - vm_compute. reflexivity.
  - vm_compute. reflexivity.
  - vm_compute. reflexivity.
  - split; [|apply Hd; vm_compute; reflexivity].
    destruct (Hp {| ac_base_url := ""; ac_api_key := None; ac_https_only := false; ac_max_retries := 3; ac_initial_backoff_ms := 0 |}
      {| pq_app_name := "app"; pq_version := "1.0.0"; pq_platform := "linux-x86_64"; pq_binary_data := [];
         pq_signature := []; pq_checksum := [] |} eq_refl eq_refl) as (path & Hu & Hr).
    change ("/api/v1/apps/app/versions/1.0.0" = path) in Hu. by subst path.
Defined.

(** A server that has nothing but its routes. *)
Definition not_found_net (n : nat) (rq : http_request) : result reqwest_error http_response :=
  Ok {| rs_status := 404; rs_content_length := None; rs_content_range := None; rs_chunks := [] |}.

Lemma health_probe_misses_witness :
  (server_health_check not_found_net (fun _ => None) (default_config None)
     (Sys empty_world (Sql.Conn tt None []) [] [] [])).1 = Ok false.
Proof.
  refine (proj2 (health_probe_misses not_found_net (fun _ => None) (default_config None) _ _)).
  intros n rq path resp _ _ [= <-]. reflexivity.
Defined.

Lemma plain_hash_argon2 k h : plain_hash k = Ok h ->
  starts_with "$argon2id$" h = true /\ Forall visible (chars h) /\ plain_phc h = true /\ plain_password (as_bytes k) h = true.
Proof.
  unfold plain_hash. destruct (forallb _ _) eqn:E; [|done]. intros [= <-]. split_and!.
  - apply starts_with_spec. by eexists.
  - rewrite chars_app. apply Forall_app. split; [by repeat (constructor; [by vm_compute|])|].
    apply Forall_forall. intros c Hc. rewrite forallb_forall in E. apply list_elem_of_In, E in Hc. unfold visible. lia.
  - done.
  - unfold plain_password. rewrite as_bytes_app. by rewrite bool_decide_eq_true_2.
Qed.

Definition hashing : Cli :=
  {| cli_command := Some (CmdHashKey (Some "wonderland")); cli_host := ""; cli_port := 0%N; cli_data_dir := "";
     cli_generate_api_key := false; cli_trust_proxy := false |}.
Definition hashed_world : world :=
  {| files := {[ ["srv"; "api_keys.txt"] := File (as_bytes ("$argon2id$wonderland" +:+ NL)) ]}; faults := no_faults; tick := 0 |}.

Lemma hashed_key_admits_witness :
  exists lim', require_api_key plain_phc plain_password Release (with_options toy_hex_decode plain_phc "/srv" false hashed_world).1
    "192.0.2.7" {| h_forwarded_for := None; h_api_key := Some "wonderland" |} 0 0 limiter_new = (Val (Ok Auth.admin), lim').
Proof.
  apply (hashed_key_admits toy_hex_decode plain_phc plain_password plain_hash None (fun _ => true) Ok (fun _ => Ok tt)
    plain_hash_argon2 hashing "wonderland" [] None None srv_world "$argon2id$wonderland" srv_world).
  - reflexivity.
  - vm_compute. reflexivity.
  - intros n. reflexivity.
  - vm_compute. reflexivity.
  - vm_compute. reflexivity.
Defined.

(** The publication succeeds. *)
Definition is_published {SV : Semver} (r : response) : bool := match r with Handled (PublishIs (Ok _)) => true | _ => false end.

Lemma publication_served :
  exists r, serve_toy publication (new_server srv_world) = Some (Handled (PublishIs (Ok r)), published_server).
Proof.
  assert (Hs : match serve_toy publication (new_server srv_world) with Some (r, _) => is_published r | None => false end = true)
    by (vm_compute; reflexivity).
  unfold published_server. destruct (serve_toy publication (new_server srv_world)) as [[r s]|]; [|discriminate Hs].
  destruct r as [| |[| | | |[r|e]| | | | | |]]; try discriminate Hs. by exists r.
Qed.


(** ** A name that is a directory *)

(** ["."] is a valid name of an application: its directory is that of all
    applications, and its versions are stored in the directory of the application
    named [versions]. *)
Theorem dot_is_an_application :
  validate_name "." = Ok tt /\ resolve (app_dir "/srv" ".") = ["srv"; "apps"] /\
  resolve (version_dir "/srv" "." "1.0.0") = resolve (app_dir "/srv" "versions") ++ ["1.0.0"].
Proof. vm_compute. repeat split. Qed.
